(* ===== verification/_CoqProject ===== *)
-Q . S2P
Prelude.v
Text.v
Doubles.v
NumberText.v
Protocol.v
Cues.v
Geodesy.v
RouteMatcher.v
SampleMath.v
RouteMatcherFacts.v
Waypoints.v
Maneuver.v
ManeuverFacts.v
Progress.v
Session.v
Speed.v
Snapshot.v
Itinerary.v
StopAreas.v
Captures.v
StopCursor.v
Samples.v
Database.v
Repository.v
RepositoryFacts.v
Register.v
Effects.v
Reroute.v
Refresh.v
Location.v
Permission.v
Processor.v
Guidance.v
TransitEngine.v
TransitEngineFacts.v
Ride.v
TransitSession.v
Engine.v
EngineFacts.v
Drive.v
SampleEngine.v
Ground.v
GroundFacts.v
TransitWalk.v
TransitCue.v
TransitBatch.v
TransitProcessor.v
RideSession.v
Notifications.v
Alerts.v
RideAlerts.v
Coordinator.v
SampleWorld.v
CoordinatorFacts.v
Commands.v
Guarantees.v
Base64.v
Wire.v
Bridge.v
BridgeFacts.v
Recovery.v
Publish.v
PageModel.v
PageFacts.v
PageShell.v
Words.v
Sha256.v
TileId.v
Pmtiles.v
Archive.v
PackageIndex.v
Manifest.v
Resolver.v
Download.v
DownloadFacts.v
DownloadEnds.v
Request.v
Writer.v
Generated.v
