(* ===== verification/Prelude.v ===== *)
(** * The navigation authority of the installed OpenMapX app

    OpenMapX is a web map with an installed shell (apps/mobile).  When the shell
    is present, it, and not the page, owns a running navigation session: it
    keeps the one durable record, drives the one location stream, speaks,
    schedules notifications, and answers the page over a bridge.  This library
    models that authority as it is written in TypeScript, down to the arithmetic
    of the guidance engines (packages/core/src/navigation), and proves what makes
    it trustworthy.  It also models the maps a traveller has downloaded
    (apps/web/src/lib/offlineAreas), which the page falls back on without a network, and
    the writer of their archives on the server.

    ** How the program fits together

    The page sends commands through the bridge (bridge/nativeBridge.ts); the
    operating system delivers location batches; remote services answer reroutes
    and transit refreshes.  All of them reach one coordinator
    (navigation/NavigationCoordinator.ts), which runs one operation at a time,
    asks a mode's processor (navigation/processor.ts) for the next session,
    commits it by compare-and-swap to the repository
    (storage/SessionRepository.ts over the statements of storage/sql.ts), and
    only then runs the committed effects (navigation/effects.ts).  There are two
    processors: the ground one asks processFix.ts, the transit one
    processTransitFix.ts, for every position.

    A downloaded area is one archive of tiles (PMTiles) with a manifest.  The server makes
    it (offline-packages/generator.ts of the data manager over packages/cli's
    tile-pmtiles.ts) from the canonical form of what the traveller asked for
    (packages/core/src/offline/offlinePackage.ts).  The download
    (offlineAreas/packageDownload.ts) resumes from what the storage (packageStorage.ts)
    has of it and takes its digest while it arrives (sha256.ts); then its directories are
    read and validated (pmtilesReader.ts), and the resolver (packageResolver.ts) finds the
    area for a coordinate or a route through a packed tree of boxes.

    ** Files, in dependency order

    - Prelude: JavaScript numbers (rationals rounded to doubles), decoded JSON, the
      state-and-error monad [M], invariants ([preserves], with its hint database),
      preorders of states ([respects]), stable sorting, lists.  Text, Doubles,
      NumberText: the strings, the rounded arithmetic and the number printing of the
      language, as far as the code uses them.
    - Protocol: packages/core/src/navigation/mobileProtocol.ts, the wire messages and
      their bounds.  Cues: packages/i18n (navigationCues.ts, translator.ts), what can
      be said.
    - Geodesy, RouteMatcher, Waypoints, Maneuver, Progress, Speed: the parts of the
      ground engine (coordinates.ts, routeMatcher.ts, waypointOccurrences.ts,
      routeStopDetours.ts, maneuverPosition.ts, stepGate.ts, progress.ts,
      navigationSpeed.ts), with RouteMatcherFacts and ManeuverFacts.
    - Session, Snapshot: mobileSession.ts and apps/mobile/src/navigation/snapshots:
      the persisted document and its schema, the projections the page is given.
    - Itinerary, StopAreas, Captures, StopCursor: a journey's data
      (transitPackage.ts, transitRefresh.ts, transitWalkRepair.ts,
      transitStopAreas.ts, transitStops.ts, transitStopCursor.ts, transitProgress.ts).
    - Database, Repository: storage/sql.ts, one function a statement, and
      storage/SessionRepository.ts, one definition a method.  RepositoryFacts has
      the invariant [db_wf] and the behaviour of each method; Register has the
      abstract specification, a compare-and-swap register ([spec_op]), and the
      refinement of it by the repository.
    - Effects: the effect runner.  Reroute, Refresh: the back-off runtimes of
      ground/rerouteState.ts and transit/refreshState.ts.
    - Location: apps/mobile/src/location, from raw fixes to the one stream of the
      driver.  Permission: apps/mobile/src/permissions.
    - Processor: the interface of a mode's processor (a record of operations) and
      its laws ([ProcessorLaws]), against which the coordinator is proved.
    - Guidance: the guidance options and the interface of the ground engine
      ([GuidanceEngine], [GuidanceLaws]); Engine implements it (processFix.ts,
      voiceCue.ts, reroute.ts), EngineFacts and Drive prove it.  Ground, GroundFacts:
      the ground processor (navigation/ground), which discharges [ProcessorLaws].
    - TransitEngine, TransitEngineFacts: processTransitFix.ts.  TransitSession,
      TransitWalk, TransitCue, TransitBatch, TransitProcessor: the transit processor
      (navigation/transit and transitWalk.ts), which discharges [ProcessorLaws] too.
    - Notifications, Alerts: apps/mobile/src/notifications and the
      get-off alert (AlightAlertPolicy.ts, alightAlertCopy.ts, createAlertPort.ts).
    - Coordinator: every handler of the class.  CoordinatorFacts: shared lemmas.
      Commands, Guarantees: the theorems about commands, starts, batches and late
      answers.
    - Base64, Wire, Bridge, BridgeFacts: bridge/base64.ts, outboundScript.ts,
      channel.ts, nativeBridge.ts, shell/originPolicy.ts and the native-to-web
      schemas.
    - Recovery: apps/mobile/src/lifecycle, over the repository and the driver.
    - Publish: navigation/snapshots, the throttle and the publish port.  PageModel:
      the page's read model (apps/web/src/lib/mobile/nativeSnapshotReducer.ts and
      nativeSurfaceStop.ts, packages/core/src/stores/navigationStore.ts); PageFacts,
      PageShell: the read model against the commits of the shell.
    - Words: the 32-bit operators of the language.  Sha256: sha256.ts, with the
      definition of the standard in its Module [FIPS].  TileId, Pmtiles, Archive:
      pmtilesReader.ts, the number of a tile, the header, the directories (with the
      encoder of pmtilesReader.test.ts), and a validated archive as a search of its
      entries.
    - PackageIndex: the packed tree of packageResolver.ts.  Manifest: the
      manifest and its schema (packages/core/src/offline/offlinePackage.ts).  Resolver:
      the rest of the resolver and the published order of offlinePackage.ts.
    - Download: the archive file and the in-memory storage of packageStorage.ts, and
      packageDownload.ts, a monad of its own ([D]) whose errors are values, and
      the library of areas (with the check of runtime.ts at the start of the page).
      DownloadFacts: its invariant, by triples; DownloadEnds: what an honest server is
      enough for.
    - Request: the canonical request of offlinePackage.ts and its key.  Writer:
      packages/cli/src/lib/tile-pmtiles.ts, from the rows of the tables to the bytes of the
      archive and their inspection, and the manifest generator.ts makes of it.  Generated:
      the page reads what the server writes.
    - Samples, SampleMath, SampleEngine, SampleWorld, Ride, RideSession, RideAlerts:
      concrete values and the witnesses that need them.

    ** State and operations

    A handler is a function of [M S]: it resolves ([Ok]) or rejects ([Throw]) and
    in both cases leaves a state; [transaction] is the combinator that rolls back.
    The database is a record with one list per table; a reading of the clock, of
    random or of the environment is the next element of a sequence the class of
    the environment gives ([CoordinatorDeps], [BridgeDeps], [RecoveryEnv],
    [PermissionWorld], [AlertEnv]), so every theorem holds for every behaviour of the
    user and of the system.  What the outside sees is a trace kept in the state.
    Calls that wait are split where they wait: between the two halves of the bridge's
    [receive] any other event may happen.  A pure function that may throw is in
    [outcome].

    ** What the theorems show

    - Durability (RepositoryFacts, Register): the database invariant under every
      sequence of operations, refinement of the register, no lost update, a first
      revision never displaces a live session, an unreadable row is quarantined
      once, bounds of the outbox and of the diagnostic log.
    - The coordinator (Commands, Guarantees): a start is all or nothing, a batch is
      one revision with its effects after it (every effect records the database it
      found), a command is executed at most once while its answer is kept, stale
      commands and late answers change nothing.
    - The ground engine (RouteMatcherFacts, ManeuverFacts, Progress, Speed,
      EngineFacts): the index of the matcher finds what a full scan finds unless one of
      its caps overstates a distance, manoeuvres are in order, the step gate never goes
      back, no cue is spoken twice, arrival is earned, reroutes are spaced, states keep
      their type, a fix is answered exactly when it is unusable or the route has a line.
    - The transit engine (Captures, StopCursor, TransitEngineFacts): captures are what
      is ridden, the stop cursor is steady, positions never board or alight, no event
      is told twice within the ledger's reach, an undo takes the rider back, states keep
      their type but for the distances measured, every tick over positions is answered.
    - The processors (GroundFacts, TransitBatch, TransitProcessor): which
      packages are accepted, what a replacement resets, that the caches never show,
      what a batch may say and queue, when a batch leaves a readable session.
    - What is said and scheduled (Cues, Alerts): every plausible cue has a
      sentence, one alert for the ride in hand (a pending one is left as it is).
    - The page (Publish, PageFacts, PageShell): ordinary progress is throttled, and what
      the page renders is always of one session the shell has committed.
    - The edges (Location, Permission, Bridge, Base64, Recovery): monotone fixes,
      one stream, a permission flow that cannot loop, the gauntlet of the bridge,
      at most one admission of a message, a bounded queue, inert scripts, no
      tracking resumed by itself.
    - Downloaded areas (Sha256, TileId, Pmtiles, Archive, PackageIndex,
      Resolver, DownloadFacts, DownloadEnds): a package is listed as ready only with
      an archive of its digest that has been validated, with an honest server two downloads
      are enough whatever earlier ones have left, the streamed digest is the standard's, a number below the limit is
      one tile's, directories are read back as written, a validated archive answers every
      tile as its entries do (but for a run across a pointer), the tree finds what a scan
      finds, the area chosen is the one the published order names.
    - From the server to the page (Request, Writer, Generated): a canonical request is a
      fixed point, and a generated package passes every check of the page and answers
      every tile as the tables of the server do.
    - Defects the code has, as theorems: [too_many_failures_lose_the_session],
      [one_cue_too_many_loses_the_session], [clock_step_back_loses_the_session],
      [expired_session_blocks_prepare], [expired_command_is_not_remembered],
      [voice_switch_is_dropped], [replacement_effects_are_dropped],
      [resume_restarts_the_stream], [missing_distance_never_arrives],
      [a_live_update_keeps_the_old_alarm], [ending_a_session_leaves_its_alarm],
      [a_run_across_a_pointer_is_lost], [a_rounded_touch_is_pruned],
      [a_step_without_metres_loses_the_journey],
      [an_approximate_background_grant_is_taken],
      [an_area_up_to_the_limit_never_validates].

    ** Bounds and fuel

    Loops over data are structural.  The trimming loop of the diagnostics gets one
    round more than there are rows and removes a row a round; a batch is retried
    once after a conflict, as the code does; the permission loop has its twelve
    transitions, of which five are enough ([permission_flow_never_loops]); the step
    gate and the walk along a step's line get as many rounds as there are steps or
    vertices ([step_gate_is_a_ratchet], [every_fix_on_a_line_is_answered]); the digest
    has a turn for every byte, the tree one for every entry ([index_query_is_a_scan]).  Integers
    the code keeps in the safe range are [Z] with the schema's bounds; the hashes wrap
    at 32 bits; other numbers are doubles, rounded after every operation.

    ** What is not modelled

    Code outside the repository is a parameter: [Math] ([MathFunctions], [MathLog]), Turf
    ([Turf] with its laws [TurfLaws]: a distance it measures is not negative, and two
    finite numbers are a point; what it makes of other values is [point] and
    [loose_positions]), dates ([DateParser]), the ICU formatter ([Intl]), the notification center
    ([NotificationCenter]), the URL parser, the text encoder and the schema library;
    so are the message catalogues ([Catalogue]), whose texts have characters above the
    255 the strings of this library hold, the receipts of extension-contracts
    ([ReceiptValidators], [RouteReceipts]) and the decoder from checked JSON to a typed
    command ([WireDecoder]), gzip ([ArchiveCodecs], [NodeCodecs]), JSON text ([JsonText]),
    the collation of the browser
    ([Collation]), and the check of ISO dates of the schema library ([PackageDates]).  The
    network, the clock and the rejections a download meets are its world ([DownloadWorld]);
    of the storages of areas, the one over memory is modelled, and those over OPFS and
    IndexedDB are not.  The coasting timer, surfaces, voice input, car projection
    and migrations are not modelled; of the server only the writer of the archives and the
    manifest is, without its files, jobs and leases; the integrations and the user
    interface are outside. *)

From stdpp Require Export base list strings gmap pretty.
From Stdlib Require Export ZArith Lia.
From Stdlib Require Import QArith_base Qround Qreduction.
From Stdlib Require Export Sorting.Sorted.

#[global] Open Scope Z_scope.

(** ** JavaScript values *)

(** A JavaScript number.  Every finite double is a rational number, so a finite
    value is kept exactly; the definitions of the library only compare numbers
    and truncate them, which is exact on doubles.  Integers that the code keeps
    in the safe range (time stamps, revisions, indices) are [Z]. *)
Inductive number :=
  | NaN
  | PosInf
  | NegInf
  | Fin (q : Q).

(** [Number.isFinite]. *)
Definition num_is_finite (x : number) : bool :=
  match x with Fin _ => true | _ => false end.

(** The integer [n] as a JavaScript number. *)
Definition num_of_Z (n : Z) : number := Fin (inject_Z n).

(** [x <= y]; every comparison with [NaN] is false. *)
Definition num_le (x y : number) : bool :=
  match x, y with
  | NaN, _ | _, NaN => false
  | NegInf, _ | _, PosInf => true
  | PosInf, _ | _, NegInf => false
  | Fin p, Fin q => Qle_bool p q
  end.

(** [x < y]. *)
Definition num_lt (x y : number) : bool :=
  match x, y with
  | NaN, _ | _, NaN => false
  | _, _ => negb (num_le y x)
  end.

(** [x === y] on numbers (so [-0 === 0] and [NaN !== NaN]). *)
Definition num_eq (x y : number) : bool := num_le x y && num_le y x.

(** [Math.trunc] on a finite number. *)
Definition q_trunc (q : Q) : Z := Z.quot (Qnum q) (Zpos (Qden q)).

(** *** Double arithmetic

    A rational is rounded to the nearest double, ties to even, which is what the
    four operations of the language do with their exact result.  The sign of zero
    is not kept: nothing the library models can observe it. *)

Definition q_scale (e : Z) (q : Q) : Q :=
  if 0 <=? e then (Qnum q * 2 ^ e) # (Qden q)
  else Qnum q # (Qden q * Z.to_pos (2 ^ (- e))).

Definition round_half_even (q : Q) : Z :=
  let f := Qfloor q in
  match Qcompare (q - inject_Z f) (1 # 2) with
  | Lt => f
  | Gt => f + 1
  | Eq => if Z.even f then f else f + 1
  end.

(** The exponent of the leading binary digit of a positive rational. *)
Definition q_log2 (q : Q) : Z :=
  let g := Z.log2 (Qnum q) - Z.log2 (Zpos (Qden q)) in
  if Qle_bool (q_scale g 1) q then g else g - 1.

Definition q_abs (q : Q) : Q := Z.abs (Qnum q) # (Qden q).

Definition round_double (q : Q) : number :=
  if Qnum q =? 0 then Fin 0
  else let e := Z.max (q_log2 (q_abs q) - 52) (-1074) in
       let r := q_scale e (inject_Z (round_half_even (q_scale (- e) q))) in
       if Qle_bool (inject_Z (2 ^ 1024)) (q_abs r)
       then if 0 <=? Qnum q then PosInf else NegInf
       else Fin (Qred r).

Definition num_neg (x : number) : number :=
  match x with
  | NaN => NaN | PosInf => NegInf | NegInf => PosInf
  | Fin q => Fin (- q)
  end.

Definition num_add (x y : number) : number :=
  match x, y with
  | NaN, _ | _, NaN => NaN
  | PosInf, NegInf | NegInf, PosInf => NaN
  | PosInf, _ | _, PosInf => PosInf
  | NegInf, _ | _, NegInf => NegInf
  | Fin p, Fin q => round_double (p + q)
  end.

Definition num_sub (x y : number) : number := num_add x (num_neg y).

(** The sign of a number: [Lt] below zero, [Eq] zero, [Gt] above. *)
Definition num_sign (x : number) : comparison :=
  match x with
  | NaN => Eq | PosInf => Gt | NegInf => Lt
  | Fin q => Z.compare (Qnum q) 0
  end.

Definition infinite_product (x y : number) : number :=
  match num_sign x, num_sign y with
  | Eq, _ | _, Eq => NaN
  | Lt, Lt | Gt, Gt => PosInf
  | _, _ => NegInf
  end.

Definition num_mul (x y : number) : number :=
  match x, y with
  | NaN, _ | _, NaN => NaN
  | Fin p, Fin q => round_double (p * q)
  | _, _ => infinite_product x y
  end.

Definition num_div (x y : number) : number :=
  match x, y with
  | NaN, _ | _, NaN => NaN
  | Fin p, Fin q =>
      if Qnum q =? 0
      then match num_sign x with Eq => NaN | Gt => PosInf | Lt => NegInf end
      else round_double (p / q)
  | Fin _, _ => Fin 0
  | _, Fin q => if Qnum q <? 0 then infinite_product x (num_of_Z (-1)) else x
  | _, _ => NaN
  end.

(** [Math.round]: the nearest integer, halves towards plus infinity. *)
Definition q_round (q : Q) : Z := Qfloor (q + (1 # 2)).

(** [n | 0]: the signed 32-bit integer of an exact integer. *)
Definition to_int32 (z : Z) : Z := (z + 2 ^ 31) mod 2 ^ 32 - 2 ^ 31.

(** [n >>> 0] *)
Definition to_uint32 (z : Z) : Z := z mod 2 ^ 32.

(** [Number.MAX_SAFE_INTEGER]. *)
Definition MAX_SAFE_INTEGER : Z := 9007199254740991.

(** A decoded JSON value.  An object keeps its own properties in order; a later
    duplicate key has already replaced the earlier one. *)
#[local] Unset Elimination Schemes.
Inductive json :=
  | JNull
  | JBool (b : bool)
  | JNum (n : number)
  | JStr (s : string)
  | JArr (items : list json)
  | JObj (fields : list (string * json)).
#[local] Set Elimination Schemes.

(** Induction on JSON values through arrays and objects. *)
Section json_ind.
Variable P : json -> Prop.
Hypothesis HNull : P JNull.
Hypothesis HBool : forall b, P (JBool b).
Hypothesis HNum : forall n, P (JNum n).
Hypothesis HStr : forall s, P (JStr s).
Hypothesis HArr : forall l, Forall P l -> P (JArr l).
Hypothesis HObj : forall fs, Forall (fun kv => P kv.2) fs -> P (JObj fs).

Fixpoint json_ind (j : json) : P j :=
  match j with
  | JNull => HNull
  | JBool b => HBool b
  | JNum n => HNum n
  | JStr s => HStr s
  | JArr l =>
      HArr l ((fix go l : Forall P l :=
                 match l with
                 | [] => Forall_nil_2 P
                 | x :: xs => Forall_cons_2 P x xs (json_ind x) (go xs)
                 end) l)
  | JObj fs =>
      HObj fs ((fix go fs : Forall (fun kv => P kv.2) fs :=
                  match fs with
                  | [] => Forall_nil_2 _
                  | kv :: r => Forall_cons_2 _ kv r (json_ind kv.2) (go r)
                  end) fs)
  end.
End json_ind.

(** [record[key]] on a decoded object. *)
Fixpoint field (key : string) (fs : list (string * json)) : option json :=
  match fs with
  | [] => None
  | (k, v) :: r => if String.eqb k key then Some v else field key r
  end.

Definition json_field (key : string) (j : json) : option json :=
  match j with JObj fs => field key fs | _ => None end.

(** The value of a field when it is a string, as [typeof v === "string"]. *)
Definition json_string (j : option json) : option string :=
  match j with Some (JStr s) => Some s | _ => None end.

(** JavaScript truthiness of a possibly absent value. *)
Definition truthy (j : option json) : bool :=
  match j with
  | None | Some JNull | Some (JBool false) => false
  | Some (JNum NaN) => false
  | Some (JNum n) => negb (num_eq n (num_of_Z 0))
  | Some (JStr s) => negb (String.eqb s "")
  | Some _ => true
  end.

(** [s.slice(0, n)] on a string. *)
Definition slice0 (n : nat) (s : string) : string := String.substring 0 n s.

Lemma slice0_length n s : String.length (slice0 n s) = Nat.min n (String.length s).
Proof.
  unfold slice0. revert s. induction n as [|n IH]; intros [|c s]; simpl; try done. by rewrite IH.
Qed.

Lemma string_length_app s t : String.length (s ++ t)%string = (String.length s + String.length t)%nat.
Proof. induction s as [|c s IH]; simpl; [done|]. by rewrite IH. Qed.

Lemma string_app_assoc (a b c : string) : (a ++ b ++ c = (a ++ b) ++ c)%string.
Proof. induction a as [|x a IH]; [done|]. by apply (f_equal (String x)). Qed.

Definition str_length (s : string) : Z := Z.of_nat (String.length s).

Definition includes (x : string) (l : list string) : bool :=
  existsb (String.eqb x) l.

(** Decimal rendering of an integer, as in a template literal. *)
Definition show_Z (z : Z) : string := pretty z.

(** [n.toString(36)] for a natural number; the fuel is the number of binary
    digits, which bounds the number of digits in base 36. *)
Definition digit36 (d : Z) : string :=
  String.substring (Z.to_nat d) 1 "0123456789abcdefghijklmnopqrstuvwxyz".

Fixpoint digits36 (fuel : nat) (n : Z) (acc : string) : string :=
  match fuel with
  | O => acc
  | S fuel =>
      let acc := (digit36 (n mod 36) ++ acc)%string in
      if n <? 36 then acc else digits36 fuel (n / 36) acc
  end.

Definition toString36 (n : Z) : string := digits36 (S (Z.to_nat (Z.log2 n))) n "".

(** ** Outcomes and the state monad of the handlers *)

(** A promise either resolves or rejects; the code never inspects the error. *)
Inductive outcome (A : Type) :=
  | Ok (a : A)
  | Throw (message : string).
Arguments Ok {A}.
Arguments Throw {A}.

Lemma Ok_inj {A} (x y : A) : Ok x = Ok y -> x = y.
Proof. congruence. Qed.

(** A computation that may throw, one step after the other. *)
#[export] Instance outcome_ret : MRet outcome := @Ok.
#[export] Instance outcome_bind : MBind outcome := fun A B f o =>
  match o with Ok a => f a | Throw e => Throw e end.

Lemma outcome_bind_ok {A B} (f : A -> outcome B) (o : outcome A) b :
  o ≫= f = Ok b -> exists a, o = Ok a /\ f a = Ok b.
Proof. destruct o as [a|e]; [|discriminate]. intros Hf. by exists a. Qed.

(** A handler over a state [S].  A rejection keeps the state reached so far: it
    is the transaction combinator below that rolls a state back. *)
Definition M (S A : Type) : Type := S -> outcome A * S.

#[export] Instance M_ret (S : Type) : MRet (M S) := fun A a s => (Ok a, s).

#[export] Instance M_bind (S : Type) : MBind (M S) := fun A B f m s =>
  match m s with
  | (Ok a, s') => f a s'
  | (Throw e, s') => (Throw e, s')
  end.

Section monad.
Context {S : Type}.

Definition get : M S S := fun s => (Ok s, s).
Definition gets {A} (f : S -> A) : M S A := fun s => (Ok (f s), s).
Definition modify (f : S -> S) : M S unit := fun s => (Ok tt, f s).
Definition throw {A} (e : string) : M S A := fun s => (Throw e, s).
Definition from_outcome {A} (o : outcome A) : M S A := fun s => (o, s).

(** [try { m } catch { h }] *)
Definition try_catch {A} (m : M S A) (h : M S A) : M S A := fun s =>
  match m s with
  | (Ok a, s') => (Ok a, s')
  | (Throw _, s') => h s'
  end.

(** An exclusive transaction: a body that rejects leaves no trace. *)
Definition transaction {A} (m : M S A) : M S A := fun s =>
  match m s with
  | (Ok a, s') => (Ok a, s')
  | (Throw e, _) => (Throw e, s)
  end.

(** [for (const x of l) await f(x)] *)
Fixpoint for_each {A} (l : list A) (f : A -> M S unit) : M S unit :=
  match l with
  | [] => mret tt
  | x :: r => _ ← f x; for_each r f
  end.
End monad.

(** Runs a handler of a component inside a larger state. *)
Definition lift {S T A} (get_part : T -> S) (set_part : S -> T -> T)
    (m : M S A) : M T A := fun t =>
  match m (get_part t) with
  | (o, s') => (o, set_part s' t)
  end.

(** How a handler runs, one step at a time. *)
Lemma bind_ok {S A B} (m : M S A) (f : A -> M S B) s a s' :
  m s = (Ok a, s') -> (m ≫= f) s = f a s'.
Proof. unfold mbind, M_bind. by intros ->. Qed.

Lemma bind_throw {S A B} (m : M S A) (f : A -> M S B) s e s' :
  m s = (Throw e, s') -> (m ≫= f) s = (Throw e, s').
Proof. unfold mbind, M_bind. by intros ->. Qed.

Lemma try_ok {S A} (m h : M S A) s a s' :
  m s = (Ok a, s') -> try_catch m h s = (Ok a, s').
Proof. unfold try_catch. by intros ->. Qed.

Lemma try_throw {S A} (m h : M S A) s e s' :
  m s = (Throw e, s') -> try_catch m h s = h s'.
Proof. unfold try_catch. by intros ->. Qed.

(** ** Preservation of an invariant *)

(** [m] keeps [I], whether it resolves or rejects. *)
Definition preserves {S A} (I : S -> Prop) (m : M S A) : Prop :=
  forall s, I s -> I (m s).2.

Create HintDb preserve discriminated.
#[export] Hint Constants Opaque : preserve.

Section preserves.
Context {S : Type} (I : S -> Prop).

Lemma preserves_ret {A} (a : A) : preserves I (mret a : M S A).
Proof. by intros s. Qed.

Lemma preserves_bind {A B} (m : M S A) (f : A -> M S B) :
  preserves I m -> (forall a, preserves I (f a)) ->
  preserves I (mbind f m).
Proof.
  intros Hm Hf s HI. specialize (Hm s HI).
  unfold mbind, M_bind. destruct (m s) as [[a|e] s']; simpl in *; [by apply Hf|done].
Qed.

Lemma preserves_get : preserves I get.
Proof. by intros s. Qed.

Lemma preserves_gets {A} (f : S -> A) : preserves I (gets f).
Proof. by intros s. Qed.

Lemma preserves_throw {A} e : preserves I (@throw S A e).
Proof. by intros s. Qed.

Lemma preserves_modify f : (forall s, I s -> I (f s)) -> preserves I (modify f).
Proof. intros H s. apply H. Qed.

Lemma preserves_try {A} (m h : M S A) :
  preserves I m -> preserves I h -> preserves I (try_catch m h).
Proof.
  intros Hm Hh s HI. specialize (Hm s HI). unfold try_catch.
  destruct (m s) as [[a|e] s']; simpl in *; [done|by apply Hh].
Qed.

Lemma preserves_transaction {A} (m : M S A) :
  preserves I m -> preserves I (transaction m).
Proof.
  intros Hm s HI. specialize (Hm s HI). unfold transaction.
  by destruct (m s) as [[a|e] s'].
Qed.

Lemma preserves_for_each {A} (l : list A) f :
  (forall x, x ∈ l -> preserves I (f x)) -> preserves I (for_each l f).
Proof.
  induction l as [|x l IH]; intros H; [apply preserves_ret|].
  simpl. apply preserves_bind; [apply H; left|].
  intros _. apply IH. intros y Hy. apply H. by right.
Qed.
End preserves.

#[export] Hint Resolve preserves_ret preserves_bind preserves_get preserves_gets
  preserves_throw preserves_try preserves_transaction : preserve.

(** One syntax-directed step of a preservation proof: the hints for the
    combinators, and a case split on the scrutinee of a [match]. *)
Ltac preserve_step :=
  first
    [ solve [eauto with preserve]
    | lazymatch goal with
      | |- preserves _ (match ?x with _ => _ end) => destruct x eqn:?
      | |- preserves _ (mbind _ _) => apply preserves_bind; [|intros ?]
      | |- preserves _ (try_catch _ _) => apply preserves_try
      | |- preserves _ (transaction _) => apply preserves_transaction
      | |- preserves _ (for_each _ _) => apply preserves_for_each; intros ? _
      | |- preserves _ (modify _) => apply preserves_modify; intros ? ?
      | |- preserves _ (let _ := _ in _) => cbv zeta
      end ].
Ltac preserve := repeat preserve_step.

(** ** Operations that respect a preorder of states *)

Section respects.
Context {S : Type} (R : S -> S -> Prop) `{!PreOrder R}.

Definition respects {A} (m : M S A) : Prop := forall s, R s (m s).2.

Lemma respects_ret {A} (a : A) : respects (mret a : M S A).
Proof. intros s. reflexivity. Qed.

Lemma respects_get : respects get.
Proof. intros s. reflexivity. Qed.

Lemma respects_throw {A} e : respects (@throw S A e).
Proof. intros s. reflexivity. Qed.

Lemma respects_bind {A B} (m : M S A) (f : A -> M S B) :
  respects m -> (forall a, respects (f a)) -> respects (mbind f m).
Proof.
  intros Hm Hf s. specialize (Hm s). unfold mbind, M_bind.
  destruct (m s) as [[a|e] s']; simpl in *; [|done]. etransitivity; [exact Hm|apply Hf].
Qed.

Lemma respects_try {A} (m h : M S A) : respects m -> respects h -> respects (try_catch m h).
Proof.
  intros Hm Hh s. specialize (Hm s). unfold try_catch.
  destruct (m s) as [[a|e] s']; simpl in *; [done|]. etransitivity; [exact Hm|apply Hh].
Qed.
End respects.

(** One syntax-directed step. *)
Ltac respect_step :=
  first
    [ assumption
    | lazymatch goal with
      | |- respects _ (mret _) => apply respects_ret; apply _
      | |- respects _ get => apply respects_get; apply _
      | |- respects _ (throw _) => apply respects_throw; apply _
      | |- respects _ (match ?x with _ => _ end) => destruct x eqn:?
      | |- respects _ (mbind _ _) => apply respects_bind; [apply _| |intros ?]
      | |- respects _ (try_catch _ _) => apply respects_try; [apply _| |]
      | |- respects _ (let _ := _ in _) => cbv zeta
      end ].
Ltac respect := repeat respect_step.

(** ** A stable sort *)

(** [[...l].sort((a, b) => key(a) - key(b))]: JavaScript sorts are stable, and an
    insertion that goes after its equals is the executable reference. *)
Section sort_by.
Context {A : Type} (key : A -> Z).

Fixpoint insert_by (x : A) (l : list A) : list A :=
  match l with
  | [] => [x]
  | y :: r => if key x <? key y then x :: y :: r else y :: insert_by x r
  end.

Definition sort_by (l : list A) : list A :=
  foldl (fun acc x => insert_by x acc) [] l.

Definition sorted_by (l : list A) : Prop :=
  StronglySorted (fun x y => key x <= key y) l.

Lemma insert_by_perm x l : insert_by x l ≡ₚ x :: l.
Proof.
  induction l as [|y r IH]; simpl; [done|].
  case_match; [done|]. rewrite IH. apply Permutation_swap.
Qed.

Lemma insert_by_sorted x l : sorted_by l -> sorted_by (insert_by x l).
Proof.
  induction 1 as [|y r Hr IH Hy]; simpl; [repeat constructor|].
  case_match eqn:E.
  - apply Z.ltb_lt in E. constructor; [by constructor|].
    constructor; [lia|]. eapply Forall_impl; [exact Hy|simpl; lia].
  - apply Z.ltb_ge in E. constructor; [done|].
    rewrite insert_by_perm. by constructor.
Qed.

Lemma foldl_insert_perm l acc :
  foldl (fun acc x => insert_by x acc) acc l ≡ₚ l ++ acc.
Proof.
  revert acc. induction l as [|x l IH]; intros acc; simpl; [done|].
  rewrite IH, insert_by_perm. symmetry. apply Permutation_middle.
Qed.

Lemma sort_by_perm l : sort_by l ≡ₚ l.
Proof. unfold sort_by. by rewrite foldl_insert_perm, app_nil_r. Qed.

Lemma sort_by_sorted l : sorted_by (sort_by l).
Proof.
  unfold sort_by.
  enough (forall acc, sorted_by acc ->
            sorted_by (foldl (fun acc x => insert_by x acc) acc l)) as H
    by (apply H; constructor).
  induction l as [|x l IH]; intros acc Hacc; simpl; [done|].
  apply IH. by apply insert_by_sorted.
Qed.

(** Stability: the elements of one key keep their order. *)
Lemma insert_by_filter k x l :
  sorted_by l ->
  List.filter (fun y => key y =? k) (insert_by x l) =
  (List.filter (fun y => key y =? k) l) ++ (if key x =? k then [x] else []).
Proof.
  induction 1 as [|y r Hr IH Hy]; simpl; [by case_match|].
  destruct (key x <? key y) eqn:E; simpl.
  - apply Z.ltb_lt in E. destruct (key x =? k) eqn:Ex.
    + apply Z.eqb_eq in Ex.
      assert ((key y =? k) = false) as -> by (apply Z.eqb_neq; lia).
      assert (List.filter (fun y => key y =? k) r = []) as ->; [|done].
      clear -Hy E Ex. induction Hy as [|z r Hz Hr IH]; simpl; [done|].
      assert ((key z =? k) = false) as -> by (apply Z.eqb_neq; lia). done.
    + by rewrite app_nil_r.
  - rewrite IH. by destruct (key y =? k).
Qed.

Lemma sort_by_stable k l :
  List.filter (fun y => key y =? k) (sort_by l) =
  List.filter (fun y => key y =? k) l.
Proof.
  unfold sort_by.
  enough (forall acc, sorted_by acc ->
    List.filter (fun y => key y =? k) (foldl (fun acc x => insert_by x acc) acc l) =
    List.filter (fun y => key y =? k) acc ++ List.filter (fun y => key y =? k) l) as H
    by (rewrite H; [done|constructor]).
  induction l as [|x l IH]; intros acc Hacc; simpl; [by rewrite app_nil_r|].
  rewrite IH by (by apply insert_by_sorted).
  rewrite insert_by_filter by done. rewrite <- app_assoc. by destruct (key x =? k).
Qed.
End sort_by.

(** ** Bits *)

(** Putting [k] low bits beside the high ones. *)
Lemma high_low_disjoint x y k : 0 <= k -> 0 <= y < 2 ^ k -> Z.land (Z.shiftl x k) y = 0.
Proof.
  intros Hk Hy. apply Z.bits_inj_iff'. intros n Hn. rewrite Z.land_spec, Z.bits_0.
  destruct (Z.lt_ge_cases n k).
  - by rewrite Z.shiftl_spec_low by lia.
  - rewrite <- (Z.mod_small y (2 ^ k)) by done.
    by rewrite Z.mod_pow2_bits_high, andb_false_r by lia.
Qed.

Lemma lor_disjoint x y k : 0 <= k -> 0 <= y < 2 ^ k -> Z.lor (Z.shiftl x k) y = x * 2 ^ k + y.
Proof.
  intros Hk Hy. pose proof (high_low_disjoint x y k Hk Hy) as E.
  rewrite <- Z.shiftl_mul_pow2 by lia. by rewrite Z.add_nocarry_lxor, Z.lxor_lor.
Qed.

(** ** Chunks of a list *)

(** [l] cut into pieces of [n], the last one shorter; [fuel] bounds their number. *)
Fixpoint chunks {A} (fuel n : nat) (l : list A) : list (list A) :=
  match fuel, l with
  | S fuel, _ :: _ => take n l :: chunks fuel n (drop n l)
  | _, _ => []
  end.

Section chunks.
Context {A : Type}.

Lemma chunks_Forall (P : A -> Prop) fuel n l : Forall P l ->
  Forall (fun c => (length c <= n)%nat /\ Forall P c) (chunks fuel n l).
Proof.
  revert l. induction fuel as [|fuel IH]; intros [|x l] Hl; try constructor.
  - split; [rewrite length_take; lia|by apply Forall_take].
  - by apply IH, Forall_drop.
Qed.

Lemma concat_chunks fuel n (l : list A) : (0 < n)%nat -> (length l <= fuel)%nat -> concat (chunks fuel n l) = l.
Proof.
  intros Hn. revert l. induction fuel as [|fuel IH]; intros [|x l] Hl; [done|cbn in Hl; lia|done|].
  cbn [chunks concat]. rewrite IH; [apply take_drop|]. rewrite length_drop. cbn in *. lia.
Qed.

Lemma chunks_fuel fuel fuel' n (l : list A) : (length l <= fuel)%nat -> (length l <= fuel')%nat ->
  (0 < n)%nat -> chunks fuel n l = chunks fuel' n l.
Proof.
  intros H H' Hn. revert fuel' l H H'. induction fuel as [|fuel IH]; intros [|fuel'] [|x l] H H'; cbn in H, H'; try lia; try done.
  cbn [chunks]. f_equal. apply IH; rewrite length_drop; cbn; lia.
Qed.

Lemma chunks_lookup fuel n (l : list A) i c : chunks fuel n l !! i = Some c ->
  c = take n (drop (n * i) l) /\ (n * i < length l)%nat.
Proof.
  revert l i. induction fuel as [|fuel IH]; intros [|x l] i Hc; cbn [chunks] in Hc;
    try (by rewrite lookup_nil in Hc).
  destruct i as [|i].
  - injection Hc as <-. rewrite Nat.mul_0_r. cbn. split; [done|lia].
  - destruct (IH _ _ Hc) as [-> Hi]. rewrite length_drop in Hi. rewrite drop_drop. split; [do 2 f_equal|]; lia.
Qed.

Lemma chunks_length fuel n (l : list A) : (0 < n)%nat -> (length l <= fuel)%nat ->
  length (chunks fuel n l) = ((length l + (n - 1)) / n)%nat.
Proof.
  intros Hn. revert l. induction fuel as [|fuel IH]; intros [|x l] Hl; cbn [chunks length] in *; try lia.
  1, 2: rewrite Nat.div_small; lia.
  rewrite IH by (rewrite length_drop; cbn; lia). rewrite length_drop. cbn [length].
  destruct (Nat.le_gt_cases n (S (length l))).
  - replace (S (length l) + (n - 1))%nat with (S (length l) - n + (n - 1) + 1 * n)%nat by lia.
    rewrite Nat.div_add by lia. lia.
  - replace (S (length l) - n)%nat with 0%nat by lia. rewrite (Nat.div_small (0 + (n - 1))) by lia.
    apply Nat.div_unique with (r := length l); lia.
Qed.
End chunks.

(** ** [ORDER BY] and sub-selections *)

(** [ORDER BY] with an explicit "comes before" test. *)
Section order_by.
Context {A : Type} (before : A -> A -> bool).

Fixpoint insert_ordered (x : A) (l : list A) : list A :=
  match l with
  | [] => [x]
  | y :: r => if before x y then x :: y :: r else y :: insert_ordered x r
  end.

Definition order_by (l : list A) : list A := foldr insert_ordered [] l.

Lemma insert_ordered_perm x l : insert_ordered x l ≡ₚ x :: l.
Proof.
  induction l as [|y r IH]; simpl; [done|].
  case_match; [done|]. rewrite IH. apply Permutation_swap.
Qed.

Lemma order_by_perm l : order_by l ≡ₚ l.
Proof. induction l as [|x l IH]; simpl; [done|]. by rewrite insert_ordered_perm, IH. Qed.

(** Rows already in order stay as they are. *)
Lemma order_by_sorted l :
  StronglySorted (fun a b => before a b = true) l -> order_by l = l.
Proof.
  induction 1 as [|x l Hl IH Hx]; [done|]. simpl. rewrite IH.
  destruct l as [|y l]; [done|]. simpl.
  apply Forall_cons in Hx as [-> _]. done.
Qed.

Lemma order_by_length l : length (order_by l) = length l.
Proof. by rewrite order_by_perm. Qed.

(** A row that nothing comes before is the first. *)
Lemma order_by_first l x :
  Forall (fun y => before y x = false) l -> exists rest, order_by (l ++ [x]) = x :: rest.
Proof.
  induction 1 as [|y l Hy _ [rest IH]]; [by exists []|].
  simpl. rewrite IH. simpl. rewrite Hy. eauto.
Qed.
End order_by.

(** *** [DELETE ... WHERE] on a table's rows *)

Section filter_lemmas.
Context {A : Type}.

Lemma filter_all (P : A -> Prop) `{forall x, Decision (P x)} (l : list A) :
  Forall P l -> filter P l = l.
Proof.
  induction 1 as [|x l Hx Hl IH]; [done|]. by rewrite filter_cons_True, IH.
Qed.

Lemma filter_none (P : A -> Prop) `{forall x, Decision (P x)} (l : list A) :
  Forall (fun x => ~ P x) l -> filter P l = [].
Proof.
  induction 1 as [|x l Hx Hl IH]; [done|]. by rewrite filter_cons_False.
Qed.

Lemma filter_swap (P Q : A -> Prop) `{forall x, Decision (P x)} `{forall x, Decision (Q x)} (l : list A) :
  filter P (filter Q l) = filter Q (filter P l).
Proof.
  induction l as [|x l IH]; [done|].
  rewrite !filter_cons. repeat (case_decide; rewrite ?filter_cons); try done; by rewrite IH.
Qed.

Lemma sublist_filter_mono (P : A -> Prop) `{forall x, Decision (P x)} (l k : list A) :
  k `sublist_of` l -> filter P k `sublist_of` filter P l.
Proof.
  induction 1 as [|x l k Hs IH|x l k Hs IH]; [done| |]; rewrite !filter_cons; case_decide;
    try done; by constructor.
Qed.

Lemma length_filter_sublist (P : A -> Prop) `{forall x, Decision (P x)} (l k : list A) :
  k `sublist_of` l -> (length (filter P k) <= length (filter P l))%nat.
Proof. intros Hs. by apply sublist_length, sublist_filter_mono. Qed.
End filter_lemmas.

(** Removing from a list without duplicate keys the rows whose key a
    sub-selection of the same rows names removes exactly that many rows. *)
Section remove_selected.
Context {A K : Type} `{EqDecision K} (key : A -> K).

Definition keep_unselected (chosen : list A) (l : list A) : list A :=
  filter (fun r => key r ∉ map key chosen) l.

Lemma keep_unselected_sublist chosen l : keep_unselected chosen l `sublist_of` l.
Proof. apply sublist_filter. Qed.

Lemma keep_unselected_nil l : keep_unselected [] l = l.
Proof. apply filter_all. apply Forall_forall. intros x _. apply not_elem_of_nil. Qed.

Lemma keep_unselected_app chosen rest :
  NoDup (map key (chosen ++ rest)) -> keep_unselected chosen (chosen ++ rest) = rest.
Proof.
  unfold keep_unselected. intros Hnd.
  rewrite map_app in Hnd. apply NoDup_app in Hnd as (_ & Hdis & _).
  rewrite filter_app, filter_none, filter_all; [done| |]; apply Forall_forall; intros x Hx Hin.
  - apply (Hdis _ Hin). by apply list_elem_of_fmap_2.
  - apply Hin. by apply list_elem_of_fmap_2.
Qed.

Lemma keep_unselected_perm chosen rest l :
  NoDup (map key l) -> chosen ++ rest ≡ₚ l -> keep_unselected chosen l ≡ₚ rest.
Proof.
  intros Hnd Hp.
  assert (keep_unselected chosen l ≡ₚ keep_unselected chosen (chosen ++ rest)) as ->
    by (unfold keep_unselected; by rewrite Hp).
  rewrite keep_unselected_app; [done|]. by rewrite Hp.
Qed.

Lemma keep_unselected_take n l :
  NoDup (map key l) -> keep_unselected (take n l) l = drop n l.
Proof.
  intros Hnd. pose proof (keep_unselected_app (take n l) (drop n l)) as Hk.
  rewrite take_drop in Hk. auto.
Qed.

Lemma keep_unselected_length chosen rest l :
  NoDup (map key l) -> chosen ++ rest ≡ₚ l ->
  length (keep_unselected chosen l) = length rest.
Proof. intros ? ?. by rewrite (keep_unselected_perm chosen rest l). Qed.
End remove_selected.

Section sorted_lists.
Context {A : Type} (R : A -> A -> Prop).

Lemma StronglySorted_sublist l k :
  k `sublist_of` l -> StronglySorted R l -> StronglySorted R k.
Proof.
  induction 1 as [|x l k Hs IH|x l k Hs IH]; intros Hl; [constructor| |].
  - apply StronglySorted_inv in Hl as [Hl Hx]. constructor; [auto|].
    rewrite Forall_forall in Hx |- *. intros y Hy. apply Hx.
    by eapply sublist_subseteq.
  - apply StronglySorted_inv in Hl as [Hl _]. auto.
Qed.

Lemma StronglySorted_snoc l x :
  StronglySorted R l -> Forall (fun y => R y x) l -> StronglySorted R (l ++ [x]).
Proof.
  induction 1 as [|y l Hl IH Hy]; intros Hx; simpl; [repeat constructor|].
  apply Forall_cons in Hx as [Hyx Hx]. constructor; [auto|].
  apply Forall_app. by repeat constructor.
Qed.
End sorted_lists.

Lemma NoDup_map_sublist {A B} (f : A -> B) l k :
  k `sublist_of` l -> NoDup (map f l) -> NoDup (map f k).
Proof. intros Hs Hl. eapply sublist_NoDup; [exact Hl|]. by apply fmap_sublist. Qed.

(** A row is found by its key where keys are unique. *)
Lemma find_unique {A} (key : A -> string) (l : list A) r :
  NoDup (map key l) -> r ∈ l -> List.find (fun x => String.eqb (key x) (key r)) l = Some r.
Proof.
  induction l as [|x l IH]; intros Hnd Hr; [by apply not_elem_of_nil in Hr|].
  simpl in Hnd. apply NoDup_cons in Hnd as [Hx Hnd]. simpl.
  apply elem_of_cons in Hr as [->|Hr]; [by rewrite String.eqb_refl|].
  case_match eqn:E; [|by apply IH]. apply String.eqb_eq in E. exfalso. apply Hx.
  rewrite E. by apply list_elem_of_fmap_2.
Qed.

Lemma find_absent {A} (key : A -> string) (l : list A) k :
  k ∉ map key l -> List.find (fun x => String.eqb (key x) k) l = None.
Proof.
  induction l as [|x l IH]; intros Hk; [done|]. simpl in Hk |- *.
  apply not_elem_of_cons in Hk as [Hne Hk]. case_match eqn:E; [|by apply IH].
  apply String.eqb_eq in E. congruence.
Qed.

(** A list in the strict order of an integer key is also ordered weakly. *)
Lemma StronglySorted_weaken {A} (R S : A -> A -> Prop) l :
  (forall x y, x ∈ l -> y ∈ l -> R x y -> S x y) -> StronglySorted R l -> StronglySorted S l.
Proof.
  intros HRS Hl. induction Hl as [|x l Hl IH Hx]; constructor.
  - apply IH. intros a b Ha Hb. apply HRS; by right.
  - rewrite Forall_forall in Hx |- *. intros y Hy. apply HRS; [by left|by right|auto].
Qed.
