(* ===== verification/Text.v ===== *)
(** * The text functions of JavaScript the code uses

    A string is a sequence of code units below 256: trimming, upper case and
    prefixes on those. *)

From S2P Require Import Prelude.

(** The white space of [String.prototype.trim] among the code units a string
    of the library holds. *)
Definition is_white (c : Ascii.ascii) : bool :=
  let n := N.to_nat (Ascii.N_of_ascii c) in
  ((9 <=? n) && (n <=? 13) || (n =? 32) || (n =? 160))%nat.

Fixpoint trim_start (s : string) : string :=
  match s with
  | String c r => if is_white c then trim_start r else s
  | EmptyString => EmptyString
  end.

(** Drops the white space a string ends with. *)
Fixpoint trim_end (s : string) : string :=
  match s with
  | String c r =>
      match trim_end r with
      | EmptyString => if is_white c then EmptyString else String c EmptyString
      | r' => String c r'
      end
  | EmptyString => EmptyString
  end.

Definition trim (s : string) : string := trim_end (trim_start s).

(** [String.prototype.toUpperCase].  The sharp s becomes two letters; the two units
    whose capital lies above 255, the micro sign and the y with diaeresis, stay as they
    are: nothing else has their capital, so comparing upper-case texts is exact. *)
Definition upper_unit (c : Ascii.ascii) : string :=
  let n := Ascii.N_of_ascii c in
  if ((97 <=? n) && (n <=? 122) || (224 <=? n) && (n <=? 254) && negb (n =? 247))%N
  then String (Ascii.ascii_of_N (n - 32)) EmptyString
  else if (n =? 223)%N then "SS" else String c EmptyString.

Fixpoint toUpperCase (s : string) : string :=
  match s with
  | String c r => (upper_unit c ++ toUpperCase r)%string
  | EmptyString => EmptyString
  end.

(** [s.startsWith(start)] *)
Fixpoint startsWith (start s : string) : bool :=
  match start, s with
  | EmptyString, _ => true
  | String c start, String c' s => Ascii.eqb c c' && startsWith start s
  | String _ _, EmptyString => false
  end.

(** Every unit of a text passes a test, as a character class of a pattern asks. *)
Fixpoint all_chars (p : Ascii.ascii -> bool) (s : string) : bool :=
  match s with
  | EmptyString => true
  | String c r => p c && all_chars p r
  end.

(** The rest of a text after a prefix it begins with. *)
Fixpoint strip_prefix (prefix s : string) : option string :=
  match prefix, s with
  | EmptyString, _ => Some s
  | String a p, String b r => if Ascii.eqb a b then strip_prefix p r else None
  | String _ _, EmptyString => None
  end.

(** [s.charCodeAt(i)] of every unit. *)
Fixpoint code_units (s : string) : list Z :=
  match s with
  | String c r => Z.of_N (Ascii.N_of_ascii c) :: code_units r
  | EmptyString => []
  end.

(** [parts.join(separator)] *)
Definition join (separator : string) (parts : list string) : string :=
  String.concat separator parts.

Lemma all_chars_app p s t : all_chars p (s ++ t) = all_chars p s && all_chars p t.
Proof. induction s as [|c s IH]; simpl; [done|]. by rewrite IH, andb_assoc. Qed.

Lemma strip_prefix_app prefix s : strip_prefix prefix (prefix ++ s) = Some s.
Proof.
  induction prefix as [|c p IH]; [by destruct s|].
  change ((if Ascii.eqb c c then strip_prefix p (p ++ s)%string else None) = Some s).
  by rewrite Ascii.eqb_refl.
Qed.

Lemma trim_end_idempotent s : trim_end (trim_end s) = trim_end s.
Proof.
  induction s as [|c s IH]; [done|]. simpl. destruct (trim_end s) as [|c' s'] eqn:E.
  - destruct (is_white c) eqn:Ec; simpl; by rewrite ?Ec.
  - change (trim_end (String c (String c' s'))) with
      (match trim_end (String c' s') with
       | EmptyString => if is_white c then EmptyString else String c EmptyString
       | r' => String c r' end).
    by rewrite IH.
Qed.

Lemma startsWith_app start s : startsWith start (start ++ s)%string = true.
Proof. induction start as [|c start IH]; [done|]. simpl. by rewrite Ascii.eqb_refl. Qed.

(** ** Lengths of rendered numbers *)

Lemma digits_short k x s : (x < 10 ^ N.of_nat k)%N ->
  (String.length (pretty.pretty_N_go x s) <= String.length s + k)%nat.
Proof.
  revert x s. induction k as [|k IH]; intros x s Hx; destruct (decide (0 < x)%N) as [Hpos|Hz].
  - rewrite N.pow_0_r in Hx. lia.
  - assert (x = 0)%N as -> by lia. rewrite pretty.pretty_N_go_0. lia.
  - rewrite pretty.pretty_N_go_step by done. etransitivity; [apply IH|simpl; lia].
    apply N.Div0.div_lt_upper_bound. rewrite Nat2N.inj_succ, N.pow_succ_r' in Hx. exact Hx.
  - assert (x = 0)%N as -> by lia. rewrite pretty.pretty_N_go_0. lia.
Qed.

(** A 32-bit number has at most ten digits. *)
Lemma show_Z_length i : (0 <= i <= 2 ^ 32)%Z -> (String.length (show_Z i) <= 10)%nat.
Proof.
  intros Hi. unfold show_Z, pretty.pretty, pretty.pretty_Z. destruct i as [|p|p]; [simpl; lia| |lia].
  unfold pretty.pretty, pretty.pretty_positive, pretty.pretty, pretty.pretty_N.
  case_decide; [simpl; lia|]. apply (digits_short 10). lia.
Qed.

Lemma digits36_length fuel n acc : (String.length (digits36 fuel n acc) <= fuel + String.length acc)%nat.
Proof.
  revert n acc. induction fuel as [|fuel IH]; intros n acc; cbn [digits36]; [lia|]. cbv zeta.
  assert (String.length (digit36 (n mod 36) ++ acc) <= S (String.length acc))%nat as Hd.
  { rewrite string_length_app. unfold digit36.
    enough (String.length (String.substring (Z.to_nat (n mod 36)) 1 "0123456789abcdefghijklmnopqrstuvwxyz") <= 1)%nat by lia.
    generalize (Z.to_nat (n mod 36)) as k. generalize "0123456789abcdefghijklmnopqrstuvwxyz" as s.
    induction s as [|c s IHs]; intros [|k]; simpl; try lia; [|apply IHs]. destruct s; simpl; lia. }
  destruct (n <? 36); [lia|]. etrans; [apply IH|]. lia.
Qed.

(** Crudely, one digit for every bit. *)
Lemma toString36_length n : (0 <= n < 2 ^ 32)%Z -> (String.length (toString36 n) <= 32)%nat.
Proof.
  intros Hn. unfold toString36. etrans; [apply digits36_length|]. simpl.
  destruct (decide (n = 0)) as [->|]; [simpl; lia|].
  assert (Z.log2 n < 32)%Z by (apply Z.log2_lt_pow2; lia). lia.
Qed.
