(* ===== verification/Doubles.v ===== *)
(** * Doubles

    What the components need to know about the rounded arithmetic of the prelude:
    a rounded result is representable, and rounding never crosses a representable
    bound.  Every numeric bound of the guidance engine follows from these two facts;
    no error analysis is needed.  [Math.max], [Math.min], [Math.abs] and the rest of
    the language's [Math] that the engine uses are here too. *)

From S2P Require Import Prelude.
From Stdlib Require Import QArith Qround Qpower Qabs Lqa.

#[local] Open Scope Q_scope.

#[export] Instance Qle_preorder : PreOrder Qle.
Proof. split; [exact Qle_refl|exact Qle_trans]. Qed.

(** ** Powers of two *)

Definition pow2 (e : Z) : Q := Qpower 2 e.

Lemma pow2_pos e : 0 < pow2 e.
Proof. apply Qpower_0_lt. lra. Qed.

Lemma pow2_add a b : pow2 (a + b) == pow2 a * pow2 b.
Proof. apply Qpower_plus. lra. Qed.

Lemma pow2_inverse e : pow2 (- e) * pow2 e == 1.
Proof. rewrite <- pow2_add. by replace (- e + e)%Z with 0%Z by lia. Qed.

Lemma pow2_Z e : (0 <= e)%Z -> pow2 e == inject_Z (2 ^ e).
Proof. intros He. unfold pow2. by rewrite Zpower_Qpower. Qed.

Lemma pow2_le a b : (a <= b)%Z -> pow2 a <= pow2 b.
Proof. intros Hab. apply Qpower_le_compat_l; [done|lra]. Qed.

Lemma pow2_lt_inv a b : pow2 a < pow2 b -> (a < b)%Z.
Proof.
  intros Hab. destruct (Z_lt_le_dec a b) as [|Hle]; [done|].
  pose proof (pow2_le b a Hle). lra.
Qed.

Lemma q_scale_spec e q : q_scale e q == q * pow2 e.
Proof.
  unfold q_scale. case_match eqn:He.
  - apply Z.leb_le in He. rewrite pow2_Z by done. unfold Qeq. simpl. lia.
  - apply Z.leb_gt in He.
    assert (pow2 e == / inject_Z (2 ^ (- e))) as ->.
    { rewrite <- pow2_Z by lia. unfold pow2. rewrite Qpower_opp. by rewrite Qinv_involutive. }
    assert (0 < 2 ^ (- e))%Z as Hp by (apply Z.pow_pos_nonneg; lia).
    destruct (2 ^ (- e))%Z as [|p|p] eqn:Ep; [lia| |lia].
    unfold Qeq, Qmult, Qinv, inject_Z. simpl. lia.
Qed.

Lemma q_abs_spec q : q_abs q == Qabs q.
Proof. destruct q as [n d]. unfold q_abs, Qabs. simpl. done. Qed.

(** The exponent of the leading digit. *)
Lemma q_log2_spec q : 0 < q -> pow2 (q_log2 q) <= q /\ q < pow2 (q_log2 q + 1).
Proof.
  intros Hq. destruct q as [n d]. unfold Qlt in Hq. simpl in Hq.
  assert (0 < n)%Z as Hn by lia.
  pose proof (Z.log2_spec n Hn) as [Hn1 Hn2].
  pose proof (Z.log2_spec (Zpos d) eq_refl) as [Hd1 Hd2].
  pose proof (Z.log2_nonneg n) as Hln. pose proof (Z.log2_nonneg (Zpos d)) as Hld.
  set (a := Z.log2 n) in *. set (b := Z.log2 (Zpos d)) in *.
  assert (n # d == inject_Z n / inject_Z (Zpos d)) as Hnd by apply Qmake_Qdiv.
  assert (0 < inject_Z (Zpos d)) as Hdpos by done.
  assert (pow2 a <= inject_Z n < pow2 (a + 1)) as [HN1 HN2].
  { rewrite !pow2_Z by lia. rewrite <- Zle_Qle, <- Zlt_Qlt. lia. }
  assert (pow2 b <= inject_Z (Zpos d) < pow2 (b + 1)) as [HD1 HD2].
  { rewrite !pow2_Z by lia. rewrite <- Zle_Qle, <- Zlt_Qlt. lia. }
  assert ((n # d) * inject_Z (Zpos d) == inject_Z n) as Hm.
  { rewrite Hnd. field. lra. }
  assert (pow2 (a - b) * pow2 b == pow2 a) as Hab.
  { rewrite <- pow2_add. by replace (a - b + b)%Z with a by lia. }
  pose proof (pow2_pos (a - b)) as Hp. pose proof (pow2_pos b) as Hpb.
  assert (pow2 (a + 1) == 2 * pow2 a) as Ha1.
  { rewrite pow2_add. change (pow2 1) with 2. lra. }
  assert (pow2 (b + 1) == 2 * pow2 b) as Hb1.
  { rewrite pow2_add. change (pow2 1) with 2. lra. }
  set (q := n # d) in *.
  assert (q < 2 * pow2 (a - b)) as Hup.
  { apply Qnot_le_lt. intros Hge.
    assert (2 * pow2 (a - b) * pow2 b <= q * inject_Z (Zpos d)) by (apply Qmult_le_compat_nonneg; split; lra).
    lra. }
  unfold q_log2. change (Qnum q) with n. change (Qden q) with d. fold a b.
  case_match eqn:E.
  - apply Qle_bool_iff in E. rewrite q_scale_spec, Qmult_1_l in E. split; [done|].
    rewrite pow2_add. change (pow2 1) with 2. lra.
  - assert (~ pow2 (a - b) <= q) as Hlt.
    { intros Hle. assert (Qle_bool (q_scale (a - b) 1) q = true) as E'.
      { apply Qle_bool_iff. by rewrite q_scale_spec, Qmult_1_l. } congruence. }
    replace (a - b - 1 + 1)%Z with (a - b)%Z by lia. split; [|lra].
    assert (pow2 (a - b) == 2 * pow2 (a - b - 1)) as Hhalf.
    { replace (a - b)%Z with (a - b - 1 + 1)%Z at 1 by lia. rewrite pow2_add.
      change (pow2 1) with 2. lra. }
    assert (pow2 a < 2 * pow2 b * q) as Hlow by (rewrite <- Hb1; nra).
    assert (2 * pow2 (a - b - 1) * pow2 b < 2 * pow2 b * q) by (rewrite <- Hhalf; lra).
    nra.
Qed.

(** ** Rounding *)

Lemma round_half_even_le x n : x <= inject_Z n -> (round_half_even x <= n)%Z.
Proof.
  intros Hx. unfold round_half_even. pose proof (Qfloor_le x) as Hf.
  assert (Qfloor x <= n)%Z as Hfn.
  { rewrite <- (Qfloor_Z n). by apply Qfloor_resp_le. }
  destruct (Z.eq_dec (Qfloor x) n) as [->|Hne].
  - destruct (Qcompare_spec (x - inject_Z n) (1 # 2)); [lra|lia|lra].
  - repeat case_match; lia.
Qed.

Lemma round_half_even_ge x n : inject_Z n <= x -> (n <= round_half_even x)%Z.
Proof.
  intros Hx. unfold round_half_even.
  assert (n <= Qfloor x)%Z as Hfn.
  { rewrite <- (Qfloor_Z n). by apply Qfloor_resp_le. }
  repeat case_match; lia.
Qed.

(** The rational values of the doubles. *)
Definition representable (q : Q) : Prop :=
  exists m e : Z, (Z.abs m <= 2 ^ 53)%Z /\ (-1074 <= e)%Z /\
    q == inject_Z m * pow2 e /\ Qabs q < pow2 1024.

#[export] Instance representable_proper : Proper (Qeq ==> iff) representable.
Proof.
  intros p q Hpq. unfold representable.
  split; intros (m & e & Hm & He & Hq & Hlt); exists m, e; split_and!; try done.
  - by rewrite <- Hpq. - by rewrite <- Hpq. - by rewrite Hpq. - by rewrite Hpq.
Qed.

Lemma representable_opp q : representable q -> representable (- q).
Proof.
  intros (m & e & Hm & He & Hq & Hlt). exists (- m)%Z, e. split_and!; [lia|done| |].
  - rewrite Hq, inject_Z_opp. lra.
  - by rewrite Qabs_opp.
Qed.

Lemma pow2_opp_cancel e : pow2 e * pow2 (- e) == 1.
Proof. rewrite Qmult_comm. apply pow2_inverse. Qed.

Lemma scale_le e x y : x * pow2 (- e) <= y <-> x <= y * pow2 e.
Proof.
  pose proof (pow2_pos e) as Hp. pose proof (pow2_pos (- e)) as Hn.
  pose proof (pow2_inverse e) as Hi. split; intros H.
  - assert (x * pow2 (- e) * pow2 e <= y * pow2 e) by (apply Qmult_le_compat_r; lra).
    rewrite <- Qmult_assoc, Hi in *. lra.
  - assert (x * pow2 (- e) <= y * pow2 e * pow2 (- e)) by (apply Qmult_le_compat_r; lra).
    rewrite <- (Qmult_assoc y), pow2_opp_cancel in *. lra.
Qed.

Lemma scale_ge e x y : y <= x * pow2 (- e) <-> y * pow2 e <= x.
Proof.
  pose proof (pow2_pos e) as Hp. pose proof (pow2_pos (- e)) as Hn.
  pose proof (pow2_inverse e) as Hi. split; intros H.
  - assert (y * pow2 e <= x * pow2 (- e) * pow2 e) by (apply Qmult_le_compat_r; lra).
    rewrite <- (Qmult_assoc x), Hi in *. lra.
  - assert (y * pow2 e * pow2 (- e) <= x * pow2 (- e)) by (apply Qmult_le_compat_r; lra).
    rewrite <- (Qmult_assoc y), pow2_opp_cancel in *. lra.
Qed.

(** The exponent [round_double] rounds at. *)
Definition ulp_exponent (q : Q) : Z := Z.max (q_log2 (q_abs q) - 52) (-1074).

(** The value before the overflow test. *)
Definition round_value (q : Q) : Q :=
  q_scale (ulp_exponent q) (inject_Z (round_half_even (q_scale (- ulp_exponent q) q))).

Lemma round_double_unfold q :
  round_double q =
  if (Qnum q =? 0)%Z then Fin 0
  else if Qle_bool (inject_Z (2 ^ 1024)) (q_abs (round_value q))
       then if (0 <=? Qnum q)%Z then PosInf else NegInf
       else Fin (Qred (round_value q)).
Proof. done. Qed.

#[export] Instance round_half_even_proper : Proper (Qeq ==> eq) round_half_even.
Proof.
  intros x y Hxy. unfold round_half_even.
  assert (Qfloor x = Qfloor y) as -> by by apply Qfloor_comp.
  assert (Qcompare (x - inject_Z (Qfloor y)) (1 # 2) = Qcompare (y - inject_Z (Qfloor y)) (1 # 2))
    as -> by (apply Qcompare_comp; [|done]; lra). done.
Qed.

Lemma round_value_spec q :
  round_value q == inject_Z (round_half_even (q * pow2 (- ulp_exponent q))) * pow2 (ulp_exponent q).
Proof. unfold round_value. by rewrite !q_scale_spec. Qed.

Lemma round_value_le q n :
  q <= inject_Z n * pow2 (ulp_exponent q) -> round_value q <= inject_Z n * pow2 (ulp_exponent q).
Proof.
  intros Hq. rewrite round_value_spec. apply Qmult_le_compat_r; [|apply Qlt_le_weak, pow2_pos].
  rewrite <- Zle_Qle. apply round_half_even_le. by apply scale_le.
Qed.

Lemma round_value_ge q n :
  inject_Z n * pow2 (ulp_exponent q) <= q -> inject_Z n * pow2 (ulp_exponent q) <= round_value q.
Proof.
  intros Hq. rewrite round_value_spec. apply Qmult_le_compat_r; [|apply Qlt_le_weak, pow2_pos].
  rewrite <- Zle_Qle. apply round_half_even_ge. by apply scale_ge.
Qed.

(** A representable number either lies on the grid a value is rounded on, or is
    small against that value. *)
Lemma representable_grid q b : 0 < Qabs q -> representable b ->
  (exists n, b == inject_Z n * pow2 (ulp_exponent q)) \/
  (Qabs b <= pow2 (ulp_exponent q + 52) /\ pow2 (ulp_exponent q + 52) <= Qabs q).
Proof.
  intros Hq (m & e & Hm & He & Hb & _).
  destruct (Z_lt_le_dec e (ulp_exponent q)) as [Hlt|Hle].
  - right. split.
    + rewrite Hb, Qabs_Qmult, (Qabs_pos (pow2 e)) by (apply Qlt_le_weak, pow2_pos).
      assert (Qabs (inject_Z m) <= pow2 53) as Hm'.
      { rewrite pow2_Z by lia. change (inject_Z (Z.abs m) <= inject_Z (2 ^ 53)). rewrite <- Zle_Qle. lia. }
      etransitivity; [apply Qmult_le_compat_r; [exact Hm'|apply Qlt_le_weak, pow2_pos]|].
      rewrite <- pow2_add. apply pow2_le. lia.
    + unfold ulp_exponent in *. rewrite <- q_abs_spec in *.
      etransitivity; [apply pow2_le|apply (q_log2_spec _ Hq)]. lia.
  - left. exists (m * 2 ^ (e - ulp_exponent q))%Z.
    rewrite Hb, inject_Z_mult, <- pow2_Z, <- Qmult_assoc, <- pow2_add by lia.
    by replace (e - ulp_exponent q + ulp_exponent q)%Z with e by lia.
Qed.

Lemma grid_pow2 q : exists n, pow2 (ulp_exponent q + 52) == inject_Z n * pow2 (ulp_exponent q).
Proof. exists (2 ^ 52)%Z. rewrite Z.add_comm, pow2_add, pow2_Z by lia. done. Qed.

(** Rounding does not cross a representable bound. *)
Lemma round_value_le_rep q b : 0 < Qabs q -> representable b -> q <= b -> round_value q <= b.
Proof.
  intros Hq Hb Hle. destruct (representable_grid q b Hq Hb) as [[n Hn]|[Hsmall Hbig]].
  - rewrite Hn in *. by apply round_value_le.
  - destruct (grid_pow2 q) as [n Hn].
    destruct (Qlt_le_dec q 0) as [Hneg|Hpos].
    + rewrite Qabs_neg in Hbig by lra.
      assert (q <= inject_Z (- n) * pow2 (ulp_exponent q)) as Hq'.
      { rewrite inject_Z_opp. nra. }
      apply round_value_le in Hq'. rewrite inject_Z_opp in Hq'.
      pose proof (Qle_Qabs (- b)) as Hb'. rewrite Qabs_opp in Hb'. nra.
    + rewrite Qabs_pos in Hbig by lra. pose proof (Qle_Qabs b) as Hb'.
      assert (q <= inject_Z n * pow2 (ulp_exponent q)) as Hq' by (rewrite <- Hn; lra).
      apply round_value_le in Hq'. rewrite <- Hn in Hq'. lra.
Qed.

Lemma round_value_ge_rep q b : 0 < Qabs q -> representable b -> b <= q -> b <= round_value q.
Proof.
  intros Hq Hb Hle. destruct (representable_grid q b Hq Hb) as [[n Hn]|[Hsmall Hbig]].
  - rewrite Hn in *. by apply round_value_ge.
  - destruct (grid_pow2 q) as [n Hn].
    destruct (Qlt_le_dec q 0) as [Hneg|Hpos].
    + rewrite Qabs_neg in Hbig by lra. pose proof (Qle_Qabs (- b)) as Hb'. rewrite Qabs_opp in Hb'.
      assert (inject_Z (- n) * pow2 (ulp_exponent q) <= q) as Hq'.
      { rewrite inject_Z_opp. nra. }
      apply round_value_ge in Hq'. rewrite inject_Z_opp in Hq'. nra.
    + rewrite Qabs_pos in Hbig by lra. pose proof (Qle_Qabs b) as Hb'.
      assert (inject_Z n * pow2 (ulp_exponent q) <= q) as Hq' by (rewrite <- Hn; lra).
      apply round_value_ge in Hq'. rewrite <- Hn in Hq'. lra.
Qed.

Lemma representable_intro m e q :
  (Z.abs m <= 2 ^ 53)%Z -> (-1074 <= e <= 970)%Z -> q == inject_Z m * pow2 e -> representable q.
Proof.
  intros Hm He Hq. exists m, e. split_and!; [done|lia|done|].
  rewrite Hq, Qabs_Qmult, (Qabs_pos (pow2 e)) by (apply Qlt_le_weak, pow2_pos).
  assert (Qabs (inject_Z m) <= pow2 53) as Hm'.
  { rewrite pow2_Z by lia. change (inject_Z (Z.abs m) <= inject_Z (2 ^ 53)). by rewrite <- Zle_Qle. }
  apply Qle_lt_trans with (pow2 53 * pow2 970).
  - apply Qmult_le_compat_nonneg; split; [apply Qabs_nonneg|done|apply Qlt_le_weak, pow2_pos|].
    apply pow2_le. lia.
  - rewrite <- pow2_add. by vm_compute.
Qed.

Lemma representable_Z n : (Z.abs n <= 2 ^ 53)%Z -> representable (inject_Z n).
Proof. intros Hn. apply (representable_intro n 0); [done|lia|]. change (pow2 0) with 1. lra. Qed.

Lemma representable_pow2 e : (-1074 <= e <= 970)%Z -> representable (pow2 e).
Proof. intros He. apply (representable_intro 1 e); [lia|done|]. change (inject_Z 1) with 1. lra. Qed.

Lemma representable_0 : representable 0.
Proof. by apply (representable_Z 0). Qed.

Lemma representable_1 : representable 1.
Proof. by apply (representable_Z 1). Qed.

#[export] Hint Resolve representable_0 representable_1 : core.

(** What the rounded value can be. *)
Lemma round_value_representable q :
  0 < Qabs q -> Qabs (round_value q) < pow2 1024 -> representable (round_value q).
Proof.
  intros Hq Hr.
  exists (round_half_even (q * pow2 (- ulp_exponent q))), (ulp_exponent q).
  split_and!; [|unfold ulp_exponent; lia|apply round_value_spec|done].
  assert (Qabs q <= inject_Z (2 ^ 53) * pow2 (ulp_exponent q)) as Hup.
  { rewrite <- pow2_Z, <- pow2_add by lia. rewrite <- q_abs_spec in *.
    apply Qlt_le_weak. eapply Qlt_le_trans; [apply (q_log2_spec _ Hq)|].
    apply pow2_le. unfold ulp_exponent. lia. }
  assert (q <= inject_Z (2 ^ 53) * pow2 (ulp_exponent q)) as H1.
  { pose proof (Qle_Qabs q). lra. }
  assert (inject_Z (- 2 ^ 53) * pow2 (ulp_exponent q) <= q) as H2.
  { pose proof (Qle_Qabs (- q)) as Ha. rewrite Qabs_opp in Ha. rewrite inject_Z_opp. lra. }
  apply scale_le, round_half_even_le in H1. apply scale_ge, round_half_even_ge in H2.
  apply Z.abs_le. lia.
Qed.

Definition is_double (x : number) : Prop :=
  match x with Fin q => representable q | _ => True end.

(** The double [x] lies between [lo] and [hi]. *)
Definition between (lo hi : Q) (x : number) : Prop :=
  exists q, x = Fin q /\ representable q /\ lo <= q /\ q <= hi.

Lemma Qnum_zero q : Qnum q = 0%Z -> q == 0.
Proof. intros Hq. unfold Qeq. simpl. lia. Qed.

Lemma Qabs_nonzero q : Qnum q <> 0%Z -> 0 < Qabs q.
Proof. intros Hq. unfold Qlt, Qabs. destruct q as [n d]. simpl in *. lia. Qed.

Lemma pow2_1024 : inject_Z (2 ^ 1024) == pow2 1024.
Proof. rewrite pow2_Z; [done|lia]. Qed.

Lemma Qle_bool_false p q : Qle_bool p q = false <-> q < p.
Proof.
  split.
  - intros H. apply Qnot_le_lt. rewrite <- Qle_bool_iff. congruence.
  - intros H. apply not_true_iff_false. rewrite Qle_bool_iff. by apply Qlt_not_le.
Qed.

(** The three ways a rounding ends. *)
Lemma round_double_cases q :
  (q == 0 /\ round_double q = Fin 0) \/
  (0 < Qabs q /\ Qabs (round_value q) < pow2 1024 /\ round_double q = Fin (Qred (round_value q))) \/
  (0 < Qabs q /\ pow2 1024 <= Qabs (round_value q) /\ 0 < q /\ round_double q = PosInf) \/
  (0 < Qabs q /\ pow2 1024 <= Qabs (round_value q) /\ q < 0 /\ round_double q = NegInf).
Proof.
  rewrite round_double_unfold. case_match eqn:E0.
  - apply Z.eqb_eq in E0. left. split; [by apply Qnum_zero|done].
  - apply Z.eqb_neq in E0. right. pose proof (Qabs_nonzero q E0) as Hq.
    case_match eqn:E1.
    + apply Qle_bool_iff in E1. rewrite pow2_1024, q_abs_spec in E1. right.
      case_match eqn:E2; [left|right]; split_and!; try done.
      * apply Z.leb_le in E2. unfold Qlt. simpl. lia.
      * apply Z.leb_gt in E2. unfold Qlt. simpl. lia.
    + apply Qle_bool_false in E1. rewrite pow2_1024, q_abs_spec in E1. left. done.
Qed.

Lemma round_is_double q : is_double (round_double q).
Proof.
  destruct (round_double_cases q) as [[_ ->]|[(Hq & Hr & ->)|[(_ & _ & _ & ->)|(_ & _ & _ & ->)]]];
    simpl; [done| |done|done].
  rewrite Qred_correct. by apply round_value_representable.
Qed.

Lemma representable_lt q : representable q -> - pow2 1024 < q /\ q < pow2 1024.
Proof.
  intros (m & e & _ & _ & _ & Hlt). pose proof (Qle_Qabs q). pose proof (Qle_Qabs (- q)) as H2.
  rewrite Qabs_opp in H2. lra.
Qed.

(** A value between two representable bounds rounds to a double between them. *)
Lemma round_between lo hi q :
  representable lo -> representable hi -> lo <= q -> q <= hi -> between lo hi (round_double q).
Proof.
  intros Hlo Hhi H1 H2.
  pose proof (representable_lt _ Hlo) as [Hlo' _]. pose proof (representable_lt _ Hhi) as [_ Hhi'].
  destruct (round_double_cases q) as [[Hz ->]|[(Hq & Hr & ->)|[(Hq & Hr & Hp & ->)|(Hq & Hr & Hn & ->)]]].
  - exists 0. split_and!; [done|done|lra|lra].
  - eexists. split_and!; [done|rewrite Qred_correct; by apply round_value_representable| |];
      rewrite Qred_correct; [by apply round_value_ge_rep|by apply round_value_le_rep].
  - pose proof (round_value_le_rep q hi Hq Hhi H2).
    assert (0 <= round_value q) by (apply round_value_ge_rep; [done|done|lra]).
    rewrite Qabs_pos in Hr by done. lra.
  - pose proof (round_value_ge_rep q lo Hq Hlo H1).
    assert (round_value q <= 0) by (apply round_value_le_rep; [done|done|lra]).
    rewrite Qabs_neg in Hr by done. lra.
Qed.

(** One representable bound suffices for one side. *)
Lemma round_ge b q : representable b -> b <= q -> num_le (Fin b) (round_double q) = true.
Proof.
  intros Hb Hle. pose proof (representable_lt _ Hb) as [Hb' _].
  destruct (round_double_cases q) as [[Hz ->]|[(Hq & Hr & ->)|[(Hq & Hr & Hp & ->)|(Hq & Hr & Hn & ->)]]];
    simpl; rewrite ?Qle_bool_iff; [lra| |done|].
  - rewrite Qred_correct. by apply round_value_ge_rep.
  - pose proof (round_value_ge_rep q b Hq Hb Hle).
    assert (round_value q <= 0) by (apply round_value_le_rep; [done|done|lra]).
    rewrite Qabs_neg in Hr by done. lra.
Qed.

Lemma round_le b q : representable b -> q <= b -> num_le (round_double q) (Fin b) = true.
Proof.
  intros Hb Hle. pose proof (representable_lt _ Hb) as [_ Hb'].
  destruct (round_double_cases q) as [[Hz ->]|[(Hq & Hr & ->)|[(Hq & Hr & Hp & ->)|(Hq & Hr & Hn & ->)]]];
    simpl; rewrite ?Qle_bool_iff; [lra| | |done].
  - rewrite Qred_correct. by apply round_value_le_rep.
  - pose proof (round_value_le_rep q b Hq Hb Hle).
    assert (0 <= round_value q) by (apply round_value_ge_rep; [done|done|lra]).
    rewrite Qabs_pos in Hr by done. lra.
Qed.

(** How far a rounding moves a value of bounded size. *)
Lemma round_error q k : (-1000 <= k <= 900)%Z -> Qabs q <= pow2 k ->
  exists t, round_double q = Fin t /\ representable t /\ Qabs (t - q) <= pow2 (k - 52).
Proof.
  intros Hk Hq.
  destruct (round_double_cases q) as [[Hz ->]|Hcases].
  { exists 0. split_and!; [done|done|]. assert (0 - q == 0) as -> by lra.
    apply Qlt_le_weak, pow2_pos. }
  assert (0 < Qabs q) as Hpos by (by destruct Hcases as [(? & _)|[(? & _)|(? & _)]]).
  set (E := ulp_exponent q).
  assert (E <= k - 52)%Z as HE.
  { unfold E, ulp_exponent. apply Z.max_lub; [|lia].
    pose proof Hpos as Hl. rewrite <- q_abs_spec in Hl. apply q_log2_spec in Hl as [Hl _].
    pose proof (q_abs_spec q) as Ha. pose proof (pow2_pos k) as Hp.
    pose proof (pow2_add k 1) as Hk1. change (pow2 1) with 2 in Hk1.
    assert (q_log2 (q_abs q) < k + 1)%Z; [|lia]. apply pow2_lt_inv. lra. }
  set (n := Qfloor (q * pow2 (- E))).
  assert (inject_Z n * pow2 E <= q) as H1 by (apply scale_ge, Qfloor_le).
  assert (q <= inject_Z (n + 1) * pow2 E) as H2.
  { apply scale_le. apply Qlt_le_weak. apply Qlt_floor. }
  assert (inject_Z (n + 1) * pow2 E == inject_Z n * pow2 E + pow2 E) as H3.
  { rewrite inject_Z_plus. change (inject_Z 1) with 1. lra. }
  pose proof (round_value_ge q n H1) as H4. pose proof (round_value_le q (n + 1) H2) as H5.
  fold E in H4, H5. rewrite H3 in H2, H5.
  assert (pow2 E <= pow2 (k - 52)) as HE' by by apply pow2_le.
  assert (Qabs (round_value q - q) <= pow2 (k - 52)) as Herr.
  { apply Qabs_Qle_condition. lra. }
  assert (pow2 (k - 52) <= pow2 k) as Hk1 by (apply pow2_le; lia).
  assert (Qabs (round_value q) < pow2 1024) as Hfin.
  { assert (round_value q == (round_value q - q) + q) as -> by lra.
    eapply Qle_lt_trans; [apply Qabs_triangle|].
    apply Qle_lt_trans with (pow2 (k + 1)).
    - rewrite (pow2_add k 1). change (pow2 1) with 2. lra.
    - apply Qle_lt_trans with (pow2 901); [apply pow2_le; lia|by vm_compute]. }
  destruct Hcases as [(_ & _ & ->)|[(_ & Hbig & _)|(_ & Hbig & _)]]; [|lra|lra].
  exists (Qred (round_value q)). split_and!; [done| |by rewrite Qred_correct].
  rewrite Qred_correct. by apply round_value_representable.
Qed.

#[export] Instance Q_eq_dec : EqDecision Q.
Proof. solve_decision. Defined.
#[export] Instance number_eq_dec : EqDecision number.
Proof. solve_decision. Defined.

(** ** [Math] *)

(** A decimal literal [n / d] of the source, as the double it denotes. *)
Definition literal (n : Z) (d : positive) : number := round_double (n # d).

(** [Math.max], [Math.min], [Math.abs]. *)
Definition num_max (x y : number) : number :=
  match x, y with
  | NaN, _ | _, NaN => NaN
  | _, _ => if num_lt x y then y else x
  end.

Definition num_min (x y : number) : number :=
  match x, y with
  | NaN, _ | _, NaN => NaN
  | _, _ => if num_lt y x then y else x
  end.

Definition num_abs (x : number) : number :=
  match x with
  | NaN => NaN
  | PosInf | NegInf => PosInf
  | Fin q => Fin (q_abs q)
  end.

(** [Math.round]: halves go up. *)
Definition num_round (x : number) : number :=
  match x with Fin q => num_of_Z (q_round q) | _ => x end.

Definition num_floor (x : number) : number :=
  match x with Fin q => Fin (inject_Z (Qfloor q)) | x => x end.

(** [Number.isInteger] *)
Definition num_is_integer (x : number) : bool :=
  match x with Fin q => bool_decide (Qred q = inject_Z (Qfloor q)) | _ => false end.

(** [x % y]: exact, with the sign of [x]. *)
Definition num_rem (x y : number) : number :=
  match x, y with
  | Fin p, Fin q =>
      if (Qnum q =? 0)%Z then NaN else Fin (Qred (p - q * inject_Z (q_trunc (p / q))))
  | Fin p, PosInf | Fin p, NegInf => Fin p
  | _, _ => NaN
  end.

(** [x ** 2] *)
Definition num_square (x : number) : number := num_mul x x.

(** The functions the language leaves to the implementation. *)
Class MathFunctions := {
  math_sin : number -> number;
  math_cos : number -> number;
  math_asin : number -> number;
  math_atan2 : number -> number -> number;
  math_sqrt : number -> number;
  math_hypot : number -> number -> number;
  math_exp : number -> number;
}.

(** [Math.PI], the double nearest to pi. *)
Definition math_PI : number := Fin (884279719003555 # 281474976710656).

(** The operators of the source on numbers. *)
Declare Scope num_scope.
Delimit Scope num_scope with num.
Infix "+" := num_add : num_scope.
Infix "-" := num_sub : num_scope.
Infix "*" := num_mul : num_scope.
Infix "/" := num_div : num_scope.
Notation "- x" := (num_neg x) : num_scope.
Infix "<=?" := num_le : num_scope.
Infix "<?" := num_lt : num_scope.
Notation "x >=? y" := (num_le y x) (only parsing) : num_scope.
Notation "x >? y" := (num_lt y x) (only parsing) : num_scope.
Infix "=?" := num_eq : num_scope.
Infix "mod" := num_rem : num_scope.

(** An integer literal of the source. *)
Definition num_to_Z (x : number) : option Z :=
  match x with Fin (Qmake z 1) => Some z | _ => None end.

Number Notation number num_of_Z num_to_Z : num_scope.

(** ** Comparisons *)

Lemma num_le_Fin p q : num_le (Fin p) (Fin q) = true <-> p <= q.
Proof. apply Qle_bool_iff. Qed.

Lemma num_lt_Fin p q : num_lt (Fin p) (Fin q) = true <-> p < q.
Proof. unfold num_lt. simpl. rewrite negb_true_iff. apply Qle_bool_false. Qed.

Lemma num_lt_Fin_false p q : num_lt (Fin p) (Fin q) = false <-> q <= p.
Proof. unfold num_lt. simpl. rewrite negb_false_iff. apply Qle_bool_iff. Qed.

Lemma num_le_Fin_false p q : num_le (Fin p) (Fin q) = false <-> q < p.
Proof. apply Qle_bool_false. Qed.

Lemma num_le_refl x : x <> NaN -> num_le x x = true.
Proof. destruct x; simpl; [done|done|done|]. intros _. apply Qle_bool_iff. lra. Qed.

Lemma num_le_trans x y z : num_le x y = true -> num_le y z = true -> num_le x z = true.
Proof. destruct x, y, z; simpl; rewrite ?Qle_bool_iff; try done. apply Qle_trans. Qed.

Lemma num_lt_le x y : num_lt x y = true -> num_le x y = true.
Proof.
  destruct x, y; try done. rewrite num_lt_Fin, num_le_Fin. lra.
Qed.

Lemma num_lt_not_le x y : num_lt x y = true -> num_le y x = false.
Proof. destruct x, y; try done. rewrite num_lt_Fin, num_le_Fin_false. done. Qed.

Lemma num_lt_le_trans x y z : num_lt x y = true -> num_le y z = true -> num_lt x z = true.
Proof.
  destruct x, y, z; try done. rewrite !num_lt_Fin, num_le_Fin. lra.
Qed.

Lemma num_le_lt_trans x y z : num_le x y = true -> num_lt y z = true -> num_lt x z = true.
Proof.
  destruct x, y, z; try done. rewrite !num_lt_Fin, num_le_Fin. lra.
Qed.

Lemma num_lt_irrefl x : num_lt x x = false.
Proof. destruct x; try done. apply num_lt_Fin_false. lra. Qed.

(** Of two numbers that are numbers, one is at most the other. *)
Lemma num_le_total x y : x <> NaN -> y <> NaN -> num_lt x y = false -> num_le y x = true.
Proof. destruct x, y; try done. by rewrite num_lt_Fin_false, num_le_Fin. Qed.

Lemma num_max_ge_l x y : x <> NaN -> y <> NaN -> num_le x (num_max x y) = true.
Proof.
  intros Hx Hy. assert (num_max x y = if num_lt x y then y else x) as ->
    by (unfold num_max; destruct x, y; done).
  case_match eqn:E; [by apply num_lt_le|by apply num_le_refl].
Qed.

Lemma num_max_ge_r x y : x <> NaN -> y <> NaN -> num_le y (num_max x y) = true.
Proof.
  intros Hx Hy. assert (num_max x y = if num_lt x y then y else x) as ->
    by (unfold num_max; destruct x, y; done).
  case_match eqn:E; [by apply num_le_refl|by apply num_le_total].
Qed.

Lemma num_min_le_l x y : x <> NaN -> y <> NaN -> num_le (num_min x y) x = true.
Proof.
  intros Hx Hy. assert (num_min x y = if num_lt y x then y else x) as ->
    by (unfold num_min; destruct x, y; done).
  case_match eqn:E; [by apply num_lt_le|by apply num_le_refl].
Qed.

Lemma num_min_le_r x y : x <> NaN -> y <> NaN -> num_le (num_min x y) y = true.
Proof.
  intros Hx Hy. assert (num_min x y = if num_lt y x then y else x) as ->
    by (unfold num_min; destruct x, y; done).
  case_match eqn:E; [by apply num_le_refl|by apply num_le_total].
Qed.

(** ** Interval arithmetic on doubles *)

Lemma between_intro lo hi q : representable q -> lo <= q -> q <= hi -> between lo hi (Fin q).
Proof. intros ???. by exists q. Qed.

Lemma between_double lo hi x : between lo hi x -> is_double x.
Proof. by intros (q & -> & Hq & _). Qed.

Lemma between_finite lo hi x : between lo hi x -> num_is_finite x = true.
Proof. by intros (q & -> & _). Qed.

Lemma between_weaken lo hi lo' hi' x : between lo hi x -> lo' <= lo -> hi <= hi' -> between lo' hi' x.
Proof. intros (q & -> & Hq & H1 & H2) H3 H4. exists q. split_and!; [done|done|lra|lra]. Qed.

Lemma between_literal lo hi n d :
  representable lo -> representable hi -> lo <= n # d -> n # d <= hi ->
  between lo hi (round_double (n # d)).
Proof. apply round_between. Qed.

Lemma between_neg lo hi x : between lo hi x -> between (- hi) (- lo) (num_neg x).
Proof.
  intros (q & -> & Hq & H1 & H2). exists (- q). split_and!; [done|by apply representable_opp|lra|lra].
Qed.

Section interval.
Context (lo hi : Q) (Hlo : representable lo) (Hhi : representable hi).

Lemma between_add a b c d x y :
  between a b x -> between c d y -> lo <= a + c -> b + d <= hi -> between lo hi (num_add x y).
Proof.
  intros (p & -> & _ & H1 & H2) (q & -> & _ & H3 & H4) H5 H6. apply round_between; [done|done|lra|lra].
Qed.

Lemma between_sub a b c d x y :
  between a b x -> between c d y -> lo <= a - d -> b - c <= hi -> between lo hi (num_sub x y).
Proof.
  intros Hx Hy H1 H2. unfold num_sub. eapply between_add; [done|by apply between_neg|lra|lra].
Qed.

(** A product with a nonnegative factor. *)
Lemma between_mul a b x y :
  between 0 b x -> between (- a) a y -> lo <= - (b * a) -> b * a <= hi -> between lo hi (num_mul x y).
Proof.
  intros (p & -> & _ & H1 & H2) (q & -> & _ & H3 & H4) H5 H6.
  apply round_between; [done|done| |]; nra.
Qed.

Lemma between_mul_pos a b c d x y : 0 <= a -> 0 <= c ->
  between a b x -> between c d y -> lo <= a * c -> b * d <= hi -> between lo hi (num_mul x y).
Proof.
  intros Ha Hc (p & -> & _ & H1 & H2) (q & -> & _ & H3 & H4) H5 H6.
  apply round_between; [done|done| |].
  - etransitivity; [exact H5|]. apply Qmult_le_compat_nonneg; split; lra.
  - etransitivity; [|exact H6]. apply Qmult_le_compat_nonneg; split; lra.
Qed.

Lemma between_div a b c d x y : 0 <= a -> 0 < c ->
  between a b x -> between c d y -> lo * d <= a -> 0 <= lo -> b <= hi * c -> between lo hi (num_div x y).
Proof.
  intros Ha Hc (p & -> & _ & H1 & H2) (q & -> & _ & H3 & H4) H5 Hl H6.
  assert (0 < q) as Hq by lra.
  unfold num_div. assert ((Qnum q =? 0)%Z = false) as ->.
  { apply Z.eqb_neq. intros Hz. apply Qnum_zero in Hz. lra. }
  apply round_between; [done|done| |].
  - apply Qle_shift_div_l; [done|]. nra.
  - apply Qle_shift_div_r; [done|]. nra.
Qed.
End interval.

Lemma between_max lo hi lo' hi' x y :
  between lo hi x -> between lo' hi' y -> lo' <= lo -> hi <= hi' -> between lo hi' (num_max x y).
Proof.
  intros (p & -> & Hp & H1 & H2) (q & -> & Hq & H3 & H4) H5 H6. unfold num_max.
  case_match eqn:E.
  - apply num_lt_Fin in E. exists q. split_and!; [done|done|lra|lra].
  - exists p. split_and!; [done|done|lra|lra].
Qed.

Lemma between_nonnegative lo hi x : 0 <= lo -> between lo hi x ->
  num_is_finite x && num_le (num_of_Z 0) x = true.
Proof. intros Hlo (q & -> & _ & H1 & H2). simpl. apply Qle_bool_iff. change (inject_Z 0) with 0. lra. Qed.
