(* ===== verification/NumberText.v ===== *)
(** * A number in a template literal

    [Number.prototype.toString] in base ten, as ECMAScript defines it: the fewest
    significant digits that still name the double, and its layouts. *)

From S2P Require Import Prelude Text Doubles.
From Stdlib Require Import QArith_base Qround.

#[local] Open Scope Z_scope.

(** [10 ^ e] *)
Definition pow10 (e : Z) : Q := Qpower (inject_Z 10) e.

(** The [k] with [10 ^ (k - 1) <= q < 10 ^ k], stepped to from the estimate [k]: an
    estimate from the binary logarithm is off by one at most. *)
Definition adjust_exponent (q : Q) (k : Z) : Z :=
  if Qle_bool (pow10 k) q then k + 1
  else if Qle_bool (pow10 (k - 1)) q then k else k - 1.

Definition decimal_exponent (q : Q) : Z :=
  adjust_exponent q ((q_log2 q * 30103) / 100000 + 1).

(** The two candidates with [n] digits, the nearer one first. *)
Definition candidates_of (q : Q) (k n : Z) : list Z :=
  let scaled := Qmult q (pow10 (n - k)) in
  let low := Qfloor scaled in
  let high := low + 1 in
  let below := Qminus scaled (inject_Z low) in
  match Qcompare below (1 # 2) with
  | Lt => [low; high]
  | Gt => [high; low]
  | Eq => if Z.even low then [low; high] else [high; low]
  end.

(** Whether the digits [s] name [q]. *)
Definition names (q : Q) (k n s : Z) : bool :=
  Qeq_bool (round_value (Qmult (inject_Z s) (pow10 (k - n)))) q.

(** The fewest digits, from [n] on: seventeen always name a double. *)
Fixpoint shortest (fuel : nat) (q : Q) (k n : Z) : Z * Z :=
  match fuel with
  | O => (n, Qfloor (Qmult q (pow10 (n - k))))
  | S fuel =>
      match List.find (names q k n) (candidates_of q k n) with
      | Some s => (n, s)
      | None => shortest fuel q k (n + 1)
      end
  end.

Fixpoint zeros (n : nat) : string :=
  match n with O => EmptyString | S n => ("0" ++ zeros n)%string end.

Definition tail_from (i : Z) (s : string) : string :=
  String.substring (Z.to_nat i) (String.length s) s.

(** The layouts, for [n] digits whose point comes after the [k]-th. *)
Definition layout (digits : string) (n k : Z) : string :=
  if (n <=? k) && (k <=? 21) then (digits ++ zeros (Z.to_nat (k - n)))%string
  else if (0 <? k) && (k <=? 21)
  then (slice0 (Z.to_nat k) digits ++ "." ++ tail_from k digits)%string
  else if (-6 <? k) && (k <=? 0) then ("0." ++ zeros (Z.to_nat (- k)) ++ digits)%string
  else
    let e := k - 1 in
    let sign := if e <? 0 then "-" else "+" in
    let exponent := (sign ++ show_Z (Z.abs e))%string in
    let point := if n =? 1 then digits
                 else (slice0 1 digits ++ "." ++ tail_from 1 digits)%string in
    (point ++ "e" ++ exponent)%string.

(** Of a value above zero; the candidate [10 ^ n] is the digit one an exponent up. *)
Definition show_positive (q : Q) : string :=
  let k := decimal_exponent q in
  let '(n, s) := shortest 17 q k 1 in
  if s =? 10 ^ n then layout "1" 1 (k + 1) else layout (show_Z s) n k.

Definition show_number (x : number) : string :=
  match x with
  | NaN => "NaN"
  | PosInf => "Infinity"
  | NegInf => "-Infinity"
  | Fin q => if Qnum q =? 0 then "0"
             else if Qnum q <? 0 then ("-" ++ show_positive (Qopp q))%string
             else show_positive q
  end.

Example shown_numbers :
  map show_number [literal 1 10; literal 134050 10000; num_of_Z 100; literal 1 10000000; literal (-5) 2;
                   num_of_Z (10 ^ 21); num_of_Z 120000; literal 527 100; literal 1 3]
  = ["0.1"; "13.405"; "100"; "1e-7"; "-2.5"; "1e+21"; "120000"; "5.27"; "0.3333333333333333"].
Proof. vm_compute. reflexivity. Qed.
