(* ===== verification/Protocol.v ===== *)
(** * The wire contract between the page and the shell

    packages/core/src/navigation/mobileProtocol.ts: the limits, the version
    negotiation, the start packages and their schemas, the message envelopes,
    and the bounds that are checked before a message reaches a handler. *)

From S2P Require Import Prelude.

(** ** Limits *)

Definition MAX_MESSAGE_BYTES : Z := 8 * 1024 * 1024.
Definition MAX_TOTAL_COORDINATES : Z := 100000.
Definition MAX_TOTAL_STEPS : Z := 10000.
Definition MAX_LEGS : Z := 512.
Definition MAX_CLOCK_SKEW_MS : Z := 5 * 60000.
Definition MAX_ID_LENGTH : Z := 128.
Definition MAX_TEXT_LENGTH : Z := 512.

(** ** Versions *)

Definition MOBILE_PROTOCOL_MIN : Z := 3.
Definition MOBILE_PROTOCOL_MAX : Z := 5.

Record ProtocolRange := { range_min : Z; range_max : Z }.

Definition negotiateMobileProtocol (web native : ProtocolRange) : option Z :=
  let min := Z.max (range_min web) (range_min native) in
  let max := Z.min (range_max web) (range_max native) in
  if min <=? max then Some max else None.

(** ** Scalar schemas *)

Definition boundedId (s : string) : bool :=
  (1 <=? str_length s) && (str_length s <=? MAX_ID_LENGTH).

Definition safeInteger (z : Z) : bool := (0 <=? z) && (z <=? MAX_SAFE_INTEGER).

(** [z.number().finite()] and its bounds. *)
Definition finite_min (lo : Z) (x : number) : bool :=
  num_is_finite x && num_le (num_of_Z lo) x.

Definition finite_within (lo hi : Z) (x : number) : bool :=
  finite_min lo x && num_le x (num_of_Z hi).

Definition nonnegative : number -> bool := finite_min 0.

(** [[longitude, latitude]] *)
Definition LngLat : Type := number * number.

Definition lngLat_ok (p : LngLat) : bool :=
  finite_within (-180) 180 p.1 && finite_within (-90) 90 p.2.

Definition max_text (n : Z) (s : string) : bool := str_length s <=? n.

Definition opt_ok {A} (check : A -> bool) (o : option A) : bool :=
  match o with Some a => check a | None => true end.

Inductive Locale := En | De.
Inductive Units := Metric | Imperial.
Inductive GroundMode := Driving | Walking | Cycling | Motorcycle.

(** The mode's name on the wire; a route carries its mode as free text. *)
Definition ground_mode_name (m : GroundMode) : string :=
  match m with
  | Driving => "driving"
  | Walking => "walking"
  | Cycling => "cycling"
  | Motorcycle => "motorcycle"
  end.

Inductive VoiceTiming := Early | Normal | Late.
Inductive RouteSelectionIntent := Automatic | UserSelected.

#[export] Instance Locale_eq_dec : EqDecision Locale.
Proof. solve_decision. Defined.
#[export] Instance Units_eq_dec : EqDecision Units.
Proof. solve_decision. Defined.
#[export] Instance GroundMode_eq_dec : EqDecision GroundMode.
Proof. solve_decision. Defined.
#[export] Instance VoiceTiming_eq_dec : EqDecision VoiceTiming.
Proof. solve_decision. Defined.

(** ** Start packages *)

(** Publisher receipts are validated by another package of the repository
    (packages/mobility-core); the wire schema asks it these questions. *)
Class ReceiptValidators := {
  contributors_ok : json -> bool;
  field_contributors_ok : json -> bool;
  geometry_contributors_ok : json -> Z -> bool;
}.

(** A route as it crosses the wire.  Steps keep their engine-specific extras, so
    a step is the decoded object; [route_extra] holds the keys the schema passes
    through, the receipt keys and [legs] among them. *)
Record Route := {
  route_distance : number;
  route_duration : number;
  route_geometry : list LngLat;
  route_steps : list json;
  route_mode : string;
  route_segmentSpeedLimits : option (list (option number));
  route_summary : option string;
  route_extra : list (string * json);
}.

Section route_schema.
Context `{ReceiptValidators}.

(** An optional key of a passed-through object. *)
Definition opt_key (key : string) (check : json -> bool) (fs : list (string * json)) : bool :=
  opt_ok check (field key fs).

Definition json_text_ok (n : Z) (j : json) : bool :=
  match j with JStr s => max_text n s | _ => false end.

Definition json_nonnegative (j : json) : bool :=
  match j with JNum x => nonnegative x | _ => false end.

Definition json_lngLat_ok (j : json) : bool :=
  match j with
  | JArr [JNum lng; JNum lat] => lngLat_ok (lng, lat)
  | _ => false
  end.

Definition json_array_ok (check : json -> bool) (j : json) : bool :=
  match j with JArr l => forallb check l | _ => false end.

Definition routeStepSchema (j : json) : bool :=
  match j with
  | JObj fs =>
      opt_key "contributors" contributors_ok fs
      && opt_key "fieldContributors" field_contributors_ok fs
      && opt_key "instruction" (json_text_ok MAX_TEXT_LENGTH) fs
      && opt_key "distance" json_nonnegative fs
      && opt_key "duration" json_nonnegative fs
      && opt_key "name" (json_text_ok MAX_TEXT_LENGTH) fs
      && opt_key "geometry" (json_array_ok json_lngLat_ok) fs
  | _ => false
  end.

Definition routeLegSchema (j : json) : bool :=
  match j with
  | JObj fs =>
      opt_key "contributors" contributors_ok fs
      && opt_key "fieldContributors" field_contributors_ok fs
      && opt_key "steps" (json_array_ok routeStepSchema) fs
  | _ => false
  end.

Definition json_length (j : json) : Z :=
  match j with JArr l => Z.of_nat (length l) | _ => 0 end.

Definition routeSchema (r : Route) : bool :=
  opt_key "contributors" contributors_ok (route_extra r)
  && opt_key "fieldContributors" field_contributors_ok (route_extra r)
  && nonnegative (route_distance r)
  && nonnegative (route_duration r)
  && (2 <=? Z.of_nat (length (route_geometry r)))
  && forallb lngLat_ok (route_geometry r)
  && forallb routeStepSchema (route_steps r)
  && opt_key "legs" (fun j => json_array_ok routeLegSchema j && (json_length j <=? MAX_LEGS))
       (route_extra r)
  && max_text 64 (route_mode r)
  && opt_ok (forallb (opt_ok nonnegative)) (route_segmentSpeedLimits r)
  && opt_ok (max_text MAX_TEXT_LENGTH) (route_summary r)
  && opt_key "geometryContributors"
       (fun j => geometry_contributors_ok j (Z.of_nat (length (route_geometry r))))
       (route_extra r).
End route_schema.

Record GroundNavigationSettings := {
  ground_voiceEnabled : bool;
  ground_keepScreenOn : bool;
  ground_voiceTiming : VoiceTiming;
}.

Record GroundNavigationStartPackage := {
  gp_route : Route;
  gp_alternatives : list Route;
  gp_mode : GroundMode;
  gp_destinationWaypoints : list LngLat;
  gp_routeProvider : option string;
  gp_routeSelectionIntent : RouteSelectionIntent;
  gp_routeOptions : list (string * json);
  gp_capturedLiveSpeedLimits : option (list (option number));
  gp_locale : Locale;
  gp_units : Units;
  gp_settings : GroundNavigationSettings;
}.

Definition groundStartPackageSchema `{ReceiptValidators}
    (p : GroundNavigationStartPackage) : bool :=
  routeSchema (gp_route p)
  && forallb routeSchema (gp_alternatives p)
  && (Z.of_nat (length (gp_alternatives p)) <=? 8)
  && (1 <=? Z.of_nat (length (gp_destinationWaypoints p)))
  && (Z.of_nat (length (gp_destinationWaypoints p)) <=? 64)
  && forallb lngLat_ok (gp_destinationWaypoints p)
  && opt_ok (max_text 64) (gp_routeProvider p)
  && opt_ok (forallb (opt_ok num_is_finite)) (gp_capturedLiveSpeedLimits p).

Inductive PlatformEvidenceKind := ByTimetable | ByCorrection | ByRealtime.

Record TransitPlatformEvidence := {
  pe_code : string;
  pe_scheduledCode : option string;
  pe_kind : PlatformEvidenceKind;
  pe_sourceId : string;
  pe_recordedAt : option string;
  pe_fetchedAt : option string;
}.

Definition transitPlatformEvidenceSchema (e : TransitPlatformEvidence) : bool :=
  (1 <=? str_length (pe_code e)) && max_text 64 (pe_code e)
  && opt_ok (max_text 64) (pe_scheduledCode e)
  && (1 <=? str_length (pe_sourceId e)) && max_text 128 (pe_sourceId e)
  && opt_ok (max_text 64) (pe_recordedAt e)
  && opt_ok (max_text 64) (pe_fetchedAt e).

Record CaptureStop := {
  cs_stopId : string;
  cs_name : string;
  cs_lat : number;
  cs_lng : number;
  cs_platform : option string;
  cs_scheduledPlatform : option string;
  cs_arrivalPlatform : option TransitPlatformEvidence;
  cs_departurePlatform : option TransitPlatformEvidence;
  cs_scheduledArrival : option string;
  cs_scheduledDeparture : option string;
  cs_expectedArrival : option string;
  cs_expectedDeparture : option string;
  cs_canceled : option bool;
  cs_departed : option bool;
}.

Definition captureStopSchema (s : CaptureStop) : bool :=
  max_text MAX_ID_LENGTH (cs_stopId s)
  && max_text MAX_TEXT_LENGTH (cs_name s)
  && finite_within (-90) 90 (cs_lat s)
  && finite_within (-180) 180 (cs_lng s)
  && opt_ok (max_text 64) (cs_platform s)
  && opt_ok (max_text 64) (cs_scheduledPlatform s)
  && opt_ok transitPlatformEvidenceSchema (cs_arrivalPlatform s)
  && opt_ok transitPlatformEvidenceSchema (cs_departurePlatform s)
  && opt_ok (max_text 64) (cs_scheduledArrival s)
  && opt_ok (max_text 64) (cs_scheduledDeparture s)
  && opt_ok (max_text 64) (cs_expectedArrival s)
  && opt_ok (max_text 64) (cs_expectedDeparture s).

Inductive CaptureStatus := Captured | Missing.

Record TransitLegCapture := {
  tc_legIndex : Z;
  tc_tripId : string;
  tc_capturedAtMs : Z;
  tc_status : CaptureStatus;
  tc_stops : list CaptureStop;
}.

Definition transitLegCaptureSchema (c : TransitLegCapture) : bool :=
  (0 <=? tc_legIndex c) && (tc_legIndex c <=? MAX_LEGS)
  && max_text MAX_ID_LENGTH (tc_tripId c)
  && safeInteger (tc_capturedAtMs c)
  && forallb captureStopSchema (tc_stops c)
  && (Z.of_nat (length (tc_stops c)) <=? 2000).

Inductive StopAreaShape :=
  | AreaPoint (coordinates : LngLat) (bufferMeters : number)
  | AreaLine (coordinates : list LngLat) (bufferMeters : number)
  | AreaPolygon (coordinates : list LngLat) (bufferMeters : number).

Definition stopAreaBufferSchema : number -> bool := finite_within 0 500.

Definition stopAreaShapeSchema (s : StopAreaShape) : bool :=
  match s with
  | AreaPoint c b => lngLat_ok c && stopAreaBufferSchema b
  | AreaLine cs b =>
      forallb lngLat_ok cs && (2 <=? Z.of_nat (length cs))
      && (Z.of_nat (length cs) <=? 2000) && stopAreaBufferSchema b
  | AreaPolygon cs b =>
      forallb lngLat_ok cs && (3 <=? Z.of_nat (length cs))
      && (Z.of_nat (length cs) <=? 2000) && stopAreaBufferSchema b
  end.

Inductive StopAreaSource := FromOsm | FromFeed.

Record TransitStopArea := {
  sa_stopId : string;
  sa_platform : list StopAreaShape;
  sa_station : list StopAreaShape;
  sa_source : StopAreaSource;
}.

Definition transitStopAreaSchema (a : TransitStopArea) : bool :=
  max_text MAX_ID_LENGTH (sa_stopId a)
  && forallb stopAreaShapeSchema (sa_platform a)
  && (Z.of_nat (length (sa_platform a)) <=? 64)
  && forallb stopAreaShapeSchema (sa_station a)
  && (Z.of_nat (length (sa_station a)) <=? 64).

Record TransitNavigationSettings := {
  transit_voiceEnabled : bool;
  transit_keepScreenOn : bool;
  transit_alightAlertsEnabled : bool;
}.

(** [itinerary] is [z.record(z.string(), z.unknown())]: any decoded object. *)
Record TransitNavigationStartPackage := {
  tp_itinerary : list (string * json);
  tp_captures : list TransitLegCapture;
  tp_stopAreas : option (list (string * TransitStopArea));
  tp_replanOptions : option (list (string * json));
  tp_locale : Locale;
  tp_units : Units;
  tp_settings : TransitNavigationSettings;
  tp_itineraryFingerprint : string;
}.

Definition transitStartPackageSchema (p : TransitNavigationStartPackage) : bool :=
  forallb transitLegCaptureSchema (tp_captures p)
  && (Z.of_nat (length (tp_captures p)) <=? MAX_LEGS)
  && opt_ok (forallb (fun kv => max_text (MAX_ID_LENGTH + 65) kv.1 && transitStopAreaSchema kv.2))
       (tp_stopAreas p)
  && boundedId (tp_itineraryFingerprint p).

(** [navigationStartPackageSchema], discriminated on [kind]. *)
Inductive NavigationStartPackage :=
  | GroundPackage (p : GroundNavigationStartPackage)
  | TransitPackage (p : TransitNavigationStartPackage).

Inductive Kind := Ground | Transit.

#[export] Instance Kind_eq_dec : EqDecision Kind.
Proof. solve_decision. Defined.

Definition package_kind (p : NavigationStartPackage) : Kind :=
  match p with GroundPackage _ => Ground | TransitPackage _ => Transit end.

(** ** Messages *)

Inductive TransitPhase :=
  | PhaseWalking | WaitingToBoard | Riding | Transferring | PhaseArrived.

#[export] Instance TransitPhase_eq_dec : EqDecision TransitPhase.
Proof. solve_decision. Defined.

Inductive RiderActionType := Board | Alight | Continue | Undo.

#[export] Instance RiderActionType_eq_dec : EqDecision RiderActionType.
Proof. solve_decision. Defined.

Inductive Accuracy := AccBalanced | AccPrecise.
Inductive SettingsTarget := TargetLocation | TargetNotifications | TargetApplication.
Inductive AuthPurpose := SignIn | LinkProvider | AddPasskey.
Inductive IntakeDisposition := Opened | Discarded.

(** The payloads of [webToNativeSchema], one constructor per message type.  A
    passed-through or foreign payload stays a decoded value. *)
Inductive WebPayload :=
  | WebHello (webBuildId : string) (minProtocolVersion maxProtocolVersion : Z)
  | IntakeList
  | IntakeRead (id : string) (offset : Z)
  | IntakeComplete (id : string) (disposition : IntakeDisposition)
  | DestinationsUpdate (destinations : json)
  | SessionPrepare (startPackage : NavigationStartPackage)
  | SessionStart
  | SessionReplace (startPackage : NavigationStartPackage)
      (expectedItineraryFingerprint : option string)
  | TransitActionCommand (actionId itineraryFingerprint : string)
      (expectedPhase : TransitPhase) (type : RiderActionType) (legIndex : Z)
  | TransitWalkRoute (itineraryFingerprint : string) (legIndex : Z) (route : Route)
  | SettingsUpdate (locale : option Locale) (units : option Units)
      (voiceEnabled keepScreenOn alightAlertsEnabled : option bool)
      (voiceTiming : option VoiceTiming)
  | SnapshotRequest
  | SessionStop
  | SessionComplete
  | EventAck (eventIds : list string)
  | LocationRequest (requestId : string) (accuracy : Accuracy) (timeoutMs maxAgeMs : Z)
  | SettingsOpen (target : SettingsTarget)
  | AuthOpen (requestId : string) (purpose : AuthPurpose)
  | VoiceProbe
  | VoiceStart (requestId locale : string)
  | VoiceStop (requestId : string)
  | VoiceCancel (requestId : string).

(** The message's [type]. *)
Definition web_type (p : WebPayload) : string :=
  match p with
  | WebHello _ _ _ => "web.hello"
  | IntakeList => "intake.list"
  | IntakeRead _ _ => "intake.read"
  | IntakeComplete _ _ => "intake.complete"
  | DestinationsUpdate _ => "destinations.update"
  | SessionPrepare _ => "session.prepare"
  | SessionStart => "session.start"
  | SessionReplace _ _ => "session.replace"
  | TransitActionCommand _ _ _ _ _ => "transit.action"
  | TransitWalkRoute _ _ _ => "transit.walk-route"
  | SettingsUpdate _ _ _ _ _ _ => "settings.update"
  | SnapshotRequest => "snapshot.request"
  | SessionStop => "session.stop"
  | SessionComplete => "session.complete"
  | EventAck _ => "event.ack"
  | LocationRequest _ _ _ _ => "location.request"
  | SettingsOpen _ => "settings.open"
  | AuthOpen _ _ => "auth.open"
  | VoiceProbe => "voice.probe"
  | VoiceStart _ _ => "voice.start"
  | VoiceStop _ => "voice.stop"
  | VoiceCancel _ => "voice.cancel"
  end.

(** [MobileBridgeEnvelope] carrying a web-to-native payload. *)
Record WebToNativeMessage := {
  msg_protocolVersion : Z;
  msg_messageId : string;
  msg_channelNonce : string;
  msg_sessionId : option string;
  msg_revision : option Z;
  msg_sentAtMs : Z;
  msg_payload : WebPayload;
}.

(** ** Bounds checked before any side effect *)

Inductive ParseErrorCode :=
  | PayloadTooLarge | InvalidJson | PrototypePollution | InvalidMessage | WrongChannel
  | TimestampOutOfRange | TooManyCoordinates | TooManySteps | TooManyLegs.

#[export] Instance ParseErrorCode_eq_dec : EqDecision ParseErrorCode.
Proof. solve_decision. Defined.

Definition POLLUTING_KEYS : list string := ["__proto__"; "constructor"; "prototype"].

(** [containsPollutingKey(value, depth)].  The source stops below depth 64. *)
Fixpoint containsPollutingKey (value : json) (depth : nat) : bool :=
  if (64 <? depth)%nat then false
  else match value with
       | JArr items => existsb (fun item => containsPollutingKey item (S depth)) items
       | JObj fs =>
           existsb (fun kv => includes kv.1 POLLUTING_KEYS
                              || containsPollutingKey kv.2 (S depth)) fs
       | _ => false
       end.

Record AggregateCounts := { coordinates : Z; steps : Z; legs : Z }.

(** The contribution of one key of an object. *)
Definition count_key (key : string) (child : json) (c : AggregateCounts) : AggregateCounts :=
  match child with
  | JArr l =>
      let n := Z.of_nat (length l) in
      if String.eqb key "geometry"
      then {| coordinates := coordinates c + n; steps := steps c; legs := legs c |}
      else if String.eqb key "steps"
      then {| coordinates := coordinates c; steps := steps c + n; legs := legs c |}
      else if String.eqb key "legs"
      then {| coordinates := coordinates c; steps := steps c; legs := legs c + n |}
      else c
  | _ => c
  end.

(** [countAggregates(value, counts, depth)]. *)
Fixpoint countAggregates (value : json) (depth : nat) (c : AggregateCounts) : AggregateCounts :=
  if (64 <? depth)%nat then c
  else match value with
       | JArr items =>
           (fix go l c := match l with
                          | [] => c
                          | x :: r => go r (countAggregates x (S depth) c)
                          end) items c
       | JObj fs =>
           (fix go l c := match l with
                          | [] => c
                          | (k, v) :: r => go r (countAggregates v (S depth) (count_key k v c))
                          end) fs c
       | _ => c
       end.

Definition enforceAggregateBounds (message : json) : option ParseErrorCode :=
  let counts := countAggregates message 0 {| coordinates := 0; steps := 0; legs := 0 |} in
  if MAX_TOTAL_COORDINATES <? coordinates counts then Some TooManyCoordinates
  else if MAX_TOTAL_STEPS <? steps counts then Some TooManySteps
  else if MAX_LEGS <? legs counts then Some TooManyLegs
  else None.

(** A message of either direction: the union schema accepts both, and it is the
    bridge that refuses the native-to-web ones. *)
Inductive MobileBridgeMessage :=
  | FromWeb (m : WebToNativeMessage)
  | FromNative (channelNonce : string) (sentAtMs : Z).

Definition bridge_nonce (m : MobileBridgeMessage) : string :=
  match m with FromWeb m => msg_channelNonce m | FromNative n _ => n end.

Definition bridge_sentAtMs (m : MobileBridgeMessage) : Z :=
  match m with FromWeb m => msg_sentAtMs m | FromNative _ t => t end.

(** What the platform and the schema library compute from the raw text: its
    UTF-8 length ([TextEncoder]), the decoded value ([JSON.parse]), and the
    message with the schema's output value ([safeParse]). *)
Class WireDecoder := {
  utf8_length : string -> Z;
  json_parse : string -> option json;
  message_schema : json -> option (MobileBridgeMessage * json);
}.

Definition is_destinations_update (m : MobileBridgeMessage) : bool :=
  match m with
  | FromWeb m => match msg_payload m with DestinationsUpdate _ => true | _ => false end
  | FromNative _ _ => false
  end.

(** [parseMobileBridgeMessage] with the options the bridge passes. *)
Definition parseMobileBridgeMessage `{WireDecoder} (raw : string)
    (expectedNonce : string) (nowMs : Z) : MobileBridgeMessage + ParseErrorCode :=
  if MAX_MESSAGE_BYTES <? utf8_length raw then inr PayloadTooLarge
  else match json_parse raw with
  | None => inr InvalidJson
  | Some decoded =>
    if containsPollutingKey decoded 0 then inr PrototypePollution
    else match message_schema decoded with
    | None => inr InvalidMessage
    | Some (m, data) =>
      if is_destinations_update m && (64 * 1024 <? utf8_length raw)
      then inr PayloadTooLarge
      else if negb (String.eqb expectedNonce "")
              && negb (String.eqb (bridge_nonce m) expectedNonce)
      then inr WrongChannel
      else if MAX_CLOCK_SKEW_MS <? Z.abs (nowMs - bridge_sentAtMs m)
      then inr TimestampOutOfRange
      else match enforceAggregateBounds data with
           | Some code => inr code
           | None => inl m
           end
    end
  end.
