(* ===== verification/Cues.v ===== *)
(** * What navigation can say

    packages/i18n: the sentences of navigation (navigationCues.ts) and the translator
    of background code (translator.ts).  The message catalogues (locales/en.json and
    de.json, texts with characters the strings of this library do not hold) and the
    formatter of the package intl-messageformat are parameters. *)

From S2P Require Import Prelude Text Doubles NumberText Protocol.
From Stdlib Require Import Ascii QArith_base Qround Qreduction.

Local Open Scope Z_scope.

(** ** The catalogues and the formatter *)

(** [messages] of config.ts. *)
Class Catalogue := { messages : Locale -> json }.

(** [new IntlMessageFormat(message, locale)], told whether to read tags as text, and
    its [format], which may hand back parts instead of a text; either may throw. *)
Class Intl := {
  MessageFormat : Type;
  IntlMessageFormat : bool -> string -> Locale -> outcome MessageFormat;
  format_values : MessageFormat -> list (string * json) -> outcome json;
}.

Definition defaultLocale : Locale := En.

Definition NavigationCueError : string := "NavigationCueError".

(** ** The cues *)

Inductive CueTier := TierFar | TierNear | TierNow.

#[export] Instance CueTier_eq_dec : EqDecision CueTier.
Proof. solve_decision. Defined.

(** [NavigationCueIntent] *)
Inductive NavigationCue :=
  | GroundManeuver (tier : CueTier) (instruction : string) (distanceMeters : option number)
  | CueWalk (action : string) (street : option string) (level : option number)
  | CueBoard (line destination : string) (platform : option string)
  | CueAlight (stop : string)
  | CueTransfer (stop line : string)
  | CuePlatformChange (platform : string)
  | CueOffRoute
  | CueWeakGps
  | CueScheduleFallback
  | CuePermissionLost
  | CueArrival.

Definition MAX_FREE_TEXT : Z := 120.
Definition MAX_INSTRUCTION : Z := 240.

(** [a ?? b] *)
Definition nullish (a b : option json) : option json :=
  match a with None | Some JNull => b | _ => a end.

Section cues.
Context `{Catalogue} `{Intl}.

(** [CATALOGS[locale]?.navigation?.[key]] *)
Definition navigation_entry (l : Locale) (key : string) : option json :=
  json_field "navigation" (messages l) ≫= json_field key.

Definition messageFor (l : Locale) (key : string) : outcome string :=
  match nullish (navigation_entry l key) (navigation_entry defaultLocale key) with
  | Some (JStr message) => Ok message
  | _ => Throw NavigationCueError
  end.

(** [format]; the compiled messages it caches are a function of the locale and the key. *)
Definition format (l : Locale) (key : string) (values : list (string * json)) : outcome string :=
  message ← messageFor l key;
  formatter ← IntlMessageFormat false message l;
  result ← format_values formatter values;
  match result with JStr text => Ok text | _ => Throw NavigationCueError end.

Definition assertText (value : string) (max : Z) : outcome string :=
  if String.eqb (trim value) "" then Throw NavigationCueError
  else if max <? str_length value then Throw NavigationCueError
  else Ok value.

Local Open Scope num_scope.

(** Rounded to the nearest ten below a hundred, to the nearest fifty above. *)
Definition round_spoken (x : number) : number :=
  if x <? 100 then num_round (x / 10) * 10 else num_round (x / 50) * 50.

(** One decimal below ten. *)
Definition round_long (x : number) : number :=
  if x <? 10 then num_round (x * 10) / 10 else num_round x.

Definition formatCueDistance (meters : number) (l : Locale) (u : Units) : outcome string :=
  if negb (num_is_finite meters) || (meters <? 0) then Throw NavigationCueError
  else match u with
  | Imperial =>
      let feet := meters * literal 328084 100000 in
      if feet <? 1000 then format l "voiceDistanceFeet" [("feet", JNum (round_spoken feet))]
      else format l "voiceDistanceMiles" [("miles", JNum (round_long (meters / literal 1609344 1000)))]
  | Metric =>
      if meters <? 1000 then format l "voiceDistanceMeters" [("meters", JNum (round_spoken meters))]
      else format l "voiceDistanceKilometers" [("kilometers", JNum (round_long (meters / 1000)))]
  end.

Definition formatNavigationCue (intent : NavigationCue) (l : Locale) (u : Units) : outcome string :=
  let text value := assertText value MAX_FREE_TEXT in
  match intent with
  | GroundManeuver tier instruction distanceMeters =>
      instruction ← assertText instruction MAX_INSTRUCTION;
      match tier, distanceMeters with
      | TierNow, _ | _, None => Ok instruction
      | _, Some meters =>
          distance ← formatCueDistance meters l u;
          format l "voiceUpcoming" [("distance", JStr distance); ("instruction", JStr instruction)]
      end
  | CueWalk action street level =>
      action ← text action;
      match level, street with
      | Some n, _ =>
          if negb (num_is_integer n) || (200 <? num_abs n) then Throw NavigationCueError
          else format l "walkToLevel" [("action", JStr action); ("level", JNum n)]
      | None, Some street =>
          street ← text street;
          format l "walkOnStreet" [("action", JStr action); ("street", JStr street)]
      | None, None => Ok action
      end
  | CueBoard line destination platform =>
      line ← text line;
      destination ← text destination;
      match platform with
      | Some platform =>
          platform ← text platform;
          format l "voiceBoardPlatform"
            [("line", JStr line); ("destination", JStr destination); ("platform", JStr platform)]
      | None => format l "voiceBoard" [("line", JStr line); ("destination", JStr destination)]
      end
  | CueAlight stop => stop ← text stop; format l "voiceAlight" [("stop", JStr stop)]
  | CueTransfer stop line =>
      stop ← text stop;
      line ← text line;
      format l "voiceTransfer" [("stop", JStr stop); ("line", JStr line)]
  | CuePlatformChange platform =>
      platform ← text platform; format l "voicePlatformChange" [("platform", JStr platform)]
  | CueOffRoute => format l "voiceOffRoute" []
  | CueWeakGps => format l "weakGps" []
  | CueScheduleFallback => format l "voiceScheduleFallback" []
  | CuePermissionLost => format l "voicePermissionLost" []
  | CueArrival => format l "arrived" []
  end.

Local Close Scope num_scope.

(** ** The translator *)

(** [lookup(catalogue, key)] along the parts of a dotted key. *)
Fixpoint lookup_path (value : option json) (path : list string) : option string :=
  match path, value with
  | [], Some (JStr text) => Some text
  | part :: path, Some (JObj fields) => lookup_path (field part fields) path
  | _, _ => None
  end.

Definition MissingTranslation : string := "Missing translation".
Definition InvalidTranslation : string := "Invalid fallback translation".

(** [fallbackFormatter(path)] *)
Definition fallbackFormatter (path : list string) : outcome MessageFormat :=
  match lookup_path (Some (messages defaultLocale)) path with
  | None => Throw MissingTranslation
  | Some text => match IntlMessageFormat true text defaultLocale with
                 | Ok f => Ok f
                 | Throw _ => Throw InvalidTranslation
                 end
  end.

(** The formatter of a path, and whether it is already that of the fallback. *)
Definition formatter_for (l : Locale) (path : list string) : outcome (MessageFormat * bool) :=
  let fallback := f ← fallbackFormatter path; Ok (f, true) in
  match lookup_path (Some (messages l)) path with
  | None => fallback
  | Some text =>
      match IntlMessageFormat true text l with
      | Ok f => Ok (f, false)
      | Throw _ => if decide (l = defaultLocale) then Throw InvalidTranslation else fallback
      end
  end.

Definition NotText : string := "Translation is not text".

Definition text_of (result : json) : outcome string :=
  match result with JStr text => Ok text | _ => Throw NotText end.

(** [createTranslator(locale, namespace)] asked once for a key: the locale's own
    message, or the default locale's where that is missing, malformed, or does not
    take the values. *)
Definition translate (l : Locale) (path : list string) (values : list (string * json)) : outcome string :=
  '(formatter, fell_back) ← formatter_for l path;
  match format_values formatter values with
  | Ok result => text_of result
  | Throw _ =>
      if bool_decide (l = defaultLocale) || fell_back then Throw InvalidTranslation
      else formatter ← fallbackFormatter path;
           match format_values formatter values with
           | Ok result => text_of result
           | Throw _ => Throw InvalidTranslation
           end
  end.

(** [translate.has(key)] *)
Definition translate_has (l : Locale) (path : list string) : bool :=
  match lookup_path (Some (messages l)) path, lookup_path (Some (messages defaultLocale)) path with
  | None, None => false
  | _, _ => true
  end.
End cues.

(** ** Plain messages *)

Definition is_letter (c : Ascii.ascii) : bool :=
  let n := N.to_nat (Ascii.N_of_ascii c) in
  ((65 <=? n) && (n <=? 90) || (97 <=? n) && (n <=? 122))%nat.

(** A message of text and named arguments, [inside] the name of one: no choice, no
    tag, no quotation. *)
Fixpoint plain_message (args : list string) (inside : option string) (s : string) : bool :=
  match s, inside with
  | EmptyString, None => true
  | EmptyString, Some _ => false
  | String c r, None =>
      if Ascii.eqb c "{"%char then plain_message args (Some EmptyString) r
      else if Ascii.eqb c "}"%char || Ascii.eqb c "<"%char || Ascii.eqb c "'"%char then false
      else plain_message args None r
  | String c r, Some name =>
      if Ascii.eqb c "}"%char then includes name args && plain_message args None r
      else is_letter c && plain_message args (Some (name ++ String c EmptyString)%string) r
  end.

Definition scalar_value (j : json) : bool :=
  match j with JStr _ | JNum _ => true | _ => false end.

(** A plain message whose arguments are all given as texts or numbers becomes a text. *)
Class IntlLaws `{Intl} := plain_formats : forall ignoreTag text l values,
  plain_message (map fst values) None text = true ->
  forallb (fun v => scalar_value v.2) values = true ->
  exists f t, IntlMessageFormat ignoreTag text l = Ok f /\ format_values f values = Ok (JStr t).

(** The messages of the cues, with their arguments. *)
Definition cue_messages : list (string * list string) :=
  [("voiceDistanceFeet", ["feet"]); ("voiceDistanceMiles", ["miles"]);
   ("voiceDistanceMeters", ["meters"]); ("voiceDistanceKilometers", ["kilometers"]);
   ("voiceUpcoming", ["distance"; "instruction"]);
   ("walkToLevel", ["action"; "level"]); ("walkOnStreet", ["action"; "street"]);
   ("voiceBoardPlatform", ["line"; "destination"; "platform"]);
   ("voiceBoard", ["line"; "destination"]); ("voiceAlight", ["stop"]);
   ("voiceTransfer", ["stop"; "line"]); ("voicePlatformChange", ["platform"]);
   ("voiceOffRoute", []); ("weakGps", []); ("voiceScheduleFallback", []);
   ("voicePermissionLost", []); ("arrived", [])].

(** Each has a plain entry in every language, its own or the default one. *)
Class CatalogueLaws `{Catalogue} := spoken_messages : forall l key args,
  (key, args) ∈ cue_messages ->
  exists text, messageFor l key = Ok text /\ plain_message args None text = true.

(** ** Facts *)

Definition text_ok (max : Z) (value : string) : bool :=
  negb (String.eqb (trim value) "") && (str_length value <=? max).

(** What the formatter asks of a cue. *)
Definition can_say (cue : NavigationCue) : bool :=
  let text := text_ok MAX_FREE_TEXT in
  match cue with
  | GroundManeuver tier instruction distance =>
      text_ok MAX_INSTRUCTION instruction
      && match tier, distance with
         | TierNow, _ | _, None => true
         | _, Some meters => num_is_finite meters && negb (num_lt meters (num_of_Z 0))
         end
  | CueWalk action street level =>
      text action && match level, street with
                     | Some n, _ => num_is_integer n && negb (num_lt (num_of_Z 200) (num_abs n))
                     | None, Some street => text street
                     | None, None => true
                     end
  | CueBoard line destination platform =>
      text line && text destination && match platform with Some p => text p | None => true end
  | CueAlight stop => text stop
  | CueTransfer stop line => text stop && text line
  | CuePlatformChange platform => text platform
  | CueOffRoute | CueWeakGps | CueScheduleFallback | CuePermissionLost | CueArrival => true
  end.

Lemma assertText_ok value max :
  assertText value max = if text_ok max value then Ok value else Throw NavigationCueError.
Proof.
  unfold assertText, text_ok. destruct (String.eqb _ _); [done|]. cbn [negb andb].
  rewrite Z.leb_antisym. by destruct (max <? str_length value).
Qed.

Section said.
Context `{Catalogue} `{Intl} `{!CatalogueLaws} `{!IntlLaws}.

Lemma format_says l key values :
  (key, map fst values) ∈ cue_messages -> forallb (fun v => scalar_value v.2) values = true ->
  exists text, format l key values = Ok text.
Proof.
  intros Hk Hv. destruct (spoken_messages l _ _ Hk) as (m & Hm & Hp).
  destruct (plain_formats false m l values Hp Hv) as (f & t & Hf & Ht).
  exists t. unfold format. rewrite Hm. cbn [mbind outcome_bind]. rewrite Hf. cbn [mbind outcome_bind].
  by rewrite Ht.
Qed.

Ltac says := apply format_says; [apply list_elem_of_In; cbn; tauto|done].

Lemma distance_says meters l u :
  num_is_finite meters && negb (num_lt meters (num_of_Z 0)) = true ->
  exists text, formatCueDistance meters l u = Ok text.
Proof.
  intros [E1 E2%negb_true_iff]%andb_true_iff. unfold formatCueDistance.
  change (num_of_Z 0) with 0%num in E2. rewrite E1, E2. cbn [negb orb].
  destruct u; case_match; says.
Qed.

Lemma distance_refused meters l u :
  num_is_finite meters && negb (num_lt meters (num_of_Z 0)) = false ->
  formatCueDistance meters l u = Throw NavigationCueError.
Proof.
  unfold formatCueDistance. change (num_of_Z 0) with 0%num.
  destruct (num_is_finite meters); [|done]. cbn [negb orb andb]. by destruct (num_lt meters 0%num).
Qed.

Lemma every_cue_is_said cue l u :
  can_say cue = true <-> exists text, formatNavigationCue cue l u = Ok text.
Proof.
  destruct cue; cbn [can_say formatNavigationCue]; rewrite ?assertText_ok.
  all: try (split; [intros _; says|done]).
  - destruct (text_ok _ instruction); [|by split; [|intros []]]. cbn [mbind outcome_bind andb].
    destruct tier, distanceMeters as [meters|]; try (split; [eauto|done]).
    all: destruct (num_is_finite meters && negb (num_lt meters (num_of_Z 0))) eqn:E;
      [|rewrite distance_refused by done; by split; [|intros []]].
    all: destruct (distance_says meters l u E) as [d ->]; split; [intros _; says|done].
  - destruct (text_ok _ action); [|by split; [|intros []]]. cbn [mbind outcome_bind andb].
    destruct level as [n|].
    + change (num_of_Z 200) with 200%num. destruct (num_is_integer n); [|by split; [|intros []]].
      cbn [negb orb andb]. destruct (num_lt _ _); [by split; [|intros []]|]. split; [intros _; says|done].
    + destruct street as [s|]; [|split; [eauto|done]]. rewrite assertText_ok.
      destruct (text_ok _ s); [|by split; [|intros []]]. split; [intros _; says|done].
  - destruct (text_ok _ line); [|by split; [|intros []]]. cbn [mbind outcome_bind andb].
    rewrite ?assertText_ok. destruct (text_ok _ destination); [|by split; [|intros []]].
    cbn [mbind outcome_bind andb]. destruct platform as [p|]; [|split; [intros _; says|done]].
    rewrite ?assertText_ok. destruct (text_ok _ p); [|by split; [|intros []]]. split; [intros _; says|done].
  - destruct (text_ok _ stop); [|by split; [|intros []]]. split; [intros _; says|done].
  - destruct (text_ok _ stop); [|by split; [|intros []]]. cbn [mbind outcome_bind andb].
    rewrite ?assertText_ok. destruct (text_ok _ line); [|by split; [|intros []]]. split; [intros _; says|done].
  - destruct (text_ok _ platform); [|by split; [|intros []]]. split; [intros _; says|done].
Qed.

(** A cue is said, in every language and unit, exactly when its texts have something
    to say and are within their bounds and its numbers are plausible: nothing else,
    no missing translation and no missing argument, ever makes the formatter throw. *)
Theorem every_cue_can_be_said cue l u :
  can_say cue = true <-> exists text, formatNavigationCue cue l u = Ok text.
Proof. apply every_cue_is_said. Qed.

(** A translation the default language has is always found: the locale's own entry is
    used only where it compiles and formats, and a missing or broken one is replaced. *)
Lemma translation_falls_back l path values text :
  lookup_path (Some (messages defaultLocale)) path = Some text ->
  plain_message (map fst values) None text = true ->
  forallb (fun v => scalar_value v.2) values = true ->
  (exists t, translate l path values = Ok t) \/
  (translate l path values = Throw NotText /\ l <> defaultLocale).
Proof.
  intros Ht Hp Hv. destruct (plain_formats true text defaultLocale values Hp Hv) as (f & t & Hf & Hft).
  assert (fallbackFormatter path = Ok f) as Hfall by (unfold fallbackFormatter; by rewrite Ht, Hf).
  unfold translate, formatter_for. rewrite Hfall. cbn [mbind outcome_bind].
  destruct (decide (l = defaultLocale)) as [->|Hl].
  - rewrite Ht, Hf. cbn [mbind outcome_bind]. rewrite Hft. left. by exists t.
  - destruct (lookup_path (Some (messages l)) path) as [own|].
    2:{ cbn [mbind outcome_bind]. rewrite Hft. left. by exists t. }
    destruct (IntlMessageFormat true own l) as [g|]; cbn [mbind outcome_bind].
    2:{ rewrite Hft. left. by exists t. }
    destruct (format_values g values) as [[]|e]; cbn [text_of]; eauto.
    rewrite bool_decide_false by done. cbn [orb mbind outcome_bind]. rewrite Hft. left. by exists t.
Qed.
End said.

(** ** The catalogues of the repository, and plain formatting *)

(** The entries of locales/en.json and de.json that navigation asks for; a character
    beyond 255 is written in its ASCII spelling. *)
Definition navigation_en : list (string * json) :=
  [("voiceDistanceFeet", JStr "{feet} feet"); ("voiceDistanceMiles", JStr "{miles} miles");
   ("voiceDistanceMeters", JStr "{meters} metres");
   ("voiceDistanceKilometers", JStr "{kilometers} kilometres");
   ("voiceUpcoming", JStr "In {distance}, {instruction}");
   ("walkToLevel", JStr "{action} to level {level}"); ("walkOnStreet", JStr "{action} onto {street}");
   ("voiceBoardPlatform", JStr "Board the {line} towards {destination} on platform {platform}");
   ("voiceBoard", JStr "Board the {line} towards {destination}");
   ("voiceAlight", JStr "Get off at the next stop, {stop}");
   ("voiceTransfer", JStr "Get off at {stop} and change to the {line}");
   ("voicePlatformChange", JStr "Platform change: platform {platform}");
   ("voiceOffRoute", JStr "You are off the route"); ("weakGps", JStr "Weak GPS signal");
   ("voiceScheduleFallback", JStr "No GPS signal - following the timetable");
   ("voicePermissionLost", JStr "Location access was turned off, so guidance has stopped");
   ("arrived", JStr "You have arrived");
   ("walkDir", JObj [("depart", JStr "Head out"); ("continue", JStr "Continue");
      ("left", JStr "Turn left"); ("right", JStr "Turn right"); ("slightLeft", JStr "Bear left");
      ("slightRight", JStr "Bear right"); ("sharpLeft", JStr "Sharp left");
      ("sharpRight", JStr "Sharp right"); ("uturn", JStr "Make a U-turn");
      ("stairs", JStr "Take the stairs"); ("elevator", JStr "Take the elevator")])].

Definition navigation_de : list (string * json) :=
  [("voiceDistanceFeet", JStr "{feet} Fuss"); ("voiceDistanceMiles", JStr "{miles} Meilen");
   ("voiceDistanceMeters", JStr "{meters} Meter");
   ("voiceDistanceKilometers", JStr "{kilometers} Kilometer");
   ("voiceUpcoming", JStr "In {distance}, {instruction}");
   ("walkToLevel", JStr "{action} zu Ebene {level}"); ("walkOnStreet", JStr "{action} auf {street}");
   ("voiceBoardPlatform", JStr "Steig in die {line} Richtung {destination} auf Gleis {platform}");
   ("voiceBoard", JStr "Steig in die {line} Richtung {destination}");
   ("voiceTransfer", JStr "Steig an {stop} aus und in die {line} um");
   ("voicePlatformChange", JStr "Gleiswechsel: Gleis {platform}");
   ("arrived", JStr "Sie haben Ihr Ziel erreicht");
   ("walkDir", JObj [("left", JStr "Links abbiegen"); ("right", JStr "Rechts abbiegen")])].

#[export] Instance repository_catalogue : Catalogue :=
  {| messages := fun l => JObj [("navigation",
       JObj match l with En => navigation_en | De => navigation_de end)] |}.

(** What a value reads as. *)
Definition show_value_text (j : json) : string :=
  match j with JStr s => s | JNum x => show_number x | _ => EmptyString end.

(** A plain message with its arguments filled in. *)
Fixpoint fill (values : list (string * json)) (inside : option string) (s : string) : outcome string :=
  match s, inside with
  | EmptyString, None => Ok EmptyString
  | EmptyString, Some _ => Throw "SyntaxError"
  | String c r, None =>
      if Ascii.eqb c "{"%char then fill values (Some EmptyString) r
      else rest ← fill values None r; Ok (String c rest)
  | String c r, Some name =>
      if Ascii.eqb c "}"%char then
        match field name values with
        | None => Throw "MISSING_VALUE"
        | Some v => rest ← fill values None r; Ok (show_value_text v ++ rest)%string
        end
      else fill values (Some (name ++ String c EmptyString)%string) r
  end.

#[export] Instance plain_intl : Intl :=
  {| MessageFormat := string;
     IntlMessageFormat := fun _ text _ => Ok text;
     format_values := fun text values => t ← fill values None text; Ok (JStr t) |}.

Lemma field_given name (values : list (string * json)) :
  includes name (map fst values) = true -> exists v, field name values = Some v.
Proof.
  induction values as [|[k v] values IH]; cbn; [done|].
  destruct (String.eqb name k) eqn:E; intros Hi.
  - apply String.eqb_eq in E as ->. rewrite String.eqb_refl. eauto.
  - rewrite String.eqb_sym, E. by apply IH.
Qed.

Lemma fill_answers values inside s :
  plain_message (map fst values) inside s = true -> exists t, fill values inside s = Ok t.
Proof.
  revert inside. induction s as [|c s IH]; intros [name|]; cbn [plain_message fill]; [done|eauto|..].
  - destruct (Ascii.eqb c "}"%char).
    + intros [Hn Hs]%andb_true_iff. destruct (field_given _ _ Hn) as [v ->].
      destruct (IH _ Hs) as [t ->]. cbn. eauto.
    + intros [_ Hs]%andb_true_iff. by apply IH.
  - destruct (Ascii.eqb c "{"%char); [by apply IH|]. destruct (_ || _); [done|].
    intros Hs. destruct (IH _ Hs) as [t ->]. cbn. eauto.
Qed.

#[export] Instance plain_intl_lawful : IntlLaws.
Proof.
  intros tags text l values Hp _. destruct (fill_answers _ _ _ Hp) as [t Ht].
  exists text, t. split; [done|]. cbn. by rewrite Ht.
Qed.

#[export] Instance repository_catalogue_lawful : CatalogueLaws.
Proof.
  intros l key args Hin.
  assert (forallb (fun m => forallb (fun l => match messageFor l m.1 with
      | Ok text => plain_message m.2 None text | Throw _ => false end) [En; De]) cue_messages = true) as Hall
    by by vm_compute.
  rewrite forallb_forall in Hall. apply list_elem_of_In in Hin. apply Hall in Hin.
  rewrite forallb_forall in Hin. specialize (Hin l ltac:(by destruct l; cbn; auto)). cbn [fst snd] in Hin.
  destruct (messageFor l key) as [text|]; [eauto|done].
Qed.

Example spoken_sentences :
  formatNavigationCue (GroundManeuver TierFar "turn left" (Some (num_of_Z 437))) En Metric
    = Ok "In 450 metres, turn left" /\
  formatNavigationCue (GroundManeuver TierNear "turn left" (Some (num_of_Z 87))) De Imperial
    = Ok "In 300 Fuss, turn left" /\
  formatNavigationCue (CueBoard "U6" "Tegel" (Some "2")) De Metric
    = Ok "Steig in die U6 Richtung Tegel auf Gleis 2" /\
  formatNavigationCue (CueAlight "Mitte") De Metric = Ok "Get off at the next stop, Mitte" /\
  formatNavigationCue (CueAlight "  ") De Metric = Throw NavigationCueError /\
  translate De ["navigation"; "walkDir"; "stairs"] [] = Ok "Take the stairs".
Proof. by vm_compute. Qed.
