(* ===== verification/Geodesy.v ===== *)
(** * Distances and bearings on the sphere

    packages/core/src/utils/coordinates.ts and the geometric helpers of
    packages/core/src/navigation: bearing.ts, deadReckon.ts and the private copies
    of processFix.ts.  Every operation rounds, in the order the code writes it; the
    trigonometric functions are the implementation's ([MathFunctions]). *)

From S2P Require Import Prelude Doubles Protocol.

#[local] Open Scope num_scope.

Section geodesy.
Context `{MathFunctions}.

Definition toRad (deg : number) : number := deg * math_PI / 180.

(** [haversineDistance]: metres between two points. *)
Definition haversineDistance (a b : LngLat) : number :=
  let R := 6371000 in
  let dLat := toRad (b.2 - a.2) in
  let dLng := toRad (b.1 - a.1) in
  let sin2 :=
    num_square (math_sin (dLat / 2))
    + math_cos (toRad a.2) * math_cos (toRad b.2) * num_square (math_sin (dLng / 2)) in
  2 * R * math_asin (math_sqrt sin2).

(** Initial great-circle bearing, degrees clockwise from north. *)
Definition bearingBetween (a b : LngLat) : number :=
  let dLng := toRad (b.1 - a.1) in
  let y := math_sin dLng * math_cos (toRad b.2) in
  let x := math_cos (toRad a.2) * math_sin (toRad b.2)
           - math_sin (toRad a.2) * math_cos (toRad b.2) * math_cos dLng in
  (math_atan2 y x * 180 / math_PI + 360) mod 360.

(** [bearingAt]: the bearing of a segment, [0] without one. *)
Definition bearingAt (geometry : list LngLat) (segmentIndex : Z) : number :=
  if (length geometry <? 2)%nat then 0
  else let i := Z.max 0 (Z.min segmentIndex (Z.of_nat (length geometry) - 2)) in
       match geometry !! Z.to_nat i, geometry !! Z.to_nat (i + 1) with
       | Some a, Some b => bearingBetween a b
       | _, _ => NaN
       end.

(** Smallest absolute angle between two bearings. *)
Definition angularDiff (a b : number) : number :=
  let d := num_abs (a - b) mod 360 in
  if d >? 180 then 360 - d else d.

(** [cumulativeDistances]: the entry of every vertex. *)
Fixpoint distances_from (reached : number) (prev : LngLat) (rest : list LngLat) : list number :=
  match rest with
  | [] => []
  | p :: r => let d := reached + haversineDistance prev p in d :: distances_from d p r
  end.

Definition cumulativeDistances (geometry : list LngLat) : list number :=
  match geometry with
  | [] => [0]
  | p :: r => 0 :: distances_from (0) p r
  end.

(** [positionAt]: the largest [i] with [cum[i] <= d] by bisection, then the point
    on the segment that starts there. *)
Fixpoint segment_search (fuel : nat) (cum : list number) (d : number) (lo hi : nat) : nat :=
  match fuel with
  | O => lo
  | S fuel =>
      if (lo <? hi)%nat
      then let mid := ((lo + hi + 1) / 2)%nat in
           if match cum !! mid with Some c => c <=? d | None => false end
           then segment_search fuel cum d mid hi
           else segment_search fuel cum d lo (mid - 1)%nat
      else lo
  end.

Definition positionAt (geometry : list LngLat) (cum : list number) (distanceMeters : number)
    : LngLat * number :=
  match geometry with
  | [] => ((0, 0), 0)
  | [p] => (p, 0)
  | _ =>
      let n := length geometry in
      let at_ i := default NaN (cum !! i) in
      let total := at_ (n - 1)%nat in
      let d := num_min (num_max distanceMeters (0)) total in
      let i := segment_search n cum d 0 (n - 2)%nat in
      let segLen := at_ (i + 1)%nat - at_ i in
      let t := if segLen >? 0 then (d - at_ i) / segLen else 0 in
      match geometry !! i, geometry !! (i + 1)%nat with
      | Some p, Some q =>
          ((p.1 + (q.1 - p.1) * t, p.2 + (q.2 - p.2) * t), bearingBetween p q)
      | _, _ => ((NaN, NaN), NaN)
      end
  end.
End geodesy.
