(* ===== verification/RouteMatcher.v ===== *)
(** * The prepared route matcher

    packages/core/src/navigation/routeMatcher.ts: a route geometry is indexed once
    by a tree of spherical caps over its edges ([buildIndex]), and a fix is projected
    by branch and bound over that tree ([snapPreparedRoute]).  Turf's point and line
    functions are parameters; so is what comes of a value that is not the list of
    positions its declared type promises.  The typed arrays of the index (a centre, a radius and
    an edge range per node, numbered in the order [build] visits them) are the tree
    [Node]; [index_fits_its_arrays] is why the fixed capacity loses no node. *)

From S2P Require Import Prelude Doubles Protocol.

#[local] Open Scope num_scope.

(** ** Turf *)

Record TurfHit := {
  hit_coordinates : LngLat;
  hit_dist : number;
  hit_index : Z;
  hit_location : number;
}.

(** [@turf/helpers]: [point] takes a position or throws; [nearestPointOnLine] is used
    on a line of one segment.  A value that is declared a list of positions and is
    not one ([loose_positions]) is read as numbers by the code and by Turf, or makes
    either throw: the model leaves open which. *)
Class Turf := {
  degreesToRadians : number -> number;
  radiansToMeters : number -> number;
  earthRadius : number;
  point : LngLat -> outcome unit;
  nearestPointOnSegment : LngLat -> LngLat -> LngLat -> TurfHit;
  loose_positions : json -> outcome (list LngLat);
}.

(** A position, as its type declares it: two numbers first. *)
Definition json_point (j : json) : option LngLat :=
  match j with JArr (JNum x :: JNum y :: _) => Some (x, y) | _ => None end.

(** The members of a list of positions. *)
Definition positions_of `{Turf} (l : list json) : outcome (list LngLat) :=
  match mapM json_point l with
  | Some points => Ok points
  | None => loose_positions (JArr l)
  end.

(** What [lineString] says of fewer than two positions. *)
Definition too_short : string := "coordinates must be an array of two or more positions".

(** ** Constants *)

Definition LEAF_EDGES : nat := 8.
Definition CAP_FLOOR_RADIANS : number := literal 1 (10 ^ 8).
(** [32 * Number.EPSILON] *)
Definition CAP_DIRECTION_SLACK : number := Fin (QArith_base.Qmake 1 (2 ^ 47)).
Definition MAX_CAP_RADIANS : number := literal 5 100.
Definition MAX_EDGE_RADIANS : number := math_PI - literal 1 (10 ^ 6).
Definition MIN_CENTRE_MAGNITUDE : number := literal 1 (10 ^ 9).
Definition PRUNE_ABS_METERS : number := literal 1 (10 ^ 6).
Definition PRUNE_REL : number := literal 1 (10 ^ 9).

Section matcher.
Context `{MathFunctions} `{Turf}.

Definition turfDistanceMeters (from to : LngLat) : number :=
  let dLat := degreesToRadians (to.2 - from.2) in
  let dLon := degreesToRadians (to.1 - from.1) in
  let lat1 := degreesToRadians from.2 in
  let lat2 := degreesToRadians to.2 in
  let a := num_square (math_sin (dLat / 2))
           + num_square (math_sin (dLon / 2)) * math_cos lat1 * math_cos lat2 in
  radiansToMeters (2 * math_atan2 (math_sqrt a) (math_sqrt (1 - a))).

(** ** Vectors and caps *)

Record Vec := { vx : number; vy : number; vz : number }.

Definition unitVector (p : LngLat) : Vec :=
  let lat := degreesToRadians p.2 in
  let lng := degreesToRadians p.1 in
  let cosLat := math_cos lat in
  {| vx := cosLat * math_cos lng; vy := cosLat * math_sin lng; vz := math_sin lat |}.

Definition cross (a b : Vec) : Vec :=
  {| vx := vy a * vz b - vz a * vy b;
     vy := vz a * vx b - vx a * vz b;
     vz := vx a * vy b - vy a * vx b |}.

Definition dot (a b : Vec) : number := vx a * vx b + vy a * vy b + vz a * vz b.

Definition magnitude (v : Vec) : number := math_sqrt (vx v * vx v + vy v * vy v + vz v * vz v).

Definition angleBetween (a b : Vec) : number := math_atan2 (magnitude (cross a b)) (dot a b).

Definition vec_add (a b : Vec) : Vec :=
  {| vx := vx a + vx b; vy := vy a + vy b; vz := vz a + vz b |}.

Definition vec_div (v : Vec) (m : number) : Vec := {| vx := vx v / m; vy := vy v / m; vz := vz v / m |}.

Record Cap := { centre : Vec; radius : number }.

Definition capLowerBound (q : Vec) (c : Cap) : number :=
  let remaining := angleBetween q (centre c) - radius c in
  if remaining >? 0 then remaining * earthRadius else 0.

Definition prunable (lowerBound best : number) : bool :=
  let slack := PRUNE_ABS_METERS + PRUNE_REL * (num_abs lowerBound + num_abs best) in
  lowerBound - slack >? best.

(** The cap of an edge; an edge without a usable one is always evaluated. *)
Definition edge_cap (a b : Vec) : option Cap :=
  let cr := cross a b in
  let crossMag := magnitude cr in
  let cap :=
    if (vx cr =? 0) && (vy cr =? 0) && (vz cr =? 0)
    then if dot a b >? 0
         then Some {| centre := b; radius := angleBetween b a + CAP_FLOOR_RADIANS |}
         else None
    else if negb (math_atan2 crossMag (dot a b) <? MAX_EDGE_RADIANS) then None
    else let m := vec_add a b in
         let mag := magnitude m in
         if negb (mag >? MIN_CENTRE_MAGNITUDE) then None
         else let c := vec_div m mag in
              Some {| centre := c;
                      radius := num_max (angleBetween c a) (angleBetween c b)
                                + CAP_FLOOR_RADIANS
                                + CAP_DIRECTION_SLACK / num_max crossMag (literal 1 (10 ^ 300)) |} in
  match cap with
  | Some c => if radius c <? MAX_CAP_RADIANS then Some c else None
  | None => None
  end.

(** ** The tree *)

Inductive Node :=
  | Leaf (cap : Cap) (edges : list nat)
  | Branch (cap : Cap) (left right : Node).

Definition node_cap (n : Node) : Cap :=
  match n with Leaf c _ | Branch c _ _ => c end.

Fixpoint node_count (n : Node) : nat :=
  match n with Leaf _ _ => 1 | Branch _ l r => S (node_count l + node_count r) end.

Definition no_cap : Cap := {| centre := {| vx := 0; vy := 0; vz := 0 |}; radius := 0 |}.

Section build.
Variable caps : list (option Cap).

(** [capX[e]] and its companions, zero where an edge has no cap. *)
Definition cap_of (e : nat) : Cap := default no_cap (mjoin (caps !! e)).

(** The union of the caps of a leaf, one member at a time; opposing directions
    leave the centre and give up on the radius. *)
Fixpoint leaf_union (c : Cap) (rest : list nat) : Cap :=
  match rest with
  | [] => c
  | e :: r =>
      let o := cap_of e in
      let m := vec_add (centre c) (centre o) in
      let mag := magnitude m in
      if negb (mag >? MIN_CENTRE_MAGNITUDE) then {| centre := centre c; radius := math_PI |}
      else let n := vec_div m mag in
           let ra := angleBetween n (centre c) + radius c in
           let rb := angleBetween n (centre o) + radius o in
           leaf_union {| centre := n; radius := num_max ra rb + CAP_FLOOR_RADIANS |} r
  end.

Definition leaf (edges : list nat) : Node :=
  match edges with
  | [] => Leaf no_cap []
  | first :: rest =>
      let c := leaf_union (cap_of first) rest in
      Leaf {| centre := centre c; radius := num_min math_PI (radius c) |} edges
  end.

Definition combine (a b : Cap) : Cap :=
  let m := vec_add (centre a) (centre b) in
  let mag := magnitude m in
  if negb (mag >? MIN_CENTRE_MAGNITUDE) then {| centre := centre a; radius := math_PI |}
  else let c := vec_div m mag in
       let ra := angleBetween c (centre a) + radius a in
       let rb := angleBetween c (centre b) + radius b in
       {| centre := c; radius := num_min math_PI (num_max ra rb + CAP_FLOOR_RADIANS) |}.

(** [build(lo, hi)] over the indexed edges; half the run goes to each child. *)
Fixpoint build (fuel : nat) (indexed : list nat) (lo hi : nat) : Node :=
  let run := take (hi - lo) (drop lo indexed) in
  match fuel with
  | O => leaf run
  | S fuel =>
      if (hi - lo <=? LEAF_EDGES)%nat then leaf run
      else let mid := ((lo + hi) / 2)%nat in
           let l := build fuel indexed lo mid in
           let r := build fuel indexed mid hi in
           Branch (combine (node_cap l) (node_cap r)) l r
  end.
End build.

Record MatcherIndex := {
  coords : list LngLat;
  edges : nat;
  prefix : list number;
  caps : list (option Cap);
  always : list nat;
  indexed : list nat;
  root : option Node;
  exhaustive : bool;
}.

Definition finite_point (p : LngLat) : bool := num_is_finite p.1 && num_is_finite p.2.

(** [prefix[i + 1] = prefix[i] + distance]; entry [0] is zero. *)
Fixpoint prefix_from (reached : number) (geometry : list LngLat) : list number :=
  match geometry with
  | a :: (b :: _) as r => let d := reached + turfDistanceMeters a b in d :: prefix_from d r
  | _ => []
  end.

Definition route_prefix (geometry : list LngLat) : list number :=
  match geometry with [] => [] | _ => (0 : number) :: prefix_from 0 geometry end.

Fixpoint edge_caps (geometry : list LngLat) : list (option Cap) :=
  match geometry with
  | a :: (b :: _) as r => edge_cap (unitVector a) (unitVector b) :: edge_caps r
  | _ => []
  end.

(** The positions of the edges that have a cap, or have none. *)
Definition positions (with_cap : bool) (caps : list (option Cap)) : list nat :=
  filter (fun e => bool_decide (is_Some (mjoin (caps !! e))) = with_cap) (seq 0 (length caps)).

Definition buildIndex (geometry : list LngLat) : MatcherIndex :=
  let edges := (length geometry - 1)%nat in
  let finite := forallb finite_point geometry in
  if negb finite || (edges =? 0)%nat
  then {| coords := geometry; edges := edges; prefix := route_prefix geometry; caps := [];
          always := []; indexed := []; root := None; exhaustive := true |}
  else let caps := edge_caps geometry in
       let indexed := positions true caps in
       {| coords := geometry; edges := edges; prefix := route_prefix geometry; caps := caps;
          always := positions false caps; indexed := indexed;
          root := match indexed with
                  | [] => None
                  | _ => Some (build caps (length indexed) indexed 0 (length indexed))
                  end;
          exhaustive := false |}.

(** The room [buildIndex] reserves for nodes. *)
Definition minLeaf : nat := (LEAF_EDGES + 1) / 2.

Definition capacity (indexed : nat) : nat :=
  2 * ((Nat.max 1 indexed + (minLeaf - 1)) / minLeaf) + 2.

(** ** Projection *)

Record SnapResult := {
  snap_snapped : LngLat;
  snap_alongMeters : number;
  snap_deviationMeters : number;
  snap_segmentIndex : Z;
}.

(** What an index past the end of the coordinates would read. *)
Definition nowhere : LngLat := (NaN, NaN).

(** The best exact result so far; no edge yet is [None] for the code's [-1]. *)
Record Best := {
  bestDist : number;
  bestEdge : option nat;
  bestSnapped : LngLat;
  bestAlong : number;
  bestIndex : Z;
}.

Definition no_match : Best :=
  {| bestDist := PosInf; bestEdge := None; bestSnapped := (PosInf, PosInf); bestAlong := -1;
     bestIndex := (-1)%Z |}.

Section snap.
Variable idx : MatcherIndex.
Variable raw : LngLat.

Definition segment_hit (edge : nat) : TurfHit :=
  nearestPointOnSegment (default nowhere (coords idx !! edge))
    (default nowhere (coords idx !! S edge)) raw.

Definition edge_dist (edge : nat) : number := hit_dist (segment_hit edge).

(** What an evaluated edge contributes when it wins. *)
Definition edge_best (edge : nat) : Best :=
  let local := segment_hit edge in
  {| bestDist := hit_dist local; bestEdge := Some edge; bestSnapped := hit_coordinates local;
     bestAlong := default NaN (prefix idx !! edge) + hit_location local;
     bestIndex := (Z.of_nat edge + hit_index local)%Z |}.

Definition evaluate (b : Best) (edge : nat) : Best :=
  if (edge_dist edge <? bestDist b)
     || match bestEdge b with
        | Some e => (edge_dist edge =? bestDist b) && (edge <? e)%nat
        | None => false
        end
  then edge_best edge else b.

Definition evaluate_all (l : list nat) (b : Best) : Best := foldl evaluate b l.

Definition visit_edge (q : Vec) (b : Best) (e : nat) : Best :=
  if prunable (capLowerBound q (cap_of (caps idx) e)) (bestDist b) then b else evaluate b e.

Fixpoint visit (q : Vec) (n : Node) (b : Best) : Best :=
  match n with
  | Leaf _ es => foldl (visit_edge q) b es
  | Branch _ l r =>
      let boundL := capLowerBound q (node_cap l) in
      let boundR := capLowerBound q (node_cap r) in
      let enter bound m b := if prunable bound (bestDist b) then b else visit q m b in
      if boundL <=? boundR
      then enter boundR r (enter boundL l b)
      else enter boundL l (enter boundR r b)
  end.

Definition seeded (seed : option Z) (b : Best) : Best :=
  match seed, indexed idx with
  | Some s, _ :: _ =>
      let e := Z.to_nat (Z.max 0 (Z.min (Z.of_nat (edges idx) - 1) s)) in
      if radius (cap_of (caps idx) e) >? 0 then evaluate b e else b
  | _, _ => b
  end.

Definition best_result (b : Best) : SnapResult :=
  {| snap_snapped := bestSnapped b; snap_alongMeters := bestAlong b;
     snap_deviationMeters := bestDist b; snap_segmentIndex := bestIndex b |}.

(** The scan of every edge in order, which the index is to reproduce. *)
Definition scan : Best := evaluate_all (seq 0 (edges idx)) no_match.

Definition snap_best (seed : option Z) : Best :=
  if exhaustive idx then scan
  else let b := evaluate_all (always idx) no_match in
       let b := seeded seed b in
       match root idx with
       | None => b
       | Some n =>
           let q := unitVector raw in
           if prunable (capLowerBound q (node_cap n)) (bestDist b) then b else visit q n b
       end.
End snap.

(** [snapPreparedRoute]: a route too short to be a line is Turf's error, and then a
    fix that is no point. *)
Definition snapPreparedRoute (idx : MatcherIndex) (raw : LngLat) (seed : option Z)
    : outcome SnapResult :=
  if (edges idx =? 0)%nat then Throw too_short
  else
    _ ← point raw;
    Ok (best_result (snap_best idx raw seed)).
End matcher.
