(* ===== verification/SampleMath.v ===== *)
(** * A small mathematics

    Functions that satisfy what the guidance engine relies on of [Math] and of Turf,
    for the witnesses of the library: every angle is zero, an exponential is a half,
    a point lies as far from a segment as its longitude from the segment's start, and
    only numbers are coordinates.
    Nothing here models code. *)

From S2P Require Import Prelude Doubles Protocol Geodesy RouteMatcher.
From Stdlib Require Import QArith_base Qround.

#[export] Instance sample_math : MathFunctions :=
  {| math_sin := fun _ => 0%num; math_cos := fun _ => 1%num; math_asin := fun _ => 0%num;
     math_atan2 := fun _ _ => 0%num; math_sqrt := fun _ => 1%num;
     math_hypot := fun _ _ => 0%num;
     math_exp := fun _ => literal 1 2 |}.

Definition numbers_only (p : LngLat) : outcome unit :=
  match p with
  | (NaN, _) | (_, NaN) => Throw "coordinates must contain numbers"
  | _ => Ok tt
  end.

#[export] Instance sample_turf : Turf :=
  {| degreesToRadians := fun x => x; radiansToMeters := fun x => x;
     earthRadius := num_of_Z 6371008; point := numbers_only;
     loose_positions := fun _ => Throw "not a list of positions";
     nearestPointOnSegment := fun a b p =>
       {| hit_coordinates := a; hit_dist := num_abs (p.1 - a.1)%num; hit_index := 0;
          hit_location := 0%num |} |}.

(** ** A flat world

    The same interfaces on a plane: small enough angles that sines are their
    arguments, and projection by the dot product.  Distances come out close to the
    real ones near the origin, so journeys along short lines are realistic. *)

Definition flat_sqrt (x : number) : number :=
  match x with
  | Fin q => if Qle_bool q 0%Q then Fin 0%Q
             else round_double (Z.sqrt (Qfloor (q * inject_Z (2 ^ 140))) # (2 ^ 70))
  | NegInf => NaN
  | _ => x
  end.

Definition flat_math : MathFunctions :=
  {| math_sin := fun x => x; math_cos := fun _ => 1%num; math_asin := fun x => x;
     math_atan2 := fun y x => num_div y x; math_sqrt := flat_sqrt;
     math_hypot := fun x y => flat_sqrt (x * x + y * y)%num;
     math_exp := fun _ => literal 1 2 |}.

Section flat.
#[local] Open Scope num_scope.
#[local] Existing Instance flat_math | 0.

Definition flat_turf : Turf :=
  {| degreesToRadians := toRad; radiansToMeters := fun x => x * 6371008;
     earthRadius := 6371008; point := numbers_only;
     loose_positions := fun _ => Throw "not a list of positions";
     nearestPointOnSegment := fun a b p =>
       let dx := b.1 - a.1 in
       let dy := b.2 - a.2 in
       let t := num_max 0 (num_min 1 (((p.1 - a.1) * dx + (p.2 - a.2) * dy) / (dx * dx + dy * dy))) in
       let s := (a.1 + dx * t, a.2 + dy * t) in
       {| hit_coordinates := s; hit_dist := haversineDistance s p; hit_index := 0;
          hit_location := haversineDistance a s |} |}.
End flat.
