(* ===== verification/RouteMatcherFacts.v ===== *)
(** * What the matcher's index changes

    Branch and bound over the caps of [RouteMatcher] finds the edge the plain scan
    finds, whatever edge it is told to try first, unless one of the index's caps
    claims that an edge under it is further than it is ([claims], [overstates]); and
    the index never outgrows its arrays.  Whether a cap can lie is spherical
    trigonometry in doubles, of which nothing is assumed; for an index and a fix at
    hand [claims] lists the caps to compare. *)

From S2P Require Import Prelude Doubles Protocol RouteMatcher SampleMath.
From Stdlib Require Import QArith Qabs Qround Lqa.

(** ** The shape of the tree *)

Fixpoint node_edges (n : Node) : list nat :=
  match n with Leaf _ es => es | Branch _ l r => node_edges l ++ node_edges r end.

Fixpoint leaves_small (n : Node) : bool :=
  match n with
  | Leaf _ es => (length es <=? LEAF_EDGES)%nat
  | Branch _ l r => leaves_small l && leaves_small r
  end.

Section tree.
Context `{MathFunctions} `{Turf}.
Implicit Types (caps : list (option Cap)) (es : list nat).

Lemma leaf_edges caps es : node_edges (leaf caps es) = es.
Proof. by destruct es. Qed.

Lemma leaf_count caps es : node_count (leaf caps es) = 1%nat.
Proof. by destruct es. Qed.

Lemma halves lo hi : (lo <= hi)%nat -> let mid := ((lo + hi) / 2)%nat in
  (lo <= mid <= hi)%nat /\ (mid - lo = (hi - lo) / 2)%nat.
Proof.
  intros Hle. cbv zeta. replace (lo + hi)%nat with (lo * 2 + (hi - lo))%nat by lia.
  rewrite Nat.div_add_l by lia.
  pose proof (Nat.Div0.div_le_upper_bound (hi - lo) 2 (hi - lo)). lia.
Qed.

Lemma run_split {A} (l : list A) lo mid hi : (lo <= mid <= hi)%nat ->
  take (hi - lo) (drop lo l) = take (mid - lo) (drop lo l) ++ take (hi - mid) (drop mid l).
Proof.
  intros Hle. replace (hi - lo)%nat with ((mid - lo) + (hi - mid))%nat by lia.
  rewrite <- take_take_drop. f_equal. f_equal. rewrite drop_drop. f_equal. lia.
Qed.

(** The leaves of a node are its run of edges. *)
Lemma build_edges caps fuel indexed lo hi : (lo <= hi)%nat ->
  node_edges (build caps fuel indexed lo hi) = take (hi - lo) (drop lo indexed).
Proof.
  revert lo hi. induction fuel as [|fuel IH]; intros lo hi Hle; cbn [build].
  { apply leaf_edges. }
  case_match; [apply leaf_edges|].
  destruct (halves lo hi Hle) as [Hmid _]. cbn [node_edges].
  rewrite !IH by lia. symmetry. by apply run_split.
Qed.

(** With the run's length as fuel, the recursion ends by itself. *)
Lemma build_leaves_small caps fuel indexed lo hi : (lo <= hi)%nat -> (hi - lo <= fuel)%nat ->
  leaves_small (build caps fuel indexed lo hi) = true.
Proof.
  assert (forall es, (length es <= LEAF_EDGES)%nat -> leaves_small (leaf caps es) = true) as Hleaf.
  { intros [|e es] Hes; [done|]. by apply Nat.leb_le. }
  revert lo hi. induction fuel as [|fuel IH]; intros lo hi Hle Hf; cbn [build].
  { apply Hleaf. rewrite length_take. unfold LEAF_EDGES. lia. }
  case_match eqn:E.
  - apply Hleaf. rewrite length_take. apply Nat.leb_le in E. lia.
  - apply Nat.leb_gt in E. unfold LEAF_EDGES in E. destruct (halves lo hi Hle) as [Hmid Hhalf].
    pose proof (Nat.div_lt (hi - lo) 2). pose proof (Nat.div_le_lower_bound (hi - lo) 2 1).
    cbn [leaves_small]. rewrite !IH by lia. done.
Qed.

(** Every leaf a split leaves behind has at least [minLeaf] edges. *)
Lemma build_count caps fuel indexed lo hi : (lo <= hi)%nat -> (minLeaf <= hi - lo)%nat ->
  (node_count (build caps fuel indexed lo hi) < 2 * ((hi - lo) / minLeaf))%nat.
Proof.
  change minLeaf with 4%nat.
  revert lo hi. induction fuel as [|fuel IH]; intros lo hi Hle Hm; cbn [build];
    pose proof (Nat.div_le_lower_bound (hi - lo) 4 1).
  { rewrite leaf_count. lia. }
  case_match eqn:E; [rewrite leaf_count; lia|].
  apply Nat.leb_gt in E. unfold LEAF_EDGES in E. destruct (halves lo hi Hle) as [Hmid Hhalf].
  cbn [node_count].
  pose proof (Nat.div_mod_eq (hi - lo) 2). pose proof (Nat.mod_upper_bound (hi - lo) 2).
  set (mid := ((lo + hi) / 2)%nat) in *.
  pose proof (IH lo mid ltac:(lia) ltac:(lia)). pose proof (IH mid hi ltac:(lia) ltac:(lia)).
  pose proof (Nat.div_mod_eq (hi - lo) 4). pose proof (Nat.mod_upper_bound (hi - lo) 4).
  pose proof (Nat.div_mod_eq (mid - lo) 4). pose proof (Nat.mod_upper_bound (mid - lo) 4).
  pose proof (Nat.div_mod_eq (hi - mid) 4). pose proof (Nat.mod_upper_bound (hi - mid) 4).
  lia.
Qed.

Lemma build_fits caps fuel indexed :
  (node_count (build caps fuel indexed 0 (length indexed)) <= capacity (length indexed))%nat.
Proof.
  set (n := length indexed).
  assert (capacity n = 2 * ((Nat.max 1 n + 3) / 4) + 2)%nat as -> by done.
  destruct (le_lt_dec 4 n) as [Hn|Hn].
  - pose proof (build_count caps fuel indexed 0 n ltac:(lia)) as Hc.
    change minLeaf with 4%nat in Hc. rewrite Nat.sub_0_r in Hc. specialize (Hc Hn).
    pose proof (Nat.Div0.div_le_mono n (Nat.max 1 n + 3) 4). lia.
  - assert (node_count (build caps fuel indexed 0 n) = 1%nat) as ->; [|lia].
    destruct fuel as [|fuel]; cbn [build]; [apply leaf_count|].
    assert ((n - 0 <=? LEAF_EDGES)%nat = true) as -> by (apply Nat.leb_le; unfold LEAF_EDGES; lia).
    apply leaf_count.
Qed.
End tree.

(** ** The best edge of a set *)

Section best.
Context `{MathFunctions} `{Turf} (idx : MatcherIndex) (raw : LngLat).
Notation d := (edge_dist idx raw).

(** The edge [e0] is at least as good as [e]: closer, or as close and earlier. *)
Definition at_least_as_good (e0 e : nat) : Prop :=
  num_lt (d e) (d e0) = false /\ (num_eq (d e) (d e0) = true -> (e0 <= e)%nat).

(** [b] is the best of the edges [S]. *)
Definition best_of (S : nat -> Prop) (b : Best) : Prop :=
  (b = no_match /\ forall e, S e -> num_lt (d e) PosInf = false) \/
  (exists e0, S e0 /\ b = edge_best idx raw e0 /\ num_lt (d e0) PosInf = true /\
     forall e, S e -> at_least_as_good e0 e).

Lemma best_of_none : best_of (fun _ => False) no_match.
Proof. by left. Qed.

Lemma best_of_ext S T b : (forall e, S e <-> T e) -> best_of S b -> best_of T b.
Proof.
  intros HST [[-> Hn]|(e0 & Hin0 & -> & Hi & Hb)]; [left|right; exists e0]; split_and!; try done.
  - intros e He. by apply Hn, HST. - by apply HST. - intros e He. by apply Hb, HST.
Qed.

Lemma num_neither x y : x <> NaN -> y <> NaN ->
  num_lt x y = false -> num_lt y x = false -> num_eq x y = true.
Proof.
  intros Hx Hy H1 H2. unfold num_eq. apply andb_true_iff.
  split; [by apply num_le_total|by apply num_le_total].
Qed.

Lemma num_lt_not_nan x y : num_lt x y = true -> x <> NaN /\ y <> NaN.
Proof. by destruct x, y. Qed.

Lemma num_eq_sym x y : num_eq x y = num_eq y x.
Proof. apply andb_comm. Qed.

(** The best of a set is unique, so the order of evaluation is invisible. *)
Lemma best_of_unique S b b' : best_of S b -> best_of S b' -> b = b'.
Proof.
  intros [[-> Hn]|(e0 & Hin0 & -> & Hi & Hb)] [[-> Hn']|(e1 & H1 & -> & Hi' & Hb')].
  - done.
  - rewrite Hn in Hi'; done.
  - rewrite Hn' in Hi; done.
  - destruct (Hb e1 H1) as [Ha1 Hb1], (Hb' e0 Hin0) as [Ha2 Hb2].
    apply num_lt_not_nan in Hi as [Hi _], Hi' as [Hi' _].
    assert (e0 = e1) as ->; [|done].
    pose proof (num_neither _ _ Hi Hi' Ha2 Ha1) as Heq.
    specialize (Hb2 Heq). rewrite num_eq_sym in Heq. specialize (Hb1 Heq). lia.
Qed.

Definition and_edge (S : nat -> Prop) (e : nat) : nat -> Prop := fun x => S x \/ x = e.

Lemma best_of_evaluate S b e : best_of S b -> best_of (and_edge S e) (evaluate idx raw b e).
Proof.
  intros [[-> Hn]|(e0 & Hin0 & -> & Hi & Hb)]; unfold evaluate; cbn [bestDist bestEdge no_match edge_best].
  - rewrite orb_false_r. case_match eqn:E.
    + right. exists e. split_and!; [by right|done|done|]. intros x [Hx| ->].
      * specialize (Hn x Hx). split.
        -- destruct (num_lt (d x) (d e)) eqn:Ex; [|done].
           assert (num_lt (d x) PosInf = true) by
             (eapply num_lt_le_trans; [exact Ex|by apply num_lt_le]). congruence.
        -- intros Heq. unfold num_eq in Heq. apply andb_true_iff in Heq as [Hle _].
           rewrite (num_le_lt_trans _ _ _ Hle E) in Hn. done.
      * split; [apply num_lt_irrefl|lia].
    + left. split; [done|]. intros x [Hx| ->]; [by apply Hn|done].
  - change (hit_dist (segment_hit idx raw e0)) with (d e0).
    destruct (num_lt_not_nan _ _ Hi) as [Hnan _].
    case_match eqn:E; right.
    + exists e. split_and!; [by right|done| |].
      { apply orb_true_iff in E as [E|E]; [by eapply num_lt_le_trans, num_lt_le|].
        apply andb_true_iff in E as [E _]. unfold num_eq in E. apply andb_true_iff in E as [E _].
        by eapply num_le_lt_trans. }
      assert (num_le (d e) (d e0) = true) as Hle.
      { apply orb_true_iff in E as [E|E]; [by apply num_lt_le|].
        apply andb_true_iff in E as [E _]. unfold num_eq in E. by apply andb_true_iff in E as [E _]. }
      intros x [Hx| ->]; [|split; [apply num_lt_irrefl|lia]].
      destruct (Hb x Hx) as [Hx1 Hx2]. split.
      * destruct (num_lt (d x) (d e)) eqn:Ex; [|done].
        by rewrite (num_lt_le_trans _ _ _ Ex Hle) in Hx1.
      * intros Heq. pose proof Heq as Heq'. unfold num_eq in Heq'.
        apply andb_true_iff in Heq' as [Hxe Hex].
        assert (num_eq (d x) (d e0) = true) as Hx0.
        { unfold num_eq. apply andb_true_iff. split; [by eapply num_le_trans|].
          apply num_le_total; [|done|done]. by destruct (d x). }
        specialize (Hx2 Hx0). apply orb_true_iff in E as [E|E]; [|apply andb_true_iff in E as [_ E];
          apply Nat.ltb_lt in E; lia].
        rewrite (num_le_lt_trans _ _ _ Hxe E) in Hx1. done.
    + apply orb_false_iff in E as [E1 E2].
      exists e0. split_and!; [by left|done|done|]. intros x [Hx| ->]; [by apply Hb|].
      split; [done|]. intros Heq. rewrite Heq in E2. simpl in E2. by apply Nat.ltb_ge in E2.
Qed.

(** An edge that is not as close as the best so far need not be evaluated. *)
Lemma best_of_skip S b e :
  best_of S b -> num_le (d e) (bestDist b) = false -> best_of (and_edge S e) b.
Proof.
  intros [[-> Hn]|(e0 & Hin0 & -> & Hi & Hb)] Hle; cbn [bestDist no_match edge_best] in Hle.
  - left. split; [done|]. intros x [Hx| ->]; [by apply Hn|].
    destruct (num_lt (d e) PosInf) eqn:E; [|done]. apply num_lt_le in E. congruence.
  - change (hit_dist (segment_hit idx raw e0)) with (d e0) in Hle.
    right. exists e0. split_and!; [by left|done|done|]. intros x [Hx| ->]; [by apply Hb|].
    split.
    + destruct (num_lt (d e) (d e0)) eqn:E; [|done]. apply num_lt_le in E. congruence.
    + unfold num_eq. by rewrite Hle.
Qed.

Definition and_edges (S : nat -> Prop) (l : list nat) : nat -> Prop := fun x => S x \/ x ∈ l.

Lemma best_of_evaluate_all S l b :
  best_of S b -> best_of (and_edges S l) (evaluate_all idx raw l b).
Proof.
  revert S b. induction l as [|e l IH]; intros S b Hb; cbn [evaluate_all foldl].
  - eapply best_of_ext; [|exact Hb]. intros x. unfold and_edges. rewrite elem_of_nil. tauto.
  - eapply best_of_ext; [|apply IH, best_of_evaluate, Hb].
    intros x. unfold and_edges, and_edge. rewrite elem_of_cons. tauto.
Qed.

Lemma best_of_skip_all S l b :
  best_of S b -> Forall (fun e => num_le (d e) (bestDist b) = false) l -> best_of (and_edges S l) b.
Proof.
  intros Hb Hl. revert S Hb. induction Hl as [|e l He Hl IH]; intros S Hb.
  - eapply best_of_ext; [|exact Hb]. intros x. unfold and_edges. rewrite elem_of_nil. tauto.
  - eapply best_of_ext; [|apply IH, best_of_skip, He; exact Hb].
    intros x. unfold and_edges, and_edge. rewrite elem_of_cons. tauto.
Qed.

(** What a bound may claim: when it prunes, none of its edges is as close. *)
Definition conservative (q : Vec) (c : Cap) (es : list nat) : Prop :=
  forall S b, best_of S b -> prunable (capLowerBound q c) (bestDist b) = true ->
    Forall (fun e => num_le (d e) (bestDist b) = false) es.

Fixpoint node_conservative (q : Vec) (n : Node) : Prop :=
  conservative q (node_cap n) (node_edges n) /\
  match n with
  | Leaf _ es => Forall (fun e => conservative q (cap_of (caps idx) e) [e]) es
  | Branch _ l r => node_conservative q l /\ node_conservative q r
  end.

Lemma best_of_visit_edge q S b e : conservative q (cap_of (caps idx) e) [e] ->
  best_of S b -> best_of (and_edge S e) (visit_edge idx raw q b e).
Proof.
  intros Hc Hb. unfold visit_edge. case_match eqn:E; [|by apply best_of_evaluate].
  apply best_of_skip; [done|]. pose proof (Hc S b Hb E) as Hf. by apply Forall_cons in Hf as [Hf _].
Qed.

Lemma best_of_visit q n S b : node_conservative q n ->
  best_of S b -> best_of (and_edges S (node_edges n)) (visit idx raw q n b).
Proof.
  revert S b. induction n as [c es|c l IHl r IHr]; intros S b [_ Hn] Hb; cbn [visit node_edges].
  - revert S b Hb. induction Hn as [|e es He Hes IH]; intros S b Hb; cbn [foldl].
    + eapply best_of_ext; [|exact Hb]. intros x. unfold and_edges. rewrite elem_of_nil. tauto.
    + eapply best_of_ext; [|apply IH, best_of_visit_edge, Hb; done].
      intros x. unfold and_edges, and_edge. rewrite elem_of_cons. tauto.
  - destruct Hn as [Hl Hr].
    assert (forall m, node_conservative q m ->
              (forall S b, best_of S b -> best_of (and_edges S (node_edges m)) (visit idx raw q m b)) ->
              forall S b, best_of S b -> best_of (and_edges S (node_edges m))
                (if prunable (capLowerBound q (node_cap m)) (bestDist b) then b
                 else visit idx raw q m b)) as Henter.
    { intros m Hm IH S' b' Hb'. case_match eqn:E; [|by apply IH].
      apply best_of_skip_all; [done|]. destruct m; destruct Hm as [Hm _]; by eapply Hm. }
    case_match; (eapply best_of_ext; [|eapply Henter; [|eauto|eapply Henter; [|eauto|exact Hb]]; done]);
      intros x; unfold and_edges; rewrite elem_of_app; tauto.
Qed.
End best.

(** ** What a pruning test that succeeds means *)

(** What is relied on of Turf: a distance is a double that is not negative, or no
    number at all, and a position of finite numbers is a point. *)
Class TurfLaws `{Turf} := {
  distance_ok : forall a b p, let d := hit_dist (nearestPointOnSegment a b p) in
    d = NaN \/ d = PosInf \/ exists q, d = Fin q /\ representable q /\ 0 <= q;
  point_finite : forall p, num_is_finite p.1 = true -> num_is_finite p.2 = true -> point p = Ok tt;
}.

(** A lower bound that is not one, by more than a micrometre (2^-20 m), which is the
    slack the code allows its caps. *)
Definition overstates (lowerBound distance : number) : bool :=
  match lowerBound, distance with
  | Fin l, Fin x => negb (Qle_bool l (x + pow2 (-20)))
  | _, _ => false
  end.

Lemma prune_abs_between : exists a, PRUNE_ABS_METERS = Fin a /\ representable a /\ pow2 (-20) <= a.
Proof.
  assert (between (pow2 (-20)) 1 PRUNE_ABS_METERS) as (a & Ha & Hr & H1a & _); [|exists a; exact (conj Ha (conj Hr H1a))].
  apply round_between; [by apply representable_pow2|done|by vm_compute|by vm_compute].
Qed.

Lemma prune_rel_positive : exists a, PRUNE_REL = Fin a /\ 0 < a.
Proof.
  assert (between (pow2 (-30)) 1 PRUNE_REL) as (a & Ha & _ & H1a & _).
  { apply round_between; [by apply representable_pow2|done|by vm_compute|by vm_compute]. }
  exists a. split; [exact Ha|]. pose proof (pow2_pos (-30)). lra.
Qed.

#[local] Opaque literal pow2.

(** A distance the matcher can hold as its best. *)
Definition best_ok (x : number) : Prop := x = PosInf \/ exists b, x = Fin b /\ representable b /\ 0 <= b.

Lemma abs_nonneg l : num_le (Fin 0) (num_abs (Fin l)) = true.
Proof. cbn [num_abs]. apply num_le_Fin. rewrite q_abs_spec. apply Qabs_nonneg. Qed.

Lemma add_ge a x y : representable a -> num_le (Fin a) x = true -> num_le (Fin 0) y = true ->
  num_le (Fin a) (x + y)%num = true.
Proof.
  intros Ha Hx Hy. destruct x as [| | |p], y as [| | |r]; try discriminate; try reflexivity.
  apply num_le_Fin in Hx, Hy. apply round_ge; [exact Ha|lra].
Qed.

Lemma mul_ge_0 p x : 0 < p -> num_le (Fin 0) x = true -> num_le (Fin 0) (Fin p * x)%num = true.
Proof.
  intros Hp Hx. destruct x as [| | |r]; try discriminate.
  - cbn [num_mul]. unfold infinite_product. cbn [num_sign].
    assert (Qnum p ?= 0 = Gt)%Z as -> by (unfold Qlt in Hp; simpl in Hp; apply Z.compare_gt_iff; lia).
    reflexivity.
  - apply num_le_Fin in Hx. apply round_ge; [exact representable_0|nra].
Qed.

(** What a pruning test that succeeds means. *)
Lemma prunable_sound l best : best_ok best -> prunable (Fin l) best = true ->
  exists b, best = Fin b /\ b + pow2 (-20) < l.
Proof.
  destruct prune_abs_between as (a & Ea & Ha & Ha20). destruct prune_rel_positive as (p & Ep & Hp).
  intros [->|(b & -> & Hb & Hb0)]; unfold prunable; rewrite Ea, Ep; clear Ea Ep.
  - intros Hlt. exfalso. revert Hlt. destruct (Fin l - _)%num; discriminate.
  - intros Hlt. exists b. split; [reflexivity|].
    set (s := (Fin a + Fin p * (num_abs (Fin l) + num_abs (Fin b)))%num) in Hlt.
    assert (num_le (Fin a) s = true) as Hs.
    { apply add_ge; [exact Ha|apply num_le_refl; discriminate|].
      apply mul_ge_0; [exact Hp|]. apply add_ge; [exact representable_0|apply abs_nonneg|apply abs_nonneg]. }
    clearbody s. destruct s as [| | |s]; try discriminate. apply num_le_Fin in Hs.
    cbn [num_sub num_neg num_add] in Hlt.
    assert (b < l + - s); [|lra]. apply Qnot_le_lt. intros Hle.
    pose proof (round_le b _ Hb Hle) as Hle'. apply num_lt_not_le in Hlt.
    change (num_le (num_sub (Fin l) (Fin s)) (Fin b) = false) in Hlt.
    cbn [num_sub num_neg num_add] in Hlt. congruence.
Qed.

(** While nothing has been found, nothing is pruned. *)
Lemma nothing_beyond l : prunable l PosInf = false.
Proof.
  unfold prunable. destruct prune_abs_between as (a & Ea & _). destruct prune_rel_positive as (p & Ep & Hp). rewrite Ea, Ep.
  clear Ea Ep. destruct l as [| | |l]; cbn [num_abs num_add num_mul num_sub num_neg]; try reflexivity;
    unfold infinite_product; cbn [num_sign];
    (assert (Qnum p ?= 0 = Gt)%Z as -> by (unfold Qlt in Hp; simpl in Hp; apply Z.compare_gt_iff; lia)); reflexivity.
Qed.

(** An edge that is pruned although it is no further than the best is under a cap
    that overstates its distance. *)
Lemma pruned_means_overstated l best x :
  best_ok best -> x = NaN \/ x = PosInf \/ (exists q, x = Fin q /\ representable q /\ 0 <= q) ->
  prunable l best = true -> num_le x best = true -> overstates l x = true.
Proof.
  intros Hbest Hx Hp Hle. destruct l as [| | |l].
  1-3: exfalso; destruct Hbest as [->|(b & -> & _ & Hb)]; [by rewrite nothing_beyond in Hp|].
  1-3: unfold prunable in Hp; destruct prune_abs_between as (a & Ea & _), prune_rel_positive as (p & Ep & Hpos); rewrite Ea, Ep in Hp;
    clear Ea Ep; cbn [num_abs num_add num_mul num_sub num_neg] in Hp; unfold infinite_product in Hp; cbn [num_sign] in Hp;
    try (assert (Qnum p ?= 0 = Gt)%Z as Eq by (unfold Qlt in Hpos; simpl in Hpos; apply Z.compare_gt_iff; lia); rewrite Eq in Hp);
    discriminate Hp.
  destruct (prunable_sound l best Hbest Hp) as (b & -> & Hlt).
  destruct Hx as [->|[->|(q & -> & _)]]; [discriminate Hle..|]. apply num_le_Fin in Hle.
  cbn [overstates]. apply negb_true_iff, Qle_bool_false. lra.
Qed.

(** ** Caps and the edges they speak for *)

(** Every edge under a node, with the caps that can keep it from being evaluated. *)
Fixpoint claims (caps : list (option Cap)) (n : Node) : list (nat * Cap) :=
  map (fun e => (e, node_cap n)) (node_edges n) ++
  match n with
  | Leaf _ es => map (fun e => (e, cap_of caps e)) es
  | Branch _ l r => claims caps l ++ claims caps r
  end.

(** The claims of the whole index. *)
Definition index_claims (idx : MatcherIndex) : list (nat * Cap) :=
  match root idx with Some n => claims (caps idx) n | None => [] end.

Section honest.
Context `{MathFunctions} `{TurfLaws} (idx : MatcherIndex) (raw : LngLat).
Notation d := (edge_dist idx raw).
Notation q := (unitVector raw).

(** A cap that claims too much for an edge. *)
Definition lies (claim : nat * Cap) : bool := overstates (capLowerBound q claim.2) (d claim.1).

Lemma best_of_ok S b : best_of idx raw S b -> best_ok (bestDist b).
Proof.
  intros [[-> _]|(e0 & _ & -> & Hi & _)]; [by left|]. cbn [bestDist edge_best].
  change (hit_dist (segment_hit idx raw e0)) with (d e0).
  destruct (distance_ok (default nowhere (coords idx !! e0)) (default nowhere (coords idx !! Datatypes.S e0)) raw)
    as [Hn|[Hn|Hn]]; change (d e0 = NaN) in Hn || change (d e0 = PosInf) in Hn || idtac.
  - rewrite Hn in Hi. discriminate.
  - by left.
  - by right.
Qed.

(** A cap that lies for none of its edges prunes none that is close. *)
Lemma honest_conservative c es :
  Forall (fun e => lies (e, c) = false) es -> conservative idx raw q c es.
Proof.
  intros Hes S b Hb%best_of_ok Hp. eapply Forall_impl; [exact Hes|]. intros e He.
  destruct (num_le (d e) (bestDist b)) eqn:E; [|done].
  unfold lies in He. cbn [fst snd] in He. rewrite (pruned_means_overstated _ _ _ Hb) in He; [discriminate| |exact Hp|exact E].
  apply distance_ok.
Qed.

Lemma honest_node n : Forall (fun claim => lies claim = false) (claims (caps idx) n) -> node_conservative idx raw q n.
Proof.
  induction n as [c es|c l IHl r IHr]; cbn [claims node_conservative node_cap node_edges];
    intros [Hall Hrest]%Forall_app; rewrite Forall_map in Hall; (split; [by apply honest_conservative|]).
  - rewrite Forall_map in Hrest. eapply Forall_impl; [exact Hrest|]. intros e He.
    apply honest_conservative. by apply Forall_singleton.
  - apply Forall_app in Hrest as [Hl Hr]. split; [by apply IHl|by apply IHr].
Qed.
End honest.

(** ** The index of a geometry *)

Section index.
Context `{MathFunctions} `{Turf}.

Lemma edge_caps_length g : length (edge_caps g) = (length g - 1)%nat.
Proof.
  induction g as [|a [|b g] IH]; [done|done|]. cbn [edge_caps length] in *. rewrite IH. lia.
Qed.

Lemma positions_elem w caps e :
  e ∈ positions w caps <-> (e < length caps)%nat /\ bool_decide (is_Some (mjoin (caps !! e))) = w.
Proof.
  unfold positions. rewrite list_elem_of_filter, elem_of_seq. split; intros [? ?]; split; auto; lia.
Qed.

Section geometry.
Variables (g : list LngLat) (raw : LngLat).
Hypothesis Hfinite : forallb finite_point g = true.
Hypothesis Hedges : (length g - 1 =? 0)%nat = false.

Let idx := buildIndex g.

Lemma buildIndex_finite :
  exhaustive idx = false /\ caps idx = edge_caps g /\ coords idx = g /\
  edges idx = (length g - 1)%nat /\ always idx = positions false (edge_caps g) /\
  indexed idx = positions true (edge_caps g) /\
  root idx = match positions true (edge_caps g) with
             | [] => None
             | l => Some (build (edge_caps g) (length l) l 0 (length l))
             end.
Proof. unfold idx, buildIndex. rewrite Hfinite, Hedges. by destruct (positions true (edge_caps g)). Qed.

Lemma all_edges e :
  e ∈ positions false (edge_caps g) \/ e ∈ positions true (edge_caps g) <-> (e < edges idx)%nat.
Proof.
  destruct buildIndex_finite as (_ & _ & _ & He & _). rewrite !positions_elem, He, <- edge_caps_length.
  destruct (bool_decide _) eqn:Ed; intuition (lia || discriminate).
Qed.

(** The tree is over the edges that have a cap. *)
Lemma root_edges n : root idx = Some n -> node_edges n = positions true (edge_caps g).
Proof.
  destruct buildIndex_finite as (_ & _ & _ & _ & _ & _ & ->).
  set (es := positions true (edge_caps g)). intros Hn.
  assert (Some n = Some (build (edge_caps g) (length es) es 0 (length es))) as [= ->] by by destruct es.
  rewrite build_edges by lia. by rewrite Nat.sub_0_r, drop_0, firstn_all.
Qed.

Lemma no_root : root idx = None -> positions true (edge_caps g) = [].
Proof. destruct buildIndex_finite as (_ & _ & _ & _ & _ & _ & ->). by destruct (positions true (edge_caps g)). Qed.

(** Where pruning is right, the search is the scan. *)
Lemma conservative_search seed :
  (forall n, root idx = Some n -> node_conservative idx raw (unitVector raw) n) ->
  snap_best idx raw seed = scan idx raw.
Proof.
  intros Hn. destruct buildIndex_finite as (Hex & _ & _ & _ & Hal & Hin & _).
  unfold snap_best. rewrite Hex, Hal.
  set (All := fun e => (e < edges idx)%nat).
  apply (best_of_unique idx raw All).
  2:{ eapply best_of_ext; [|apply best_of_evaluate_all, best_of_none].
      intros e. unfold and_edges, All. rewrite elem_of_seq. lia. }
  pose proof (best_of_evaluate_all idx raw _ (positions false (edge_caps g)) _ (best_of_none idx raw)) as H1b.
  set (b1 := evaluate_all idx raw _ _) in *.
  assert (exists S, best_of idx raw S (seeded idx raw seed b1) /\
            forall e, (S e \/ e ∈ positions true (edge_caps g)) <-> All e) as (S & HS & HSAll).
  { assert (forall e, (False \/ e ∈ positions false (edge_caps g)) \/ e ∈ positions true (edge_caps g) <-> All e)
      as Hall by (intros e; unfold All; rewrite <- all_edges; tauto).
    assert (exists S, best_of idx raw S b1 /\
              forall e, (S e \/ e ∈ positions true (edge_caps g)) <-> All e) as Hplain
      by (eexists; split; [exact H1b|exact Hall]).
    unfold seeded. destruct seed as [z|]; [|exact Hplain].
    destruct (indexed idx); [exact Hplain|].
    destruct (0 <? radius _)%num; [|exact Hplain].
    eexists. split; [apply best_of_evaluate, H1b|]. intros e. rewrite <- Hall. unfold and_edge, and_edges.
    split; [|tauto]. intros [[?|Heq]|?]; [tauto| |tauto]. apply Hall. unfold All. rewrite Heq.
    destruct buildIndex_finite as (_ & _ & _ & He & _). pose proof (proj1 (Nat.eqb_neq _ _) Hedges). lia. }
  destruct (root idx) as [n|] eqn:Er.
  - specialize (Hn n eq_refl). rewrite <- (root_edges n Er) in HSAll.
    apply (best_of_ext idx raw (and_edges S (node_edges n))); [exact HSAll|]. cbv zeta.
    destruct (prunable _ _) eqn:Ep; [|by apply best_of_visit].
    apply best_of_skip_all; [exact HS|]. destruct n; destruct Hn as [Hn _]; by eapply Hn.
  - rewrite (no_root Er) in HSAll. eapply best_of_ext; [|exact HS]. intros e. rewrite <- HSAll, elem_of_nil. tauto.
Qed.

(** *** Something is found *)

(** What holds of a best so far: nothing, or an edge of the route. *)
Definition found (b : Best) : Prop := exists e, (e < edges idx)%nat /\ b = edge_best idx raw e.

Hypothesis Hdist : forall e, (e < edges idx)%nat -> num_is_finite (edge_dist idx raw e) = true.

Lemma evaluate_found b e : (e < edges idx)%nat -> b = no_match \/ found b -> found (evaluate idx raw b e).
Proof.
  intros He [->|Hb]; unfold evaluate.
  - specialize (Hdist e He). cbn [bestDist bestEdge no_match]. rewrite orb_false_r.
    destruct (edge_dist idx raw e) as [| | |x]; [discriminate Hdist..|]. by exists e.
  - case_match; [by exists e|exact Hb].
Qed.

Lemma visit_found qv n b : (forall e, e ∈ node_edges n -> (e < edges idx)%nat) ->
  found b \/ (b = no_match /\ node_edges n <> []) -> found (visit idx raw qv n b).
Proof.
  revert b. induction n as [c es|c l IHl r IHr]; intros b; cbn [node_edges visit].
  - revert b. induction es as [|e es IH]; intros b Hes Hb; cbn [foldl]; [by destruct Hb as [?|[_ []]]|].
    apply IH; [intros x Hx; apply Hes; by right|]. left. assert (e < edges idx)%nat as He by (apply Hes; by left).
    unfold visit_edge. destruct Hb as [Hb|[-> _]].
    + case_match; [exact Hb|]. apply evaluate_found; [exact He|by right].
    + cbn [bestDist no_match]. rewrite nothing_beyond. apply evaluate_found; [exact He|by left].
  - intros Hes Hb.
    assert (forall m bound, (m = l \/ m = r) -> forall b',
      found b' \/ (b' = no_match /\ node_edges m <> []) ->
      found (if prunable bound (bestDist b') then b' else visit idx raw qv m b')) as Henter.
    { intros m bound Hm b' Hb'. assert (found (visit idx raw qv m b')) as Hv.
      { destruct Hm as [->| ->]; [apply IHl|apply IHr]; try exact Hb'; intros e He; apply Hes; rewrite elem_of_app; tauto. }
      case_match eqn:E; [|exact Hv]. destruct Hb' as [Hb'|[-> _]]; [exact Hb'|].
      cbn [bestDist no_match] in E. by rewrite nothing_beyond in E. }
    assert (forall m, node_edges m = [] -> visit idx raw qv m no_match = no_match) as Hempty.
    { intros m. induction m as [? ?|? ml IHml mr IHmr]; cbn [node_edges visit]; [by intros ->|].
      intros [Hml Hmr]%app_eq_nil. cbn [bestDist no_match]. rewrite !nothing_beyond.
      case_match; rewrite ?(IHml Hml), ?(IHmr Hmr); cbn [bestDist no_match]; rewrite !nothing_beyond; by rewrite ?(IHml Hml), ?(IHmr Hmr). }
    assert (forall m m' bm bm', (m = l /\ m' = r) \/ (m = r /\ m' = l) ->
      found ((fun b1 => if prunable bm' (bestDist b1) then b1 else visit idx raw qv m' b1)
               (if prunable bm (bestDist b) then b else visit idx raw qv m b))) as Hboth.
    { intros m m' bm bm' Hm. destruct Hb as [Hb|[-> Hne]].
      - apply (Henter m'); [tauto|]. left. apply (Henter m); [tauto|by left].
      - apply (Henter m'); [tauto|]. cbn [bestDist no_match]. rewrite nothing_beyond.
        destruct (node_edges m) as [|e es] eqn:Em.
        + right. rewrite (Hempty m Em). split; [done|]. intros Em'. apply Hne.
          destruct Hm as [[-> ->]|[-> ->]]; by rewrite Em, Em'.
        + left. pose proof (Henter m bm) as Hm'. cbn [bestDist no_match] in Hm'. specialize (Hm' ltac:(tauto) no_match).
          cbn [bestDist no_match] in Hm'. rewrite nothing_beyond in Hm'. apply Hm'. right. by rewrite Em. }
    case_match; apply Hboth; tauto.
Qed.

Lemma evaluate_all_found l b : (forall e, e ∈ l -> (e < edges idx)%nat) ->
  found b \/ (b = no_match /\ l <> []) -> found (evaluate_all idx raw l b).
Proof.
  revert b. induction l as [|e l IH]; intros b Hl Hb; cbn [evaluate_all foldl]; [by destruct Hb as [?|[_ []]]|].
  apply IH; [intros x Hx; apply Hl; by right|]. left. apply evaluate_found; [apply Hl; by left|]. tauto.
Qed.

(** Where every edge has a distance, the search ends with one of them, whatever the
    caps say. *)
Lemma search_finds seed : found (snap_best idx raw seed).
Proof.
  destruct buildIndex_finite as (Hex & _ & _ & He & Hal & Hin & _).
  unfold snap_best. rewrite Hex, Hal. pose proof all_edges as Hall. pose proof (proj1 (Nat.eqb_neq _ _) Hedges) as Hsome.
  set (b1 := evaluate_all idx raw (positions false (edge_caps g)) no_match).
  assert (found b1 \/ b1 = no_match /\ positions false (edge_caps g) = []) as Hb1.
  { destruct (positions false (edge_caps g)) as [|e l] eqn:E; [by right|]. left.
    apply evaluate_all_found; [|by right]. intros x Hx. apply Hall. by left. }
  assert (found (seeded idx raw seed b1) \/ seeded idx raw seed b1 = no_match /\ positions false (edge_caps g) = []) as Hb2.
  { unfold seeded. destruct seed as [z|]; [|exact Hb1]. destruct (indexed idx); [exact Hb1|].
    case_match; [|exact Hb1]. left. apply evaluate_found; [lia|]. tauto. }
  destruct (root idx) as [n|] eqn:Er; cbv zeta.
  - pose proof (root_edges n Er) as Hn.
    assert (found (visit idx raw (unitVector raw) n (seeded idx raw seed b1))) as Hv.
    { apply visit_found; [intros x Hx; apply Hall; right; by rewrite <- Hn|].
      destruct Hb2 as [Hb2|[Hb2 Hnone]]; [by left|right]. split; [exact Hb2|]. rewrite Hn. intros Hempty.
      assert (0 < edges idx)%nat as [Hzero|Hzero]%Hall by lia; rewrite ?Hempty, ?Hnone in Hzero; by apply elem_of_nil in Hzero. }
    case_match eqn:E; [|exact Hv]. destruct Hb2 as [Hb2|[Hb2 _]]; [exact Hb2|].
    rewrite Hb2 in E. cbn [bestDist no_match] in E. by rewrite nothing_beyond in E.
  - destruct Hb2 as [Hb2|[_ Hnone]]; [exact Hb2|]. exfalso. pose proof (no_root Er) as Hempty.
    assert (0 < edges idx)%nat as [Hzero|Hzero]%Hall by lia; rewrite ?Hempty, ?Hnone in Hzero; by apply elem_of_nil in Hzero.
Qed.
End geometry.
End index.

(** ** The matcher's properties *)

(** Turf takes the position for a point. *)
Definition on_earth `{Turf} (p : LngLat) : Prop := point p = Ok tt.

(** A position of finite numbers, as a route or a leg is written. *)
Definition json_finite_point (j : json) : bool :=
  match json_point j with Some p => finite_point p | None => false end.

Lemma positions_of_finite `{TurfLaws} l : forallb json_finite_point l = true ->
  exists points, positions_of l = Ok points /\ length points = length l /\ Forall on_earth points.
Proof.
  intros Hl. enough (exists points, mapM json_point l = Some points /\ length points = length l /\ Forall on_earth points)
    as (points & Hp & Hall).
  { exists points. unfold positions_of. by rewrite Hp. }
  induction l as [|j l IH]; [by exists []|]. cbn [forallb] in Hl. apply andb_true_iff in Hl as [Hj Hl].
  destruct (IH Hl) as (points & Hp & Hlen & Hall). unfold json_finite_point in Hj.
  destruct (json_point j) as [p|] eqn:Ej; [|discriminate]. exists (p :: points). cbn [mapM]. rewrite Ej, Hp.
  split; [done|]. split; [cbn [length]; by rewrite Hlen|]. constructor; [|exact Hall].
  unfold finite_point in Hj. apply andb_true_iff in Hj as [Hx Hy]. by apply point_finite.
Qed.

Section properties.
Context `{MathFunctions} `{TurfLaws}.

Lemma buildIndex_edges g : edges (buildIndex g) = (length g - 1)%nat.
Proof. unfold buildIndex. by destruct (negb _ || _). Qed.

(** A fix that is a point is matched with any line. *)
Lemma snap_of_line g raw seed : (2 <= length g)%nat ->
  snapPreparedRoute (buildIndex g) raw seed = (_ ← point raw; Ok (best_result (snap_best (buildIndex g) raw seed))).
Proof.
  intros Hlen. unfold snapPreparedRoute. rewrite buildIndex_edges.
  by assert ((length g - 1 =? 0)%nat = false) as -> by (apply Nat.eqb_neq; lia).
Qed.

(** That no cap lies can be computed. *)
Lemma no_cap_lies idx raw : existsb (lies idx raw) (index_claims idx) = false <->
  ~ exists e c, (e, c) ∈ index_claims idx /\ overstates (capLowerBound (unitVector raw) c) (edge_dist idx raw e) = true.
Proof.
  split.
  - intros Hno (e & c & Hin & Hlie). rewrite (proj2 (existsb_exists _ _)) in Hno; [discriminate Hno|].
    exists (e, c). split; [by apply list_elem_of_In|exact Hlie].
  - intros Hno. apply not_true_is_false. intros ([e c] & Hin & Hlie)%existsb_exists. apply Hno. exists e, c.
    split; [by apply list_elem_of_In|exact Hlie].
Qed.

(** Without a finite geometry there is no index to search. *)
Lemma exhaustive_search g raw seed : forallb finite_point g = false ->
  snap_best (buildIndex g) raw seed = scan (buildIndex g) raw.
Proof. intros Hf. unfold snap_best, buildIndex. by rewrite Hf. Qed.

End properties.

(** The tree [buildIndex] grows fits the arrays it reserves: there are never
    more nodes than [capacity], so no write falls off the end of a typed array; the
    recursion stops by itself, with at most [LEAF_EDGES] edges in a leaf; and its
    leaves hold exactly the indexed edges, in order. *)
Theorem index_fits_its_arrays `{MathFunctions} `{Turf} g :
  match root (buildIndex g) with
  | Some n => (node_count n <= capacity (length (indexed (buildIndex g))))%nat /\
              leaves_small n = true /\ node_edges n = indexed (buildIndex g)
  | None => indexed (buildIndex g) = []
  end.
Proof.
  unfold buildIndex. destruct (negb _ || _); [done|]. cbn [root indexed].
  set (es := positions true (edge_caps g)).
  assert ((node_count (build (edge_caps g) (length es) es 0 (length es)) <= capacity (length es))%nat /\
          leaves_small (build (edge_caps g) (length es) es 0 (length es)) = true /\
          node_edges (build (edge_caps g) (length es) es 0 (length es)) = es) as Hall.
  { split_and!; [apply build_fits|apply build_leaves_small; lia|].
    rewrite build_edges by lia. by rewrite Nat.sub_0_r, drop_0, firstn_all. }
  destruct es; [done|exact Hall].
Qed.

(** ** Witnesses *)

Lemma numbers_only_finite p : num_is_finite p.1 = true -> num_is_finite p.2 = true -> numbers_only p = Ok tt.
Proof. destruct p as [[| | |x] [| | |y]]; done. Qed.

Lemma representable_abs q : representable q -> representable (q_abs q).
Proof.
  intros Hq. rewrite q_abs_spec. destruct (Qlt_le_dec q 0).
  - rewrite Qabs_neg by lra. by apply representable_opp.
  - by rewrite Qabs_pos.
Qed.

#[export] Instance sample_turf_laws : @TurfLaws sample_turf.
Proof.
  split; [|apply numbers_only_finite]. intros a b p. cbn [nearestPointOnSegment sample_turf hit_dist]. cbv zeta.
  assert (is_double (p.1 - a.1)%num) as Hd
    by (unfold num_sub, num_add; repeat case_match; try done; apply round_is_double).
  destruct (p.1 - a.1)%num as [| | |x]; [by left|by right; left|by right; left|].
  right. right. exists (q_abs x). split_and!; [done|by apply representable_abs|].
  rewrite q_abs_spec. apply Qabs_nonneg.
Qed.

Lemma flat_sqrt_cases x : flat_sqrt x = NaN \/ num_le (Fin 0) (flat_sqrt x) = true.
Proof.
  destruct x as [| | |q]; cbn [flat_sqrt]; [by left|by right|by left|right].
  destruct (Qle_bool q 0); [by apply num_le_Fin|]. apply round_ge; [exact representable_0|].
  pose proof (Z.sqrt_nonneg (Qfloor (q * inject_Z (2 ^ 140)))). unfold Qle. cbn [Qnum Qden]. lia.
Qed.

#[export] Instance flat_turf_laws : @TurfLaws flat_turf.
Proof.
  split; [|apply numbers_only_finite]. intros a b p d.
  assert (exists x, d = (Fin (12742000 # 1) * flat_sqrt x)%num) as [x Hd] by (eexists; reflexivity).
  clearbody d. subst d. destruct (flat_sqrt_cases x) as [->|Hx]; [by left|].
  pose proof (mul_ge_0 (12742000 # 1) (flat_sqrt x) ltac:(done) Hx) as Hge.
  assert (is_double (Fin (12742000 # 1) * flat_sqrt x)%num) as Hdouble.
  { destruct (flat_sqrt x); cbn [num_mul]; try exact I. apply round_is_double. }
  destruct (Fin (12742000 # 1) * flat_sqrt x)%num as [| | |y]; [by left|by right; left|discriminate Hge|].
  right. right. exists y. split_and!; [done|exact Hdouble|by apply num_le_Fin].
Qed.

(** A road of twelve edges that climbs to the north-east, in the flat world. *)
Definition climbing_road : list LngLat :=
  map (fun i => (literal (Z.of_nat i) 500, literal (Z.of_nat (i * i)) 10000)) (seq 0 13).

Definition climbing_fix : LngLat := (literal 204 10000, literal 103 10000).

