(* ===== verification/Waypoints.v ===== *)
(** * Waypoints along a route

    packages/core/src/navigation: waypointOccurrences.ts places the stops of an
    itinerary on its line in order, reroute.ts drops the ones that are passed, and
    routeStopDetours.ts finds where a new one goes. *)

From S2P Require Import Prelude Doubles Protocol Geodesy RouteMatcher RouteMatcherFacts.

#[local] Open Scope num_scope.

Section waypoints.
Context `{MathFunctions} `{Turf}.

(** [projectWaypointAfter]: onto the part of the line still ahead. *)
Definition projectWaypointAfter (matcher : MatcherIndex) (target : LngLat)
    (fromAlongMeters : number) : outcome SnapResult :=
  if fromAlongMeters <=? 0 then snapPreparedRoute matcher target None
  else
    let geometry := coords matcher in
    let cumulative := cumulativeDistances geometry in
    let total := default 0 (last cumulative) in
    let from := num_min fromAlongMeters total in
    let start := (positionAt geometry cumulative from).1 in
    let ahead := List.filter (fun vc => vc.2 >? from) (zip geometry cumulative) in
    let suffix := start :: map fst ahead in
    if (length suffix <? 2)%nat
    then Ok {| snap_snapped := start; snap_alongMeters := total;
               snap_deviationMeters := haversineDistance start target;
               snap_segmentIndex := Z.max 0 (Z.of_nat (length geometry) - 2) |}
    else
      projected ← snapPreparedRoute (buildIndex suffix) target None;
      Ok {| snap_snapped := snap_snapped projected;
            snap_alongMeters := from + snap_alongMeters projected;
            snap_deviationMeters := snap_deviationMeters projected;
            snap_segmentIndex := snap_segmentIndex projected |}.

Record WaypointOccurrence := {
  wp_coordinates : LngLat;
  wp_alongMeters : number;
  wp_final : bool;
}.

Fixpoint resolve_from (matcher : MatcherIndex) (total cursor : number) (stops : list LngLat)
    : outcome (list WaypointOccurrence) :=
  match stops with
  | [] => Ok []
  | [c] => Ok [{| wp_coordinates := c; wp_alongMeters := total; wp_final := true |}]
  | c :: r =>
      snapped ← projectWaypointAfter matcher c cursor;
      let cursor := snap_alongMeters snapped in
      rest ← resolve_from matcher total cursor r;
      Ok ({| wp_coordinates := c; wp_alongMeters := cursor; wp_final := false |} :: rest)
  end.

(** [resolveWaypointOccurrences]: in itinerary order, the destination at the end. *)
Definition resolveWaypointOccurrences (matcher : MatcherIndex) (waypoints : list LngLat)
    (fromAlongMeters : number) : outcome (list WaypointOccurrence) :=
  let total := default 0 (last (cumulativeDistances (coords matcher))) in
  resolve_from matcher total fromAlongMeters (drop 1 waypoints).

(** The occurrences that are still ahead; the destination always is. *)
Definition still_ahead (alongMeters : number) (l : list WaypointOccurrence) : list LngLat :=
  map wp_coordinates (List.filter (fun w => wp_final w || (wp_alongMeters w >? alongMeters)) l).

(** [remainingWaypoints] *)
Definition remainingWaypoints (matcher : MatcherIndex) (destinationWaypoints : list LngLat)
    (from : LngLat) (alongMeters : number) : outcome (list LngLat) :=
  if (length destinationWaypoints <=? 2)%nat then Ok (from :: drop 1 destinationWaypoints)
  else
    occurrences ← resolveWaypointOccurrences matcher destinationWaypoints 0;
    Ok (from :: still_ahead alongMeters occurrences).

Definition remainingRouteStopWaypoints (positions : list WaypointOccurrence) (from : LngLat)
    (alongMeters : number) : list LngLat :=
  from :: still_ahead alongMeters positions.

(** The first intermediate stop beyond [along], else the place before the last. *)
Fixpoint insert_before (along : number) (i last_ : nat) (positions : list WaypointOccurrence) : nat :=
  match positions with
  | [] => last_
  | p :: r => if (last_ <=? i)%nat then last_
              else if wp_alongMeters p >? along then i else insert_before along (S i) last_ r
  end.

(** [routeStopInsertIndex]: no index without an itinerary to insert into. *)
Definition routeStopInsertIndex (matcher : MatcherIndex) (remaining : list LngLat)
    (target : LngLat) (fromAlongMeters : number) : outcome (option nat) :=
  if (length remaining <? 2)%nat then Ok None
  else if (length remaining =? 2)%nat then Ok (Some 1%nat)
  else
    projected ← projectWaypointAfter matcher target fromAlongMeters;
    positions ← resolveWaypointOccurrences matcher remaining fromAlongMeters;
    Ok (Some (insert_before (snap_alongMeters projected) 1 (length remaining - 1) positions)).

(** [insertRouteStop] *)
Definition insertRouteStop (matcher : MatcherIndex) (remaining : list LngLat) (target : LngLat)
    (fromAlongMeters : number) : outcome (list LngLat) :=
  index ← routeStopInsertIndex matcher remaining target fromAlongMeters;
  Ok (match index with
      | None => []
      | Some i => take i remaining ++ target :: drop i remaining
      end).
End waypoints.

(** ** Facts *)

Section facts.
Context `{MathFunctions} `{Turf}.

Lemma insert_before_range along i last_ positions : (i <= last_)%nat ->
  (i <= insert_before along i last_ positions <= last_)%nat.
Proof.
  revert i. induction positions as [|p r IH]; intros i Hi; cbn [insert_before]; [lia|].
  case_match eqn:E; [lia|]. apply Nat.leb_gt in E. case_match; [lia|]. specialize (IH (S i) ltac:(lia)). lia.
Qed.

(** A position is matched wherever there is a line to match it with. *)
Lemma snap_answers g target : point target = Ok tt -> (2 <= length g)%nat ->
  exists s, snapPreparedRoute (buildIndex g) target None = Ok s.
Proof. intros Ht Hg. rewrite snap_of_line, Ht by exact Hg. by eexists. Qed.

(** So does the projection onto the part ahead. *)
Lemma project_after_answers g target from : point target = Ok tt -> (2 <= length g)%nat ->
  exists s, projectWaypointAfter (buildIndex g) target from = Ok s.
Proof.
  intros Ht Hg. unfold projectWaypointAfter. destruct (num_le from _); [by apply snap_answers|].
  cbv zeta. set (suffix := _ :: map fst _). destruct (length suffix <? 2)%nat eqn:E; [by eexists|].
  apply Nat.ltb_ge in E. destruct (snap_answers suffix target Ht E) as [s ->]. by eexists.
Qed.

Lemma resolve_answers g total cursor stops : Forall (fun c => point c = Ok tt) stops -> (2 <= length g)%nat ->
  exists l, resolve_from (buildIndex g) total cursor stops = Ok l /\
    map wp_coordinates l = stops /\ (stops <> [] -> exists l' w, l = l' ++ [w] /\ wp_final w = true).
Proof.
  intros Hs Hg. revert cursor. induction Hs as [|c [|c' r] Hc Hr IH]; intros cursor.
  - by exists [].
  - eexists. split; [reflexivity|]. split; [done|]. intros _. by eexists [], _.
  - cbn [resolve_from]. destruct (project_after_answers g c cursor Hc Hg) as [s ->]. cbn [mbind outcome_bind].
    destruct (IH (snap_alongMeters s)) as (l & Hl & Hcs & Hf). cbn [resolve_from] in Hl. cbn [resolve_from]. rewrite Hl.
    eexists. split; [reflexivity|]. cbn [map wp_coordinates]. split; [by rewrite Hcs|]. intros _.
    destruct Hf as (l' & w & -> & Hw); [done|]. eexists (_ :: l'), w. split; [reflexivity|done].
Qed.

(** The stops that are left are the itinerary's own, in its order, and end where it
    ends; and a new stop goes between the position and the destination. *)
Lemma remaining_stays_in_order g waypoints from along :
  Forall (fun c => point c = Ok tt) waypoints -> (2 <= length g)%nat -> (2 <= length waypoints)%nat ->
  exists l, remainingWaypoints (buildIndex g) waypoints from along = Ok (from :: l) /\
    l `sublist_of` drop 1 waypoints /\ last l = last waypoints.
Proof.
  intros Hpoints Hg Hw. unfold remainingWaypoints.
  assert (last (drop 1 waypoints) = last waypoints) as Hlast.
  { destruct waypoints as [|a [|b r]]; [simpl in Hw; lia|simpl in Hw; lia|done]. }
  destruct (length waypoints <=? 2)%nat; [by exists (drop 1 waypoints)|].
  destruct (resolve_answers g (default 0 (last (cumulativeDistances (coords (buildIndex g))))) 0
              (drop 1 waypoints) (Forall_drop _ 1 _ Hpoints) Hg) as (l & Hl & Hc & Hf).
  unfold resolveWaypointOccurrences. rewrite Hl. cbn [mbind outcome_bind].
  exists (still_ahead along l). split; [done|]. unfold still_ahead. split.
  - rewrite <- Hc. clear. induction l as [|w l IH]; [done|]. cbn [List.filter map].
    case_match; [by apply sublist_skip|by apply sublist_cons].
  - rewrite <- Hlast, <- Hc.
    destruct Hf as (l' & w & -> & Hfin); [by destruct waypoints as [|a [|b r]]; simpl in Hw; try lia|].
    rewrite List.filter_app. cbn [List.filter]. rewrite Hfin. cbn [orb]. rewrite !map_app. cbn [map]. by rewrite !last_snoc.
Qed.
End facts.
