(* ===== verification/Maneuver.v ===== *)
(** * Where the manoeuvres are

    packages/core/src/navigation: maneuverPosition.ts places the start of every
    step on the route's geometry, stepGate.ts decides which step is shown, and
    progress.ts what is left of the route.  A step is the decoded record the wire
    lets through; an absent number reads as [NaN], which is what arithmetic makes
    of [undefined]. *)

From S2P Require Import Prelude Doubles Protocol Geodesy RouteMatcher.

#[local] Open Scope num_scope.

(** ** Steps *)

Definition json_number (j : option json) : number :=
  match j with Some (JNum n) => n | _ => NaN end.

Definition step_distance (step : json) : number := json_number (json_field "distance" step).
Definition step_duration (step : json) : number := json_number (json_field "duration" step).

(** [step.coordinates ?? []]: the schema of a step lets any value through here. *)
Definition step_coordinates `{Turf} (step : json) : outcome (list LngLat) :=
  match json_field "coordinates" step with
  | None | Some JNull => Ok []
  | Some (JArr l) => positions_of l
  | Some j => loose_positions j
  end.

(** ** Bisection *)

(** [while (lo < hi) { mid = (lo + hi) >>> 1; if (below(mid)) lo = mid + 1; else hi = mid }] *)
Fixpoint first_not (below : nat -> bool) (fuel lo hi : nat) : nat :=
  match fuel with
  | O => lo
  | S fuel =>
      if (lo <? hi)%nat
      then let mid := ((lo + hi) / 2)%nat in
           if below mid then first_not below fuel (S mid) hi else first_not below fuel lo mid
      else lo
  end.

(** The same from above: the last index whose test holds, or [lo]. *)
Fixpoint last_such (test : nat -> bool) (fuel lo hi : nat) : nat :=
  match fuel with
  | O => lo
  | S fuel =>
      if (lo <? hi)%nat
      then let mid := ((lo + hi + 1) / 2)%nat in
           if test mid then last_such test fuel mid hi else last_such test fuel lo (mid - 1)
      else lo
  end.

(** ** Coordinate groups *)

(** [coordinateKey(a) === coordinateKey(b)]: the texts of two numbers are equal
    when the numbers are, or when both are [NaN]. *)
Definition same_number (x y : number) : bool :=
  match x, y with NaN, NaN => true | _, _ => x =? y end.

Definition same_key (p q : LngLat) : bool := same_number p.1 q.1 && same_number p.2 q.2.

(** The groups of one step: a coordinate joins the last group or opens the next. *)
Fixpoint group_step (groups : list LngLat) (coordinates : list LngLat) : list LngLat * list nat :=
  match coordinates with
  | [] => (groups, [])
  | c :: r =>
      let groups := if match last groups with Some k => same_key k c | None => false end
                    then groups else groups ++ [c] in
      let '(groups', ids) := group_step groups r in
      (groups', (length groups - 1)%nat :: ids)
  end.

Fixpoint group_steps (groups : list LngLat) (steps : list (list LngLat))
    : list LngLat * list (list nat) :=
  match steps with
  | [] => (groups, [])
  | s :: r =>
      let '(groups, ids) := group_step groups s in
      let '(groups, rest) := group_steps groups r in
      (groups, ids :: rest)
  end.

Definition indices_of (key : LngLat) (points : list LngLat) : list nat :=
  List.filter (fun i => match points !! i with Some p => same_key p key | None => false end)
    (seq 0 (length points)).

Section positions.
Context `{MathFunctions} `{Turf}.

Section geometry.
Variable geometry : list LngLat.
Variable cum : list number.
Variable keys : list LngLat.

Definition cum_at (i : nat) : number := default NaN (cum !! i).

(** Vertices of the geometry that carry a step coordinate, in route order. *)
Record AnchorScan := {
  as_anchors : list (option nat);
  as_previousGroup : Z;
  as_previousDistance : number;
}.

Definition anchor_vertex (s : AnchorScan) (i : nat) : AnchorScan :=
  match geometry !! i with
  | None => s
  | Some p =>
      match indices_of p keys with
      | [] => s
      | indices =>
          let minimum := if cum_at i =? as_previousDistance s
                         then as_previousGroup s else (as_previousGroup s + 1)%Z in
          let lo := first_not (fun k => match indices !! k with
                                        | Some g => (Z.of_nat g <? minimum)%Z | None => false end)
                      (length indices) 0 (length indices) in
          match indices !! lo with
          | None => s
          | Some group =>
              {| as_anchors := <[group := Some i]> (as_anchors s);
                 as_previousGroup := Z.of_nat group; as_previousDistance := cum_at i |}
          end
      end
  end.

Definition anchors : list (option nat) :=
  as_anchors (foldl anchor_vertex
    {| as_anchors := replicate (length keys) None; as_previousGroup := -1;
       as_previousDistance := -1 |}
    (seq 0 (length geometry))).

(** [nextAnchor[i]]: the anchor of the next group that has one, or the last vertex. *)
Fixpoint next_anchors (anchors : list (option nat)) : list nat * nat :=
  match anchors with
  | [] => ([], (length geometry - 1)%nat)
  | a :: r => let '(rest, next) := next_anchors r in
              (next :: rest, match a with Some v => v | None => next end)
  end.

(** A candidate of [nearestVertex], against the closest vertex so far. *)
Definition consider (confirmedAlongMeters hint : number) (best : option nat * number)
    (candidate : option nat) : option nat * number :=
  match candidate with
  | None => best
  | Some v =>
      if cum_at v <? confirmedAlongMeters - literal 1 1000000 then best
      else let difference := num_abs (cum_at v - hint) in
           if difference <? best.2 then (Some v, difference) else best
  end.

(** [nearestVertex]: of the vertices of a group, the closer to a hint of the two
    around it, none before what is confirmed. *)
Definition nearestVertex (confirmedAlongMeters : number) (group : nat) (hint : number) : option nat :=
  match keys !! group with
  | None => None
  | Some key =>
      let indices := indices_of key geometry in
      let lo := first_not (fun k => match indices !! k with
                                    | Some v => cum_at v <? hint | None => false end)
                  (length indices) 0 (length indices) in
      let before := match lo with O => None | S k => indices !! k end in
      (consider confirmedAlongMeters hint
         (consider confirmedAlongMeters hint (None, PosInf) before) (indices !! lo)).1
  end.

Definition slice (from to : nat) : list LngLat := take (to - from) (drop from geometry).

(** What the walk along the steps carries. *)
Record Walk := {
  w_projections : list (nat * (nat * MatcherIndex));
  w_geometryIndex : nat;
  w_matched : number;
  w_confirmed : number;
  w_confirmedIndex : nat;
  w_missingShape : bool;
  w_hasShapeEnd : bool;
  w_anchors : list (option nat);
}.

Definition total_length : number := default NaN (last cum).

Fixpoint advance_index (fuel i : nat) (matched : number) : nat :=
  match fuel with
  | O => i
  | S fuel =>
      if (i <? length geometry - 1)%nat && (cum_at (S i) <=? matched)
      then advance_index fuel (S i) matched else i
  end.

Definition advance (along : number) (w : Walk) : Walk :=
  let matched := num_max (w_matched w) (num_min along total_length) in
  {| w_projections := w_projections w;
     w_geometryIndex := advance_index (length geometry) (w_geometryIndex w) matched;
     w_matched := matched; w_confirmed := w_confirmed w; w_confirmedIndex := w_confirmedIndex w;
     w_missingShape := w_missingShape w; w_hasShapeEnd := w_hasShapeEnd w;
     w_anchors := w_anchors w |}.

Definition confirm (w : Walk) : Walk :=
  {| w_projections := w_projections w; w_geometryIndex := w_geometryIndex w;
     w_matched := w_matched w; w_confirmed := w_matched w; w_confirmedIndex := w_geometryIndex w;
     w_missingShape := w_missingShape w; w_hasShapeEnd := w_hasShapeEnd w;
     w_anchors := w_anchors w |}.

Definition set_shape (missing shapeEnd : bool) (w : Walk) : Walk :=
  {| w_projections := w_projections w; w_geometryIndex := w_geometryIndex w;
     w_matched := w_matched w; w_confirmed := w_confirmed w; w_confirmedIndex := w_confirmedIndex w;
     w_missingShape := missing; w_hasShapeEnd := shapeEnd; w_anchors := w_anchors w |}.

Definition remember_projection (end_ : nat) (p : nat * MatcherIndex) (w : Walk) : Walk :=
  {| w_projections := (end_, p) :: w_projections w; w_geometryIndex := w_geometryIndex w;
     w_matched := w_matched w; w_confirmed := w_confirmed w; w_confirmedIndex := w_confirmedIndex w;
     w_missingShape := w_missingShape w; w_hasShapeEnd := w_hasShapeEnd w;
     w_anchors := w_anchors w |}.

(** Progress inferred over steps without a shape is forgotten when one resumes. *)
Definition resume_shape (anchors : list (option nat)) (w : Walk) : Walk :=
  {| w_projections := w_projections w; w_geometryIndex := w_confirmedIndex w;
     w_matched := w_confirmed w; w_confirmed := w_confirmed w; w_confirmedIndex := w_confirmedIndex w;
     w_missingShape := false; w_hasShapeEnd := w_hasShapeEnd w; w_anchors := anchors |}.

(** The search for a following coordinate that lies on the geometry. *)
Fixpoint recover (shapeDistances : list number) (w : Walk) (group : nat) (hint : number)
    (following : list nat) : option (nat * nat * number) :=
  match following with
  | [] => None
  | f :: r =>
      let prefix := default NaN (shapeDistances !! f) - default NaN (shapeDistances !! group) in
      match nearestVertex (w_confirmed w) f (hint + prefix) with
      | None => recover shapeDistances w group hint r
      | Some anchor => Some (f, anchor, num_max (w_confirmed w) (cum_at anchor - prefix))
      end
  end.

Definition projection_for (end_ : nat) (w : Walk) : (nat * MatcherIndex) * Walk :=
  match List.find (fun e => (e.1 =? end_)%nat) (w_projections w) with
  | Some (_, p) => (p, w)
  | None =>
      let p := (w_geometryIndex w, buildIndex (slice (w_geometryIndex w) (S end_))) in
      (p, remember_projection end_ p w)
  end.

(** The offset of a coordinate projected between the walk's position and [end_]. *)
Definition project (coordinate : LngLat) (end_ : nat) (recoveryHint : option number) : M Walk number :=
  w ← get;
  let '((start, prepared), w1) := projection_for end_ w in
  _ ← modify (fun _ => w1);
  first ← from_outcome (snapPreparedRoute prepared coordinate
                          (Some (Z.of_nat (w_geometryIndex w) - Z.of_nat start)%Z));
  '(start, snapped) ←
    (if (Z.of_nat start + snap_segmentIndex first <? Z.of_nat (w_geometryIndex w))%Z
     then let prepared := buildIndex (slice (w_geometryIndex w) (S end_)) in
          _ ← modify (remember_projection end_ (w_geometryIndex w, prepared));
          again ← from_outcome (snapPreparedRoute prepared coordinate None);
          mret (w_geometryIndex w, again)
     else mret (start, first));
  let segment := (Z.of_nat start + snap_segmentIndex snapped)%Z in
  '(segment, snapped) ←
    match recoveryHint with
    | None => mret (segment, snapped)
    | Some hint =>
        let lo := last_such (fun i => cum_at i <=? hint) (length geometry)
                    (w_geometryIndex w) (end_ - 1)%nat in
        preferred ← from_outcome (snapPreparedRoute (buildIndex (slice lo (lo + 2)))
                                    coordinate None);
        mret (if snap_deviationMeters preferred <=?
                 snap_deviationMeters snapped + literal 1 1000000
              then ((Z.of_nat lo + snap_segmentIndex preferred)%Z, preferred)
              else (segment, snapped))
    end;
  mret (if bool_decide (segment = Z.of_nat end_) then cum_at end_
        else if (segment <? 0)%Z then NaN
        else let s := Z.to_nat segment in
             let length := cum_at (S s) - cum_at s in
             let fraction :=
               if length >? 0
               then haversineDistance (default nowhere (geometry !! s)) (snap_snapped snapped) / length
               else 0 in
             cum_at s + num_min fraction 1 * length).

(** One coordinate of a step; [nextAnchor] is the table of the first scan. *)
Variable nextAnchor : list nat.

Definition walk_coordinate (coordinate : LngLat) (group : nat) : M Walk unit :=
  w ← get;
  let vertex := if w_missingShape w then None else mjoin (w_anchors w !! group) in
  let recovered := if w_missingShape w
                   then recover (cumulativeDistances keys) w group (w_matched w)
                          (seq (S group) (length keys - S group))
                   else None in
  let recoveryHint := if w_missingShape w
                      then Some (match recovered with Some (_, _, h) => h | None => w_matched w end)
                      else None in
  let recoveryEnd := match recovered with Some (_, anchor, _) => Some anchor | None => None end in
  _ ← modify (fun w =>
        if w_missingShape w
        then resume_shape (match recovered with
                           | Some (f, anchor, _) => <[f := Some anchor]> (w_anchors w)
                           | None => w_anchors w
                           end) w
        else w);
  w ← get;
  let upcoming := match recoveryEnd with
                  | Some e => e
                  | None => default 0%nat (nextAnchor !! group)
                  end in
  let end_ :=
    if (match recoveryHint, recoveryEnd with Some _, None => true | _, _ => false end)
       || (cum_at upcoming <? w_matched w - literal 1 1000000)
    then (length geometry - 1)%nat
    else Nat.max (w_geometryIndex w) upcoming in
  offset ←
    match vertex with
    | Some v =>
        if cum_at v >=? w_matched w - literal 1 1000000 then mret (cum_at v)
        else if (w_geometryIndex w <? end_)%nat then project coordinate end_ recoveryHint
        else mret (w_matched w)
    | None =>
        if (w_geometryIndex w <? end_)%nat then project coordinate end_ recoveryHint
        else mret (w_matched w)
    end;
  modify (fun w => confirm (advance offset w)).

(** The start of one step, where it has a boundary of its own. *)
Fixpoint walk_coordinates (l : list (LngLat * nat)) : M Walk unit :=
  match l with
  | [] => mret tt
  | (c, group) :: r => _ ← walk_coordinate c group; walk_coordinates r
  end.

Definition walk_step (stepIndex : nat) (step : json) (shape : list (LngLat * nat))
    : M Walk (option number) :=
  match shape with
  | [] =>
      w ← get;
      let start := if (stepIndex =? 0)%nat then Some (0 : number)
                   else if negb (w_missingShape w) && w_hasShapeEnd w then Some (w_confirmed w)
                   else None in
      _ ← modify (fun w => advance (w_matched w + step_distance step)
                             (set_shape true (w_hasShapeEnd w) w));
      mret start
  | first :: rest =>
      _ ← walk_coordinate first.1 first.2;
      w ← get;
      let along := w_matched w in
      _ ← walk_coordinates rest;
      _ ← modify (fun w => set_shape (w_missingShape w)
             (negb (length rest =? 0)%nat || (step_distance step =? 0)) w);
      mret (Some along)
  end.

Fixpoint walk_steps (stepIndex : nat) (steps : list (json * list (LngLat * nat)))
    : M Walk (list (option number)) :=
  match steps with
  | [] => mret []
  | (step, shape) :: r =>
      start ← walk_step stepIndex step shape;
      rest ← walk_steps (S stepIndex) r;
      mret (start :: rest)
  end.
End geometry.

(** *** Missing boundaries *)

(** [for (right = 1; right <= starts.length; ...)]: the boundaries between two known
    ones are placed in proportion to the engine's distances.  [pending] are the
    distances of the steps since the last known boundary [from], latest first. *)
Definition place_missing (from to : number) (pending : list number) : list number :=
  let distances := rev pending in
  let distance := foldl num_add 0 distances in
  snd (foldl (fun '(traveled, out) d =>
                let traveled := traveled + d in
                (traveled, out ++ [from + (to - from) * (if distance >? 0 then traveled / distance else 0)]))
         (0 : number, []) (take (length distances - 1) distances)).

Fixpoint fill_missing (total : number) (from : number) (pending : list number)
    (starts : list (option number)) (distances : list number) : list number :=
  match starts, distances with
  | Some to :: r, d :: ds => place_missing from to pending ++ to :: fill_missing total to [d] r ds
  | None :: r, d :: ds => fill_missing total from (d :: pending) r ds
  | _, _ => place_missing from total pending
  end.

Definition fill_boundaries (total : number) (starts : list (option number)) (distances : list number)
    : list number :=
  match starts, distances with
  | first :: r, d :: ds => let from := default NaN first in from :: fill_missing total from [d] r ds
  | _, _ => []
  end.

(** [shapes] are the steps' own coordinates. *)
Definition stepGeometryDistances (route : Route) (shapes : list (list LngLat)) (cum : list number)
    : outcome (list number) :=
  let geometry := route_geometry route in
  let '(keys, stepGroups) := group_steps [] shapes in
  let anchors := anchors geometry cum keys in
  let nextAnchor := (next_anchors geometry anchors).1 in
  let walk := {| w_projections := []; w_geometryIndex := 0; w_matched := 0; w_confirmed := 0;
                 w_confirmedIndex := 0; w_missingShape := false; w_hasShapeEnd := false;
                 w_anchors := anchors |} in
  match (walk_steps geometry cum keys nextAnchor 0 (zip (route_steps route) (zip_with zip shapes stepGroups)) walk).1 with
  | Throw e => Throw e
  | Ok starts => Ok (fill_boundaries (default NaN (last cum)) starts (map step_distance (route_steps route)))
  end.

(** ** [prepareManeuverPositions] *)

Inductive Metric := ByGeometry | EngineFallback.

Record ManeuverPositions := {
  mp_starts : list number;
  mp_ends : list number;
  mp_total : number;
  mp_metric : Metric;
}.

Fixpoint running_starts (engine : number) (distances : list number) : list number :=
  match distances with
  | [] => []
  | d :: r => engine :: running_starts (engine + d) r
  end.

(** [starts[i] = Math.max(i ? starts[i - 1] : 0, Math.min(total, starts[i]))] *)
Fixpoint clamp_starts (total previous : number) (starts : list number) : list number :=
  match starts with
  | [] => []
  | s :: r => let s := num_max previous (num_min total s) in s :: clamp_starts total s r
  end.

Definition ends_of (total : number) (starts : list number) : list number :=
  match starts with [] => [] | _ :: r => r ++ [total] end.

(** The shapes of the steps, where there is a line to place them on. *)
Definition step_shapes (route : Route) : outcome (list (list LngLat)) :=
  if (2 <=? length (route_geometry route))%nat then mapM step_coordinates (route_steps route) else Ok [].

Definition usable_geometry (shapes : list (list LngLat)) : bool :=
  existsb (fun s => negb (length s =? 0)%nat) shapes.

Definition prepareManeuverPositions (route : Route) : outcome ManeuverPositions :=
  shapes ← step_shapes route;
  let usable := usable_geometry shapes in
  let cum := if usable then cumulativeDistances (route_geometry route) else [] in
  let total := if usable then default NaN (last cum) else num_max 0 (route_distance route) in
  match (if usable then stepGeometryDistances route shapes cum
         else Ok (running_starts 0 (map step_distance (route_steps route)))) with
  | Throw e => Throw e
  | Ok starts =>
      let starts := clamp_starts total 0 starts in
      Ok {| mp_starts := starts; mp_ends := ends_of total starts; mp_total := total;
            mp_metric := if usable then ByGeometry else EngineFallback |}
  end.
End positions.
