(* ===== verification/ManeuverFacts.v ===== *)
(** * Manoeuvre positions exist and are in order

    The walk along the steps of [Maneuver] only ever projects onto stretches with an
    edge, so where the steps' shapes are positions Turf takes for points it answers;
    and whatever it finds, the positions handed out never go back. *)

From S2P Require Import Prelude Doubles Protocol Geodesy RouteMatcher SampleMath RouteMatcherFacts Maneuver.

(** ** Indices stay on the geometry *)

Lemma indices_of_bound key points i : i ∈ indices_of key points -> (i < length points)%nat.
Proof.
  unfold indices_of. intros Hi. apply list_elem_of_In, filter_In in Hi as [Hi _].
  apply in_seq in Hi. lia.
Qed.

Lemma indices_of_lookup key points k i : indices_of key points !! k = Some i -> (i < length points)%nat.
Proof. intros Hi. by apply (indices_of_bound key), (list_elem_of_lookup_2 _ k). Qed.

Lemma last_such_range test fuel lo hi : (lo <= hi)%nat ->
  (lo <= last_such test fuel lo hi <= hi)%nat.
Proof.
  revert lo hi. induction fuel as [|fuel IH]; intros lo hi Hle; cbn [last_such]; [lia|].
  destruct (lo <? hi)%nat eqn:E; [|lia]. apply Nat.ltb_lt in E.
  assert ((lo + hi + 1) / 2 <= hi /\ lo < (lo + hi + 1) / 2)%nat as [Hm1 Hm2].
  { pose proof (Nat.div_mod_eq (lo + hi + 1) 2). pose proof (Nat.mod_upper_bound (lo + hi + 1) 2). lia. }
  destruct (test _).
  - specialize (IH ((lo + hi + 1) / 2)%nat hi ltac:(lia)). lia.
  - specialize (IH lo ((lo + hi + 1) / 2 - 1)%nat ltac:(lia)). lia.
Qed.

(** The stretch of an index starting at [from] and ending with [to]. *)
Lemma slice_edges `{MathFunctions} `{Turf} geometry from to :
  (S from < to)%nat -> (to <= length geometry)%nat ->
  (edges (buildIndex (slice geometry from to)) =? 0)%nat = false.
Proof.
  intros H1' H2'. apply Nat.eqb_neq.
  assert (edges (buildIndex (slice geometry from to)) = (length (slice geometry from to) - 1)%nat) as ->.
  { unfold buildIndex. by destruct (negb _ || _). }
  unfold slice. rewrite length_take, length_drop. lia.
Qed.

Section walk.
Context `{MathFunctions} `{Turf}.
Variables (geometry : list LngLat) (cum : list number) (keys : list LngLat).
Hypothesis Hline : (2 <= length geometry)%nat.

Definition anchor_ok (a : option nat) : Prop := forall v, a = Some v -> (v < length geometry)%nat.

Lemma anchors_ok : Forall anchor_ok (anchors geometry cum keys).
Proof.
  unfold anchors.
  set (s0 := {| as_anchors := replicate (length keys) None; as_previousGroup := _; as_previousDistance := _ |}).
  assert (Forall anchor_ok (as_anchors s0)) as Hs0 by (apply Forall_replicate; intros v Hv; discriminate Hv).
  clearbody s0. generalize (seq 0 (length geometry)). intros l. revert s0 Hs0.
  induction l as [|i l IH]; intros s Hs; [exact Hs|]. cbn [foldl]. apply IH. unfold anchor_vertex.
  destruct (geometry !! i) as [p|] eqn:Ei; [|exact Hs]. destruct (indices_of p keys) as [|n ns]; [exact Hs|].
  cbv zeta. match goal with |- context [match (n :: ns) !! ?k with _ => _ end] => destruct ((n :: ns) !! k) end;
    [|exact Hs].
  cbn [as_anchors]. apply Forall_insert; [exact Hs|].
  intros v [= <-]. by apply lookup_lt_Some in Ei.
Qed.

Lemma next_anchors_ok l : Forall anchor_ok l ->
  Forall (fun v => (v < length geometry)%nat) (next_anchors geometry l).1 /\
  ((next_anchors geometry l).2 < length geometry)%nat.
Proof.
  induction l as [|a l IH]; intros Hl; cbn [next_anchors]; [cbn; split; [constructor|lia]|].
  apply Forall_cons in Hl as [Ha Hl]. destruct (IH Hl) as [Hrest Hnext].
  destruct (next_anchors geometry l) as [rest next]. cbn [fst snd] in *.
  split; [by constructor|]. destruct a as [v|]; [by apply Ha|exact Hnext].
Qed.

Lemma nearestVertex_ok confirmed group hint :
  anchor_ok (nearestVertex geometry cum keys confirmed group hint).
Proof.
  unfold nearestVertex. destruct (keys !! group) as [key|]; [|discriminate].
  assert (forall best candidate, anchor_ok best.1 -> anchor_ok candidate ->
            anchor_ok (consider cum confirmed hint best candidate).1) as Hconsider.
  { intros best [v|] Hb Hc; cbn [consider]; [|exact Hb]. cbv zeta. case_match; [exact Hb|].
    case_match; [|exact Hb]. intros u [= <-]. by apply Hc. }
  assert (forall k, anchor_ok (indices_of key geometry !! k)) as Hindex
    by (intros k v; apply indices_of_lookup).
  cbv zeta. apply Hconsider; [apply Hconsider; [discriminate|]|apply Hindex].
  case_match; [discriminate|apply Hindex].
Qed.

Lemma recover_ok shapes w group hint following f anchor h :
  recover geometry cum keys shapes w group hint following = Some (f, anchor, h) ->
  (anchor < length geometry)%nat.
Proof.
  induction following as [|g following IH]; cbn [recover]; [discriminate|].
  destruct (nearestVertex _ _ _ _ _ _) as [v|] eqn:E; [|exact IH].
  intros [= _ <- _]. by apply (nearestVertex_ok _ _ _ _ E).
Qed.

(** ** The walk answers *)

(** Every remembered projection has an edge to project on, every anchor is a vertex. *)
Definition walk_ok (w : Walk) : Prop :=
  Forall (fun e => (edges e.2.2 =? 0)%nat = false) (w_projections w) /\
  Forall anchor_ok (w_anchors w).

(** [m] resolves from [w], and to a walk that is in order. *)
Definition answers {A} (m : M Walk A) (w : Walk) : Prop :=
  exists a w', m w = (Ok a, w') /\ walk_ok w'.

Lemma answers_ret {A} (a : A) w : walk_ok w -> answers (mret a) w.
Proof. intros Hw. by exists a, w. Qed.

Lemma answers_modify f w : walk_ok (f w) -> answers (modify f) w.
Proof. intros Hw. by exists tt, (f w). Qed.

Lemma answers_bind {A B} (m : M Walk A) (f : A -> M Walk B) w :
  answers m w -> (forall a w', m w = (Ok a, w') -> walk_ok w' -> answers (f a) w') -> answers (m ≫= f) w.
Proof.
  intros (a & w' & Hm & Hw') Hf. destruct (Hf a w' Hm Hw') as (b & w'' & Hb & Hw'').
  exists b, w''. split; [|exact Hw'']. by rewrite (bind_ok _ _ _ _ _ Hm).
Qed.

Lemma answers_get {A} (f : Walk -> M Walk A) w : answers (f w) w -> answers (get ≫= f) w.
Proof. intros (a & w' & Hf & Hw'). by exists a, w'. Qed.

Lemma answers_modify_bind {A} g (f : unit -> M Walk A) w : answers (f tt) (g w) -> answers (modify g ≫= f) w.
Proof. intros (a & w' & Hf & Hw'). by exists a, w'. Qed.

Lemma answers_snap p c seed w : on_earth c -> walk_ok w -> (edges p =? 0)%nat = false ->
  answers (from_outcome (snapPreparedRoute p c seed)) w.
Proof.
  intros Hc Hw Hp. exists (best_result (snap_best p c seed)), w. split; [|exact Hw].
  unfold from_outcome, snapPreparedRoute. by rewrite Hp, Hc.
Qed.

Lemma remember_ok end_ p w : walk_ok w -> (edges p.2 =? 0)%nat = false -> walk_ok (remember_projection end_ p w).
Proof. intros [Hp Ha] He. split; [by constructor|exact Ha]. Qed.

Lemma project_answers c end_ hint w : on_earth c -> walk_ok w ->
  (w_geometryIndex w < end_)%nat -> (end_ < length geometry)%nat ->
  answers (project geometry cum c end_ hint) w.
Proof.
  intros Hc Hw Hgi Hend. unfold project. apply answers_get.
  pose proof (slice_edges geometry (w_geometryIndex w) (S end_) ltac:(lia) ltac:(lia)) as Hslice.
  assert (exists start prepared w1, projection_for geometry end_ w = ((start, prepared), w1) /\
            (edges prepared =? 0)%nat = false /\ walk_ok w1) as (start & prepared & w1 & -> & Hprep & Hw1).
  { unfold projection_for. destruct (List.find _ _) as [[e [start prepared]]|] eqn:Ef.
    - exists start, prepared, w. split_and!; [done| |done]. apply find_some in Ef as [Ef _].
      destruct Hw as [Hw _]. rewrite Forall_forall in Hw. by apply (Hw _ (proj2 (list_elem_of_In _ _) Ef)).
    - eexists _, _, _. split_and!; [reflexivity|exact Hslice|]. by apply remember_ok. }
  apply answers_modify_bind.
  apply answers_bind; [by apply answers_snap|]. intros first w2 Hfirst Hw2.
  apply answers_bind.
  { case_match; [|by apply answers_ret]. apply answers_modify_bind.
    apply answers_bind; [apply answers_snap; [exact Hc|by apply remember_ok|exact Hslice]|].
    intros again w3 _ Hw3. by apply answers_ret. }
  intros [start' snapped] w3 _ Hw3. apply answers_bind.
  { destruct hint as [h|]; [|by apply answers_ret].
    set (lo := last_such _ _ _ _).
    assert (w_geometryIndex w <= lo <= end_ - 1)%nat as Hlo by (apply last_such_range; lia).
    apply answers_bind; [apply answers_snap; [exact Hc|exact Hw3|apply slice_edges; lia]|].
    intros preferred w4 _ Hw4. by apply answers_ret. }
  intros [segment snapped'] w4 _ Hw4. by apply answers_ret.
Qed.
Variable nextAnchor : list nat.
Hypothesis Hnext : Forall (fun v => (v < length geometry)%nat) nextAnchor.

Lemma walk_coordinate_answers c group w : on_earth c -> walk_ok w ->
  answers (walk_coordinate geometry cum keys nextAnchor c group) w.
Proof.
  intros Hc Hw. unfold walk_coordinate. apply answers_get, answers_modify_bind, answers_get.
  set (recovered := if w_missingShape w then _ else None).
  assert (forall f anchor h, recovered = Some (f, anchor, h) -> (anchor < length geometry)%nat) as Hrec.
  { intros f anchor h. unfold recovered. case_match; [|discriminate]. apply recover_ok. }
  clearbody recovered. set (w1 := if w_missingShape w then resume_shape _ w else w).
  assert (walk_ok w1) as Hw1.
  { unfold w1. case_match; [|exact Hw]. destruct Hw as [Hp Ha]. split; [exact Hp|].
    cbn [resume_shape w_anchors]. destruct recovered as [[[f anchor] h]|]; [|exact Ha].
    apply Forall_insert; [exact Ha|]. intros v [= <-]. by eapply Hrec. }
  clearbody w1. set (upcoming := match _ with Some e => e | None => default 0%nat _ end).
  assert (upcoming < length geometry)%nat as Hup.
  { unfold upcoming. destruct recovered as [[[f anchor] h]|]; [by eapply Hrec|].
    destruct (nextAnchor !! group) as [v|] eqn:E; cbn [default]; [|unfold from_option; lia].
    exact (Forall_lookup_1 _ _ _ _ Hnext E). }
  set (hint := if w_missingShape w then _ else None).
  set (upcoming_end := if _ || _ then (length geometry - 1)%nat else _).
  assert (w_geometryIndex w1 < upcoming_end -> upcoming_end < length geometry)%nat as Hend
    by (unfold upcoming_end; case_match; lia).
  clearbody upcoming upcoming_end hint.
  assert (answers (if (w_geometryIndex w1 <? upcoming_end)%nat
                   then project geometry cum c upcoming_end hint else mret (w_matched w1)) w1) as Hproject.
  { destruct (_ <? _)%nat eqn:E; [|by apply answers_ret]. apply Nat.ltb_lt in E.
    apply project_answers; [exact Hc|exact Hw1|exact E|by apply Hend]. }
  apply answers_bind.
  - set (vertex := if w_missingShape w then None else _). destruct vertex as [v|]; [|exact Hproject].
    destruct (num_le _ (cum_at cum v)); [by apply answers_ret|exact Hproject].
  - intros offset w2 _ Hw2. apply answers_modify. exact Hw2.
Qed.

Lemma walk_coordinates_answers l w : Forall (fun c => on_earth c.1) l -> walk_ok w ->
  answers (walk_coordinates geometry cum keys nextAnchor l) w.
Proof.
  intros Hl. revert w. induction Hl as [|[c group] l Hc Hl IH]; intros w Hw; cbn [walk_coordinates]; [by apply answers_ret|].
  apply answers_bind; [by apply walk_coordinate_answers|]. intros _ w' _ Hw'. by apply IH.
Qed.

Lemma walk_step_answers i step shape w : Forall (fun c => on_earth c.1) shape -> walk_ok w ->
  answers (walk_step geometry cum keys nextAnchor i step shape) w.
Proof.
  intros Hs Hw. unfold walk_step. destruct Hs as [|first rest Hfirst Hrest].
  - apply answers_get, answers_modify_bind, answers_ret. exact Hw.
  - apply answers_bind; [by apply walk_coordinate_answers|]. intros _ w1 _ Hw1. apply answers_get.
    apply answers_bind; [by apply walk_coordinates_answers|]. intros _ w2 _ Hw2.
    apply answers_modify_bind, answers_ret. exact Hw2.
Qed.

Lemma walk_steps_answers l i w : Forall (fun s => Forall (fun c => on_earth c.1) s.2) l -> walk_ok w ->
  answers (walk_steps geometry cum keys nextAnchor i l) w.
Proof.
  intros Hl. revert i w. induction Hl as [|[step shape] l Hs Hl IH]; intros i w Hw; cbn [walk_steps]; [by apply answers_ret|].
  apply answers_bind; [by apply walk_step_answers|]. intros start w1 _ Hw1.
  apply answers_bind; [by apply IH|]. intros rest w2 _ Hw2. by apply answers_ret.
Qed.
End walk.

(** A step whose coordinates are positions of finite numbers, or absent. *)
Definition shaped_step (step : json) : bool :=
  match json_field "coordinates" step with
  | None | Some JNull => true
  | Some (JArr l) => forallb json_finite_point l
  | Some _ => false
  end.

Lemma step_shapes_finite `{MathFunctions} `{TurfLaws} route : forallb shaped_step (route_steps route) = true ->
  exists shapes, step_shapes route = Ok shapes /\ Forall (Forall on_earth) shapes.
Proof.
  intros Hs. unfold step_shapes. destruct (2 <=? _)%nat; [|by exists []].
  induction (route_steps route) as [|s l IH]; [by exists []|]. cbn [forallb] in Hs. apply andb_true_iff in Hs as [Hs Hl].
  destruct (IH Hl) as (shapes & Hshapes & Hall).
  assert (exists points, step_coordinates s = Ok points /\ Forall on_earth points) as (points & Hp & Hpoints).
  { unfold step_coordinates, shaped_step in *. destruct (json_field "coordinates" s) as [[| | | |c|]|]; try discriminate;
      try by exists []. destruct (positions_of_finite c Hs) as (points & Hp & _ & Hpoints). by exists points. }
  exists (points :: shapes). cbn [mapM]. rewrite Hp. cbn [mbind outcome_bind]. rewrite Hshapes. split; [done|by constructor].
Qed.

(** The walk meets the shapes' own positions. *)
Lemma zip_fst {A B} (P : A -> Prop) (l : list A) (k : list B) : Forall P l -> Forall (fun x => P x.1) (zip l k).
Proof. intros Hl. revert k. induction Hl as [|a l Ha Hl IH]; intros [|b k]; cbn [zip_with]; constructor; [done|apply IH]. Qed.

Lemma zip_snd {A B} (P : B -> Prop) (l : list A) (k : list B) : Forall P k -> Forall (fun x => P x.2) (zip l k).
Proof. intros Hk. revert l. induction Hk as [|b k Hb Hk IH]; intros [|a l]; cbn [zip_with]; constructor; [done|apply IH]. Qed.

Lemma zip_points `{Turf} shapes (groups : list (list nat)) : Forall (Forall on_earth) shapes ->
  Forall (Forall (fun c => on_earth c.1)) (zip_with zip shapes groups).
Proof.
  intros Hs. revert groups. induction Hs as [|s l Hs Hl IH]; intros [|g k]; cbn [zip_with]; constructor; [by apply zip_fst|apply IH].
Qed.

(** A route whose steps' coordinates are positions has manoeuvre positions: the walk
    never meets a stretch too short to project on. *)
Lemma prepareManeuverPositions_answers `{MathFunctions} `{TurfLaws} route :
  forallb shaped_step (route_steps route) = true -> exists p, prepareManeuverPositions route = Ok p.
Proof.
  intros Hsteps. unfold prepareManeuverPositions. destruct (step_shapes_finite route Hsteps) as (shapes & Hshapes & Hpoints).
  rewrite Hshapes. cbn [mbind outcome_bind]. destruct (usable_geometry shapes) eqn:Eu; [|by eexists].
  assert (2 <= length (route_geometry route))%nat as Hline.
  { unfold step_shapes in Hshapes. destruct (2 <=? _)%nat eqn:E; [by apply Nat.leb_le|]. injection Hshapes as <-. discriminate Eu. }
  unfold stepGeometryDistances. destruct (group_steps _ _) as [keys groups].
  set (g := route_geometry route) in *. set (cum := cumulativeDistances g).
  set (w := {| w_projections := []; w_geometryIndex := _; w_matched := _; w_confirmed := _;
               w_confirmedIndex := _; w_missingShape := _; w_hasShapeEnd := _; w_anchors := _ |}).
  pose proof (anchors_ok g cum keys) as Ha.
  destruct (next_anchors_ok g Hline _ Ha) as [Hn _].
  destruct (walk_steps_answers g cum keys Hline _ Hn (zip (route_steps route) (zip_with zip shapes groups)) 0 w)
    as (starts & w' & -> & _); [by apply zip_snd, zip_points|split; [constructor|exact Ha]|]. by eexists.
Qed.

(** ** The positions are in order *)

Lemma num_max_number x y : num_max x y <> NaN -> num_le x (num_max x y) = true.
Proof. intros Hn. apply num_max_ge_l; intros ->; apply Hn; [done|by destruct x]. Qed.

Lemma num_max_either x y : num_max x y <> NaN -> num_max x y = x \/ num_max x y = y.
Proof. unfold num_max. destruct x, y; try (by destruct 1); try case_match; auto. Qed.

Lemma num_min_le x y : num_min x y <> NaN -> num_le (num_min x y) x = true.
Proof.
  intros Hn. unfold num_min in *. destruct (num_lt y x) eqn:E.
  - destruct x, y; try done; by apply num_lt_le.
  - destruct x, y; try done; by apply num_le_refl.
Qed.

Lemma clamp_bounds total previous s : let x := num_max previous (num_min total s) in
  x <> NaN -> num_le previous x = true /\ num_le x (num_max previous total) = true.
Proof.
  cbv zeta. intros Hn. split; [by apply num_max_number|].
  assert (previous <> NaN) as Hp by (intros ->; by apply Hn).
  assert (num_min total s <> NaN) as Hm by (intros E; rewrite E in Hn; apply Hn; by destruct previous).
  assert (total <> NaN) as Ht by (intros ->; by apply Hm).
  destruct (num_max_either _ _ Hn) as [-> | ->]; [by apply num_max_ge_l|].
  eapply num_le_trans; [by apply num_min_le|by apply num_max_ge_r].
Qed.

(** A clamped boundary lies between what precedes it and the total. *)
Lemma clamp_starts_bounds total l previous i x :
  clamp_starts total previous l !! i = Some x -> x <> NaN ->
  previous <> NaN /\ num_le previous x = true /\ num_le x (num_max previous total) = true.
Proof.
  revert previous i. induction l as [|s l IH]; intros previous i Hx Hn; [by destruct i|].
  cbn [clamp_starts] in Hx. cbv zeta in Hx. pose proof (clamp_bounds total previous s) as Hs.
  cbv zeta in Hs. set (s' := num_max previous (num_min total s)) in *.
  assert (s' <> NaN -> previous <> NaN) as Hp by (intros Hs' ->; by apply Hs').
  destruct i as [|i].
  - injection Hx as Hx. rewrite Hx in *. auto.
  - destruct (IH s' i Hx Hn) as (Hs' & H1' & H2'). destruct (Hs Hs') as (H3' & H4').
    split_and!; [by apply Hp|by eapply num_le_trans|].
    assert (num_max s' total <> NaN) as Hm by (intros E; rewrite E in H2'; by destruct x).
    destruct (num_max_either _ _ Hm) as [E|E]; rewrite E in H2'.
    + by eapply num_le_trans.
    + eapply num_le_trans; [exact H2'|]. apply num_max_ge_r; [by apply Hp|].
      intros ->. by destruct s'.
Qed.

Lemma clamp_starts_sorted total l previous i j x y :
  clamp_starts total previous l !! i = Some x -> clamp_starts total previous l !! j = Some y ->
  (i <= j)%nat -> y <> NaN -> num_le x y = true.
Proof.
  revert previous i j. induction l as [|s l IH]; intros previous i j Hx Hy Hij Hn; [by destruct i|].
  cbn [clamp_starts] in Hx, Hy. cbv zeta in Hx, Hy.
  destruct i as [|i], j as [|j]; [|..|lia|].
  - assert (x = y) as -> by congruence. by apply num_le_refl.
  - injection Hx as <-. by apply (clamp_starts_bounds _ _ _ _ _ Hy Hn).
  - apply (IH _ i j Hx Hy); [lia|exact Hn].
Qed.

Lemma ends_lookup total starts i (x : number) : starts !! i = Some x ->
  ends_of total starts !! i = Some (default total (starts !! S i)).
Proof.
  destruct starts as [|s r]; [done|]. intros Hi. unfold ends_of. change ((s :: r) !! S i) with (r !! i).
  apply lookup_lt_Some in Hi. rewrite length_cons in Hi. destruct (decide (i < length r)%nat) as [Hlt|Hge].
  - rewrite lookup_app_l by done. destruct (lookup_lt_is_Some_2 r i Hlt) as [y Hy]. by rewrite Hy.
  - assert (i = length r) as -> by lia. rewrite lookup_app_r, Nat.sub_diag by lia.
    assert (r !! length r = None) as -> by (apply lookup_ge_None_2; lia). done.
Qed.

(** The manoeuvres of a route are in order: whatever the steps' shapes and
    distances, the start of a step is never before zero, never after the start of a
    later step and never past the end of the route, and a step ends where the next
    one starts. *)
Theorem manoeuvres_are_in_order `{MathFunctions} `{Turf} route p i j x y :
  prepareManeuverPositions route = Ok p ->
  mp_starts p !! i = Some x -> mp_starts p !! j = Some y -> (i <= j)%nat -> y <> NaN ->
  num_le 0%num x = true /\ num_le x y = true /\ num_le y (num_max 0%num (mp_total p)) = true /\
  mp_ends p !! i = Some (default (mp_total p) (mp_starts p !! S i)).
Proof.
  unfold prepareManeuverPositions. intros (shapes & _ & Hprep)%outcome_bind_ok. revert Hprep.
  set (starts := if usable_geometry shapes then _ else Ok _).
  destruct starts as [l|]; [|discriminate]. intros Hp%Ok_inj. subst p. cbn [mp_starts mp_ends mp_total].
  set (total := if usable_geometry shapes then _ else _). intros Hx Hy Hij Hn.
  pose proof (clamp_starts_sorted _ _ _ _ _ _ _ Hx Hy Hij Hn) as Hxy.
  assert (x <> NaN) as Hxn by (intros ->; by destruct y).
  split_and!; [by apply (clamp_starts_bounds _ _ _ _ _ Hx)|exact Hxy| |by apply (ends_lookup _ _ _ x)].
  by apply (clamp_starts_bounds _ _ _ _ _ Hy).
Qed.

(** ** Witness *)

Definition sample_step (distance : Z) : json := JObj [("distance", JNum (num_of_Z distance))].

Definition sample_journey : Route :=
  {| route_distance := num_of_Z 150; route_duration := num_of_Z 60;
     route_geometry := [(num_of_Z 8, num_of_Z 50); (num_of_Z 9, num_of_Z 50)];
     route_steps := [sample_step 100; sample_step 50; sample_step 0]; route_mode := "driving";
     route_segmentSpeedLimits := None; route_summary := None; route_extra := [] |}.

Definition sample_positions : ManeuverPositions :=
  {| mp_starts := [num_of_Z 0; num_of_Z 100; num_of_Z 150];
     mp_ends := [num_of_Z 100; num_of_Z 150; num_of_Z 150]; mp_total := num_of_Z 150;
     mp_metric := EngineFallback |}.

Lemma manoeuvres_are_in_order_witness :
  prepareManeuverPositions sample_journey = Ok sample_positions /\
  num_le (num_of_Z 100) (num_of_Z 150) = true /\
  mp_ends sample_positions !! 1%nat = Some (num_of_Z 150).
Proof.
  assert (prepareManeuverPositions sample_journey = Ok sample_positions) as Hp by by vm_compute.
  destruct (manoeuvres_are_in_order sample_journey sample_positions 1 2 (num_of_Z 100) (num_of_Z 150)
    Hp eq_refl eq_refl ltac:(lia) ltac:(discriminate)) as (_ & Hle & _ & Hend).
  exact (conj Hp (conj Hle Hend)).
Defined.
