(* ===== verification/Progress.v ===== *)
(** * Progress along the route

    packages/core/src/navigation: the step gate (stepGate.ts) that holds the shown
    step back until its manoeuvre is behind the traveller, and the remaining
    distances and times (progress.ts). *)

From S2P Require Import Prelude Doubles Protocol Geodesy RouteMatcher Maneuver.

#[local] Open Scope num_scope.

(** ** The step gate *)

Record StepGateState := {
  committedStepIndex : Z;
  reachedStepEnd : bool;
}.

Section gate.
Variables (ends : list number) (lastIndex : Z) (alongMeters entryMeters exitMeters : number).

Definition end_at (i : Z) : number := default NaN (ends !! Z.to_nat i).

(** Within [entryMeters] of the end of step [i]. *)
Definition near_end (i : Z) : bool := alongMeters >=? end_at i - entryMeters.
(** [exitMeters] past the end of step [i]. *)
Definition past_end (i : Z) : bool := alongMeters >=? end_at i + exitMeters.

(** [while (committed < lastIndex) ...]: every round that goes on commits one more
    step, so [lastIndex] rounds are enough. *)
Fixpoint gate_loop (fuel : nat) (committed : Z) (entered : bool) : StepGateState :=
  match fuel with
  | O => {| committedStepIndex := committed; reachedStepEnd := entered |}
  | S fuel =>
      if (committed <? lastIndex)%Z
      then let entered := entered || near_end committed in
           if entered && past_end committed then gate_loop fuel (committed + 1) false
           else {| committedStepIndex := committed; reachedStepEnd := entered |}
      else {| committedStepIndex := committed; reachedStepEnd := entered |}
  end.

Definition gate (prev : StepGateState) : StepGateState :=
  gate_loop (Z.to_nat lastIndex)
    (Z.min (Z.max (committedStepIndex prev) 0) lastIndex) (reachedStepEnd prev).
End gate.

Section progress.
Context `{MathFunctions} `{Turf}.

(** [advanceStepGate] on a route. *)
Definition advanceStepGate (route : Route) (alongMeters : number) (prev : StepGateState)
    (entryMeters exitMeters : number) : outcome StepGateState :=
  let lastIndex := (Z.of_nat (length (route_steps route)) - 1)%Z in
  if (lastIndex <=? 0)%Z then Ok {| committedStepIndex := 0; reachedStepEnd := false |}
  else match prepareManeuverPositions route with
       | Throw e => Throw e
       | Ok p => Ok (gate (mp_ends p) lastIndex alongMeters entryMeters exitMeters prev)
       end.

(** ** [computeProgress] *)

Record ProgressResult := {
  currentStepIndex : Z;
  distanceToNextManeuver : number;
  distanceRemaining : number;
  durationRemaining : number;
}.

(** The first step whose end is not yet passed, else the last. *)
Fixpoint raw_step (along : number) (i lastIndex : Z) (ends : list number) : Z :=
  match ends with
  | [] => lastIndex
  | e :: r => if along <=? e then i else raw_step along (i + 1) lastIndex r
  end.

(** [for (i = rawIdx + 1; ...) remaining += steps[i].x] *)
Definition sum_after (first : number) (rest : list number) : number := foldl num_add first rest.

Definition computeProgress (route : Route) (alongMeters : number) (forcedStepIndex : option Z)
    : outcome ProgressResult :=
  let steps := route_steps route in
  match steps with
  | [] =>
      let total := route_distance route in
      let usable := num_is_finite total && (total >? 0) in
      let along := if usable then num_max 0 (num_min alongMeters total) else 0 in
      let distanceRemaining := if usable then num_max 0 (total - along) else 0 in
      let durationRemaining :=
        if usable && num_is_finite (route_duration route)
        then route_duration route * (distanceRemaining / total) else 0 in
      Ok {| currentStepIndex := 0; distanceToNextManeuver := distanceRemaining;
            distanceRemaining := distanceRemaining; durationRemaining := durationRemaining |}
  | _ =>
      match prepareManeuverPositions route with
      | Throw e => Throw e
      | Ok positions =>
          let lastIndex := (Z.of_nat (length steps) - 1)%Z in
          let along := num_max 0 (num_min alongMeters (mp_total positions)) in
          let end_ i := default NaN (mp_ends positions !! Z.to_nat i) in
          let start i := default NaN (mp_starts positions !! Z.to_nat i) in
          let rawIdx := raw_step along 0 lastIndex (take (length steps) (mp_ends positions)) in
          let idx := match forcedStepIndex with
                     | Some f => Z.min (Z.max f 0) lastIndex
                     | None => rawIdx
                     end in
          let rawLength := end_ rawIdx - start rawIdx in
          let fractionLeft :=
            if rawLength >? 0
            then num_min 1 (num_max 0 ((end_ rawIdx - along) / rawLength)) else 0 in
          let step := default JNull (steps !! Z.to_nat rawIdx) in
          let rest := drop (S (Z.to_nat rawIdx)) steps in
          Ok {| currentStepIndex := idx;
                distanceToNextManeuver := num_max 0 (end_ idx - along);
                distanceRemaining :=
                  sum_after (step_distance step * fractionLeft) (map step_distance rest);
                durationRemaining :=
                  sum_after (step_duration step * fractionLeft) (map step_duration rest) |}
      end
  end.

(** The manoeuvre to announce while a step is driven. *)
Definition upcomingManeuverIndex (currentStepIndex stepCount : Z) : Z :=
  if (stepCount <=? 0)%Z then 0 else Z.min (currentStepIndex + 1) (stepCount - 1).
End progress.

(** ** The gate's facts *)

Section gate_facts.
Variables (ends : list number) (lastIndex : Z) (alongMeters entryMeters exitMeters : number).
Notation near_end := (near_end ends alongMeters entryMeters).
Notation past_end := (past_end ends alongMeters exitMeters).
Notation gate_loop := (gate_loop ends lastIndex alongMeters entryMeters exitMeters).
Notation gate := (gate ends lastIndex alongMeters entryMeters exitMeters).

(** Where the loop stops, with enough rounds. *)
Lemma gate_loop_stops fuel c entered :
  (0 <= c <= lastIndex)%Z -> (lastIndex - c <= Z.of_nat fuel)%Z ->
  let r := gate_loop fuel c entered in
  (c <= committedStepIndex r <= lastIndex)%Z /\
  (committedStepIndex r < lastIndex ->
     reachedStepEnd r && past_end (committedStepIndex r) = false /\
     (near_end (committedStepIndex r) = true -> reachedStepEnd r = true))%Z /\
  (forall j, (c <= j < committedStepIndex r)%Z ->
     past_end j = true /\ (near_end j = true \/ (j = c /\ entered = true))).
Proof.
  revert c entered. induction fuel as [|fuel IH]; intros c entered Hc Hf; cbn [gate_loop Progress.gate_loop].
  { cbv zeta. cbn [committedStepIndex reachedStepEnd]. split_and!; [lia|lia| |]; intros; lia. }
  case_match eqn:E1; cbv zeta.
  2:{ cbn [committedStepIndex reachedStepEnd]. apply Z.ltb_ge in E1. split_and!; [lia|lia| |]; intros; lia. }
  apply Z.ltb_lt in E1. case_match eqn:E2.
  - apply andb_true_iff in E2 as [E2 E3].
    destruct (IH (c + 1)%Z false) as (H1 & H2 & H3); [lia|lia|]. split_and!; [lia|lia|exact H2|].
    intros j Hj. destruct (Z.eq_dec j c) as [->|Hne].
    + split; [exact E3|]. apply orb_true_iff in E2 as [E2|E2]; [by right|by left].
    + destruct (H3 j ltac:(lia)) as [H4 [H5|[_ H5]]]; [by split; [|left]|done].
  - cbn [committedStepIndex reachedStepEnd]. split_and!; [lia|lia| |intros; lia].
    intros _. split; [exact E2|]. intros ->. by destruct entered.
Qed.

Lemma gate_stops prev : (0 <= lastIndex)%Z ->
  let r := gate prev in
  let c := Z.min (Z.max (committedStepIndex prev) 0) lastIndex in
  (c <= committedStepIndex r <= lastIndex)%Z /\
  (committedStepIndex r < lastIndex ->
     reachedStepEnd r && past_end (committedStepIndex r) = false /\
     (near_end (committedStepIndex r) = true -> reachedStepEnd r = true))%Z /\
  (forall j, (c <= j < committedStepIndex r)%Z ->
     past_end j = true /\ (near_end j = true \/ (j = c /\ reachedStepEnd prev = true))).
Proof. intros Hl. apply gate_loop_stops; lia. Qed.

(** Once stopped, the same position moves it no further. *)
Lemma gate_settles prev : (0 <= lastIndex)%Z -> gate (gate prev) = gate prev.
Proof.
  intros Hl. destruct (gate_stops prev Hl) as (H1 & H2 & _).
  set (r := gate prev) in *. unfold gate at 1, Progress.gate.
  replace (Z.min (Z.max (committedStepIndex r) 0) lastIndex) with (committedStepIndex r) by lia.
  destruct (Z.to_nat lastIndex) as [|n] eqn:En; cbn [Progress.gate_loop].
  { by destruct r. }
  case_match eqn:E; [|by destruct r]. apply Z.ltb_lt in E. destruct (H2 E) as [H3 H4].
  assert (reachedStepEnd r || near_end (committedStepIndex r) = reachedStepEnd r) as ->.
  { destruct (near_end _) eqn:En'; [by rewrite (H4 eq_refl)|apply orb_false_r]. }
  rewrite H3. by destruct r.
Qed.
End gate_facts.

(** C31: The step gate, whatever the position: the committed step never goes back and
    never passes the last one; every step it leaves behind has been approached and
    then passed by the exit distance; the step it stops at has not; and settling is
    final, so the same position again changes nothing. *)
Theorem step_gate_is_a_ratchet ends lastIndex along entry exit_ prev : (0 <= lastIndex)%Z ->
  let r := gate ends lastIndex along entry exit_ prev in
  let c := Z.min (Z.max (committedStepIndex prev) 0) lastIndex in
  (c <= committedStepIndex r <= lastIndex)%Z /\
  (forall j, (c <= j < committedStepIndex r)%Z ->
     past_end ends along exit_ j = true /\
     (near_end ends along entry j = true \/ (j = c /\ reachedStepEnd prev = true))) /\
  (committedStepIndex r < lastIndex ->
     reachedStepEnd r && past_end ends along exit_ (committedStepIndex r) = false)%Z /\
  gate ends lastIndex along entry exit_ r = r.
Proof.
  intros Hl. destruct (gate_stops ends lastIndex along entry exit_ prev Hl) as (H1 & H2 & H3).
  split_and!; [lia|lia|exact H3| |by apply gate_settles].
  intros Hlt. by destruct (H2 Hlt).
Qed.

Lemma step_gate_is_a_ratchet_witness :
  0 <= 2 /\ committedStepIndex (gate [literal 100 1; literal 250 1; literal 400 1] 2 (literal 260 1)
              (literal 20 1) (literal 5 1) {| committedStepIndex := 0; reachedStepEnd := false |}) <= 2.
Proof.
  split; [lia|].
  apply (step_gate_is_a_ratchet [literal 100 1; literal 250 1; literal 400 1] 2 (literal 260 1)
           (literal 20 1) (literal 5 1) {| committedStepIndex := 0; reachedStepEnd := false |}).
  lia.
Defined.
