(* ===== verification/Session.v ===== *)
(** * The persisted navigation session

    packages/core/src/navigation/mobileSession.ts: the session records, the
    schema a stored session is read through, its lifetime rule, the cue ledger
    and the redacted projection. *)

From S2P Require Import Prelude Protocol.

Definition MOBILE_NAVIGATION_SESSION_SCHEMA_VERSION : Z := 2.
Definition MOBILE_NAVIGATION_SESSION_MAX_AGE_MS : Z := 24 * 60 * 60 * 1000.
Definition MOBILE_SESSION_LEDGER_LIMIT : nat := 512.

(** ** Fixes and ledgers *)

(** [FixInput], the shape of [fixSchema]: a missing and a [null] reading are one. *)
Record FixInput := {
  fix_coords : LngLat;
  fix_accuracy : number;
  fix_heading : option number;
  fix_speed : option number;
  fix_timestampMs : Z;
  fix_coasted : bool;
}.

Definition fixSchema (f : FixInput) : bool :=
  lngLat_ok (fix_coords f)
  && nonnegative (fix_accuracy f)
  && opt_ok num_is_finite (fix_heading f)
  && opt_ok num_is_finite (fix_speed f)
  && safeInteger (fix_timestampMs f).

Record CueLedger := { spoken : list string; events : list string }.

Definition no_duplicates (l : list string) : bool := bool_decide (NoDup l).

Definition ledgerSchema (l : CueLedger) : bool :=
  forallb boundedId (spoken l) && (length (spoken l) <=? MOBILE_SESSION_LEDGER_LIMIT)%nat
  && forallb boundedId (events l) && (length (events l) <=? MOBILE_SESSION_LEDGER_LIMIT)%nat
  && (no_duplicates (spoken l) && no_duplicates (events l)).

(** ** The ground payload *)

Record SpeedEstimate := {
  se_timestampMs : Z;
  se_weight : number;
  se_meanAgeSeconds : number;
  se_meanAlongMeters : number;
  se_varianceSeconds : number;
  se_covarianceMetersSeconds : number;
  se_reportedSpeedMps : number;
  se_reportedSpeedWeight : number;
  se_speedMps : number;
}.

Definition speedEstimateSchema (e : SpeedEstimate) : bool :=
  safeInteger (se_timestampMs e)
  && (num_is_finite (se_weight e) && num_lt (num_of_Z 0) (se_weight e))
  && (num_is_finite (se_meanAgeSeconds e) && num_le (se_meanAgeSeconds e) (num_of_Z 0))
  && nonnegative (se_meanAlongMeters e)
  && nonnegative (se_varianceSeconds e)
  && num_is_finite (se_covarianceMetersSeconds e)
  && nonnegative (se_reportedSpeedMps e)
  && finite_within 0 1 (se_reportedSpeedWeight e)
  && nonnegative (se_speedMps e).

(** [navTickStateSchema]; the engine's own extras pass through. *)
Record NavTickState := {
  offRouteScore : number;
  lastRerouteAtMs : option Z;
  rerouteBackoffMs : number;
  spokenCues : list string;
  speedEstimate : option SpeedEstimate;
  tick_extra : list (string * json);
}.

(** [spokenCues: z.array(z.string().max(128)).max(2_000)] *)
Definition MAX_SPOKEN_CUES : Z := 2000.

Definition navTickStateSchema (t : NavTickState) : bool :=
  num_is_finite (offRouteScore t)
  && opt_ok safeInteger (lastRerouteAtMs t)
  && nonnegative (rerouteBackoffMs t)
  && forallb (max_text 128) (spokenCues t)
  && (Z.of_nat (length (spokenCues t)) <=? MAX_SPOKEN_CUES)
  && opt_ok speedEstimateSchema (speedEstimate t).

Inductive RerouteStatus := RrIdle | RrPending | RrInFlight | RrUnavailable | RrFailed.

#[export] Instance RerouteStatus_eq_dec : EqDecision RerouteStatus.
Proof. solve_decision. Defined.

Record RerouteRuntime := {
  rr_status : RerouteStatus;
  rr_requestId : option string;
  rr_attempts : Z;
  rr_nextAttemptAtMs : option Z;
  rr_lastFailureCode : option string;
}.

Definition groundRerouteStateSchema (r : RerouteRuntime) : bool :=
  opt_ok boundedId (rr_requestId r)
  && ((0 <=? rr_attempts r) && (rr_attempts r <=? 64))
  && opt_ok safeInteger (rr_nextAttemptAtMs r)
  && opt_ok (max_text 64) (rr_lastFailureCode r).

Record CoastingAnchor := {
  ca_acceptedAtMs : Z;
  ca_alongMeters : number;
  ca_speedMps : number;
}.

Definition coastingAnchorSchema (a : CoastingAnchor) : bool :=
  safeInteger (ca_acceptedAtMs a)
  && nonnegative (ca_alongMeters a) && nonnegative (ca_speedMps a).

(** [progress] is a decoded record or [null]. *)
Record GroundPayload := {
  g_startPackage : GroundNavigationStartPackage;
  g_tickState : NavTickState;
  g_progress : option (list (string * json));
  g_weakGps : bool;
  g_offRoute : bool;
  g_coasting : bool;
  g_currentSpeedLimit : option number;
  g_coastingAnchor : option CoastingAnchor;
  g_reroute : RerouteRuntime;
}.

(** ** The transit payload *)

Record StopTracking := {
  st_alongTimestampMs : option Z;
  st_candidateAlongMeters : option number;
  st_candidateTimestampMs : option Z;
}.

Inductive ProgressConfidence := PcGps | PcUncertain | PcStale.
Inductive LastActionType := DidBoard | DidAlight | DidContinue.

Record PreviousPosition := {
  prev_currentLegIndex : Z;
  prev_phase : TransitPhase;
  prev_currentWalkStepIndex : Z;
  prev_stopCursor : Z;
  prev_alongMeters : number;
}.

Record LastAction := {
  la_type : LastActionType;
  la_legIndex : Z;
  la_atMs : Z;
  la_previous : PreviousPosition;
}.

Record TransitTickState := {
  t_currentLegIndex : Z;
  t_currentWalkStepIndex : Z;
  t_walkRevision : option Z;
  t_phase : TransitPhase;
  t_lastAcceptedFix : option FixInput;
  t_lastProgressAtMs : option Z;
  t_legEnteredAtMs : Z;
  t_stopCursor : option Z;
  t_alongMeters : option number;
  t_stopTracking : option StopTracking;
  t_reachedStepEnd : option bool;
  t_distanceToNextStepMeters : option number;
  t_progressConfidence : option ProgressConfidence;
  t_offPlan : option bool;
  t_lastActionId : option string;
  t_lastAction : option LastAction;
  t_spokenCueIds : list string;
  t_emittedEventIds : list string;
}.

Definition int_within (lo hi z : Z) : bool := (lo <=? z) && (z <=? hi).

Definition lastActionSchema (a : LastAction) : bool :=
  safeInteger (la_legIndex a) && safeInteger (la_atMs a)
  && safeInteger (prev_currentLegIndex (la_previous a))
  && safeInteger (prev_currentWalkStepIndex (la_previous a))
  && int_within 0 2000 (prev_stopCursor (la_previous a))
  && nonnegative (prev_alongMeters (la_previous a)).

Definition transitTickStateSchema (t : TransitTickState) : bool :=
  int_within 0 512 (t_currentLegIndex t)
  && int_within 0 10000 (t_currentWalkStepIndex t)
  && opt_ok safeInteger (t_walkRevision t)
  && opt_ok fixSchema (t_lastAcceptedFix t)
  && opt_ok safeInteger (t_lastProgressAtMs t)
  && safeInteger (t_legEnteredAtMs t)
  && opt_ok (int_within 0 2000) (t_stopCursor t)
  && opt_ok nonnegative (t_alongMeters t)
  && opt_ok (fun s => opt_ok safeInteger (st_alongTimestampMs s)
                      && opt_ok nonnegative (st_candidateAlongMeters s)
                      && opt_ok safeInteger (st_candidateTimestampMs s)) (t_stopTracking t)
  && opt_ok nonnegative (t_distanceToNextStepMeters t)
  && opt_ok boundedId (t_lastActionId t)
  && opt_ok lastActionSchema (t_lastAction t)
  && forallb boundedId (t_spokenCueIds t)
  && (length (t_spokenCueIds t) <=? MOBILE_SESSION_LEDGER_LIMIT)%nat
  && forallb boundedId (t_emittedEventIds t)
  && (length (t_emittedEventIds t) <=? MOBILE_SESSION_LEDGER_LIMIT)%nat.

Inductive RefreshStatus := RfReady | RfInFlight | RfStale | RfBroken.

#[export] Instance RefreshStatus_eq_dec : EqDecision RefreshStatus.
Proof. solve_decision. Defined.

Record RefreshRuntime := {
  rf_status : RefreshStatus;
  rf_generation : Z;
  rf_requestId : option string;
  rf_nextAttemptAtMs : option Z;
  rf_attempts : Z;
  rf_firstAttemptAtMs : option Z;
  rf_ambiguousAttempts : option Z;
}.

Definition refreshSchema (r : RefreshRuntime) : bool :=
  int_within 0 MAX_SAFE_INTEGER (rf_generation r)
  && opt_ok boundedId (rf_requestId r)
  && opt_ok safeInteger (rf_nextAttemptAtMs r)
  && opt_ok safeInteger (rf_firstAttemptAtMs r)
  && opt_ok (int_within 0 3) (rf_ambiguousAttempts r)
  && int_within 0 64 (rf_attempts r).

Inductive Confidence := ConfGps | ConfSchedule | ConfStale.

Record ScheduledAlert := { sched_id : string; sched_legIndex : Z; sched_triggerAtMs : Z }.

Definition scheduledAlertSchema (a : ScheduledAlert) : bool :=
  boundedId (sched_id a) && (0 <=? sched_legIndex a) && safeInteger (sched_triggerAtMs a).

Record TransitPayload := {
  p_startPackage : TransitNavigationStartPackage;
  p_navigationDataRevision : option Z;
  p_tickState : TransitTickState;
  p_progress : option (list (string * json));
  p_confidence : Confidence;
  p_refreshToken : option string;
  p_refresh : RefreshRuntime;
  p_scheduledAlerts : list ScheduledAlert;
}.

(** ** The session *)

Inductive SessionStatus := Preparing | Active | Arrived | Stopped | Expired | Errored.
Inductive Connectivity := Online | Offline | NetUnknown.
Inductive PermissionMode := ModeBackground | ModeForegroundOnly.

#[export] Instance SessionStatus_eq_dec : EqDecision SessionStatus.
Proof. solve_decision. Defined.
#[export] Instance Connectivity_eq_dec : EqDecision Connectivity.
Proof. solve_decision. Defined.
#[export] Instance PermissionMode_eq_dec : EqDecision PermissionMode.
Proof. solve_decision. Defined.

Inductive SessionPayload :=
  | GroundSession (p : GroundPayload)
  | TransitSession (p : TransitPayload).

(** [GroundMobileSession | TransitMobileSession]: the payload carries [kind]. *)
Record MobileNavigationSession := MkSession {
  schemaVersion : Z;
  sessionId : string;
  revision : Z;
  status : SessionStatus;
  startedAtMs : Z;
  updatedAtMs : Z;
  expiresAtMs : Z;
  locale : Locale;
  units : Units;
  connectivity : Connectivity;
  permissionMode : PermissionMode;
  cueLedger : CueLedger;
  lastAcceptedFix : option FixInput;
  payload : SessionPayload;
}.

Definition kind (s : MobileNavigationSession) : Kind :=
  match payload s with GroundSession _ => Ground | TransitSession _ => Transit end.

(** Object spread with the named keys replaced. *)
Definition set_status (st : SessionStatus) (s : MobileNavigationSession) :=
  MkSession (schemaVersion s) (sessionId s) (revision s) st (startedAtMs s) (updatedAtMs s)
    (expiresAtMs s) (locale s) (units s) (connectivity s) (permissionMode s) (cueLedger s)
    (lastAcceptedFix s) (payload s).
Definition set_locale_units (l : Locale) (u : Units) (s : MobileNavigationSession) :=
  MkSession (schemaVersion s) (sessionId s) (revision s) (status s) (startedAtMs s)
    (updatedAtMs s) (expiresAtMs s) l u (connectivity s) (permissionMode s) (cueLedger s)
    (lastAcceptedFix s) (payload s).
Definition set_permissionMode (m : PermissionMode) (s : MobileNavigationSession) :=
  MkSession (schemaVersion s) (sessionId s) (revision s) (status s) (startedAtMs s)
    (updatedAtMs s) (expiresAtMs s) (locale s) (units s) (connectivity s) m (cueLedger s)
    (lastAcceptedFix s) (payload s).
Definition set_connectivity (c : Connectivity) (s : MobileNavigationSession) :=
  MkSession (schemaVersion s) (sessionId s) (revision s) (status s) (startedAtMs s)
    (updatedAtMs s) (expiresAtMs s) (locale s) (units s) c (permissionMode s) (cueLedger s)
    (lastAcceptedFix s) (payload s).
Definition set_cueLedger (l : CueLedger) (s : MobileNavigationSession) :=
  MkSession (schemaVersion s) (sessionId s) (revision s) (status s) (startedAtMs s)
    (updatedAtMs s) (expiresAtMs s) (locale s) (units s) (connectivity s) (permissionMode s) l
    (lastAcceptedFix s) (payload s).
Definition set_lastAcceptedFix (f : option FixInput) (s : MobileNavigationSession) :=
  MkSession (schemaVersion s) (sessionId s) (revision s) (status s) (startedAtMs s)
    (updatedAtMs s) (expiresAtMs s) (locale s) (units s) (connectivity s) (permissionMode s)
    (cueLedger s) f (payload s).
Definition set_payload (p : SessionPayload) (s : MobileNavigationSession) :=
  MkSession (schemaVersion s) (sessionId s) (revision s) (status s) (startedAtMs s)
    (updatedAtMs s) (expiresAtMs s) (locale s) (units s) (connectivity s) (permissionMode s)
    (cueLedger s) (lastAcceptedFix s) p.

(** [{ ...session, revision: session.revision + 1, updatedAtMs: nowMs }], the
    opening of every mutation. *)
Definition advance (nowMs : Z) (s : MobileNavigationSession) :=
  MkSession (schemaVersion s) (sessionId s) (revision s + 1) (status s) (startedAtMs s) nowMs
    (expiresAtMs s) (locale s) (units s) (connectivity s) (permissionMode s) (cueLedger s)
    (lastAcceptedFix s) (payload s).

(** ** Reading a stored session *)

Definition hasCoherentLifetime (s : MobileNavigationSession) : bool :=
  if updatedAtMs s <? startedAtMs s then false
  else if expiresAtMs s <=? startedAtMs s then false
  else expiresAtMs s - startedAtMs s <=? MOBILE_NAVIGATION_SESSION_MAX_AGE_MS.

Section schema.
Context `{ReceiptValidators}.

Definition groundPayloadSchema (p : GroundPayload) : bool :=
  groundStartPackageSchema (g_startPackage p)
  && navTickStateSchema (g_tickState p)
  && opt_ok num_is_finite (g_currentSpeedLimit p)
  && opt_ok coastingAnchorSchema (g_coastingAnchor p)
  && groundRerouteStateSchema (g_reroute p).

Definition transitPayloadSchema (p : TransitPayload) : bool :=
  transitStartPackageSchema (p_startPackage p)
  && opt_ok safeInteger (p_navigationDataRevision p)
  && transitTickStateSchema (p_tickState p)
  && opt_ok (max_text 4096) (p_refreshToken p)
  && refreshSchema (p_refresh p)
  && (forallb scheduledAlertSchema (p_scheduledAlerts p)
      && (Z.of_nat (length (p_scheduledAlerts p)) <=? 64)).

Definition payloadSchema (p : SessionPayload) : bool :=
  match p with
  | GroundSession g => groundPayloadSchema g
  | TransitSession t => transitPayloadSchema t
  end.

Definition baseSessionShape (s : MobileNavigationSession) : bool :=
  (schemaVersion s =? MOBILE_NAVIGATION_SESSION_SCHEMA_VERSION)
  && boundedId (sessionId s)
  && safeInteger (revision s)
  && safeInteger (startedAtMs s)
  && safeInteger (updatedAtMs s)
  && safeInteger (expiresAtMs s)
  && ledgerSchema (cueLedger s)
  && opt_ok fixSchema (lastAcceptedFix s).

Definition mobileNavigationSessionSchema (s : MobileNavigationSession) : bool :=
  baseSessionShape s && payloadSchema (payload s) && hasCoherentLifetime s.

(** The text of the [session_json] column: either what [JSON.stringify] wrote
    for a session, or any other text, of which only the [schemaVersion] that
    [JSON.parse] would find matters. *)
Inductive SessionText :=
  | TextOf (s : MobileNavigationSession)
  | OtherText (version : option Z).

Inductive SessionParseCode := UnsupportedSchema | InvalidSession.

Definition parseMobileSession (value : SessionText)
    : MobileNavigationSession + SessionParseCode :=
  match value with
  | OtherText None => inr InvalidSession
  | OtherText (Some v) =>
      if v =? MOBILE_NAVIGATION_SESSION_SCHEMA_VERSION
      then inr InvalidSession else inr UnsupportedSchema
  | TextOf s =>
      if negb (schemaVersion s =? MOBILE_NAVIGATION_SESSION_SCHEMA_VERSION)
      then inr UnsupportedSchema
      else if mobileNavigationSessionSchema s then inl s else inr InvalidSession
  end.
End schema.

Definition isMobileSessionExpired (s : MobileNavigationSession) (nowMs : Z) : bool :=
  expiresAtMs s <=? nowMs.

(** ** The ledger *)

(** [for (const id of ids) if (!next.includes(id)) next.push(id)] *)
Definition push_missing (ledger ids : list string) : list string :=
  foldl (fun next id => if includes id next then next else next ++ [id]) ledger ids.

(** [l.slice(l.length - n)] once [l] is longer than [n]. *)
Definition keep_last (n : nat) (l : list string) : list string :=
  if (n <? length l)%nat then drop (length l - n) l else l.

Definition appendToLedger (ledger ids : list string) : list string :=
  keep_last MOBILE_SESSION_LEDGER_LIMIT (push_missing ledger ids).

(** ** Redaction *)

Record RedactedSession := {
  red_kind : Kind;
  red_status : SessionStatus;
  red_revision : Z;
  red_ageMs : Z;
  red_connectivity : Connectivity;
  red_permissionMode : PermissionMode;
  red_spokenCueCount : Z;
  red_eventCount : Z;
  red_hasLastFix : bool;
}.

Definition redactSessionForDiagnostics (s : MobileNavigationSession) (nowMs : Z)
    : RedactedSession :=
  {| red_kind := kind s;
     red_status := status s;
     red_revision := revision s;
     red_ageMs := Z.max 0 (nowMs - startedAtMs s);
     red_connectivity := connectivity s;
     red_permissionMode := permissionMode s;
     red_spokenCueCount := Z.of_nat (length (spoken (cueLedger s)));
     red_eventCount := Z.of_nat (length (events (cueLedger s)));
     red_hasLastFix := match lastAcceptedFix s with Some _ => true | None => false end |}.

(** ** Lemmas: reading a session *)

Create HintDb session.

Section parse_lemmas.
Context `{ReceiptValidators}.

Lemma schema_version_ok s :
  mobileNavigationSessionSchema s = true ->
  schemaVersion s = MOBILE_NAVIGATION_SESSION_SCHEMA_VERSION.
Proof.
  unfold mobileNavigationSessionSchema, baseSessionShape.
  rewrite !andb_true_iff, Z.eqb_eq. tauto.
Qed.

Lemma parse_written s :
  mobileNavigationSessionSchema s = true -> parseMobileSession (TextOf s) = inl s.
Proof.
  intros Hs. simpl. rewrite (schema_version_ok _ Hs), Z.eqb_refl. simpl.
  by rewrite Hs.
Qed.

Lemma parse_sound t s :
  parseMobileSession t = inl s ->
  t = TextOf s /\ mobileNavigationSessionSchema s = true.
Proof.
  destruct t as [s'|[v|]]; simpl; repeat case_match; intros; simplify_eq. done.
Qed.

Lemma parse_rejects s :
  mobileNavigationSessionSchema s = false ->
  exists code, parseMobileSession (TextOf s) = inr code.
Proof.
  intros Hs. simpl. rewrite Hs. case_match; eauto.
Qed.

Lemma schema_lifetime s :
  mobileNavigationSessionSchema s = true ->
  startedAtMs s <= updatedAtMs s /\ startedAtMs s < expiresAtMs s
  /\ expiresAtMs s - startedAtMs s <= MOBILE_NAVIGATION_SESSION_MAX_AGE_MS.
Proof.
  unfold mobileNavigationSessionSchema, hasCoherentLifetime.
  rewrite !andb_true_iff. intros [_ Hl].
  repeat case_match; try done. lia.
Qed.

Lemma schema_parts s :
  mobileNavigationSessionSchema s = true ->
  ledgerSchema (cueLedger s) = true /\ opt_ok fixSchema (lastAcceptedFix s) = true
  /\ payloadSchema (payload s) = true.
Proof.
  unfold mobileNavigationSessionSchema, baseSessionShape. rewrite !andb_true_iff. tauto.
Qed.

(** The next revision of a readable session is readable, if what it changed is. *)
Lemma schema_next s s' nowMs :
  mobileNavigationSessionSchema s = true ->
  revision s < MAX_SAFE_INTEGER -> startedAtMs s <= nowMs <= MAX_SAFE_INTEGER ->
  schemaVersion s' = schemaVersion s -> sessionId s' = sessionId s ->
  revision s' = revision s + 1 -> startedAtMs s' = startedAtMs s -> updatedAtMs s' = nowMs ->
  expiresAtMs s' = expiresAtMs s ->
  ledgerSchema (cueLedger s') = true -> opt_ok fixSchema (lastAcceptedFix s') = true ->
  payloadSchema (payload s') = true ->
  mobileNavigationSessionSchema s' = true.
Proof.
  unfold mobileNavigationSessionSchema, baseSessionShape, hasCoherentLifetime, safeInteger.
  intros Hs Hr Ht -> -> -> -> -> -> -> -> ->.
  rewrite !andb_true_iff, !Z.leb_le in Hs |- *. destruct Hs as [[Hb _] Hl].
  repeat case_match; try done; rewrite ?Z.ltb_lt, ?Z.ltb_ge, ?Z.leb_le, ?Z.leb_gt in *; try lia.
  repeat split; try tauto; lia.
Qed.
End parse_lemmas.

(** ** Lemmas: the ledger *)

Lemma includes_spec x l : includes x l = true <-> x ∈ l.
Proof.
  unfold includes. rewrite existsb_exists. setoid_rewrite <- list_elem_of_In.
  split; [intros (y & Hy & E); apply String.eqb_eq in E; by subst|].
  intros Hx. exists x. by rewrite String.eqb_refl.
Qed.

Lemma includes_false x l : includes x l = false <-> x ∉ l.
Proof. rewrite <- not_true_iff_false, includes_spec. done. Qed.

Lemma push_missing_cons l i ids :
  push_missing l (i :: ids) =
  push_missing (if includes i l then l else l ++ [i]) ids.
Proof. done. Qed.

Lemma push_missing_elem x l ids : x ∈ push_missing l ids <-> x ∈ l \/ x ∈ ids.
Proof.
  revert l. induction ids as [|i ids IH]; intros l; [simpl; set_solver|].
  rewrite push_missing_cons, IH. case_match eqn:E; [|set_solver].
  apply includes_spec in E. set_solver.
Qed.

Lemma push_missing_nodup l ids : NoDup l -> NoDup (push_missing l ids).
Proof.
  revert l. induction ids as [|i ids IH]; intros l Hl; [done|].
  rewrite push_missing_cons. apply IH. case_match eqn:E; [done|].
  apply includes_false in E. apply NoDup_app. repeat split; [done| |apply NoDup_singleton].
  set_solver.
Qed.

Lemma push_missing_prefix l ids : exists new, push_missing l ids = l ++ new.
Proof.
  revert l. induction ids as [|i ids IH]; intros l; [exists []; by rewrite app_nil_r|].
  rewrite push_missing_cons. case_match; [apply IH|].
  destruct (IH (l ++ [i])) as [new ->]. exists (i :: new). by rewrite <- app_assoc.
Qed.

Lemma push_missing_nil l : push_missing l [] = l.
Proof. done. Qed.

Lemma push_missing_length l ids : (length (push_missing l ids) <= length l + length ids)%nat.
Proof.
  revert l. induction ids as [|i ids IH]; intros l; [simpl; lia|].
  rewrite push_missing_cons. etrans; [apply IH|]. case_match; simpl; [lia|].
  rewrite length_app. simpl. lia.
Qed.

Lemma keep_last_suffix n l : exists old, l = old ++ keep_last n l.
Proof.
  unfold keep_last. case_match; [|by exists []].
  exists (take (length l - n) l). by rewrite take_drop.
Qed.

Lemma keep_last_length n l : (length (keep_last n l) <= n)%nat.
Proof.
  unfold keep_last. destruct (n <? length l)%nat eqn:E.
  - apply Nat.ltb_lt in E. rewrite length_drop. lia.
  - apply Nat.ltb_ge in E. done.
Qed.

Lemma keep_last_small n l : (length l <= n)%nat -> keep_last n l = l.
Proof. intros Hl. unfold keep_last. case_match eqn:E; [apply Nat.ltb_lt in E; lia|done]. Qed.

Lemma keep_last_nodup n l : NoDup l -> NoDup (keep_last n l).
Proof.
  destruct (keep_last_suffix n l) as [old Hold]. rewrite Hold at 1.
  intros ?%NoDup_app. tauto.
Qed.

Lemma keep_last_subseteq n l : keep_last n l ⊆ l.
Proof. destruct (keep_last_suffix n l) as [old Hold]. intros x Hx. rewrite Hold. set_solver. Qed.

(** The last [n] elements of a list survive. *)
Lemma keep_last_app n old new :
  (length new <= n)%nat -> new ⊆ keep_last n (old ++ new).
Proof.
  intros Hn x Hx. unfold keep_last. case_match eqn:E; [|set_solver].
  rewrite length_app, drop_app.
  apply elem_of_app. right.
  replace (length old + length new - n - length old)%nat with 0%nat by lia.
  by rewrite drop_0.
Qed.

(** What is added to a ledger is in it, if it was not there before and the
    additions fit. *)
Lemma append_records n l ids x :
  (length ids <= n)%nat -> x ∈ ids -> x ∉ l -> x ∈ keep_last n (push_missing l ids).
Proof.
  intros Hn Hx Hl. destruct (push_missing_prefix l ids) as [new E].
  assert (x ∈ l \/ x ∈ new) as [?|Hnew]; [|done|].
  { apply elem_of_app. rewrite <- E. apply push_missing_elem. by right. }
  pose proof (push_missing_length l ids) as Hlen. rewrite E in Hlen |- *.
  rewrite length_app in Hlen. apply keep_last_app; [lia|done].
Qed.

(** Both ledgers of a session, as the schema requires them. *)
Definition ledger_wf (l : list string) : Prop :=
  NoDup l /\ (length l <= MOBILE_SESSION_LEDGER_LIMIT)%nat /\ Forall (fun i => boundedId i = true) l.

Lemma forallb_Forall {A} (f : A -> bool) l : forallb f l = true <-> Forall (fun x => f x = true) l.
Proof. rewrite forallb_forall, Forall_forall. by setoid_rewrite list_elem_of_In. Qed.

Lemma ledgerSchema_spec l :
  ledgerSchema l = true <-> ledger_wf (spoken l) /\ ledger_wf (events l).
Proof.
  unfold ledgerSchema, no_duplicates, ledger_wf.
  rewrite !andb_true_iff, !forallb_Forall, !Nat.leb_le, !bool_decide_eq_true. tauto.
Qed.

Lemma append_ledger_wf l ids :
  ledger_wf l -> Forall (fun i => boundedId i = true) ids -> ledger_wf (appendToLedger l ids).
Proof.
  intros (Hnd & Hlen & Hb) Hids. unfold appendToLedger. repeat split.
  - by apply keep_last_nodup, push_missing_nodup.
  - apply keep_last_length.
  - apply Forall_forall. intros x Hx%keep_last_subseteq%push_missing_elem.
    rewrite Forall_forall in Hb, Hids. destruct Hx; auto.
Qed.

Lemma append_ledger_empty l : ledger_wf l -> appendToLedger l [] = l.
Proof. intros (_ & Hlen & _). unfold appendToLedger. by apply keep_last_small. Qed.

#[export] Hint Resolve append_ledger_wf parse_written schema_version_ok : session.
