(* ===== verification/Speed.v ===== *)
(** * Ground speed

    packages/core/src/navigation/navigationSpeed.ts: the speed a fix reports, or a
    weighted fit through the positions along the route, whose running statistics are
    the [SpeedEstimate] the session stores.  Nothing in the code bounds them; that
    they stay in range for ever, and so stay readable, is proved here. *)

From S2P Require Import Prelude Doubles Protocol RouteMatcher SampleMath Session.
From Stdlib Require Import QArith Qabs Lqa.

Definition SPEED_TAU_SECONDS : number := num_of_Z 2.
Definition RESET_AFTER_SECONDS : number := num_of_Z 15.
Definition MIN_ACCURACY_METERS : number := num_of_Z 5.
Definition REPORTED_SPEED_TAU_SECONDS : number := num_of_Z 1.

Section speed.
Context `{MathFunctions}.
#[local] Open Scope num_scope.

(** The estimate of a first fix, or of one after an outage or a stop. *)
Definition fresh_estimate (fix_ : FixInput) (alongMeters : number) (reported : option number)
    (weight : number) : SpeedEstimate :=
  {| se_timestampMs := fix_timestampMs fix_;
     se_weight := weight;
     se_meanAgeSeconds := 0;
     se_meanAlongMeters := alongMeters;
     se_varianceSeconds := 0;
     se_covarianceMetersSeconds := 0;
     se_reportedSpeedMps := default 0 reported;
     se_reportedSpeedWeight := if reported is Some _ then 1 else 0;
     se_speedMps := default 0 reported |}.

(** [navigationSpeed]: the speed of a fix, and the estimate after it.  A time stamp
    is an integer, so [Number.isFinite(fix.timestampMs)] holds. *)
Definition navigationSpeed (previous : option SpeedEstimate) (fix_ : FixInput) (alongMeters : number)
    : number * option SpeedEstimate :=
  let reported := match fix_speed fix_ with
                  | Some s => if num_is_finite s && (s >=? 0) then Some s else None
                  | None => None
                  end in
  let previousSpeed := match previous with Some p => se_speedMps p | None => 0 end in
  if fix_coasted fix_ then (default previousSpeed reported, previous)
  else
    let dt := match previous with
              | Some p => num_of_Z (fix_timestampMs fix_ - se_timestampMs p) / 1000
              | None => 0
              end in
    if bool_decide (is_Some previous) && (dt <=? 0) then (previousSpeed, previous)
    else
      let accuracy := if num_is_finite (fix_accuracy fix_)
                      then num_max (fix_accuracy fix_) MIN_ACCURACY_METERS
                      else MIN_ACCURACY_METERS in
      let weight := 1 / num_square accuracy in
      let stopped := match reported with Some s => s =? 0 | None => false end in
      match previous with
      | Some p =>
          if (dt >? RESET_AFTER_SECONDS) || stopped
          then (default 0 reported, Some (fresh_estimate fix_ alongMeters reported weight))
          else
            let oldWeight := se_weight p * math_exp (num_neg dt / SPEED_TAU_SECONDS) in
            let totalWeight := oldWeight + weight in
            let alpha := weight / totalWeight in
            let oldAge := se_meanAgeSeconds p - dt in
            let deltaAlong := alongMeters - se_meanAlongMeters p in
            let varianceSeconds := (1 - alpha) * (se_varianceSeconds p + alpha * num_square oldAge) in
            let covarianceMetersSeconds :=
              (1 - alpha) * (se_covarianceMetersSeconds p + alpha * num_neg oldAge * deltaAlong) in
            let reportedSpeedMps := default (se_reportedSpeedMps p) reported in
            let reportedSpeedWeight :=
              match reported with
              | None => se_reportedSpeedWeight p * math_exp (num_neg dt / REPORTED_SPEED_TAU_SECONDS)
              | Some _ => 1
              end in
            let slopeWeight := totalWeight * varianceSeconds + reportedSpeedWeight in
            let estimated :=
              if slopeWeight >? literal 1 1000000000
              then (totalWeight * covarianceMetersSeconds + reportedSpeedWeight * reportedSpeedMps)
                   / slopeWeight
              else se_speedMps p in
            let speedMps := default (num_max 0 estimated) reported in
            (speedMps,
             Some {| se_timestampMs := fix_timestampMs fix_;
                     se_weight := totalWeight;
                     se_meanAgeSeconds := oldAge * (1 - alpha);
                     se_meanAlongMeters := se_meanAlongMeters p + alpha * deltaAlong;
                     se_varianceSeconds := varianceSeconds;
                     se_covarianceMetersSeconds := covarianceMetersSeconds;
                     se_reportedSpeedMps := reportedSpeedMps;
                     se_reportedSpeedWeight := reportedSpeedWeight;
                     se_speedMps := speedMps |})
      | None => (default 0 reported, Some (fresh_estimate fix_ alongMeters reported weight))
      end.
End speed.

(** ** The estimate stays in range *)

(** What is relied on of [Math.exp]: away from zero it has decayed. *)
Class ExpLaws `{MathFunctions} : Prop := {
  exp_decays : forall x, representable x -> x <= - pow2 (-11) ->
    between 0 (1 - pow2 (-12)) (math_exp (Fin x));
}.

(** A fix a receiver could report: its readings are doubles, its speed below a
    thousand kilometres a second. *)
Definition plausible_fix (f : FixInput) : Prop :=
  fixSchema f = true /\ is_double (fix_accuracy f) /\
  forall s, fix_speed f = Some s -> is_double s /\ num_le s (num_of_Z (2 ^ 20)) = true.

(** The range every field of an estimate keeps. *)
Definition estimate_ok (e : SpeedEstimate) : Prop :=
  safeInteger (se_timestampMs e) = true /\
  between (pow2 (-16)) 256 (se_weight e) /\
  between (- pow2 28) 0 (se_meanAgeSeconds e) /\
  between 0 (pow2 51) (se_meanAlongMeters e) /\
  between 0 (pow2 82) (se_varianceSeconds e) /\
  between (- pow2 105) (pow2 105) (se_covarianceMetersSeconds e) /\
  between 0 (pow2 20) (se_reportedSpeedMps e) /\
  between 0 1 (se_reportedSpeedWeight e) /\
  between 0 (pow2 144) (se_speedMps e).

Ltac rep m e := (apply (representable_intro m e); [by vm_compute|by vm_compute|by vm_compute]).
Ltac side := by vm_compute.

Lemma square_between a b x : 0 <= b -> representable (b * b) -> between (- b) a x -> a <= b ->
  between 0 (b * b) (num_square x).
Proof.
  intros Hb Hrep (q & -> & _ & H1 & H2) Hab. apply round_between; [done|exact Hrep| |]; nra.
Qed.

(** The weight of a fix of an accuracy between 5 and 200 metres. *)
Lemma weight_between acc : between 5 200 acc ->
  between (pow2 (-16)) (pow2 (-4)) (num_of_Z 1 / num_square acc)%num.
Proof.
  intros (q & -> & _ & H1 & H2).
  assert (between 25 40000 (num_square (Fin q))) as Hsq.
  { apply round_between; [rep 25%Z 0%Z|rep 40000%Z 0%Z|nra|nra]. }
  apply between_div with (a := 1) (b := 1) (c := 25) (d := 40000);
    [rep 1%Z (-16)%Z|rep 1%Z (-4)%Z|side|side|apply between_intro; [done|side|side]|exact Hsq|side|side|side].
Qed.

Section update.
Context `{ExpLaws}.
Variables (oldw wn age dt along mean var cov rsp rw : number).
Hypothesis Holdw : between (pow2 (-16)) 256 oldw.
Hypothesis Hwn : between (pow2 (-16)) (pow2 (-4)) wn.
Hypothesis Hdt : between (pow2 (-10)) 15 dt.

Lemma decay_between tau : tau = num_of_Z 2 \/ tau = num_of_Z 1 ->
  between 0 (1 - pow2 (-12)) (math_exp (num_neg dt / tau)%num).
Proof.
  intros Htau. destruct Hdt as (q & -> & Hq & H1 & H2).
  assert (between (- 15) (- pow2 (-11)) (num_neg (Fin q) / tau)%num) as (x & -> & Hx & _ & Hx2).
  { assert (pow2 (-10) == 2 * pow2 (-11)) as Hhalf by side. pose proof (pow2_pos (-11)) as Hpos.
    destruct Htau as [->| ->]; cbn [num_neg num_div num_of_Z];
      (apply round_between; [rep (-15)%Z 0%Z|rep (-1)%Z (-11)%Z| |]).
    - change (- q / inject_Z 2) with (- q * (1 # 2)). lra.
    - change (- q / inject_Z 2) with (- q * (1 # 2)). lra.
    - change (- q / inject_Z 1) with (- q * 1). lra.
    - change (- q / inject_Z 1) with (- q * 1). lra. }
  by apply exp_decays.
Qed.

Let total := (oldw * math_exp (num_neg dt / num_of_Z 2) + wn)%num.
Let alpha := (wn / total)%num.
Let oldAge := (age - dt)%num.
Let delta := (along - mean)%num.

Lemma total_between : between (pow2 (-16)) 256 total /\
  exists w t, wn = Fin w /\ total = Fin t /\ w <= t.
Proof.
  assert (between 0 (256 * (1 - pow2 (-12))) (oldw * math_exp (num_neg dt / num_of_Z 2))%num) as Hold.
  { apply between_mul_pos with (a := pow2 (-16)) (b := 256) (c := 0) (d := 1 - pow2 (-12));
      [exact representable_0|rep 4095%Z (-4)%Z|side|side|exact Holdw
      |apply decay_between; left; reflexivity|side|side]. }
  split.
  - apply between_add with (a := 0) (b := (256 * (1 - pow2 (-12)))) (c := (pow2 (-16))) (d := (pow2 (-4))); [rep 1%Z (-16)%Z|rep 256%Z 0%Z|exact Hold|exact Hwn|side|side].
  - unfold total. destruct Hold as (o & -> & _ & Ho & Ho2), Hwn as (w & -> & Hw & H1 & H2).
    assert (between w 257 (num_add (Fin o) (Fin w))) as (t & -> & _ & Ht & _).
    { apply round_between; [exact Hw|rep 257%Z 0%Z|lra|].
      assert (256 * (1 - pow2 (-12)) + pow2 (-4) <= 257) by side. lra. }
    by exists w, t.
Qed.

Lemma alpha_between : between (pow2 (-24)) 1 alpha.
Proof.
  destruct total_between as [(t & Et & _ & Ht1 & Ht2) (w & t' & Ew & Et' & Hwt)].
  unfold alpha. rewrite Et in Et' |- *. injection Et' as <-.
  destruct Hwn as (w' & Ew' & _ & Hw1 & Hw2). rewrite Ew in Ew' |- *. injection Ew' as <-.
  pose proof (pow2_pos (-16)) as Hpos. assert (0 < t) as Htpos by lra.
  cbn [num_div]. assert ((Qnum t =? 0)%Z = false) as ->.
  { apply Z.eqb_neq. intros Hz. apply Qnum_zero in Hz. lra. }
  apply round_between; [rep 1%Z (-24)%Z|done| |].
  - apply Qle_shift_div_l; [exact Htpos|]. assert (pow2 (-24) * 256 == pow2 (-16)) as He by side.
    pose proof (pow2_pos (-24)). nra.
  - apply Qle_shift_div_r; [exact Htpos|]. lra.
Qed.

Lemma rest_between : between 0 (1 - pow2 (-24)) (num_of_Z 1 - alpha)%num.
Proof.
  apply between_sub with (a := 1) (b := 1) (c := (pow2 (-24))) (d := 1);
    [exact representable_0|rep 16777215%Z (-24)%Z|apply between_intro; [done|side|side]|exact alpha_between|side|side].
Qed.

Hypothesis Hage : between (- pow2 28) 0 age.

Lemma oldAge_between : between (- (pow2 28 + 15)) 0 oldAge.
Proof.
  apply between_sub with (a := (- pow2 28)) (b := 0) (c := (pow2 (-10))) (d := 15);
    [rep (-268435471)%Z 0%Z|exact representable_0|exact Hage|exact Hdt|side|side].
Qed.

Lemma meanAge_between : between (- pow2 28) 0 (oldAge * (num_of_Z 1 - alpha))%num.
Proof.
  destruct oldAge_between as (a & -> & _ & Ha1 & Ha2), rest_between as (r & -> & _ & Hr1 & Hr2).
  apply round_between; [rep (-268435456)%Z 0%Z|done| |nra].
  assert ((pow2 28 + 15) * (1 - pow2 (-24)) <= pow2 28) as Hb by side. nra.
Qed.

Hypothesis Hvar : between 0 (pow2 82) var.

Lemma variance_between :
  between 0 (pow2 82) ((num_of_Z 1 - alpha) * (var + alpha * num_square oldAge))%num.
Proof.
  assert (between 0 (pow2 57) (num_square oldAge)) as Hsq.
  { destruct oldAge_between as (a & -> & _ & Ha1 & Ha2).
    apply round_between; [done|rep 1%Z 57%Z|nra|].
    assert ((pow2 28 + 15) * (pow2 28 + 15) <= pow2 57) as Hb by side. nra. }
  assert (between 0 (pow2 57) (alpha * num_square oldAge)%num) as Has.
  { apply between_mul_pos with (a := (pow2 (-24))) (b := 1) (c := 0) (d := (pow2 57));
      [exact representable_0|rep 1%Z 57%Z|side|side|exact alpha_between|exact Hsq|side|side]. }
  assert (between 0 (pow2 82 + pow2 57) (var + alpha * num_square oldAge)%num) as Hsum.
  { apply between_add with (a := 0) (b := (pow2 82)) (c := 0) (d := (pow2 57));
      [exact representable_0|rep (2 ^ 25 + 1)%Z 57%Z|exact Hvar|exact Has|side|side]. }
  apply between_mul_pos with (a := 0) (b := (1 - pow2 (-24))) (c := 0) (d := (pow2 82 + pow2 57));
    [exact representable_0|rep 1%Z 82%Z|side|side|exact rest_between|exact Hsum|side|side].
Qed.

Hypothesis Halong : between 0 (pow2 50) along.
Hypothesis Hmean : between 0 (pow2 51) mean.
Hypothesis Hcov : between (- pow2 105) (pow2 105) cov.

Lemma delta_between : between (- pow2 51) (pow2 50) delta.
Proof.
  apply between_sub with (a := 0) (b := (pow2 50)) (c := 0) (d := (pow2 51));
    [rep (-1)%Z 51%Z|rep 1%Z 50%Z|exact Halong|exact Hmean|side|side].
Qed.

Lemma covariance_between :
  between (- pow2 105) (pow2 105) ((num_of_Z 1 - alpha) * (cov + alpha * num_neg oldAge * delta))%num.
Proof.
  assert (between 0 (pow2 28 + 15) (alpha * num_neg oldAge)%num) as Hag.
  { pose proof (between_neg _ _ _ oldAge_between) as Hn.
    apply between_mul_pos with (a := (pow2 (-24))) (b := 1) (c := 0) (d := (pow2 28 + 15));
      [exact representable_0|rep 268435471%Z 0%Z|side|side|exact alpha_between| |side|side].
    eapply between_weaken; [exact Hn|side|side]. }
  assert (between (- pow2 80) (pow2 80) (alpha * num_neg oldAge * delta)%num) as Hprod.
  { apply between_mul with (a := (pow2 51)) (b := (pow2 28 + 15));
      [rep (-1)%Z 80%Z|rep 1%Z 80%Z|exact Hag| |side|side]. eapply between_weaken; [exact delta_between|side|side]. }
  assert (between (- (pow2 105 + pow2 80)) (pow2 105 + pow2 80)
            (cov + alpha * num_neg oldAge * delta)%num) as Hsum.
  { apply between_add with (a := (- pow2 105)) (b := (pow2 105)) (c := (- pow2 80)) (d := (pow2 80)); [rep (- (2 ^ 25 + 1))%Z 80%Z|rep (2 ^ 25 + 1)%Z 80%Z|exact Hcov|exact Hprod|side|side]. }
  apply between_mul with (a := (pow2 105 + pow2 80)) (b := (1 - pow2 (-24)));
    [rep (-1)%Z 105%Z|rep 1%Z 105%Z|exact rest_between|exact Hsum|side|side].
Qed.

Lemma meanAlong_between : between 0 (pow2 51) (mean + alpha * delta)%num.
Proof.
  destruct alpha_between as (a & -> & _ & Ha1 & Ha2). pose proof (pow2_pos (-24)) as Hpos.
  assert (pow2 50 + pow2 50 == pow2 51) as H41 by side. pose proof (pow2_pos 40) as Hpos40.
  unfold delta. destruct Hmean as (m & -> & Hm & Hm1 & Hm2), Halong as (l & -> & Hl & Hl1 & Hl2).
  destruct (Qlt_le_dec m l) as [Hml|Hml].
  - assert (between 0 (pow2 50) (Fin l - Fin m)%num) as (d & -> & _ & Hd1 & Hd2).
    { apply round_between; [done|rep 1%Z 50%Z|lra|lra]. }
    assert (between 0 (pow2 50) (Fin a * Fin d)%num) as (p & -> & _ & Hp1 & Hp2).
    { apply round_between; [done|rep 1%Z 50%Z|nra|nra]. }
    apply round_between; [done|rep 1%Z 51%Z|lra|lra].
  - assert (between (- m) 0 (Fin l - Fin m)%num) as (d & -> & _ & Hd1 & Hd2).
    { apply round_between; [by apply representable_opp|done|lra|lra]. }
    assert (between (- m) 0 (Fin a * Fin d)%num) as (p & -> & _ & Hp1 & Hp2).
    { apply round_between; [by apply representable_opp|done|nra|nra]. }
    apply round_between; [done|rep 1%Z 51%Z|lra|lra].
Qed.
End update.

Lemma estimated_between total var cov rw rsp slope :
  between (pow2 (-16)) 256 total -> between 0 (pow2 82) var -> between (- pow2 105) (pow2 105) cov ->
  between 0 1 rw -> between 0 (pow2 20) rsp ->
  slope = (total * var + rw)%num -> num_lt (literal 1 1000000000) slope = true ->
  between (- pow2 144) (pow2 144) ((total * cov + rw * rsp) / slope)%num.
Proof.
  intros Ht Hv Hc Hrw Hrsp -> Hlt.
  assert (between 0 (pow2 90) (total * var)%num) as Htv.
  { apply between_mul_pos with (a := pow2 (-16)) (b := 256) (c := 0) (d := pow2 82);
      [exact representable_0|rep 1%Z 90%Z|side|side|exact Ht|exact Hv|side|side]. }
  assert (between 0 (pow2 91) (total * var + rw)%num) as (s & Es & _ & Hs0 & _).
  { apply between_add with (a := 0) (b := pow2 90) (c := 0) (d := 1);
      [exact representable_0|rep 1%Z 91%Z|exact Htv|exact Hrw|side|side]. }
  assert (between (- pow2 113) (pow2 113) (total * cov)%num) as Htc.
  { apply between_mul with (a := pow2 105) (b := 256); [rep (-1)%Z 113%Z|rep 1%Z 113%Z| |exact Hc|side|side].
    eapply between_weaken; [exact Ht|side|side]. }
  assert (between 0 (pow2 20) (rw * rsp)%num) as Hrr.
  { apply between_mul_pos with (a := 0) (b := 1) (c := 0) (d := pow2 20);
      [exact representable_0|rep 1%Z 20%Z|side|side|exact Hrw|exact Hrsp|side|side]. }
  assert (between (- pow2 114) (pow2 114) (total * cov + rw * rsp)%num) as (n & En & _ & Hn1 & Hn2).
  { apply between_add with (a := - pow2 113) (b := pow2 113) (c := 0) (d := pow2 20);
      [rep (-1)%Z 114%Z|rep 1%Z 114%Z|exact Htc|exact Hrr|side|side]. }
  rewrite Es in Hlt |- *. rewrite En.
  assert (between (pow2 (-30)) 1 (literal 1 1000000000)) as (b & Eb & _ & Hb & _).
  { apply round_between; [rep 1%Z (-30)%Z|done|side|side]. }
  rewrite Eb in Hlt. apply num_lt_Fin in Hlt. pose proof (pow2_pos (-30)) as Hpos.
  assert (0 < s) as Hs by lra. cbn [num_div].
  assert ((Qnum s =? 0)%Z = false) as ->.
  { apply Z.eqb_neq. intros Hz. apply Qnum_zero in Hz. lra. }
  assert (pow2 144 * pow2 (-30) == pow2 114) as H134 by side. pose proof (pow2_pos 134) as Hp134.
  apply round_between; [rep (-1)%Z 144%Z|rep 1%Z 144%Z| |].
  - apply Qle_shift_div_l; [exact Hs|]. nra.
  - apply Qle_shift_div_r; [exact Hs|]. nra.
Qed.

Section bounded.
Context `{ExpLaws}.

(** The reported speed the code keeps, when it keeps one. *)
Lemma reported_between f s : plausible_fix f -> fix_speed f = Some s ->
  num_is_finite s && num_le (num_of_Z 0) s = true -> between 0 (pow2 20) s.
Proof.
  intros (_ & _ & Hs) Es Hr. destruct (Hs s Es) as [Hd Hle].
  apply andb_true_iff in Hr as [Hf H0']. destruct s as [| | |q]; try discriminate.
  apply num_le_Fin in Hle, H0'. apply between_intro; [exact Hd|exact H0'|].
  assert (pow2 20 == inject_Z (2 ^ 20)) as -> by side. exact Hle.
Qed.

Lemma accuracy_between f : plausible_fix f -> num_le (fix_accuracy f) (num_of_Z 200) = true ->
  between 5 200 (if num_is_finite (fix_accuracy f) then num_max (fix_accuracy f) MIN_ACCURACY_METERS
                 else MIN_ACCURACY_METERS).
Proof.
  intros (_ & Hd & _) Hle.
  assert (between 5 200 MIN_ACCURACY_METERS) as Hmin by (apply between_intro; [rep 5%Z 0%Z|side|side]).
  destruct (fix_accuracy f) as [| | |q]; try exact Hmin. cbn [num_is_finite].
  apply num_le_Fin in Hle. change MIN_ACCURACY_METERS with (Fin 5). unfold num_max. case_match eqn:E; [exact Hmin|].
  apply num_lt_Fin_false in E. by apply between_intro.
Qed.

Lemma fresh_estimate_ok f along reported w : fixSchema f = true ->
  between 0 (pow2 50) along -> between (pow2 (-16)) (pow2 (-4)) w ->
  (forall s, reported = Some s -> between 0 (pow2 20) s) ->
  estimate_ok (fresh_estimate f along reported w).
Proof.
  intros Hf Ha Hw Hr.
  assert (forall lo hi, lo <= 0 -> 0 <= hi -> between lo hi (num_of_Z 0)) as Hzero
    by (intros; by apply between_intro).
  unfold fixSchema in Hf. apply andb_true_iff in Hf as [_ Hts].
  unfold estimate_ok, fresh_estimate. cbn.
  split_and!; [exact Hts| |apply Hzero; side| |apply Hzero; side|apply Hzero; side| | |].
  - eapply between_weaken; [exact Hw|side|side].
  - eapply between_weaken; [exact Ha|side|side].
  - destruct reported; [by apply Hr|apply Hzero; side].
  - destruct reported; [by apply between_intro|apply Hzero; side].
  - destruct reported; [|apply Hzero; side]. eapply between_weaken; [by apply Hr|side|side].
Qed.

(** One fix after another within the window the fit spans. *)
Lemma step_between t1 t2 : let dt := (num_of_Z (t2 - t1) / num_of_Z 1000)%num in
  num_le dt (num_of_Z 0) = false -> num_lt (num_of_Z 15) dt = false -> between (pow2 (-10)) 15 dt.
Proof.
  cbv zeta. cbn [num_of_Z num_div]. change (Qnum (inject_Z 1000) =? 0)%Z with false. cbv iota.
  intros H1 H2. set (q := inject_Z (t2 - t1) / inject_Z 1000) in *.
  assert (q == inject_Z (t2 - t1) * (1 # 1000)) as Hq by (unfold q; field).
  destruct (Z_le_gt_dec (t2 - t1) 0) as [Hle|Hgt].
  - exfalso. assert (num_le (round_double q) (Fin 0) = true) as Hl.
    { apply round_le; [done|]. rewrite Hq. assert (inject_Z (t2 - t1) <= 0); [|lra].
      change 0 with (inject_Z 0). by rewrite <- Zle_Qle. }
    change (num_of_Z 0) with (Fin 0) in H1. congruence.
  - assert (1 <= inject_Z (t2 - t1)) as Hge by (change 1 with (inject_Z 1); rewrite <- Zle_Qle; lia).
    assert (num_le (Fin (pow2 (-10))) (round_double q) = true) as Hl.
    { apply round_ge; [rep 1%Z (-10)%Z|]. rewrite Hq. assert (pow2 (-10) <= 1 # 1000) by side. lra. }
    pose proof (round_is_double q) as Hd.
    destruct (round_double q) as [| | |r]; try discriminate.
    apply num_le_Fin in Hl. apply num_lt_Fin_false in H2. by apply between_intro.
Qed.

(** A fix moves the estimate within its range. *)
Lemma navigationSpeed_bounded previous f along :
  plausible_fix f -> num_le (fix_accuracy f) (num_of_Z 200) = true -> between 0 (pow2 50) along ->
  (forall e, previous = Some e -> estimate_ok e) ->
  let r := navigationSpeed previous f along in
  between 0 (pow2 144) r.1 /\ (forall e, r.2 = Some e -> estimate_ok e).
Proof.
  intros Hf Hcap Halong Hprev. unfold navigationSpeed.
  set (reported := match fix_speed f with Some s => _ | None => None end).
  assert (forall s, reported = Some s -> between 0 (pow2 20) s) as Hrep.
  { intros s. unfold reported. destruct (fix_speed f) as [s'|] eqn:Es; [|discriminate].
    case_match eqn:E; [|discriminate]. intros [= <-]. by apply (reported_between f). }
  assert (forall x, between 0 (pow2 144) x -> between 0 (pow2 144) (default x reported)) as Hdefault.
  { intros x Hx. destruct reported as [s|]; [|exact Hx].
    eapply between_weaken; [by apply Hrep|side|side]. }
  assert (between 0 (pow2 144) (num_of_Z 0)) as Hzero by (apply between_intro; [done|side|side]).
  assert (between 0 (pow2 144) (match previous with Some p => se_speedMps p | None => num_of_Z 0 end)) as Hpspeed.
  { destruct previous as [p|]; [|exact Hzero]. apply (Hprev p eq_refl). }
  destruct (fix_coasted f); [exact (conj (Hdefault _ Hpspeed) Hprev)|].
  destruct (bool_decide _ && _) eqn:Edt; [exact (conj Hpspeed Hprev)|].
  pose proof (weight_between _ (accuracy_between f Hf Hcap)) as Hw.
  set (w := (1 / num_square _)%num). change (between (pow2 (-16)) (pow2 (-4)) w) in Hw.
  clearbody w. cbv zeta.
  assert (estimate_ok (fresh_estimate f along reported w)) as Hfresh
    by (apply fresh_estimate_ok; [apply Hf|done|done|done]).
  assert (forall e, Some (fresh_estimate f along reported w) = Some e -> estimate_ok e) as Hfresh'
    by (intros e [= <-]; exact Hfresh).
  destruct previous as [p|]; [|exact (conj (Hdefault _ Hzero) Hfresh')].
  set (dt := (num_of_Z (fix_timestampMs f - se_timestampMs p) / 1000)%num) in *.
  destruct (num_lt RESET_AFTER_SECONDS dt || _) eqn:Ereset; [exact (conj (Hdefault _ Hzero) Hfresh')|].
  cbn in Edt. apply orb_false_iff in Ereset as [Ereset _].
  assert (between (pow2 (-10)) 15 dt) as Hdt by by apply step_between.
  destruct (Hprev p eq_refl) as (_ & Hpw & Hpage & Hpmean & Hpvar & Hpcov & Hprsp & Hprw & _).
  pose proof (total_between _ _ _ Hpw Hw Hdt) as [Htotal _].
  pose proof (variance_between _ _ (se_meanAgeSeconds p) _ (se_varianceSeconds p) Hpw Hw Hdt Hpage Hpvar) as Hvar.
  pose proof (covariance_between _ _ _ _ along _ _ Hpw Hw Hdt Hpage Halong Hpmean Hpcov) as Hcov.
  assert (between 0 (pow2 20) (default (se_reportedSpeedMps p) reported)) as Hrsp
    by (destruct reported; [by apply Hrep|exact Hprsp]).
  set (rw := match reported with None => _ | Some _ => 1%num end).
  assert (between 0 1 rw) as Hrw.
  { unfold rw. destruct reported; [apply between_intro; [done|side|side]|].
    apply between_mul_pos with (a := 0) (b := 1) (c := 0) (d := 1 - pow2 (-12));
      [done|done|side|side|exact Hprw| |side|side].
    apply decay_between; [exact Hdt|by right]. }
  set (est := if num_lt _ _ then _ else _).
  assert (between 0 (pow2 144) (num_max 0%num est)) as Hest.
  { assert (between (- pow2 144) (pow2 144) est) as Hes.
    { unfold est. destruct (num_lt (literal 1 1000000000) _) eqn:Eslope.
      - exact (estimated_between _ _ _ _ _ _ Htotal Hvar Hcov Hrw Hrsp eq_refl Eslope).
      - eapply between_weaken; [exact Hpspeed|side|side]. }
    destruct Hes as (q & -> & Hq & _ & Hq2). unfold num_max.
    destruct (0 <? Fin q)%num eqn:E; [|exact Hzero].
    apply num_lt_Fin in E. apply between_intro; [exact Hq|lra|exact Hq2]. }
  clearbody rw est. split; [by apply Hdefault|]. intros e He. injection He as <-. unfold estimate_ok. cbn [se_timestampMs se_weight
    se_meanAgeSeconds se_meanAlongMeters se_varianceSeconds se_covarianceMetersSeconds
    se_reportedSpeedMps se_reportedSpeedWeight se_speedMps].
  pose proof (meanAge_between _ _ _ _ Hpw Hw Hdt Hpage) as Hage.
  pose proof (meanAlong_between _ _ _ _ _ Hpw Hw Hdt Halong Hpmean) as Hmean.
  split_and!; [|exact Htotal|exact Hage|exact Hmean|exact Hvar|exact Hcov|exact Hrsp|exact Hrw|by apply Hdefault].
  destruct Hf as [Hf _]. unfold fixSchema in Hf. by apply andb_true_iff in Hf as [_ Hf].
Qed.
(** The speed filter never leaves its range: from an estimate in range, a fix
    the accuracy cap lets through and any position along the route, the speed is a
    finite nonnegative number and the next estimate is in range again, however long
    the journey; so no running sum overflows to infinity or decays to [NaN]. *)
Theorem speed_estimate_stays_bounded previous f along :
  plausible_fix f -> num_le (fix_accuracy f) (num_of_Z 200) = true -> between 0 (pow2 50) along ->
  (forall e, previous = Some e -> estimate_ok e) ->
  let r := navigationSpeed previous f along in
  between 0 (pow2 144) r.1 /\ (forall e, r.2 = Some e -> estimate_ok e).
Proof. apply navigationSpeed_bounded. Qed.
End bounded.

(** An estimate in range is one the session schema reads back. *)
Lemma estimate_ok_readable e : estimate_ok e -> speedEstimateSchema e = true.
Proof.
  intros (Hts & Hw & Ha & Hm & Hv & Hc & Hr & Hrw & Hs). unfold speedEstimateSchema.
  assert (forall hi x, between 0 hi x -> nonnegative x = true) as Hnn.
  { intros hi x Hx. by apply (between_nonnegative 0 hi). }
  rewrite Hts, (between_finite _ _ _ Hw), (between_finite _ _ _ Ha), (between_finite _ _ _ Hc).
  rewrite (Hnn _ _ Hm), (Hnn _ _ Hv), (Hnn _ _ Hr), (Hnn _ _ Hs).
  assert (num_lt (num_of_Z 0) (se_weight e) = true) as ->.
  { destruct Hw as (q & -> & _ & Hq & _). apply num_lt_Fin. pose proof (pow2_pos (-16)). change (inject_Z 0) with 0. lra. }
  assert (num_le (se_meanAgeSeconds e) (num_of_Z 0) = true) as ->.
  { destruct Ha as (q & -> & _ & _ & Hq). by apply num_le_Fin. }
  assert (finite_within 0 1 (se_reportedSpeedWeight e) = true) as ->; [|done].
  destruct Hrw as (q & -> & _ & Hq1 & Hq2). unfold finite_within, finite_min. cbn [num_is_finite].
  rewrite !andb_true_iff. split_and!; [done| |]; by apply num_le_Fin.
Qed.

(** ** Witness *)

#[export] Instance sample_exp : ExpLaws.
Proof.
  split. intros x _ _. apply round_between; [done|rep 4095%Z (-12)%Z|side|side].
Qed.

Definition slow_fix (t : Z) : FixInput :=
  {| fix_coords := (num_of_Z 8, num_of_Z 50); fix_accuracy := num_of_Z 12; fix_heading := None;
     fix_speed := None; fix_timestampMs := t; fix_coasted := false |}.

(** Two positions twenty metres and two seconds apart. *)
Lemma speed_estimate_stays_bounded_witness :
  let first := navigationSpeed None (slow_fix 1000) (num_of_Z 100) in
  plausible_fix (slow_fix 3000) /\
  between 0 (pow2 144) (navigationSpeed first.2 (slow_fix 3000) (num_of_Z 120)).1 /\
  num_lt (num_of_Z 0) (navigationSpeed first.2 (slow_fix 3000) (num_of_Z 120)).1 = true.
Proof.
  assert (forall t, safeInteger t = true -> plausible_fix (slow_fix t)) as Hp.
  { intros t Ht. split_and!; [unfold fixSchema; cbn; by rewrite Ht| |done].
    by apply representable_Z. }
  assert (forall n, (0 <= n <= 1000)%Z -> between 0 (pow2 50) (num_of_Z n)) as Hb.
  { intros n Hn. apply between_intro; [apply representable_Z; lia| |].
    - change 0 with (inject_Z 0). rewrite <- Zle_Qle. lia.
    - rewrite pow2_Z by lia. rewrite <- Zle_Qle. lia. }
  pose proof (speed_estimate_stays_bounded None (slow_fix 1000) (num_of_Z 100) (Hp 1000%Z eq_refl)
    eq_refl (Hb 100%Z ltac:(lia)) ltac:(discriminate)) as Hfirst.
  cbv zeta in Hfirst |- *. set (first := navigationSpeed None (slow_fix 1000) (num_of_Z 100)) in *.
  split; [exact (Hp 3000%Z eq_refl)|]. split; [|by vm_compute].
  exact (proj1 (speed_estimate_stays_bounded first.2 (slow_fix 3000) (num_of_Z 120)
    (Hp 3000%Z eq_refl) eq_refl (Hb 120%Z ltac:(lia)) (proj2 Hfirst))).
Defined.
