(* ===== verification/Snapshot.v ===== *)
(** * What the page is told about a session

    apps/mobile/src/navigation/snapshots (groundSnapshot.ts, transitSnapshot.ts),
    the route identity of flowProjection.ts and the secret-stripping projection
    of packages/core/src/navigation/transitPackage.ts. *)

From S2P Require Import Prelude Protocol Session.

(** ** Route identity *)

(** [Math.round(x * 1e5)], a double product rounded to an integer. *)
Definition quantise (x : number) : Z :=
  match num_mul x (num_of_Z 100000) with Fin q => q_round q | _ => 0 end.

(** One step of the hash: [((hash << 5) + hash + v) | 0]. *)
Definition hash_step (hash v : Z) : Z := to_int32 (to_int32 (Z.shiftl hash 5) + hash + v).

Definition routeFingerprint (geometry : list LngLat) : string :=
  let hash := foldl (fun h p => hash_step (hash_step h (quantise p.1)) (quantise p.2))
                5381 geometry in
  (show_Z (Z.of_nat (length geometry)) ++ ":" ++ toString36 (to_uint32 hash))%string.

(** ** Stripping secrets *)

Definition SECRET_KEYS : list string := ["refreshToken"; "refresh_token"; "token"].

(** [strip(value, depth)] *)
Fixpoint strip (value : json) (depth : nat) : json :=
  if (32 <? depth)%nat then value
  else match value with
       | JArr items => JArr (map (fun item => strip item (S depth)) items)
       | JObj fs =>
           JObj ((fix go fs := match fs with
                               | [] => []
                               | (k, child) :: r =>
                                   if includes k SECRET_KEYS then go r
                                   else (k, strip child (S depth)) :: go r
                               end) fs)
       | _ => value
       end.

Definition stripTransitSecretsForSnapshot (value : json) : json := strip value 0.

(** ** Ground snapshots *)

Record GroundFullSnapshot := {
  gf_sessionId : string;
  gf_revision : Z;
  gf_status : SessionStatus;
  gf_mode : GroundMode;
  gf_routeFingerprint : string;
  gf_route : Route;
  gf_alternatives : list Route;
  gf_routeProvider : option string;
  gf_routeSelectionIntent : RouteSelectionIntent;
  gf_progress : option (list (string * json));
  gf_weakGps : bool;
  gf_offRoute : bool;
  gf_coasting : bool;
  gf_currentSpeedLimit : option number;
  gf_settings : GroundNavigationSettings;
  gf_locale : Locale;
  gf_units : Units;
  gf_connectivity : Connectivity;
  gf_permissionMode : PermissionMode;
  gf_reroute : RerouteRuntime;
}.

Record GroundProgressSnapshot := {
  gg_sessionId : string;
  gg_revision : Z;
  gg_routeFingerprint : string;
  gg_status : SessionStatus;
  gg_progress : option (list (string * json));
  gg_weakGps : bool;
  gg_offRoute : bool;
  gg_coasting : bool;
  gg_currentSpeedLimit : option number;
  gg_connectivity : Connectivity;
  gg_reroute : RerouteRuntime;
}.

(** An empty provider name is falsy and is left out. *)
Definition non_empty (o : option string) : option string :=
  match o with Some s => if String.eqb s "" then None else Some s | None => None end.

Definition groundFullSnapshot (s : MobileNavigationSession) (p : GroundPayload)
    : GroundFullSnapshot :=
  let startPackage := g_startPackage p in
  {| gf_sessionId := sessionId s;
     gf_revision := revision s;
     gf_status := status s;
     gf_mode := gp_mode startPackage;
     gf_routeFingerprint := routeFingerprint (route_geometry (gp_route startPackage));
     gf_route := gp_route startPackage;
     gf_alternatives := gp_alternatives startPackage;
     gf_routeProvider := non_empty (gp_routeProvider startPackage);
     gf_routeSelectionIntent := gp_routeSelectionIntent startPackage;
     gf_progress := g_progress p;
     gf_weakGps := g_weakGps p;
     gf_offRoute := g_offRoute p;
     gf_coasting := g_coasting p;
     gf_currentSpeedLimit := g_currentSpeedLimit p;
     gf_settings := gp_settings startPackage;
     gf_locale := locale s;
     gf_units := units s;
     gf_connectivity := connectivity s;
     gf_permissionMode := permissionMode s;
     gf_reroute := g_reroute p |}.

Definition groundProgressSnapshot (s : MobileNavigationSession) (p : GroundPayload)
    : GroundProgressSnapshot :=
  {| gg_sessionId := sessionId s;
     gg_revision := revision s;
     gg_routeFingerprint := routeFingerprint (route_geometry (gp_route (g_startPackage p)));
     gg_status := status s;
     gg_progress := g_progress p;
     gg_weakGps := g_weakGps p;
     gg_offRoute := g_offRoute p;
     gg_coasting := g_coasting p;
     gg_currentSpeedLimit := g_currentSpeedLimit p;
     gg_connectivity := connectivity s;
     gg_reroute := g_reroute p |}.

Record SnapshotView := {
  view_sessionId : string;
  view_revision : Z;
  view_routeFingerprint : string;
  view_full : GroundFullSnapshot;
}.

Inductive GroundSnapshot :=
  | GroundFull (f : GroundFullSnapshot)
  | GroundProgress (p : GroundProgressSnapshot).

(** The view after a delta: the full snapshot with the moving fields replaced. *)
Definition fold_progress (view : SnapshotView) (p : GroundProgressSnapshot) : SnapshotView :=
  let f := view_full view in
  {| view_sessionId := view_sessionId view;
     view_revision := gg_revision p;
     view_routeFingerprint := view_routeFingerprint view;
     view_full :=
       {| gf_sessionId := gf_sessionId f;
          gf_revision := gg_revision p;
          gf_status := gg_status p;
          gf_mode := gf_mode f;
          gf_routeFingerprint := gf_routeFingerprint f;
          gf_route := gf_route f;
          gf_alternatives := gf_alternatives f;
          gf_routeProvider := gf_routeProvider f;
          gf_routeSelectionIntent := gf_routeSelectionIntent f;
          gf_progress := gg_progress p;
          gf_weakGps := gg_weakGps p;
          gf_offRoute := gg_offRoute p;
          gf_coasting := gg_coasting p;
          gf_currentSpeedLimit := gg_currentSpeedLimit p;
          gf_settings := gf_settings f;
          gf_locale := gf_locale f;
          gf_units := gf_units f;
          gf_connectivity := gg_connectivity p;
          gf_permissionMode := gf_permissionMode f;
          gf_reroute := gg_reroute p |} |}.

(** [None] is the refusal [need-full-snapshot]. *)
Definition applyGroundSnapshot (current : option SnapshotView) (incoming : GroundSnapshot)
    : option SnapshotView :=
  match incoming with
  | GroundFull f =>
      Some {| view_sessionId := gf_sessionId f;
              view_revision := gf_revision f;
              view_routeFingerprint := gf_routeFingerprint f;
              view_full := f |}
  | GroundProgress p =>
      match current with
      | None => None
      | Some view =>
          if negb (String.eqb (gg_sessionId p) (view_sessionId view)) then None
          else if negb (String.eqb (gg_routeFingerprint p) (view_routeFingerprint view)) then None
          else if gg_revision p <=? view_revision view then None
          else Some (fold_progress view p)
      end
  end.

(** ** Transit snapshots *)

(** The transit engine's projection of a tick state onto a prepared itinerary
    ([transitProgressFromTick] over [prepareTransitProgress]). *)
Class TransitProgressEngine := {
  transit_progress : TransitTickState -> list (string * json) -> list (string * json);
}.

Record LiveStatus := { ls_refresh : RefreshStatus; ls_hasLiveToken : bool }.

Inductive AlightAvailability := AlertScheduled | AlertUnavailable | AlertDisabled.

Record TransitFullSnapshot := {
  tf_sessionId : string;
  tf_revision : Z;
  tf_status : SessionStatus;
  tf_itineraryFingerprint : string;
  tf_itinerary : json;
  tf_captures : list TransitLegCapture;
  tf_transitReplanOptions : json;
  tf_currentLegIndex : Z;
  tf_currentWalkStepIndex : Z;
  tf_phase : TransitPhase;
  tf_confidence : Confidence;
  tf_transitProgress : list (string * json);
  tf_settings : TransitNavigationSettings;
  tf_locale : Locale;
  tf_units : Units;
  tf_connectivity : Connectivity;
  tf_permissionMode : PermissionMode;
  tf_liveStatus : LiveStatus;
  tf_alightAlertAvailability : AlightAvailability;
}.

Record TransitProgressSnapshot := {
  tg_sessionId : string;
  tg_revision : Z;
  tg_itineraryFingerprint : string;
  tg_status : SessionStatus;
  tg_currentLegIndex : Z;
  tg_currentWalkStepIndex : Z;
  tg_phase : TransitPhase;
  tg_confidence : Confidence;
  tg_transitProgress : option (list (string * json));
  tg_connectivity : Connectivity;
  tg_liveStatus : LiveStatus;
}.

Definition liveStatus (p : TransitPayload) : LiveStatus :=
  {| ls_refresh := rf_status (p_refresh p);
     ls_hasLiveToken := match p_refreshToken p with Some _ => true | None => false end |}.

Definition alightAvailability (p : TransitPayload) : AlightAvailability :=
  if negb (transit_alightAlertsEnabled (tp_settings (p_startPackage p))) then AlertDisabled
  else match p_scheduledAlerts p with [] => AlertUnavailable | _ => AlertScheduled end.

(** [{ ...tickState, lastAcceptedFix }] when the session has one. *)
Definition tick_with_fix (t : TransitTickState) (f : option FixInput) : TransitTickState :=
  {| t_currentLegIndex := t_currentLegIndex t;
     t_currentWalkStepIndex := t_currentWalkStepIndex t;
     t_walkRevision := t_walkRevision t;
     t_phase := t_phase t;
     t_lastAcceptedFix := match f with Some _ => f | None => t_lastAcceptedFix t end;
     t_lastProgressAtMs := t_lastProgressAtMs t;
     t_legEnteredAtMs := t_legEnteredAtMs t;
     t_stopCursor := t_stopCursor t;
     t_alongMeters := t_alongMeters t;
     t_stopTracking := t_stopTracking t;
     t_reachedStepEnd := t_reachedStepEnd t;
     t_distanceToNextStepMeters := t_distanceToNextStepMeters t;
     t_progressConfidence := t_progressConfidence t;
     t_offPlan := t_offPlan t;
     t_lastActionId := t_lastActionId t;
     t_lastAction := t_lastAction t;
     t_spokenCueIds := t_spokenCueIds t;
     t_emittedEventIds := t_emittedEventIds t |}.

Section transit_snapshot.
Context `{TransitProgressEngine}.

(** The captures' own keys are fixed by their schema and none is a secret, so
    stripping leaves the typed value as it is. *)
Definition transitFullSnapshot (s : MobileNavigationSession) (p : TransitPayload)
    : TransitFullSnapshot :=
  let startPackage := p_startPackage p in
  let tickState := p_tickState p in
  {| tf_sessionId := sessionId s;
     tf_revision := revision s;
     tf_status := status s;
     tf_itineraryFingerprint := tp_itineraryFingerprint startPackage;
     tf_itinerary := stripTransitSecretsForSnapshot (JObj (tp_itinerary startPackage));
     tf_captures := tp_captures startPackage;
     tf_transitReplanOptions :=
       stripTransitSecretsForSnapshot
         (match tp_replanOptions startPackage with Some o => JObj o | None => JNull end);
     tf_currentLegIndex := t_currentLegIndex tickState;
     tf_currentWalkStepIndex := t_currentWalkStepIndex tickState;
     tf_phase := t_phase tickState;
     tf_confidence := p_confidence p;
     tf_transitProgress :=
       match p_progress p with
       | Some progress => progress
       | None => transit_progress (tick_with_fix tickState (lastAcceptedFix s))
                   (tp_itinerary startPackage)
       end;
     tf_settings := tp_settings startPackage;
     tf_locale := locale s;
     tf_units := units s;
     tf_connectivity := connectivity s;
     tf_permissionMode := permissionMode s;
     tf_liveStatus := liveStatus p;
     tf_alightAlertAvailability := alightAvailability p |}.

Definition transitProgressSnapshot (s : MobileNavigationSession) (p : TransitPayload)
    : TransitProgressSnapshot :=
  {| tg_sessionId := sessionId s;
     tg_revision := revision s;
     tg_itineraryFingerprint := tp_itineraryFingerprint (p_startPackage p);
     tg_status := status s;
     tg_currentLegIndex := t_currentLegIndex (p_tickState p);
     tg_currentWalkStepIndex := t_currentWalkStepIndex (p_tickState p);
     tg_phase := t_phase (p_tickState p);
     tg_confidence := p_confidence p;
     tg_transitProgress := p_progress p;
     tg_connectivity := connectivity s;
     tg_liveStatus := liveStatus p |}.
End transit_snapshot.

Inductive Snapshot :=
  | EmptySnapshot
  | SnapGround (s : GroundSnapshot)
  | SnapTransitFull (f : TransitFullSnapshot)
  | SnapTransitProgress (p : TransitProgressSnapshot).

(** NavigationCoordinator.snapshotOf: the one projection every response uses. *)
Definition snapshotOf `{TransitProgressEngine} (s : MobileNavigationSession) : Snapshot :=
  match payload s with
  | GroundSession p => SnapGround (GroundFull (groundFullSnapshot s p))
  | TransitSession p => SnapTransitFull (transitFullSnapshot s p)
  end.

(** ** Lemmas: stripping *)

(** The nesting depth of a value: a scalar is 0. *)
Fixpoint json_depth (j : json) : nat :=
  match j with
  | JArr items => S (foldr (fun i d => Nat.max (json_depth i) d) 0%nat items)
  | JObj fs => S (foldr (fun kv d => Nat.max (json_depth kv.2) d) 0%nat fs)
  | _ => 0%nat
  end.

(** No secret key anywhere in the value. *)
Fixpoint secret_free (j : json) : bool :=
  match j with
  | JArr items => forallb secret_free items
  | JObj fs => forallb (fun kv => negb (includes kv.1 SECRET_KEYS) && secret_free kv.2) fs
  | _ => true
  end.

Definition strip_fields (d : nat) (fs : list (string * json)) : list (string * json) :=
  map (fun kv => (kv.1, strip kv.2 d))
    (List.filter (fun kv => negb (includes kv.1 SECRET_KEYS)) fs).

Lemma strip_obj fs d :
  strip (JObj fs) d = if (32 <? d)%nat then JObj fs else JObj (strip_fields (S d) fs).
Proof.
  cbn [strip]. case_match; [done|]. f_equal.
  induction fs as [|[k v] r IH]; [done|]. unfold strip_fields. cbn [List.filter fst].
  destruct (includes k SECRET_KEYS); cbn [negb map fst snd]; [exact IH|].
  f_equal. exact IH.
Qed.

Lemma strip_arr items d :
  strip (JArr items) d =
  if (32 <? d)%nat then JArr items else JArr (map (fun i => strip i (S d)) items).
Proof. cbn [strip]. by case_match. Qed.

Lemma json_depth_elem j items : j ∈ items -> (json_depth j < json_depth (JArr items))%nat.
Proof.
  simpl. induction items as [|i r IH]; intros Hj; [set_solver|].
  apply elem_of_cons in Hj as [->|Hj]; simpl; [lia|]. specialize (IH Hj). lia.
Qed.

Lemma json_depth_field kv fs : kv ∈ fs -> (json_depth kv.2 < json_depth (JObj fs))%nat.
Proof.
  simpl. induction fs as [|i r IH]; intros Hj; [set_solver|].
  apply elem_of_cons in Hj as [->|Hj]; simpl; [lia|]. specialize (IH Hj). lia.
Qed.

Lemma strip_secret_free j d : (d + json_depth j <= 33)%nat -> secret_free (strip j d) = true.
Proof.
  revert d. induction j as [| | | |items IH|fs IH] using json_ind; intros d Hd;
    try (cbn; by case_match).
  - rewrite strip_arr. rewrite Forall_forall in IH.
    assert ((32 <? d)%nat = false) as -> by (apply Nat.ltb_ge; simpl in Hd; lia).
    simpl. apply forallb_Forall, Forall_map, Forall_forall. intros i Hi.
    apply IH; [done|]. apply json_depth_elem in Hi. lia.
  - rewrite strip_obj. rewrite Forall_forall in IH.
    assert ((32 <? d)%nat = false) as -> by (apply Nat.ltb_ge; simpl in Hd; lia).
    simpl. apply forallb_Forall. unfold strip_fields. apply Forall_map, Forall_forall.
    intros kv Hkv. apply list_elem_of_In, filter_In in Hkv as [Hin Hk].
    cbn [fst snd]. apply andb_true_iff. split; [exact Hk|].
    apply list_elem_of_In in Hin. apply IH; [done|]. apply json_depth_field in Hin. lia.
Qed.

Lemma strip_identity j d : secret_free j = true -> strip j d = j.
Proof.
  revert d. induction j as [| | | |items IH|fs IH] using json_ind; intros d Hj;
    try (cbn; by case_match).
  - rewrite strip_arr. case_match; [done|]. f_equal. simpl in Hj.
    apply forallb_Forall in Hj. rewrite <- (map_id items) at 2.
    apply map_ext_in. intros i Hi%list_elem_of_In.
    rewrite Forall_forall in IH, Hj. auto.
  - rewrite strip_obj. case_match; [done|]. f_equal. cbn [secret_free] in Hj.
    apply forallb_Forall in Hj. unfold strip_fields.
    induction fs as [|[k v] r IHr]; [done|].
    apply Forall_cons in IH as [IHv IH]. apply Forall_cons in Hj as [Hkv Hr].
    apply andb_true_iff in Hkv as [Hk Hv]. cbn [List.filter fst] in *.
    rewrite Hk. cbn [map fst snd]. rewrite IHr by done. f_equal. f_equal. by apply IHv.
Qed.
