(* ===== verification/Itinerary.v ===== *)
(** * A planned journey, as the code reads it

    The package's itinerary is a decoded object its schema does not look into; the
    engine reads it through the type TripItinerary of packages/mobility-core.  A
    value of another type than the declared one reads as a missing one here, except
    where the code would throw on it: a property of an absent place or leg. *)

From S2P Require Import Prelude Text Doubles NumberText Protocol Geodesy RouteMatcher Maneuver.
Notation Itinerary := (list (string * json)).

(** [value?.key] *)
Definition opt_field (key : string) (value : option json) : option json := value ≫= json_field key.

Definition type_error : string := "TypeError".

(** [value.key]: nothing and null have no properties. *)
Definition member (key : string) (value : option json) : outcome (option json) :=
  match value with
  | None | Some JNull => Throw type_error
  | Some j => Ok (json_field key j)
  end.

(** [a ?? b] for a text. *)
Definition text_or (b : string) (a : option json) : string := default b (json_string a).

(** A text field; null is a missing one. *)
Definition text_field (key : string) (value : option json) : option string :=
  json_string (opt_field key value).

(** [itinerary.legs ?? []] *)
Definition legs_of (itinerary : Itinerary) : list json :=
  match field "legs" itinerary with Some (JArr legs) => legs | _ => [] end.

(** [legs[index]] *)
Definition leg_at (legs : list json) (index : Z) : option json :=
  if index <? 0 then None else legs !! Z.to_nat index.

(** An addend of a sum: JavaScript counts null as nothing. *)
Definition addend (value : option json) : number :=
  match value with Some JNull => num_of_Z 0 | _ => json_number value end.

(** [leg.steps ?? []] *)
Definition leg_steps (leg : option json) : list json :=
  match opt_field "steps" leg with Some (JArr l) => l | _ => [] end.

Definition step_meters (step : json) : number := addend (json_field "distanceMeters" step).

(** [leg.geometry?.coordinates] *)
Definition leg_line (leg : option json) : option json := opt_field "coordinates" (opt_field "geometry" leg).

(** [leg.geometry?.coordinates?.[0]] *)
Definition leg_start (leg : option json) : option LngLat :=
  match leg_line leg with Some (JArr (j :: _)) => json_point j | _ => None end.

(** [leg.geometry?.coordinates?.at(-1)]: only arrays and texts have that method. *)
Definition leg_endpoint (leg : option json) : outcome (option LngLat) :=
  match leg_line leg with
  | None | Some JNull | Some (JStr _) => Ok None
  | Some (JArr l) => Ok (last l ≫= json_point)
  | Some _ => Throw type_error
  end.

(** A place's own position. *)
Definition place_lat (place : option json) : number := json_number (opt_field "lat" place).
Definition place_lng (place : option json) : number := json_number (opt_field "lng" place).

Definition is_text (text : string) (value : option json) : bool :=
  match json_string value with Some s => String.eqb s text | None => false end.

(** [isTransitRide] of processTransitFix.ts: a leg with a trip, or a line ridden. *)
Definition isTransitRide (leg : option json) : bool :=
  truthy (opt_field "tripId" leg)
  || (truthy (opt_field "route" leg) && negb (is_text "walking" (opt_field "mode" leg))).

(** [new Date(value).getTime()] *)
Class DateParser := { date_getTime : json -> number }.

(** * A journey that changes under the rider

    packages/core/src/navigation: the structural identity of an itinerary
    (transitPackage.ts), the merge of a refreshed itinerary (transitRefresh.ts) and
    the repair of a walking leg by a new route (transitWalkRepair.ts). *)

(** ** Objects *)

(** [{ ...record, [key]: value }] *)
Fixpoint set_key (key : string) (value : json) (fs : list (string * json)) : list (string * json) :=
  match fs with
  | [] => [(key, value)]
  | (k, v) :: r => if String.eqb k key then (k, value) :: r else (k, v) :: set_key key value r
  end.

Fixpoint drop_key (key : string) (fs : list (string * json)) : list (string * json) :=
  match fs with
  | [] => []
  | (k, v) :: r => if String.eqb k key then r else (k, v) :: drop_key key r
  end.

(** A property set to undefined is one the stored text does not have. *)
Definition put_key (key : string) (value : option json) (fs : list (string * json)) : list (string * json) :=
  match value with Some v => set_key key v fs | None => drop_key key fs end.

Definition fields_of (j : option json) : list (string * json) :=
  match j with Some (JObj fs) => fs | _ => [] end.

(** [{ ...a, ...b }] *)
Definition spread (a b : list (string * json)) : list (string * json) :=
  foldl (fun fs kv => set_key kv.1 kv.2 fs) a b.

(** Whether two values have the same text. *)
Fixpoint same_json (a b : json) {struct a} : bool :=
  match a, b with
  | JNull, JNull => true
  | JBool x, JBool y => Bool.eqb x y
  | JNum x, JNum y => num_eq x y
  | JStr x, JStr y => String.eqb x y
  | JArr x, JArr y =>
      (fix go x y := match x, y with
                     | [], [] => true
                     | a :: x, b :: y => same_json a b && go x y
                     | _, _ => false
                     end) x y
  | JObj x, JObj y =>
      (fix go x y := match x, y with
                     | [], [] => true
                     | (k, a) :: x, (k', b) :: y => String.eqb k k' && same_json a b && go x y
                     | _, _ => false
                     end) x y
  | _, _ => false
  end.

Definition same_value (a b : option json) : bool :=
  match a, b with
  | None, None => true
  | Some a, Some b => same_json a b
  | _, _ => false
  end.

(** ** The identity of a journey *)

(** A value in a template literal. *)
Definition show_value (value : option json) : string :=
  match value with
  | None => "undefined"
  | Some JNull => "null"
  | Some (JBool b) => if b then "true" else "false"
  | Some (JNum n) => show_number n
  | Some (JStr s) => s
  | Some (JArr _) | Some (JObj _) => ""
  end.

(** A value in a joined array: nothing and null leave no text. *)
Definition join_value (value : option json) : string :=
  match value with Some JNull | None => "" | _ => show_value value end.

(** [place?.stopId ?? `${place?.lng},${place?.lat}`] *)
Definition place_identity (place : option json) : string :=
  match opt_field "stopId" place with
  | None | Some JNull =>
      (show_value (opt_field "lng" place) ++ "," ++ show_value (opt_field "lat" place))%string
  | Some id => show_value (Some id)
  end.

Definition leg_identity (index : nat) (leg : json) : outcome string :=
  mode ← member "mode" (Some leg);
  Ok (join "|" [show_Z (Z.of_nat index); join_value mode; join_value (json_field "tripId" leg);
                place_identity (json_field "from" leg); place_identity (json_field "to" leg);
                join_value (json_field "scheduledStartTime" leg);
                join_value (json_field "scheduledEndTime" leg)]).

Fixpoint leg_identities (index : nat) (legs : list json) : outcome (list string) :=
  match legs with
  | [] => Ok []
  | leg :: r => part ← leg_identity index leg; parts ← leg_identities (S index) r; Ok (part :: parts)
  end.

(** [hash ^= c; hash = Math.imul(hash, 0x01000193) >>> 0] *)
Definition fnv_step (hash c : Z) : Z := to_uint32 (Z.lxor hash c * 16777619).

Definition fnv1a (seed : Z) (text : string) : Z := foldl fnv_step seed (code_units text).

Definition newline : string := String (Ascii.ascii_of_nat 10) "".

Definition transitItineraryFingerprint (itinerary : Itinerary) : outcome string :=
  parts ← leg_identities 0 (legs_of itinerary);
  Ok ("it-" ++ toString36 (fnv1a 2166136261 (join newline parts)) ++ "-"
      ++ show_Z (Z.of_nat (length parts)))%string.

(** ** Merging a refresh *)

(** [itinerary.legs[index]] *)
Definition required_leg (itinerary : Itinerary) (index : Z) : outcome (option json) :=
  match field "legs" itinerary with
  | None | Some JNull => Throw type_error
  | Some _ => Ok (leg_at (legs_of itinerary) index)
  end.

Definition is_walking (leg : option json) : bool := is_text "walking" (opt_field "mode" leg).

Definition same_target (old fresh : option json) : outcome bool :=
  to ← member "to" old; to' ← member "to" fresh;
  lng ← member "lng" to; lng' ← member "lng" to';
  Ok (same_value lng lng' && same_value (opt_field "lat" to) (opt_field "lat" to')
      && same_value (opt_field "platformCode" to) (opt_field "platformCode" to')).

(** What a repaired walk keeps of its own. *)
Definition WALK_FIELDS : list string :=
  ["geometry"; "steps"; "distanceMeters"; "durationSeconds"; "contributors"; "fieldContributors"].

Definition keep_walk (old fresh : option json) : json :=
  JObj (foldl (fun fs key => put_key key (opt_field key old) fs) (fields_of fresh) WALK_FIELDS).

(** [legs.map((leg, i) => i === index ? value : leg)] in the itinerary. *)
Definition replace_leg (itinerary : Itinerary) (index : Z) (value : json) : Itinerary :=
  set_key "legs" (JArr (<[Z.to_nat index := value]> (legs_of itinerary))) itinerary.

Definition mergeTransitRefresh (current next : Itinerary) (activeLegIndex walkRevision : Z)
    : outcome (option (Itinerary * bool)) :=
  before ← transitItineraryFingerprint current;
  after ← transitItineraryFingerprint next;
  if negb (String.eqb before after) then Ok None
  else
    old ← required_leg current activeLegIndex;
    fresh ← required_leg next activeLegIndex;
    if negb (is_walking old && is_walking fresh) then Ok (Some (next, false))
    else
      sameTarget ← same_target old fresh;
      if (0 <? walkRevision) && sameTarget
      then Ok (Some (replace_leg next activeLegIndex (keep_walk old fresh), false))
      else Ok (Some (next, negb sameTarget
                           || negb (same_value (opt_field "geometry" old) (opt_field "geometry" fresh))
                           || negb (same_value (opt_field "steps" old) (opt_field "steps" fresh)))).

(** ** Repairing a walk *)

Definition DIRECTIONS : list (string * string) :=
  [("left", "LEFT"); ("right", "RIGHT"); ("slight left", "SLIGHTLY_LEFT"); ("slight right", "SLIGHTLY_RIGHT");
   ("sharp left", "HARD_LEFT"); ("sharp right", "HARD_RIGHT"); ("uturn", "UTURN_LEFT")].

Definition walkDirection (maneuver : option json) : string :=
  let type name := is_text name (opt_field "type" maneuver) in
  let modifier := text_or "" (opt_field "modifier" maneuver) in
  if type "depart" then "DEPART"
  else if type "stairs" then "STAIRS"
  else if type "elevator" then "ELEVATOR"
  else if type "roundabout" || type "rotary"
  then if String.eqb modifier "left" then "CIRCLE_COUNTERCLOCKWISE" else "CIRCLE_CLOCKWISE"
  else match List.find (fun d => String.eqb d.1 modifier) DIRECTIONS with
       | Some d => d.2
       | None => "CONTINUE"
       end.

Definition point_json (p : LngLat) : json := JArr [JNum p.1; JNum p.2].

(** The receipts of a route's geometry (contributors.ts of extension-contracts). *)
Class RouteReceipts := { contributorsForField : Route -> string -> option json }.

Section repair.
Context `{MathFunctions} `{RouteReceipts}.

Definition walk_step_json (step : json) : json :=
  let keep key := put_key key (json_field key step) in
  JObj (keep "fieldContributors" (keep "contributors"
         (put_key "durationSeconds" (json_field "duration" step)
           (put_key "distanceMeters" (json_field "distance" step)
             (keep "coordinates"
               (put_key "instructionText" (json_field "instruction" step)
                 [("instruction", JStr (walkDirection (json_field "maneuver" step)))])))))).

Definition repaired_leg (leg : option json) (route : Route) : json :=
  let geometry := JObj (put_key "contributors" (contributorsForField route "geometry")
                          [("type", JStr "LineString");
                           ("coordinates", JArr (map point_json (route_geometry route)))]) in
  let merged := JObj (spread (fields_of (opt_field "fieldContributors" leg))
                        (fields_of (field "fieldContributors" (route_extra route)))) in
  JObj (set_key "steps" (JArr (map walk_step_json (route_steps route)))
         (set_key "fieldContributors" merged
           (put_key "contributors" (field "contributors" (route_extra route))
             (set_key "durationSeconds" (JNum (route_duration route))
               (set_key "distanceMeters" (JNum (route_distance route))
                 (set_key "geometry" geometry (fields_of leg))))))).

Definition repairTransitWalk (itinerary : Itinerary) (index : Z) (route : Route) : outcome (option Itinerary) :=
  leg ← required_leg itinerary index;
  if negb (is_walking leg) || negb (String.eqb (route_mode route) "walking") then Ok None
  else match last (route_geometry route) with
  | None => Ok None
  | Some end_ =>
      if (length (route_geometry route) <? 2)%nat then Ok None
      else
        to ← member "to" leg;
        _ ← member "lng" to;
        if negb (num_is_finite (place_lng to)) || negb (num_is_finite (place_lat to))
           || num_lt (num_of_Z 50) (haversineDistance end_ (place_lng to, place_lat to))
        then Ok None
        else Ok (Some (replace_leg itinerary index (repaired_leg leg route)))
  end.
End repair.

(** ** Facts *)

Lemma field_set_key k k' v fs : field k (set_key k' v fs) = if String.eqb k' k then Some v else field k fs.
Proof.
  induction fs as [|[k1 v1] fs IH]; cbn [set_key field].
  { done. }
  destruct (String.eqb_spec k1 k') as [->|Hne]; cbn [field]; [by destruct (String.eqb k' k)|].
  rewrite IH. destruct (String.eqb_spec k1 k) as [->|]; [|done].
  by destruct (String.eqb_spec k' k) as [->|].
Qed.

Lemma field_drop_key k k' fs : k' <> k -> field k (drop_key k' fs) = field k fs.
Proof.
  intros Hne. induction fs as [|[k1 v1] fs IH]; cbn [drop_key field]; [done|].
  destruct (String.eqb_spec k1 k') as [->|].
  - by destruct (String.eqb_spec k' k).
  - cbn [field]. by rewrite IH.
Qed.

Lemma field_put_key k k' v fs : k' <> k -> field k (put_key k' v fs) = field k fs.
Proof.
  intros Hne. destruct v; cbn [put_key]; [|by apply field_drop_key].
  rewrite field_set_key. by destruct (String.eqb_spec k' k).
Qed.

Lemma field_put_all k keys (value : string -> option json) fs : k ∉ keys ->
  field k (foldl (fun fs key => put_key key (value key) fs) fs keys) = field k fs.
Proof.
  revert fs. induction keys as [|k' keys IH]; intros fs Hk; cbn [foldl]; [done|].
  apply not_elem_of_cons in Hk as [Hne Hk]. rewrite IH by done. by apply field_put_key.
Qed.

(** The properties that name a leg. *)
Definition IDENTITY_FIELDS : list string :=
  ["mode"; "tripId"; "from"; "to"; "scheduledStartTime"; "scheduledEndTime"].

Lemma leg_identity_same i fs fs' :
  (forall k, k ∈ IDENTITY_FIELDS -> field k fs' = field k fs) ->
  leg_identity i (JObj fs') = leg_identity i (JObj fs).
Proof.
  intros Hk. unfold leg_identity. cbn [member json_field mbind outcome_bind].
  by rewrite !Hk by (unfold IDENTITY_FIELDS; set_solver).
Qed.

Lemma leg_identities_insert n k legs leg v : legs !! k = Some leg ->
  (forall i, leg_identity i v = leg_identity i leg) ->
  leg_identities n (<[k := v]> legs) = leg_identities n legs.
Proof.
  revert n k. induction legs as [|l legs IH]; intros n [|k] Hl Hv; try done.
  - injection Hl as ->. change (<[0%nat := v]> (leg :: legs)) with (v :: legs).
    cbn [leg_identities]. by rewrite Hv.
  - change (<[S k := v]> (l :: legs)) with (l :: <[k := v]> legs).
    cbn [leg_identities]. by rewrite (IH (S n) k).
Qed.

Lemma legs_of_replace itinerary i v : legs_of (replace_leg itinerary i v) = <[Z.to_nat i := v]> (legs_of itinerary).
Proof. unfold replace_leg, legs_of at 1. by rewrite field_set_key. Qed.

Lemma leg_at_lookup legs i leg : leg_at legs i = Some leg -> 0 <= i /\ legs !! Z.to_nat i = Some leg.
Proof. unfold leg_at. destruct (i <? 0) eqn:E; [done|]. apply Z.ltb_ge in E. done. Qed.

Lemma leg_at_other legs i j v : 0 <= i -> j <> i -> leg_at (<[Z.to_nat i := v]> legs) j = leg_at legs j.
Proof.
  intros Hi Hj. unfold leg_at. destruct (j <? 0) eqn:E; [done|]. apply Z.ltb_ge in E.
  rewrite list_lookup_insert_ne; [done|]. lia.
Qed.

(** Replacing a leg by one of the same name keeps the journey's. *)
Lemma fingerprint_replace itinerary i leg fs : leg_at (legs_of itinerary) i = Some (JObj leg) ->
  (forall k, k ∈ IDENTITY_FIELDS -> field k fs = field k leg) ->
  transitItineraryFingerprint (replace_leg itinerary i (JObj fs)) = transitItineraryFingerprint itinerary.
Proof.
  intros [_ Hl]%leg_at_lookup Hk. unfold transitItineraryFingerprint. rewrite legs_of_replace.
  erewrite leg_identities_insert; [done|exact Hl|]. intros j. by apply leg_identity_same.
Qed.

Lemma walking_object leg : is_walking leg = true -> exists fs, leg = Some (JObj fs).
Proof. destruct leg as [[]|]; try done. by eexists. Qed.

Lemma required_leg_spec itinerary i leg : required_leg itinerary i = Ok leg -> leg = leg_at (legs_of itinerary) i.
Proof. unfold required_leg. destruct (field _ _) as [[]|]; try done; by intros <-%Ok_inj. Qed.

Lemma put_all_keep old k fs : k ∈ WALK_FIELDS -> is_Some (opt_field k old) ->
  field k (foldl (fun fs key => put_key key (opt_field key old) fs) fs WALK_FIELDS) = opt_field k old.
Proof.
  intros Hk [v Hv]. unfold WALK_FIELDS in *. cbn [foldl].
  repeat (apply elem_of_cons in Hk as [->|Hk];
          [rewrite ?field_put_key by done; rewrite Hv; cbn [put_key]; by rewrite field_set_key|]).
  by apply elem_of_nil in Hk.
Qed.

(** A refresh never changes which journey the rider is on: what it leaves has the name
    of the journey it replaces, and every leg but the active one is the fresh one.  A
    walk that was repaired to the place it still leads to keeps its line and its
    steps, and is not restarted; only a walk can be. *)
Theorem a_refresh_keeps_the_journey current next i walkRevision merged reset :
  mergeTransitRefresh current next i walkRevision = Ok (Some (merged, reset)) ->
  (exists name, transitItineraryFingerprint current = Ok name /\ transitItineraryFingerprint merged = Ok name) /\
  length (legs_of merged) = length (legs_of next) /\
  (forall j, j <> i -> leg_at (legs_of merged) j = leg_at (legs_of next) j) /\
  (reset = true -> is_walking (leg_at (legs_of current) i) = true) /\
  (0 < walkRevision -> same_target (leg_at (legs_of current) i) (leg_at (legs_of next) i) = Ok true ->
     is_walking (leg_at (legs_of current) i) && is_walking (leg_at (legs_of next) i) = true ->
     reset = false /\
     forall k, k ∈ WALK_FIELDS -> is_Some (opt_field k (leg_at (legs_of current) i)) ->
       opt_field k (leg_at (legs_of merged) i) = opt_field k (leg_at (legs_of current) i)).
Proof.
  unfold mergeTransitRefresh. intros (name & Hname & Hm)%outcome_bind_ok.
  apply outcome_bind_ok in Hm as (after & Hafter & Hm).
  destruct (String.eqb_spec name after) as [->|]; cbn [negb] in Hm; [|done].
  apply outcome_bind_ok in Hm as (old & Hold%required_leg_spec & Hm).
  apply outcome_bind_ok in Hm as (fresh & Hfresh%required_leg_spec & Hm). rewrite <- Hold, <- Hfresh.
  destruct (is_walking old && is_walking fresh) eqn:Ew; cbn [negb] in Hm.
  2:{ apply Ok_inj in Hm. simplify_eq. split_and!; [by exists after|done|done|done|done]. }
  apply outcome_bind_ok in Hm as (same & Hsame & Hm). pose proof Ew as [Hw1 Hw2]%andb_true_iff.
  destruct (0 <? walkRevision) eqn:Er, same; cbn [andb] in Hm; apply Ok_inj in Hm; simplify_eq.
  2-4: split_and!; [by exists after|done|done|done|intros Hr Hs; apply Z.ltb_lt in Hr; congruence].
  destruct (walking_object _ Hw2) as [fs Hfresh].
  split_and!; [| | |done|].
  - exists after. split; [done|]. unfold keep_walk. rewrite <- Hafter, Hfresh.
    eapply fingerprint_replace; [exact Hfresh|]. intros k Hk. cbn [fields_of].
    apply field_put_all. unfold IDENTITY_FIELDS, WALK_FIELDS in *. set_solver.
  - by rewrite legs_of_replace, length_insert.
  - intros j Hj. rewrite legs_of_replace. apply leg_at_other; [|done]. by apply leg_at_lookup in Hfresh as [? _].
  - intros _ _ _. split; [done|]. intros k Hk Hkeep.
    apply leg_at_lookup in Hfresh as [Hi Hl]. rewrite legs_of_replace. unfold leg_at at 1.
    assert ((i <? 0) = false) as -> by (by apply Z.ltb_ge).
    rewrite list_lookup_insert_eq by (by eapply lookup_lt_Some).
    unfold keep_walk. cbn [opt_field mbind option_bind json_field]. by apply put_all_keep.
Qed.

Lemma field_set_other k k' v fs : k' <> k -> field k (set_key k' v fs) = field k fs.
Proof. intros Hne. rewrite field_set_key. by destruct (String.eqb_spec k' k). Qed.

(** A new route for a walk changes that walk's line and steps and nothing else: not
    the journey's name, not another leg, not where the walk leads from and to; and
    it is taken only for a leg on foot, from a route on foot of two points or more
    that ends within fifty metres of the walk's own end. *)
Theorem a_repair_changes_only_the_walk `{MathFunctions} `{RouteReceipts} itinerary i route repaired :
  repairTransitWalk itinerary i route = Ok (Some repaired) ->
  let leg := leg_at (legs_of itinerary) i in
  is_walking leg = true /\ route_mode route = "walking" /\ (2 <= length (route_geometry route))%nat /\
  (exists end_, last (route_geometry route) = Some end_ /\
     num_lt (num_of_Z 50) (haversineDistance end_ (place_lng (opt_field "to" leg), place_lat (opt_field "to" leg))) = false) /\
  transitItineraryFingerprint repaired = transitItineraryFingerprint itinerary /\
  length (legs_of repaired) = length (legs_of itinerary) /\
  (forall j, j <> i -> leg_at (legs_of repaired) j = leg_at (legs_of itinerary) j) /\
  (forall k, k ∈ IDENTITY_FIELDS -> opt_field k (leg_at (legs_of repaired) i) = opt_field k leg) /\
  length (leg_steps (leg_at (legs_of repaired) i)) = length (route_steps route).
Proof.
  unfold repairTransitWalk. intros (leg & ->%required_leg_spec & Hr)%outcome_bind_ok. cbv zeta.
  destruct (negb _ || negb _) eqn:E1; [done|]. apply orb_false_iff in E1 as [Hw%negb_false_iff Hm%negb_false_iff].
  apply String.eqb_eq in Hm. destruct (last (route_geometry route)) as [end_|] eqn:Hend; [|done].
  destruct (_ <? 2)%nat eqn:E2; [done|]. apply Nat.ltb_ge in E2.
  apply outcome_bind_ok in Hr as (to & Hto & Hr). apply outcome_bind_ok in Hr as (x & _ & Hr).
  destruct (_ || _) eqn:E3; [done|]. apply Ok_inj in Hr. injection Hr as <-.
  apply orb_false_iff in E3 as [_ E3].
  destruct (walking_object _ Hw) as [fs Hfs]. rewrite Hfs in *. cbn [member] in Hto. apply Ok_inj in Hto as <-.
  set (v := repaired_leg _ _).
  assert (forall k, k ∈ IDENTITY_FIELDS -> field k (fields_of (Some v)) = field k fs) as Hk.
  { intros k Hk. subst v. unfold repaired_leg. cbn [fields_of].
    unfold IDENTITY_FIELDS in Hk. repeat (apply elem_of_cons in Hk as [->|Hk];
      [rewrite !field_set_other, field_put_key, !field_set_other by done; done|]). by apply elem_of_nil in Hk. }
  pose proof (leg_at_lookup _ _ _ Hfs) as [Hi Hl].
  assert (leg_at (legs_of (replace_leg itinerary i v)) i = Some v) as Hv.
  { rewrite legs_of_replace. unfold leg_at. assert ((i <? 0) = false) as -> by (by apply Z.ltb_ge).
    apply list_lookup_insert_eq. by eapply lookup_lt_Some. }
  split_and!; try done.
  - by exists end_.
  - eapply fingerprint_replace; [exact Hfs|exact Hk].
  - by rewrite legs_of_replace, length_insert.
  - intros j Hj. rewrite legs_of_replace. by apply leg_at_other.
  - intros k Hin. rewrite Hv. by apply Hk.
  - rewrite Hv. unfold leg_steps, v, repaired_leg. cbn [opt_field mbind option_bind json_field].
    rewrite field_set_key. cbn. by rewrite length_map.
Qed.

(** ** The journey's name *)

Lemma leg_identities_length n legs parts : leg_identities n legs = Ok parts -> length parts = length legs.
Proof.
  revert n parts. induction legs as [|leg legs IH]; intros n parts; cbn [leg_identities]; [by intros <-%Ok_inj|].
  intros (p & _ & (r & Hr%IH & <-%Ok_inj)%outcome_bind_ok)%outcome_bind_ok. simpl. lia.
Qed.

Lemma fnv1a_range seed text : 0 <= seed < 2 ^ 32 -> 0 <= fnv1a seed text < 2 ^ 32.
Proof.
  unfold fnv1a. generalize (code_units text) as l. intros l. revert seed.
  induction l as [|c l IH]; intros seed Hs; [done|]. cbn [foldl]. apply IH. unfold fnv_step, to_uint32.
  apply Z.mod_pos_bound. lia.
Qed.

(** The name of a journey says only what was planned: live times, prices and tokens,
    any property but the legs and their six planned ones, leave it as it is; and it
    fits wherever the schema asks for an identifier, with room for an event's own. *)
Theorem a_name_is_the_plan itinerary name :
  transitItineraryFingerprint itinerary = Ok name ->
  Z.of_nat (length (legs_of itinerary)) <= 2 ^ 32 ->
  (1 <= String.length name <= 64)%nat /\
  (forall key v, key <> "legs" -> transitItineraryFingerprint (put_key key v itinerary) = Ok name) /\
  (forall i leg key v, leg_at (legs_of itinerary) i = Some (JObj leg) -> key ∉ IDENTITY_FIELDS ->
     transitItineraryFingerprint (replace_leg itinerary i (JObj (put_key key v leg))) = Ok name).
Proof.
  intros Hn Hlen. split; [|split].
  - unfold transitItineraryFingerprint in Hn. apply outcome_bind_ok in Hn as (parts & Hp%leg_identities_length & <-%Ok_inj).
    rewrite !string_length_app. cbn [String.length].
    pose proof (toString36_length _ (fnv1a_range 2166136261 (join newline parts) ltac:(lia))).
    pose proof (show_Z_length (Z.of_nat (length parts)) ltac:(lia)). lia.
  - intros key v Hk. rewrite <- Hn. unfold transitItineraryFingerprint, legs_of.
    by rewrite field_put_key.
  - intros i leg key v Hl Hk. rewrite <- Hn. eapply fingerprint_replace; [exact Hl|].
    intros k Hin. apply field_put_key. by intros ->.
Qed.
