(* ===== verification/StopAreas.v ===== *)
(** * Stops as areas

    packages/core/src/navigation/transitStopAreas.ts: the shape a rider enters when
    they reach a stop, and which shape decides about each end of each leg. *)

From S2P Require Import Prelude Doubles Protocol Itinerary.

#[local] Open Scope num_scope.

Definition MAX_ACCURACY_ALLOWANCE_METERS : number := 20.
Definition STOP_RADIUS_LOCAL : number := 25.
Definition STOP_RADIUS_RAIL : number := 50.
Definition DESTINATION_RADIUS_METERS : number := 20.
Definition RAIL_MODES : list string := ["rail"; "subway"; "monorail"; "funicular"].

(** A point of the flattened plane, in metres. *)
Notation Flat := LngLat (only parsing).

Section areas.
Context `{MathFunctions}.

(** ** Distances *)

(** [projector(refLat)]: metres per degree, flattened around a latitude. *)
Definition projector (refLat : number) (p origin : LngLat) : Flat :=
  let kx := 111320 * math_cos (refLat * math_PI / 180) in
  let ky := 110574 in
  ((p.1 - origin.1) * kx, (p.2 - origin.2) * ky).

Definition segmentDistance (p a b : Flat) : number :=
  let dx := b.1 - a.1 in
  let dy := b.2 - a.2 in
  let lengthSq := dx * dx + dy * dy in
  let t := if lengthSq =? 0 then 0
           else num_max 0 (num_min 1 (((p.1 - a.1) * dx + (p.2 - a.2) * dy) / lengthSq)) in
  math_hypot (p.1 - (a.1 + t * dx)) (p.2 - (a.2 + t * dy)).

(** Whether the ray to the right of [p] crosses the edge from [j] to [i]. *)
Definition crosses (p i j : Flat) : bool :=
  xorb (i.2 >? p.2) (j.2 >? p.2)
  && (p.1 <? (j.1 - i.1) * (p.2 - i.2) / (j.2 - i.2) + i.1).

Fixpoint inside_from (p j : Flat) (ring : list Flat) (inside : bool) : bool :=
  match ring with
  | [] => inside
  | i :: r => inside_from p i r (if crosses p i j then negb inside else inside)
  end.

(** [insideRing]: the last corner comes before the first. *)
Definition insideRing (p : Flat) (ring : list Flat) : bool :=
  match last ring with Some j => inside_from p j ring false | None => false end.

(** The edges of a line, or of a ring that closes. *)
Definition edges_of (closed : bool) (coords : list Flat) : list (Flat * Flat) :=
  zip coords (drop 1 coords ++ if closed then take 1 coords else []).

Definition shape_buffer (s : StopAreaShape) : number :=
  match s with AreaPoint _ b | AreaLine _ b | AreaPolygon _ b => b end.

(** The distance to a line or a ring whose corners are already projected. *)
Definition outlineDistance (polygon : bool) (coords : list Flat) : number :=
  let p : Flat := (num_of_Z 0, num_of_Z 0) in
  match coords with
  | [] => PosInf
  | [c] => math_hypot c.1 c.2
  | _ =>
      if polygon && (3 <=? length coords)%nat && insideRing p coords then 0
      else foldl (fun best e => num_min best (segmentDistance p e.1 e.2)) PosInf
             (edges_of polygon coords)
  end.

Definition geometryDistance (shape : StopAreaShape) (point : LngLat) : number :=
  let project c := projector point.2 c point in
  match shape with
  | AreaPoint c _ => math_hypot (project c).1 (project c).2
  | AreaLine cs _ => outlineDistance false (map project cs)
  | AreaPolygon cs _ => outlineDistance true (map project cs)
  end.

Definition stopAreaShapeDistance (shape : StopAreaShape) (point : LngLat) : number :=
  num_max 0 (geometryDistance shape point - shape_buffer shape).

Fixpoint area_from (best : number) (shapes : list StopAreaShape) (point : LngLat) {struct shapes} : number :=
  match shapes with
  | [] => best
  | s :: r => let best := num_min best (stopAreaShapeDistance s point) in
              if best =? 0 then best else area_from best r point
  end.

(** [stopAreaDistance]: to the nearest shape, 0 when inside any. *)
Definition stopAreaDistance (shapes : list StopAreaShape) (point : LngLat) : number :=
  area_from PosInf shapes point.

Definition stopAreaTolerance (accuracyMeters : number) : number :=
  if negb (num_is_finite accuracyMeters) then 0
  else num_max 0 (num_min MAX_ACCURACY_ALLOWANCE_METERS accuracyMeters).

Definition isWithinStopArea (shapes : list StopAreaShape) (point : LngLat) (accuracyMeters : number) : bool :=
  negb (length shapes =? 0)%nat
  && (stopAreaDistance shapes point <=? stopAreaTolerance accuracyMeters).

(** ** Which area decides *)

(** The circle of a stop nothing better describes. *)
Definition defaultStopAreaShape (point : LngLat) (mode : option json) : StopAreaShape :=
  AreaPoint point (if includes (text_or "" mode) RAIL_MODES then STOP_RADIUS_RAIL else STOP_RADIUS_LOCAL).

Definition transitStopAreaKey (place : option json) : outcome (option string) :=
  stopId ← member "stopId" place;
  Ok (if truthy stopId
      then Some (text_or "" stopId ++ "|" ++ text_or "" (opt_field "platformCode" place))%string
      else None).

Fixpoint area_lookup (key : string) (areas : list (string * TransitStopArea)) : option TransitStopArea :=
  match areas with
  | [] => None
  | (k, a) :: r => if String.eqb k key then Some a else area_lookup key r
  end.

Record TransitLegTargets := {
  tgt_board : option (list StopAreaShape);
  tgt_end : option (list StopAreaShape);
}.

(** [isTransit] of transitStopAreas.ts: a leg with a trip. *)
Definition isTransit (leg : option json) : bool := truthy (opt_field "tripId" leg).

Definition placePoint (place : option json) : LngLat := (place_lng place, place_lat place).

Definition located (place : option json) : bool :=
  num_is_finite (place_lat place) && num_is_finite (place_lng place).

(** [...shapes, ...fallback], when there are shapes. *)
Definition tier_of (shapes fallback : list StopAreaShape) : list (list StopAreaShape) :=
  match shapes with [] => [] | _ => [shapes ++ fallback] end.

(** The most specific area that does not already contain [mustStartOutside]. *)
Definition first_tier (mustStartOutside : option LngLat) (tiers : list (list StopAreaShape))
    : option (list StopAreaShape) :=
  List.find (fun tier => match mustStartOutside with
                         | Some p => negb (stopAreaDistance tier p =? 0)
                         | None => true
                         end) tiers.

Variable areas : list (string * TransitStopArea).

Definition stopTarget (place mode : option json) (mustStartOutside : option LngLat)
    : outcome (option (list StopAreaShape)) :=
  key ← transitStopAreaKey place;
  let area := key ≫= fun key => area_lookup key areas in
  let fallback := if located place then [defaultStopAreaShape (placePoint place) mode] else [] in
  Ok (first_tier mustStartOutside
        (tier_of (default [] (sa_platform <$> area)) fallback
         ++ tier_of (default [] (sa_station <$> area)) fallback
         ++ match fallback with [] => [] | _ => [fallback] end)).

(** What the end of a leg on foot is: the area of the next ride's stop, or the
    destination's. *)
Definition walk_end (previous leg next : option json) : outcome (option (list StopAreaShape)) :=
  from ← (if isTransit next then member "from" next else Ok None);
  stopId ← (if isTransit next then member "stopId" from else Ok None);
  if isTransit next && truthy stopId then
    _ ← member "geometry" leg;
    stopTarget from (opt_field "mode" next) (leg_start leg)
  else match next with
  | None | Some JNull =>
      to ← member "to" leg;
      toId ← member "stopId" to;
      if truthy toId then stopTarget to (opt_field "mode" previous) None
      else Ok (if located to then Some [AreaPoint (placePoint to) DESTINATION_RADIUS_METERS] else None)
  | Some _ => Ok None
  end.

(** Whether the walk's end is also where the next ride is boarded. *)
Definition shares_board (next : option json) : bool :=
  isTransit next && truthy (opt_field "stopId" (opt_field "from" next)).

(** One leg after the other; [carried] is the board area the walk before it set. *)
Fixpoint resolve_targets (previous : option json) (carried : option (list StopAreaShape))
    (legs : list json) : outcome (list TransitLegTargets) :=
  match legs with
  | [] => Ok []
  | leg :: rest =>
      let next := head rest in
      if isTransit (Some leg) then
        board ← match carried with
                | Some _ => Ok carried
                | None => from ← member "from" (Some leg); stopTarget from (json_field "mode" leg) None
                end;
        to ← member "to" (Some leg);
        toId ← member "stopId" to;
        end_ ← (if truthy toId then stopTarget to (json_field "mode" leg) None else Ok None);
        targets ← resolve_targets (Some leg) None rest;
        Ok ({| tgt_board := board; tgt_end := end_ |} :: targets)
      else
        end_ ← walk_end previous (Some leg) next;
        targets ← resolve_targets (Some leg) (if shares_board next then end_ else None) rest;
        Ok ({| tgt_board := None; tgt_end := end_ |} :: targets)
  end.

Definition resolveTransitLegTargets (itinerary : Itinerary) : outcome (list TransitLegTargets) :=
  resolve_targets None None (legs_of itinerary).
End areas.

(** One stop area a trip needs. *)
Record TransitStopAreaNeed := {
  need_key : string;
  need_stopId : string;
  need_lat : number;
  need_lng : number;
  need_name : option string;
  need_platform : option string;
  need_mode : option string;
}.

(** [stops.set(key, ...)] for a place whose key is not there yet. *)
Definition add_need (leg : json) (needs : list TransitStopAreaNeed) (place : option json)
    : outcome (list TransitStopAreaNeed) :=
  key ← transitStopAreaKey place;
  Ok match key with
     | None => needs
     | Some key =>
         if includes key (map need_key needs) then needs
         else needs ++
           [{| need_key := key; need_stopId := text_or "" (opt_field "stopId" place);
               need_lat := place_lat place; need_lng := place_lng place;
               need_name := text_field "name" place;
               need_platform := match text_field "platformCode" place with
                                | Some p => if String.eqb p "" then None else Some p
                                | None => None
                                end;
               need_mode := json_string (json_field "mode" leg) |}]
     end.

Fixpoint needs_of (legs : list json) (needs : list TransitStopAreaNeed)
    : outcome (list TransitStopAreaNeed) :=
  match legs with
  | [] => Ok needs
  | leg :: r =>
      if isTransit (Some leg) then
        from ← member "from" (Some leg);
        needs ← add_need leg needs from;
        to ← member "to" (Some leg);
        needs ← add_need leg needs to;
        needs_of r needs
      else needs_of r needs
  end.

Definition transitStopsNeedingAreas (itinerary : Itinerary) : outcome (list TransitStopAreaNeed) :=
  needs_of (legs_of itinerary) [].

(** ** Facts *)

Section area_facts.
Context `{MathFunctions}.
Variable areas : list (string * TransitStopArea).

Lemma first_tier_outside p tiers area : first_tier (Some p) tiers = Some area ->
  (stopAreaDistance area p =? 0)%num = false.
Proof. intros [_ Ha]%List.find_some. by apply negb_true_iff in Ha. Qed.

Lemma stop_target_outside place mode p area : stopTarget areas place mode (Some p) = Ok (Some area) ->
  (stopAreaDistance area p =? 0)%num = false.
Proof.
  unfold stopTarget. intros (key & _ & Hf%Ok_inj)%outcome_bind_ok. by eapply first_tier_outside.
Qed.

(** The board area of a ride is the one the walk before it set. *)
Lemma resolve_carried previous area leg rest targets : isTransit (Some leg) = true ->
  resolve_targets areas previous (Some area) (leg :: rest) = Ok targets ->
  (head targets ≫= tgt_board) = Some area.
Proof.
  intros Ht. cbn [resolve_targets]. rewrite Ht. cbn [mbind outcome_bind].
  intros (to & _ & (toId & _ & (e & _ & (r & _ & <-%Ok_inj)%outcome_bind_ok)%outcome_bind_ok)%outcome_bind_ok)%outcome_bind_ok.
  done.
Qed.

Lemma walk_end_outside previous leg next p area :
  isTransit next && truthy (opt_field "stopId" (opt_field "from" next)) = true ->
  walk_end areas previous leg next = Ok (Some area) -> leg_start leg = Some p ->
  (stopAreaDistance area p =? 0)%num = false.
Proof.
  intros Hn Hw Hp. apply andb_true_iff in Hn as [Hn1 Hn2]. unfold walk_end in Hw. rewrite Hn1 in Hw.
  apply outcome_bind_ok in Hw as (from & Hf & Hw). apply outcome_bind_ok in Hw as (id & Hid & Hw).
  assert (truthy id = true) as Hid'.
  { unfold member in Hf, Hid. destruct next as [[]|]; try done; apply Ok_inj in Hf as <-; try done.
    cbn [opt_field mbind option_bind] in Hn2. unfold opt_field in Hn2. cbn [mbind option_bind] in Hn2.
    destruct (json_field "from" _) as [[]|]; try done; by apply Ok_inj in Hid as <-. }
  rewrite Hid' in Hw. cbn [andb] in Hw. apply outcome_bind_ok in Hw as (g & _ & Hw).
  rewrite Hp in Hw. by eapply stop_target_outside.
Qed.

(** One target for every leg; and for a walk to a ride's stop, reaching the stop and
    waiting at it are the same: the area that ends the walk is the one the ride is
    boarded in, and the walk does not start inside it. *)
Lemma resolve_targets_agree previous carried legs targets :
  resolve_targets areas previous carried legs = Ok targets ->
  length targets = length legs /\
  forall i leg next, legs !! i = Some leg -> legs !! S i = Some next ->
    isTransit (Some leg) = false -> shares_board (Some next) = true ->
    forall area, (targets !! i ≫= tgt_end) = Some area ->
      (targets !! S i ≫= tgt_board) = Some area /\
      (forall p, leg_start (Some leg) = Some p -> (stopAreaDistance area p =? 0)%num = false).
Proof.
  revert previous carried targets. induction legs as [|leg rest IH]; intros previous carried targets Hr.
  { apply Ok_inj in Hr as <-. done. }
  cbn [resolve_targets] in Hr. destruct (isTransit (Some leg)) eqn:Et.
  - apply outcome_bind_ok in Hr as (b & _ & Hr). apply outcome_bind_ok in Hr as (to & _ & Hr).
    apply outcome_bind_ok in Hr as (id & _ & Hr). apply outcome_bind_ok in Hr as (e & _ & Hr).
    apply outcome_bind_ok in Hr as (r & Hr & <-%Ok_inj). apply IH in Hr as [Hlen Hr].
    split; [simpl; lia|]. intros [|i] l n; [intros [= <-]; by rewrite Et|apply Hr].
  - apply outcome_bind_ok in Hr as (e & He & Hr). apply outcome_bind_ok in Hr as (r & Hr & <-%Ok_inj).
    pose proof (IH _ _ _ Hr) as [Hlen Hrec]. split; [simpl; lia|].
    intros [|i] l n; [|apply Hrec]. intros [= <-] Hn _ Hs area Ha. cbn in Ha. subst e.
    assert (head rest = Some n) as Hh by (by destruct rest).
    rewrite Hh, Hs in Hr. rewrite Hh in He. split.
    + destruct rest as [|n' rest']; [done|]. injection Hn as ->.
      unfold shares_board in Hs. apply andb_true_iff in Hs as [Hs _].
      apply resolve_carried in Hr; [|done]. by destruct r.
    + intros p. eapply walk_end_outside; [|exact He]. exact Hs.
Qed.

(** [resolveTransitLegTargets]: reaching a stop and waiting at it agree. *)
Theorem reaching_a_stop_is_waiting_at_it itinerary targets :
  resolveTransitLegTargets areas itinerary = Ok targets ->
  length targets = length (legs_of itinerary) /\
  forall i leg next, legs_of itinerary !! i = Some leg -> legs_of itinerary !! S i = Some next ->
    isTransit (Some leg) = false -> shares_board (Some next) = true ->
    forall area, (targets !! i ≫= tgt_end) = Some area ->
      (targets !! S i ≫= tgt_board) = Some area /\
      (forall p, leg_start (Some leg) = Some p -> (stopAreaDistance area p =? 0)%num = false).
Proof. apply resolve_targets_agree. Qed.

Lemma tolerance_nonneg accuracy : num_le (num_of_Z 0) (stopAreaTolerance accuracy) = true.
Proof.
  unfold stopAreaTolerance. destruct (num_is_finite accuracy) eqn:E; [|done]. cbn [negb].
  apply num_max_ge_l; [done|]. destruct accuracy; try done. unfold num_min, MAX_ACCURACY_ALLOWANCE_METERS.
  cbn. by case_match.
Qed.

Lemma num_min_either x y : x <> NaN -> y <> NaN -> num_min x y = x \/ num_min x y = y.
Proof. intros ??. destruct x, y; try done; unfold num_min; destruct (num_lt _ _); auto. Qed.

Lemma num_min_within x y t : x <> NaN -> y <> NaN ->
  num_le (num_min x y) t = num_le x t || num_le y t.
Proof.
  intros Hx Hy. pose proof (num_min_le_l x y Hx Hy) as Hl. pose proof (num_min_le_r x y Hx Hy) as Hr.
  destruct (num_le x t) eqn:Ex; [by rewrite (num_le_trans _ _ _ Hl Ex)|].
  destruct (num_le y t) eqn:Ey; [by rewrite (num_le_trans _ _ _ Hr Ey)|].
  by destruct (num_min_either x y Hx Hy) as [->| ->].
Qed.

Lemma num_min_defined x y : x <> NaN -> y <> NaN -> num_min x y <> NaN.
Proof. intros Hx Hy. by destruct (num_min_either x y Hx Hy) as [->| ->]. Qed.

Lemma area_from_within best shapes p t : num_le (num_of_Z 0) t = true -> best <> NaN ->
  Forall (fun s => stopAreaShapeDistance s p <> NaN) shapes ->
  num_le (area_from best shapes p) t =
  num_le best t || existsb (fun s => num_le (stopAreaShapeDistance s p) t) shapes.
Proof.
  intros Ht Hb Hall. revert best Hb. induction Hall as [|s shapes Hs _ IH]; intros best Hb; cbn [area_from existsb].
  { by rewrite orb_false_r. }
  cbv zeta. set (b := num_min best _). assert (b <> NaN) as Hb' by (by apply num_min_defined).
  rewrite orb_assoc, <- num_min_within by done. fold b.
  destruct (num_eq b 0) eqn:E; [|by apply IH].
  assert (num_le b t = true) as ->; [|done].
  apply andb_true_iff in E as [E _]. by apply (num_le_trans _ _ _ E).
Qed.

(** Being in an area is being in one of its shapes, give or take the fix's accuracy:
    stopping at the first shape that contains the fix changes nothing, and an area
    without shapes contains nothing. *)
Theorem in_an_area_is_in_a_shape shapes p accuracy :
  Forall (fun s => stopAreaShapeDistance s p <> NaN) shapes ->
  isWithinStopArea shapes p accuracy =
  existsb (fun s => num_le (stopAreaShapeDistance s p) (stopAreaTolerance accuracy)) shapes.
Proof.
  intros Hall. unfold isWithinStopArea, stopAreaDistance.
  rewrite area_from_within by (done || apply tolerance_nonneg).
  destruct shapes as [|s shapes]; [done|]. cbn [length Nat.eqb negb andb].
  assert (num_le PosInf (stopAreaTolerance accuracy) = false) as ->; [|done].
  unfold stopAreaTolerance. destruct accuracy; try done. cbn [num_is_finite negb].
  unfold num_max, num_min, MAX_ACCURACY_ALLOWANCE_METERS. cbn. by repeat case_match.
Qed.
End area_facts.
