(* ===== verification/Captures.v ===== *)
(** * The stops a ride calls at

    packages/core/src/navigation/transitStops.ts: the slice of a vehicle's journey
    that a leg rides, its refresh, and the platform it uses (platform.ts of
    packages/mobility-core). *)

From S2P Require Import Prelude Text Doubles Protocol Maneuver Itinerary.

(** ** Platforms *)

(** [platformChanged]: narrowing a platform to its sections is no change. *)
Definition platformChanged (planned current : option string) : bool :=
  let from := default "" ((fun s => toUpperCase (trim s)) <$> planned) in
  let to := default "" ((fun s => toUpperCase (trim s)) <$> current) in
  if String.eqb from "" || String.eqb to "" || String.eqb from to then false
  else negb (startsWith (from ++ " ") to) && negb (startsWith (to ++ " ") from).

Inductive PlatformEvent := AtArrival | AtDeparture.

Record PlatformStop := {
  ps_platform : option string;
  ps_scheduledPlatform : option string;
  ps_arrivalPlatform : option TransitPlatformEvidence;
  ps_departurePlatform : option TransitPlatformEvidence;
}.

(** [kind] is absent for the [legacy] fields without evidence. *)
Record StopPlatform := {
  sp_code : option string;
  sp_scheduledCode : option string;
  sp_kind : option PlatformEvidenceKind;
  sp_changed : bool;
}.

Definition selectStopPlatform (stop : PlatformStop) (event : PlatformEvent) : StopPlatform :=
  let evidence := match event with AtArrival => ps_arrivalPlatform stop | AtDeparture => ps_departurePlatform stop end in
  let realtime e := match pe_kind e with ByRealtime => true | _ => false end in
  let code := match evidence with Some e => Some (pe_code e) | None => ps_platform stop end in
  let scheduledCode :=
    match evidence with
    | Some e => if realtime e then pe_scheduledCode e else Some (pe_code e)
    | None => ps_scheduledPlatform stop
    end in
  {| sp_code := code; sp_scheduledCode := scheduledCode; sp_kind := pe_kind <$> evidence;
     sp_changed := match evidence with Some e => realtime e | None => true end
                   && platformChanged scheduledCode code |}.

(** ** Slicing a journey *)

(** [list.findIndex((x, i) => test(i, x))], [-1] as [None]. *)
Fixpoint find_from {A} (i : nat) (test : nat -> A -> bool) (l : list A) : option nat :=
  match l with
  | [] => None
  | x :: r => if test i x then Some i else find_from (S i) test r
  end.
Definition findIndex {A} (test : nat -> A -> bool) (l : list A) : option nat := find_from 0 test l.

Definition has_stop_id (id : string) (stop : json) : bool := is_text id (json_field "stopId" stop).

(** [sliceJourneyToLeg]: the alight stop is looked for after the board stop; when
    either is not found, the whole list. *)
Definition sliceJourneyToLeg (stops : list json) (fromStopId toStopId : option string) : list json :=
  let given id := match id with Some s => if String.eqb s "" then None else Some s | None => None end in
  let fromIdx := match given fromStopId with
                 | Some id => findIndex (fun _ => has_stop_id id) stops
                 | None => None
                 end in
  let toIdx := match given toStopId with
               | Some id =>
                   findIndex (fun i s => match fromIdx with Some f => (f <? i)%nat | None => true end
                                         && has_stop_id id s) stops
               | None => None
               end in
  match fromIdx, toIdx with
  | Some f, Some t => if (f <? t)%nat then take (t + 1 - f) (drop f stops) else stops
  | _, _ => stops
  end.

(** ** Capturing *)

Definition MAX_CAPTURED_STOPS : nat := 2000.

Definition bounded (value : option json) (max : Z) : option string :=
  match json_string value with Some s => if max_text max s then Some s else None | None => None end.

Definition evidence_kind (value : option json) : option PlatformEvidenceKind :=
  match json_string value with
  | Some k => if String.eqb k "schedule" then Some ByTimetable
              else if String.eqb k "correction" then Some ByCorrection
              else if String.eqb k "realtime" then Some ByRealtime else None
  | None => None
  end.

Definition copyPlatform (evidence : option json) : option TransitPlatformEvidence :=
  match bounded (opt_field "code" evidence) 64, bounded (opt_field "sourceId" evidence) 128,
        evidence_kind (opt_field "kind" evidence) with
  | Some code, Some sourceId, Some kind =>
      if String.eqb code "" || String.eqb sourceId "" then None
      else Some {| pe_code := code; pe_scheduledCode := bounded (opt_field "scheduledCode" evidence) 64;
                   pe_kind := kind; pe_sourceId := sourceId;
                   pe_recordedAt := bounded (opt_field "recordedAt" evidence) 64;
                   pe_fetchedAt := bounded (opt_field "fetchedAt" evidence) 64 |}
  | _, _, _ => None
  end.

Definition json_bool (value : option json) : option bool :=
  match value with Some (JBool b) => Some b | _ => None end.

(** A coordinate, [0] when there is none. *)
Definition coordinate_or_zero (value : option json) : number :=
  match value with Some (JNum n) => n | _ => num_of_Z 0 end.

(** [copyStop]: a bounded projection. *)
Definition copyStop (stop : json) : CaptureStop :=
  let get key := json_field key stop in
  {| cs_stopId := text_or "" (get "stopId");
     cs_name := match json_string (get "name") with Some s => slice0 512 s | None => "" end;
     cs_lat := coordinate_or_zero (get "lat");
     cs_lng := coordinate_or_zero (get "lng");
     cs_platform := bounded (get "platform") 64;
     cs_scheduledPlatform := bounded (get "scheduledPlatform") 64;
     cs_arrivalPlatform := copyPlatform (get "arrivalPlatform");
     cs_departurePlatform := copyPlatform (get "departurePlatform");
     cs_scheduledArrival := bounded (get "scheduledArrival") 64;
     cs_scheduledDeparture := bounded (get "scheduledDeparture") 64;
     cs_expectedArrival := bounded (get "expectedArrival") 64;
     cs_expectedDeparture := bounded (get "expectedDeparture") 64;
     cs_canceled := json_bool (get "canceled");
     cs_departed := json_bool (get "departed") |}.

Definition hasUsableCoordinates (stop : json) : bool :=
  match json_string (json_field "stopId" stop) with
  | Some id =>
      max_text 128 id
      && match json_field "lat" stop with Some (JNum n) => finite_within (-90) 90 n | _ => false end
      && match json_field "lng" stop with Some (JNum n) => finite_within (-180) 180 n | _ => false end
  | None => false
  end.

Section captures.
Context `{DateParser}.

(** [Date.parse(value ?? "")] *)
Definition parse_date (value : option json) : number :=
  match value with None | Some JNull => date_getTime (JStr "") | Some v => date_getTime v end.

(** The places of a stop id from [start] on. *)
Fixpoint occurrences_from (i start : nat) (id : string) (stops : list json) : list nat :=
  match stops with
  | [] => []
  | s :: r => if (start <=? i)%nat && has_stop_id id s then i :: occurrences_from (S i) start id r
              else occurrences_from (S i) start id r
  end.

(** [matchingOccurrence]: only a scheduled time tells two visits apart. *)
Definition matchingOccurrence (stops : list json) (id : option string) (start : nat)
    (time : option json) (field_ : string) : option nat :=
  let candidates := match id with Some id => occurrences_from 0 start id stops | None => [] end in
  let timestamp := parse_date time in
  if (length candidates <? 2)%nat || negb (truthy time) || negb (num_is_finite timestamp)
  then head candidates
  else List.find (fun i => num_eq (parse_date ((stops !! i) ≫= json_field field_)) timestamp) candidates.

(** [journeys[tripId]], an absent one as an empty one. *)
Definition journey_of (journeys : json) (tripId : string) : list json :=
  match json_field tripId journeys with Some (JArr l) => l | _ => [] end.

(** The stops from the board to the alight occurrence, when both are known. *)
Definition ridden_stops (leg : json) (journey : list json) : list json :=
  let valid := List.filter hasUsableCoordinates journey in
  let from := matchingOccurrence valid (text_field "stopId" (json_field "from" leg)) 0
                (json_field "scheduledStartTime" leg) "scheduledDeparture" in
  let to := matchingOccurrence valid (text_field "stopId" (json_field "to" leg))
              (match from with Some f => S f | None => 0 end)
              (json_field "scheduledEndTime" leg) "scheduledArrival" in
  match from, to with
  | Some f, Some t =>
      if (f <? t)%nat && (t - f <? MAX_CAPTURED_STOPS)%nat then take (t + 1 - f) (drop f valid) else []
  | _, _ => []
  end.

Definition capture_leg (journeys : json) (capturedAtMs : Z) (legIndex : nat) (leg : json)
    : option TransitLegCapture :=
  match text_field "tripId" (Some leg) with
  | None => None
  | Some tripId =>
      if String.eqb tripId "" then None
      else
        let sliced := ridden_stops leg (journey_of journeys tripId) in
        Some {| tc_legIndex := Z.of_nat legIndex; tc_tripId := tripId; tc_capturedAtMs := capturedAtMs;
                tc_status := match sliced with [] => Missing | _ => Captured end;
                tc_stops := map copyStop sliced |}
  end.

Fixpoint capture_legs (journeys : json) (capturedAtMs : Z) (legIndex : nat) (legs : list json)
    : list TransitLegCapture :=
  match legs with
  | [] => []
  | leg :: r => option_list (capture_leg journeys capturedAtMs legIndex leg)
                ++ capture_legs journeys capturedAtMs (S legIndex) r
  end.

(** [captureTransitLegStops]: one capture for every leg with a trip. *)
Definition captureTransitLegStops (legs : list json) (journeys : json) (capturedAtMs : Z)
    : list TransitLegCapture := capture_legs journeys capturedAtMs 0 legs.

(** ** Refreshing *)

Definition is_captured (c : TransitLegCapture) : bool :=
  match tc_status c with Captured => true | Missing => false end.

Definition same_ids (a b : list CaptureStop) : bool :=
  (length a =? length b)%nat
  && forallb (fun p => String.eqb (cs_stopId p.1) (cs_stopId p.2)) (zip a b).

(** A stop with the fresh predictions. *)
Definition refresh_stop (stop fresh : CaptureStop) : CaptureStop :=
  {| cs_stopId := cs_stopId stop; cs_name := cs_name stop;
     cs_lat := cs_lat stop; cs_lng := cs_lng stop;
     cs_platform := cs_platform fresh;
     cs_scheduledPlatform := cs_scheduledPlatform fresh;
     cs_arrivalPlatform := cs_arrivalPlatform fresh;
     cs_departurePlatform := cs_departurePlatform fresh;
     cs_scheduledArrival := cs_scheduledArrival stop;
     cs_scheduledDeparture := cs_scheduledDeparture stop;
     cs_expectedArrival := cs_expectedArrival fresh;
     cs_expectedDeparture := cs_expectedDeparture fresh;
     cs_canceled := cs_canceled fresh;
     cs_departed := cs_departed fresh |}.

Definition refresh_capture (updates : list TransitLegCapture) (nowMs : Z) (capture : TransitLegCapture)
    : TransitLegCapture :=
  let next := List.find (fun c => (tc_legIndex c =? tc_legIndex capture)
                                  && String.eqb (tc_tripId c) (tc_tripId capture) && is_captured c) updates in
  match next with
  | None => capture
  | Some next =>
      if negb (is_captured capture) then next
      else if negb (same_ids (tc_stops next) (tc_stops capture)) then capture
      else {| tc_legIndex := tc_legIndex capture; tc_tripId := tc_tripId capture;
              tc_capturedAtMs := nowMs; tc_status := tc_status capture;
              tc_stops := zip_with refresh_stop (tc_stops capture) (tc_stops next) |}
  end.

Definition refreshTransitCaptures (captures : list TransitLegCapture) (legs : list json)
    (journeys : json) (nowMs : Z) : list TransitLegCapture :=
  let updates := captureTransitLegStops legs journeys nowMs in
  map (refresh_capture updates nowMs) captures.
End captures.

(** ** The platform of a leg *)

Definition platform_stop (s : CaptureStop) : PlatformStop :=
  {| ps_platform := cs_platform s; ps_scheduledPlatform := cs_scheduledPlatform s;
     ps_arrivalPlatform := cs_arrivalPlatform s; ps_departurePlatform := cs_departurePlatform s |}.

(** A capture of the leg at [legIndex] on its own trip. *)
Definition captures_leg (leg : option json) (legIndex : Z) (c : TransitLegCapture) : bool :=
  (tc_legIndex c =? legIndex) && is_text (tc_tripId c) (opt_field "tripId" leg) && is_captured c.

Definition selectLegPlatform (leg : option json) (legIndex : Z) (captures : list TransitLegCapture)
    (event : PlatformEvent) : StopPlatform :=
  let stops := default [] (tc_stops <$> List.find (captures_leg leg legIndex) captures) in
  match (match event with AtDeparture => head stops | AtArrival => last stops end) with
  | Some stop => selectStopPlatform (platform_stop stop) event
  | None =>
      let endpoint := opt_field (match event with AtDeparture => "from" | AtArrival => "to" end) leg in
      selectStopPlatform
        {| ps_platform := text_field "platformCode" endpoint;
           ps_scheduledPlatform := text_field "scheduledPlatformCode" endpoint;
           ps_arrivalPlatform := None; ps_departurePlatform := None |} event
  end.

(** ** Facts: platforms *)

Lemma platformChanged_comm a b : platformChanged a b = platformChanged b a.
Proof.
  unfold platformChanged. cbv zeta. set (x := default "" _). set (y := default "" _).
  rewrite (String.eqb_sym x y), (orb_comm (String.eqb x "")).
  destruct (_ || _); [done|]. apply andb_comm.
Qed.

(** Naming the sections of the planned platform is not a move, and neither is the
    plan alone or another spelling of the same platform. *)
Lemma narrowing_is_no_change planned s :
  platformChanged (Some planned) None = false
  /\ platformChanged (Some planned) (Some planned) = false
  /\ (toUpperCase (trim s) = (toUpperCase (trim planned) ++ " " ++ toUpperCase (trim s))%string ->
      platformChanged (Some planned) (Some s) = false).
Proof.
  unfold platformChanged. cbn. rewrite String.eqb_refl. split_and!.
  - by rewrite orb_true_r.
  - by rewrite orb_true_r.
  - intros E. destruct (_ || _); [done|]. rewrite E at 1.
    assert (startsWith (toUpperCase (trim planned) ++ " ")
              (toUpperCase (trim planned) ++ " " ++ toUpperCase (trim s)) = true) as ->; [|done].
    generalize (toUpperCase (trim planned)) as p. intros p. induction p as [|c p IH]; [done|].
    simpl. by rewrite Ascii.eqb_refl.
Qed.

(** ** Facts: captures *)

Section captures_facts.
Context `{DateParser}.

Lemma occurrences_spec i start id stops n : n ∈ occurrences_from i start id stops ->
  (start <= n)%nat /\ exists s, stops !! (n - i)%nat = Some s /\ has_stop_id id s = true /\ (i <= n)%nat.
Proof.
  revert i. induction stops as [|s stops IH]; intros i; cbn [occurrences_from]; [by intros ?%elem_of_nil|].
  assert (n ∈ occurrences_from (S i) start id stops -> (start <= n)%nat /\
    exists s', (s :: stops) !! (n - i)%nat = Some s' /\ has_stop_id id s' = true /\ (i <= n)%nat) as Hrest.
  { intros (H1 & s' & H2 & H3 & H4)%IH. split; [lia|]. exists s'.
    replace (n - i)%nat with (S (n - S i)) by lia. cbn. split_and!; [done|done|lia]. }
  destruct (_ && _) eqn:E; [|by apply Hrest].
  intros [->|Hn]%elem_of_cons; [|by apply Hrest].
  apply andb_true_iff in E as [E1%Nat.leb_le E2]. split; [done|]. exists s.
  by replace (i - i)%nat with 0%nat by lia.
Qed.

Lemma matching_spec stops id start time f n : matchingOccurrence stops id start time f = Some n ->
  (start <= n)%nat /\ exists x s, id = Some x /\ stops !! n = Some s /\ has_stop_id x s = true.
Proof.
  unfold matchingOccurrence. destruct id as [id|].
  2:{ by destruct (_ || _ || _). }
  cbv zeta. intros Hm.
  assert (n ∈ occurrences_from 0 start id stops) as Hn.
  { destruct (_ || _ || _).
    - apply head_Some_elem_of in Hm. done.
    - apply List.find_some in Hm as [Hm _]. by apply list_elem_of_In. }
  apply occurrences_spec in Hn as (H1 & s & H2 & H3 & _).
  replace (n - 0)%nat with n in H2 by lia. split; [done|]. by exists id, s.
Qed.

(** What is captured is a stretch of the journey from the leg's board stop to its
    alight stop, of at least two and at most two thousand usable stops. *)
Lemma ridden_stops_spec leg journey : ridden_stops leg journey <> [] ->
  let l := ridden_stops leg journey in
  (2 <= length l <= MAX_CAPTURED_STOPS)%nat
  /\ (exists before after, List.filter hasUsableCoordinates journey = before ++ l ++ after)
  /\ (exists id s, text_field "stopId" (json_field "from" leg) = Some id /\
        head l = Some s /\ has_stop_id id s = true)
  /\ (exists id s, text_field "stopId" (json_field "to" leg) = Some id /\
        last l = Some s /\ has_stop_id id s = true).
Proof.
  unfold ridden_stops. set (valid := List.filter _ journey). cbv zeta.
  destruct (matchingOccurrence valid _ 0 _ _) as [f|] eqn:Ef; [|done].
  destruct (matchingOccurrence valid _ (S f) _ _) as [t|] eqn:Et; [|done].
  destruct (_ && _) eqn:E; [|done]. intros _.
  apply andb_true_iff in E as [E1%Nat.ltb_lt E2%Nat.ltb_lt].
  apply matching_spec in Ef as (_ & fid & fs & Hfid & Hfs & Hf).
  apply matching_spec in Et as (_ & tid & ts & Htid & Hts & Ht).
  pose proof (lookup_lt_Some _ _ _ Hts) as Hlen.
  assert (length (take (t + 1 - f) (drop f valid)) = (t + 1 - f)%nat) as Hl.
  { rewrite length_take, length_drop. lia. }
  split_and!.
  - rewrite Hl. lia.
  - rewrite Hl. unfold MAX_CAPTURED_STOPS in *. lia.
  - exists (take f valid), (drop (t + 1 - f) (drop f valid)). by rewrite take_drop, take_drop.
  - exists fid, fs. split_and!; [done| |done].
    rewrite head_lookup, lookup_take, decide_True by lia. by rewrite lookup_drop, Nat.add_0_r.
  - exists tid, ts. split_and!; [done| |done].
    rewrite last_lookup, Hl. rewrite lookup_take, decide_True by lia. rewrite lookup_drop.
    by replace (f + Nat.pred (t + 1 - f))%nat with t by lia.
Qed.

(** ** Facts: the wire schema *)

Lemma bounded_ok v n : opt_ok (max_text n) (bounded v n) = true.
Proof. unfold bounded. repeat case_match; simpl; congruence. Qed.

Lemma copyPlatform_ok e : opt_ok transitPlatformEvidenceSchema (copyPlatform e) = true.
Proof.
  unfold copyPlatform. pose proof (bounded_ok (opt_field "code" e) 64) as Hc.
  pose proof (bounded_ok (opt_field "sourceId" e) 128) as Hs.
  destruct (bounded _ 64) as [code|]; [|done]. destruct (bounded _ 128) as [src|]; [|done].
  destruct (evidence_kind _) as [k|]; [|done]. destruct (_ || _) eqn:E; [done|].
  apply orb_false_iff in E as [E1%String.eqb_neq E2%String.eqb_neq].
  assert (forall s, s <> "" -> 1 <=? str_length s = true) as Hne.
  { intros [|c s] Hs'; [done|]. apply Z.leb_le. unfold str_length. simpl. lia. }
  unfold transitPlatformEvidenceSchema. cbn [opt_ok pe_code pe_scheduledCode pe_sourceId pe_recordedAt pe_fetchedAt] in *.
  by rewrite !bounded_ok, Hc, Hs, !Hne.
Qed.

Lemma copyStop_ok stop : hasUsableCoordinates stop = true -> captureStopSchema (copyStop stop) = true.
Proof.
  unfold hasUsableCoordinates, captureStopSchema, copyStop.
  cbn [cs_stopId cs_name cs_lat cs_lng cs_platform cs_scheduledPlatform cs_arrivalPlatform
       cs_departurePlatform cs_scheduledArrival cs_scheduledDeparture cs_expectedArrival cs_expectedDeparture].
  rewrite !bounded_ok, !copyPlatform_ok, !andb_true_r. unfold text_or.
  destruct (json_string (json_field "stopId" stop)) as [id|]; [|done]. cbn [default].
  rewrite !andb_true_iff. intros [[Hid Hlat] Hlng]. split_and!.
  - exact Hid.
  - destruct (json_string _) as [s|]; [|done]. unfold max_text, str_length.
    rewrite slice0_length. apply Z.leb_le. unfold MAX_TEXT_LENGTH. lia.
  - by destruct (json_field "lat" stop) as [[]|].
  - by destruct (json_field "lng" stop) as [[]|].
Qed.

Lemma ridden_usable leg journey : Forall (fun s => hasUsableCoordinates s = true) (ridden_stops leg journey).
Proof.
  unfold ridden_stops. set (valid := List.filter _ journey).
  assert (Forall (fun s => hasUsableCoordinates s = true) valid) as Hv.
  { apply Forall_forall. intros x Hx%list_elem_of_In. by apply List.filter_In in Hx as [_ Hx]. }
  repeat case_match; try done. by apply Forall_take, Forall_drop.
Qed.

Lemma capture_leg_ok journeys at_ i leg c : capture_leg journeys at_ i leg = Some c ->
  Z.of_nat i <= MAX_LEGS -> safeInteger at_ = true -> max_text MAX_ID_LENGTH (tc_tripId c) = true ->
  transitLegCaptureSchema c = true.
Proof.
  unfold capture_leg. destruct (text_field _ _) as [tripId|]; [|done].
  destruct (String.eqb _ _); [done|]. intros [= <-] Hi Hat Hid.
  unfold transitLegCaptureSchema. cbn [tc_legIndex tc_tripId tc_capturedAtMs tc_stops] in *.
  rewrite Hid, Hat. set (l := ridden_stops _ _).
  assert ((0 <=? Z.of_nat i) && (Z.of_nat i <=? MAX_LEGS) = true) as ->.
  { apply andb_true_iff. split; apply Z.leb_le; lia. }
  cbn [andb]. apply andb_true_iff. split.
  - apply forallb_forall. intros s (x & <- & Hx)%in_map_iff. apply copyStop_ok.
    apply list_elem_of_In in Hx. revert x Hx. apply Forall_forall, ridden_usable.
  - rewrite length_map. apply Z.leb_le. destruct (decide (l = [])) as [->|Hl]; [simpl; lia|].
    apply ridden_stops_spec in Hl as ([_ Hl] & _). fold l in Hl. unfold MAX_CAPTURED_STOPS in Hl. lia.
Qed.

Lemma capture_legs_elem journeys at_ i legs c : c ∈ capture_legs journeys at_ i legs ->
  exists n leg, legs !! n = Some leg /\ capture_leg journeys at_ (i + n) leg = Some c.
Proof.
  revert i. induction legs as [|leg legs IH]; intros i; cbn [capture_legs]; [by intros ?%elem_of_nil|].
  intros [Hc|Hc]%elem_of_app.
  - exists 0%nat, leg. rewrite Nat.add_0_r. split; [done|].
    destruct (capture_leg journeys at_ i leg) as [c'|]; [|by apply elem_of_nil in Hc].
    apply list_elem_of_singleton in Hc. by subst.
  - apply IH in Hc as (n & leg' & Hn & Hc). exists (S n), leg'. rewrite <- plus_n_Sm. by split.
Qed.

Lemma capture_leg_fields journeys at_ i leg c : capture_leg journeys at_ i leg = Some c ->
  tc_legIndex c = Z.of_nat i /\ text_field "tripId" (Some leg) = Some (tc_tripId c) /\
  tc_stops c = map copyStop (ridden_stops leg (journey_of journeys (tc_tripId c))) /\
  (is_captured c = true <-> tc_stops c <> []).
Proof.
  unfold capture_leg. destruct (text_field _ _) as [tripId|] eqn:E; [|done].
  destruct (String.eqb _ _); [done|]. intros [= <-]. unfold is_captured. cbn.
  split_and!; try done. by destruct (ridden_stops _ _).
Qed.
End captures_facts.

(** ** What a rider is shown *)

(** The visit of a stop, as the rider knows it. *)
Definition visit_of (s : CaptureStop) :=
  (cs_stopId s, cs_name s, (cs_lat s, cs_lng s), cs_scheduledArrival s, cs_scheduledDeparture s).

Section capture_theorems.
Context `{DateParser}.

(** A capture holds what its leg rides: the leg of its index and trip, a stretch of
    that trip's journey from the leg's board stop to its alight stop, between two
    and two thousand stops; where the stretch is not known it says [Missing] and
    holds nothing.  With a trip id of the wire's length it fits the wire schema. *)
Theorem captures_are_what_is_ridden legs journeys at_ c :
  c ∈ captureTransitLegStops legs journeys at_ ->
  Z.of_nat (length legs) <= MAX_LEGS -> safeInteger at_ = true ->
  max_text MAX_ID_LENGTH (tc_tripId c) = true ->
  transitLegCaptureSchema c = true /\
  exists leg, leg_at legs (tc_legIndex c) = Some leg /\ text_field "tripId" (Some leg) = Some (tc_tripId c) /\
    let ridden := ridden_stops leg (journey_of journeys (tc_tripId c)) in
    tc_stops c = map copyStop ridden /\
    (is_captured c = false -> tc_stops c = []) /\
    (is_captured c = true ->
       (2 <= length ridden <= MAX_CAPTURED_STOPS)%nat /\
       (exists before after, List.filter hasUsableCoordinates (journey_of journeys (tc_tripId c))
                             = before ++ ridden ++ after) /\
       (exists id s, text_field "stopId" (json_field "from" leg) = Some id /\
          head ridden = Some s /\ has_stop_id id s = true) /\
       (exists id s, text_field "stopId" (json_field "to" leg) = Some id /\
          last ridden = Some s /\ has_stop_id id s = true)).
Proof.
  intros (n & leg & Hn & Hc)%capture_legs_elem Hlen Hat Hid. cbn in Hc.
  pose proof (lookup_lt_Some _ _ _ Hn) as Hlt.
  split; [eapply capture_leg_ok; eauto; lia|].
  apply capture_leg_fields in Hc as (Hi & Ht & Hs & Hcap). exists leg. cbv zeta. split_and!.
  - rewrite Hi. unfold leg_at. case_match eqn:E; [apply Z.ltb_lt in E; lia|]. by rewrite Nat2Z.id.
  - done.
  - done.
  - intros Hf. destruct (tc_stops c); [done|]. by rewrite (proj2 Hcap) in Hf.
  - intros Htrue%Hcap. apply ridden_stops_spec. intros E. by rewrite Hs, E in Htrue.
Qed.

Lemma refresh_stop_ok s f : captureStopSchema s = true -> captureStopSchema f = true ->
  captureStopSchema (refresh_stop s f) = true.
Proof.
  unfold captureStopSchema, refresh_stop. destruct s, f. cbn. rewrite !andb_true_iff. tauto.
Qed.

Lemma refreshed_stops_ok l l' :
  forallb captureStopSchema l = true -> forallb captureStopSchema l' = true ->
  forallb captureStopSchema (zip_with refresh_stop l l') = true.
Proof.
  rewrite !forallb_forall. intros Hl Hl' s Hs%list_elem_of_In.
  apply elem_of_zip_with in Hs as (a & b & -> & Ha & Hb).
  apply refresh_stop_ok; [apply Hl|apply Hl']; by apply list_elem_of_In.
Qed.

Lemma same_ids_length a b : same_ids a b = true -> length a = length b.
Proof. unfold same_ids. by intros [E%Nat.eqb_eq _]%andb_true_iff. Qed.

Lemma refreshed_visits (l l' : list CaptureStop) : length l' = length l ->
  map visit_of (zip_with refresh_stop l l') = map visit_of l.
Proof.
  revert l'. induction l as [|s l IH]; intros [|f l'] Hlen; try done.
  cbn. rewrite IH by (simpl in Hlen; lia). done.
Qed.

(** A refresh never changes what is followed: every capture keeps its place in the
    list, its leg and its trip; one that had stops keeps exactly those visits, with
    new predictions at most; one that had none may gain the stretch its leg rides.
    A list that fits the wire still fits it. *)
Theorem refresh_keeps_the_ride captures legs journeys nowMs :
  let refreshed := refreshTransitCaptures captures legs journeys nowMs in
  Forall2 (fun old new =>
    tc_legIndex new = tc_legIndex old /\ tc_tripId new = tc_tripId old /\
    (is_captured old = true ->
       is_captured new = true /\ map visit_of (tc_stops new) = map visit_of (tc_stops old)) /\
    (is_captured old = false -> new = old \/
       (is_captured new = true /\ new ∈ captureTransitLegStops legs journeys nowMs)))
    captures refreshed /\
  (Z.of_nat (length legs) <= MAX_LEGS -> safeInteger nowMs = true ->
   forallb transitLegCaptureSchema captures = true -> forallb transitLegCaptureSchema refreshed = true).
Proof.
  cbv zeta. unfold refreshTransitCaptures. set (updates := captureTransitLegStops _ _ _).
  assert (forall c n, List.find (fun c' => (tc_legIndex c' =? tc_legIndex c)
     && String.eqb (tc_tripId c') (tc_tripId c) && is_captured c') updates = Some n ->
     n ∈ updates /\ tc_legIndex n = tc_legIndex c /\ tc_tripId n = tc_tripId c /\ is_captured n = true) as Hfind.
  { intros c n [Hin Hn]%List.find_some. apply andb_true_iff in Hn as [[E1%Z.eqb_eq E2%String.eqb_eq]%andb_true_iff E3].
    split_and!; [by apply list_elem_of_In|done..]. }
  split.
  - apply Forall2_fmap_r, Forall_Forall2_diag, Forall_forall. intros c _. cbv beta delta [compose]. unfold refresh_capture.
    destruct (List.find _ updates) as [n|] eqn:E; [|by split_and!; auto].
    apply Hfind in E as (E1 & E2 & E3 & E4).
    destruct (is_captured c) eqn:Ec; cbn [negb]; [|split_and!; auto; done].
    destruct (same_ids _ _) eqn:Es; cbn [negb]; [|by split_and!].
    unfold is_captured in *. cbn. split_and!; try done. intros _. split; [done|].
    apply refreshed_visits. by apply same_ids_length.
  - intros Hlen Hat Hall. apply forallb_forall. intros c' (c & <- & Hc)%in_map_iff.
    rewrite forallb_forall in Hall. specialize (Hall c Hc). unfold refresh_capture.
    destruct (List.find _ updates) as [n|] eqn:E; [|done]. apply Hfind in E as (E1 & E2 & E3 & E4).
    assert (transitLegCaptureSchema n = true) as Hn.
    { apply capture_legs_elem in E1 as (k & leg & Hk & E1). pose proof (lookup_lt_Some _ _ _ Hk).
      eapply capture_leg_ok; eauto; [lia|]. rewrite E3. unfold transitLegCaptureSchema in Hall.
      rewrite !andb_true_iff in Hall. tauto. }
    destruct (negb (is_captured c)); [done|]. destruct (same_ids _ _) eqn:Es; cbn [negb]; [|done].
    apply same_ids_length in Es. unfold transitLegCaptureSchema in *. cbn.
    rewrite !andb_true_iff in *. rewrite length_zip_with, Es, Nat.min_id.
    pose proof (refreshed_stops_ok (tc_stops c) (tc_stops n)). tauto.
Qed.
End capture_theorems.
