(* ===== verification/StopCursor.v ===== *)
(** * Which stop comes next

    packages/core/src/navigation: the prepared legs of transitProgress.ts and the
    stop cursor of transitStopCursor.ts, which a single odd position cannot push. *)

From S2P Require Import Prelude Doubles Protocol Geodesy RouteMatcher RouteMatcherFacts Waypoints Session Itinerary.

#[local] Open Scope num_scope.

Definition stop_point (s : CaptureStop) : LngLat := (cs_lng s, cs_lat s).

Section cursor.
Context `{MathFunctions} `{Turf}.

(** ** transitProgress.ts *)

Record PreparedTransitLeg := {
  ptl_matcher : MatcherIndex;
  ptl_lengthMeters : number;
}.

Fixpoint line_from (total : number) (prev : LngLat) (rest : list LngLat) : number :=
  match rest with
  | [] => total
  | c :: r => line_from (total + haversineDistance prev c) c r
  end.

Definition lineLength (coords : list LngLat) : number :=
  match coords with [] => 0 | c :: r => line_from 0 c r end.

(** [if (!coords || coords.length < 2) return null], before any of them is read. *)
Definition leg_positions (coords : option json) : outcome (option (list LngLat)) :=
  match coords with
  | Some (JArr l) =>
      if (length l <? 2)%nat then Ok None
      else
        points ← positions_of l;
        Ok (if (length points <? 2)%nat then None else Some points)
  | _ =>
      if truthy coords
      then points ← loose_positions (default JNull coords);
           Ok (if (length points <? 2)%nat then None else Some points)
      else Ok None
  end.

(** One leg; a null one has no geometry to look for. *)
Definition prepare_leg (leg : json) : outcome (option PreparedTransitLeg) :=
  _ ← member "geometry" (Some leg);
  points ← leg_positions (leg_line (Some leg));
  Ok match points with
     | Some points => Some {| ptl_matcher := buildIndex points; ptl_lengthMeters := lineLength points |}
     | None => None
     end.

Fixpoint prepare_legs (legs : list json) : outcome (list (option PreparedTransitLeg)) :=
  match legs with
  | [] => Ok []
  | leg :: r => p ← prepare_leg leg; rest ← prepare_legs r; Ok (p :: rest)
  end.

Definition prepareTransitProgress (itinerary : Itinerary) : outcome (list (option PreparedTransitLeg)) :=
  prepare_legs (legs_of itinerary).

(** [prepared.legs[index]] *)
Definition prepared_leg (prepared : list (option PreparedTransitLeg)) (index : Z) : option PreparedTransitLeg :=
  if (index <? 0)%Z then None else mjoin (prepared !! Z.to_nat index).

Record StopsAhead := {
  nextStopIndex : option nat;
  stopsRemaining : Z;
  nextStopName : option string;
}.

Definition no_stops_ahead : StopsAhead :=
  {| nextStopIndex := None; stopsRemaining := 0; nextStopName := None |}.

Fixpoint snap_all (matcher : MatcherIndex) (points : list LngLat) : outcome (list number) :=
  match points with
  | [] => Ok []
  | p :: r => s ← snapPreparedRoute matcher p None; rest ← snap_all matcher r;
              Ok (snap_alongMeters s :: rest)
  end.

(** The first place whose distance along is beyond [along]. *)
Fixpoint first_beyond (along : number) (i : nat) (l : list number) : option nat :=
  match l with
  | [] => None
  | x :: r => if x >? along then Some i else first_beyond along (S i) r
  end.

Definition stopsUntilAlight (matcher : MatcherIndex) (stops : list CaptureStop) (snapped : LngLat)
    : outcome StopsAhead :=
  if (length (coords matcher) <? 2)%nat || (length stops =? 0)%nat then Ok no_stops_ahead
  else
    s ← snapPreparedRoute matcher snapped None;
    stopAlong ← snap_all matcher (map stop_point stops);
    Ok match first_beyond (snap_alongMeters s) 0 stopAlong with
       | None => no_stops_ahead
       | Some i => {| nextStopIndex := Some i;
                      stopsRemaining := (Z.of_nat (length stops) - Z.of_nat i)%Z;
                      nextStopName := cs_name <$> stops !! i |}
       end.

Definition isApproachingTransitAlight (stops : list CaptureStop) (cursor : Z) (position : LngLat) : bool :=
  match last stops with
  | Some target =>
      (2 <=? length stops)%nat && (Z.of_nat (length stops) - 1 <=? cursor)%Z
      && (haversineDistance position (stop_point target) <=? 1000)
  | None => false
  end.

(** ** transitStopCursor.ts *)

(** [orderedAlong]: where along the leg each stop lies, in their order. *)
Definition orderedAlong (stops : list CaptureStop) (leg : PreparedTransitLeg) : outcome (list number) :=
  occurrences ← resolveWaypointOccurrences (ptl_matcher leg) (map stop_point stops) 0;
  Ok (num_of_Z 0 :: map wp_alongMeters occurrences).

Definition no_tracking : StopTracking :=
  {| st_alongTimestampMs := None; st_candidateAlongMeters := None; st_candidateTimestampMs := None |}.

Record StopAdvance := {
  adv_cursor : Z;
  adv_alongMeters : number;
  adv_trusted : bool;
  adv_tracking : option StopTracking;
}.

(** Metres a vehicle may have covered between [since] and the fix. *)
Definition movementBudget (timestampMs since : Z) : number :=
  num_max 150
    (num_min (num_max 0 ((num_of_Z timestampMs - num_of_Z since) / 1000)) 1800 * 90).

Definition within_stop (fix_ : FixInput) (stop : CaptureStop) : bool :=
  haversineDistance (fix_coords fix_) (stop_point stop) <=? 35 + num_min (fix_accuracy fix_) 20.

(** [while (next < limit && snap.alongMeters > projected[next] + 25) next++]: the
    limit is at most three stops away, so three rounds are enough. *)
Fixpoint pass_stops (fuel : nat) (projected : list number) (along : number) (limit next : Z) : Z :=
  match fuel with
  | O => next
  | S fuel =>
      if (next <? limit)%Z && (along >? default NaN (projected !! Z.to_nat next) + 25)
      then pass_stops fuel projected along limit (next + 1) else next
  end.

(** The first of the next three stops the fix is at. *)
Definition nearby_stop (fix_ : FixInput) (stops : list CaptureStop) (current : Z) : option Z :=
  List.find (fun i => match stops !! Z.to_nat i with Some s => within_stop fix_ s | None => false end)
    [current; current + 1; current + 2]%Z.

Section judged.
Variables (stops : list CaptureStop) (fix_ : FixInput) (previous : option FixInput).
Variables (current : Z) (alongMeters : number) (tracking : StopTracking) (snap : SnapResult).

Definition rawPlausible : bool :=
  match previous with
  | None => true
  | Some p => haversineDistance (fix_coords p) (fix_coords fix_)
              <=? movementBudget (fix_timestampMs fix_) (fix_timestampMs p)
  end.

Definition inCorridor : bool := snap_deviationMeters snap <=? 50 + num_min (fix_accuracy fix_) 25.

Definition forward : bool := snap_alongMeters snap >=? alongMeters - 50.

Definition plausible : bool :=
  match st_alongTimestampMs tracking with
  | None => true
  | Some since => rawPlausible
      && (snap_alongMeters snap - alongMeters <=? movementBudget (fix_timestampMs fix_) since)
  end.

Definition consistentCandidate : bool :=
  match st_candidateAlongMeters tracking, st_candidateTimestampMs tracking with
  | Some candidate, Some at_ =>
      (fix_timestampMs fix_ - at_ <=? 30000)%Z && rawPlausible
      && (num_abs (snap_alongMeters snap - candidate) <=? movementBudget (fix_timestampMs fix_) at_)
  | _, _ => false
  end.

Definition accepted_along : bool := inCorridor && forward && (plausible || consistentCandidate).

(** A position that is not believed: it may become the candidate the next one is
    compared with, and it counts only at a stop. *)
Definition hold_cursor : StopAdvance :=
  let near := if rawPlausible then nearby_stop fix_ stops current else None in
  {| adv_cursor := match near with
                   | Some i => Z.min (i + 1) (Z.of_nat (length stops) - 1)
                   | None => current
                   end;
     adv_alongMeters := alongMeters;
     adv_trusted := match near with Some _ => true | None => false end;
     adv_tracking :=
       Some (if inCorridor && forward
             then {| st_alongTimestampMs := st_alongTimestampMs tracking;
                     st_candidateAlongMeters := Some (snap_alongMeters snap);
                     st_candidateTimestampMs := Some (fix_timestampMs fix_) |}
             else {| st_alongTimestampMs := st_alongTimestampMs tracking;
                     st_candidateAlongMeters := None; st_candidateTimestampMs := None |}) |}.

Definition move_cursor (projected : list number) : StopAdvance :=
  {| adv_cursor := pass_stops 3 projected (snap_alongMeters snap)
                     (Z.min (current + 3) (Z.of_nat (length stops) - 1)) current;
     adv_alongMeters := num_max alongMeters (snap_alongMeters snap);
     adv_trusted := true;
     adv_tracking := Some {| st_alongTimestampMs := Some (fix_timestampMs fix_);
                             st_candidateAlongMeters := None; st_candidateTimestampMs := None |} |}.
End judged.

(** The nearest place of the line, unless that is behind: then the nearest one ahead. *)
Definition snap_ahead (leg : PreparedTransitLeg) (position : LngLat) (alongMeters : number) : outcome SnapResult :=
  nearest ← snapPreparedRoute (ptl_matcher leg) position None;
  if snap_alongMeters nearest <? alongMeters - 50
  then projectWaypointAfter (ptl_matcher leg) position (num_max 0 (alongMeters - 50))
  else Ok nearest.

Definition advanceTransitStopCursor (stops : list CaptureStop) (leg : option PreparedTransitLeg)
    (fix_ : FixInput) (previous : option FixInput) (cursor : Z) (alongMeters : number)
    (tracking : option StopTracking) : outcome StopAdvance :=
  let tracking := default no_tracking tracking in
  let lastIndex := (Z.of_nat (length stops) - 1)%Z in
  if (length stops <? 2)%nat
  then Ok {| adv_cursor := cursor; adv_alongMeters := alongMeters; adv_trusted := false; adv_tracking := None |}
  else
    let current := Z.min (Z.max 1 cursor) lastIndex in
    match leg with
    | None =>
        let near := match stops !! Z.to_nat current with Some s => within_stop fix_ s | None => false end in
        Ok {| adv_cursor := if near then Z.min (current + 1) lastIndex else current;
              adv_alongMeters := alongMeters; adv_trusted := near; adv_tracking := None |}
    | Some leg =>
        snap ← snap_ahead leg (fix_coords fix_) alongMeters;
        if accepted_along fix_ previous alongMeters tracking snap
        then projected ← orderedAlong stops leg;
             Ok (move_cursor stops fix_ current alongMeters snap projected)
        else Ok (hold_cursor stops fix_ previous current alongMeters tracking snap)
    end.
End cursor.

(** ** Facts *)

Section cursor_facts.
Context `{MathFunctions} `{Turf}.

Lemma pass_stops_range fuel projected along limit next : (next <= limit)%Z ->
  (next <= pass_stops fuel projected along limit next <= limit)%Z.
Proof.
  revert next. induction fuel as [|fuel IH]; intros next Hn; cbn [pass_stops]; [lia|].
  destruct (_ && _) eqn:E; [|lia]. apply andb_true_iff in E as [E%Z.ltb_lt _].
  specialize (IH (next + 1)%Z ltac:(lia)). lia.
Qed.

(** With three rounds left or the limit in reach, the loop stops where its test fails. *)
Lemma pass_stops_stops fuel projected along limit next :
  (limit - next <= Z.of_nat fuel)%Z ->
  let n := pass_stops fuel projected along limit next in
  (n < limit)%Z -> (along >? default NaN (projected !! Z.to_nat n) + 25) = false.
Proof.
  revert next. induction fuel as [|fuel IH]; intros next Hf; cbn [pass_stops]; [lia|].
  destruct (_ && _) eqn:E; [apply IH; lia|]. intros Hn.
  apply andb_false_iff in E as [E%Z.ltb_ge|E]; [lia|done].
Qed.

Lemma nearby_stop_spec fix_ stops current i : nearby_stop fix_ stops current = Some i ->
  (current <= i <= current + 2)%Z /\ exists s, stops !! Z.to_nat i = Some s /\ within_stop fix_ s = true.
Proof.
  intros [Hin Hs]%List.find_some. destruct (stops !! Z.to_nat i) as [s|]; [|done].
  split; [|by exists s]. destruct Hin as [<-|[<-|[<-|[]]]]; lia.
Qed.

Lemma num_sub_le_defined x c y : num_le (x - c) y = true -> x <> NaN /\ y <> NaN.
Proof. intros Hle. split; intros ->; [by destruct c|]. by destruct (x - c). Qed.

Lemma snap_ahead_answers leg g position along : on_earth position ->
  ptl_matcher leg = buildIndex g -> (2 <= length g)%nat ->
  exists s, snap_ahead leg position along = Ok s.
Proof.
  intros Hpos Hm Hg. unfold snap_ahead. rewrite Hm.
  destruct (snap_answers g position Hpos Hg) as [s ->]. cbn [mbind outcome_bind].
  destruct (_ <? _); [|by eexists]. by apply project_after_answers.
Qed.

Lemma ordered_along_answers stops leg g : Forall (fun s => on_earth (stop_point s)) stops ->
  ptl_matcher leg = buildIndex g -> (2 <= length g)%nat ->
  exists l, orderedAlong stops leg = Ok l.
Proof.
  intros Hs Hm Hg. unfold orderedAlong, resolveWaypointOccurrences. rewrite Hm.
  assert (Forall on_earth (map stop_point stops)) as Hpoints by by apply Forall_map.
  destruct (resolve_answers g (default 0 (last (cumulativeDistances (coords (buildIndex g))))) 0
              (drop 1 (map stop_point stops)) (Forall_drop _ 1 _ Hpoints) Hg) as (l & -> & _). by eexists.
Qed.

(** A leg as [prepareTransitProgress] prepares it. *)
Definition prepared_from_line (leg : option PreparedTransitLeg) : Prop :=
  match leg with
  | Some leg => exists g, ptl_matcher leg = buildIndex g /\ (2 <= length g)%nat
  | None => True
  end.

Lemma leg_positions_line coords g : leg_positions coords = Ok (Some g) -> (2 <= length g)%nat.
Proof.
  assert (forall o : outcome (list LngLat),
    (points ← o; Ok (if (length points <? 2)%nat then None else Some points)) = Ok (Some g) -> (2 <= length g)%nat) as Hlong.
  { intros o (points & _ & E%Ok_inj)%outcome_bind_ok. destruct (length points <? 2)%nat eqn:El; [discriminate|].
    injection E as <-. by apply Nat.ltb_ge. }
  unfold leg_positions. destruct coords as [[| | | |l|]|]; cbn [truthy];
    try (repeat case_match; first [discriminate|apply Hlong]).
Qed.

Lemma prepare_legs_lines legs prepared : prepare_legs legs = Ok prepared ->
  length prepared = length legs /\ Forall prepared_from_line prepared.
Proof.
  revert prepared. induction legs as [|leg legs IH]; intros prepared; cbn [prepare_legs].
  { by intros <-%Ok_inj. }
  intros (p & Hp & (rest & Hr & <-%Ok_inj)%outcome_bind_ok)%outcome_bind_ok.
  apply IH in Hr as [Hlen Hall]. split; [simpl; lia|]. constructor; [|done].
  unfold prepare_leg in Hp. apply outcome_bind_ok in Hp as (x & _ & (points & Hpoints & <-%Ok_inj)%outcome_bind_ok).
  destruct points as [g|]; [|done]. exists g. split; [done|]. by eapply leg_positions_line.
Qed.

Lemma prepared_leg_line prepared i : Forall prepared_from_line prepared ->
  prepared_from_line (prepared_leg prepared i).
Proof.
  intros Hall. unfold prepared_leg. destruct (i <? 0)%Z; [done|].
  destruct (prepared !! Z.to_nat i) as [leg|] eqn:E; [|done]. by eapply Forall_lookup_1 in E.
Qed.

Lemma cursor_answers stops leg fix_ previous cursor along tracking :
  on_earth (fix_coords fix_) -> Forall (fun s => on_earth (stop_point s)) stops -> prepared_from_line leg ->
  exists a, advanceTransitStopCursor stops leg fix_ previous cursor along tracking = Ok a.
Proof.
  intros Hfix Hstops Hleg. unfold advanceTransitStopCursor. cbv zeta. destruct (length stops <? 2)%nat; [by eexists|].
  destruct leg as [leg|]; [|by eexists]. destruct Hleg as (g & Hm & Hg).
  destruct (snap_ahead_answers leg g (fix_coords fix_) along Hfix Hm Hg) as [s ->]. cbn [mbind outcome_bind].
  destruct (accepted_along _ _ _ _ _); [|by eexists].
  destruct (ordered_along_answers stops leg g Hstops Hm Hg) as [l ->]. by eexists.
Qed.

(** Where an answer may point, and the times it may keep. *)
Lemma advance_keeps stops leg fix_ previous cursor along tracking a :
  advanceTransitStopCursor stops leg fix_ previous cursor along tracking = Ok a ->
  (adv_cursor a = cursor \/ 1 <= adv_cursor a <= Z.of_nat (length stops) - 1)%Z /\
  (forall s, adv_tracking a = Some s ->
     (st_alongTimestampMs s = st_alongTimestampMs (default no_tracking tracking)
      \/ st_alongTimestampMs s = Some (fix_timestampMs fix_)) /\
     (st_candidateTimestampMs s = None \/ st_candidateTimestampMs s = Some (fix_timestampMs fix_))).
Proof.
  unfold advanceTransitStopCursor. cbv zeta. destruct (length stops <? 2)%nat eqn:E.
  { intros <-%Ok_inj. cbn. split; [by left|done]. }
  apply Nat.ltb_ge in E. set (current := Z.min _ _). assert (1 <= current <= Z.of_nat (length stops) - 1)%Z by lia.
  destruct leg as [leg|].
  2:{ intros <-%Ok_inj. cbn. split; [right|done]. repeat case_match; lia. }
  intros (s & _ & Ha)%outcome_bind_ok. destruct (accepted_along _ _ _ _ _).
  - apply outcome_bind_ok in Ha as (projected & _ & <-%Ok_inj). unfold move_cursor. cbn.
    split; [right|intros x [= <-]; cbn; auto].
    pose proof (pass_stops_range 3 projected (snap_alongMeters s)
                  (Z.min (current + 3) (Z.of_nat (length stops) - 1)) current ltac:(lia)) as Hr.
    cbn in Hr. lia.
  - apply Ok_inj in Ha as <-. unfold hold_cursor. cbn [adv_cursor adv_tracking]. split.
    + right. destruct (rawPlausible fix_ previous); [|lia].
      destruct (nearby_stop fix_ stops current) eqn:En; [|lia].
      apply nearby_stop_spec in En as (? & ? & Hl%lookup_lt_Some & _). lia.
    + intros x [= <-]. destruct (_ && _); cbn; auto.
Qed.

End cursor_facts.
