(* ===== verification/Samples.v ===== *)
(** * Concrete values

    Sessions, routes and records the witnesses of the library evaluate the
    definitions on.  Nothing here models code. *)

From S2P Require Import Prelude Protocol Session Snapshot.

(** Receipt checks of a build that has no receipts on its routes. *)
#[export] Instance accept_receipts : ReceiptValidators :=
  {| contributors_ok := fun _ => true;
     field_contributors_ok := fun _ => true;
     geometry_contributors_ok := fun _ _ => true |}.

Definition deg (n : Z) : number := num_of_Z n.

Definition sample_route : Route :=
  {| route_distance := deg 1000; route_duration := deg 120;
     route_geometry := [(deg 8, deg 50); (deg 9, deg 50)];
     route_steps := []; route_mode := "driving";
     route_segmentSpeedLimits := None; route_summary := None; route_extra := [] |}.

Definition sample_ground_package : GroundNavigationStartPackage :=
  {| gp_route := sample_route; gp_alternatives := []; gp_mode := Driving;
     gp_destinationWaypoints := [(deg 9, deg 50)];
     gp_routeProvider := None; gp_routeSelectionIntent := Automatic;
     gp_routeOptions := []; gp_capturedLiveSpeedLimits := None;
     gp_locale := En; gp_units := Metric;
     gp_settings := {| ground_voiceEnabled := true; ground_keepScreenOn := true;
                       ground_voiceTiming := Normal |} |}.

Definition sample_tick_state : NavTickState :=
  {| offRouteScore := deg 0; lastRerouteAtMs := None; rerouteBackoffMs := deg 0;
     spokenCues := []; speedEstimate := None; tick_extra := [] |}.

Definition sample_reroute : RerouteRuntime :=
  {| rr_status := RrIdle; rr_requestId := None; rr_attempts := 0;
     rr_nextAttemptAtMs := None; rr_lastFailureCode := None |}.

Definition sample_ground_payload : GroundPayload :=
  {| g_startPackage := sample_ground_package; g_tickState := sample_tick_state;
     g_progress := None; g_weakGps := false; g_offRoute := false; g_coasting := false;
     g_currentSpeedLimit := None; g_coastingAnchor := None; g_reroute := sample_reroute |}.

(** A ground session at a revision and in a status, alive for an hour. *)
Definition sample_ground (rev : Z) (st : SessionStatus) : MobileNavigationSession :=
  {| schemaVersion := 2; sessionId := "s1"; revision := rev; status := st;
     startedAtMs := 1000; updatedAtMs := 1000; expiresAtMs := 3601000;
     locale := En; units := Metric; connectivity := Online;
     permissionMode := ModeForegroundOnly;
     cueLedger := {| spoken := []; events := [] |};
     lastAcceptedFix := None; payload := GroundSession sample_ground_payload |}.

Definition sample_transit_package : TransitNavigationStartPackage :=
  {| tp_itinerary := [("legs", JArr []); ("refreshToken", JStr "secret")];
     tp_captures := []; tp_stopAreas := None; tp_replanOptions := None;
     tp_locale := En; tp_units := Metric;
     tp_settings := {| transit_voiceEnabled := true; transit_keepScreenOn := true;
                       transit_alightAlertsEnabled := true |};
     tp_itineraryFingerprint := "fp" |}.

Definition sample_transit_tick : TransitTickState :=
  {| t_currentLegIndex := 0; t_currentWalkStepIndex := 0; t_walkRevision := None;
     t_phase := PhaseWalking; t_lastAcceptedFix := None; t_lastProgressAtMs := None;
     t_legEnteredAtMs := 1000; t_stopCursor := None; t_alongMeters := None;
     t_stopTracking := None; t_reachedStepEnd := None; t_distanceToNextStepMeters := None;
     t_progressConfidence := None; t_offPlan := None; t_lastActionId := None;
     t_lastAction := None; t_spokenCueIds := []; t_emittedEventIds := [] |}.

Definition sample_refresh : RefreshRuntime :=
  {| rf_status := RfReady; rf_generation := 1; rf_requestId := None;
     rf_nextAttemptAtMs := None; rf_attempts := 0; rf_firstAttemptAtMs := None;
     rf_ambiguousAttempts := None |}.

Definition sample_transit_payload : TransitPayload :=
  {| p_startPackage := sample_transit_package; p_navigationDataRevision := None;
     p_tickState := sample_transit_tick; p_progress := None; p_confidence := ConfSchedule;
     p_refreshToken := Some "secret"; p_refresh := sample_refresh; p_scheduledAlerts := [] |}.

Definition sample_transit (rev : Z) (st : SessionStatus) : MobileNavigationSession :=
  set_payload (TransitSession sample_transit_payload) (sample_ground rev st).

Lemma sample_ground_valid :
  mobileNavigationSessionSchema (sample_ground 1 Active) = true.
Proof. vm_compute. reflexivity. Qed.

Lemma sample_transit_valid :
  mobileNavigationSessionSchema (sample_transit 1 Active) = true.
Proof. vm_compute. reflexivity. Qed.
