(* ===== verification/Database.v ===== *)
(** * The on-device database

    apps/mobile/src/storage/sql.ts and migrations.ts: the session tables as lists
    of rows (the rows of a table are kept in insertion order), and every statement
    the repository issues as a function on them.  A violated [CHECK] constraint
    rejects the statement, as the engine does. *)

From S2P Require Import Prelude Protocol Session Snapshot.

(** ** What the tables hold *)

(** [MobileTerminalAck["finalStatus"]]. *)
Inductive FinalStatus := FinalArrived | FinalStopped | FinalExpired | FinalError.

#[export] Instance FinalStatus_eq_dec : EqDecision FinalStatus.
Proof. solve_decision. Defined.

Record MobileTerminalAck := {
  ack_sessionId : string;
  ack_kind : Kind;
  ack_finalStatus : FinalStatus;
  ack_finalRevision : Z;
  ack_completedAtMs : Z;
}.

(** [CommandResponse]: the payloads the coordinator builds, and the one an
    auxiliary handler returns, which the repository never stores. *)
Inductive ResponsePayload :=
  | ErrorPayload (code : string) (forMessageId : option string)
  | SessionRevision (sessionId : string) (revision : Z)
  | StoppedPayload (sessionId : string) (finalStatus : FinalStatus) (revision : Z)
  | SnapshotPayload (snapshot : Snapshot)
  | AuxiliaryPayload (payload : json).

Record CommandResponse := {
  resp_type : string;
  resp_payload : ResponsePayload;
  resp_sessionId : option string;
  resp_revision : option Z;
}.

Record ActiveRow := {
  row_session_id : string;
  row_revision : Z;
  row_kind : Kind;
  row_status : SessionStatus;
  row_started_at_ms : Z;
  row_updated_at_ms : Z;
  row_expires_at_ms : Z;
  row_session_json : SessionText;
}.

Record EventRow := {
  ev_event_id : string;
  ev_session_id : string;
  ev_critical : bool;
  ev_sequence : Z;
  ev_created_at_ms : Z;
  ev_payload : json;
}.

Record CommandRow := {
  cmd_message_id : string;
  cmd_session_id : option string;
  cmd_response : CommandResponse;
  cmd_created_at_ms : Z;
  cmd_expires_at_ms : Z;
}.

Inductive AlertState := AlertStateScheduled | AlertStateFired | AlertStateCancelled.

Record AlertRow := {
  al_alert_id : string;
  al_session_id : string;
  al_leg_index : Z;
  al_trigger_at_ms : Z;
  al_state : AlertState;
  al_updated_at_ms : Z;
}.

Record DiagnosticRow := {
  dg_id : Z;
  dg_created_at_ms : Z;
  dg_type : string;
  dg_fields_json : string;
}.

Record QuarantineRow := {
  qr_id : Z;
  qr_quarantined_at_ms : Z;
  qr_reason : string;
  qr_session_id : option string;
  qr_schema_version : option Z;
}.

(** The database.  [active_navigation] has at most the row [id = 1]; the two
    counters are the [AUTOINCREMENT] sequences. *)
Record db := MkDb {
  active_navigation : option ActiveRow;
  terminal_ack : list MobileTerminalAck;
  navigation_events : list EventRow;
  processed_commands : list CommandRow;
  scheduled_alerts : list AlertRow;
  diagnostic_events : list DiagnosticRow;
  diagnostic_sequence : Z;
  quarantined_sessions : list QuarantineRow;
  quarantine_sequence : Z;
}.

Definition empty_db : db := MkDb None [] [] [] [] [] 0 [] 0.

Definition with_active (a : option ActiveRow) (d : db) : db :=
  MkDb a (terminal_ack d) (navigation_events d) (processed_commands d) (scheduled_alerts d)
    (diagnostic_events d) (diagnostic_sequence d) (quarantined_sessions d) (quarantine_sequence d).
Definition with_acks (a : list MobileTerminalAck) (d : db) : db :=
  MkDb (active_navigation d) a (navigation_events d) (processed_commands d) (scheduled_alerts d)
    (diagnostic_events d) (diagnostic_sequence d) (quarantined_sessions d) (quarantine_sequence d).
Definition with_events (e : list EventRow) (d : db) : db :=
  MkDb (active_navigation d) (terminal_ack d) e (processed_commands d) (scheduled_alerts d)
    (diagnostic_events d) (diagnostic_sequence d) (quarantined_sessions d) (quarantine_sequence d).
Definition with_commands (c : list CommandRow) (d : db) : db :=
  MkDb (active_navigation d) (terminal_ack d) (navigation_events d) c (scheduled_alerts d)
    (diagnostic_events d) (diagnostic_sequence d) (quarantined_sessions d) (quarantine_sequence d).
Definition with_alerts (a : list AlertRow) (d : db) : db :=
  MkDb (active_navigation d) (terminal_ack d) (navigation_events d) (processed_commands d) a
    (diagnostic_events d) (diagnostic_sequence d) (quarantined_sessions d) (quarantine_sequence d).
Definition with_diagnostics (r : list DiagnosticRow) (n : Z) (d : db) : db :=
  MkDb (active_navigation d) (terminal_ack d) (navigation_events d) (processed_commands d)
    (scheduled_alerts d) r n (quarantined_sessions d) (quarantine_sequence d).
Definition with_quarantine (r : list QuarantineRow) (n : Z) (d : db) : db :=
  MkDb (active_navigation d) (terminal_ack d) (navigation_events d) (processed_commands d)
    (scheduled_alerts d) (diagnostic_events d) (diagnostic_sequence d) r n.

(** ** Statements *)

(** *** [active_navigation] *)

Definition SELECT_ACTIVE : M db (option ActiveRow) := gets active_navigation.

(** The upsert on the singleton; [CHECK (revision >= 0)]. *)
Definition UPSERT_ACTIVE (r : ActiveRow) : M db unit :=
  if row_revision r <? 0 then throw "CHECK constraint failed: revision >= 0"
  else modify (with_active (Some r)).

Definition DELETE_ACTIVE : M db unit := modify (with_active None).

(** *** [terminal_ack] *)

(** [ON CONFLICT(session_id) DO UPDATE] leaves [kind] as it was. *)
Definition upsert_ack (a : MobileTerminalAck) (l : list MobileTerminalAck) :=
  if decide (ack_sessionId a ∈ map ack_sessionId l)
  then map (fun r => if String.eqb (ack_sessionId r) (ack_sessionId a)
                     then {| ack_sessionId := ack_sessionId r;
                             ack_kind := ack_kind r;
                             ack_finalStatus := ack_finalStatus a;
                             ack_finalRevision := ack_finalRevision a;
                             ack_completedAtMs := ack_completedAtMs a |}
                     else r) l
  else l ++ [a].

Definition UPSERT_TERMINAL_ACK (a : MobileTerminalAck) : M db unit :=
  if ack_finalRevision a <? 0 then throw "CHECK constraint failed: final_revision >= 0"
  else modify (fun d => with_acks (upsert_ack a (terminal_ack d)) d).

Definition SELECT_TERMINAL_ACK (sessionId : string) : M db (option MobileTerminalAck) :=
  gets (fun d => List.find (fun r => String.eqb (ack_sessionId r) sessionId) (terminal_ack d)).

(** *** [navigation_events] *)

Definition events_of (sessionId : string) (d : db) : list EventRow :=
  filter (fun r => ev_session_id r = sessionId) (navigation_events d).

(** [ON CONFLICT(event_id) DO NOTHING]. *)
Definition INSERT_EVENT (r : EventRow) : M db unit :=
  modify (fun d =>
    if decide (ev_event_id r ∈ map ev_event_id (navigation_events d)) then d
    else with_events (navigation_events d ++ [r]) d).

Definition SELECT_EVENTS (sessionId : string) : M db (list EventRow) :=
  gets (fun d => order_by (fun a b => ev_sequence a <=? ev_sequence b) (events_of sessionId d)).

Definition COUNT_EVENTS (sessionId : string) : M db Z :=
  gets (fun d => Z.of_nat (length (events_of sessionId d))).

(** [COALESCE(MAX(sequence), 0)] *)
Definition max_sequence (l : list EventRow) : Z :=
  match l with
  | [] => 0
  | r :: rest => foldl (fun m e => Z.max m (ev_sequence e)) (ev_sequence r) rest
  end.

Definition NEXT_EVENT_SEQUENCE (sessionId : string) : M db Z :=
  gets (fun d => max_sequence (events_of sessionId d) + 1).

Definition DELETE_EVENT (eventId : string) : M db unit :=
  modify (fun d => with_events (filter (fun r => ev_event_id r <> eventId) (navigation_events d)) d).

Definition DELETE_NON_CRITICAL_EVENTS (sessionId : string) : M db unit :=
  modify (fun d => with_events
    (filter (fun r => ~ (ev_session_id r = sessionId /\ ev_critical r = false))
       (navigation_events d)) d).

Definition DELETE_SESSION_EVENTS (sessionId : string) : M db unit :=
  modify (fun d => with_events
    (filter (fun r => ev_session_id r <> sessionId) (navigation_events d)) d).

(** *** [processed_commands] *)

Definition INSERT_PROCESSED_COMMAND (r : CommandRow) : M db unit :=
  modify (fun d =>
    if decide (cmd_message_id r ∈ map cmd_message_id (processed_commands d)) then d
    else with_commands (processed_commands d ++ [r]) d).

Definition SELECT_PROCESSED_COMMAND (messageId : string) : M db (option CommandRow) :=
  gets (fun d => List.find (fun r => String.eqb (cmd_message_id r) messageId)
                   (processed_commands d)).

Definition DELETE_EXPIRED_COMMANDS (nowMs : Z) : M db unit :=
  modify (fun d => with_commands
    (filter (fun r => nowMs < cmd_expires_at_ms r) (processed_commands d)) d).

(** [ORDER BY created_at_ms DESC, message_id DESC] *)
Definition newer_command (a b : CommandRow) : bool :=
  if cmd_created_at_ms a =? cmd_created_at_ms b
  then String.ltb (cmd_message_id b) (cmd_message_id a)
  else cmd_created_at_ms b <? cmd_created_at_ms a.

Definition TRIM_PROCESSED_COMMANDS (limit : nat) : M db unit :=
  modify (fun d => with_commands
    (keep_unselected cmd_message_id
       (drop limit (order_by newer_command (processed_commands d))) (processed_commands d)) d).

Definition DELETE_SESSION_COMMANDS (sessionId : string) : M db unit :=
  modify (fun d => with_commands
    (filter (fun r => cmd_session_id r <> Some sessionId) (processed_commands d)) d).

(** *** [scheduled_alerts] *)

(** [ON CONFLICT(alert_id) DO UPDATE] leaves [session_id] as it was. *)
Definition upsert_alert (a : AlertRow) (l : list AlertRow) : list AlertRow :=
  if decide (al_alert_id a ∈ map al_alert_id l)
  then map (fun r => if String.eqb (al_alert_id r) (al_alert_id a)
                     then {| al_alert_id := al_alert_id r;
                             al_session_id := al_session_id r;
                             al_leg_index := al_leg_index a;
                             al_trigger_at_ms := al_trigger_at_ms a;
                             al_state := AlertStateScheduled;
                             al_updated_at_ms := al_updated_at_ms a |}
                     else r) l
  else l ++ [a].

(** [CHECK (leg_index >= 0)] *)
Definition INSERT_SCHEDULED_ALERT (alertId sessionId : string)
    (legIndex triggerAtMs nowMs : Z) : M db unit :=
  if legIndex <? 0 then throw "CHECK constraint failed: leg_index >= 0"
  else modify (fun d => with_alerts
         (upsert_alert {| al_alert_id := alertId;
                          al_session_id := sessionId;
                          al_leg_index := legIndex;
                          al_trigger_at_ms := triggerAtMs;
                          al_state := AlertStateScheduled;
                          al_updated_at_ms := nowMs |} (scheduled_alerts d)) d).

(** [ORDER BY trigger_at_ms ASC, alert_id ASC] *)
Definition earlier_alert (a b : AlertRow) : bool :=
  if al_trigger_at_ms a =? al_trigger_at_ms b
  then String.ltb (al_alert_id a) (al_alert_id b)
  else al_trigger_at_ms a <? al_trigger_at_ms b.

Definition SELECT_SCHEDULED_ALERTS (sessionId : string) : M db (list AlertRow) :=
  gets (fun d => order_by earlier_alert
                   (filter (fun r => al_session_id r = sessionId) (scheduled_alerts d))).

Definition UPDATE_ALERT_STATE (state : AlertState) (nowMs : Z) (alertId : string) : M db unit :=
  modify (fun d => with_alerts
    (map (fun r => if String.eqb (al_alert_id r) alertId
                   then {| al_alert_id := al_alert_id r;
                           al_session_id := al_session_id r;
                           al_leg_index := al_leg_index r;
                           al_trigger_at_ms := al_trigger_at_ms r;
                           al_state := state;
                           al_updated_at_ms := nowMs |}
                   else r) (scheduled_alerts d)) d).

Definition DELETE_SESSION_ALERTS (sessionId : string) : M db unit :=
  modify (fun d => with_alerts
    (filter (fun r => al_session_id r <> sessionId) (scheduled_alerts d)) d).

(** *** [diagnostic_events] *)

Definition INSERT_DIAGNOSTIC (nowMs : Z) (type fields_json : string) : M db unit :=
  modify (fun d =>
    let id := diagnostic_sequence d + 1 in
    with_diagnostics
      (diagnostic_events d ++ [{| dg_id := id; dg_created_at_ms := nowMs; dg_type := type;
                                  dg_fields_json := fields_json |}]) id d).

Definition older_diagnostic (a b : DiagnosticRow) : bool := dg_id a <? dg_id b.

Definition SELECT_DIAGNOSTICS : M db (list DiagnosticRow) :=
  gets (fun d => order_by older_diagnostic (diagnostic_events d)).

Definition diagnostic_bytes (l : list DiagnosticRow) : Z :=
  foldr (fun r n => str_length (dg_fields_json r) + str_length (dg_type r) + 32 + n) 0 l.

Definition DIAGNOSTIC_USAGE : M db (Z * Z) :=
  gets (fun d => (Z.of_nat (length (diagnostic_events d)), diagnostic_bytes (diagnostic_events d))).

Definition DELETE_OLDEST_DIAGNOSTICS (limit : Z) : M db unit :=
  modify (fun d => with_diagnostics
    (keep_unselected dg_id
       (take (Z.to_nat limit) (order_by older_diagnostic (diagnostic_events d)))
       (diagnostic_events d)) (diagnostic_sequence d) d).

Definition DELETE_ALL_DIAGNOSTICS : M db unit :=
  modify (fun d => with_diagnostics [] (diagnostic_sequence d) d).

(** *** [quarantined_sessions] *)

Definition INSERT_QUARANTINE (nowMs : Z) (reason : string) (sessionId : option string)
    (schemaVersion : option Z) : M db unit :=
  modify (fun d =>
    let id := quarantine_sequence d + 1 in
    with_quarantine
      (quarantined_sessions d ++ [{| qr_id := id; qr_quarantined_at_ms := nowMs;
                                     qr_reason := reason; qr_session_id := sessionId;
                                     qr_schema_version := schemaVersion |}]) id d).

(** [ORDER BY quarantined_at_ms DESC, id DESC] *)
Definition newer_quarantine (a b : QuarantineRow) : bool :=
  if qr_quarantined_at_ms a =? qr_quarantined_at_ms b
  then qr_id b <? qr_id a
  else qr_quarantined_at_ms b <? qr_quarantined_at_ms a.

Definition SELECT_QUARANTINE : M db (list QuarantineRow) :=
  gets (fun d => order_by newer_quarantine (quarantined_sessions d)).

(** Deletes the rows whose id is not among the newest [limit]. *)
Definition TRIM_QUARANTINE (limit : nat) : M db unit :=
  modify (fun d => with_quarantine
    (filter (fun r => qr_id r ∈ map qr_id
                        (take limit (order_by newer_quarantine (quarantined_sessions d))))
       (quarantined_sessions d)) (quarantine_sequence d) d).
