(* ===== verification/Repository.v ===== *)
(** * The single writer of session authority

    apps/mobile/src/storage/SessionRepository.ts: every operation of
    [SessionRepository] as a handler over the database, the invariant of the
    database it keeps, and its contract as a compare-and-swap register. *)

From S2P Require Import Prelude Protocol Session Snapshot Database.

(** ** Intents, events and mutations *)

(** [SessionEffect]: post-commit intents, data only. *)
Inductive SessionEffect :=
  | ReconcileSurface
  | StartLocation (permissionMode : PermissionMode)
  | StopLocation
  | UpdateLocationProfile (profile : string)
  | Speak (cueId text : string) (locale : Locale)
  | StopAudio
  | ReconcileAlerts (sessionId : string)
  | CancelSessionAlerts (sessionId : string)
  | PublishSnapshot (immediate : bool)
  | PublishEvent (eventId : string)
  | RequestReroute (requestId : string)
  | RequestTransitRefresh (requestId : string).

Record OutboxEvent := {
  out_eventId : string;
  out_sessionId : string;
  out_critical : bool;
  out_createdAtMs : Z;
  out_payload : json;
}.

(** [OutboxEvent & { sequence }] as [listPendingEvents] returns it. *)
Record PendingEvent := {
  pending_event : OutboxEvent;
  pending_sequence : Z;
}.

(** [Omit<OutboxEvent, "sessionId" | "createdAtMs">] *)
Record EventInput := {
  in_eventId : string;
  in_critical : bool;
  in_payload : json;
}.

Record ScheduledAlertInput := {
  alert_alertId : string;
  alert_legIndex : Z;
  alert_triggerAtMs : Z;
}.

(** [RepositoryMutation], which is also what a processor returns. *)
Record RepositoryMutation := {
  mut_session : MobileNavigationSession;
  mut_effects : list SessionEffect;
  mut_enqueue : list EventInput;
  mut_alerts : option (list ScheduledAlertInput);
}.

Inductive CommitFailure := RevisionConflict | NoActiveSession | SessionActive | CorruptSession.

#[export] Instance CommitFailure_eq_dec : EqDecision CommitFailure.
Proof. solve_decision. Defined.

Inductive CommitResult :=
  | CommitOk (session : MobileNavigationSession) (effects : list SessionEffect)
  | CommitFail (code : CommitFailure).

Inductive ActiveSessionInspection :=
  | InspectNone
  | InspectQuarantined
  | InspectActive (session : MobileNavigationSession).

Definition MAX_OUTBOX_EVENTS : Z := 256.
Definition MAX_PROCESSED_COMMANDS : nat := 1024.
Definition PROCESSED_COMMAND_TTL_MS : Z := 24 * 60 * 60 * 1000.
Definition MAX_DIAGNOSTIC_ROWS : Z := 5000.
Definition MAX_DIAGNOSTIC_BYTES : Z := 1024 * 1024.
Definition MAX_QUARANTINE_RECORDS : nat := 3.
Definition MAX_QUARANTINE_REASON_LENGTH : nat := 64.

(** [TERMINAL_STATUSES.has(status)] *)
Definition is_terminal_status (s : SessionStatus) : bool :=
  match s with Arrived | Stopped | Expired | Errored => true | Preparing | Active => false end.

(** The text of a parse failure code. *)
Definition parse_code_text (c : SessionParseCode) : string :=
  match c with
  | UnsupportedSchema => "unsupported-schema"
  | InvalidSession => "invalid-session"
  end.

(** ** Internals *)

Definition row_of (s : MobileNavigationSession) : ActiveRow :=
  {| row_session_id := sessionId s;
     row_revision := revision s;
     row_kind := kind s;
     row_status := status s;
     row_started_at_ms := startedAtMs s;
     row_updated_at_ms := updatedAtMs s;
     row_expires_at_ms := expiresAtMs s;
     row_session_json := TextOf s |}.

Definition writeActive (s : MobileNavigationSession) : M db unit := UPSERT_ACTIVE (row_of s).

Definition deleteSessionRows (sessionId : string) : M db unit :=
  _ ← DELETE_ACTIVE;
  _ ← DELETE_SESSION_EVENTS sessionId;
  _ ← DELETE_SESSION_ALERTS sessionId;
  DELETE_SESSION_COMMANDS sessionId.

Definition insert_event_row (event : OutboxEvent) : M db unit :=
  next ← NEXT_EVENT_SEQUENCE (out_sessionId event);
  INSERT_EVENT {| ev_event_id := out_eventId event;
                  ev_session_id := out_sessionId event;
                  ev_critical := out_critical event;
                  ev_sequence := next;
                  ev_created_at_ms := out_createdAtMs event;
                  ev_payload := out_payload event |}.

Definition enqueueEventIn (event : OutboxEvent) : M db unit :=
  count ← COUNT_EVENTS (out_sessionId event);
  if MAX_OUTBOX_EVENTS <=? count then
    _ ← DELETE_NON_CRITICAL_EVENTS (out_sessionId event);
    after ← COUNT_EVENTS (out_sessionId event);
    if MAX_OUTBOX_EVENTS <=? after then mret tt else insert_event_row event
  else insert_event_row event.

Definition replaceAlertsIn (sessionId : string) (alerts : list ScheduledAlertInput) (nowMs : Z)
    : M db unit :=
  _ ← DELETE_SESSION_ALERTS sessionId;
  for_each alerts (fun alert =>
    INSERT_SCHEDULED_ALERT (alert_alertId alert) sessionId (alert_legIndex alert)
      (alert_triggerAtMs alert) nowMs).

Definition readDiagnosticUsage : M db (Z * Z) := DIAGNOSTIC_USAGE.

(** ** Quarantine and reading *)

Definition quarantineCorruptSession (sessionId : option string) (reason : string) (nowMs : Z)
    : M db unit :=
  transaction (
    _ ← INSERT_QUARANTINE nowMs (slice0 MAX_QUARANTINE_REASON_LENGTH reason) sessionId None;
    _ ← DELETE_ACTIVE;
    _ ← match non_empty sessionId with
        | Some sid =>
            _ ← DELETE_SESSION_EVENTS sid;
            _ ← DELETE_SESSION_ALERTS sid;
            DELETE_SESSION_COMMANDS sid
        | None => mret tt
        end;
    TRIM_QUARANTINE MAX_QUARANTINE_RECORDS).

Section repository.
Context `{ReceiptValidators}.

Definition inspectActive (nowMs : Z) : M db ActiveSessionInspection :=
  row ← SELECT_ACTIVE;
  match row with
  | None => mret InspectNone
  | Some row =>
      match parseMobileSession (row_session_json row) with
      | inl session => mret (InspectActive session)
      | inr code =>
          _ ← quarantineCorruptSession (Some (row_session_id row)) (parse_code_text code) nowMs;
          mret InspectQuarantined
      end
  end.

Definition loadActive (nowMs : Z) : M db (option MobileNavigationSession) :=
  inspected ← inspectActive nowMs;
  mret match inspected with InspectActive session => Some session | _ => None end.

Definition readTerminalAck (sessionId : string) : M db (option MobileTerminalAck) :=
  SELECT_TERMINAL_ACK sessionId.

(** ** Writing *)

Definition createPreparing (session : MobileNavigationSession) : M db CommitResult :=
  transaction (
    existing ← SELECT_ACTIVE;
    match existing with
    | Some row =>
        match parseMobileSession (row_session_json row) with
        | inl parsed =>
            if negb (is_terminal_status (status parsed))
            then mret (CommitFail SessionActive)
            else _ ← deleteSessionRows (row_session_id row);
                 _ ← writeActive session;
                 mret (CommitOk session [])
        | inr _ =>
            _ ← deleteSessionRows (row_session_id row);
            _ ← writeActive session;
            mret (CommitOk session [])
        end
    | None =>
        _ ← writeActive session;
        mret (CommitOk session [])
    end).

Definition compareAndSwap (sid : string) (expectedRevision : Z)
    (mutate : MobileNavigationSession -> RepositoryMutation) (nowMs : Z) : M db CommitResult :=
  transaction (
    row ← SELECT_ACTIVE;
    match row with
    | None => mret (CommitFail NoActiveSession)
    | Some row =>
      match parseMobileSession (row_session_json row) with
      | inr _ => mret (CommitFail CorruptSession)
      | inl current =>
        if negb (String.eqb (sessionId current) sid)
           || negb (revision current =? expectedRevision)
        then mret (CommitFail RevisionConflict)
        else
          let mutation := mutate current in
          if negb (String.eqb (sessionId (mut_session mutation)) sid)
          then throw "a mutation must not change the session identity"
          else if negb (revision (mut_session mutation) =? expectedRevision + 1)
          then throw "a committed mutation must advance the revision by exactly one"
          else
            _ ← writeActive (mut_session mutation);
            _ ← for_each (mut_enqueue mutation) (fun event =>
                  enqueueEventIn {| out_eventId := in_eventId event;
                                    out_sessionId := sid;
                                    out_critical := in_critical event;
                                    out_createdAtMs := nowMs;
                                    out_payload := in_payload event |});
            _ ← match mut_alerts mutation with
                | Some alerts => replaceAlertsIn sid alerts nowMs
                | None => mret tt
                end;
            mret (CommitOk (mut_session mutation) (mut_effects mutation))
      end
    end).

(** The effects of a termination that ended a session. *)
Definition termination_effects (sid : string) : list SessionEffect :=
  [StopLocation; StopAudio; CancelSessionAlerts sid; ReconcileSurface; PublishSnapshot true].

Definition terminate (sid : string) (finalStatus : FinalStatus) (nowMs : Z)
    : M db (option MobileTerminalAck * list SessionEffect) :=
  ack ← transaction (
    row ← SELECT_ACTIVE;
    match row with
    | None => mret None
    | Some row =>
      if negb (String.eqb (row_session_id row) sid) then mret None
      else
        let next :=
          {| ack_sessionId := sid;
             ack_kind := match parseMobileSession (row_session_json row) with
                         | inl session => kind session
                         | inr _ => Ground
                         end;
             ack_finalStatus := finalStatus;
             ack_finalRevision := row_revision row;
             ack_completedAtMs := nowMs |} in
        _ ← UPSERT_TERMINAL_ACK next;
        _ ← deleteSessionRows sid;
        mret (Some next)
    end);
  mret (ack, match ack with Some _ => termination_effects sid | None => [] end).
End repository.

(** ** Outbox *)

Definition enqueueEvent (event : OutboxEvent) : M db unit := transaction (enqueueEventIn event).

Definition pending_of (r : EventRow) : PendingEvent :=
  {| pending_event := {| out_eventId := ev_event_id r;
                         out_sessionId := ev_session_id r;
                         out_critical := ev_critical r;
                         out_createdAtMs := ev_created_at_ms r;
                         out_payload := ev_payload r |};
     pending_sequence := ev_sequence r |}.

Definition listPendingEvents (sessionId : string) : M db (list PendingEvent) :=
  rows ← SELECT_EVENTS sessionId; mret (map pending_of rows).

Definition ackEvents (eventIds : list string) : M db unit :=
  match eventIds with
  | [] => mret tt
  | _ => transaction (for_each eventIds DELETE_EVENT)
  end.

(** ** Command dedupe *)

Definition rememberCommand (messageId : string) (sessionId : option string)
    (response : CommandResponse) (nowMs : Z) : M db unit :=
  transaction (
    _ ← INSERT_PROCESSED_COMMAND
          {| cmd_message_id := messageId;
             cmd_session_id := sessionId;
             cmd_response := response;
             cmd_created_at_ms := nowMs;
             cmd_expires_at_ms := nowMs + PROCESSED_COMMAND_TTL_MS |};
    _ ← DELETE_EXPIRED_COMMANDS nowMs;
    TRIM_PROCESSED_COMMANDS MAX_PROCESSED_COMMANDS).

Definition lookupCommand (messageId : string) (nowMs : Z) : M db (option CommandResponse) :=
  row ← SELECT_PROCESSED_COMMAND messageId;
  mret match row with
       | Some row => if cmd_expires_at_ms row <=? nowMs then None else Some (cmd_response row)
       | None => None
       end.

(** ** Alerts *)

Definition replaceScheduledAlerts (sessionId : string) (alerts : list ScheduledAlertInput)
    (nowMs : Z) : M db unit :=
  transaction (replaceAlertsIn sessionId alerts nowMs).

Definition listScheduledAlerts (sessionId : string)
    : M db (list (ScheduledAlertInput * AlertState)) :=
  rows ← SELECT_SCHEDULED_ALERTS sessionId;
  mret (map (fun r => ({| alert_alertId := al_alert_id r;
                          alert_legIndex := al_leg_index r;
                          alert_triggerAtMs := al_trigger_at_ms r |}, al_state r)) rows).

Definition markAlert (alertId : string) (state : AlertState) (nowMs : Z) : M db unit :=
  UPDATE_ALERT_STATE state nowMs alertId.

(** ** Diagnostics *)

(** The double nearest to 0.1. *)
Definition tenth : number := Fin (QArith_base.Qmake 3602879701896397 36028797018963968).

(** [Math.ceil(rows * 0.1)] *)
Definition ceil_tenth (rows : Z) : Z :=
  match num_mul (num_of_Z rows) tenth with
  | Fin q => Qround.Qceiling q
  | _ => 0
  end.

Definition diagnostic_trim (rows : Z) : Z :=
  let excessRows := Z.max 0 (rows - MAX_DIAGNOSTIC_ROWS) in
  Z.min rows (Z.max (Z.max 1 excessRows) (ceil_tenth rows)).

(** The trimming loop; each round removes a row, so the fuel the caller gives,
    one more than the number of rows, is never used up. *)
Fixpoint trim_diagnostics (fuel : nat) (usage : Z * Z) : M db unit :=
  match fuel with
  | O => mret tt
  | S fuel =>
      if (MAX_DIAGNOSTIC_ROWS <? usage.1) || (MAX_DIAGNOSTIC_BYTES <? usage.2) then
        _ ← DELETE_OLDEST_DIAGNOSTICS (diagnostic_trim usage.1);
        next ← readDiagnosticUsage;
        if next.1 =? usage.1 then mret tt else trim_diagnostics fuel next
      else mret tt
  end.

(** [fields_json] is [JSON.stringify(fields)]. *)
Definition recordDiagnostic (type fields_json : string) (nowMs : Z) : M db unit :=
  transaction (
    _ ← INSERT_DIAGNOSTIC nowMs type fields_json;
    usage ← readDiagnosticUsage;
    trim_diagnostics (S (Z.to_nat usage.1)) usage).

Definition listDiagnostics : M db (list DiagnosticRow) := SELECT_DIAGNOSTICS.

Definition clearDiagnostics : M db unit := DELETE_ALL_DIAGNOSTICS.

Definition listQuarantined : M db (list QuarantineRow) := SELECT_QUARANTINE.
