(* ===== verification/RepositoryFacts.v ===== *)
(** * The repository's invariant and contract

    Over the operations of [Repository]: the invariant of the database they keep,
    the behaviour of each operation, and the compare-and-swap register the
    repository implements. *)

From S2P Require Import Prelude Protocol Session Snapshot Samples Database Repository.

(** ** The invariant *)

(** The indexed columns agree with the document in [session_json]. *)
Definition active_wf (a : option ActiveRow) : Prop :=
  match a with
  | None => True
  | Some r => 0 <= row_revision r
              /\ match row_session_json r with TextOf s => r = row_of s | OtherText _ => True end
  end.

Definition acks_wf (l : list MobileTerminalAck) : Prop := NoDup (map ack_sessionId l).

(** Sequence numbers of one session increase in insertion order. *)
Definition sequence_order (a b : EventRow) : Prop :=
  ev_session_id a = ev_session_id b -> ev_sequence a < ev_sequence b.

Definition events_wf (l : list EventRow) : Prop :=
  NoDup (map ev_event_id l)
  /\ (forall sid, Z.of_nat (length (filter (fun r => ev_session_id r = sid) l)) <= MAX_OUTBOX_EVENTS)
  /\ StronglySorted sequence_order l.

Definition commands_wf (l : list CommandRow) : Prop :=
  NoDup (map cmd_message_id l) /\ (length l <= MAX_PROCESSED_COMMANDS)%nat.

Definition alerts_wf (l : list AlertRow) : Prop :=
  NoDup (map al_alert_id l) /\ Forall (fun r => 0 <= al_leg_index r) l.

Definition diagnostics_sorted (n : Z) (l : list DiagnosticRow) : Prop :=
  StronglySorted (fun a b => dg_id a < dg_id b) l /\ Forall (fun r => dg_id r <= n) l.

Definition diagnostics_wf (n : Z) (l : list DiagnosticRow) : Prop :=
  diagnostics_sorted n l
  /\ Z.of_nat (length l) <= MAX_DIAGNOSTIC_ROWS /\ diagnostic_bytes l <= MAX_DIAGNOSTIC_BYTES.

Definition quarantine_sorted (n : Z) (l : list QuarantineRow) : Prop :=
  NoDup (map qr_id l) /\ Forall (fun r => qr_id r <= n) l.

Definition quarantine_wf (n : Z) (l : list QuarantineRow) : Prop :=
  quarantine_sorted n l /\ (length l <= MAX_QUARANTINE_RECORDS)%nat
  /\ Forall (fun r => (String.length (qr_reason r) <= MAX_QUARANTINE_REASON_LENGTH)%nat) l.

Record db_wf (d : db) : Prop := {
  wf_active : active_wf (active_navigation d);
  wf_acks : acks_wf (terminal_ack d);
  wf_events : events_wf (navigation_events d);
  wf_commands : commands_wf (processed_commands d);
  wf_alerts : alerts_wf (scheduled_alerts d);
  wf_diagnostics : diagnostics_wf (diagnostic_sequence d) (diagnostic_events d);
  wf_quarantine : quarantine_wf (quarantine_sequence d) (quarantined_sessions d);
}.

(** ** Every run of the repository *)

(** The public operations, and the damage a stored document can suffer between
    two of them: its text becomes something that is not a session. *)
Inductive repo_op :=
  | OpLoadActive (nowMs : Z)
  | OpCreatePreparing (session : MobileNavigationSession)
  | OpCompareAndSwap (sid : string) (expectedRevision : Z)
      (mutate : MobileNavigationSession -> RepositoryMutation) (nowMs : Z)
  | OpTerminate (sid : string) (finalStatus : FinalStatus) (nowMs : Z)
  | OpEnqueueEvent (event : OutboxEvent)
  | OpAckEvents (eventIds : list string)
  | OpRememberCommand (messageId : string) (sid : option string) (response : CommandResponse)
      (nowMs : Z)
  | OpReplaceScheduledAlerts (sid : string) (alerts : list ScheduledAlertInput) (nowMs : Z)
  | OpMarkAlert (alertId : string) (state : AlertState) (nowMs : Z)
  | OpRecordDiagnostic (type fields_json : string) (nowMs : Z)
  | OpClearDiagnostics
  | OpQuarantine (sid : option string) (reason : string) (nowMs : Z)
  | OpCorrupted (version : option Z).

Definition corrupt_row (version : option Z) (r : ActiveRow) : ActiveRow :=
  {| row_session_id := row_session_id r; row_revision := row_revision r;
     row_kind := row_kind r; row_status := row_status r;
     row_started_at_ms := row_started_at_ms r; row_updated_at_ms := row_updated_at_ms r;
     row_expires_at_ms := row_expires_at_ms r; row_session_json := OtherText version |}.

Definition ignore {S A} (m : M S A) : M S unit := _ ← m; mret tt.

Section runs.
Context `{ReceiptValidators}.

Definition run_repo_op (op : repo_op) : M db unit :=
  match op with
  | OpLoadActive nowMs => ignore (loadActive nowMs)
  | OpCreatePreparing session => ignore (createPreparing session)
  | OpCompareAndSwap sid e mutate nowMs => ignore (compareAndSwap sid e mutate nowMs)
  | OpTerminate sid st nowMs => ignore (terminate sid st nowMs)
  | OpEnqueueEvent event => enqueueEvent event
  | OpAckEvents ids => ackEvents ids
  | OpRememberCommand m sid r nowMs => rememberCommand m sid r nowMs
  | OpReplaceScheduledAlerts sid alerts nowMs => replaceScheduledAlerts sid alerts nowMs
  | OpMarkAlert a st nowMs => markAlert a st nowMs
  | OpRecordDiagnostic t f nowMs => recordDiagnostic t f nowMs
  | OpClearDiagnostics => clearDiagnostics
  | OpQuarantine sid reason nowMs => quarantineCorruptSession sid reason nowMs
  | OpCorrupted v => modify (fun d => with_active (corrupt_row v <$> active_navigation d) d)
  end.

(** The databases a run of operations leads to, rejected operations included. *)
Inductive repo_reachable (d0 : db) : db -> Prop :=
  | reach_start : repo_reachable d0 d0
  | reach_step d op : repo_reachable d0 d -> repo_reachable d0 (run_repo_op op d).2.
End runs.

(** ** Table lemmas *)

Create HintDb tables.

Lemma events_wf_sublist k l : k `sublist_of` l -> events_wf l -> events_wf k.
Proof.
  intros Hs (Hnd & Hlen & Hsort). repeat split.
  - by eapply NoDup_map_sublist.
  - intros sid. etrans; [|apply (Hlen sid)].
    apply inj_le. by apply length_filter_sublist.
  - by eapply StronglySorted_sublist.
Qed.

Lemma commands_wf_sublist k l : k `sublist_of` l -> commands_wf l -> commands_wf k.
Proof.
  intros Hs (Hnd & Hlen). split; [by eapply NoDup_map_sublist|].
  etrans; [by apply sublist_length|done].
Qed.

Lemma alerts_wf_sublist k l : k `sublist_of` l -> alerts_wf l -> alerts_wf k.
Proof.
  intros Hs (Hnd & Hlen). split; [by eapply NoDup_map_sublist|].
  rewrite Forall_forall in Hlen |- *. intros x Hx. apply Hlen. by eapply sublist_subseteq.
Qed.

#[export] Hint Resolve sublist_filter keep_unselected_sublist : tables.
#[export] Hint Resolve events_wf_sublist commands_wf_sublist alerts_wf_sublist : tables.

Lemma map_update_keys {A} (key : A -> string) (k : string) (f : A -> A) l :
  (forall r, key (f r) = key r) ->
  map key (map (fun r => if String.eqb (key r) k then f r else r) l) = map key l.
Proof. intros Hf. rewrite map_map. apply map_ext. intros r. by case_match. Qed.

Lemma upsert_ack_wf a l : acks_wf l -> acks_wf (upsert_ack a l).
Proof.
  unfold acks_wf, upsert_ack. intros Hl. case_decide as Hin.
  - by rewrite (map_update_keys ack_sessionId (ack_sessionId a)
      (fun r => {| ack_sessionId := ack_sessionId r; ack_kind := ack_kind r;
                   ack_finalStatus := ack_finalStatus a;
                   ack_finalRevision := ack_finalRevision a;
                   ack_completedAtMs := ack_completedAtMs a |})).
  - rewrite map_app. apply NoDup_app. simpl. repeat split; [done| |apply NoDup_singleton].
    intros x Hx ->%list_elem_of_singleton. done.
Qed.

Lemma upsert_alert_wf a l :
  0 <= al_leg_index a -> alerts_wf l -> alerts_wf (upsert_alert a l).
Proof.
  unfold alerts_wf, upsert_alert. intros Ha [Hnd Hlegs]. case_decide as Hin; split.
  - by rewrite (map_update_keys al_alert_id (al_alert_id a)
      (fun r => {| al_alert_id := al_alert_id r; al_session_id := al_session_id r;
                   al_leg_index := al_leg_index a; al_trigger_at_ms := al_trigger_at_ms a;
                   al_state := AlertStateScheduled; al_updated_at_ms := al_updated_at_ms a |})).
  - apply Forall_map. eapply Forall_impl; [exact Hlegs|]. intros r Hr. simpl. by case_match.
  - rewrite map_app. apply NoDup_app. simpl. repeat split; [done| |apply NoDup_singleton].
    intros x Hx ->%list_elem_of_singleton. done.
  - apply Forall_app. by repeat constructor.
Qed.

Lemma max_sequence_le l r : r ∈ l -> ev_sequence r <= max_sequence l.
Proof.
  unfold max_sequence. destruct l as [|x l]; [by intros ?%elem_of_nil|].
  assert (forall l m, m <= foldl (fun m e => Z.max m (ev_sequence e)) m l) as Hm.
  { clear. induction l as [|y l IH]; intros m; simpl; [lia|].
    etrans; [|apply IH]. lia. }
  intros [->|Hr]%elem_of_cons; [apply Hm|].
  generalize (ev_sequence x). induction l as [|y l IH]; [by apply elem_of_nil in Hr|].
  intros m. simpl. apply elem_of_cons in Hr as [->|Hr]; [etrans; [|apply Hm]; lia|].
  by apply IH.
Qed.

Lemma events_of_elem sid d r :
  r ∈ events_of sid d <-> r ∈ navigation_events d /\ ev_session_id r = sid.
Proof. unfold events_of. rewrite list_elem_of_filter. tauto. Qed.

(** Appending an event below the bound, under a fresh identity. *)
Lemma events_wf_snoc l r :
  events_wf l ->
  ev_event_id r ∉ map ev_event_id l ->
  Z.of_nat (length (filter (fun e => ev_session_id e = ev_session_id r) l)) < MAX_OUTBOX_EVENTS ->
  Forall (fun e => sequence_order e r) l ->
  events_wf (l ++ [r]).
Proof.
  intros (Hnd & Hlen & Hsort) Hid Hroom Hseq. repeat split.
  - rewrite map_app. apply NoDup_app. simpl. repeat split; [done| |apply NoDup_singleton].
    intros x Hx ->%list_elem_of_singleton. done.
  - intros sid. rewrite filter_app, length_app, filter_cons, filter_nil.
    case_decide as E; simpl.
    + subst sid. lia.
    + specialize (Hlen sid). lia.
  - by apply StronglySorted_snoc.
Qed.

Lemma diagnostic_bytes_app l k : diagnostic_bytes (l ++ k) = diagnostic_bytes l + diagnostic_bytes k.
Proof. induction l as [|r l IH]; simpl; [done|]. unfold diagnostic_bytes in *. lia. Qed.

Lemma diagnostic_bytes_nonneg l : 0 <= diagnostic_bytes l.
Proof.
  induction l as [|r l IH]; simpl; [done|]. fold (diagnostic_bytes l).
  unfold str_length. lia.
Qed.

Lemma diagnostics_sorted_snoc n r l :
  diagnostics_sorted n l -> dg_id r = n + 1 -> diagnostics_sorted (n + 1) (l ++ [r]).
Proof.
  intros [Hs Hn] Hr. split.
  - apply StronglySorted_snoc; [done|]. eapply Forall_impl; [exact Hn|]. simpl. lia.
  - apply Forall_app. split; [eapply Forall_impl; [exact Hn|]; simpl; lia|].
    repeat constructor. lia.
Qed.

Lemma diagnostics_sorted_nodup n l : diagnostics_sorted n l -> NoDup (map dg_id l).
Proof.
  intros [Hs _]. induction Hs as [|r l Hs IH Hr]; simpl; [constructor|].
  constructor; [|done]. intros (y & Hy & Hin)%list_elem_of_fmap.
  rewrite Forall_forall in Hr. specialize (Hr _ Hin). lia.
Qed.

Lemma diagnostics_sorted_drop n k l : diagnostics_sorted n l -> diagnostics_sorted n (drop k l).
Proof.
  intros [Hs Hn]. split; [|by apply Forall_drop].
  eapply StronglySorted_sublist; [|exact Hs]. apply sublist_drop.
Qed.

(** The rows are read oldest first, in the order they are kept. *)
Lemma diagnostics_order n l : diagnostics_sorted n l -> order_by older_diagnostic l = l.
Proof.
  intros [Hs _]. apply order_by_sorted. induction Hs as [|r l Hs IH Hr]; constructor; [done|].
  eapply Forall_impl; [exact Hr|]. intros x Hx. unfold older_diagnostic. by apply Z.ltb_lt.
Qed.

Lemma delete_oldest_drop k d :
  diagnostics_sorted (diagnostic_sequence d) (diagnostic_events d) ->
  DELETE_OLDEST_DIAGNOSTICS k d =
  (Ok tt, with_diagnostics (drop (Z.to_nat k) (diagnostic_events d)) (diagnostic_sequence d) d).
Proof.
  intros Hs. unfold DELETE_OLDEST_DIAGNOSTICS, modify. f_equal. f_equal.
  rewrite (diagnostics_order _ _ Hs). apply keep_unselected_take.
  by eapply diagnostics_sorted_nodup.
Qed.

(** A round of the loop removes at least one row, and at most all of them. *)
Lemma diagnostic_trim_bounds rows : 0 < rows -> 1 <= diagnostic_trim rows <= rows.
Proof. unfold diagnostic_trim. lia. Qed.

Definition within_limits (l : list DiagnosticRow) : Prop :=
  Z.of_nat (length l) <= MAX_DIAGNOSTIC_ROWS /\ diagnostic_bytes l <= MAX_DIAGNOSTIC_BYTES.

Definition usage_of (l : list DiagnosticRow) : Z * Z :=
  (Z.of_nat (length l), diagnostic_bytes l).

(** The trimming loop ends with both ceilings met, having removed the oldest
    rows. *)
Lemma trim_diagnostics_spec fuel d :
  diagnostics_sorted (diagnostic_sequence d) (diagnostic_events d) ->
  (length (diagnostic_events d) < fuel)%nat ->
  exists k,
    trim_diagnostics fuel (usage_of (diagnostic_events d)) d =
      (Ok tt, with_diagnostics (drop k (diagnostic_events d)) (diagnostic_sequence d) d)
    /\ within_limits (drop k (diagnostic_events d))
    /\ (within_limits (diagnostic_events d) -> k = 0%nat).
Proof.
  revert d. induction fuel as [|fuel IH]; intros d Hs Hf; [lia|]. cbn [trim_diagnostics].
  destruct ((MAX_DIAGNOSTIC_ROWS <? _) || _) eqn:E.
  - unfold mbind, M_bind. rewrite delete_oldest_drop by done.
    set (l := diagnostic_events d) in *. cbn [fst snd usage_of] in *.
    assert (0 < Z.of_nat (length l)) as Hpos.
    { apply orb_true_iff in E as [E|E]; apply Z.ltb_lt in E;
        unfold MAX_DIAGNOSTIC_ROWS, MAX_DIAGNOSTIC_BYTES in E; [lia|].
      destruct l; simpl in *; lia. }
    pose proof (diagnostic_trim_bounds _ Hpos) as Hk.
    set (k := diagnostic_trim (Z.of_nat (length l))) in *.
    unfold readDiagnosticUsage, DIAGNOSTIC_USAGE, gets. cbn [fst snd].
    assert ((Z.of_nat (length (drop (Z.to_nat k) l)) =? Z.of_nat (length l)) = false) as E'.
    { apply Z.eqb_neq. rewrite length_drop. lia. }
    cbn [with_diagnostics diagnostic_events]. rewrite E'.
    set (d' := with_diagnostics (drop (Z.to_nat k) l) (diagnostic_sequence d) d).
    destruct (IH d') as (k' & Hrun & Hlim & _).
    { by apply diagnostics_sorted_drop. }
    { simpl. rewrite length_drop. lia. }
    simpl in Hrun, Hlim. unfold usage_of in Hrun. rewrite drop_drop in Hrun, Hlim.
    exists (Z.to_nat k + k')%nat. split; [exact Hrun|]. split; [done|].
    intros [Hr Hb]. exfalso.
    apply orb_true_iff in E as [E|E]; apply Z.ltb_lt in E; lia.
  - apply orb_false_iff in E as [E1 E2]. apply Z.ltb_ge in E1, E2.
    exists 0%nat. rewrite drop_0. repeat split; try done. by destruct d.
Qed.

Lemma record_diagnostic_run type fields nowMs d :
  diagnostics_sorted (diagnostic_sequence d) (diagnostic_events d) ->
  exists k,
    let row := {| dg_id := diagnostic_sequence d + 1; dg_created_at_ms := nowMs;
                  dg_type := type; dg_fields_json := fields |} in
    recordDiagnostic type fields nowMs d =
      (Ok tt, with_diagnostics (drop k (diagnostic_events d ++ [row]))
                (diagnostic_sequence d + 1) d)
    /\ within_limits (drop k (diagnostic_events d ++ [row]))
    /\ (within_limits (diagnostic_events d ++ [row]) -> k = 0%nat).
Proof.
  intros Hs. set (row := Build_DiagnosticRow _ _ _ _).
  set (d' := with_diagnostics (diagnostic_events d ++ [row]) (diagnostic_sequence d + 1) d).
  destruct (trim_diagnostics_spec (S (length (diagnostic_events d'))) d') as (k & Hrun & Hlim & Hk).
  { by apply diagnostics_sorted_snoc. }
  { lia. }
  exists k. simpl. split; [|done].
  unfold recordDiagnostic, transaction, mbind, M_bind, INSERT_DIAGNOSTIC, modify,
    readDiagnosticUsage, DIAGNOSTIC_USAGE, gets. cbn [fst].
  cbv zeta. fold row.
  change (with_diagnostics (diagnostic_events d ++ [row]) (diagnostic_sequence d + 1) d) with d'.
  rewrite Nat2Z.id. unfold usage_of in Hrun. by rewrite Hrun.
Qed.

(** ** Statements keep the invariant *)

Section preserve_tables.
Implicit Types d : db.

Lemma with_active_wf a d : active_wf a -> db_wf d -> db_wf (with_active a d).
Proof. intros ? []. by constructor. Qed.

Lemma with_acks_wf l d : acks_wf l -> db_wf d -> db_wf (with_acks l d).
Proof. intros ? []. by constructor. Qed.

Lemma with_events_wf l d : events_wf l -> db_wf d -> db_wf (with_events l d).
Proof. intros ? []. by constructor. Qed.

Lemma with_commands_wf l d : commands_wf l -> db_wf d -> db_wf (with_commands l d).
Proof. intros ? []. by constructor. Qed.

Lemma with_alerts_wf l d : alerts_wf l -> db_wf d -> db_wf (with_alerts l d).
Proof. intros ? []. by constructor. Qed.

Lemma with_diagnostics_wf l n d :
  diagnostics_wf n l -> db_wf d -> db_wf (with_diagnostics l n d).
Proof. intros ? []. by constructor. Qed.

Lemma with_quarantine_wf l n d :
  quarantine_wf n l -> db_wf d -> db_wf (with_quarantine l n d).
Proof. intros ? []. by constructor. Qed.
End preserve_tables.

#[export] Hint Resolve with_active_wf with_acks_wf with_events_wf with_commands_wf
  with_alerts_wf with_diagnostics_wf with_quarantine_wf : tables.
#[export] Hint Resolve wf_active wf_acks wf_events wf_commands wf_alerts wf_diagnostics
  wf_quarantine upsert_ack_wf upsert_alert_wf : tables.

(** A statement that only removes rows, or is covered by a table lemma. *)
Ltac statement_wf := intros; apply preserves_modify; intros ? ?; eauto with tables.

Lemma UPSERT_ACTIVE_wf s : preserves db_wf (UPSERT_ACTIVE (row_of s)).
Proof.
  unfold UPSERT_ACTIVE. case_match eqn:E; [apply preserves_throw|].
  apply Z.ltb_ge in E. apply preserves_modify. intros d Hd.
  apply with_active_wf; [|done]. by split.
Qed.

Lemma DELETE_ACTIVE_wf : preserves db_wf DELETE_ACTIVE.
Proof. apply preserves_modify. intros d Hd. by apply with_active_wf. Qed.

Lemma UPSERT_TERMINAL_ACK_wf a : preserves db_wf (UPSERT_TERMINAL_ACK a).
Proof. unfold UPSERT_TERMINAL_ACK. case_match; [apply preserves_throw|statement_wf]. Qed.

Lemma DELETE_EVENT_wf id : preserves db_wf (DELETE_EVENT id).
Proof. statement_wf. Qed.

Lemma DELETE_SESSION_EVENTS_wf sid : preserves db_wf (DELETE_SESSION_EVENTS sid).
Proof. statement_wf. Qed.

Lemma DELETE_NON_CRITICAL_EVENTS_wf sid : preserves db_wf (DELETE_NON_CRITICAL_EVENTS sid).
Proof. statement_wf. Qed.

Lemma DELETE_SESSION_COMMANDS_wf sid : preserves db_wf (DELETE_SESSION_COMMANDS sid).
Proof. statement_wf. Qed.

Lemma DELETE_SESSION_ALERTS_wf sid : preserves db_wf (DELETE_SESSION_ALERTS sid).
Proof. statement_wf. Qed.

Lemma INSERT_SCHEDULED_ALERT_wf a sid leg at_ nowMs :
  preserves db_wf (INSERT_SCHEDULED_ALERT a sid leg at_ nowMs).
Proof.
  unfold INSERT_SCHEDULED_ALERT. case_match eqn:E; [apply preserves_throw|].
  apply Z.ltb_ge in E. apply preserves_modify. intros d Hd.
  apply with_alerts_wf; [|done]. apply upsert_alert_wf; eauto with tables.
Qed.

Lemma UPDATE_ALERT_STATE_wf st nowMs a : preserves db_wf (UPDATE_ALERT_STATE st nowMs a).
Proof.
  apply preserves_modify. intros d Hd. apply with_alerts_wf; [|done].
  destruct (wf_alerts d Hd) as [Hnd Hlegs]. split.
  - by rewrite (map_update_keys al_alert_id a
      (fun r => {| al_alert_id := al_alert_id r; al_session_id := al_session_id r;
                   al_leg_index := al_leg_index r; al_trigger_at_ms := al_trigger_at_ms r;
                   al_state := st; al_updated_at_ms := nowMs |})).
  - apply Forall_map. eapply Forall_impl; [exact Hlegs|]. intros r Hr. simpl. by case_match.
Qed.

Lemma DELETE_ALL_DIAGNOSTICS_wf : preserves db_wf DELETE_ALL_DIAGNOSTICS.
Proof.
  apply preserves_modify. intros d Hd. apply with_diagnostics_wf; [|done].
  repeat split; simpl; try done; constructor.
Qed.

#[export] Hint Resolve UPSERT_ACTIVE_wf DELETE_ACTIVE_wf UPSERT_TERMINAL_ACK_wf DELETE_EVENT_wf
  DELETE_SESSION_EVENTS_wf DELETE_NON_CRITICAL_EVENTS_wf DELETE_SESSION_COMMANDS_wf
  DELETE_SESSION_ALERTS_wf INSERT_SCHEDULED_ALERT_wf UPDATE_ALERT_STATE_wf
  DELETE_ALL_DIAGNOSTICS_wf : preserve.

(** ** The outbox *)

Definition room_for (sid : string) (d : db) : Prop :=
  Z.of_nat (length (events_of sid d)) < MAX_OUTBOX_EVENTS.

Definition event_row (event : OutboxEvent) (d : db) : EventRow :=
  {| ev_event_id := out_eventId event;
     ev_session_id := out_sessionId event;
     ev_critical := out_critical event;
     ev_sequence := max_sequence (events_of (out_sessionId event) d) + 1;
     ev_created_at_ms := out_createdAtMs event;
     ev_payload := out_payload event |}.

(** The row an insertion leaves, when the identity is new. *)
Definition append_event (event : OutboxEvent) (d : db) : db :=
  if decide (out_eventId event ∈ map ev_event_id (navigation_events d)) then d
  else with_events (navigation_events d ++ [event_row event d]) d.

(** The queue of one session without its superseded events. *)
Definition compacted (sid : string) (d : db) : db :=
  with_events (filter (fun r => ~ (ev_session_id r = sid /\ ev_critical r = false))
                 (navigation_events d)) d.

Definition queue_length (sid : string) (d : db) : Z := Z.of_nat (length (events_of sid d)).

Lemma insert_event_row_run event d :
  insert_event_row event d = (Ok tt, append_event event d).
Proof.
  unfold insert_event_row, mbind, M_bind, NEXT_EVENT_SEQUENCE, INSERT_EVENT, modify, gets,
    append_event. simpl. by case_decide.
Qed.

Lemma enqueue_run event d :
  enqueueEventIn event d =
  (Ok tt,
   if queue_length (out_sessionId event) d <? MAX_OUTBOX_EVENTS then append_event event d
   else let d' := compacted (out_sessionId event) d in
        if queue_length (out_sessionId event) d' <? MAX_OUTBOX_EVENTS
        then append_event event d' else d').
Proof.
  unfold enqueueEventIn, mbind, M_bind, COUNT_EVENTS, gets. cbn [fst snd].
  fold (queue_length (out_sessionId event) d). rewrite Z.leb_antisym.
  destruct (queue_length (out_sessionId event) d <? MAX_OUTBOX_EVENTS); cbn [negb].
  { apply insert_event_row_run. }
  unfold DELETE_NON_CRITICAL_EVENTS, modify. cbv zeta.
  fold (compacted (out_sessionId event) d).
  fold (queue_length (out_sessionId event) (compacted (out_sessionId event) d)).
  rewrite Z.leb_antisym.
  destruct (queue_length (out_sessionId event) _ <? MAX_OUTBOX_EVENTS); cbn [negb];
    [apply insert_event_row_run|done].
Qed.

Lemma append_event_wf event d :
  queue_length (out_sessionId event) d < MAX_OUTBOX_EVENTS -> db_wf d ->
  db_wf (append_event event d).
Proof.
  intros Hroom Hd. unfold append_event. case_decide as Hid; [done|].
  apply with_events_wf; [|done].
  apply events_wf_snoc; [by apply wf_events|done|done|].
  apply Forall_forall. intros r Hr Hsid. simpl.
  assert (r ∈ events_of (out_sessionId event) d) as Hin by (by apply events_of_elem).
  apply max_sequence_le in Hin. lia.
Qed.

Lemma compacted_wf sid d : db_wf d -> db_wf (compacted sid d).
Proof. intros Hd. unfold compacted. eauto with tables. Qed.

Lemma enqueueEventIn_wf event : preserves db_wf (enqueueEventIn event).
Proof.
  intros d Hd. rewrite enqueue_run. cbn [snd]. cbv zeta. repeat case_match;
    rewrite ?Z.ltb_lt in *; auto using append_event_wf, compacted_wf.
Qed.

#[export] Hint Resolve enqueueEventIn_wf : preserve.

(** ** The bounded tables *)

Definition insert_command (r : CommandRow) (l : list CommandRow) : list CommandRow :=
  if decide (cmd_message_id r ∈ map cmd_message_id l) then l else l ++ [r].

Definition unexpired (nowMs : Z) (l : list CommandRow) : list CommandRow :=
  filter (fun r => nowMs < cmd_expires_at_ms r) l.

Definition newest_commands (l : list CommandRow) : list CommandRow :=
  keep_unselected cmd_message_id (drop MAX_PROCESSED_COMMANDS (order_by newer_command l)) l.

Definition command_row (messageId : string) (sid : option string) (response : CommandResponse)
    (nowMs : Z) : CommandRow :=
  {| cmd_message_id := messageId; cmd_session_id := sid; cmd_response := response;
     cmd_created_at_ms := nowMs; cmd_expires_at_ms := nowMs + PROCESSED_COMMAND_TTL_MS |}.

Lemma remember_run messageId sid response nowMs d :
  rememberCommand messageId sid response nowMs d =
  (Ok tt, with_commands
            (newest_commands (unexpired nowMs
               (insert_command (command_row messageId sid response nowMs)
                  (processed_commands d)))) d).
Proof.
  unfold rememberCommand, transaction, mbind, M_bind, INSERT_PROCESSED_COMMAND,
    DELETE_EXPIRED_COMMANDS, TRIM_PROCESSED_COMMANDS, modify, insert_command.
  simpl. by case_decide.
Qed.

Lemma insert_command_nodup r l :
  NoDup (map cmd_message_id l) -> NoDup (map cmd_message_id (insert_command r l)).
Proof.
  intros Hl. unfold insert_command. case_decide as Hin; [done|].
  rewrite map_app. apply NoDup_app. simpl. repeat split; [done| |apply NoDup_singleton].
  intros x Hx ->%list_elem_of_singleton. done.
Qed.

Lemma drop_take_perm {A} n (l : list A) : drop n l ++ take n l ≡ₚ l.
Proof. rewrite Permutation_app_comm. by rewrite take_drop. Qed.

Lemma newest_commands_wf l :
  NoDup (map cmd_message_id l) -> commands_wf (newest_commands l).
Proof.
  intros Hl. split.
  - eapply NoDup_map_sublist; [apply keep_unselected_sublist|done].
  - unfold newest_commands.
    rewrite (keep_unselected_length cmd_message_id _
               (take MAX_PROCESSED_COMMANDS (order_by newer_command l))); [|done|].
    + apply firstn_le_length.
    + rewrite drop_take_perm. apply order_by_perm.
Qed.

Lemma newest_commands_small l :
  (length l <= MAX_PROCESSED_COMMANDS)%nat -> newest_commands l = l.
Proof.
  intros Hl. unfold newest_commands. rewrite drop_ge; [apply keep_unselected_nil|].
  by rewrite order_by_length.
Qed.

Lemma rememberCommand_wf m sid r nowMs : preserves db_wf (rememberCommand m sid r nowMs).
Proof.
  intros d Hd. rewrite remember_run. apply with_commands_wf; [|done].
  apply newest_commands_wf. eapply NoDup_map_sublist; [apply sublist_filter|].
  apply insert_command_nodup, wf_commands, Hd.
Qed.

Lemma recordDiagnostic_wf t f nowMs : preserves db_wf (recordDiagnostic t f nowMs).
Proof.
  intros d Hd. destruct (wf_diagnostics d Hd) as (Hs & _ & _).
  destruct (record_diagnostic_run t f nowMs d Hs) as (k & -> & Hlim & _).
  apply with_diagnostics_wf; [|done]. split; [|done].
  by apply diagnostics_sorted_drop, diagnostics_sorted_snoc.
Qed.

Definition quarantine_row (sid : option string) (reason : string) (nowMs : Z) (d : db)
    : QuarantineRow :=
  {| qr_id := quarantine_sequence d + 1; qr_quarantined_at_ms := nowMs;
     qr_reason := slice0 MAX_QUARANTINE_REASON_LENGTH reason;
     qr_session_id := sid; qr_schema_version := None |}.

Definition newest_quarantine (l : list QuarantineRow) : list QuarantineRow :=
  filter (fun r => qr_id r ∈ map qr_id (take MAX_QUARANTINE_RECORDS (order_by newer_quarantine l))) l.

Definition without_session (sid : string) (d : db) : db :=
  with_commands (filter (fun r => cmd_session_id r <> Some sid) (processed_commands d))
    (with_alerts (filter (fun r => al_session_id r <> sid) (scheduled_alerts d))
       (with_events (filter (fun r => ev_session_id r <> sid) (navigation_events d))
          (with_active None d))).

Definition quarantined (sid : option string) (reason : string) (nowMs : Z) (d : db) : db :=
  let d' := match non_empty sid with Some s => without_session s d | None => with_active None d end in
  with_quarantine
    (newest_quarantine (quarantined_sessions d ++ [quarantine_row sid reason nowMs d]))
    (quarantine_sequence d + 1) d'.

Lemma delete_session_rows_run sid d : deleteSessionRows sid d = (Ok tt, without_session sid d).
Proof. done. Qed.

Lemma quarantine_run sid reason nowMs d :
  quarantineCorruptSession sid reason nowMs d = (Ok tt, quarantined sid reason nowMs d).
Proof.
  unfold quarantineCorruptSession, transaction, mbind, M_bind, quarantined. simpl.
  by destruct (non_empty sid).
Qed.

Lemma without_session_wf sid d : db_wf d -> db_wf (without_session sid d).
Proof.
  intros Hd. unfold without_session.
  repeat first [apply with_commands_wf | apply with_alerts_wf | apply with_events_wf
               | apply with_active_wf]; eauto with tables; done.
Qed.

Lemma newest_quarantine_length l :
  NoDup (map qr_id l) -> (length (newest_quarantine l) <= MAX_QUARANTINE_RECORDS)%nat.
Proof.
  intros Hl. set (chosen := take MAX_QUARANTINE_RECORDS (order_by newer_quarantine l)).
  assert (length (newest_quarantine l) <= length (map qr_id chosen))%nat as Hle.
  { rewrite <- (length_map qr_id (newest_quarantine l)). apply submseteq_length, NoDup_submseteq.
    - eapply NoDup_map_sublist; [apply sublist_filter|done].
    - intros x (r & -> & Hr)%list_elem_of_fmap. by apply list_elem_of_filter in Hr as [? _]. }
  etrans; [exact Hle|]. rewrite length_map. apply firstn_le_length.
Qed.

Lemma quarantined_wf sid reason nowMs d : db_wf d -> db_wf (quarantined sid reason nowMs d).
Proof.
  intros Hd. unfold quarantined. cbv zeta. apply with_quarantine_wf.
  - destruct (wf_quarantine d Hd) as ([Hnd Hn] & _ & Hr).
    set (l := quarantined_sessions d ++ [quarantine_row sid reason nowMs d]).
    assert (NoDup (map qr_id l)) as Hl.
    { unfold l. rewrite map_app. apply NoDup_app. simpl.
      repeat split; [done| |apply NoDup_singleton].
      intros x (r & -> & Hin)%list_elem_of_fmap E%list_elem_of_singleton.
      rewrite Forall_forall in Hn. specialize (Hn _ Hin). lia. }
    assert (forall r, r ∈ newest_quarantine l -> r ∈ l) as Hsub
      by (intros r Hin; by apply list_elem_of_filter in Hin as [_ ?]).
    repeat split.
    + eapply NoDup_map_sublist; [apply sublist_filter|done].
    + apply Forall_forall. intros r [Hin| ->%list_elem_of_singleton]%Hsub%elem_of_app; simpl; [|lia].
      rewrite Forall_forall in Hn. specialize (Hn _ Hin). lia.
    + by apply newest_quarantine_length.
    + apply Forall_forall. intros r [Hin| ->%list_elem_of_singleton]%Hsub%elem_of_app.
      * rewrite Forall_forall in Hr. auto.
      * simpl. rewrite slice0_length. apply Nat.le_min_l.
  - destruct (non_empty sid); [by apply without_session_wf|by apply with_active_wf].
Qed.

Lemma quarantineCorruptSession_wf sid reason nowMs :
  preserves db_wf (quarantineCorruptSession sid reason nowMs).
Proof. intros d Hd. rewrite quarantine_run. by apply quarantined_wf. Qed.

Lemma deleteSessionRows_wf sid : preserves db_wf (deleteSessionRows sid).
Proof. unfold deleteSessionRows. preserve. Qed.

Lemma replaceAlertsIn_wf sid alerts nowMs : preserves db_wf (replaceAlertsIn sid alerts nowMs).
Proof. unfold replaceAlertsIn. preserve. Qed.

#[export] Hint Resolve rememberCommand_wf recordDiagnostic_wf quarantineCorruptSession_wf
  deleteSessionRows_wf replaceAlertsIn_wf : preserve.
#[export] Hint Unfold writeActive SELECT_ACTIVE : preserve.

(** ** Every operation keeps the invariant *)

Section operations.
Context `{ReceiptValidators}.

Lemma inspectActive_wf nowMs : preserves db_wf (inspectActive nowMs).
Proof. unfold inspectActive, SELECT_ACTIVE. preserve. Qed.

Lemma loadActive_wf nowMs : preserves db_wf (loadActive nowMs).
Proof. unfold loadActive. pose proof inspectActive_wf. preserve. Qed.

Lemma createPreparing_wf s : preserves db_wf (createPreparing s).
Proof. unfold createPreparing, SELECT_ACTIVE, writeActive. preserve. Qed.

Lemma compareAndSwap_wf sid e mutate nowMs : preserves db_wf (compareAndSwap sid e mutate nowMs).
Proof. unfold compareAndSwap, SELECT_ACTIVE, writeActive. preserve. Qed.

Lemma terminate_wf sid st nowMs : preserves db_wf (terminate sid st nowMs).
Proof. unfold terminate, SELECT_ACTIVE. preserve. Qed.

Lemma ackEvents_wf ids : preserves db_wf (ackEvents ids).
Proof. unfold ackEvents. preserve. Qed.
End operations.

#[export] Hint Resolve loadActive_wf createPreparing_wf compareAndSwap_wf terminate_wf
  ackEvents_wf : preserve.

Lemma modify_wf_corrupted v : preserves db_wf
  (modify (fun d => with_active (corrupt_row v <$> active_navigation d) d)).
Proof.
  apply preserves_modify. intros d Hd. apply with_active_wf; [|done].
  pose proof (wf_active d Hd) as Ha. by destruct (active_navigation d); simpl in *; [destruct Ha|].
Qed.

Lemma ignore_wf {A} (m : M db A) : preserves db_wf m -> preserves db_wf (ignore m).
Proof. intros Hm. unfold ignore. preserve. Qed.

Lemma enqueueEvent_wf event : preserves db_wf (enqueueEvent event).
Proof. unfold enqueueEvent. preserve. Qed.

Lemma replaceScheduledAlerts_wf sid alerts nowMs :
  preserves db_wf (replaceScheduledAlerts sid alerts nowMs).
Proof. unfold replaceScheduledAlerts. preserve. Qed.

Lemma run_repo_op_wf `{ReceiptValidators} op : preserves db_wf (run_repo_op op).
Proof.
  destruct op; cbn [run_repo_op];
    [apply ignore_wf, loadActive_wf | apply ignore_wf, createPreparing_wf
    | apply ignore_wf, compareAndSwap_wf | apply ignore_wf, terminate_wf
    | apply enqueueEvent_wf | apply ackEvents_wf | apply rememberCommand_wf
    | apply replaceScheduledAlerts_wf | apply UPDATE_ALERT_STATE_wf
    | apply recordDiagnostic_wf | apply DELETE_ALL_DIAGNOSTICS_wf
    | apply quarantineCorruptSession_wf | apply modify_wf_corrupted].
Qed.

(** ** Properties *)

(** C6: whatever the repository is asked to do, in any order and with any
    arguments, accepted or rejected, and even when a stored document is damaged
    on the way, the database keeps its invariant: the singleton row agrees with
    its document, event, command, alert, diagnostic and quarantine identities are
    unique, the outbox of a session never exceeds 256 events and its sequence
    numbers increase, and the command, diagnostic and quarantine tables stay
    under their ceilings. *)
Theorem repository_invariant `{ReceiptValidators} d0 d :
  db_wf d0 -> repo_reachable d0 d -> db_wf d.
Proof. intros H0. induction 1 as [|d op Hr IH]; [done|]. by apply run_repo_op_wf. Qed.

Lemma empty_db_wf : db_wf empty_db.
Proof. constructor; repeat split; simpl; try constructor; try done; lia. Qed.

Lemma repository_invariant_witness :
  db_wf (run_repo_op (OpTerminate "s1" FinalStopped 2000)
           (run_repo_op (OpCreatePreparing (sample_ground 1 Preparing)) empty_db).2).2.
Proof.
  apply (repository_invariant empty_db); [apply empty_db_wf|].
  apply reach_step, reach_step, reach_start.
Defined.

(** *** Ending a session *)

Lemma terminate_run `{ReceiptValidators} sid st nowMs d r :
  active_navigation d = Some r -> row_session_id r = sid -> 0 <= row_revision r ->
  let ack := {| ack_sessionId := sid;
                ack_kind := match parseMobileSession (row_session_json r) with
                            | inl session => kind session | inr _ => Ground end;
                ack_finalStatus := st; ack_finalRevision := row_revision r;
                ack_completedAtMs := nowMs |} in
  terminate sid st nowMs d =
  (Ok (Some ack, termination_effects sid),
   without_session sid (with_acks (upsert_ack ack (terminal_ack d)) d)).
Proof.
  intros Ha Hsid Hrev ack. unfold terminate, transaction, mbind, M_bind, SELECT_ACTIVE, gets.
  cbn [fst snd]. rewrite Ha, Hsid, String.eqb_refl. cbn [negb].
  unfold UPSERT_TERMINAL_ACK. fold ack. replace (ack_finalRevision ack <? 0) with false by
    (symmetry; apply Z.ltb_ge; simpl; lia).
  done.
Qed.

Lemma terminate_nothing `{ReceiptValidators} sid st nowMs d :
  match active_navigation d with None => True | Some r => row_session_id r <> sid end ->
  terminate sid st nowMs d = (Ok (None, []), d).
Proof.
  intros Ha. unfold terminate, transaction, mbind, M_bind, SELECT_ACTIVE, gets. cbn [fst snd].
  destruct (active_navigation d) as [r|]; [|done].
  apply String.eqb_neq in Ha. by rewrite Ha.
Qed.

Lemma upsert_ack_find a l :
  exists r, List.find (fun r => String.eqb (ack_sessionId r) (ack_sessionId a)) (upsert_ack a l) = Some r
    /\ ack_sessionId r = ack_sessionId a /\ ack_finalStatus r = ack_finalStatus a
    /\ ack_finalRevision r = ack_finalRevision a /\ ack_completedAtMs r = ack_completedAtMs a.
Proof.
  unfold upsert_ack. case_decide as Hin.
  - induction l as [|x l IH]; [by apply not_elem_of_nil in Hin|]. simpl.
    destruct (String.eqb (ack_sessionId x) (ack_sessionId a)) eqn:E; simpl; rewrite E.
    + eexists. split; [done|]. by apply String.eqb_eq in E.
    + apply IH. apply elem_of_cons in Hin as [Hin|Hin]; [|done].
      rewrite Hin, String.eqb_refl in E. done.
  - exists a. split; [|done]. induction l as [|x l IH]; simpl.
    + by rewrite String.eqb_refl.
    + destruct (String.eqb (ack_sessionId x) (ack_sessionId a)) eqn:E.
      * apply String.eqb_eq in E. exfalso. apply Hin. rewrite <- E. by left.
      * apply IH. intros Hx. apply Hin. by right.
Qed.

(** Nothing of the session is left in a table that can hold a place or a route. *)
Definition erased (sid : string) (d : db) : Prop :=
  active_navigation d = None
  /\ Forall (fun r => ev_session_id r <> sid) (navigation_events d)
  /\ Forall (fun r => al_session_id r <> sid) (scheduled_alerts d)
  /\ Forall (fun r => cmd_session_id r <> Some sid) (processed_commands d).

Lemma Forall_filter_self {A} (P : A -> Prop) `{forall x, Decision (P x)} (l : list A) :
  Forall P (filter P l).
Proof. apply Forall_forall. by intros x [? _]%list_elem_of_filter. Qed.

Lemma without_session_erased sid d : erased sid (without_session sid d).
Proof. repeat split; simpl; apply Forall_filter_self. Qed.

(** ending the active session commits, in one transaction, an acknowledgement
    with the final status and the row's revision and erases every row of the
    session from the active, event, alert and command tables; events of other
    sessions are untouched, the cleanup intents are the fixed five, and ending it
    again (with any status, at any time) is a no-op without intents. *)
Theorem terminate_erases_and_is_idempotent `{ReceiptValidators} sid st nowMs d r :
  db_wf d -> active_navigation d = Some r -> row_session_id r = sid ->
  exists ack d',
    terminate sid st nowMs d = (Ok (Some ack, termination_effects sid), d')
    /\ erased sid d'
    /\ (forall other, other <> sid -> events_of other d' = events_of other d)
    /\ (exists stored, readTerminalAck sid d' = (Ok (Some stored), d')
          /\ ack_finalStatus stored = st /\ ack_finalRevision stored = row_revision r
          /\ ack_completedAtMs stored = nowMs)
    /\ (forall st' nowMs', terminate sid st' nowMs' d' = (Ok (None, []), d')).
Proof.
  intros Hd Ha Hsid. pose proof (wf_active d Hd) as Hrow. rewrite Ha in Hrow.
  destruct Hrow as [Hrev _].
  pose proof (terminate_run sid st nowMs d r Ha Hsid Hrev) as Hrun. cbv zeta in Hrun.
  set (ack := Build_MobileTerminalAck _ _ _ _ _) in Hrun.
  eexists ack, _. split; [exact Hrun|].
  split; [apply without_session_erased|]. split; [|split].
  - intros other Hne. unfold events_of. simpl. rewrite filter_swap. apply filter_all.
    apply Forall_forall. intros e [He _]%list_elem_of_filter. congruence.
  - destruct (upsert_ack_find ack (terminal_ack d)) as (stored & Hfind & _ & Hst & Hr & Ht).
    exists stored. split; [|done]. unfold readTerminalAck, SELECT_TERMINAL_ACK, gets.
    f_equal. f_equal. exact Hfind.
  - intros st' nowMs'. by apply terminate_nothing.
Qed.

Lemma terminate_erases_and_is_idempotent_witness :
  exists ack d',
    terminate "s1" FinalStopped 5000 (writeActive (sample_ground 4 Active) empty_db).2 =
      (Ok (Some ack, termination_effects "s1"), d')
    /\ erased "s1" d'.
Proof.
  destruct (terminate_erases_and_is_idempotent "s1" FinalStopped 5000
              (writeActive (sample_ground 4 Active) empty_db).2 (row_of (sample_ground 4 Active)))
    as (ack & d' & Hrun & He & _); [|done|done|eauto].
  apply UPSERT_ACTIVE_wf, empty_db_wf.
Defined.

(** *** Command replay *)

Lemma lookup_run m t d :
  lookupCommand m t d =
  (Ok (match List.find (fun r => String.eqb (cmd_message_id r) m) (processed_commands d) with
       | Some row => if cmd_expires_at_ms row <=? t then None else Some (cmd_response row)
       | None => None
       end), d).
Proof. done. Qed.

(** A fresh identity with room in the table is inserted and survives the two
    clean-ups that follow. *)
Lemma remember_fresh m sid r nowMs d :
  (length (processed_commands d) < MAX_PROCESSED_COMMANDS)%nat ->
  m ∉ map cmd_message_id (processed_commands d) ->
  (rememberCommand m sid r nowMs d).2 =
  with_commands (unexpired nowMs (processed_commands d) ++ [command_row m sid r nowMs]) d.
Proof.
  intros Hlen Hm. rewrite remember_run. cbn [snd]. f_equal.
  unfold insert_command. rewrite decide_False by done.
  rewrite newest_commands_small.
  - unfold unexpired. rewrite filter_app. f_equal.
    apply filter_all. repeat constructor. simpl. unfold PROCESSED_COMMAND_TTL_MS. lia.
  - etrans; [apply sublist_length, sublist_filter|]. rewrite length_app. simpl. lia.
Qed.

(** A row newer than all the others is never trimmed. *)
Lemma newest_commands_keep r l :
  NoDup (map cmd_message_id (l ++ [r])) ->
  Forall (fun x => cmd_created_at_ms x < cmd_created_at_ms r) l ->
  r ∈ newest_commands (l ++ [r]).
Proof.
  intros Hnd Hl. unfold newest_commands.
  destruct (order_by_first newer_command l r) as [rest E].
  { eapply Forall_impl; [exact Hl|]. intros x Hx. cbv beta in Hx. unfold newer_command.
    rewrite (proj2 (Z.eqb_neq _ _)) by lia. apply Z.ltb_ge. lia. }
  pose proof (order_by_perm newer_command (l ++ [r])) as Hp. rewrite E in *.
  assert (NoDup (cmd_message_id r :: map cmd_message_id rest)) as Hnd'.
  { change (NoDup (map cmd_message_id (r :: rest))). by rewrite Hp. }
  apply NoDup_cons in Hnd' as [Hr _].
  apply list_elem_of_filter. split; [|apply elem_of_app; right; by left].
  change (drop MAX_PROCESSED_COMMANDS (r :: rest)) with (drop (pred MAX_PROCESSED_COMMANDS) rest).
  intros Hin. apply Hr. eapply sublist_subseteq; [|exact Hin].
  apply fmap_sublist, sublist_drop.
Qed.

(** What was just remembered is in the table, if there was room or everything
    else in it is older. *)
Lemma remember_kept m sid r nowMs d :
  db_wf d ->
  (length (processed_commands d) < MAX_PROCESSED_COMMANDS)%nat
    \/ Forall (fun x => cmd_created_at_ms x < nowMs) (processed_commands d) ->
  m ∉ map cmd_message_id (processed_commands d) ->
  command_row m sid r nowMs ∈ processed_commands (rememberCommand m sid r nowMs d).2.
Proof.
  intros Hd [Hlen|Hold] Hm.
  { rewrite remember_fresh by done. apply elem_of_app. right. by left. }
  rewrite remember_run. cbn [snd with_commands processed_commands].
  unfold insert_command. rewrite decide_False by done. unfold unexpired.
  rewrite filter_app, (filter_all _ [_]).
  2: { repeat constructor. simpl. unfold PROCESSED_COMMAND_TTL_MS. lia. }
  apply newest_commands_keep.
  - rewrite map_app. apply NoDup_app. split_and!.
    + eapply NoDup_map_sublist; [apply sublist_filter|apply wf_commands, Hd].
    + intros x Hx ->%list_elem_of_singleton. apply Hm.
      apply list_elem_of_fmap in Hx as (x & E & [_ Hx]%list_elem_of_filter).
      change m with (cmd_message_id (command_row m sid r nowMs)). rewrite E. by apply list_elem_of_fmap_2.
    + apply NoDup_singleton.
  - apply Forall_forall. intros x [_ Hx]%list_elem_of_filter. rewrite Forall_forall in Hold. by apply Hold.
Qed.

Lemma unexpired_nodup t l :
  NoDup (map cmd_message_id l) -> NoDup (map cmd_message_id (unexpired t l)).
Proof. intros Hl. eapply NoDup_map_sublist; [apply sublist_filter|done]. Qed.

(** What is remembered of a command. *)
Lemma remembered_answer m sid r nowMs d t :
  db_wf d ->
  (length (processed_commands d) < MAX_PROCESSED_COMMANDS)%nat ->
  m ∉ map cmd_message_id (processed_commands d) ->
  nowMs <= t < nowMs + PROCESSED_COMMAND_TTL_MS ->
  let d1 := (rememberCommand m sid r nowMs d).2 in
  lookupCommand m t d1 = (Ok (Some r), d1)
  /\ forall sid' r' nowMs',
       nowMs <= nowMs' <= t ->
       let d2 := (rememberCommand m sid' r' nowMs' d1).2 in
       lookupCommand m t d2 = (Ok (Some r), d2).
Proof.
  intros Hd Hlen Hm Ht d1.
  assert (db_wf d1) as Hd1 by (by apply rememberCommand_wf).
  assert (command_row m sid r nowMs ∈ processed_commands d1) as Hin.
  { unfold d1. rewrite remember_fresh by done. apply elem_of_app. right. by left. }
  assert ((cmd_expires_at_ms (command_row m sid r nowMs) <=? t) = false) as Hexp
    by (apply Z.leb_gt; simpl; lia).
  destruct (wf_commands d1 Hd1) as [Hnd1 Hlen1].
  split.
  - rewrite lookup_run. pose proof (find_unique cmd_message_id _ _ Hnd1 Hin) as F.
    cbn [command_row cmd_message_id] in F. rewrite F. by rewrite Hexp.
  - intros sid' r' nowMs' Hnow'. cbv zeta. rewrite remember_run. cbn [snd].
    unfold insert_command. rewrite decide_True by (by apply (list_elem_of_fmap_2 cmd_message_id) in Hin).
    rewrite newest_commands_small by (etrans; [apply sublist_length, sublist_filter|done]).
    rewrite lookup_run. cbn [with_commands processed_commands].
    pose proof (find_unique cmd_message_id (unexpired nowMs' (processed_commands d1))
      (command_row m sid r nowMs)) as F. cbn [command_row cmd_message_id] in F.
    rewrite F; [by rewrite Hexp|by apply unexpired_nodup|].
    apply list_elem_of_filter. split; [simpl; lia|done].
Qed.

(** A mutating command's response is remembered: for 24 hours a replay of the
    same message id is answered with exactly that response, and a second attempt
    to remember another response under the id, at any time in that window, does
    not change the answer. *)
Theorem remembered_command_replays m sid r nowMs d t :
  db_wf d ->
  (length (processed_commands d) < MAX_PROCESSED_COMMANDS)%nat ->
  m ∉ map cmd_message_id (processed_commands d) ->
  nowMs <= t < nowMs + PROCESSED_COMMAND_TTL_MS ->
  let d1 := (rememberCommand m sid r nowMs d).2 in
  lookupCommand m t d1 = (Ok (Some r), d1)
  /\ forall sid' r' nowMs',
       nowMs <= nowMs' <= t ->
       let d2 := (rememberCommand m sid' r' nowMs' d1).2 in
       lookupCommand m t d2 = (Ok (Some r), d2).
Proof. apply remembered_answer. Qed.

Definition sample_response : CommandResponse :=
  {| resp_type := "session.started"; resp_payload := SessionRevision "s1" 2;
     resp_sessionId := Some "s1"; resp_revision := Some 2 |}.

Lemma remembered_command_replays_witness :
  let d1 := (rememberCommand "m1" (Some "s1") sample_response 1000 empty_db).2 in
  lookupCommand "m1" 2000 d1 = (Ok (Some sample_response), d1).
Proof.
  apply (remembered_command_replays "m1" (Some "s1") sample_response 1000 empty_db 2000);
    [apply empty_db_wf | vm_compute; lia | apply not_elem_of_nil
    | unfold PROCESSED_COMMAND_TTL_MS; lia].
Defined.

(** once a remembered row has expired, running the command again does not
    remember its new response: the insert yields to the expired row, which the
    same transaction then deletes, so a further replay of the message is executed
    once more. *)
Theorem expired_command_is_not_remembered m sid r nowMs d row t :
  db_wf d -> row ∈ processed_commands d -> cmd_message_id row = m ->
  cmd_expires_at_ms row <= nowMs ->
  let d1 := (rememberCommand m sid r nowMs d).2 in
  lookupCommand m t d1 = (Ok None, d1).
Proof.
  intros Hd Hrow Hm Hexp. cbv zeta. rewrite remember_run. cbn [snd].
  destruct (wf_commands d Hd) as [Hnd Hlen].
  unfold insert_command. rewrite decide_True
    by (simpl; rewrite <- Hm; by apply list_elem_of_fmap_2).
  rewrite newest_commands_small by (etrans; [apply sublist_length, sublist_filter|done]).
  rewrite lookup_run. cbn [with_commands processed_commands]. rewrite find_absent; [done|].
  intros (r' & Hr' & Hin)%list_elem_of_fmap. apply list_elem_of_filter in Hin as [Hlive Hin].
  assert (r' = row) as ->; [|lia].
  pose proof (find_unique _ _ _ Hnd Hin) as F1. pose proof (find_unique _ _ _ Hnd Hrow) as F2.
  rewrite <- Hr' in F1. rewrite Hm in F2. congruence.
Qed.

Lemma expired_command_is_not_remembered_witness :
  let d0 := (rememberCommand "m1" (Some "s1") sample_response 1000 empty_db).2 in
  let d1 := (rememberCommand "m1" (Some "s1") sample_response 90000000 d0).2 in
  lookupCommand "m1" 90000001 d1 = (Ok None, d1).
Proof.
  apply (expired_command_is_not_remembered "m1" (Some "s1") sample_response 90000000 _
           (command_row "m1" (Some "s1") sample_response 1000)).
  - apply rememberCommand_wf, empty_db_wf.
  - vm_compute. left.
  - reflexivity.
  - vm_compute. discriminate.
Defined.

(** *** The outbox *)

(** What is still queued for the session when a new event arrives: everything
    below the bound, and only the critical events at it. *)
Definition queue_kept (sid : string) (d : db) : list EventRow :=
  if queue_length sid d <? MAX_OUTBOX_EVENTS then events_of sid d
  else filter (fun r => ev_critical r = true) (events_of sid d).

Lemma events_of_compacted sid d :
  events_of sid (compacted sid d) = filter (fun r => ev_critical r = true) (events_of sid d).
Proof.
  unfold events_of, compacted. simpl. rewrite !list_filter_filter.
  apply list_filter_iff. intros r. destruct (ev_critical r); intuition congruence.
Qed.

Lemma events_of_compacted_other sid other d :
  other <> sid -> events_of other (compacted sid d) = events_of other d.
Proof.
  intros Hne. unfold events_of, compacted. simpl. rewrite list_filter_filter.
  apply list_filter_iff. intros r. intuition congruence.
Qed.

Lemma append_event_fresh event d :
  out_eventId event ∉ map ev_event_id (navigation_events d) ->
  append_event event d = with_events (navigation_events d ++ [event_row event d]) d.
Proof. intros Hid. unfold append_event. by rewrite decide_False. Qed.

Lemma events_of_append sid event d :
  events_of sid (with_events (navigation_events d ++ [event_row event d]) d) =
  events_of sid d ++ (if decide (out_sessionId event = sid) then [event_row event d] else []).
Proof.
  unfold events_of. cbn [with_events navigation_events]. by rewrite filter_app.
Qed.

Lemma enqueue_events_of event d :
  out_eventId event ∉ map ev_event_id (navigation_events d) ->
  let sid := out_sessionId event in
  let kept := queue_kept sid d in
  let d' := (enqueueEvent event d).2 in
  events_of sid d' =
    kept ++ (if Z.of_nat (length kept) <? MAX_OUTBOX_EVENTS
             then [{| ev_event_id := out_eventId event; ev_session_id := sid;
                      ev_critical := out_critical event; ev_sequence := max_sequence kept + 1;
                      ev_created_at_ms := out_createdAtMs event;
                      ev_payload := out_payload event |}]
             else [])
  /\ forall other, other <> sid -> events_of other d' = events_of other d.
Proof.
  intros Hid sid kept d'. unfold d', enqueueEvent, transaction, kept, queue_kept.
  rewrite enqueue_run. cbn [fst snd]. fold sid.
  destruct (queue_length sid d <? MAX_OUTBOX_EVENTS) eqn:E; cbn [snd].
  - unfold queue_length in E. rewrite E, append_event_fresh by done.
    rewrite events_of_append, decide_True by done. split; [done|].
    intros other Hne. rewrite events_of_append, decide_False by (unfold sid in Hne; congruence). apply app_nil_r.
  - assert (out_eventId event ∉ map ev_event_id (navigation_events (compacted sid d))) as Hid'.
    { intros (r & Hr & Hin)%list_elem_of_fmap. apply list_elem_of_filter in Hin as [_ Hin].
      apply Hid. rewrite Hr. by apply list_elem_of_fmap_2. }
    unfold queue_length. rewrite events_of_compacted.
    case_match.
    + rewrite append_event_fresh by done.
      rewrite events_of_append, decide_True by done. split.
      * rewrite events_of_compacted. unfold event_row. fold sid. by rewrite events_of_compacted.
      * intros other Hne. rewrite events_of_append, decide_False by (unfold sid in Hne; congruence).
        rewrite app_nil_r. by apply events_of_compacted_other.
    + rewrite app_nil_r. split; [apply events_of_compacted|].
      intros other Hne. by apply events_of_compacted_other.
Qed.

(** enqueuing an event with a new identity never rejects, leaves every other
    session's queue alone, keeps every critical event that was pending, and gives
    the new event the next sequence number at the end of the queue; at the bound
    of 256 the superseded (non-critical) events are dropped to make room, and
    only when 256 critical events are pending is the new event refused. *)
Theorem enqueue_keeps_critical_events event d :
  db_wf d ->
  out_eventId event ∉ map ev_event_id (navigation_events d) ->
  let sid := out_sessionId event in
  let kept := queue_kept sid d in
  exists d',
    enqueueEvent event d = (Ok tt, d')
    /\ events_of sid d' =
         kept ++ (if Z.of_nat (length kept) <? MAX_OUTBOX_EVENTS
                  then [{| ev_event_id := out_eventId event; ev_session_id := sid;
                           ev_critical := out_critical event;
                           ev_sequence := max_sequence kept + 1;
                           ev_created_at_ms := out_createdAtMs event;
                           ev_payload := out_payload event |}]
                  else [])
    /\ (forall r, r ∈ events_of sid d -> ev_critical r = true -> r ∈ events_of sid d')
    /\ (forall other, other <> sid -> events_of other d' = events_of other d)
    /\ queue_length sid d' <= MAX_OUTBOX_EVENTS.
Proof.
  intros Hd Hid sid kept. destruct (enqueue_events_of event d Hid) as [Hsame Hother].
  exists (enqueueEvent event d).2. repeat split.
  - unfold enqueueEvent, transaction. by rewrite enqueue_run.
  - exact Hsame.
  - intros r Hr Hc. fold sid in Hsame. rewrite Hsame. apply elem_of_app. left.
    change (r ∈ queue_kept sid d). unfold queue_kept.
    destruct (queue_length sid d <? MAX_OUTBOX_EVENTS); [exact Hr|].
    by apply list_elem_of_filter.
  - exact Hother.
  - pose proof (enqueueEvent_wf event d Hd) as Hd'.
    destruct (wf_events _ Hd') as (_ & Hlen & _). apply Hlen.
Qed.

Definition sample_event (id : string) (critical : bool) : OutboxEvent :=
  {| out_eventId := id; out_sessionId := "s1"; out_critical := critical;
     out_createdAtMs := 1000; out_payload := JNull |}.

Lemma enqueue_keeps_critical_events_witness :
  exists d', enqueueEvent (sample_event "e2" false)
               (enqueueEvent (sample_event "e1" true) empty_db).2 = (Ok tt, d')
    /\ queue_length "s1" d' <= MAX_OUTBOX_EVENTS.
Proof.
  destruct (enqueue_keeps_critical_events (sample_event "e2" false)
              (enqueueEvent (sample_event "e1" true) empty_db).2) as (d' & H1 & _ & _ & _ & H2).
  - apply enqueueEvent_wf, empty_db_wf.
  - vm_compute. intros Hin. by repeat (apply elem_of_cons in Hin as [Hin|Hin]; [done|]);
      apply elem_of_nil in Hin.
  - eauto.
Defined.

Lemma events_of_sorted sid d :
  db_wf d -> StronglySorted (fun a b => ev_sequence a < ev_sequence b) (events_of sid d).
Proof.
  intros Hd. destruct (wf_events d Hd) as (_ & _ & Hs).
  apply (StronglySorted_weaken sequence_order).
  - intros x y [_ Hx]%events_of_elem [_ Hy]%events_of_elem Hxy. apply Hxy. congruence.
  - eapply StronglySorted_sublist; [apply sublist_filter|exact Hs].
Qed.

(** The pending events a page is given are exactly the rows of its session,
    oldest first, under strictly increasing sequence numbers, so the page can
    detect a gap and never sees a reordering. *)
Theorem pending_events_in_order sid d :
  db_wf d ->
  listPendingEvents sid d = (Ok (map pending_of (events_of sid d)), d)
  /\ StronglySorted (fun a b => pending_sequence a < pending_sequence b)
       (map pending_of (events_of sid d)).
Proof.
  intros Hd. pose proof (events_of_sorted sid d Hd) as Hs. split.
  - unfold listPendingEvents, mbind, M_bind, SELECT_EVENTS, gets, mret, M_ret.
    rewrite order_by_sorted; [done|]. eapply StronglySorted_weaken; [|exact Hs].
    intros x y _ _ Hxy. apply Z.leb_le. simpl in Hxy. lia.
  - induction Hs as [|r l Hl IH Hr]; simpl; constructor; [done|].
    apply Forall_map. exact Hr.
Qed.

Lemma pending_events_in_order_witness :
  let d := (enqueueEvent (sample_event "e2" false)
              (enqueueEvent (sample_event "e1" true) empty_db).2).2 in
  listPendingEvents "s1" d = (Ok (map pending_of (events_of "s1" d)), d).
Proof.
  apply (pending_events_in_order "s1"). do 2 apply enqueueEvent_wf. apply empty_db_wf.
Defined.

(** *** Diagnostics *)

(** recording a diagnostic row never rejects and the trimming loop ends: the
    table is then within both ceilings (5,000 rows and 1 MiB), it holds the
    newest rows in order (only the oldest were removed), and nothing is removed
    while the log with the new row still fits. *)
Theorem diagnostic_ring type fields nowMs d :
  db_wf d ->
  exists k,
    let row := {| dg_id := diagnostic_sequence d + 1; dg_created_at_ms := nowMs;
                  dg_type := type; dg_fields_json := fields |} in
    let log := drop k (diagnostic_events d ++ [row]) in
    recordDiagnostic type fields nowMs d =
      (Ok tt, with_diagnostics log (diagnostic_sequence d + 1) d)
    /\ Z.of_nat (length log) <= MAX_DIAGNOSTIC_ROWS /\ diagnostic_bytes log <= MAX_DIAGNOSTIC_BYTES
    /\ (within_limits (diagnostic_events d ++ [row]) -> k = 0%nat).
Proof.
  intros Hd. destruct (wf_diagnostics d Hd) as (Hs & _ & _).
  destruct (record_diagnostic_run type fields nowMs d Hs) as (k & Hrun & [Hrows Hbytes] & Hk).
  by exists k.
Qed.

Lemma diagnostic_ring_witness :
  exists k, let log := drop k [{| dg_id := 1; dg_created_at_ms := 5; dg_type := "typed.error";
                                  dg_fields_json := "{}" |}] in
    recordDiagnostic "typed.error" "{}" 5 empty_db = (Ok tt, with_diagnostics log 1 empty_db).
Proof.
  destruct (diagnostic_ring "typed.error" "{}" 5 empty_db) as (k & Hrun & _);
    [apply empty_db_wf|]. exists k. exact Hrun.
Defined.
