(* ===== verification/Register.v ===== *)
(** * The repository as a compare-and-swap register

    The abstract contract of [SessionRepository]: one register that holds the
    session authority, written only by a creation, a compare-and-swap and a
    termination.  The database operations refine it, and a writer that names an
    old revision always loses. *)

From S2P Require Import Prelude Protocol Session Snapshot Samples Database Repository RepositoryFacts.

(** ** The register *)

(** What a reader of the database can see of the session authority. *)
Inductive authority :=
  | NoAuthority
  | Unreadable (sid : string)
  | Authority (s : MobileNavigationSession).

Section register.
Context `{ReceiptValidators}.

Definition authority_of (d : db) : authority :=
  match active_navigation d with
  | None => NoAuthority
  | Some r => match parseMobileSession (row_session_json r) with
              | inl s => Authority s
              | inr _ => Unreadable (row_session_id r)
              end
  end.

(** What a written session reads back as. *)
Definition published (s : MobileNavigationSession) : authority :=
  if mobileNavigationSessionSchema s then Authority s else Unreadable (sessionId s).

Definition spec_create (s : MobileNavigationSession) (a : authority)
    : CommitResult * authority :=
  match a with
  | Authority current =>
      if is_terminal_status (status current)
      then (CommitOk s [], published s) else (CommitFail SessionActive, a)
  | NoAuthority | Unreadable _ => (CommitOk s [], published s)
  end.

Definition spec_cas (sid : string) (expected : Z)
    (mutate : MobileNavigationSession -> RepositoryMutation) (a : authority)
    : CommitResult * authority :=
  match a with
  | NoAuthority => (CommitFail NoActiveSession, a)
  | Unreadable _ => (CommitFail CorruptSession, a)
  | Authority current =>
      if decide (sessionId current = sid /\ revision current = expected)
      then let m := mutate current in
           (CommitOk (mut_session m) (mut_effects m), published (mut_session m))
      else (CommitFail RevisionConflict, a)
  end.

Definition spec_terminate (sid : string) (a : authority) : authority :=
  match a with
  | Authority current => if String.eqb (sessionId current) sid then NoAuthority else a
  | Unreadable s => if String.eqb s sid then NoAuthority else a
  | NoAuthority => a
  end.

(** A mutation the repository accepts to commit. *)
Definition lawful (sid : string) (expected : Z) (m : RepositoryMutation) : Prop :=
  sessionId (mut_session m) = sid
  /\ revision (mut_session m) = expected + 1
  /\ 0 <= revision (mut_session m)
  /\ match mut_alerts m with
     | Some alerts => Forall (fun a => 0 <= alert_legIndex a) alerts
     | None => True
     end.

#[export] Instance lawful_dec sid expected m : Decision (lawful sid expected m).
Proof. unfold lawful. destruct (mut_alerts m); apply _. Defined.

(** The effect of an operation of the repository on the register. *)
Definition spec_op (op : repo_op) (a : authority) : authority :=
  match op with
  | OpLoadActive _ => match a with Unreadable _ => NoAuthority | _ => a end
  | OpCreatePreparing s => if 0 <=? revision s then (spec_create s a).2 else a
  | OpCompareAndSwap sid e mutate _ =>
      match a with
      | Authority current =>
          if decide (lawful sid e (mutate current)) then (spec_cas sid e mutate a).2 else a
      | _ => a
      end
  | OpTerminate sid _ _ => spec_terminate sid a
  | OpQuarantine _ _ _ => NoAuthority
  | OpCorrupted _ =>
      match a with
      | NoAuthority => NoAuthority
      | Unreadable sid => Unreadable sid
      | Authority s => Unreadable (sessionId s)
      end
  | _ => a
  end.

Definition run_ops (ops : list repo_op) (d : db) : db :=
  foldl (fun d op => (run_repo_op op d).2) d ops.

(** Session identities are generated, so a run does not create one again. *)
Definition creates (sid : string) (op : repo_op) : Prop :=
  match op with OpCreatePreparing s => sessionId s = sid | _ => False end.

(** The session's revision is at least [e], if it is the authority at all. *)
Definition settled (sid : string) (e : Z) (d : db) : Prop :=
  forall s, authority_of d = Authority s -> sessionId s = sid -> e <= revision s.
End register.

(** ** Statements that leave the authority alone *)

Section keeps.
Context (a : option ActiveRow).

Definition keeps_active (d : db) : Prop := active_navigation d = a.

Lemma keeps_modify f :
  (forall d, active_navigation (f d) = active_navigation d) ->
  preserves keeps_active (modify f).
Proof. intros Hf d Hd. unfold keeps_active. simpl. by rewrite Hf. Qed.

Lemma enqueueEventIn_keeps event : preserves keeps_active (enqueueEventIn event).
Proof.
  intros d Hd. rewrite enqueue_run. unfold append_event. cbn [snd]. cbv zeta.
  by repeat case_match; repeat case_decide.
Qed.

Lemma replaceAlertsIn_keeps sid alerts nowMs :
  preserves keeps_active (replaceAlertsIn sid alerts nowMs).
Proof.
  unfold replaceAlertsIn. apply preserves_bind; [by apply keeps_modify|]. intros _.
  apply preserves_for_each. intros x _. unfold INSERT_SCHEDULED_ALERT.
  case_match; [apply preserves_throw|by apply keeps_modify].
Qed.

Lemma rememberCommand_keeps m sid r nowMs : preserves keeps_active (rememberCommand m sid r nowMs).
Proof. intros d Hd. by rewrite remember_run. Qed.

Lemma ackEvents_keeps ids : preserves keeps_active (ackEvents ids).
Proof.
  unfold ackEvents. destruct ids as [|id ids]; [apply preserves_ret|].
  apply preserves_transaction, preserves_for_each. intros x _. by apply keeps_modify.
Qed.

Lemma trim_diagnostics_keeps fuel usage : preserves keeps_active (trim_diagnostics fuel usage).
Proof.
  revert usage. induction fuel as [|fuel IH]; intros usage; [apply preserves_ret|].
  cbn [trim_diagnostics]. case_match; [|apply preserves_ret].
  apply preserves_bind; [by apply keeps_modify|]. intros _.
  apply preserves_bind; [apply preserves_gets|]. intros next.
  case_match; [apply preserves_ret|apply IH].
Qed.

Lemma recordDiagnostic_keeps t f nowMs : preserves keeps_active (recordDiagnostic t f nowMs).
Proof.
  apply preserves_transaction, preserves_bind; [by apply keeps_modify|]. intros _.
  apply preserves_bind; [apply preserves_gets|]. intros usage. apply trim_diagnostics_keeps.
Qed.
End keeps.

(** ** Handlers that always resolve *)

Definition never_rejects {S A} (m : M S A) : Prop := forall s, exists a s', m s = (Ok a, s').

Lemma for_each_resolves {S A} (l : list A) (f : A -> M S unit) :
  (forall x, x ∈ l -> never_rejects (f x)) -> never_rejects (for_each l f).
Proof.
  induction l as [|x l IH]; intros Hf s; [by eexists _, _|].
  simpl. unfold mbind, M_bind. destruct (Hf x ltac:(by left) s) as ([] & s' & ->).
  apply IH. intros y Hy. apply Hf. by right.
Qed.

Lemma enqueueEventIn_resolves event : never_rejects (enqueueEventIn event).
Proof. intros d. rewrite enqueue_run. eauto. Qed.

Lemma replaceAlertsIn_resolves sid alerts nowMs :
  Forall (fun a => 0 <= alert_legIndex a) alerts -> never_rejects (replaceAlertsIn sid alerts nowMs).
Proof.
  intros Hl d. unfold replaceAlertsIn, mbind, M_bind. cbn.
  apply for_each_resolves. intros x Hx. rewrite Forall_forall in Hl. specialize (Hl x Hx).
  unfold INSERT_SCHEDULED_ALERT. apply Z.ltb_ge in Hl. rewrite Hl. intros s. by eexists _, _.
Qed.

Lemma insert_alert_rejects sid x nowMs d :
  alert_legIndex x < 0 ->
  exists e, INSERT_SCHEDULED_ALERT (alert_alertId x) sid (alert_legIndex x)
              (alert_triggerAtMs x) nowMs d = (Throw e, d).
Proof. intros Hx. unfold INSERT_SCHEDULED_ALERT. apply Z.ltb_lt in Hx. rewrite Hx. eauto. Qed.

Lemma replaceAlertsIn_rejects sid alerts nowMs d :
  ~ Forall (fun a => 0 <= alert_legIndex a) alerts ->
  exists e d', replaceAlertsIn sid alerts nowMs d = (Throw e, d').
Proof.
  unfold replaceAlertsIn, mbind, M_bind. cbn. generalize (with_alerts
    (filter (fun r => al_session_id r <> sid) (scheduled_alerts d)) d).
  induction alerts as [|x alerts IH]; intros s Hn; [exfalso; apply Hn; constructor|].
  simpl. unfold mbind, M_bind.
  destruct (Z.le_gt_cases 0 (alert_legIndex x)) as [Hx|Hx].
  - unfold INSERT_SCHEDULED_ALERT at 1. pose proof Hx as Hx'. apply Z.ltb_ge in Hx'. rewrite Hx'.
    apply IH. intros Hall. apply Hn. by constructor.
  - destruct (insert_alert_rejects sid x nowMs s Hx) as [e ->]. eauto.
Qed.

(** ** Refinement *)

Section refinement.
Context `{ReceiptValidators}.

Lemma authority_of_row s d :
  authority_of (with_active (Some (row_of s)) d) = published s.
Proof.
  unfold authority_of, published. cbn [with_active active_navigation row_of row_session_json].
  destruct (mobileNavigationSessionSchema s) eqn:E; [by rewrite parse_written|].
  destruct (parse_rejects s E) as [code ->]. done.
Qed.

Lemma authority_of_keeps d d' :
  active_navigation d' = active_navigation d -> authority_of d' = authority_of d.
Proof. intros E. unfold authority_of. by rewrite E. Qed.

Lemma write_active_run s d :
  0 <= revision s -> writeActive s d = (Ok tt, with_active (Some (row_of s)) d).
Proof.
  intros Hs. unfold writeActive, UPSERT_ACTIVE. apply Z.ltb_ge in Hs.
  cbn [row_of row_revision]. by rewrite Hs.
Qed.

(** The body of a commit, once the preconditions hold. *)
Definition commit_body (sid : string) (m : RepositoryMutation) (nowMs : Z) : M db CommitResult :=
  _ ← writeActive (mut_session m);
  _ ← for_each (mut_enqueue m) (fun event =>
        enqueueEventIn {| out_eventId := in_eventId event;
                          out_sessionId := sid;
                          out_critical := in_critical event;
                          out_createdAtMs := nowMs;
                          out_payload := in_payload event |});
  _ ← match mut_alerts m with
      | Some alerts => replaceAlertsIn sid alerts nowMs
      | None => mret tt
      end;
  mret (CommitOk (mut_session m) (mut_effects m)).

Lemma commit_body_lawful sid expected m nowMs d :
  lawful sid expected m ->
  exists d', commit_body sid m nowMs d = (Ok (CommitOk (mut_session m) (mut_effects m)), d')
    /\ authority_of d' = published (mut_session m).
Proof.
  intros (_ & _ & Hrev & Hlegs). unfold commit_body, mbind, M_bind.
  rewrite write_active_run by done.
  set (d0 := with_active (Some (row_of (mut_session m))) d).
  match goal with |- context [for_each ?l ?f d0] =>
    assert (never_rejects (for_each l f)) as Hr
      by (apply for_each_resolves; intros x _; apply enqueueEventIn_resolves);
    assert (preserves (keeps_active (active_navigation d0)) (for_each l f)) as Hk
      by (apply preserves_for_each; intros x _; apply enqueueEventIn_keeps);
    destruct (Hr d0) as ([] & d1 & E); specialize (Hk d0 eq_refl); rewrite E in Hk |- *
  end.
  unfold keeps_active in Hk. cbn [snd] in Hk.
  destruct (mut_alerts m) as [alerts|]; cycle 1.
  { exists d1. split; [done|]. erewrite authority_of_keeps by exact Hk. apply authority_of_row. }
  destruct (replaceAlertsIn_resolves sid alerts nowMs Hlegs d1) as ([] & d2 & E2).
  rewrite E2. pose proof (replaceAlertsIn_keeps (active_navigation d0) sid alerts nowMs d1 Hk) as Hk2.
  rewrite E2 in Hk2. exists d2. split; [done|].
  erewrite authority_of_keeps by exact Hk2. apply authority_of_row.
Qed.

Lemma commit_body_unlawful sid expected m nowMs d :
  sessionId (mut_session m) = sid -> revision (mut_session m) = expected + 1 ->
  ~ lawful sid expected m ->
  exists e d', commit_body sid m nowMs d = (Throw e, d').
Proof.
  intros Hsid Hrev Hn. unfold commit_body, mbind, M_bind.
  destruct (Z.le_gt_cases 0 (revision (mut_session m))) as [Hpos|Hneg]; cycle 1.
  { unfold writeActive, UPSERT_ACTIVE. cbn [row_of row_revision].
    apply Z.ltb_lt in Hneg. rewrite Hneg. eauto. }
  rewrite write_active_run by done.
  match goal with |- context [for_each ?l ?f ?d0] =>
    destruct (for_each_resolves l f (fun x _ => enqueueEventIn_resolves _) d0) as ([] & d1 & ->)
  end.
  destruct (mut_alerts m) as [alerts|] eqn:Ea.
  - destruct (replaceAlertsIn_rejects sid alerts nowMs d1) as (e & d' & ->); [|eauto].
    intros Hall. apply Hn. repeat split; try done. by rewrite Ea.
  - exfalso. apply Hn. repeat split; try done. by rewrite Ea.
Qed.

Lemma cas_run sid expected mutate nowMs d :
  compareAndSwap sid expected mutate nowMs d =
  match authority_of d with
  | NoAuthority => (Ok (CommitFail NoActiveSession), d)
  | Unreadable _ => (Ok (CommitFail CorruptSession), d)
  | Authority current =>
      if decide (sessionId current = sid /\ revision current = expected) then
        if decide (sessionId (mut_session (mutate current)) = sid) then
          if decide (revision (mut_session (mutate current)) = expected + 1)
          then transaction (commit_body sid (mutate current) nowMs) d
          else (Throw "a committed mutation must advance the revision by exactly one", d)
        else (Throw "a mutation must not change the session identity", d)
      else (Ok (CommitFail RevisionConflict), d)
  end.
Proof.
  unfold compareAndSwap, transaction, authority_of, mbind, M_bind, SELECT_ACTIVE, gets.
  cbn [fst snd]. destruct (active_navigation d) as [r|]; [|done].
  destruct (parseMobileSession (row_session_json r)) as [current|code]; [|done].
  destruct (decide (sessionId current = sid /\ revision current = expected)) as [[Hs Hr]|Hn].
  - apply String.eqb_eq in Hs. apply Z.eqb_eq in Hr. rewrite Hs, Hr. cbn [negb orb].
    destruct (decide (sessionId (mut_session (mutate current)) = sid)) as [E1|E1].
    + apply String.eqb_eq in E1. rewrite E1. cbn [negb].
      destruct (decide (revision (mut_session (mutate current)) = expected + 1)) as [E2|E2].
      * apply Z.eqb_eq in E2. rewrite E2. done.
      * apply Z.eqb_neq in E2. by rewrite E2.
    + apply String.eqb_neq in E1. by rewrite E1.
  - assert (negb (String.eqb (sessionId current) sid) || negb (revision current =? expected) = true)
      as ->; [|done].
    rewrite orb_true_iff, !negb_true_iff, String.eqb_neq, Z.eqb_neq.
    destruct (decide (sessionId current = sid)); tauto.
Qed.

(** A refused commit, of whatever kind, changes no table. *)
Lemma cas_refused sid expected mutate nowMs d code d' :
  compareAndSwap sid expected mutate nowMs d = (Ok (CommitFail code), d') -> d' = d.
Proof.
  rewrite cas_run. destruct (authority_of d) as [|s|current]; [by intros; simplify_eq..|].
  case_decide; [|by intros; simplify_eq].
  case_decide as Hsid; [|by intros; simplify_eq].
  case_decide as Hrev; [|by intros; simplify_eq].
  unfold transaction. destruct (decide (lawful sid expected (mutate current))) as [Hl|Hl].
  - destruct (commit_body_lawful sid expected (mutate current) nowMs d Hl) as (d1 & -> & _).
    by intros; simplify_eq.
  - destruct (commit_body_unlawful sid expected (mutate current) nowMs d Hsid Hrev Hl)
      as (e & d1 & ->).
    by intros; simplify_eq.
Qed.


(** a compare-and-swap is the abstract one.  It succeeds exactly when the
    register holds a readable session of that identity at that revision, and
    then publishes the mutated session; a refusal reports the register's state
    and changes no table at all; and the only rejections are mutations that
    change the identity, do not advance the revision by one, or break a column
    constraint, which leave the database untouched. *)
Theorem cas_refines_register sid expected mutate nowMs d :
  match compareAndSwap sid expected mutate nowMs d with
  | (Ok res, d') =>
      (res, authority_of d') = spec_cas sid expected mutate (authority_of d)
      /\ (forall code, res = CommitFail code -> d' = d)
  | (Throw _, d') =>
      d' = d
      /\ exists current, authority_of d = Authority current
           /\ sessionId current = sid /\ revision current = expected
           /\ ~ lawful sid expected (mutate current)
  end.
Proof.
  destruct (compareAndSwap sid expected mutate nowMs d) as [[res|e] d'] eqn:E.
  - split; [|intros code ->; by eapply cas_refused].
    rewrite cas_run in E. unfold spec_cas.
    destruct (authority_of d) as [|s|current] eqn:Ea; [by simplify_eq; rewrite Ea..|].
    case_decide as Hm; [|by simplify_eq; rewrite Ea].
    case_decide as Hsid; [|done]. case_decide as Hrev; [|done].
    unfold transaction in E. destruct (decide (lawful sid expected (mutate current))) as [Hl|Hl].
    + destruct (commit_body_lawful sid expected (mutate current) nowMs d Hl) as (d1 & E1 & E2).
      rewrite E1 in E. simplify_eq. by rewrite E2.
    + destruct (commit_body_unlawful sid expected (mutate current) nowMs d Hsid Hrev Hl)
        as (e & d1 & E1).
      by rewrite E1 in E.
  - rewrite cas_run in E. destruct (authority_of d) as [|s|current]; [done..|].
    case_decide as Hm; [|done]. destruct Hm as [Hid Hcur].
    assert (lawful sid expected (mutate current) -> False) as Hn; cycle 1.
    { split; [|by exists current].
      case_decide; [|by simplify_eq]. case_decide; [|by simplify_eq].
      unfold transaction in E. by case_match; case_match; simplify_eq. }
    intros Hl. pose proof Hl as (Hs & Hr & _). rewrite !decide_True in E by done.
    destruct (commit_body_lawful sid expected (mutate current) nowMs d Hl) as (d1 & E1 & _).
    unfold transaction in E. by rewrite E1 in E.
Qed.

Lemma op_cas_authority sid expected mutate nowMs d :
  authority_of (compareAndSwap sid expected mutate nowMs d).2 =
  spec_op (OpCompareAndSwap sid expected mutate nowMs) (authority_of d).
Proof.
  rewrite cas_run. cbn [spec_op]. destruct (authority_of d) as [|s|current] eqn:Ea; [done..|].
  destruct (decide (lawful sid expected (mutate current))) as [Hl|Hl].
  - pose proof Hl as (Hs & Hr & _). cbn [spec_cas]. case_decide as Hm; [|done].
    rewrite !decide_True by done. unfold transaction.
    destruct (commit_body_lawful sid expected (mutate current) nowMs d Hl) as (d1 & -> & E2).
    done.
  - case_decide as Hm; [|done]. case_decide as Hs; [|done]. case_decide as Hr; [|done].
    unfold transaction.
    by destruct (commit_body_unlawful sid expected (mutate current) nowMs d Hs Hr Hl)
      as (e & d1 & ->).
Qed.

Lemma create_run s d :
  0 <= revision s ->
  createPreparing s d =
  match authority_of d with
  | NoAuthority => (Ok (CommitOk s []), with_active (Some (row_of s)) d)
  | Unreadable sid =>
      (Ok (CommitOk s []), with_active (Some (row_of s)) (without_session sid d))
  | Authority current =>
      if is_terminal_status (status current)
      then (Ok (CommitOk s []),
            with_active (Some (row_of s))
              (without_session (default "" (row_session_id <$> active_navigation d)) d))
      else (Ok (CommitFail SessionActive), d)
  end.
Proof.
  intros Hs. unfold createPreparing, transaction, authority_of, mbind at 1, M_bind, SELECT_ACTIVE,
    gets. cbn [fst snd].
  destruct (active_navigation d) as [r|].
  - destruct (parseMobileSession (row_session_json r)) as [current|code].
    + destruct (is_terminal_status (status current)); cbn [negb]; [|done].
      unfold mbind, M_bind. rewrite delete_session_rows_run, write_active_run by done. done.
    + unfold mbind, M_bind. rewrite delete_session_rows_run, write_active_run by done. done.
  - unfold mbind, M_bind. rewrite write_active_run by done. done.
Qed.

Lemma op_create_authority s d :
  authority_of (createPreparing s d).2 = spec_op (OpCreatePreparing s) (authority_of d).
Proof.
  cbn [spec_op]. destruct (0 <=? revision s) eqn:E.
  - apply Z.leb_le in E. rewrite create_run by done. unfold spec_create.
    destruct (authority_of d) as [|sid|current] eqn:Ea; cbn [snd]; [apply authority_of_row..|].
    destruct (is_terminal_status (status current)); [apply authority_of_row|done].
  - apply Z.leb_gt in E. f_equal.
    assert (forall d, writeActive s d = (Throw "CHECK constraint failed: revision >= 0", d)) as Hw.
    { intros d'. unfold writeActive, UPSERT_ACTIVE. cbn [row_of row_revision].
      apply Z.ltb_lt in E. by rewrite E. }
    unfold createPreparing, transaction, mbind, M_bind, SELECT_ACTIVE, gets. cbn [fst snd].
    destruct (active_navigation d) as [r|]; [|by rewrite Hw].
    destruct (parseMobileSession _) as [current|code];
      [destruct (is_terminal_status _); cbn [negb]; [|done]|];
      by rewrite delete_session_rows_run, Hw.
Qed.

Lemma terminate_authority sid st nowMs d :
  db_wf d ->
  authority_of (terminate sid st nowMs d).2 = spec_terminate sid (authority_of d).
Proof.
  intros Hd. pose proof (wf_active d Hd) as Ha.
  destruct (active_navigation d) as [r|] eqn:E; cycle 1.
  { rewrite (terminate_nothing sid st nowMs d); [|by rewrite E]. unfold authority_of. cbn [snd]. by rewrite E. }
  destruct Ha as [Hrev Hrow].
  assert (spec_terminate sid (authority_of d) =
          if String.eqb (row_session_id r) sid then NoAuthority else authority_of d) as ->.
  { unfold authority_of. rewrite E. destruct (parseMobileSession _) as [s|code] eqn:Ep; [|done].
    apply parse_sound in Ep as [Et _]. rewrite Et in Hrow. simpl. by rewrite Hrow. }
  destruct (String.eqb (row_session_id r) sid) eqn:Es.
  - apply String.eqb_eq in Es. by rewrite (terminate_run sid st nowMs d r E Es Hrev).
  - apply String.eqb_neq in Es. rewrite (terminate_nothing sid st nowMs d); [done|].
    by rewrite E.
Qed.

Lemma load_run nowMs d :
  loadActive nowMs d =
  match authority_of d with
  | NoAuthority => (Ok None, d)
  | Authority s => (Ok (Some s), d)
  | Unreadable sid =>
      (Ok None, quarantined (Some sid)
         (match active_navigation d with
          | Some r => match parseMobileSession (row_session_json r) with
                      | inr code => parse_code_text code | inl _ => "" end
          | None => "" end) nowMs d)
  end.
Proof.
  unfold loadActive, inspectActive, authority_of, mbind, M_bind, SELECT_ACTIVE, gets.
  cbn [fst snd]. destruct (active_navigation d) as [r|]; [|done].
  destruct (parseMobileSession _) as [s|code]; [done|]. by rewrite quarantine_run.
Qed.

Lemma quarantined_authority sid reason nowMs d :
  authority_of (quarantined sid reason nowMs d) = NoAuthority.
Proof. unfold quarantined, authority_of. by destruct (non_empty sid). Qed.

Lemma ignore_state {A} (m : M db A) d : (ignore m d).2 = (m d).2.
Proof. unfold ignore, mbind, M_bind. by destruct (m d) as [[|] ?]. Qed.

Lemma keeps_authority {A} (m : M db A) d :
  (forall a, preserves (keeps_active a) m) -> authority_of (m d).2 = authority_of d.
Proof. intros Hk. apply authority_of_keeps. by apply (Hk (active_navigation d)). Qed.

(** One operation refines one step of the register. *)
Lemma op_refines op d :
  db_wf d -> authority_of (run_repo_op op d).2 = spec_op op (authority_of d).
Proof.
  intros Hd. destruct op; cbn [run_repo_op]; rewrite ?ignore_state.
  - rewrite load_run. cbn [spec_op]. destruct (authority_of d) eqn:E; cbn [snd]; try done.
    apply quarantined_authority.
  - apply op_create_authority.
  - apply op_cas_authority.
  - by apply terminate_authority.
  - apply keeps_authority. intros a. apply preserves_transaction, enqueueEventIn_keeps.
  - apply keeps_authority. intros a. apply ackEvents_keeps.
  - apply keeps_authority. intros a. apply rememberCommand_keeps.
  - apply keeps_authority. intros a. apply preserves_transaction, replaceAlertsIn_keeps.
  - done.
  - apply keeps_authority. intros a. apply recordDiagnostic_keeps.
  - done.
  - rewrite quarantine_run. apply quarantined_authority.
  - pose proof (wf_active d Hd) as Ha. unfold authority_of.
    cbn -[parseMobileSession].
    destruct (active_navigation d) as [r|]; [|done]. destruct Ha as [_ Hrow].
    cbn -[parseMobileSession].
    assert (exists code, parseMobileSession (OtherText version) = inr code) as [code ->]
      by (destruct version as [v|]; cbn [parseMobileSession];
          [destruct (v =? MOBILE_NAVIGATION_SESSION_SCHEMA_VERSION)|]; eauto).
    destruct (parseMobileSession (row_session_json r)) as [s|code'] eqn:Ep; [|done].
    apply parse_sound in Ep as [Et _]. rewrite Et in Hrow. by rewrite Hrow.
Qed.

Lemma run_ops_wf ops d : db_wf d -> db_wf (run_ops ops d).
Proof.
  revert d. induction ops as [|op ops IH]; intros d Hd; [done|]. by apply IH, run_repo_op_wf.
Qed.

(** C5: forward simulation.  Through any sequence of repository operations, the
    authority a reader sees in the database is the one obtained by running the
    abstract register's operations: the outbox, replay table, alerts,
    diagnostics and quarantine records never influence it. *)
Theorem repository_refines_register ops d :
  db_wf d ->
  authority_of (run_ops ops d) = foldl (fun a op => spec_op op a) (authority_of d) ops.
Proof.
  revert d. induction ops as [|op ops IH]; intros d Hd; [done|].
  cbn [run_ops foldl]. fold (run_ops ops (run_repo_op op d).2).
  rewrite IH by (by apply run_repo_op_wf). by rewrite op_refines.
Qed.

(** ** Stale writers *)

Lemma spec_op_settled sid e op a :
  ~ creates sid op ->
  (forall s, a = Authority s -> sessionId s = sid -> e <= revision s) ->
  forall s, spec_op op a = Authority s -> sessionId s = sid -> e <= revision s.
Proof.
  intros Hc Ha s Hs Hid. destruct op; cbn [spec_op] in Hs; try (by eapply Ha); try done.
  - by destruct a; [done..|eapply Ha].
  - assert (forall s', published session = Authority s' -> s' = session) as Hp
      by (unfold published; intros s' Hs'; case_match; congruence).
    case_match; [|by eapply Ha].
    destruct a as [| |current]; cbn [spec_create snd] in Hs;
      [apply Hp in Hs; subst; by destruct Hc..|].
    case_match; [|by eapply Ha]. apply Hp in Hs. subst. by destruct Hc.
  - destruct a as [| |current]; [done..|]. case_decide as Hl; [|by eapply Ha].
    cbn [spec_cas] in Hs. case_decide as Hm; cbn [snd] in Hs; [|by eapply Ha].
    destruct Hl as (H1 & H2 & _). destruct Hm as [H3 H4].
    unfold published in Hs. case_match; simplify_eq.
    assert (e <= revision current) by (eapply Ha; congruence). lia.
  - destruct a as [| |current]; cbn [spec_terminate] in Hs; [done|by case_match|].
    case_match; [done|by eapply Ha].
  - by destruct a.
Qed.

Lemma cas_commit_settled sid expected mutate nowMs d s eff d' :
  compareAndSwap sid expected mutate nowMs d = (Ok (CommitOk s eff), d') ->
  settled sid (expected + 1) d'.
Proof.
  rewrite cas_run. destruct (authority_of d) as [| |current]; [by intros; simplify_eq..|].
  case_decide; [|by intros; simplify_eq]. case_decide as Hs; [|by intros; simplify_eq].
  case_decide as Hr; [|by intros; simplify_eq].
  unfold transaction. destruct (decide (lawful sid expected (mutate current))) as [Hl|Hl].
  - destruct (commit_body_lawful sid expected (mutate current) nowMs d Hl) as (d1 & -> & Hp).
    intros; simplify_eq. intros s' Hs'. rewrite Hp in Hs'. unfold published in Hs'.
    case_match; simplify_eq. lia.
  - destruct (commit_body_unlawful sid expected (mutate current) nowMs d Hs Hr Hl)
      as (e & d1 & ->). by intros; simplify_eq.
Qed.

(** no lost update.  Once a compare-and-swap from revision [expected] has
    committed, then after any further operations (the identity not being created
    again) every writer that still names that revision, or an older one, is
    refused and writes nothing, whatever it wanted to write. *)
Theorem stale_writer_always_loses sid expected mutate nowMs d s eff d1 ops stale mutate' nowMs' :
  db_wf d ->
  compareAndSwap sid expected mutate nowMs d = (Ok (CommitOk s eff), d1) ->
  Forall (fun op => ~ creates sid op) ops ->
  stale <= expected ->
  exists code, compareAndSwap sid stale mutate' nowMs' (run_ops ops d1) =
               (Ok (CommitFail code), run_ops ops d1).
Proof.
  intros Hd Hcas Hops Hstale.
  assert (db_wf d1) as Hd1.
  { pose proof (compareAndSwap_wf sid expected mutate nowMs d Hd) as Hw. by rewrite Hcas in Hw. }
  assert (settled sid (expected + 1) (run_ops ops d1)) as Hset.
  { apply cas_commit_settled in Hcas. clear d Hd. revert d1 Hd1 Hcas.
    induction Hops as [|op ops Hop Hops IH]; intros d1 Hd1 Hset; [done|].
    cbn [run_ops foldl]. apply IH; [by apply run_repo_op_wf|].
    intros s' Hs'. rewrite op_refines in Hs' by done. revert s' Hs'.
    by apply (spec_op_settled sid (expected + 1) op (authority_of d1)). }
  rewrite cas_run. destruct (authority_of (run_ops ops d1)) as [| |current] eqn:E; [eauto..|].
  rewrite decide_False; [eauto|]. intros [Hid Hrev]. specialize (Hset current E Hid). lia.
Qed.
End refinement.

(** ** Witnesses, creation and damaged records *)

Definition bump (s : MobileNavigationSession) : RepositoryMutation :=
  {| mut_session := advance 2000 s; mut_effects := [PublishSnapshot true]; mut_enqueue := [];
     mut_alerts := None |}.

Definition sample_db (rev : Z) (st : SessionStatus) : db :=
  (writeActive (sample_ground rev st) empty_db).2.

Lemma sample_db_wf rev st : db_wf (sample_db rev st).
Proof. apply UPSERT_ACTIVE_wf, empty_db_wf. Qed.

Lemma repository_refines_register_witness :
  authority_of (run_ops [OpCompareAndSwap "s1" 3 bump 2000; OpTerminate "s1" FinalStopped 3000]
                  (sample_db 3 Active)) = NoAuthority.
Proof.
  rewrite (repository_refines_register _ (sample_db 3 Active) (sample_db_wf 3 Active)).
  vm_compute. reflexivity.
Defined.

Lemma stale_writer_always_loses_witness :
  let d1 := (compareAndSwap "s1" 3 bump 2000 (sample_db 3 Active)).2 in
  exists code, compareAndSwap "s1" 3 bump 4000 (run_ops [OpRecordDiagnostic "x" "{}" 1; OpCompareAndSwap "s1" 4 bump 3000] d1)
    = (Ok (CommitFail code), run_ops [OpRecordDiagnostic "x" "{}" 1; OpCompareAndSwap "s1" 4 bump 3000] d1).
Proof.
  apply (stale_writer_always_loses "s1" 3 bump 2000 (sample_db 3 Active)
           (advance 2000 (sample_ground 3 Active)) [PublishSnapshot true]).
  - apply sample_db_wf.
  - vm_compute. reflexivity.
  - repeat constructor; intros [].
  - lia.
Defined.

(** a first revision is written only over nothing, a finished session or a
    record that cannot be read, whose rows are erased in the same transaction; a
    readable session that is not finished is never displaced, however old it is,
    and the refusal changes nothing. *)
Theorem create_preparing_never_displaces `{ReceiptValidators} s d :
  db_wf d -> 0 <= revision s ->
  match authority_of d with
  | Authority current =>
      if is_terminal_status (status current)
      then createPreparing s d =
             (Ok (CommitOk s []), with_active (Some (row_of s)) (without_session (sessionId current) d))
      else createPreparing s d = (Ok (CommitFail SessionActive), d)
  | Unreadable sid =>
      createPreparing s d =
        (Ok (CommitOk s []), with_active (Some (row_of s)) (without_session sid d))
  | NoAuthority => createPreparing s d = (Ok (CommitOk s []), with_active (Some (row_of s)) d)
  end.
Proof.
  intros Hd Hs. rewrite create_run by done.
  pose proof (wf_active d Hd) as Ha. unfold authority_of.
  destruct (active_navigation d) as [r|] eqn:E; [|done].
  destruct Ha as [_ Hrow]. destruct (parseMobileSession _) as [current|code] eqn:Ep; [|done].
  apply parse_sound in Ep as [Et _]. rewrite Et in Hrow. subst r.
  by destruct (is_terminal_status (status current)).
Qed.

Lemma create_preparing_never_displaces_witness :
  createPreparing (sample_transit 1 Preparing) (sample_db 3 Active) =
  (Ok (CommitFail SessionActive), sample_db 3 Active).
Proof.
  apply (create_preparing_never_displaces (sample_transit 1 Preparing) (sample_db 3 Active));
    [apply sample_db_wf | simpl; lia].
Defined.

(** a stored record that is not a readable session cannot crash-loop the
    application: loading it answers "no session", erases every row of that
    session, leaves the acknowledgements and the other sessions' events alone,
    and the next load finds nothing to quarantine. *)
Theorem unreadable_session_quarantined_once `{ReceiptValidators} sid nowMs d :
  db_wf d -> sid <> "" -> authority_of d = Unreadable sid ->
  exists d',
    loadActive nowMs d = (Ok None, d')
    /\ erased sid d'
    /\ terminal_ack d' = terminal_ack d
    /\ (forall other, other <> sid -> events_of other d' = events_of other d)
    /\ (length (quarantined_sessions d') <= MAX_QUARANTINE_RECORDS)%nat
    /\ (forall nowMs', loadActive nowMs' d' = (Ok None, d')).
Proof.
  intros Hd Hsid Ha.
  assert (db_wf (loadActive nowMs d).2) as Hw by by apply loadActive_wf.
  rewrite load_run, Ha in Hw |- *. eexists. split; [done|].
  assert (non_empty (Some sid) = Some sid) as Hne.
  { simpl. apply String.eqb_neq in Hsid. by rewrite Hsid. }
  unfold quarantined in *. rewrite Hne in *. repeat split; try apply Forall_filter_self.
  - intros other Ho. unfold events_of. simpl. rewrite filter_swap. apply filter_all.
    apply Forall_forall. intros e [He _]%list_elem_of_filter. congruence.
  - by destruct (wf_quarantine _ Hw) as (_ & Hlen & _).
Qed.

Lemma unreadable_session_quarantined_once_witness :
  exists d', loadActive 9000 (run_ops [OpCorrupted None] (sample_db 3 Active)) = (Ok None, d')
    /\ erased "s1" d'.
Proof.
  destruct (unreadable_session_quarantined_once "s1" 9000
              (run_ops [OpCorrupted None] (sample_db 3 Active))) as (d' & H1 & H2 & _); eauto.
  apply run_ops_wf, sample_db_wf.
Defined.
