(* ===== verification/Effects.v ===== *)
(** * Running committed intents

    apps/mobile/src/navigation/effects.ts: the fixed order of the intents and the
    runner that attempts every one of them.  The ports are an arbitrary
    implementation over an arbitrary world. *)

From S2P Require Import Prelude Protocol Session Snapshot Samples Database Repository.

(** [ORDER[effect.kind]]. *)
Definition ORDER (e : SessionEffect) : Z :=
  match e with
  | StopLocation => 0
  | StartLocation _ => 1
  | UpdateLocationProfile _ => 2
  | CancelSessionAlerts _ => 3
  | ReconcileAlerts _ => 4
  | StopAudio => 5
  | Speak _ _ _ => 6
  | RequestReroute _ => 7
  | RequestTransitRefresh _ => 8
  | ReconcileSurface => 9
  | PublishEvent _ => 10
  | PublishSnapshot _ => 11
  end.

(** The [kind] of an effect, all that a failure leaves in the log. *)
Definition effect_kind (e : SessionEffect) : string :=
  match e with
  | StopLocation => "stop-location"
  | StartLocation _ => "start-location"
  | UpdateLocationProfile _ => "update-location-profile"
  | CancelSessionAlerts _ => "cancel-session-alerts"
  | ReconcileAlerts _ => "reconcile-alerts"
  | StopAudio => "stop-audio"
  | Speak _ _ _ => "speak"
  | RequestReroute _ => "request-reroute"
  | RequestTransitRefresh _ => "request-transit-refresh"
  | ReconcileSurface => "reconcile-surface"
  | PublishEvent _ => "publish-event"
  | PublishSnapshot _ => "publish-snapshot"
  end.

(** [EffectPorts] over a world [W]; the diagnostics sink cannot fail. *)
Record EffectPorts (W : Type) := {
  reconcileSurface : option (M W unit);
  driver_start : PermissionMode -> M W unit;
  driver_stop : M W unit;
  driver_updateProfile : string -> M W unit;
  audio_speak : string -> string -> Locale -> M W unit;
  audio_stop : M W unit;
  alerts_reconcile : string -> M W unit;
  alerts_cancelSession : string -> M W unit;
  publish_snapshot : bool -> M W unit;
  publish_event : string -> M W unit;
  remote_reroute : string -> M W unit;
  remote_transitRefresh : string -> M W unit;
  diagnostics_record : string -> string -> string -> W -> W;
}.
Arguments reconcileSurface {W}.
Arguments driver_start {W}.
Arguments driver_stop {W}.
Arguments driver_updateProfile {W}.
Arguments audio_speak {W}.
Arguments audio_stop {W}.
Arguments alerts_reconcile {W}.
Arguments alerts_cancelSession {W}.
Arguments publish_snapshot {W}.
Arguments publish_event {W}.
Arguments remote_reroute {W}.
Arguments remote_transitRefresh {W}.
Arguments diagnostics_record {W}.

Section runner.
Context {W : Type} (ports : EffectPorts W).

(** [EffectRunner.execute]. *)
Definition execute (effect : SessionEffect) : M W unit :=
  match effect with
  | ReconcileSurface => match reconcileSurface ports with Some f => f | None => mret tt end
  | StartLocation permissionMode => driver_start ports permissionMode
  | StopLocation => driver_stop ports
  | UpdateLocationProfile profile => driver_updateProfile ports profile
  | Speak cueId text locale => audio_speak ports cueId text locale
  | StopAudio => audio_stop ports
  | ReconcileAlerts sessionId => alerts_reconcile ports sessionId
  | CancelSessionAlerts sessionId => alerts_cancelSession ports sessionId
  | PublishSnapshot immediate => publish_snapshot ports immediate
  | PublishEvent eventId => publish_event ports eventId
  | RequestReroute requestId => remote_reroute ports requestId
  | RequestTransitRefresh requestId => remote_transitRefresh ports requestId
  end.

Fixpoint run_ordered (effects : list SessionEffect) (failed : Z) : M W Z :=
  match effects with
  | [] => mret failed
  | effect :: rest =>
      more ← try_catch (_ ← execute effect; mret 0)
               (_ ← modify (diagnostics_record ports "typed.error" "effect" (effect_kind effect));
                mret 1);
      run_ordered rest (failed + more)
  end.

(** [EffectRunner.run], answering the number of failures. *)
Definition run_effects (effects : list SessionEffect) : M W Z :=
  run_ordered (sort_by ORDER effects) 0.

(** ** The runner never rejects *)

Lemma run_ordered_cons effect rest failed w :
  run_ordered (effect :: rest) failed w =
  match execute effect w with
  | (Ok _, w') => run_ordered rest (failed + 0) w'
  | (Throw _, w') =>
      run_ordered rest (failed + 1)
        (diagnostics_record ports "typed.error" "effect" (effect_kind effect) w')
  end.
Proof.
  cbn [run_ordered]. unfold try_catch, mbind, M_bind. by destruct (execute effect w) as [[u|e] w'].
Qed.

Lemma run_ordered_resolves effects failed w :
  exists n w', run_ordered effects failed w = (Ok n, w') /\ failed <= n <= failed + Z.of_nat (length effects).
Proof.
  revert failed w. induction effects as [|e effects IH]; intros failed w.
  { exists failed, w. split; [done|]. simpl. lia. }
  rewrite run_ordered_cons. destruct (execute e w) as [[u|err] w'];
    match goal with |- context [run_ordered _ ?f ?w0] => destruct (IH f w0) as (n & w2 & -> & Hn) end;
    exists n, w2; (split; [done|]); simpl; lia.
Qed.
End runner.

(** ** Ports that log what they are asked *)

(** A world that records every effect attempted and every failure logged, where
    an arbitrary oracle decides which attempts fail. *)
Record Attempts := { attempted : list SessionEffect; logged : list string }.

Section logging.
Context (fails : nat -> SessionEffect -> bool).

Definition attempt (e : SessionEffect) : M Attempts unit := fun w =>
  let w' := {| attempted := attempted w ++ [e]; logged := logged w |} in
  if fails (length (attempted w)) e then (Throw "port", w') else (Ok tt, w').

Definition logging_ports : EffectPorts Attempts :=
  {| reconcileSurface := Some (attempt ReconcileSurface);
     driver_start := fun m => attempt (StartLocation m);
     driver_stop := attempt StopLocation;
     driver_updateProfile := fun p => attempt (UpdateLocationProfile p);
     audio_speak := fun c t l => attempt (Speak c t l);
     audio_stop := attempt StopAudio;
     alerts_reconcile := fun s => attempt (ReconcileAlerts s);
     alerts_cancelSession := fun s => attempt (CancelSessionAlerts s);
     publish_snapshot := fun i => attempt (PublishSnapshot i);
     publish_event := fun e => attempt (PublishEvent e);
     remote_reroute := fun r => attempt (RequestReroute r);
     remote_transitRefresh := fun r => attempt (RequestTransitRefresh r);
     diagnostics_record := fun _ _ kind w =>
       {| attempted := attempted w; logged := logged w ++ [kind] |} |}.

Lemma execute_attempt e : execute logging_ports e = attempt e.
Proof. by destruct e. Qed.

(** The effects of a run that fail, from the [n]-th attempt on. *)
Fixpoint failing (n : nat) (effects : list SessionEffect) : list SessionEffect :=
  match effects with
  | [] => []
  | e :: r => if fails n e then e :: failing (S n) r else failing (S n) r
  end.

Lemma run_ordered_log effects failed w :
  run_ordered logging_ports effects failed w =
  let bad := failing (length (attempted w)) effects in
  (Ok (failed + Z.of_nat (length bad)),
   {| attempted := attempted w ++ effects; logged := logged w ++ map effect_kind bad |}).
Proof.
  revert failed w. induction effects as [|e effects IH]; intros failed w; simpl failing; cbv zeta.
  { simpl. rewrite !app_nil_r, Z.add_0_r. by destruct w. }
  rewrite run_ordered_cons, execute_attempt. unfold attempt.
  destruct (fails (length (attempted w)) e); rewrite IH; cbn [attempted logged diagnostics_record
    logging_ports]; rewrite length_app, Nat.add_1_r, <- !app_assoc; cbn [app map length];
    (apply (f_equal2 pair); [apply f_equal; lia|reflexivity]).
Qed.

(** the runner attempts every intent exactly once whatever fails, in the
    fixed order (the driver is stopped before audio is released, alerts are
    reconciled before publishing, the snapshot comes last), intents of one kind in
    the order they were committed; it never rejects, answers the number of
    failures, and logs only the kind of each failed intent. *)
Theorem effects_all_attempted_in_order effects :
  let ordered := sort_by ORDER effects in
  run_effects logging_ports effects {| attempted := []; logged := [] |} =
    (Ok (Z.of_nat (length (failing 0 ordered))),
     {| attempted := ordered; logged := map effect_kind (failing 0 ordered) |})
  /\ ordered ≡ₚ effects
  /\ StronglySorted (fun a b => ORDER a <= ORDER b) ordered
  /\ forall k, List.filter (fun e => ORDER e =? k) ordered = List.filter (fun e => ORDER e =? k) effects.
Proof.
  intros ordered. split; [|split; [|split]].
  - unfold run_effects. rewrite run_ordered_log. done.
  - apply sort_by_perm.
  - apply sort_by_sorted.
  - intros k. apply sort_by_stable.
Qed.
End logging.
