(* ===== verification/Reroute.v ===== *)
(** * When to ask for a new route

    apps/mobile/src/navigation/ground/rerouteState.ts: the reroute runtime, its
    backoff and the churn ceiling. *)

From S2P Require Import Prelude Protocol Session.

Definition REROUTE_REQUEST_TIMEOUT_MS : Z := 15000.
Definition REROUTE_RETRY_DELAYS_MS : list Z := [3000; 6000; 12000; 24000; 30000].
Definition RETRY_JITTER_MS : Z := 1000.
Definition CHURN_WINDOW_MS : Z := 120000.
Definition CHURN_LIMIT : nat := 3.
Definition CHURN_COOLDOWN_MS : Z := 30000.
Definition REROUTE_MAX_CONSECUTIVE_FAILURES : Z := Z.of_nat (length REROUTE_RETRY_DELAYS_MS).

Record ChurnHistory := {
  successAtMs : list Z;
  cooldownUntilMs : option Z;
}.

Inductive RerouteRefusal := RefInFlight | RefBackoff | RefChurnCooldown | RefOffline | RefExhausted.

(** [RerouteDecision]: [None] allows the request. *)
Definition canRequestReroute (runtime : RerouteRuntime) (churn : ChurnHistory)
    (connectivity : Connectivity) (nowMs : Z) : option RerouteRefusal :=
  if decide (rr_status runtime = RrInFlight) then Some RefInFlight
  else if decide (connectivity = Offline) then Some RefOffline
  else if match cooldownUntilMs churn with Some t => nowMs <? t | None => false end
  then Some RefChurnCooldown
  else if REROUTE_MAX_CONSECUTIVE_FAILURES <=? rr_attempts runtime then Some RefExhausted
  else if match rr_nextAttemptAtMs runtime with Some t => nowMs <? t | None => false end
  then Some RefBackoff
  else None.

(** [RETRY_DELAYS_MS[index]] *)
Definition delay_at (delays : list Z) (index : Z) : Z := nth (Z.to_nat index) delays 0.

(** [Math.min(Math.max(x, 0), 1)] of a finite double. *)
Definition clamp01 (x : QArith_base.Q) : QArith_base.Q :=
  if QArith_base.Qle_bool x (QArith_base.inject_Z 0) then QArith_base.inject_Z 0
  else if QArith_base.Qle_bool (QArith_base.inject_Z 1) x then QArith_base.inject_Z 1
  else x.

(** [Math.round(clamped * RETRY_JITTER_MS)], the product a double. *)
Definition jitter_ms (jitter01 : QArith_base.Q) : Z :=
  match num_mul (Fin (clamp01 jitter01)) (num_of_Z RETRY_JITTER_MS) with
  | Fin q => q_round q
  | _ => 0
  end.

Definition retryDelayMs (attempts : Z) (jitter01 : QArith_base.Q) : Z :=
  let index := Z.min (Z.max attempts 1) (Z.of_nat (length REROUTE_RETRY_DELAYS_MS)) - 1 in
  delay_at REROUTE_RETRY_DELAYS_MS index + jitter_ms jitter01.

Definition onRerouteRequested (runtime : RerouteRuntime) (requestId : string) : RerouteRuntime :=
  {| rr_status := RrInFlight;
     rr_requestId := Some requestId;
     rr_attempts := rr_attempts runtime;
     rr_nextAttemptAtMs := rr_nextAttemptAtMs runtime;
     rr_lastFailureCode := rr_lastFailureCode runtime |}.

Definition onRerouteFailed (runtime : RerouteRuntime) (code : string) (nowMs : Z)
    (jitter01 : QArith_base.Q) : RerouteRuntime :=
  let attempts := rr_attempts runtime + 1 in
  {| rr_status := if REROUTE_MAX_CONSECUTIVE_FAILURES <=? attempts then RrFailed else RrPending;
     rr_requestId := None;
     rr_attempts := attempts;
     rr_nextAttemptAtMs := Some (nowMs + retryDelayMs attempts jitter01);
     rr_lastFailureCode := Some (slice0 64 code) |}.

Definition onRerouteOffline (runtime : RerouteRuntime) : RerouteRuntime :=
  {| rr_status := RrUnavailable; rr_requestId := None; rr_attempts := rr_attempts runtime;
     rr_nextAttemptAtMs := None; rr_lastFailureCode := None |}.

Definition idle_reroute (attempts : Z) : RerouteRuntime :=
  {| rr_status := RrIdle; rr_requestId := None; rr_attempts := attempts;
     rr_nextAttemptAtMs := None; rr_lastFailureCode := None |}.

Definition onRerouteSucceeded : RerouteRuntime := idle_reroute 0.

Definition onBackOnRoute (runtime : RerouteRuntime) : RerouteRuntime :=
  if decide (rr_status runtime = RrIdle) then runtime else idle_reroute 0.

Definition recordSuccess (churn : ChurnHistory) (nowMs : Z) : ChurnHistory :=
  let recent := filter (fun at_ => nowMs - at_ <= CHURN_WINDOW_MS) (successAtMs churn ++ [nowMs]) in
  if (CHURN_LIMIT <=? length recent)%nat
  then {| successAtMs := recent; cooldownUntilMs := Some (nowMs + CHURN_COOLDOWN_MS) |}
  else {| successAtMs := recent; cooldownUntilMs := None |}.

Definition EMPTY_CHURN : ChurnHistory := {| successAtMs := []; cooldownUntilMs := None |}.

(** [{ ...payload, reroute }] *)
Definition with_reroute (r : RerouteRuntime) (p : GroundPayload) : GroundPayload :=
  {| g_startPackage := g_startPackage p; g_tickState := g_tickState p;
     g_progress := g_progress p; g_weakGps := g_weakGps p; g_offRoute := g_offRoute p;
     g_coasting := g_coasting p; g_currentSpeedLimit := g_currentSpeedLimit p;
     g_coastingAnchor := g_coastingAnchor p; g_reroute := r |}.

(** ** Lemmas *)

(** The base delay grows with the attempts and stays in the table. *)
Definition base_delay (attempts : Z) : Z :=
  delay_at REROUTE_RETRY_DELAYS_MS
    (Z.min (Z.max attempts 1) (Z.of_nat (length REROUTE_RETRY_DELAYS_MS)) - 1).

Lemma base_delay_cases attempts :
  base_delay attempts =
  if attempts <=? 1 then 3000 else if attempts =? 2 then 6000
  else if attempts =? 3 then 12000 else if attempts =? 4 then 24000 else 30000.
Proof.
  unfold base_delay. simpl length.
  destruct (attempts <=? 1) eqn:E1.
  { apply Z.leb_le in E1. replace (Z.max attempts 1) with 1 by lia. done. }
  apply Z.leb_gt in E1. replace (Z.max attempts 1) with attempts by lia.
  destruct (attempts =? 2) eqn:E2; [apply Z.eqb_eq in E2; by subst|].
  destruct (attempts =? 3) eqn:E3; [apply Z.eqb_eq in E3; by subst|].
  destruct (attempts =? 4) eqn:E4; [apply Z.eqb_eq in E4; by subst|].
  rewrite Z.eqb_neq in *. by replace (Z.min attempts (Z.of_nat 5)) with 5 by lia.
Qed.

Lemma base_delay_monotone a b : a <= b -> base_delay a <= base_delay b.
Proof.
  intros Hab. rewrite !base_delay_cases.
  repeat case_match; rewrite ?Z.leb_le, ?Z.leb_gt, ?Z.eqb_eq, ?Z.eqb_neq in *; lia.
Qed.

Lemma reroute_attempts_bound runtime code nowMs j :
  groundRerouteStateSchema (onRerouteFailed runtime code nowMs j) = true ->
  rr_attempts runtime <= 63.
Proof.
  unfold groundRerouteStateSchema. rewrite !andb_true_iff, !Z.leb_le. simpl. lia.
Qed.
