(* ===== verification/Refresh.v ===== *)
(** * Refreshing a transit itinerary

    apps/mobile/src/navigation/transit/refreshState.ts: when to refetch live data
    and how a failed, ambiguous or late reply changes the runtime. *)

From S2P Require Import Prelude Protocol Session Samples.

Definition REFRESH_INTERVAL_MS : Z := 30000.
Definition REFRESH_REQUEST_TIMEOUT_MS : Z := 15000.
Definition REFRESH_RETRY_DELAYS_MS : list Z := [30000; 60000; 120000; 240000; 300000].
Definition REFRESH_MAX_CONSECUTIVE_FAILURES : Z := Z.of_nat (length REFRESH_RETRY_DELAYS_MS).

Inductive RefreshRefusal := NoInFlight | NoTooSoon | NoOffline | NoToken | NoBroken | NoTerminal.

(** [runtime.ambiguousAttempts ?? 0] *)
Definition ambiguous (r : RefreshRuntime) : Z := default 0 (rf_ambiguousAttempts r).

(** [RefreshDecision]: [None] sends the refresh. *)
Definition shouldRefresh (runtime : RefreshRuntime) (hasToken : bool)
    (connectivity : Connectivity) (status : SessionStatus) (nowMs : Z) : option RefreshRefusal :=
  if negb (bool_decide (status = Active)) && negb (bool_decide (status = Preparing))
  then Some NoTerminal
  else if negb hasToken then Some NoToken
  else if decide (rf_status runtime = RfInFlight) then Some NoInFlight
  else if match rf_firstAttemptAtMs runtime with
          | Some t => (0 <? ambiguous runtime) && (120000 <=? nowMs - t)
          | None => false
          end then Some NoBroken
  else if decide (rf_status runtime = RfBroken) then Some NoBroken
  else if decide (connectivity = Offline) then Some NoOffline
  else if match rf_nextAttemptAtMs runtime with Some t => nowMs <? t | None => false end
  then Some NoTooSoon
  else None.

Definition onRefreshRequested (runtime : RefreshRuntime) (requestId : string) (nowMs : Z)
    : RefreshRuntime :=
  {| rf_status := RfInFlight;
     rf_generation := rf_generation runtime + 1;
     rf_requestId := Some requestId;
     rf_nextAttemptAtMs := Some (nowMs + REFRESH_REQUEST_TIMEOUT_MS + 5000);
     rf_attempts := rf_attempts runtime;
     rf_firstAttemptAtMs := if 0 <? ambiguous runtime then rf_firstAttemptAtMs runtime
                            else Some nowMs;
     rf_ambiguousAttempts := rf_ambiguousAttempts runtime |}.

Definition onRefreshSucceeded (runtime : RefreshRuntime) (nowMs : Z) : RefreshRuntime :=
  {| rf_status := RfReady;
     rf_generation := rf_generation runtime;
     rf_requestId := None;
     rf_nextAttemptAtMs := Some (nowMs + REFRESH_INTERVAL_MS);
     rf_attempts := 0;
     rf_firstAttemptAtMs := None;
     rf_ambiguousAttempts := None |}.

Inductive RefreshFailure := FailRejected | FailAmbiguous | FailOffline | FailRetryable.

#[export] Instance RefreshFailure_eq_dec : EqDecision RefreshFailure.
Proof. solve_decision. Defined.

Definition onRefreshUnreachable (runtime : RefreshRuntime) (nowMs : Z) : RefreshRuntime :=
  let attempts := Z.min 64 (rf_attempts runtime + 1) in
  let index := Z.min attempts (Z.of_nat (length REFRESH_RETRY_DELAYS_MS)) - 1 in
  {| rf_status := if REFRESH_MAX_CONSECUTIVE_FAILURES <=? attempts then RfStale else RfReady;
     rf_generation := rf_generation runtime;
     rf_requestId := None;
     rf_nextAttemptAtMs :=
       Some (nowMs + (if 0 <? ambiguous runtime then REFRESH_INTERVAL_MS
                      else nth (Z.to_nat index) REFRESH_RETRY_DELAYS_MS 0));
     rf_attempts := attempts;
     rf_firstAttemptAtMs := if 0 <? ambiguous runtime then rf_firstAttemptAtMs runtime else None;
     rf_ambiguousAttempts := if 0 <? ambiguous runtime then rf_ambiguousAttempts runtime
                             else None |}.

Definition set_refresh_status (st : RefreshStatus) (r : RefreshRuntime) : RefreshRuntime :=
  {| rf_status := st; rf_generation := rf_generation r; rf_requestId := rf_requestId r;
     rf_nextAttemptAtMs := rf_nextAttemptAtMs r; rf_attempts := rf_attempts r;
     rf_firstAttemptAtMs := rf_firstAttemptAtMs r;
     rf_ambiguousAttempts := rf_ambiguousAttempts r |}.

(** [{ ...runtime, ambiguousAttempts: undefined, firstAttemptAtMs: undefined }] *)
Definition forget_ambiguity (r : RefreshRuntime) : RefreshRuntime :=
  {| rf_status := rf_status r; rf_generation := rf_generation r; rf_requestId := rf_requestId r;
     rf_nextAttemptAtMs := rf_nextAttemptAtMs r; rf_attempts := rf_attempts r;
     rf_firstAttemptAtMs := None; rf_ambiguousAttempts := None |}.

Definition onRefreshFailed (runtime : RefreshRuntime) (failure : RefreshFailure) (nowMs : Z)
    (hasToken : bool) : RefreshRuntime :=
  if negb hasToken then onRefreshUnreachable (forget_ambiguity runtime) nowMs
  else match failure with
  | FailOffline => set_refresh_status RfStale runtime
  | FailRetryable => onRefreshUnreachable runtime nowMs
  | _ =>
      let attempts := Z.min 64 (rf_attempts runtime + 1) in
      let firstAttemptAtMs := default nowMs (rf_firstAttemptAtMs runtime) in
      let ambiguousAttempts := Z.min 3 (ambiguous runtime + 1) in
      {| rf_status := if bool_decide (failure = FailRejected) || (3 <=? ambiguousAttempts)
                         || (120000 <=? nowMs - firstAttemptAtMs)
                      then RfBroken else RfReady;
         rf_generation := rf_generation runtime;
         rf_requestId := None;
         rf_nextAttemptAtMs := Some (nowMs + 30000);
         rf_attempts := attempts;
         rf_firstAttemptAtMs := Some firstAttemptAtMs;
         rf_ambiguousAttempts := Some ambiguousAttempts |}
  end.

Definition isCurrentGeneration (runtime : RefreshRuntime) (generation : Z) (requestId : string)
    : bool :=
  (rf_generation runtime =? generation)
  && match rf_requestId runtime with Some r => String.eqb r requestId | None => false end.

(** One life of the runtime, as the transit processor and the coordinator drive it. *)
Inductive refresh_event :=
  | EvRequested (requestId : string) (nowMs : Z)
  | EvSucceeded (nowMs : Z)
  | EvFailed (failure : RefreshFailure) (nowMs : Z) (hasToken : bool).

Definition refresh_step (r : RefreshRuntime) (e : refresh_event) : RefreshRuntime :=
  match e with
  | EvRequested requestId nowMs => onRefreshRequested r requestId nowMs
  | EvSucceeded nowMs => onRefreshSucceeded r nowMs
  | EvFailed failure nowMs hasToken => onRefreshFailed r failure nowMs hasToken
  end.

(** Times an event can carry: far enough from the top of the safe range for the
    delays added to them. *)
Definition event_time (e : refresh_event) : Z :=
  match e with EvRequested _ t | EvSucceeded t | EvFailed _ t _ => t end.

Definition event_ok (e : refresh_event) : Prop :=
  0 <= event_time e <= MAX_SAFE_INTEGER - 1000000
  /\ match e with EvRequested id _ => boundedId id = true | _ => True end.

(** The number of requests in a life. *)
Fixpoint requests (l : list refresh_event) : Z :=
  match l with
  | [] => 0
  | EvRequested _ _ :: r => 1 + requests r
  | _ :: r => requests r
  end.

(** ** Lemmas *)

Definition runtime_ok (room : Z) (r : RefreshRuntime) : Prop :=
  refreshSchema r = true /\ rf_generation r <= MAX_SAFE_INTEGER - room.

Lemma int_within_spec lo hi z : int_within lo hi z = true <-> lo <= z <= hi.
Proof. unfold int_within. rewrite andb_true_iff, !Z.leb_le. done. Qed.

Lemma safeInteger_spec z : safeInteger z = true <-> 0 <= z <= MAX_SAFE_INTEGER.
Proof. unfold safeInteger. rewrite andb_true_iff, !Z.leb_le. done. Qed.

Lemma opt_ok_some {A} (f : A -> bool) x : opt_ok f (Some x) = f x.
Proof. done. Qed.

Lemma delay_range index : 0 <= nth index REFRESH_RETRY_DELAYS_MS 0 <= 300000.
Proof. do 6 (destruct index as [|index]; [simpl; lia|]). destruct index; simpl; lia. Qed.

Lemma refreshSchema_spec r :
  refreshSchema r = true <->
  (0 <= rf_generation r <= MAX_SAFE_INTEGER)
  /\ opt_ok boundedId (rf_requestId r) = true
  /\ opt_ok safeInteger (rf_nextAttemptAtMs r) = true
  /\ opt_ok safeInteger (rf_firstAttemptAtMs r) = true
  /\ opt_ok (int_within 0 3) (rf_ambiguousAttempts r) = true
  /\ 0 <= rf_attempts r <= 64.
Proof. unfold refreshSchema. rewrite !andb_true_iff, !int_within_spec. tauto. Qed.

Lemma ambiguous_range r : opt_ok (int_within 0 3) (rf_ambiguousAttempts r) = true -> 0 <= ambiguous r <= 3.
Proof.
  unfold ambiguous. destruct (rf_ambiguousAttempts r); simpl; [|lia]. by rewrite int_within_spec.
Qed.

Lemma unreachable_ok r nowMs :
  0 <= nowMs <= MAX_SAFE_INTEGER - 1000000 ->
  refreshSchema r = true -> refreshSchema (onRefreshUnreachable r nowMs) = true.
Proof.
  intros Ht. rewrite !refreshSchema_spec. intros (Hg & Hid & Hn & Hf & Ha & Hat).
  unfold onRefreshUnreachable. cbn [rf_generation rf_requestId rf_nextAttemptAtMs
    rf_firstAttemptAtMs rf_ambiguousAttempts rf_attempts].
  repeat split; try lia; try done.
  - rewrite opt_ok_some, safeInteger_spec. unfold REFRESH_INTERVAL_MS.
    match goal with |- context [nth ?i _ _] => pose proof (delay_range i) end.
    case_match; lia.
  - by case_match.
  - by case_match.
Qed.

Lemma requested_ok r id nowMs :
  0 <= nowMs <= MAX_SAFE_INTEGER - 1000000 -> boundedId id = true ->
  rf_generation r + 1 <= MAX_SAFE_INTEGER ->
  refreshSchema r = true -> refreshSchema (onRefreshRequested r id nowMs) = true.
Proof.
  intros Ht Hid Hroom. rewrite !refreshSchema_spec. intros (Hg & _ & Hn & Hf & Ha & Hat).
  unfold onRefreshRequested, REFRESH_REQUEST_TIMEOUT_MS.
  cbn [rf_generation rf_requestId rf_nextAttemptAtMs rf_firstAttemptAtMs rf_ambiguousAttempts
       rf_attempts].
  repeat split; try lia; try done.
  - rewrite opt_ok_some, safeInteger_spec. lia.
  - case_match; [done|]. rewrite opt_ok_some, safeInteger_spec. lia.
Qed.

Lemma succeeded_ok r nowMs :
  0 <= nowMs <= MAX_SAFE_INTEGER - 1000000 ->
  refreshSchema r = true -> refreshSchema (onRefreshSucceeded r nowMs) = true.
Proof.
  intros Ht. rewrite !refreshSchema_spec. intros (Hg & _ & Hn & Hf & Ha & Hat).
  unfold onRefreshSucceeded, REFRESH_INTERVAL_MS.
  cbn [rf_generation rf_requestId rf_nextAttemptAtMs rf_firstAttemptAtMs rf_ambiguousAttempts
       rf_attempts].
  repeat split; try lia; try done. rewrite opt_ok_some, safeInteger_spec. lia.
Qed.

Lemma forget_ok r : refreshSchema r = true -> refreshSchema (forget_ambiguity r) = true.
Proof. rewrite !refreshSchema_spec. intros (Hg & Hi & Hn & _ & _ & Hat). done. Qed.

Lemma failed_ok r failure nowMs hasToken :
  0 <= nowMs <= MAX_SAFE_INTEGER - 1000000 ->
  refreshSchema r = true -> refreshSchema (onRefreshFailed r failure nowMs hasToken) = true.
Proof.
  intros Ht Hr. unfold onRefreshFailed.
  destruct hasToken; cbn [negb]; [|by apply unreachable_ok, forget_ok].
  destruct failure; [| |by rewrite refreshSchema_spec in *|by apply unreachable_ok];
    rewrite refreshSchema_spec in *; destruct Hr as (Hg & Hi & Hn & Hf & Ha & Hat);
    apply ambiguous_range in Ha;
    cbn [rf_generation rf_requestId rf_nextAttemptAtMs rf_firstAttemptAtMs rf_ambiguousAttempts
         rf_attempts];
    rewrite !opt_ok_some, !safeInteger_spec, int_within_spec;
    (assert (0 <= default nowMs (rf_firstAttemptAtMs r) <= MAX_SAFE_INTEGER)
      by (destruct (rf_firstAttemptAtMs r); simpl in *; [by apply safeInteger_spec|lia]));
    repeat split; try done; lia.
Qed.

Lemma step_generation r e :
  rf_generation (refresh_step r e) = rf_generation r + requests [e].
Proof.
  destruct e as [id t|t|f t tok]; simpl; [lia|lia|].
  unfold onRefreshFailed. destruct tok; cbn [negb]; [destruct f|]; simpl; lia.
Qed.

Lemma requests_cons e l : requests (e :: l) = requests [e] + requests l.
Proof. destruct e; simpl; lia. Qed.

Lemma requests_nonneg l : 0 <= requests l.
Proof. induction l as [|e l IH]; [done|]. rewrite requests_cons. destruct e; simpl; lia. Qed.

(** the refresh runtime stays inside the persisted schema through any life of
    requests, successes and failures of every kind: attempts never pass 64,
    ambiguous attempts never pass 3 and every deadline stays a safe integer, so a
    refresh can never make the stored session unreadable. *)
Theorem refresh_runtime_stays_valid r life :
  refreshSchema r = true ->
  Forall event_ok life ->
  rf_generation r + requests life <= MAX_SAFE_INTEGER ->
  refreshSchema (foldl refresh_step r life) = true.
Proof.
  revert r. induction life as [|e life IH]; intros r Hr Hlife Hroom; [done|].
  apply Forall_cons in Hlife as [[Ht He] Hlife]. rewrite requests_cons in Hroom.
  pose proof (requests_nonneg life). simpl. apply IH; [|done|rewrite step_generation; lia].
  destruct e as [id t|t|f t tok]; simpl in *.
  - apply requested_ok; [done|done|lia|done].
  - by apply succeeded_ok.
  - by apply failed_ok.
Qed.

Lemma refresh_runtime_stays_valid_witness :
  refreshSchema (foldl refresh_step sample_refresh
    [EvRequested "r1" 1000; EvFailed FailAmbiguous 20000 true; EvRequested "r2" 60000;
     EvSucceeded 61000]) = true.
Proof.
  apply refresh_runtime_stays_valid; [reflexivity | |vm_compute; discriminate].
  repeat constructor; vm_compute; discriminate.
Defined.

(** One round trip whose reply is lost. *)
Definition ambiguous_round (r : RefreshRuntime) (id : string) (sent lost : Z) : RefreshRuntime :=
  onRefreshFailed (onRefreshRequested r id sent) FailAmbiguous lost true.

Lemma ambiguous_round_spec r id sent lost :
  0 <= ambiguous r ->
  ambiguous (ambiguous_round r id sent lost) = Z.min 3 (ambiguous r + 1)
  /\ rf_firstAttemptAtMs (ambiguous_round r id sent lost) =
       (if 0 <? ambiguous r then Some (default lost (rf_firstAttemptAtMs r)) else Some sent)
  /\ (3 <= ambiguous r + 1 -> rf_status (ambiguous_round r id sent lost) = RfBroken).
Proof.
  intros Ha. unfold ambiguous_round, onRefreshFailed. cbn [negb].
  assert (ambiguous (onRefreshRequested r id sent) = ambiguous r) as E by done.
  repeat split.
  - cbn [rf_firstAttemptAtMs]. unfold onRefreshRequested. cbn [rf_firstAttemptAtMs].
    by case_match.
  - intros H3. cbn [rf_status]. rewrite E.
    assert ((3 <=? Z.min 3 (ambiguous r + 1)) = true) as -> by (apply Z.leb_le; lia).
    by rewrite orb_true_r.
Qed.

(** a token whose reply was lost is replayed at most three times: whatever
    the times, three lost round trips in a row leave the refresh broken, and a
    broken refresh of a running session with a token is refused at every later
    moment, online or not. *)
Theorem ambiguous_refresh_breaks_after_three r id1 id2 id3 s1 l1 s2 l2 s3 l3 :
  ambiguous r = 0 ->
  let r3 := ambiguous_round (ambiguous_round (ambiguous_round r id1 s1 l1) id2 s2 l2) id3 s3 l3 in
  rf_status r3 = RfBroken
  /\ rf_firstAttemptAtMs r3 = Some s1
  /\ forall connectivity nowMs, shouldRefresh r3 true connectivity Active nowMs = Some NoBroken.
Proof.
  intros Ha. cbv zeta.
  destruct (ambiguous_round_spec r id1 s1 l1) as (A1 & F1 & _); [lia|].
  set (r1 := ambiguous_round r id1 s1 l1) in *. clearbody r1.
  rewrite Ha in A1, F1. simpl in A1, F1.
  destruct (ambiguous_round_spec r1 id2 s2 l2) as (A2 & F2 & _); [lia|].
  set (r2 := ambiguous_round r1 id2 s2 l2) in *. clearbody r2.
  rewrite A1 in A2, F2. rewrite F1 in F2. simpl in A2, F2.
  destruct (ambiguous_round_spec r2 id3 s3 l3) as (A3 & F3 & B3); [lia|].
  set (r3 := ambiguous_round r2 id3 s3 l3) in *. clearbody r3.
  rewrite A2 in A3, F3, B3. rewrite F2 in F3. simpl in A3, F3.
  assert (rf_status r3 = RfBroken) as Hb by (apply B3; lia).
  repeat split; [done|done|]. intros connectivity nowMs.
  unfold shouldRefresh. rewrite Hb, F3.
  destruct ((0 <? ambiguous r3) && (120000 <=? nowMs - s1)); reflexivity.
Qed.

Lemma ambiguous_refresh_breaks_after_three_witness :
  rf_status (ambiguous_round (ambiguous_round (ambiguous_round sample_refresh "a" 0 20) "b" 40 60)
               "c" 80 100) = RfBroken.
Proof. apply (ambiguous_refresh_breaks_after_three sample_refresh); reflexivity. Defined.
