(* ===== verification/Location.v ===== *)
(** * Location input and the location driver

    apps/mobile/src/location: what the operating system delivers becomes fixes the
    engine may act on (rawLocation.ts, sanitiseFixes.ts), the cadence each mode asks
    for (profiles.ts), and the driver that keeps one location stream
    (ExpoLocationDriver.ts). *)

From S2P Require Import Prelude Protocol Session.
From Stdlib Require Import QArith_base Lqa.

#[local] Open Scope Z_scope.

(** ** Raw locations *)

(** The coordinates of a raw location.  A number the platform left out, or gave
    as anything else, is [NaN] or [None]. *)
Record RawCoords := {
  raw_latitude : number;
  raw_longitude : number;
  raw_accuracy : option number;
  raw_speed : option number;
  raw_heading : option number;
}.

(** A raw location; [None] stands for a value that is not an object. *)
Record RawLocation := {
  raw_timestamp : number;
  raw_coords : option RawCoords;
}.

Record CanonicalLocationFix := {
  cf_coords : LngLat;
  cf_accuracy : number;
  cf_timestampMs : Z;
  cf_speedMps : option number;
  cf_headingDegrees : option number;
}.

Definition MAX_FIX_AGE_MS : Z := 5 * 60000.
Definition MAX_FIX_SKEW_MS : Z := 2 * 60000.

(** [Math.trunc(x)] where [Number.isSafeInteger] holds of it. *)
Definition safe_trunc (x : number) : option Z :=
  match x with
  | Fin q => let z := q_trunc q in
             if (- MAX_SAFE_INTEGER <=? z) && (z <=? MAX_SAFE_INTEGER) then Some z else None
  | _ => None
  end.

(** An optional reading is kept when it is finite and in range. *)
Definition keep_reading (check : number -> bool) (o : option number) : option number :=
  match o with
  | Some x => if num_is_finite x && check x then Some x else None
  | None => None
  end.

Definition not_negative (x : number) : bool := num_le (num_of_Z 0) x.
Definition is_bearing (x : number) : bool := num_le (num_of_Z 0) x && num_le x (num_of_Z 360).

(** [!Number.isFinite(x) || x < lo || x > hi] *)
Definition out_of_range (lo hi : Z) (x : number) : bool :=
  negb (num_is_finite x) || num_lt x (num_of_Z lo) || num_lt (num_of_Z hi) x.

Definition toCanonicalFix (raw : option RawLocation) (nowMs : Z) : option CanonicalLocationFix :=
  match raw with
  | None => None
  | Some raw =>
    let timestamp := raw_timestamp raw in
    if negb (num_is_finite timestamp) || num_le timestamp (num_of_Z 0) then None
    else match safe_trunc timestamp with
    | None => None
    | Some timestampMs =>
      if timestampMs <=? 0 then None
      else if num_lt timestamp (num_of_Z (nowMs - MAX_FIX_AGE_MS)) then None
      else if num_lt (num_of_Z (nowMs + MAX_FIX_SKEW_MS)) timestamp then None
      else match raw_coords raw with
      | None => None
      | Some c =>
        if out_of_range (-90) 90 (raw_latitude c) then None
        else if out_of_range (-180) 180 (raw_longitude c) then None
        else match raw_accuracy c with
        | None => None
        | Some accuracy =>
          if negb (num_is_finite accuracy) || num_lt accuracy (num_of_Z 0) then None
          else Some {| cf_coords := (raw_longitude c, raw_latitude c);
                       cf_accuracy := accuracy;
                       cf_timestampMs := timestampMs;
                       cf_speedMps := keep_reading not_negative (raw_speed c);
                       cf_headingDegrees := keep_reading is_bearing (raw_heading c) |}
        end
      end
    end
  end.

Record SanitisedRawLocationBatch := {
  sr_accepted : list CanonicalLocationFix;
  sr_rejectedCount : Z;
}.

(** [fix.timestampMs <= watermark], the watermark starting at minus infinity. *)
Definition not_after (t : Z) (watermark : option Z) : bool :=
  match watermark with Some w => t <=? w | None => false end.

Fixpoint clip (watermark : option Z) (l : list CanonicalLocationFix) : list CanonicalLocationFix :=
  match l with
  | [] => []
  | f :: r =>
      if not_after (cf_timestampMs f) watermark then clip watermark r
      else f :: clip (Some (cf_timestampMs f)) r
  end.

Definition candidates (locations : list (option RawLocation)) (nowMs : Z)
    : list CanonicalLocationFix :=
  omap (fun raw => toCanonicalFix raw nowMs) locations.

Definition sanitiseRawLocations (locations : list (option RawLocation)) (nowMs : Z)
    (lastAcceptedTimestampMs : option Z) : SanitisedRawLocationBatch :=
  let found := candidates locations nowMs in
  {| sr_accepted := clip lastAcceptedTimestampMs (sort_by cf_timestampMs found);
     sr_rejectedCount := Z.of_nat (length locations) - Z.of_nat (length found) |}.

Definition toFix (f : CanonicalLocationFix) : FixInput :=
  {| fix_coords := cf_coords f;
     fix_accuracy := cf_accuracy f;
     fix_heading := cf_headingDegrees f;
     fix_speed := cf_speedMps f;
     fix_timestampMs := cf_timestampMs f;
     fix_coasted := false |}.

(** [{ accepted, rejectedCount }] *)
Definition sanitiseFixes (locations : list (option RawLocation)) (nowMs : Z)
    (lastAcceptedTimestampMs : option Z) : list FixInput * Z :=
  let batch := sanitiseRawLocations locations nowMs lastAcceptedTimestampMs in
  (map toFix (sr_accepted batch), sr_rejectedCount batch).

(** ** Profiles *)

Inductive LocationProfileKind :=
  | ProfileDriving | ProfileMotorcycle | ProfileCycling | ProfileWalking
  | TransitCruise | TransitNearEvent.

#[export] Instance LocationProfileKind_eq_dec : EqDecision LocationProfileKind.
Proof. solve_decision. Defined.

Inductive ProfileAccuracy := AccuracyHigh | AccuracyNavigation.
Inductive ActivityType := AutomotiveNavigation | Fitness | OtherNavigation.

#[export] Instance ProfileAccuracy_eq_dec : EqDecision ProfileAccuracy.
Proof. solve_decision. Defined.
#[export] Instance ActivityType_eq_dec : EqDecision ActivityType.
Proof. solve_decision. Defined.

Record LocationProfile := {
  prof_accuracy : ProfileAccuracy;
  prof_timeIntervalMs : Z;
  prof_distanceIntervalMeters : Z;
  prof_activityType : ActivityType;
  prof_pausesUpdatesAutomatically : bool;
}.

#[export] Instance LocationProfile_eq_dec : EqDecision LocationProfile.
Proof. solve_decision. Defined.

Definition profileFor (k : LocationProfileKind) : LocationProfile :=
  match k with
  | ProfileDriving => {| prof_accuracy := AccuracyNavigation; prof_timeIntervalMs := 1000;
      prof_distanceIntervalMeters := 3; prof_activityType := AutomotiveNavigation;
      prof_pausesUpdatesAutomatically := false |}
  | ProfileMotorcycle => {| prof_accuracy := AccuracyNavigation; prof_timeIntervalMs := 1000;
      prof_distanceIntervalMeters := 3; prof_activityType := AutomotiveNavigation;
      prof_pausesUpdatesAutomatically := false |}
  | ProfileCycling => {| prof_accuracy := AccuracyNavigation; prof_timeIntervalMs := 1500;
      prof_distanceIntervalMeters := 5; prof_activityType := Fitness;
      prof_pausesUpdatesAutomatically := false |}
  | ProfileWalking => {| prof_accuracy := AccuracyHigh; prof_timeIntervalMs := 2500;
      prof_distanceIntervalMeters := 5; prof_activityType := OtherNavigation;
      prof_pausesUpdatesAutomatically := false |}
  | TransitCruise => {| prof_accuracy := AccuracyHigh; prof_timeIntervalMs := 10000;
      prof_distanceIntervalMeters := 25; prof_activityType := OtherNavigation;
      prof_pausesUpdatesAutomatically := false |}
  | TransitNearEvent => {| prof_accuracy := AccuracyHigh; prof_timeIntervalMs := 3000;
      prof_distanceIntervalMeters := 10; prof_activityType := OtherNavigation;
      prof_pausesUpdatesAutomatically := false |}
  end.

Definition initialProfileFor (session : option MobileNavigationSession) : LocationProfileKind :=
  match session with
  | None => ProfileDriving
  | Some s =>
      match payload s with
      | TransitSession _ => TransitCruise
      | GroundSession p =>
          match gp_mode (g_startPackage p) with
          | Walking => ProfileWalking
          | Cycling => ProfileCycling
          | Motorcycle => ProfileMotorcycle
          | Driving => ProfileDriving
          end
      end
  end.

(** ** The driver *)

Inductive LocationPermissionState :=
  | PermNotDetermined | PermForeground | PermBackground | PermDenied | PermLimited.

#[export] Instance LocationPermissionState_eq_dec : EqDecision LocationPermissionState.
Proof. solve_decision. Defined.

(** [combinePermissionState(foreground, background)] *)
Definition combinePermissionState (granted : bool) (undetermined : bool) (background : option bool)
    : LocationPermissionState :=
  if negb granted then if undetermined then PermNotDetermined else PermDenied
  else match background with Some true => PermBackground | _ => PermForeground end.

(** What the driver asks of the platform. *)
Inductive platform_call := StartUpdates (p : LocationProfile) | StopUpdates.

(** The platform runs the streams that were started and not stopped; the driver
    remembers the profile it last started. *)
Record driver_state := {
  streams : list LocationProfile;
  activeProfile : option LocationProfile;
  calls : list platform_call;
}.

Definition hasStartedLocationUpdates (d : driver_state) : bool :=
  match streams d with [] => false | _ => true end.

(** Starting registers a stream; stopping ends every stream of the task. *)
Definition startLocationUpdates (p : LocationProfile) (d : driver_state) : driver_state :=
  {| streams := streams d ++ [p]; activeProfile := activeProfile d;
     calls := calls d ++ [StartUpdates p] |}.
Definition stopLocationUpdates (d : driver_state) : driver_state :=
  {| streams := []; activeProfile := activeProfile d; calls := calls d ++ [StopUpdates] |}.
Definition set_activeProfile (p : option LocationProfile) (d : driver_state) : driver_state :=
  {| streams := streams d; activeProfile := p; calls := calls d |}.

Definition sameProfile (p : LocationProfile) (d : driver_state) : bool :=
  match activeProfile d with
  | None => false
  | Some a => bool_decide (prof_accuracy a = prof_accuracy p)
              && (prof_timeIntervalMs a =? prof_timeIntervalMs p)
              && (prof_distanceIntervalMeters a =? prof_distanceIntervalMeters p)
              && bool_decide (prof_activityType a = prof_activityType p)
  end.

(** [start(profile)], serialised with every other start and stop. *)
Definition expo_start (p : LocationProfile) (d : driver_state) : driver_state :=
  if hasStartedLocationUpdates d && sameProfile p d then d
  else let d := if hasStartedLocationUpdates d then stopLocationUpdates d else d in
       set_activeProfile (Some p) (startLocationUpdates p d).

Definition expo_stop (d : driver_state) : driver_state :=
  set_activeProfile None (if hasStartedLocationUpdates d then stopLocationUpdates d else d).

(** ** Lemmas *)

Lemma clip_spec w l :
  (forall f, f ∈ clip w l -> f ∈ l /\ not_after (cf_timestampMs f) w = false)
  /\ StronglySorted (fun a b => cf_timestampMs a < cf_timestampMs b) (clip w l).
Proof.
  revert w. induction l as [|f l IH]; intros w; simpl.
  { split; [by intros f ?%elem_of_nil|constructor]. }
  destruct (not_after (cf_timestampMs f) w) eqn:E.
  - destruct (IH w) as [H1 H2]. split; [|done]. intros g Hg.
    destruct (H1 g Hg). split; [by right|done].
  - destruct (IH (Some (cf_timestampMs f))) as [H1 H2]. split.
    + intros g [->|Hg]%elem_of_cons; [split; [by left|done]|].
      destruct (H1 g Hg) as [Hin Ha]. split; [by right|]. simpl in Ha. apply Z.leb_gt in Ha.
      destruct w as [w|]; simpl in *; [|done]. apply Z.leb_gt in E. apply Z.leb_gt. lia.
    + constructor; [done|]. apply Forall_forall. intros g Hg.
      destruct (H1 g Hg) as [_ Ha]. simpl in Ha. apply Z.leb_gt in Ha. done.
Qed.

(** No fix newer than the watermark is lost: its time is in the result. *)
Lemma clip_complete w l f :
  sorted_by cf_timestampMs l -> f ∈ l -> not_after (cf_timestampMs f) w = false ->
  exists g, g ∈ clip w l /\ cf_timestampMs g = cf_timestampMs f.
Proof.
  intros Hs. revert w. induction Hs as [|x l Hs IH Hx]; intros w Hf Ha;
    [by apply elem_of_nil in Hf|]. simpl.
  destruct (not_after (cf_timestampMs x) w) eqn:E.
  - apply elem_of_cons in Hf as [->|Hf]; [congruence|]. by apply IH.
  - apply elem_of_cons in Hf as [->|Hf]; [exists x; split; [by left|done]|].
    rewrite Forall_forall in Hx. specialize (Hx f Hf).
    destruct (decide (cf_timestampMs f = cf_timestampMs x)) as [Ef|Ef].
    + exists x. split; [by left|done].
    + destruct (IH (Some (cf_timestampMs x)) Hf) as (g & Hg & Eg).
      { simpl. apply Z.leb_gt. lia. }
      exists g. split; [by right|done].
Qed.

Lemma keep_reading_finite check o : opt_ok num_is_finite (keep_reading check o) = true.
Proof.
  unfold keep_reading. destruct o as [x|]; [|done].
  destruct (num_is_finite x) eqn:E; [|done]. simpl. by case_match.
Qed.

Lemma num_lt_fin q z : num_lt (Fin q) (num_of_Z z) = false <-> z * Zpos (Qden q) <= Qnum q.
Proof.
  unfold num_lt, num_of_Z. simpl. unfold Qle_bool, inject_Z. simpl. rewrite Z.mul_1_r.
  rewrite negb_false_iff, Z.leb_le. done.
Qed.

Lemma num_gt_fin q z : num_lt (num_of_Z z) (Fin q) = false <-> Qnum q <= z * Zpos (Qden q).
Proof.
  unfold num_lt, num_of_Z. simpl. unfold Qle_bool, inject_Z. simpl. rewrite Z.mul_1_r.
  rewrite negb_false_iff, Z.leb_le. done.
Qed.

Lemma num_le_fin q z : num_le (Fin q) (num_of_Z z) = true <-> Qnum q <= z * Zpos (Qden q).
Proof.
  unfold num_of_Z. simpl. unfold Qle_bool, inject_Z. simpl. rewrite Z.mul_1_r, Z.leb_le. done.
Qed.

Lemma q_trunc_bounds q lo hi :
  0 <= Qnum q -> lo * Zpos (Qden q) <= Qnum q <= hi * Zpos (Qden q) ->
  lo <= q_trunc q <= hi.
Proof.
  intros Hq [Hlo Hhi]. unfold q_trunc. rewrite Z.quot_div_nonneg by lia. split.
  - by apply Z.div_le_lower_bound; [lia|rewrite Z.mul_comm].
  - apply Z.div_le_upper_bound; lia.
Qed.

Lemma in_range_within lo hi x :
  out_of_range lo hi x = false -> finite_within lo hi x = true.
Proof.
  unfold out_of_range, finite_within. rewrite !orb_false_iff, negb_false_iff.
  intros [[Hf Hlo] Hhi]. destruct x as [| | |q]; try done.
  apply num_lt_fin in Hlo. apply num_gt_fin in Hhi.
  unfold finite_min, num_of_Z. simpl. unfold Qle_bool, inject_Z. simpl.
  rewrite !Z.mul_1_r. by rewrite !andb_true_iff, !Z.leb_le.
Qed.

Lemma accuracy_ok x :
  negb (num_is_finite x) || num_lt x (num_of_Z 0) = false -> nonnegative x = true.
Proof.
  rewrite orb_false_iff, negb_false_iff. intros [Hf Hlo]. destruct x as [| | |q]; try done.
  apply num_lt_fin in Hlo. unfold nonnegative, finite_min. simpl.
  unfold Qle_bool, inject_Z. simpl. rewrite Z.mul_1_r. by apply Z.leb_le.
Qed.

(** What acceptance guarantees of a fix. *)
Lemma canonical_fix_ok raw nowMs f :
  toCanonicalFix raw nowMs = Some f ->
  fixSchema (toFix f) = true
  /\ nowMs - MAX_FIX_AGE_MS <= cf_timestampMs f <= nowMs + MAX_FIX_SKEW_MS
  /\ 0 < cf_timestampMs f.
Proof.
  unfold toCanonicalFix. destruct raw as [raw|]; [|done].
  destruct (negb _ || _) eqn:E1; [done|]. apply orb_false_iff in E1 as [E1 E1'].
  apply negb_false_iff in E1. destruct (raw_timestamp raw) as [| | |q]; try done.
  cbn [safe_trunc]. cbv zeta.
  destruct (_ && _) eqn:Esafe; [|done].
  apply andb_true_iff in Esafe as [_ Esafe]. apply Z.leb_le in Esafe.
  destruct (q_trunc q <=? 0) eqn:Epos; [done|]. apply Z.leb_gt in Epos.
  destruct (num_lt (Fin q) _) eqn:Eage; [done|]. apply num_lt_fin in Eage.
  destruct (num_lt _ (Fin q)) eqn:Eskew; [done|]. apply num_gt_fin in Eskew.
  destruct (raw_coords raw) as [c|]; [|done].
  destruct (out_of_range (-90) 90 _) eqn:Elat; [done|].
  destruct (out_of_range (-180) 180 _) eqn:Elng; [done|].
  destruct (raw_accuracy c) as [acc|]; [|done].
  destruct (negb _ || _) eqn:Eacc; [done|].
  intros Hf. injection Hf as <-.
  assert (0 <= Qnum q) as Hq.
  { apply not_true_iff_false in E1'. rewrite num_le_fin in E1'. lia. }
  pose proof (q_trunc_bounds q _ _ Hq (conj Eage Eskew)) as Hb.
  split; [|split; [exact Hb|exact Epos]].
  unfold fixSchema, toFix, lngLat_ok.
  cbn [cf_coords cf_accuracy cf_timestampMs cf_speedMps cf_headingDegrees fix_coords fix_accuracy
       fix_heading fix_speed fix_timestampMs fst snd].
  rewrite (in_range_within _ _ _ Elat), (in_range_within _ _ _ Elng), (accuracy_ok _ Eacc),
    !keep_reading_finite.
  unfold safeInteger. cbn [andb]. apply andb_true_iff. split; apply Z.leb_le; lia.
Qed.

Lemma candidates_elem f locations nowMs :
  f ∈ candidates locations nowMs -> exists raw, raw ∈ locations /\ toCanonicalFix raw nowMs = Some f.
Proof.
  intros Hf. apply list_elem_of_omap in Hf as (raw & Hraw & E). eauto.
Qed.

(** Fixes of one batch, newest watermark last. *)
Definition watermark_after (w : option Z) (l : list FixInput) : option Z :=
  match last l with Some f => Some (fix_timestampMs f) | None => w end.

Lemma clip_watermark w l :
  forall f, f ∈ l -> not_after (cf_timestampMs f) (watermark_after w (map toFix (clip w l))) = false ->
  sorted_by cf_timestampMs l -> False.
Proof.
  intros f Hf Hn Hs.
  assert (not_after (cf_timestampMs f) w = false) as Hw.
  { unfold watermark_after in Hn. rewrite fmap_last in Hn.
    destruct (last (clip w l)) as [g|] eqn:El; simpl in Hn; [|done].
    destruct (clip_spec w l) as [Hc _]. apply last_Some_elem_of in El.
    destruct (Hc g El) as [_ Hg]. destruct w as [w|]; [|done]. simpl in *.
    apply Z.leb_gt in Hg, Hn. apply Z.leb_gt. lia. }
  destruct (clip_complete w l f Hs Hf Hw) as (g & Hg & Eg).
  destruct (clip_spec w l) as [_ Hsort].
  unfold watermark_after in Hn. rewrite fmap_last in Hn.
  destruct (last (clip w l)) as [h|] eqn:El; cycle 1.
  { apply last_None in El. rewrite El in Hg. by apply elem_of_nil in Hg. }
  simpl in Hn. apply Z.leb_gt in Hn.
  assert (cf_timestampMs g <= cf_timestampMs h); [|lia].
  clear -Hsort Hg El. induction Hsort as [|x r Hr IH Hx]; [done|].
  destruct r as [|y r]; simpl in El.
  - simplify_eq. apply list_elem_of_singleton in Hg. subst. done.
  - apply elem_of_cons in Hg as [->|Hg]; [|by apply IH].
    rewrite Forall_forall in Hx. assert (cf_timestampMs x < cf_timestampMs h); [|lia].
    apply Hx. by apply last_Some_elem_of.
Qed.

(** whatever the operating system delivers (out of order, repeated, stale,
    from a changed clock or malformed), the batch the engine sees is strictly
    increasing in time and entirely after the last accepted fix, every fix is
    valid for storage and at most five minutes old and two ahead of the clock; no
    valid newer instant is lost; and delivering the same batch again yields
    nothing. *)
Theorem location_batch_monotone locations nowMs last :
  let accepted := (sanitiseFixes locations nowMs last).1 in
  StronglySorted (fun a b => fix_timestampMs a < fix_timestampMs b) accepted
  /\ Forall (fun f => fixSchema f = true
                      /\ nowMs - MAX_FIX_AGE_MS <= fix_timestampMs f <= nowMs + MAX_FIX_SKEW_MS
                      /\ not_after (fix_timestampMs f) last = false) accepted
  /\ (forall raw f, raw ∈ locations -> toCanonicalFix raw nowMs = Some f ->
        not_after (cf_timestampMs f) last = false ->
        exists g, g ∈ accepted /\ fix_timestampMs g = cf_timestampMs f)
  /\ (sanitiseFixes locations nowMs (watermark_after last accepted)).1 = [].
Proof.
  cbv zeta. unfold sanitiseFixes. cbn [fst sr_accepted sanitiseRawLocations].
  set (l := sort_by cf_timestampMs (candidates locations nowMs)).
  assert (forall f, f ∈ l <-> f ∈ candidates locations nowMs) as Hperm
    by (intros f; unfold l; by rewrite sort_by_perm).
  assert (sorted_by cf_timestampMs l) as Hsorted by apply sort_by_sorted.
  destruct (clip_spec last l) as [Hc Hs]. repeat split.
  - clear -Hs. induction Hs as [|f r Hr IH Hf]; simpl; constructor; [done|].
    by apply Forall_map.
  - apply Forall_map, Forall_forall. intros f Hf. destruct (Hc f Hf) as [Hin Ha].
    apply Hperm, candidates_elem in Hin as (raw & _ & Hraw).
    destruct (canonical_fix_ok _ _ _ Hraw) as (H1 & H2 & _). done.
  - intros raw f Hraw Hf Ha.
    destruct (clip_complete last l f Hsorted) as (g & Hg & E); [|done|].
    + apply Hperm. apply list_elem_of_omap. eauto.
    + exists (toFix g). split; [by apply list_elem_of_fmap_2|done].
  - destruct (clip (watermark_after last (map toFix (clip last l))) l) as [|g r] eqn:E; [done|].
    exfalso. destruct (clip_spec (watermark_after last (map toFix (clip last l))) l) as [Hc' _].
    rewrite E in Hc'. destruct (Hc' g) as [Hin Ha]; [by left|].
    by apply (clip_watermark last l g Hin Ha).
Qed.

(** ** One stream *)

(** Everything that happens to the driver: the two operations, a process that
    restarts (the platform keeps its stream, the memory is gone), and a platform
    that ends the stream on its own. *)
Inductive driver_event :=
  | DriverStart (k : LocationProfileKind)
  | DriverStop
  | ProcessRestart
  | StreamKilled.

Definition driver_step (d : driver_state) (e : driver_event) : driver_state :=
  match e with
  | DriverStart k => expo_start (profileFor k) d
  | DriverStop => expo_stop d
  | ProcessRestart => set_activeProfile None d
  | StreamKilled => {| streams := []; activeProfile := activeProfile d; calls := calls d |}
  end.

Definition driver_wf (d : driver_state) : Prop :=
  (length (streams d) <= 1)%nat
  /\ forall p, activeProfile d = Some p ->
       prof_pausesUpdatesAutomatically p = false /\ Forall (eq p) (streams d).

Lemma profile_never_pauses k : prof_pausesUpdatesAutomatically (profileFor k) = false.
Proof. by destruct k. Qed.

Lemma sameProfile_eq p d :
  driver_wf d -> prof_pausesUpdatesAutomatically p = false -> sameProfile p d = true ->
  activeProfile d = Some p.
Proof.
  intros [_ Hd] Hp. unfold sameProfile. destruct (activeProfile d) as [a|] eqn:E; [|done].
  destruct (Hd a eq_refl) as [Ha _].
  rewrite !andb_true_iff, !bool_decide_eq_true, !Z.eqb_eq. intros [[[H1 H2] H3] H4].
  destruct a, p; simpl in *. congruence.
Qed.

Lemma expo_start_runs k d :
  driver_wf d ->
  driver_wf (expo_start (profileFor k) d)
  /\ streams (expo_start (profileFor k) d) = [profileFor k].
Proof.
  intros Hd. pose proof (profile_never_pauses k) as Hp. set (p := profileFor k) in *.
  unfold expo_start. destruct (hasStartedLocationUpdates d) eqn:Er; cbn [andb].
  - destruct (sameProfile p d) eqn:Es.
    + split; [done|]. apply (sameProfile_eq p d Hd Hp) in Es. destruct Hd as [Hlen Hd].
      destruct (Hd p Es) as [_ Hall]. unfold hasStartedLocationUpdates in Er.
      destruct (streams d) as [|q [|q' r]]; simpl in *; try done; [|lia].
      apply Forall_cons in Hall as [<- _]. done.
    + simpl. split; [|done]. split; [simpl; lia|].
      intros a Ha. simpl in Ha. injection Ha as <-. split; [done|]. by repeat constructor.
  - unfold hasStartedLocationUpdates in Er. destruct (streams d) as [|q r] eqn:E; [|done].
    simpl. rewrite E. split; [|done]. split; [simpl; rewrite E; simpl; lia|].
    intros a Ha. simpl in Ha. injection Ha as <-. simpl. rewrite E. split; [done|].
    by repeat constructor.
Qed.

Lemma expo_stop_stops d : streams (expo_stop d) = [].
Proof.
  unfold expo_stop, hasStartedLocationUpdates. by destruct (streams d) eqn:E; simpl; rewrite ?E.
Qed.

Lemma driver_step_wf d e : driver_wf d -> driver_wf (driver_step d e).
Proof.
  intros Hd. destruct e as [k| | |].
  - by apply expo_start_runs.
  - split; [cbn [driver_step]; rewrite expo_stop_stops; simpl; lia|].
    intros p. cbn [driver_step]. unfold expo_stop. by destruct (hasStartedLocationUpdates d).
  - destruct Hd as [Hlen _]. by split.
  - destruct Hd as [_ Hd]. split; [simpl; lia|]. intros p Hp.
    destruct (Hd p Hp) as [? _]. split; [done|constructor].
Qed.

(** the driver never registers two location streams: through any sequence of
    starts, stops, process restarts and platform kills there is at most one, a
    start always ends with exactly the requested cadence running and a stop with
    none. *)
Theorem driver_single_stream events d :
  driver_wf d ->
  let d' := foldl driver_step d events in
  (length (streams d') <= 1)%nat
  /\ (forall k, streams (driver_step d' (DriverStart k)) = [profileFor k])
  /\ streams (driver_step d' DriverStop) = [].
Proof.
  revert d. induction events as [|e events IH]; intros d Hd; simpl.
  - destruct Hd as [Hlen Hd]. split; [done|]. split; [|apply expo_stop_stops].
    intros k. by apply expo_start_runs.
  - apply IH. by apply driver_step_wf.
Qed.

Lemma driver_single_stream_witness :
  streams (driver_step
             (foldl driver_step {| streams := []; activeProfile := None; calls := [] |}
                [DriverStart ProfileDriving; ProcessRestart; DriverStart ProfileWalking])
             (DriverStart TransitCruise)) = [profileFor TransitCruise].
Proof.
  refine (proj1 (proj2 (driver_single_stream
    [DriverStart ProfileDriving; ProcessRestart; DriverStart ProfileWalking]
    {| streams := []; activeProfile := None; calls := [] |} _)) TransitCruise).
  split; [simpl; lia|done].
Defined.
