(* ===== verification/Permission.v ===== *)
(** * From "Start" to "may track"

    apps/mobile/src/permissions: the reducer of the permission flow
    (permissionMachine.ts) and the controller that runs its effects
    (permissionController.ts), over an arbitrary user and operating system. *)

From S2P Require Import Prelude Location.

(** ** The machine *)

Inductive PermissionPlatform := Ios | Android (sdkInt : Z).

Definition ANDROID_BACKGROUND_VIA_SETTINGS_SDK : Z := 30.
Definition ANDROID_VISIBLE_START_SDK : Z := 34.

Inductive SettingsReason := CannotEscalate | BackgroundInSettings | PreciseRequired.

Inductive GrantMode := GrantBackground | GrantForegroundOnly.

Inductive PermissionFlowState :=
  | FlowIdle
  | FlowExplaining
  | FlowRequestingForeground
  | FlowRequestingBackground
  | FlowSettingsRequired (reason : SettingsReason)
  | FlowForegroundOnlyChoice
  | FlowGranted (mode : GrantMode)
  | FlowDenied (canAskAgain : bool).

Inductive GrantAccuracy := AccPreciseGrant | AccApproximate.

#[export] Instance GrantAccuracy_eq_dec : EqDecision GrantAccuracy.
Proof. solve_decision. Defined.

Record PermissionSnapshot := {
  snap_permission : LocationPermissionState;
  snap_accuracy : option GrantAccuracy;
  snap_canAskAgain : option bool;
}.

Inductive PermissionEvent :=
  | StartRequested (current : PermissionSnapshot)
  | DisclosureAccepted
  | DisclosureForegroundOnly
  | DisclosureDismissed
  | ForegroundResult (result : PermissionSnapshot)
  | BackgroundResult (result : PermissionSnapshot)
  | ReturnedFromSettings (result : PermissionSnapshot)
  | AppNotVisible
  | Revoked.

Inductive RejectReason := RejDenied | RejDismissed | RejNotVisible.

Inductive PermissionEffect :=
  | ShowDisclosure
  | RequestForeground
  | RequestBackground
  | OpenSettings
  | OfferForegroundOnly
  | Resolved (mode : GrantMode)
  | Rejected (reason : RejectReason).

Definition transition : Type := PermissionFlowState * list PermissionEffect.

Definition approximate (s : PermissionSnapshot) : bool :=
  bool_decide (snap_accuracy s = Some AccApproximate).

Definition permission_is (p : LocationPermissionState) (s : PermissionSnapshot) : bool :=
  bool_decide (snap_permission s = p).

(** [["foreground", "limited"].includes(permission)] *)
Definition foreground_or_limited (s : PermissionSnapshot) : bool :=
  permission_is PermForeground s || permission_is PermLimited s.

Definition backgroundNeedsSettings (platform : PermissionPlatform) : bool :=
  match platform with
  | Android sdkInt => ANDROID_BACKGROUND_VIA_SETTINGS_SDK <=? sdkInt
  | Ios => false
  end.

Definition settingsRequired (reason : SettingsReason) : transition :=
  (FlowSettingsRequired reason, [OpenSettings]).

Definition granted (mode : GrantMode) : transition := (FlowGranted mode, [Resolved mode]).

Definition refused (canAskAgain : bool) : transition :=
  (FlowDenied canAskAgain, [Rejected RejDenied]).

Definition afterForeground (platform : PermissionPlatform) (result : PermissionSnapshot) : transition :=
  if approximate result then settingsRequired PreciseRequired
  else if permission_is PermLimited result then settingsRequired CannotEscalate
  else if permission_is PermBackground result then granted GrantBackground
  else if negb (permission_is PermForeground result)
  then refused (default false (snap_canAskAgain result))
  else if backgroundNeedsSettings platform then settingsRequired BackgroundInSettings
  else (FlowRequestingBackground, [RequestBackground]).

(** The [idle], [granted] and [denied] states on a start request. *)
Definition on_start (current : PermissionSnapshot) : transition :=
  if approximate current then settingsRequired PreciseRequired
  else if permission_is PermBackground current then granted GrantBackground
  else if permission_is PermDenied current
          && bool_decide (snap_canAskAgain current = Some false)
  then settingsRequired CannotEscalate
  else (FlowExplaining, [ShowDisclosure]).

Definition permissionReducer (state : PermissionFlowState) (event : PermissionEvent)
    (platform : PermissionPlatform) : transition :=
  match event with
  | Revoked => refused false
  | _ =>
    match state with
    | FlowIdle | FlowGranted _ | FlowDenied _ =>
        match event with
        | StartRequested current => on_start current
        | _ => (state, [])
        end
    | FlowExplaining =>
        match event with
        | DisclosureAccepted => (FlowRequestingForeground, [RequestForeground])
        | DisclosureForegroundOnly => (FlowForegroundOnlyChoice, [RequestForeground])
        | DisclosureDismissed => (FlowIdle, [Rejected RejDismissed])
        | AppNotVisible => (FlowIdle, [Rejected RejNotVisible])
        | _ => (state, [])
        end
    | FlowRequestingForeground =>
        match event with
        | ForegroundResult result => afterForeground platform result
        | _ => (state, [])
        end
    | FlowForegroundOnlyChoice =>
        match event with
        | ForegroundResult result =>
            if negb (approximate result)
               && (permission_is PermForeground result || permission_is PermBackground result
                   || permission_is PermLimited result)
            then granted GrantForegroundOnly
            else refused (default false (snap_canAskAgain result))
        | _ => (state, [])
        end
    | FlowRequestingBackground =>
        match event with
        | BackgroundResult result =>
            if permission_is PermBackground result then granted GrantBackground
            else if foreground_or_limited result
            then (FlowForegroundOnlyChoice, [OfferForegroundOnly])
            else refused (default false (snap_canAskAgain result))
        | _ => (state, [])
        end
    | FlowSettingsRequired _ =>
        match event with
        | ReturnedFromSettings result =>
            if approximate result then refused false
            else if permission_is PermBackground result then granted GrantBackground
            else if foreground_or_limited result
            then (FlowForegroundOnlyChoice, [OfferForegroundOnly])
            else refused false
        | _ => (state, [])
        end
    end
  end.

Definition requiresVisibleStart (platform : PermissionPlatform) : bool :=
  match platform with
  | Android sdkInt => ANDROID_VISIBLE_START_SDK <=? sdkInt
  | Ios => false
  end.

(** ** The controller *)

Inductive PermissionOutcome := OutBackground | OutForegroundOnly | OutDenied.

Inductive DisclosureChoice := ChooseAccept | ChooseForegroundOnly | ChooseDismiss.

(** The user and the operating system: the [n]-th question may be answered in
    any way. *)
Class PermissionWorld := {
  ui_showDisclosure : nat -> DisclosureChoice;
  ui_settings_returned : nat -> bool;
  ui_offer_accepted : nat -> bool;
  os_snapshot : nat -> PermissionSnapshot;
  app_isActive : bool;
  os_platform : PermissionPlatform;
}.

(** What the controller did in front of the user. *)
Inductive PermissionAct :=
  | ShownDisclosure | AskedForeground | AskedBackground | ShownSettings | OpenedSystemSettings
  | ShownOffer | ShownDenied (canAskAgain : bool)
  | ReadGrant (snapshot : PermissionSnapshot).

#[export] Instance DisclosureChoice_eq_dec : EqDecision DisclosureChoice.
Proof. solve_decision. Defined.

(** The controller: its state, the questions asked so far, and the acts. *)
Record PermissionController := {
  pc_state : PermissionFlowState;
  pc_asked : nat;
  pc_acts : list PermissionAct;
}.

Section controller.
Context `{PermissionWorld}.

Definition set_flow (st : PermissionFlowState) : M PermissionController unit :=
  modify (fun c => {| pc_state := st; pc_asked := pc_asked c; pc_acts := pc_acts c |}).

Definition act (a : PermissionAct) : M PermissionController unit :=
  modify (fun c => {| pc_state := pc_state c; pc_asked := pc_asked c; pc_acts := pc_acts c ++ [a] |}).

(** The number of the next question. *)
Definition ask : M PermissionController nat := fun c =>
  (Ok (pc_asked c), {| pc_state := pc_state c; pc_asked := S (pc_asked c); pc_acts := pc_acts c |}).

(** [await this.deps.snapshot()] *)
Definition read_grant : M PermissionController PermissionSnapshot :=
  n ← ask;
  _ ← act (ReadGrant (os_snapshot n));
  mret (os_snapshot n).

Definition outcome_of (mode : GrantMode) : PermissionOutcome :=
  match mode with GrantBackground => OutBackground | GrantForegroundOnly => OutForegroundOnly end.

(** [perform]: an outcome, or the event that answers the first effect that asks. *)
Fixpoint perform (effects : list PermissionEffect)
    : M PermissionController (PermissionOutcome + PermissionEvent) :=
  match effects with
  | [] => mret (inl OutDenied)
  | Resolved mode :: _ => mret (inl (outcome_of mode))
  | Rejected _ :: _ =>
      c ← get;
      _ ← match pc_state c with FlowDenied again => act (ShownDenied again) | _ => mret tt end;
      mret (inl OutDenied)
  | ShowDisclosure :: _ =>
      n ← ask;
      _ ← act ShownDisclosure;
      mret (inr match ui_showDisclosure n with
                | ChooseAccept => DisclosureAccepted
                | ChooseForegroundOnly => DisclosureForegroundOnly
                | ChooseDismiss => DisclosureDismissed
                end)
  | RequestForeground :: _ =>
      _ ← act AskedForeground; s ← read_grant; mret (inr (ForegroundResult s))
  | RequestBackground :: _ =>
      _ ← act AskedBackground; s ← read_grant; mret (inr (BackgroundResult s))
  | OpenSettings :: rest =>
      c ← get;
      match pc_state c with
      | FlowSettingsRequired _ =>
          n ← ask;
          _ ← act ShownSettings;
          if ui_settings_returned n
          then _ ← act OpenedSystemSettings; s ← read_grant; mret (inr (ReturnedFromSettings s))
          else mret (inl OutDenied)
      | _ => perform rest
      end
  | OfferForegroundOnly :: _ =>
      n ← ask;
      _ ← act ShownOffer;
      if ui_offer_accepted n
      then s ← read_grant; mret (inr (ForegroundResult s)) else mret (inl OutDenied)
  end.

Definition MAX_TRANSITIONS : nat := 12.

(** The loop of [requestForStart] with the transitions it has left. *)
Fixpoint flow (steps : nat) (event : PermissionEvent) : M PermissionController PermissionOutcome :=
  match steps with
  | O => mret OutDenied
  | S steps =>
      c ← get;
      let t := permissionReducer (pc_state c) event os_platform in
      _ ← set_flow t.1;
      next ← perform t.2;
      match next with
      | inl outcome => mret outcome
      | inr event => flow steps event
      end
  end.

Definition permission_requestForStart : M PermissionController PermissionOutcome :=
  if negb app_isActive then mret OutDenied
  else
    _ ← set_flow FlowIdle;
    s ← read_grant;
    flow MAX_TRANSITIONS (StartRequested s).

(** [revoke()] *)
Definition revoke : M PermissionController unit :=
  c ← get; set_flow (permissionReducer (pc_state c) Revoked os_platform).1.
End controller.

(** ** What the flow guarantees *)

(** What the user sees. *)
Definition is_prompt (a : PermissionAct) : bool :=
  match a with
  | ShownDisclosure | AskedForeground | AskedBackground | ShownSettings | ShownOffer => true
  | _ => false
  end.

Definition prompts (l : list PermissionAct) : list PermissionAct := List.filter is_prompt l.

(** The order in which the questions of one start may come. *)
Definition script : list PermissionAct :=
  [ShownDisclosure; AskedForeground; AskedBackground; ShownSettings; ShownOffer].

(** An outcome the last act supports, which is a reading of the grant.  Background
    tracking needs the background grant, not approximate unless the reading answers
    the background question itself, where the accuracy is not looked at; the
    limited mode needs a usable grant that is not approximate. *)
Definition justified (o : PermissionOutcome) (l : list PermissionAct) : Prop :=
  match o with
  | OutBackground =>
      exists pre s, l = pre ++ [ReadGrant s] /\ snap_permission s = PermBackground
        /\ (snap_accuracy s <> Some AccApproximate \/ last pre = Some AskedBackground)
  | OutForegroundOnly =>
      exists pre s, l = pre ++ [ReadGrant s] /\ snap_accuracy s <> Some AccApproximate
        /\ snap_permission s ∈ [PermForeground; PermBackground; PermLimited]
  | OutDenied => True
  end.

(** The reading an event carries is the last act, and the answer to the background
    question comes right after it. *)
Definition taken (event : PermissionEvent) (l : list PermissionAct) : Prop :=
  match event with
  | StartRequested s | ForegroundResult s | ReturnedFromSettings s =>
      exists pre, l = pre ++ [ReadGrant s]
  | BackgroundResult s => exists pre, l = pre ++ [AskedBackground; ReadGrant s]
  | _ => True
  end.

Section flow_facts.
Context `{PermissionWorld}.

Lemma read_last l m s : exists pre, l ++ m ++ [ReadGrant s] = pre ++ [ReadGrant s].
Proof. exists (l ++ m). by rewrite app_assoc. Qed.

Lemma permission_is_true p s : permission_is p s = true <-> snap_permission s = p.
Proof. apply bool_decide_eq_true. Qed.

(** What asking does: the acts, and the number of questions. *)
Definition asked (c : PermissionController) (l : list PermissionAct) (n : nat) : PermissionController :=
  {| pc_state := pc_state c; pc_asked := (pc_asked c + n)%nat; pc_acts := pc_acts c ++ l |}.

(** From a state, an event and enough transitions: the questions still to come
    are among [rest], and the outcome is supported by the last reading. *)
Definition flows (rest : list PermissionAct) (need : nat) (st : PermissionFlowState)
    (event : PermissionEvent) : Prop :=
  forall k c, pc_state c = st ->
    taken event (pc_acts c) ->
    flow (need + k) event c = flow need event c
    /\ exists o c' extra, flow need event c = (Ok o, c')
         /\ pc_acts c' = pc_acts c ++ extra
         /\ prompts extra `sublist_of` rest
         /\ justified o (pc_acts c').

Lemma flow_unfold n event c :
  flow (S n) event c =
  (next ← perform (permissionReducer (pc_state c) event os_platform).2;
   match next with inl o => mret o | inr e => flow n e end)
    {| pc_state := (permissionReducer (pc_state c) event os_platform).1;
       pc_asked := pc_asked c; pc_acts := pc_acts c |}.
Proof. done. Qed.

Lemma flows_weaken rest rest' need need' st event :
  flows rest need st event -> (need <= need')%nat -> rest `sublist_of` rest' ->
  flows rest' need' st event.
Proof.
  intros Hf Hn Hr k c Hst Hl.
  destruct (Hf (need' - need)%nat c Hst Hl) as [E1 (o & c' & extra & E & Ha & Hp & Hj)].
  destruct (Hf (need' - need + k)%nat c Hst Hl) as [E2 _].
  replace (need + (need' - need))%nat with need' in E1 by lia.
  replace (need + (need' - need + k))%nat with (need' + k)%nat in E2 by lia.
  rewrite E2, E1. split; [done|]. exists o, c', extra. split_and!; [done|done| |done].
  by etrans.
Qed.

(** A transition with one effect: it ends the flow, or asks and goes on from
    the answer. *)
Lemma flows_step q rest rest' need st event st' effect :
  permissionReducer st event os_platform = (st', [effect]) ->
  q ++ rest' `sublist_of` rest ->
  (forall c, pc_state c = st' ->
     taken event (pc_acts c) ->
     exists next l n, perform [effect] c = (Ok next, asked c l n) /\ prompts l = q
       /\ match next with
          | inl o => justified o (pc_acts c ++ l)
          | inr e => taken e (pc_acts c ++ l) /\ flows rest' need st' e
          end) ->
  flows rest (S need) st event.
Proof.
  intros Ht Hrest Hperf k c Hst Hl. change (S need + k)%nat with (S (need + k)).
  rewrite !flow_unfold, Hst, Ht. cbn [fst snd].
  set (c0 := {| pc_state := st'; pc_asked := pc_asked c; pc_acts := pc_acts c |}).
  destruct (Hperf c0 eq_refl Hl) as (next & l & n & E & Hq & Hnext).
  rewrite !(bind_ok _ _ _ _ _ E). destruct next as [o|e].
  - split; [done|]. exists o, (asked c0 l n), l. split_and!; [done|done| |done].
    rewrite Hq. etrans; [|exact Hrest]. apply sublist_inserts_r, reflexivity.
  - destruct Hnext as [Hr Hf]. destruct (Hf k (asked c0 l n) eq_refl Hr) as [Hk (o & c' & extra & E2 & Ha & Hp & Hj)].
    split; [done|]. exists o, c', (l ++ extra). split_and!; [done| | |done].
    + rewrite Ha. simpl. by rewrite <- app_assoc.
    + unfold prompts in *. rewrite List.filter_app, Hq.
      etrans; [|exact Hrest]. by apply sublist_app.
Qed.

(** The three ways a flow ends. *)
Lemma flows_granted rest st event mode :
  permissionReducer st event os_platform = granted mode ->
  (forall l, taken event l -> justified (outcome_of mode) l) ->
  flows rest 1 st event.
Proof.
  intros Ht Hj. eapply (flows_step [] _ rest 0); [exact Ht|done|]. intros c Hst Hl.
  exists (inl (outcome_of mode)), [], 0%nat. unfold asked. rewrite Nat.add_0_r, !app_nil_r.
  destruct c; simpl in *. split_and!; auto.
Qed.

Lemma flows_refused rest st event again :
  permissionReducer st event os_platform = refused again -> flows rest 1 st event.
Proof.
  intros Ht. eapply (flows_step [] _ rest 0); [exact Ht|done|]. intros [st' a acts] Hst Hl.
  simpl in Hst. subst. exists (inl OutDenied), [ShownDenied again], 0%nat.
  unfold asked. rewrite Nat.add_0_r. done.
Qed.

Lemma flows_dismissed rest : flows rest 1 FlowExplaining DisclosureDismissed.
Proof.
  eapply (flows_step [] _ rest 0); [reflexivity|done|]. intros [st' a acts] Hst Hl.
  simpl in Hst. subst. exists (inl OutDenied), [], 0%nat.
  unfold asked. rewrite Nat.add_0_r, !app_nil_r. done.
Qed.

(** Runs the controller on a concrete state. *)
Ltac run_flow :=
  unfold asked; cbn [perform];
  unfold read_grant, ask, act, get, modify, mbind, M_bind, mret, M_ret; cbn.

(** *** State by state, last question first *)

Lemma flows_foreground_only rest s : flows rest 1 FlowForegroundOnlyChoice (ForegroundResult s).
Proof.
  destruct (negb (approximate s)
            && (permission_is PermForeground s || permission_is PermBackground s
                || permission_is PermLimited s)) eqn:E.
  - apply (flows_granted _ _ _ GrantForegroundOnly); [simpl; by rewrite E|].
    intros l [pre ->]. exists pre, s. split; [done|].
    apply andb_prop in E as [Ea E]. apply negb_true_iff, bool_decide_eq_false in Ea.
    split; [done|]. rewrite !orb_true_iff, !permission_is_true in E. set_solver.
  - eapply flows_refused. simpl. by rewrite E.
Qed.

Lemma flows_offer st event :
  permissionReducer st event os_platform = (FlowForegroundOnlyChoice, [OfferForegroundOnly]) ->
  flows [ShownOffer] 2 st event.
Proof.
  intros Ht. eapply (flows_step [ShownOffer] _ [] 1); [exact Ht|done|].
  intros [st' a acts] Hst Hl. simpl in Hst. subst.
  destruct (ui_offer_accepted a) eqn:E.
  - exists (inr (ForegroundResult (os_snapshot (S a)))), [ShownOffer; ReadGrant (os_snapshot (S a))], 2%nat.
    split_and!; [| done | | apply flows_foreground_only].
    + run_flow. rewrite E. cbn. rewrite <- app_assoc, !Nat.add_succ_r, Nat.add_0_r. done.
    + apply (read_last _ [_]).
  - exists (inl OutDenied), [ShownOffer], 1%nat. split_and!; [|done|done].
    run_flow. rewrite E, Nat.add_1_r. done.
Qed.

Lemma background_supported s l :
  approximate s = false -> permission_is PermBackground s = true ->
  (exists pre, l = pre ++ [ReadGrant s]) -> justified OutBackground l.
Proof.
  intros Ea E [pre ->]. exists pre, s. rewrite permission_is_true in E.
  apply bool_decide_eq_false in Ea. auto.
Qed.

(** After a background request, or back from the settings: a background grant,
    the limited mode, or a refusal. *)
Lemma flows_background s : flows [ShownOffer] 2 FlowRequestingBackground (BackgroundResult s).
Proof.
  destruct (permission_is PermBackground s) eqn:E1.
  { eapply flows_weaken; [|exact (le_S _ _ (le_n 1))|done].
    apply (flows_granted _ _ _ GrantBackground); [simpl; by rewrite E1|].
    intros l [pre ->]. exists (pre ++ [AskedBackground]), s. rewrite permission_is_true in E1.
    rewrite last_snoc, <- app_assoc. auto. }
  destruct (foreground_or_limited s) eqn:E2.
  - apply flows_offer. simpl. by rewrite E1, E2.
  - eapply flows_weaken; [|exact (le_S _ _ (le_n 1))|done].
    eapply flows_refused. simpl. by rewrite E1, E2.
Qed.

Lemma flows_settings reason s :
  flows [ShownOffer] 2 (FlowSettingsRequired reason) (ReturnedFromSettings s).
Proof.
  destruct (approximate s) eqn:E0.
  { eapply flows_weaken; [|exact (le_S _ _ (le_n 1))|done].
    eapply flows_refused. simpl. by rewrite E0. }
  destruct (permission_is PermBackground s) eqn:E1.
  { eapply flows_weaken; [|exact (le_S _ _ (le_n 1))|done].
    apply (flows_granted _ _ _ GrantBackground); [simpl; by rewrite E0, E1|].
    intros l Hl. eapply background_supported; eauto. }
  destruct (foreground_or_limited s) eqn:E2.
  - apply flows_offer. simpl. by rewrite E0, E1, E2.
  - eapply flows_weaken; [|exact (le_S _ _ (le_n 1))|done].
    eapply flows_refused. simpl. by rewrite E0, E1, E2.
Qed.

Lemma flows_open_settings st event reason :
  permissionReducer st event os_platform = settingsRequired reason ->
  flows [ShownSettings; ShownOffer] 3 st event.
Proof.
  intros Ht. eapply (flows_step [ShownSettings] _ [ShownOffer] 2); [exact Ht|done|].
  intros [st' a acts] Hst Hl. simpl in Hst. subst.
  destruct (ui_settings_returned a) eqn:E.
  - exists (inr (ReturnedFromSettings (os_snapshot (S a)))),
      [ShownSettings; OpenedSystemSettings; ReadGrant (os_snapshot (S a))], 2%nat.
    split_and!; [| done | | apply flows_settings].
    + run_flow. rewrite E. cbn. rewrite <- !app_assoc, !Nat.add_succ_r, Nat.add_0_r. done.
    + apply (read_last _ [_; _]).
  - exists (inl OutDenied), [ShownSettings], 1%nat. split_and!; [|done|done].
    run_flow. rewrite E, Nat.add_1_r. done.
Qed.

Lemma flows_foreground s :
  flows [AskedBackground; ShownSettings; ShownOffer] 3 FlowRequestingForeground (ForegroundResult s).
Proof.
  assert (Hset : forall reason, afterForeground os_platform s = settingsRequired reason ->
            flows [AskedBackground; ShownSettings; ShownOffer] 3 FlowRequestingForeground (ForegroundResult s)).
  { intros reason Hr. eapply flows_weaken; [apply (flows_open_settings _ _ reason); exact Hr|lia|].
    apply sublist_cons. done. }
  unfold afterForeground in Hset.
  destruct (approximate s) eqn:E0; [by eapply Hset|].
  destruct (permission_is PermLimited s) eqn:E1; [by eapply Hset|].
  destruct (permission_is PermBackground s) eqn:E2.
  { eapply flows_weaken; [|exact (le_S _ _ (le_S _ _ (le_n 1)))|done].
    apply (flows_granted _ _ _ GrantBackground).
    - simpl. unfold afterForeground. by rewrite E0, E1, E2.
    - intros l Hl. eapply background_supported; eauto. }
  destruct (permission_is PermForeground s) eqn:E3; simpl in Hset.
  - destruct (backgroundNeedsSettings os_platform) eqn:E4; [by eapply Hset|].
    eapply (flows_step [AskedBackground] _ [ShownOffer] 2).
    + simpl. unfold afterForeground. rewrite E0, E1, E2, E3. simpl. by rewrite E4.
    + apply sublist_skip, sublist_cons. done.
    + intros [st' a acts] Hst Hl. simpl in Hst. subst.
      exists (inr (BackgroundResult (os_snapshot a))), [AskedBackground; ReadGrant (os_snapshot a)], 1%nat.
      split_and!; [|done| |apply flows_background].
      * run_flow. by rewrite <- !app_assoc, Nat.add_1_r.
      * by exists acts.
  - eapply flows_weaken; [|exact (le_S _ _ (le_S _ _ (le_n 1)))|done].
    eapply flows_refused. simpl. unfold afterForeground. by rewrite E0, E1, E2, E3.
Qed.

(** The system's foreground question, from either answer to the disclosure. *)
Lemma flows_ask_foreground event st' rest need :
  permissionReducer FlowExplaining event os_platform = (st', [RequestForeground]) ->
  (forall s, flows rest need st' (ForegroundResult s)) ->
  flows (AskedForeground :: rest) (S need) FlowExplaining event.
Proof.
  intros Ht Hf. eapply (flows_step [AskedForeground] _ rest need); [exact Ht|done|].
  intros [st a acts] Hst Hl. simpl in Hst. subst.
  exists (inr (ForegroundResult (os_snapshot a))), [AskedForeground; ReadGrant (os_snapshot a)], 1%nat.
  split_and!; [|done| |apply Hf].
  - run_flow. by rewrite <- !app_assoc, Nat.add_1_r.
  - apply (read_last _ [_]).
Qed.

Lemma flows_explaining event :
  event ∈ [DisclosureAccepted; DisclosureForegroundOnly; DisclosureDismissed] ->
  flows [AskedForeground; AskedBackground; ShownSettings; ShownOffer] 4 FlowExplaining event.
Proof.
  rewrite !elem_of_cons, elem_of_nil. intros [->|[->|[->|[]]]].
  - eapply flows_ask_foreground; [reflexivity|]. apply flows_foreground.
  - eapply flows_weaken; [eapply (flows_ask_foreground _ _ [] 1); [reflexivity|]| lia |].
    + apply flows_foreground_only.
    + apply sublist_skip, sublist_nil_l.
  - eapply flows_weaken; [apply (flows_dismissed [])|lia|apply sublist_nil_l].
Qed.

Lemma flows_start s : flows script 5 FlowIdle (StartRequested s).
Proof.
  assert (Hset : forall reason, on_start s = settingsRequired reason ->
            flows script 5 FlowIdle (StartRequested s)).
  { intros reason Hr. eapply flows_weaken; [apply (flows_open_settings _ _ reason); exact Hr|lia|].
    unfold script. by do 3 apply sublist_cons. }
  unfold on_start in Hset.
  destruct (approximate s) eqn:E0; [by eapply Hset|].
  destruct (permission_is PermBackground s) eqn:E1.
  { eapply flows_weaken; [|exact (le_S _ _ (le_S _ _ (le_S _ _ (le_S _ _ (le_n 1)))))|done].
    apply (flows_granted _ _ _ GrantBackground).
    - simpl. unfold on_start. by rewrite E0, E1.
    - intros l Hl. eapply background_supported; eauto. }
  destruct (permission_is PermDenied s && bool_decide (snap_canAskAgain s = Some false)) eqn:E2;
    [by eapply Hset|].
  eapply (flows_step [ShownDisclosure] _ [AskedForeground; AskedBackground; ShownSettings; ShownOffer] 4).
  - simpl. unfold on_start. by rewrite E0, E1, E2.
  - done.
  - intros [st a acts] Hst Hl. simpl in Hst. subst.
    set (e := match ui_showDisclosure a with
              | ChooseAccept => DisclosureAccepted
              | ChooseForegroundOnly => DisclosureForegroundOnly
              | ChooseDismiss => DisclosureDismissed
              end).
    exists (inr e), [ShownDisclosure], 1%nat. split_and!; [|done| |].
    + run_flow. by rewrite Nat.add_1_r.
    + unfold e. by destruct (ui_showDisclosure a).
    + apply flows_explaining. unfold e. destruct (ui_showDisclosure a); set_solver.
Qed.

(** C35: a start request asks each question at most once and in a fixed order
    (disclosure, foreground, background, settings, limited mode), always
    reaches an outcome, grants only what the reading of the permission that is
    the flow's last act supports, and does so within five transitions: whatever
    the user and the system answer, any larger budget, MAX_TRANSITIONS included,
    gives the same run.  Tracking in the background needs the background grant,
    and not an approximate one, with the one exception the reducer makes: a
    background grant read as the answer to the background question is taken
    whatever its accuracy.  The limited mode needs a usable grant that is not
    approximate. *)
Theorem permission_flow_never_loops (c : PermissionController) (k : nat) :
  app_isActive = true ->
  exists o c' extra,
    permission_requestForStart c = (Ok o, c')
    /\ pc_acts c' = pc_acts c ++ extra
    /\ prompts extra `sublist_of` script
    /\ justified o (pc_acts c')
    /\ (_ ← set_flow FlowIdle; s ← read_grant; flow (5 + k) (StartRequested s)) c = (Ok o, c').
Proof.
  intros Hact. unfold permission_requestForStart. rewrite Hact. cbn [negb].
  set (s := os_snapshot (pc_asked c)).
  set (c1 := {| pc_state := FlowIdle; pc_asked := S (pc_asked c); pc_acts := pc_acts c ++ [ReadGrant s] |}).
  assert (E : forall n, (_ ← set_flow FlowIdle; s ← read_grant; flow n (StartRequested s)) c
              = flow n (StartRequested s) c1) by done.
  rewrite !E.
  assert (Hl : taken (StartRequested s) (pc_acts c1)) by apply (read_last _ []).
  destruct (flows_start s k c1 eq_refl Hl) as [Hk (o & c' & extra & Ef & Ha & Hp & Hj)].
  destruct (flows_start s 7%nat c1 eq_refl Hl) as [Hm _].
  exists o, c', (ReadGrant s :: extra). rewrite Hk. unfold MAX_TRANSITIONS. simpl in Hm.
  split_and!; [by rewrite <- Ef| |done|done|done].
  rewrite Ha. simpl. by rewrite <- app_assoc.
Qed.
End flow_facts.

(** A user who accepts everything on Android 14, where the background grant is
    made in the settings. *)
#[local] Instance settings_world : PermissionWorld := {|
  ui_showDisclosure _ := ChooseAccept;
  ui_settings_returned _ := true;
  ui_offer_accepted _ := true;
  os_snapshot n :=
    {| snap_permission := if (n <? 2)%nat then PermNotDetermined else if (n <? 4)%nat then PermForeground else PermBackground;
       snap_accuracy := Some AccPreciseGrant; snap_canAskAgain := Some true |};
  app_isActive := true;
  os_platform := Android 34;
|}.

Definition fresh_controller : PermissionController :=
  {| pc_state := FlowIdle; pc_asked := 0; pc_acts := [] |}.

Lemma permission_flow_never_loops_witness :
  (permission_requestForStart fresh_controller).1 = Ok OutBackground
  /\ prompts (pc_acts (permission_requestForStart fresh_controller).2)
     = [ShownDisclosure; AskedForeground; ShownSettings]
  /\ exists o c' extra,
    permission_requestForStart fresh_controller = (Ok o, c')
    /\ pc_acts c' = pc_acts fresh_controller ++ extra
    /\ prompts extra `sublist_of` script
    /\ justified o (pc_acts c')
    /\ (_ ← set_flow FlowIdle; s ← read_grant; flow (5 + 3) (StartRequested s)) fresh_controller
       = (Ok o, c').
Proof.
  split; [vm_compute; reflexivity|]. split; [vm_compute; reflexivity|].
  apply (permission_flow_never_loops fresh_controller 3). reflexivity.
Defined.

(** A phone that grants the background precisely asked for, but only approximately. *)
Definition approximate_world : PermissionWorld := {|
  ui_showDisclosure _ := ChooseAccept;
  ui_settings_returned _ := true;
  ui_offer_accepted _ := true;
  os_snapshot n :=
    {| snap_permission := if (n <? 2)%nat then PermNotDetermined else if (n <? 3)%nat then PermForeground else PermBackground;
       snap_accuracy := if (n <? 3)%nat then Some AccPreciseGrant else Some AccApproximate;
       snap_canAskAgain := Some true |};
  app_isActive := true;
  os_platform := Ios;
|}.

(** The background question answered with a grant of reduced accuracy starts
    background tracking. *)
Lemma an_approximate_background_grant_is_taken :
  exists s, (@permission_requestForStart approximate_world fresh_controller).1 = Ok OutBackground
    /\ last (pc_acts (@permission_requestForStart approximate_world fresh_controller).2) = Some (ReadGrant s)
    /\ snap_accuracy s = Some AccApproximate.
Proof. eexists. split_and!; vm_compute; reflexivity. Qed.
