(* ===== verification/Processor.v ===== *)
(** * The mode boundary

    apps/mobile/src/navigation/processor.ts: what a mode's processor offers the
    coordinator, the laws the coordinator relies on, and the registry. *)

From S2P Require Import Prelude Protocol Session Snapshot Database Repository.

(** A value that arrived over the bridge or from the network: a package of the
    wire's shape, or anything else. *)
Inductive Unvalidated :=
  | Candidate (p : NavigationStartPackage)
  | Junk.

(** [NavigationProcessor]: a refusal is a code, an exception is a [Throw]. *)
Record NavigationProcessor := {
  proc_kind : Kind;
  needsScheduleTicks : bool;
  proc_prepare : NavigationStartPackage -> string -> Z -> PermissionMode ->
                 outcome (MobileNavigationSession + string);
  processFixes : MobileNavigationSession -> list FixInput -> Z -> outcome RepositoryMutation;
  proc_replace : MobileNavigationSession -> Unvalidated -> Z ->
                 outcome (RepositoryMutation + string);
  repairTransitWalk : option (MobileNavigationSession -> Z -> Route -> Z ->
                              outcome (RepositoryMutation + string));
  transitAction : option (MobileNavigationSession -> RiderActionType -> Z -> Z ->
                          outcome (RepositoryMutation + string));
}.

(** [ProcessorRegistry]: [register] replaces the processor of its kind. *)
Definition ProcessorRegistry : Type := Kind -> option NavigationProcessor.

Definition empty_registry : ProcessorRegistry := fun _ => None.

Definition register (p : NavigationProcessor) (r : ProcessorRegistry) : ProcessorRegistry :=
  fun k => if decide (proc_kind p = k) then Some p else r k.

Definition supports (r : ProcessorRegistry) (k : Kind) : bool :=
  match r k with Some _ => true | None => false end.

(** A mutation that advances the session it was computed from by one revision. *)
Record advances (s : MobileNavigationSession) (nowMs : Z) (m : RepositoryMutation) : Prop := {
  adv_id : sessionId (mut_session m) = sessionId s;
  adv_revision : revision (mut_session m) = revision s + 1;
  adv_updated : updatedAtMs (mut_session m) = nowMs;
  adv_started : startedAtMs (mut_session m) = startedAtMs s;
  adv_expires : expiresAtMs (mut_session m) = expiresAtMs s;
  adv_kind : kind (mut_session m) = kind s;
  adv_alerts : match mut_alerts m with
               | Some alerts => Forall (fun a => 0 <= alert_legIndex a) alerts
               | None => True
               end;
}.

(** A first revision. *)
Record prepares (sid : string) (nowMs : Z) (mode : PermissionMode) (k : Kind)
    (s : MobileNavigationSession) : Prop := {
  prep_id : sessionId s = sid;
  prep_revision : revision s = 1;
  prep_status : status s = Preparing;
  prep_started : startedAtMs s = nowMs;
  prep_updated : updatedAtMs s = nowMs;
  prep_expires : expiresAtMs s = nowMs + MOBILE_NAVIGATION_SESSION_MAX_AGE_MS;
  prep_mode : permissionMode s = mode;
  prep_kind : kind s = k;
}.

(** What the coordinator relies on. *)
Class ProcessorLaws (p : NavigationProcessor) : Prop := {
  law_prepare : forall pkg sid nowMs mode s,
    proc_prepare p pkg sid nowMs mode = Ok (inl s) -> prepares sid nowMs mode (proc_kind p) s;
  law_fixes : forall s fixes nowMs m,
    kind s = proc_kind p -> processFixes p s fixes nowMs = Ok m -> advances s nowMs m;
  law_replace : forall s u nowMs m,
    kind s = proc_kind p -> proc_replace p s u nowMs = Ok (inl m) -> advances s nowMs m;
  law_repair : forall f s leg route nowMs m,
    repairTransitWalk p = Some f -> kind s = proc_kind p ->
    f s leg route nowMs = Ok (inl m) -> advances s nowMs m;
  law_action : forall f s type leg nowMs m,
    transitAction p = Some f -> kind s = proc_kind p ->
    f s type leg nowMs = Ok (inl m) -> advances s nowMs m;
}.

(** The registry holds lawful processors under their own kind. *)
Record lawful_registry (r : ProcessorRegistry) : Prop := {
  reg_kind : forall k p, r k = Some p -> proc_kind p = k;
  reg_laws : forall k p, r k = Some p -> ProcessorLaws p;
}.

Lemma empty_registry_lawful : lawful_registry empty_registry.
Proof. by split. Qed.

Lemma register_lawful p r :
  ProcessorLaws p -> lawful_registry r -> lawful_registry (register p r).
Proof.
  intros Hp [Hk Hl]. unfold register. split; intros k q; case_decide; intros; simplify_eq; eauto.
Qed.

Lemma supports_register p r k :
  supports (register p r) k = bool_decide (proc_kind p = k) || supports r k.
Proof.
  unfold supports, register. destruct (decide (proc_kind p = k)).
  - by rewrite bool_decide_true.
  - by rewrite bool_decide_false.
Qed.
