(* ===== verification/Guidance.v ===== *)
(** * What the guidance engine promises its callers

    packages/core/src/navigation as groundBatch.ts calls it: the options of a mode
    (options.ts), the engine's cue and tick result (types.ts), the wording of a cue
    (spokenInstruction.ts), and the engine itself ([processFix],
    [prepareRouteMatcher]) as an interface the clients are proved against; Engine
    implements it. *)

From S2P Require Import Prelude Text Doubles Protocol Cues Session.

(** ** Options *)

Record RerouteOpts := {
  thresholdMeters : number;
  scoreThreshold : number;
  backoffBaseMs : number;
  backoffMaxMs : number;
}.

Record VoiceScheduleConfig := {
  farMeters : number;
  nearMeters : number;
  refSpeedMps : number;
  nowSeconds : number;
  nowFloorMeters : number;
  ttsDelaySeconds : number;
}.

Record GuidanceWindow := {
  leadSeconds : number;
  maxLeadSeconds : number;
  highSpeedMps : number;
  minMeters : number;
  chainSeconds : number;
}.

Record NavTickOptions := {
  opt_mode : GroundMode;
  accuracyCapMeters : number;
  weakGpsMeters : number;
  minMovingSpeedMps : number;
  opt_reroute : RerouteOpts;
  opt_voice : VoiceScheduleConfig;
  announceMultiplier : number;
  arrivalThresholdMeters : number;
  opt_guidance : GuidanceWindow;
  stepGateEntryMeters : number;
  stepGateExitMeters : number;
}.

(** [navOptionsForMode]: a motorcycle takes the driving options. *)
Definition navOptionsForMode (mode : GroundMode) : NavTickOptions :=
  match mode with
  | Walking =>
      {| opt_mode := Walking;
         accuracyCapMeters := literal 100 1; weakGpsMeters := literal 40 1;
         minMovingSpeedMps := literal 4 10;
         opt_reroute := {| thresholdMeters := literal 25 1; scoreThreshold := literal 6 1;
                           backoffBaseMs := literal 3000 1; backoffMaxMs := literal 30000 1 |};
         opt_voice := {| farMeters := literal 150 1; nearMeters := literal 50 1;
                         refSpeedMps := literal 14 10; nowSeconds := literal 3 1;
                         nowFloorMeters := literal 12 1; ttsDelaySeconds := literal 1 1 |};
         announceMultiplier := literal 1 1; arrivalThresholdMeters := literal 20 1;
         opt_guidance := {| leadSeconds := literal 15 1; maxLeadSeconds := literal 20 1;
                            highSpeedMps := literal 3 1; minMeters := literal 40 1;
                            chainSeconds := literal 12 1 |};
         stepGateEntryMeters := literal 20 1; stepGateExitMeters := literal 3 1 |}
  | Cycling =>
      {| opt_mode := Cycling;
         accuracyCapMeters := literal 150 1; weakGpsMeters := literal 50 1;
         minMovingSpeedMps := literal 8 10;
         opt_reroute := {| thresholdMeters := literal 30 1; scoreThreshold := literal 8 1;
                           backoffBaseMs := literal 3000 1; backoffMaxMs := literal 60000 1 |};
         opt_voice := {| farMeters := literal 250 1; nearMeters := literal 100 1;
                         refSpeedMps := literal 55 10; nowSeconds := literal 25 10;
                         nowFloorMeters := literal 18 1; ttsDelaySeconds := literal 15 10 |};
         announceMultiplier := literal 1 1; arrivalThresholdMeters := literal 25 1;
         opt_guidance := {| leadSeconds := literal 20 1; maxLeadSeconds := literal 30 1;
                            highSpeedMps := literal 10 1; minMeters := literal 80 1;
                            chainSeconds := literal 20 1 |};
         stepGateEntryMeters := literal 20 1; stepGateExitMeters := literal 4 1 |}
  | Driving | Motorcycle =>
      {| opt_mode := Driving;
         accuracyCapMeters := literal 200 1; weakGpsMeters := literal 60 1;
         minMovingSpeedMps := literal 15 10;
         opt_reroute := {| thresholdMeters := literal 45 1; scoreThreshold := literal 10 1;
                           backoffBaseMs := literal 3000 1; backoffMaxMs := literal 120000 1 |};
         opt_voice := {| farMeters := literal 400 1; nearMeters := literal 200 1;
                         refSpeedMps := literal 14 1; nowSeconds := literal 25 10;
                         nowFloorMeters := literal 30 1; ttsDelaySeconds := literal 15 10 |};
         announceMultiplier := literal 1 1; arrivalThresholdMeters := literal 35 1;
         opt_guidance := {| leadSeconds := literal 35 1; maxLeadSeconds := literal 90 1;
                            highSpeedMps := literal 33 1; minMeters := literal 300 1;
                            chainSeconds := literal 30 1 |};
         stepGateEntryMeters := literal 20 1; stepGateExitMeters := literal 5 1 |}
  end.

(** [{ ...options, announceMultiplier }] *)
Definition with_announceMultiplier (m : number) (o : NavTickOptions) : NavTickOptions :=
  {| opt_mode := opt_mode o; accuracyCapMeters := accuracyCapMeters o;
     weakGpsMeters := weakGpsMeters o; minMovingSpeedMps := minMovingSpeedMps o;
     opt_reroute := opt_reroute o; opt_voice := opt_voice o; announceMultiplier := m;
     arrivalThresholdMeters := arrivalThresholdMeters o; opt_guidance := opt_guidance o;
     stepGateEntryMeters := stepGateEntryMeters o; stepGateExitMeters := stepGateExitMeters o |}.

(** ** A tick *)

(** A route step passes through the wire schema as the record it is. *)
Record VoiceCue := {
  cue_key : string;
  cue_tier : CueTier;
  cue_step : json;
  cue_stepIndex : Z;
  cue_distance : number;
}.

(** [NavProgress]: the record the payload stores, and the segment it names. *)
Record NavProgress := {
  np_record : list (string * json);
  np_segmentIndex : Z;
}.

Record NavTickResult := {
  tick_progress : option NavProgress;
  accuracyRejected : bool;
  tick_weakGps : bool;
  tick_offRoute : bool;
  needsReroute : bool;
  arrived : bool;
  voiceCue : option VoiceCue;
  nextState : NavTickState;
}.

(** ** The wording of a cue *)

(** The first candidate that is a string with something to say. *)
Fixpoint first_spoken (candidates : list (option json)) : option string :=
  match candidates with
  | [] => None
  | c :: r =>
      match json_string c with
      | Some s => if 0 <? str_length (trim s) then Some (trim s) else first_spoken r
      | None => first_spoken r
      end
  end.

Definition spokenInstructionFor (cue : VoiceCue) : option string :=
  let step key := json_field key (cue_step cue) in
  first_spoken
    (if decide (cue_tier cue = TierNow)
     then [step "verbalPre"; step "instruction"]
     else [step "verbalAlert"; step "verbalPre"; step "instruction"]).

(** ** The engine's interface *)

(** [prepareRouteMatcher] and [processFix]. *)
Class GuidanceEngine := {
  PreparedRouteMatcher : Type;
  prepareRouteMatcher : list LngLat -> PreparedRouteMatcher;
  matcher_geometry : PreparedRouteMatcher -> list LngLat;
  processFix : Route -> FixInput -> NavTickState -> NavTickOptions -> PreparedRouteMatcher ->
               NavTickResult;
}.

(** The tick state of a line nobody has moved along yet. *)
Definition fresh_tick (lastRerouteAtMs : option Z) (rerouteBackoffMs : number) : NavTickState :=
  {| offRouteScore := num_of_Z 0; lastRerouteAtMs := lastRerouteAtMs;
     rerouteBackoffMs := rerouteBackoffMs; spokenCues := []; speedEstimate := None;
     tick_extra := [] |}.

(** What the callers rely on: a matcher keeps the geometry it was built from; the
    engine records every cue it reports and no other; and the tick states it hands
    back satisfy an invariant of its own, which a fresh line has, which a tick keeps
    where a fix and a route are of the kind it can follow, and which, apart from the
    number of cues, makes a state one the session schema accepts. *)
Class GuidanceLaws `{GuidanceEngine} := {
  matcher_keeps_geometry : forall g, matcher_geometry (prepareRouteMatcher g) = g;
  spoken_cues_grow : forall route f state opts matcher,
    let r := processFix route f state opts matcher in
    spokenCues (nextState r) =
      spokenCues state ++ match voiceCue r with Some c => [cue_key c] | None => [] end;
  tick_ok : NavTickState -> Prop;
  can_guide : Route -> FixInput -> Prop;
  first_tick_ok : tick_ok (fresh_tick None (num_of_Z 0));
  replaced_tick_ok : forall state, tick_ok state ->
    tick_ok (fresh_tick (lastRerouteAtMs state) (rerouteBackoffMs state));
  tick_ok_kept : forall route f state mode m,
    let opts := with_announceMultiplier m (navOptionsForMode mode) in
    can_guide route f -> tick_ok state ->
    tick_ok (nextState (processFix route f state opts (prepareRouteMatcher (route_geometry route))));
  tick_ok_readable : forall state, tick_ok state ->
    Z.of_nat (length (spokenCues state)) <= MAX_SPOKEN_CUES -> navTickStateSchema state = true;
}.
