(* ===== verification/TransitEngine.v ===== *)
(** * The transit engine

    packages/core/src/navigation/processTransitFix.ts: one position, one rider action
    or one wake-up becomes the next state of a journey and its events.  Physical
    progress comes from positions and from the rider; a timetable never commits it. *)

From S2P Require Import Prelude Text Doubles Protocol RouteMatcher Maneuver Progress Session Itinerary StopAreas Captures StopCursor Guidance.

(** ** Data *)

Inductive TransitEventBody :=
  | TBoard (legIndex : Z)
  | TAlight (legIndex : Z)
  | TMissedConnection (legIndex : Z)
  | TArrival (legIndex : Z)
  | TPlatformChange (legIndex : Z) (platform : string)
  | TApproachingAlight (legIndex stopsRemaining : Z)
  | TTransfer (fromLegIndex toLegIndex : Z).

Record TransitNavigationEvent := {
  ev_id : string;
  ev_body : TransitEventBody;
}.

Record TransitRiderAction := {
  act_type : RiderActionType;
  act_legIndex : Z;
}.

Inductive FixRejection := LowAccuracy | OutOfOrder | InvalidFix | StaleFix | FutureFix | CoastedFix.

Record TransitTickOptions := {
  itineraryFingerprint : string;
  accuracyCap : number;
}.

(** [DEFAULT_TRANSIT_TICK_OPTIONS] with its fingerprint. *)
Definition default_tick_options (fingerprint : string) : TransitTickOptions :=
  {| itineraryFingerprint := fingerprint; accuracyCap := num_of_Z 100 |}.

Record TransitTickResult := {
  res_state : TransitTickState;
  res_events : list TransitNavigationEvent;
  res_confidence : Confidence;
  res_needsReplan : bool;
  res_actionRejected : bool;
  res_rejectedReason : option FixRejection;
}.

(** ** Writes to the state *)

Definition set_phase (p : TransitPhase) (t : TransitTickState) : TransitTickState :=
  Build_TransitTickState (t_currentLegIndex t) (t_currentWalkStepIndex t) (t_walkRevision t) p
    (t_lastAcceptedFix t) (t_lastProgressAtMs t) (t_legEnteredAtMs t) (t_stopCursor t)
    (t_alongMeters t) (t_stopTracking t) (t_reachedStepEnd t) (t_distanceToNextStepMeters t)
    (t_progressConfidence t) (t_offPlan t) (t_lastActionId t) (t_lastAction t)
    (t_spokenCueIds t) (t_emittedEventIds t).

Definition set_acceptedFix (f : FixInput) (nowMs : Z) (t : TransitTickState) : TransitTickState :=
  Build_TransitTickState (t_currentLegIndex t) (t_currentWalkStepIndex t) (t_walkRevision t)
    (t_phase t) (Some f) (Some nowMs) (t_legEnteredAtMs t) (t_stopCursor t)
    (t_alongMeters t) (t_stopTracking t) (t_reachedStepEnd t) (t_distanceToNextStepMeters t)
    (t_progressConfidence t) (t_offPlan t) (t_lastActionId t) (t_lastAction t)
    (t_spokenCueIds t) (t_emittedEventIds t).

Definition set_progressConfidence (c : ProgressConfidence) (t : TransitTickState) : TransitTickState :=
  Build_TransitTickState (t_currentLegIndex t) (t_currentWalkStepIndex t) (t_walkRevision t)
    (t_phase t) (t_lastAcceptedFix t) (t_lastProgressAtMs t) (t_legEnteredAtMs t)
    (t_stopCursor t) (t_alongMeters t) (t_stopTracking t) (t_reachedStepEnd t)
    (t_distanceToNextStepMeters t) (Some c) (t_offPlan t) (t_lastActionId t) (t_lastAction t)
    (t_spokenCueIds t) (t_emittedEventIds t).

Definition set_offPlan (b : bool) (t : TransitTickState) : TransitTickState :=
  Build_TransitTickState (t_currentLegIndex t) (t_currentWalkStepIndex t) (t_walkRevision t)
    (t_phase t) (t_lastAcceptedFix t) (t_lastProgressAtMs t) (t_legEnteredAtMs t)
    (t_stopCursor t) (t_alongMeters t) (t_stopTracking t) (t_reachedStepEnd t)
    (t_distanceToNextStepMeters t) (t_progressConfidence t) (Some b) (t_lastActionId t)
    (t_lastAction t) (t_spokenCueIds t) (t_emittedEventIds t).

Definition set_lastAction (a : LastAction) (t : TransitTickState) : TransitTickState :=
  Build_TransitTickState (t_currentLegIndex t) (t_currentWalkStepIndex t) (t_walkRevision t)
    (t_phase t) (t_lastAcceptedFix t) (t_lastProgressAtMs t) (t_legEnteredAtMs t)
    (t_stopCursor t) (t_alongMeters t) (t_stopTracking t) (t_reachedStepEnd t)
    (t_distanceToNextStepMeters t) (t_progressConfidence t) (t_offPlan t) (t_lastActionId t)
    (Some a) (t_spokenCueIds t) (t_emittedEventIds t).

Definition set_emitted (ids : list string) (t : TransitTickState) : TransitTickState :=
  Build_TransitTickState (t_currentLegIndex t) (t_currentWalkStepIndex t) (t_walkRevision t)
    (t_phase t) (t_lastAcceptedFix t) (t_lastProgressAtMs t) (t_legEnteredAtMs t)
    (t_stopCursor t) (t_alongMeters t) (t_stopTracking t) (t_reachedStepEnd t)
    (t_distanceToNextStepMeters t) (t_progressConfidence t) (t_offPlan t) (t_lastActionId t)
    (t_lastAction t) (t_spokenCueIds t) ids.

Definition set_stops (cursor : Z) (along : number) (tracking : option StopTracking) (t : TransitTickState) : TransitTickState :=
  Build_TransitTickState (t_currentLegIndex t) (t_currentWalkStepIndex t) (t_walkRevision t)
    (t_phase t) (t_lastAcceptedFix t) (t_lastProgressAtMs t) (t_legEnteredAtMs t)
    (Some cursor) (Some along) tracking (t_reachedStepEnd t) (t_distanceToNextStepMeters t)
    (t_progressConfidence t) (t_offPlan t) (t_lastActionId t) (t_lastAction t)
    (t_spokenCueIds t) (t_emittedEventIds t).

Definition set_walk (step : Z) (reached : bool) (distance : number) (t : TransitTickState) : TransitTickState :=
  Build_TransitTickState (t_currentLegIndex t) step (t_walkRevision t) (t_phase t)
    (t_lastAcceptedFix t) (t_lastProgressAtMs t) (t_legEnteredAtMs t) (t_stopCursor t)
    (t_alongMeters t) (t_stopTracking t) (Some reached) (Some distance)
    (t_progressConfidence t) (t_offPlan t) (t_lastActionId t) (t_lastAction t)
    (t_spokenCueIds t) (t_emittedEventIds t).

(** The fields [resetLeg] writes. *)
Definition enter_leg (index : Z) (phase : TransitPhase) (nowMs : Z) (t : TransitTickState) : TransitTickState :=
  Build_TransitTickState index 0 (t_walkRevision t) phase (t_lastAcceptedFix t)
    (t_lastProgressAtMs t) nowMs (Some 1) (Some (num_of_Z 0)) None (Some false) None
    (t_progressConfidence t) (t_offPlan t) (t_lastActionId t) (t_lastAction t)
    (t_spokenCueIds t) (t_emittedEventIds t).

(** [Object.assign(state, previous.previous)] and the fields an undo clears. *)
Definition undo_action (previous : PreviousPosition) (nowMs : Z) (t : TransitTickState) : TransitTickState :=
  Build_TransitTickState (prev_currentLegIndex previous)
    (prev_currentWalkStepIndex previous) (t_walkRevision t) (prev_phase previous)
    (t_lastAcceptedFix t) (t_lastProgressAtMs t) nowMs (Some (prev_stopCursor previous))
    (Some (prev_alongMeters previous)) None (t_reachedStepEnd t)
    (t_distanceToNextStepMeters t) (t_progressConfidence t) (Some false) (t_lastActionId t)
    None (t_spokenCueIds t) (t_emittedEventIds t).

Definition freshTransitTickState (nowMs : Z) (itinerary : Itinerary) : TransitTickState :=
  {| t_currentLegIndex := 0; t_currentWalkStepIndex := 0; t_walkRevision := None;
     t_phase := if isTransitRide (leg_at (legs_of itinerary) 0) then WaitingToBoard else PhaseWalking;
     t_lastAcceptedFix := None; t_lastProgressAtMs := None; t_legEnteredAtMs := nowMs;
     t_stopCursor := Some 1; t_alongMeters := Some (num_of_Z 0); t_stopTracking := None;
     t_reachedStepEnd := None; t_distanceToNextStepMeters := None; t_progressConfidence := None;
     t_offPlan := None; t_lastActionId := None; t_lastAction := None;
     t_spokenCueIds := []; t_emittedEventIds := [] |}.

(** ** Events *)

(** The state of a tick and what it has told. *)
Record Tick := {
  tk_state : TransitTickState;
  tk_events : list TransitNavigationEvent;
}.

Definition on_state (f : TransitTickState -> TransitTickState) (k : Tick) : Tick :=
  {| tk_state := f (tk_state k); tk_events := tk_events k |}.

(** [(Math.imul(hash, 31) + c.charCodeAt(0)) >>> 0] for every [c] of the platform's
    text: in the texts of the library, units below 256, a code point is one unit. *)
Definition platformHash (platform : string) : Z :=
  foldl (fun h c => to_uint32 (h * 31 + c)) 0 (code_units platform).

Definition event_id (fingerprint : string) (body : TransitEventBody) : string :=
  let name type leg := (fingerprint ++ ":" ++ type ++ ":" ++ show_Z leg)%string in
  match body with
  | TBoard leg => name "board" leg
  | TAlight leg => name "alight" leg
  | TMissedConnection leg => name "missed-connection" leg
  | TArrival leg => name "arrival" leg
  | TPlatformChange leg platform =>
      (name "platform-change" leg ++ ":" ++ toString36 (platformHash platform))%string
  | TApproachingAlight leg _ => name "approaching-alight" leg
  | TTransfer from to => (name "transfer" from ++ ":" ++ show_Z to)%string
  end.

Definition MAX_EMITTED : nat := 512.

(** [emit]: an event whose id was told before is not told again. *)
Definition emit (fingerprint : string) (body : TransitEventBody) (k : Tick) : Tick :=
  let id := event_id fingerprint body in
  let emitted := t_emittedEventIds (tk_state k) in
  if includes id emitted then k
  else {| tk_state := set_emitted (keep_last MAX_EMITTED (emitted ++ [id])) (tk_state k);
          tk_events := tk_events k ++ [{| ev_id := id; ev_body := body |}] |}.

Section engine.
Context `{MathFunctions} `{Turf}.
Variables (legs : list json) (captures : list TransitLegCapture) (nowMs : Z).
Variables (fingerprint : string).

Definition phase_of_leg (index : Z) : TransitPhase :=
  if isTransitRide (leg_at legs index) then WaitingToBoard else PhaseWalking.

(** [resetLeg] *)
Definition resetLeg (index : Z) (k : Tick) : Tick :=
  let from := t_currentLegIndex (tk_state k) in
  let k := if index =? from then k else emit fingerprint (TTransfer from index) k in
  on_state (enter_leg index (phase_of_leg index) nowMs) k.

(** The phase of a leg on foot is walking, that of a ride not yet boarded waiting. *)
Definition settle_phase (t : TransitTickState) : TransitTickState :=
  let ride := isTransitRide (leg_at legs (t_currentLegIndex t)) in
  match t_phase t with
  | PhaseWalking => if ride then set_phase WaitingToBoard t else t
  | WaitingToBoard => if ride then t else set_phase PhaseWalking t
  | _ => t
  end.

(** ** Which positions count *)

Definition rejectedReason (accuracyCap : number) (last : option FixInput) (fix_ : FixInput)
    : option FixRejection :=
  let lng := (fix_coords fix_).1 in
  let lat := (fix_coords fix_).2 in
  let at_ := fix_timestampMs fix_ in
  if negb (num_is_finite lng) || negb (num_is_finite lat)
     || num_lt (num_of_Z 180) (num_abs lng) || num_lt (num_of_Z 90) (num_abs lat)
     || negb (num_is_finite (fix_accuracy fix_)) || num_lt (fix_accuracy fix_) (num_of_Z 0)
  then Some InvalidFix
  else if fix_coasted fix_ then Some CoastedFix
  else if at_ <? nowMs - 30000 then Some StaleFix
  else if nowMs + 5000 <? at_ then Some FutureFix
  else if match last with Some f => at_ <=? fix_timestampMs f | None => false end then Some OutOfOrder
  else if num_lt accuracyCap (fix_accuracy fix_) then Some LowAccuracy
  else None.

(** ** What the rider says *)

(** The ride a board tap means: the leg itself, or the one right after a walk. *)
Definition boardIndex (type : RiderActionType) (index : Z) : Z :=
  match type with
  | Continue => index + 1
  | _ => if isTransitRide (leg_at legs index) then index else index + 1
  end.

Definition action_valid (a : TransitRiderAction) (t : TransitTickState) : bool :=
  let index := t_currentLegIndex t in
  let target := boardIndex (act_type a) index in
  let riding := bool_decide (t_phase t = Riding) in
  match act_type a with
  | Undo =>
      match t_lastAction t with
      | Some previous => (la_legIndex previous =? act_legIndex a) && (nowMs - la_atMs previous <=? 120000)
      | None => false
      end
  | Continue =>
      riding && (act_legIndex a =? index)
      && truthy (opt_field "interlineWithPrevious" (leg_at legs (index + 1)))
      && isTransitRide (leg_at legs (index + 1))
  | Board =>
      negb riding && negb (bool_decide (t_phase t = PhaseArrived))
      && (act_legIndex a =? target) && isTransitRide (leg_at legs target)
      && negb (truthy (opt_field "cancelled" (leg_at legs target)))
  | Alight => riding && (act_legIndex a =? index)
  end.

(** [state.lastAction = ...]: where the rider was, for an undo. *)
Definition remember_action (type : LastActionType) (a : TransitRiderAction) (t : TransitTickState)
    : TransitTickState :=
  set_lastAction
    {| la_type := type; la_legIndex := act_legIndex a; la_atMs := nowMs;
       la_previous :=
         {| prev_currentLegIndex := t_currentLegIndex t; prev_phase := t_phase t;
            prev_currentWalkStepIndex := t_currentWalkStepIndex t;
            prev_stopCursor := default 1 (t_stopCursor t);
            prev_alongMeters := default (num_of_Z 0) (t_alongMeters t) |} |} t.

Definition board_leg (index : Z) (k : Tick) : Tick :=
  emit fingerprint (TBoard index)
    (on_state (fun t => set_offPlan false (set_phase Riding t)) (resetLeg index k)).

(** [targets[index]?.end] *)
Definition target_end (targets : list TransitLegTargets) (index : Z) : option (list StopAreaShape) :=
  if index <? 0 then None else mjoin (tgt_end <$> targets !! Z.to_nat index).

(** Whether the rider gets off somewhere else than at the end of the leg. *)
Definition alights_off_plan (targets : list TransitLegTargets) (index : Z) (position : option FixInput) : bool :=
  match position, target_end targets index with
  | Some p, Some end_ =>
      (nowMs - fix_timestampMs p <=? 30000) && negb (isWithinStopArea end_ (fix_coords p) (fix_accuracy p))
  | _, _ => false
  end.

Definition alight_leg (offPlan : bool) (index : Z) (k : Tick) : Tick :=
  let k := on_state (set_offPlan offPlan) (emit fingerprint (TAlight index) k) in
  if index =? Z.of_nat (length legs) - 1
  then let k := on_state (set_phase (if offPlan then Transferring else PhaseArrived)) k in
       if offPlan then k else emit fingerprint (TArrival index) k
  else resetLeg (index + 1) k.

(** The action, when it is valid. *)
Definition take_action (targets : list TransitLegTargets) (accepted : option FixInput)
    (a : TransitRiderAction) (k : Tick) : Tick :=
  let t := tk_state k in
  let index := t_currentLegIndex t in
  match act_type a with
  | Undo => match t_lastAction t with
            | Some previous => on_state (undo_action (la_previous previous) nowMs) k
            | None => k
            end
  | Continue => board_leg (boardIndex Continue index) (on_state (remember_action DidContinue a) k)
  | Board => board_leg (boardIndex Board index) (on_state (remember_action DidBoard a) k)
  | Alight =>
      let position := match accepted with Some _ => accepted | None => t_lastAcceptedFix t end in
      alight_leg (alights_off_plan targets index position) index
        (on_state (remember_action DidAlight a) k)
  end.

(** ** What a position says *)

Local Open Scope num_scope.

Definition corridor (fix_ : FixInput) : number := 25 + num_min (fix_accuracy fix_) 25.

(** Aboard: the stops ahead, and whether the rider's own is near. *)
Definition follow_ride (leg : option json) (index : Z) (indexed : option PreparedTransitLeg)
    (fix_ : FixInput) (k : Tick) : outcome Tick :=
  match List.find (captures_leg leg index) captures with
  | None => Ok k
  | Some capture =>
      let t := tk_state k in
      progress ← advanceTransitStopCursor (tc_stops capture) indexed fix_ (t_lastAcceptedFix t)
                   (default 1%Z (t_stopCursor t)) (default (num_of_Z 0) (t_alongMeters t)) (t_stopTracking t);
      let cursor := adv_cursor progress in
      let k := on_state (fun t =>
        set_progressConfidence (if adv_trusted progress then PcGps else PcUncertain)
          (set_stops cursor (adv_alongMeters progress) (adv_tracking progress) t)) k in
      Ok (if adv_trusted progress && isApproachingTransitAlight (tc_stops capture) cursor (fix_coords fix_)
          then emit fingerprint
                 (TApproachingAlight index (Z.max 1 (Z.of_nat (length (tc_stops capture)) - cursor))) k
          else k)
  end.

(** [steps.reduce((n, s) => n + s.distanceMeters, 0)] *)
Definition meters_of (steps : list json) : number := foldl (fun n s => n + step_meters s) 0 steps.

(** The ends of steps without a geometry of their own, as the step gate sums them. *)
Fixpoint step_ends (reached : number) (steps : list json) : list number :=
  match steps with
  | [] => []
  | s :: r => let reached := reached + step_meters s in reached :: step_ends reached r
  end.

(** [advanceStepGate] on a walk's steps. *)
Definition walk_gate (steps : list json) (along : number) (prev : StepGateState) : StepGateState :=
  let opts := navOptionsForMode Walking in
  let lastIndex := (Z.of_nat (length steps) - 1)%Z in
  if (lastIndex <=? 0)%Z then {| committedStepIndex := 0; reachedStepEnd := false |}
  else gate (step_ends 0 steps) lastIndex along (stepGateEntryMeters opts) (stepGateExitMeters opts) prev.

Definition follow_steps (steps : list json) (indexed : PreparedTransitLeg) (snap : SnapResult)
    (t : TransitTickState) : TransitTickState :=
  let total := meters_of steps in
  let length_ := ptl_lengthMeters indexed in
  let along := if length_ >? 0 then snap_alongMeters snap / length_ * total else 0 in
  let gate := walk_gate steps along
    {| committedStepIndex := t_currentWalkStepIndex t; reachedStepEnd := default false (t_reachedStepEnd t) |} in
  let step := Z.min (committedStepIndex gate) (t_currentWalkStepIndex t + 1) in
  set_walk step (reachedStepEnd gate)
    (num_max 0 (meters_of (take (Z.to_nat (step + 1)) steps) - along)) t.

(** Where a leg on foot ends: its target, or a circle at the end of its line. *)
Definition walk_target (targets : list TransitLegTargets) (leg : option json) (index : Z) : list StopAreaShape :=
  match target_end targets index with
  | Some shapes => shapes
  | None => match leg_endpoint leg with
            | Ok (Some endpoint) => [AreaPoint endpoint 20]
            | _ => []
            end
  end.

(** On foot: the steps, and whether the end is reached. *)
Definition follow_walk (targets : list TransitLegTargets) (leg : option json) (index : Z)
    (matched : option (PreparedTransitLeg * SnapResult)) (fix_ : FixInput) (k : Tick) : Tick :=
  let k := match matched with
           | Some (indexed, snap) =>
               if snap_deviationMeters snap <=? corridor fix_
               then on_state (follow_steps (leg_steps leg) indexed snap) k else k
           | None => k
           end in
  if isWithinStopArea (walk_target targets leg index) (fix_coords fix_) (fix_accuracy fix_)
  then let k := on_state (set_offPlan false) k in
       if (index =? Z.of_nat (length legs) - 1)%Z
       then emit fingerprint (TArrival index) (on_state (set_phase PhaseArrived) k)
       else resetLeg (index + 1) k
  else k.

(** A ride not yet boarded leaves from another platform than planned. *)
Definition watch_platform (leg : option json) (index : Z) (k : Tick) : Tick :=
  let board := selectLegPlatform leg index captures AtDeparture in
  match sp_code board with
  | Some code =>
      if isTransitRide leg && negb (bool_decide (t_phase (tk_state k) = Riding))
         && sp_changed board && negb (String.eqb code "")
      then emit fingerprint (TPlatformChange index code) k else k
  | None => k
  end.

Definition snap_leg (indexed : option PreparedTransitLeg) (fix_ : FixInput)
    : outcome (option (PreparedTransitLeg * SnapResult)) :=
  match indexed with
  | None => Ok None
  | Some leg => snap ← snapPreparedRoute (ptl_matcher leg) (fix_coords fix_) None; Ok (Some (leg, snap))
  end.

Definition follow_fix (targets : list TransitLegTargets) (prepared : list (option PreparedTransitLeg))
    (fix_ : FixInput) (k : Tick) : outcome Tick :=
  let index := t_currentLegIndex (tk_state k) in
  let leg := leg_at legs index in
  let indexed := prepared_leg prepared index in
  matched ← snap_leg indexed fix_;
  let confidence := match matched with
                    | Some (_, snap) => if snap_deviationMeters snap >? corridor fix_ then PcUncertain else PcGps
                    | None => PcGps
                    end in
  let k := on_state (set_progressConfidence confidence) k in
  let active := match leg with
                | None | Some JNull => false
                | Some _ => negb (bool_decide (t_phase (tk_state k) = PhaseArrived))
                end in
  k ← (if negb active then Ok k
       else k ← (if bool_decide (t_phase (tk_state k) = Riding) then follow_ride leg index indexed fix_ k
                 else if isTransitRide leg then Ok k
                 else _ ← leg_endpoint leg; Ok (follow_walk targets leg index matched fix_ k));
            Ok (watch_platform leg index k));
  Ok (on_state (set_acceptedFix fix_ nowMs) k).

Local Close Scope num_scope.

(** Progress is stale without a position of the last thirty seconds. *)
Definition settle_confidence (t : TransitTickState) : TransitTickState :=
  match t_lastAcceptedFix t with
  | Some f => if 30000 <? nowMs - fix_timestampMs f then set_progressConfidence PcStale t else t
  | None => set_progressConfidence PcStale t
  end.

Definition confidence_of (t : TransitTickState) : Confidence :=
  match t_progressConfidence t with Some PcStale => ConfStale | _ => ConfGps end.
End engine.

Definition processTransitFix `{MathFunctions} `{Turf} (itinerary : Itinerary)
    (captures : list TransitLegCapture) (state : TransitTickState) (fix_ : option FixInput)
    (action : option TransitRiderAction) (nowMs : Z) (options : TransitTickOptions)
    (prepared : list (option PreparedTransitLeg)) (stopAreas : list (string * TransitStopArea))
    : outcome TransitTickResult :=
  let legs := legs_of itinerary in
  let fingerprint := itineraryFingerprint options in
  let k := {| tk_state := settle_phase legs state; tk_events := [] |} in
  targets ← resolveTransitLegTargets stopAreas itinerary;
  let rejected := fix_ ≫= rejectedReason nowMs (accuracyCap options) (t_lastAcceptedFix (tk_state k)) in
  let accepted := match rejected with Some _ => None | None => fix_ end in
  let '(k, actionRejected) :=
    match action with
    | None => (k, false)
    | Some a => if action_valid legs nowMs a (tk_state k)
                then (take_action legs nowMs fingerprint targets accepted a k, false)
                else (k, true)
    end in
  k ← match accepted with
      | Some f => follow_fix legs captures nowMs fingerprint targets prepared f k
      | None => Ok k
      end;
  let t := settle_confidence nowMs (tk_state k) in
  Ok {| res_state := t; res_events := tk_events k; res_confidence := confidence_of t;
        res_needsReplan := false; res_actionRejected := actionRejected;
        res_rejectedReason := rejected |}.

(** ** What the page is shown *)

Record TransitProgress := {
  tpr_currentLegIndex : Z;
  tpr_position : option (LngLat * Z);
  tpr_snapped : LngLat;
  tpr_fractionAlongLeg : number;
  tpr_deviationMeters : number;
  tpr_arrived : bool;
  tpr_phase : TransitPhase;
  tpr_confidence : ProgressConfidence;
  tpr_stopCursor : Z;
  tpr_currentWalkStepIndex : Z;
  tpr_walkRevision : Z;
  tpr_distanceToNextStepMeters : option number;
  tpr_offPlan : option bool;
  tpr_canUndo : bool;
  tpr_lastActionLegIndex : option Z;
  tpr_lastActionAtMs : option Z;
}.

(** [transitProgressFromTick]: the last accepted position on its leg. *)
Definition transitProgressFromTick `{MathFunctions} `{Turf} (t : TransitTickState)
    (prepared : list (option PreparedTransitLeg)) : outcome TransitProgress :=
  let indexed := prepared_leg prepared (t_currentLegIndex t) in
  matched ← match t_lastAcceptedFix t with Some f => snap_leg indexed f | None => Ok None end;
  Ok {| tpr_currentLegIndex := t_currentLegIndex t;
        tpr_position := (fun f => (fix_coords f, fix_timestampMs f)) <$> t_lastAcceptedFix t;
        tpr_snapped := match matched, t_lastAcceptedFix t with
                       | Some (_, snap), _ => snap_snapped snap
                       | None, Some f => fix_coords f
                       | None, None => (num_of_Z 0, num_of_Z 0)
                       end;
        tpr_fractionAlongLeg :=
          match matched with
          | Some (leg, snap) =>
              if num_lt (num_of_Z 0) (ptl_lengthMeters leg)
              then num_div (snap_alongMeters snap) (ptl_lengthMeters leg) else num_of_Z 0
          | None => num_of_Z 0
          end;
        tpr_deviationMeters := match matched with Some (_, snap) => snap_deviationMeters snap | None => num_of_Z 0 end;
        tpr_arrived := bool_decide (t_phase t = PhaseArrived);
        tpr_phase := t_phase t;
        tpr_confidence := default PcStale (t_progressConfidence t);
        tpr_stopCursor := default 1 (t_stopCursor t);
        tpr_currentWalkStepIndex := t_currentWalkStepIndex t;
        tpr_walkRevision := default 0 (t_walkRevision t);
        tpr_distanceToNextStepMeters := t_distanceToNextStepMeters t;
        tpr_offPlan := t_offPlan t;
        tpr_canUndo := match t_lastAction t with Some _ => true | None => false end;
        tpr_lastActionLegIndex := la_legIndex <$> t_lastAction t;
        tpr_lastActionAtMs := la_atMs <$> t_lastAction t |}.
