(* ===== verification/TransitEngineFacts.v ===== *)
(** * What the transit engine guarantees

    Facts about processTransitFix.ts: what it may tell, who may move a rider, what
    an undo restores, that a rejected position counts for nothing, and that it
    always answers. *)

From S2P Require Import Prelude Text Doubles Protocol RouteMatcher RouteMatcherFacts Waypoints Maneuver Progress Session Itinerary StopAreas Captures StopCursor Guidance TransitEngine.

(** ** Ledgers *)

Lemma keep_last_drop n l : keep_last n l = drop (length l - n) l.
Proof.
  unfold keep_last. destruct (n <? length l)%nat eqn:E; [done|]. apply Nat.ltb_ge in E.
  replace (length l - n)%nat with 0%nat by lia. by rewrite drop_0.
Qed.

(** Trimming once at the end is trimming after every addition. *)
Lemma keep_last_twice n a b : keep_last n (keep_last n a ++ b) = keep_last n (a ++ b).
Proof.
  rewrite !keep_last_drop, length_app, length_drop, length_app.
  destruct (decide (length a <= n)%nat).
  - replace (length a - n)%nat with 0%nat by lia. rewrite drop_0. f_equal. lia.
  - destruct (decide (length b <= n)%nat).
    + rewrite (drop_app_le a) by lia. rewrite drop_app_le by (rewrite length_drop; lia).
      rewrite drop_drop. f_equal. f_equal. lia.
    + rewrite (drop_app_ge a) by lia. rewrite drop_app_ge by (rewrite length_drop; lia).
      rewrite length_drop. f_equal. lia.
Qed.

(** ** What a step of a tick may tell *)

Definition ids (l : list TransitNavigationEvent) : list string := map ev_id l.
Definition emitted (k : Tick) : list string := t_emittedEventIds (tk_state k).

(** Equal ids lie more than [n] places apart. *)
Definition kept_apart (n : nat) (l : list string) : Prop :=
  forall i j x, (i < j)%nat -> l !! i = Some x -> l !! j = Some x -> (n < j - i)%nat.

(** So no [n] neighbours repeat one. *)
Lemma apart_window n l k : kept_apart n l -> NoDup (take n (drop k l)).
Proof.
  intros Hl. apply NoDup_alt. intros i j x Hi Hj. rewrite lookup_take_Some, lookup_drop in Hi, Hj.
  destruct Hi as [Hi Hin], Hj as [Hj Hjn]. destruct (Nat.lt_trichotomy i j) as [Hlt|[->|Hlt]]; [|done|].
  - pose proof (Hl (k + i)%nat (k + j)%nat x ltac:(lia) Hi Hj). lia.
  - pose proof (Hl (k + j)%nat (k + i)%nat x ltac:(lia) Hj Hi). lia.
Qed.

Lemma NoDup_apart n l : NoDup l -> kept_apart n l.
Proof. intros Hl i j x Hij Hi Hj. rewrite NoDup_alt in Hl. pose proof (Hl i j x Hi Hj). lia. Qed.

Lemma apart_snoc n h x : kept_apart n h -> x ∉ keep_last n h -> kept_apart n (h ++ [x]).
Proof.
  intros Hh Hx i j y Hij Hi Hj. rewrite keep_last_drop in Hx.
  apply lookup_app_Some in Hj as [Hj|[Hle Hj]].
  - apply (Hh i j y Hij); [|exact Hj]. rewrite lookup_app_l in Hi; [exact Hi|]. apply lookup_lt_Some in Hj. lia.
  - destruct (j - length h)%nat as [|d] eqn:Ed; [|by destruct d]. injection Hj as ->.
    rewrite lookup_app_l in Hi by lia. apply Nat.nle_gt. intros Hclose. apply Hx.
    apply list_elem_of_lookup. exists (i - (length h - n))%nat. rewrite lookup_drop.
    replace (length h - n + (i - (length h - n)))%nat with i by lia. exact Hi.
Qed.

(** Only new events are added, each with its id in the ledger, and an event whose id
    is in the ledger is not told again: over any history [h] the ledger is the end of,
    equal ids stay as far apart as the ledger is long. *)
Definition tells (fingerprint : string) (k k' : Tick) : Prop :=
  exists new, tk_events k' = tk_events k ++ new /\
    emitted k' = keep_last MAX_EMITTED (emitted k ++ ids new) /\
    Forall (fun e => ev_id e = event_id fingerprint (ev_body e)) new /\
    (forall h, emitted k = keep_last MAX_EMITTED h -> kept_apart MAX_EMITTED h ->
       kept_apart MAX_EMITTED (h ++ ids new)).

Section tells.
Variable fingerprint : string.
Notation tells := (tells fingerprint).

Lemma tells_refl k : (length (emitted k) <= MAX_EMITTED)%nat -> tells k k.
Proof.
  intros Hk. exists []. cbn. rewrite !app_nil_r, keep_last_small by done. split_and!; [done..|].
  intros h _ Hh. by rewrite app_nil_r.
Qed.

Lemma tells_bound k k' : tells k k' -> (length (emitted k') <= MAX_EMITTED)%nat.
Proof. intros (new & _ & -> & _). apply keep_last_length. Qed.

Lemma tells_trans k1 k2 k3 : tells k1 k2 -> tells k2 k3 -> tells k1 k3.
Proof.
  intros (n & H1 & H2 & H3 & H4) (m & G1 & G2 & G3 & G4). exists (n ++ m).
  unfold ids in *. rewrite map_app, !app_assoc. split_and!.
  - by rewrite G1, H1.
  - by rewrite G2, H2, keep_last_twice.
  - by apply Forall_app.
  - intros h Eh Hh. rewrite app_assoc. apply G4; [|by apply H4]. by rewrite H2, Eh, keep_last_twice.
Qed.

Lemma on_state_tells f k :
  (forall t, t_emittedEventIds (f t) = t_emittedEventIds t) ->
  (length (emitted k) <= MAX_EMITTED)%nat -> tells k (on_state f k).
Proof.
  intros Hf Hk. exists []. cbn. rewrite app_nil_r. unfold emitted in *. cbn. rewrite Hf, app_nil_r.
  rewrite keep_last_small by done. split_and!; [done..|]. intros h _ Hh. by rewrite app_nil_r.
Qed.

Lemma emit_tells body k : (length (emitted k) <= MAX_EMITTED)%nat -> tells k (emit fingerprint body k).
Proof.
  intros Hk. unfold emit. destruct (includes _ _) eqn:E; [by apply tells_refl|].
  apply includes_false in E. exists [{| ev_id := event_id fingerprint body; ev_body := body |}].
  split_and!; try done.
  - by repeat constructor.
  - intros h Eh Hh. cbn. apply apart_snoc; [done|]. by rewrite <- Eh.
Qed.

Lemma reset_leg_tells legs nowMs i k : (length (emitted k) <= MAX_EMITTED)%nat ->
  tells k (resetLeg legs nowMs fingerprint i k).
Proof.
  intros Hk. unfold resetLeg. cbv zeta. eapply tells_trans; [|apply on_state_tells; [done|]].
  - destruct (_ =? _); [by apply tells_refl|by apply emit_tells].
  - destruct (_ =? _); [done|]. eapply tells_bound. by apply emit_tells.
Qed.
End tells.

Create HintDb tick.
#[export] Hint Resolve tells_refl on_state_tells emit_tells reset_leg_tells tells_bound : tick.

(** One step after another: each is a step of the library. *)
Ltac tell :=
  repeat match goal with
  | |- context [if ?b then _ else _] => destruct b eqn:?
  | |- context [match ?x with Some _ => _ | None => _ end] => destruct x eqn:?
  end;
  eauto 6 with tick.

Lemma tells_on_state fp k k' f : tells fp k k' ->
  (forall t, t_emittedEventIds (f t) = t_emittedEventIds t) -> tells fp k (on_state f k').
Proof. intros Hk Hf. eapply tells_trans; [exact Hk|]. apply on_state_tells; [done|by eapply tells_bound]. Qed.

Lemma tells_emit fp k k' body : tells fp k k' -> tells fp k (emit fp body k').
Proof. intros Hk. eapply tells_trans; [exact Hk|]. apply emit_tells. by eapply tells_bound. Qed.

Lemma tells_reset fp legs nowMs k k' i : tells fp k k' -> tells fp k (resetLeg legs nowMs fp i k').
Proof. intros Hk. eapply tells_trans; [exact Hk|]. apply reset_leg_tells. by eapply tells_bound. Qed.

#[export] Hint Resolve tells_on_state tells_emit tells_reset : tick.

Section told.
Context `{MathFunctions} `{Turf}.
Variables (legs : list json) (captures : list TransitLegCapture) (nowMs : Z) (fingerprint : string).
Notation tells := (tells fingerprint).

Lemma take_action_tells targets accepted a k k0 : tells k0 k ->
  tells k0 (take_action legs nowMs fingerprint targets accepted a k).
Proof.
  intros Hk. unfold take_action, board_leg, alight_leg. cbv zeta.
  destruct (act_type a); tell.
Qed.

Lemma follow_walk_tells targets leg i matched f k k0 : tells k0 k ->
  tells k0 (follow_walk legs nowMs fingerprint targets leg i matched f k).
Proof. intros Hk. unfold follow_walk. cbv zeta. destruct matched as [[??]|]; tell. Qed.

Lemma watch_platform_tells leg i k k0 : tells k0 k ->
  tells k0 (watch_platform captures fingerprint leg i k).
Proof. intros Hk. unfold watch_platform. cbv zeta. tell. Qed.

Lemma follow_ride_tells leg i indexed f k k' k0 : tells k0 k ->
  follow_ride captures fingerprint leg i indexed f k = Ok k' -> tells k0 k'.
Proof.
  intros Hk. unfold follow_ride. destruct (List.find _ _); [|by intros <-%Ok_inj].
  cbv zeta. intros (p & _ & <-%Ok_inj)%outcome_bind_ok. tell.
Qed.

Lemma follow_fix_tells targets prepared f k k' k0 : tells k0 k ->
  follow_fix legs captures nowMs fingerprint targets prepared f k = Ok k' -> tells k0 k'.
Proof.
  intros Hk. unfold follow_fix. cbv zeta.
  intros (m & _ & (k1 & Hk1 & <-%Ok_inj)%outcome_bind_ok)%outcome_bind_ok.
  apply tells_on_state; [|done].
  set (k2 := on_state _ k) in Hk1. assert (tells k0 k2) as Hk2 by (by apply tells_on_state).
  destruct (negb _); [by apply Ok_inj in Hk1 as <-|].
  apply outcome_bind_ok in Hk1 as (k3 & Hk3 & <-%Ok_inj). apply watch_platform_tells.
  destruct (bool_decide _); [by eapply follow_ride_tells|].
  destruct (isTransitRide _); [apply Ok_inj in Hk3 as <-; done|apply outcome_bind_ok in Hk3 as (? & _ & <-%Ok_inj); by apply follow_walk_tells].
Qed.
End told.

(** ** One tick *)

(** The parts of a tick that answered. *)
Record tick_parts `{MathFunctions} `{Turf} (itinerary : Itinerary) (captures : list TransitLegCapture)
    (state : TransitTickState) (fix_ : option FixInput) (action : option TransitRiderAction) (nowMs : Z)
    (options : TransitTickOptions) (prepared : list (option PreparedTransitLeg))
    (stopAreas : list (string * TransitStopArea)) (r : TransitTickResult)
    (targets : list TransitLegTargets) (acted followed : Tick) : Prop := {
  tick_targets : resolveTransitLegTargets stopAreas itinerary = Ok targets;
  tick_rejected : res_rejectedReason r =
    fix_ ≫= rejectedReason nowMs (accuracyCap options)
              (t_lastAcceptedFix (settle_phase (legs_of itinerary) state));
  tick_acted :
    let k := {| tk_state := settle_phase (legs_of itinerary) state; tk_events := [] |} in
    let accepted := match res_rejectedReason r with Some _ => None | None => fix_ end in
    match action with
    | Some a =>
        res_actionRejected r = negb (action_valid (legs_of itinerary) nowMs a (tk_state k)) /\
        acted = if res_actionRejected r then k
                else take_action (legs_of itinerary) nowMs (itineraryFingerprint options) targets accepted a k
    | None => res_actionRejected r = false /\ acted = k
    end;
  tick_followed :
    match (match res_rejectedReason r with Some _ => None | None => fix_ end) with
    | Some f => follow_fix (legs_of itinerary) captures nowMs (itineraryFingerprint options)
                  targets prepared f acted = Ok followed
    | None => followed = acted
    end;
  tick_state : res_state r = settle_confidence nowMs (tk_state followed);
  tick_events : res_events r = tk_events followed;
}.

Section ticks.
Context `{MathFunctions} `{Turf}.
Variables (itinerary : Itinerary) (captures : list TransitLegCapture) (options : TransitTickOptions).
Variables (prepared : list (option PreparedTransitLeg)) (stopAreas : list (string * TransitStopArea)).
Notation process state fix_ action nowMs :=
  (processTransitFix itinerary captures state fix_ action nowMs options prepared stopAreas).

Lemma process_parts state fix_ action nowMs r : process state fix_ action nowMs = Ok r ->
  exists targets acted followed,
    tick_parts itinerary captures state fix_ action nowMs options prepared stopAreas r targets acted followed.
Proof.
  unfold processTransitFix. cbv zeta. intros (targets & Ht & Hr)%outcome_bind_ok.
  set (k := {| tk_state := settle_phase (legs_of itinerary) state; tk_events := [] |}) in *.
  set (rej := fix_ ≫= _) in *.
  set (accepted := match rej with Some _ => None | None => fix_ end) in *.
  set (act := match action with Some a => _ | None => _ end) in Hr.
  destruct act as [acted ar] eqn:Ea. subst act. apply outcome_bind_ok in Hr as (followed & Hf & <-%Ok_inj).
  exists targets, acted, followed. split; cbn; try done.
  - destruct action as [a|]; [|by simplify_eq]. destruct (action_valid _ _ _ _); by simplify_eq.
  - fold accepted. destruct accepted; [done|]. by apply Ok_inj in Hf.
Qed.

Lemma settle_phase_emitted t : t_emittedEventIds (settle_phase (legs_of itinerary) t) = t_emittedEventIds t.
Proof. unfold settle_phase. by repeat case_match. Qed.

Lemma settle_confidence_emitted nowMs t : t_emittedEventIds (settle_confidence nowMs t) = t_emittedEventIds t.
Proof. unfold settle_confidence. by destruct (t_lastAcceptedFix t); [case_match|]. Qed.

Lemma process_tells state fix_ action nowMs r :
  (length (t_emittedEventIds state) <= MAX_EMITTED)%nat -> process state fix_ action nowMs = Ok r ->
  tells (itineraryFingerprint options) {| tk_state := state; tk_events := [] |}
    {| tk_state := res_state r; tk_events := res_events r |}.
Proof.
  intros Hb (targets & acted & followed & [Ht Hrej Ha Hf Hs He])%process_parts.
  set (k0 := {| tk_state := state; tk_events := [] |}).
  set (k := {| tk_state := settle_phase (legs_of itinerary) state; tk_events := [] |}) in *. cbv zeta in Ha.
  assert (tells (itineraryFingerprint options) k0 k) as Hk.
  { change k with (on_state (settle_phase (legs_of itinerary)) k0).
    apply on_state_tells; [apply settle_phase_emitted|done]. }
  assert (tells (itineraryFingerprint options) k0 acted) as Hacted.
  { destruct action as [a|]; [|by destruct Ha as [_ ->]]. destruct Ha as [_ ->].
    destruct (res_actionRejected r); [done|by apply take_action_tells]. }
  assert (tells (itineraryFingerprint options) k0 followed) as Hfollowed.
  { destruct (match res_rejectedReason r with Some _ => _ | None => _ end); [|by subst].
    by eapply follow_fix_tells. }
  rewrite Hs, He. change {| tk_state := _; tk_events := _ |} with (on_state (settle_confidence nowMs) followed).
  apply tells_on_state; [done|apply settle_confidence_emitted].
Qed.

(** ** A whole journey *)

(** What reaches the engine at one time. *)
Record TickInput := {
  in_fix : option FixInput;
  in_action : option TransitRiderAction;
  in_nowMs : Z;
}.

(** Ticks one after the other, and all they told. *)
Fixpoint journey (state : TransitTickState) (inputs : list TickInput)
    : outcome (list TransitNavigationEvent * TransitTickState) :=
  match inputs with
  | [] => Ok ([], state)
  | i :: rest =>
      r ← process state (in_fix i) (in_action i) (in_nowMs i);
      told ← journey (res_state r) rest;
      Ok (res_events r ++ told.1, told.2)
  end.

Lemma journey_tells state inputs told : (length (t_emittedEventIds state) <= MAX_EMITTED)%nat ->
  journey state inputs = Ok told ->
  tells (itineraryFingerprint options) {| tk_state := state; tk_events := [] |}
    {| tk_state := told.2; tk_events := told.1 |}.
Proof.
  revert state told. induction inputs as [|i rest IH]; intros state told Hb; cbn [journey].
  { intros <-%Ok_inj. by apply tells_refl. }
  intros (r & Hr & (t & Ht & <-%Ok_inj)%outcome_bind_ok)%outcome_bind_ok. cbn [fst snd].
  apply process_tells in Hr; [|done]. pose proof (tells_bound _ _ _ Hr) as Hb'.
  apply IH in Ht; [|done]. destruct Ht as (n & E1 & E2 & E3 & E4). cbn in E1.
  eapply tells_trans; [exact Hr|]. exists n. unfold emitted in *. cbn in *. by rewrite E1.
Qed.

(** C20: A rider is told everything once, as far back as the ledger of ids reaches: over a
    whole journey, from a state whose ledger has no id twice and at most 512, every
    event told has the id of its content; in the sequence of the ledger's ids and all
    that are told after them equal ids lie more than 512 places apart, so that no id is
    repeated among any 512 in a row; and the ledger that is left is the last 512 ids of
    that sequence. *)
Theorem no_transit_event_is_told_twice state inputs told :
  NoDup (t_emittedEventIds state) -> (length (t_emittedEventIds state) <= 512)%nat ->
  journey state inputs = Ok told ->
  let history := t_emittedEventIds state ++ map ev_id told.1 in
  Forall (fun e => ev_id e = event_id (itineraryFingerprint options) (ev_body e)) told.1 /\
  (forall i j x, (i < j)%nat -> history !! i = Some x -> history !! j = Some x -> (512 < j - i)%nat) /\
  (forall k, NoDup (take 512 (drop k history))) /\
  t_emittedEventIds told.2 = drop (length history - 512) history.
Proof.
  intros Hnd Hb Ht%journey_tells; [|done]. destruct Ht as (n & E1 & E2 & E3 & E4). cbn in E1. subst n.
  unfold emitted, ids in *. cbn [tk_state tk_events] in *. cbv zeta.
  assert (kept_apart MAX_EMITTED (t_emittedEventIds state ++ map ev_id told.1)) as Hs.
  { apply E4; [by rewrite keep_last_small|by apply NoDup_apart]. }
  split_and!; [done|exact Hs|intros k; by apply (apart_window MAX_EMITTED)|]. by rewrite E2, keep_last_drop.
Qed.
End ticks.

(** ** Where the rider is *)

(** The leg and the phase. *)
Definition place_of (t : TransitTickState) : Z * TransitPhase := (t_currentLegIndex t, t_phase t).

Lemma emit_state fp body k : exists l, tk_state (emit fp body k) = set_emitted l (tk_state k).
Proof.
  unfold emit. destruct (includes _ _); [|by eexists].
  exists (t_emittedEventIds (tk_state k)). by destruct k as [[] ?].
Qed.

Lemma emit_place fp body k : place_of (tk_state (emit fp body k)) = place_of (tk_state k).
Proof. destruct (emit_state fp body k) as [l ->]. done. Qed.

Lemma reset_leg_place legs nowMs fp i k :
  place_of (tk_state (resetLeg legs nowMs fp i k)) = (i, phase_of_leg legs i).
Proof. done. Qed.

Section places.
Context `{MathFunctions} `{Turf}.
Variables (legs : list json) (captures : list TransitLegCapture) (nowMs : Z) (fingerprint : string).

Lemma watch_platform_state leg i k :
  exists l, tk_state (watch_platform captures fingerprint leg i k) = set_emitted l (tk_state k).
Proof.
  assert (exists l, tk_state k = set_emitted l (tk_state k)) as Hk.
  { exists (t_emittedEventIds (tk_state k)). by destruct k as [[] ?]. }
  unfold watch_platform. cbv zeta. destruct (sp_code _); [|done].
  destruct (_ && _); [apply emit_state|done].
Qed.

Lemma follow_ride_place leg i indexed f k k' :
  follow_ride captures fingerprint leg i indexed f k = Ok k' ->
  place_of (tk_state k') = place_of (tk_state k).
Proof.
  unfold follow_ride. destruct (List.find _ _); [|by intros <-%Ok_inj].
  cbv zeta. intros (p & _ & <-%Ok_inj)%outcome_bind_ok. destruct (_ && _); [by rewrite emit_place|done].
Qed.

(** The end of a leg on foot, reached. *)
Definition reaches_end (targets : list TransitLegTargets) (i : Z) (f : FixInput) : Prop :=
  isTransitRide (leg_at legs i) = false /\
  isWithinStopArea (walk_target targets (leg_at legs i) i) (fix_coords f) (fix_accuracy f) = true.

(** Where a rider who reaches the end of leg [i] is. *)
Definition after_walk (i : Z) : Z * TransitPhase :=
  if i =? Z.of_nat (length legs) - 1 then (i, PhaseArrived) else (i + 1, phase_of_leg legs (i + 1)).

Lemma follow_walk_place targets leg i matched f k : t_currentLegIndex (tk_state k) = i ->
  place_of (tk_state (follow_walk legs nowMs fingerprint targets leg i matched f k)) =
  if isWithinStopArea (walk_target targets leg i) (fix_coords f) (fix_accuracy f)
  then after_walk i else place_of (tk_state k).
Proof.
  intros Hi. unfold follow_walk, after_walk. cbv zeta.
  set (k1 := match matched with Some _ => _ | None => k end).
  assert (place_of (tk_state k1) = place_of (tk_state k)) as Hk1.
  { subst k1. destruct matched as [[??]|]; [|done]. by destruct (num_le _ _). }
  destruct (isWithinStopArea _ _ _); [|done].
  destruct (i =? _); [|by rewrite reset_leg_place].
  rewrite emit_place. unfold place_of. cbn. injection Hk1 as -> _. by rewrite Hi.
Qed.

Lemma follow_fix_place targets prepared f k k' :
  follow_fix legs captures nowMs fingerprint targets prepared f k = Ok k' ->
  let t := tk_state k in
  let i := t_currentLegIndex t in
  place_of (tk_state k') = place_of t \/
  (t_phase t <> Riding /\ t_phase t <> PhaseArrived /\ reaches_end targets i f /\
   place_of (tk_state k') = after_walk i).
Proof.
  unfold follow_fix. cbv zeta.
  intros (m & _ & (k1 & Hk1 & <-%Ok_inj)%outcome_bind_ok)%outcome_bind_ok.
  set (i := t_currentLegIndex (tk_state k)) in *. set (k2 := on_state _ k) in Hk1.
  change (place_of (tk_state (on_state (set_acceptedFix f nowMs) k1))) with (place_of (tk_state k1)).
  change (place_of (tk_state k)) with (place_of (tk_state k2)).
  change (t_phase (tk_state k)) with (t_phase (tk_state k2)).
  destruct (match leg_at legs i with Some JNull | None => false | Some _ => _ end) eqn:Eactive; cbn [negb] in Hk1.
  2:{ apply Ok_inj in Hk1 as <-. by left. }
  apply outcome_bind_ok in Hk1 as (k3 & Hk3 & <-%Ok_inj).
  destruct (watch_platform_state (leg_at legs i) i k3) as [l Hl].
  assert (place_of (tk_state (watch_platform captures fingerprint (leg_at legs i) i k3)) = place_of (tk_state k3)) as ->
    by (by rewrite Hl).
  destruct (bool_decide_reflect (t_phase (tk_state k2) = Riding)) as [Hr|Hr].
  { left. by eapply follow_ride_place. }
  destruct (isTransitRide (leg_at legs i)) eqn:Er; [apply Ok_inj in Hk3 as <-; by left|].
  apply outcome_bind_ok in Hk3 as (? & _ & <-%Ok_inj).
  rewrite follow_walk_place by done.
  destruct (isWithinStopArea _ _ _) eqn:Ew; [|by left]. right.
  split_and!; [done| |by split|done].
  intros Ha. rewrite Ha in Eactive. by destruct (leg_at legs i) as [[]|].
Qed.
End places.

(** C9: A position never boards a vehicle and never gets off one: without an action the
    rider is aboard after a tick exactly if they were before, and on the same leg;
    they leave a leg only on foot, by one, with an accepted position inside the area
    it ends in, and arrive only at the end of the last one.  Without such a position
    nothing moves, whatever the clock says. *)
Theorem positions_never_board_or_alight `{MathFunctions} `{Turf} itinerary captures state fix_ nowMs
    options prepared stopAreas r :
  processTransitFix itinerary captures state fix_ None nowMs options prepared stopAreas = Ok r ->
  let legs := legs_of itinerary in
  let t := settle_phase legs state in
  let i := t_currentLegIndex t in
  (t_phase (res_state r) = Riding <-> t_phase t = Riding) /\
  (t_phase t = Riding -> t_currentLegIndex (res_state r) = i) /\
  (place_of (res_state r) = place_of t \/
   exists targets f, fix_ = Some f /\ res_rejectedReason r = None /\
     resolveTransitLegTargets stopAreas itinerary = Ok targets /\
     t_phase t <> Riding /\ t_phase t <> PhaseArrived /\ reaches_end legs targets i f /\
     place_of (res_state r) = after_walk legs i).
Proof.
  intros (targets & acted & followed & [Ht Hrej Ha Hf Hs He])%process_parts. cbv zeta in *.
  destruct Ha as [_ ->]. rewrite Hs.
  assert (forall t, place_of (settle_confidence nowMs t) = place_of t) as Hc.
  { intros t'. unfold settle_confidence. destruct (t_lastAcceptedFix t'); [destruct (_ <? _)|]; done. }
  set (t := settle_phase (legs_of itinerary) state) in *. set (legs := legs_of itinerary) in *.
  assert (place_of (tk_state followed) = place_of t \/
    exists targets f, fix_ = Some f /\ res_rejectedReason r = None /\
     resolveTransitLegTargets stopAreas itinerary = Ok targets /\
     t_phase t <> Riding /\ t_phase t <> PhaseArrived /\ reaches_end legs targets (t_currentLegIndex t) f /\
     place_of (tk_state followed) = after_walk legs (t_currentLegIndex t)) as Hmove.
  { destruct (res_rejectedReason r); [subst; by left|]. destruct fix_ as [f|]; [|subst; by left].
    apply follow_fix_place in Hf as [Hf|(H1 & H2 & H3 & H4)]; [by left|]. right. by exists targets, f. }
  rewrite Hc. split_and!; [| |exact Hmove].
  - change (t_phase (settle_confidence nowMs (tk_state followed)))
      with ((place_of (settle_confidence nowMs (tk_state followed))).2).
    rewrite Hc. destruct Hmove as [->|(tg & f & _ & _ & _ & H1 & _ & _ & ->)]; [done|].
    split; [|done]. unfold after_walk, phase_of_leg. destruct (_ =? _); [done|]. cbn. by destruct (isTransitRide _).
  - intros Hr. change (t_currentLegIndex (settle_confidence nowMs (tk_state followed)))
      with ((place_of (settle_confidence nowMs (tk_state followed))).1).
    rewrite Hc. by destruct Hmove as [->|(tg & f & _ & _ & _ & H1 & _)].
Qed.

(** ** What an undo restores *)

Lemma emit_lastAction fp body k : t_lastAction (tk_state (emit fp body k)) = t_lastAction (tk_state k).
Proof. destruct (emit_state fp body k) as [l ->]. done. Qed.

Lemma reset_leg_lastAction legs nowMs fp i k :
  t_lastAction (tk_state (resetLeg legs nowMs fp i k)) = t_lastAction (tk_state k).
Proof. unfold resetLeg. cbn. destruct (_ =? _); [done|apply emit_lastAction]. Qed.

#[export] Hint Rewrite emit_lastAction reset_leg_lastAction : tick.

Ltac last_action :=
  repeat first
    [ progress cbn [on_state tk_state t_lastAction set_phase set_offPlan set_walk follow_steps]
    | progress autorewrite with tick
    | case_match ].

(** The state of an undo's [previous]. *)
Definition previous_of (t : TransitTickState) : PreviousPosition :=
  {| prev_currentLegIndex := t_currentLegIndex t; prev_phase := t_phase t;
     prev_currentWalkStepIndex := t_currentWalkStepIndex t;
     prev_stopCursor := default 1 (t_stopCursor t);
     prev_alongMeters := default (num_of_Z 0) (t_alongMeters t) |}.

Section undo.
Context `{MathFunctions} `{Turf}.
Variables (itinerary : Itinerary) (captures : list TransitLegCapture) (options : TransitTickOptions).
Variables (prepared : list (option PreparedTransitLeg)) (stopAreas : list (string * TransitStopArea)).
Notation process state fix_ action nowMs :=
  (processTransitFix itinerary captures state fix_ action nowMs options prepared stopAreas).
Notation journey := (journey itinerary captures options prepared stopAreas).
Notation legs := (legs_of itinerary).

Lemma take_action_remembers nowMs fp targets accepted a k : act_type a <> Undo ->
  exists type, t_lastAction (tk_state (take_action legs nowMs fp targets accepted a k)) =
    Some {| la_type := type; la_legIndex := act_legIndex a; la_atMs := nowMs;
            la_previous := previous_of (tk_state k) |}.
Proof.
  intros Ha. unfold take_action, board_leg, alight_leg. cbv zeta.
  destruct (act_type a); [| | |done]; eexists;
    last_action; reflexivity.
Qed.

Lemma follow_walk_lastAction nowMs fp targets leg i matched f k :
  t_lastAction (tk_state (follow_walk legs nowMs fp targets leg i matched f k)) = t_lastAction (tk_state k).
Proof.
  unfold follow_walk. cbv zeta.
  destruct matched as [[??]|]; last_action; reflexivity.
Qed.

Lemma follow_fix_lastAction nowMs fp targets f k k' :
  follow_fix legs captures nowMs fp targets prepared f k = Ok k' ->
  t_lastAction (tk_state k') = t_lastAction (tk_state k).
Proof.
  unfold follow_fix. cbv zeta.
  intros (m & _ & (k1 & Hk1 & <-%Ok_inj)%outcome_bind_ok)%outcome_bind_ok.
  change (t_lastAction (tk_state k1) = t_lastAction (tk_state k)). set (k2 := on_state _ k) in Hk1.
  change (t_lastAction (tk_state k)) with (t_lastAction (tk_state k2)).
  destruct (negb _); [by apply Ok_inj in Hk1 as <-|].
  apply outcome_bind_ok in Hk1 as (k3 & Hk3 & <-%Ok_inj).
  destruct (watch_platform_state captures fp (leg_at legs (t_currentLegIndex (tk_state k)))
              (t_currentLegIndex (tk_state k)) k3) as [l ->].
  change (t_lastAction (tk_state k3) = t_lastAction (tk_state k2)).
  destruct (bool_decide _).
  - unfold follow_ride in Hk3. destruct (List.find _ _); [|by apply Ok_inj in Hk3 as <-].
    cbv zeta in Hk3. apply outcome_bind_ok in Hk3 as (p & _ & <-%Ok_inj).
    destruct (_ && _); [by rewrite emit_lastAction|done].
  - destruct (isTransitRide _); [apply Ok_inj in Hk3 as <-; done|apply outcome_bind_ok in Hk3 as (? & _ & <-%Ok_inj); apply follow_walk_lastAction].
Qed.

Lemma settle_phase_lastAction t : t_lastAction (settle_phase legs t) = t_lastAction t.
Proof. unfold settle_phase. by repeat case_match. Qed.

Lemma settle_confidence_lastAction nowMs t : t_lastAction (settle_confidence nowMs t) = t_lastAction t.
Proof. unfold settle_confidence. destruct (t_lastAcceptedFix t); [destruct (_ <? _)|]; done. Qed.

Lemma followed_lastAction nowMs targets f acted followed :
  match f with
  | Some f => follow_fix legs captures nowMs (itineraryFingerprint options) targets prepared f acted = Ok followed
  | None => followed = acted
  end -> t_lastAction (tk_state followed) = t_lastAction (tk_state acted).
Proof. destruct f; [apply follow_fix_lastAction|by intros ->]. Qed.

Lemma positions_keep_lastAction state inputs told :
  Forall (fun i => in_action i = None) inputs -> journey state inputs = Ok told ->
  t_lastAction told.2 = t_lastAction state.
Proof.
  intros Hall. revert state told. induction Hall as [|i rest Hi _ IH]; intros state told; cbn [TransitEngineFacts.journey].
  { by intros <-%Ok_inj. }
  intros (r & Hr & (t & Ht & <-%Ok_inj)%outcome_bind_ok)%outcome_bind_ok. cbn [snd].
  rewrite (IH _ _ Ht). rewrite Hi in Hr. apply process_parts in Hr as (tg & acted & followed & [? ? [_ Ha] Hf Hs ?]).
  rewrite Hs, settle_confidence_lastAction, (followed_lastAction _ _ _ _ _ Hf), Ha. apply settle_phase_lastAction.
Qed.

(** C30: An accepted tap can be taken back for two minutes: whatever positions arrive in
    between, the undo is accepted and puts the rider where the tap found them: the
    leg, the phase, the step, the stop and the distance along.  It is taken back once. *)
Theorem an_undo_takes_the_rider_back state fix_ a nowMs r inputs told undoMs r' :
  act_type a <> Undo ->
  process state fix_ (Some a) nowMs = Ok r -> res_actionRejected r = false ->
  Forall (fun i => in_action i = None) inputs -> journey (res_state r) inputs = Ok told ->
  undoMs - nowMs <= 120000 ->
  process told.2 None (Some {| act_type := Undo; act_legIndex := act_legIndex a |}) undoMs = Ok r' ->
  res_actionRejected r' = false /\
  previous_of (res_state r') = previous_of (settle_phase legs state) /\
  t_lastAction (res_state r') = None.
Proof.
  intros Hundo Hr Hok Hin Hj Hms Hr'.
  apply process_parts in Hr as (tg & acted & followed & [_ _ Ha Hf Hs _]). cbv zeta in Ha.
  destruct Ha as [_ Ha]. rewrite Hok in Ha. set (accepted := match res_rejectedReason r with Some _ => _ | None => _ end) in *.
  destruct (take_action_remembers nowMs (itineraryFingerprint options) tg accepted a
              {| tk_state := settle_phase legs state; tk_events := [] |} Hundo) as [type Hl].
  rewrite <- Ha in Hl. cbn [tk_state] in Hl.
  apply positions_keep_lastAction in Hj; [|done].
  rewrite Hs, settle_confidence_lastAction, (followed_lastAction _ _ _ _ _ Hf), Hl in Hj.
  apply process_parts in Hr' as (tg' & acted' & followed' & [_ _ Ha' Hf' Hs' _]). cbv zeta in Ha'. cbn [tk_state] in Ha'.
  destruct Ha' as [Hrej Ha']. unfold action_valid in Hrej. cbn [act_type act_legIndex] in Hrej.
  rewrite settle_phase_lastAction, Hj in Hrej. cbn [la_legIndex la_atMs] in Hrej.
  rewrite Z.eqb_refl in Hrej. assert ((undoMs - nowMs <=? 120000) = true) as E by (apply Z.leb_le; lia).
  rewrite E in Hrej. cbn in Hrej. rewrite Hrej in Ha'. split; [done|].
  assert (followed' = acted') as -> by (by destruct (res_rejectedReason r')).
  unfold take_action in Ha'. cbn [act_type tk_state] in Ha'. rewrite settle_phase_lastAction, Hj in Ha'.
  rewrite Hs', settle_confidence_lastAction, Ha'. split; [|done].
  unfold settle_confidence. cbn [on_state tk_state la_previous].
  set (u := undo_action _ _ _). destruct (t_lastAcceptedFix u); [destruct (_ <? _)|]; done.
Qed.
End undo.

(** ** Positions that do not count *)

(** A position that is refused, or none, tells nothing and moves nothing: what
    follows is the state itself, its phase settled and its progress stale when the
    last accepted position is. *)
Theorem a_refused_position_counts_for_nothing `{MathFunctions} `{Turf} itinerary captures state fix_ nowMs
    options prepared stopAreas r :
  processTransitFix itinerary captures state fix_ None nowMs options prepared stopAreas = Ok r ->
  fix_ = None \/ is_Some (res_rejectedReason r) ->
  res_state r = settle_confidence nowMs (settle_phase (legs_of itinerary) state) /\
  res_events r = [] /\ res_needsReplan r = false.
Proof.
  intros Hr Hno. assert (res_needsReplan r = false) as Hn.
  { unfold processTransitFix in Hr. cbv zeta in Hr. apply outcome_bind_ok in Hr as (? & _ & Hr).
    apply outcome_bind_ok in Hr as (? & _ & <-%Ok_inj). done. }
  apply process_parts in Hr as (tg & acted & followed & [_ _ Ha Hf Hs He]). destruct Ha as [_ ->].
  assert (match res_rejectedReason r with Some _ => None | None => fix_ end = None) as E.
  { destruct Hno as [->|[x ->]]; [by destruct (res_rejectedReason r)|done]. }
  rewrite E in Hf. subst followed. by rewrite Hs, He.
Qed.

(** ** The engine always answers *)

(** A leg as the planner sends it: with the places it leads from and to. *)
Definition has_places (leg : json) : Prop :=
  is_Some (json_field "from" leg) /\ json_field "from" leg <> Some JNull /\
  is_Some (json_field "to" leg) /\ json_field "to" leg <> Some JNull.

Lemma member_answers key value : is_Some value -> value <> Some JNull ->
  exists x, member key value = Ok x.
Proof. intros [[] ->] Hn; try done; by eexists. Qed.

Lemma has_places_member leg : has_places leg ->
  exists from to, member "from" (Some leg) = Ok from /\ member "to" (Some leg) = Ok to /\
    (exists x, member "stopId" from = Ok x) /\ (exists x, member "stopId" to = Ok x) /\
    (exists x, member "geometry" (Some leg) = Ok x).
Proof.
  intros ([f Hf] & Hf' & [t Ht] & Ht').
  assert (leg <> JNull) as Hleg by (by intros ->).
  assert (forall key, member key (Some leg) = Ok (json_field key leg)) as Hm by (by destruct leg).
  exists (json_field "from" leg), (json_field "to" leg). split_and!; [done|done| | |by eexists].
  - apply member_answers; [by rewrite Hf|done].
  - apply member_answers; [by rewrite Ht|done].
Qed.

Section answers.
Context `{MathFunctions} `{TurfLaws}.

Lemma stop_target_answers areas place mode p : (exists x, member "stopId" place = Ok x) ->
  exists t, stopTarget areas place mode p = Ok t.
Proof. intros [x Hx]. unfold stopTarget, transitStopAreaKey. rewrite Hx. by eexists. Qed.

Lemma walk_end_answers areas previous leg next : has_places leg ->
  (forall n, next = Some n -> has_places n) -> exists e, walk_end areas previous (Some leg) next = Ok e.
Proof.
  intros (f & t & Hf & Ht & Hfs & [ti Hts] & [g Hg])%has_places_member Hn. unfold walk_end.
  destruct (isTransit next) eqn:En.
  - destruct next as [n|]; [|done].
    destruct (has_places_member n (Hn n eq_refl)) as (nf & nt & -> & _ & [x Hx] & _ & _).
    cbn [mbind outcome_bind]. rewrite Hx. cbn [mbind outcome_bind andb].
    destruct (truthy x).
    + rewrite Hg. cbn [mbind outcome_bind]. apply stop_target_answers. by exists x.
    + destruct n; first [done | by eexists].
  - cbn [mbind outcome_bind andb]. destruct next as [[]|]; try (by eexists);
      rewrite Ht; cbn [mbind outcome_bind]; rewrite Hts; cbn [mbind outcome_bind];
      (destruct (truthy ti); [apply stop_target_answers; by exists ti|by eexists]).
Qed.

Lemma resolve_targets_answers areas previous carried legs : Forall has_places legs ->
  exists l, resolve_targets areas previous carried legs = Ok l.
Proof.
  intros Hall. revert previous carried. induction Hall as [|leg rest Hleg Hrest IH]; intros previous carried; [by eexists|].
  cbn [resolve_targets].
  destruct (has_places_member leg Hleg) as (f & t & Hf & Ht & Hfs & [x Hx] & Hg).
  destruct (isTransit (Some leg)).
  - assert (exists b, (match carried with Some _ => Ok carried
              | None => from ← member "from" (Some leg); stopTarget areas from (json_field "mode" leg) None end) = Ok b)
      as [b ->].
    { destruct carried; [by eexists|]. rewrite Hf. by apply stop_target_answers. }
    cbn [mbind outcome_bind]. rewrite Ht. cbn [mbind outcome_bind]. rewrite Hx. cbn [mbind outcome_bind].
    assert (exists e, (if truthy x then stopTarget areas t (json_field "mode" leg) None else Ok None) = Ok e) as [e ->].
    { destruct (truthy x); [|by eexists]. apply stop_target_answers. by exists x. }
    cbn [mbind outcome_bind]. destruct (IH (Some leg) None) as [l ->]. by eexists.
  - destruct (walk_end_answers areas previous leg (head rest) Hleg) as [e ->].
    { intros n Hn. destruct rest as [|r rs]; [done|]. injection Hn as ->. by inv Hrest. }
    cbn [mbind outcome_bind]. destruct (IH (Some leg) (if shares_board (head rest) then e else None)) as [l ->].
    by eexists.
Qed.

(** A leg whose line is positions of finite numbers, or absent. *)
Definition shaped_leg (leg : json) : bool :=
  match leg_line (Some leg) with
  | None | Some JNull => true
  | Some (JArr l) => forallb json_finite_point l
  | Some _ => false
  end.

Lemma leg_positions_answers leg : shaped_leg leg = true -> exists points, leg_positions (leg_line (Some leg)) = Ok points.
Proof.
  unfold shaped_leg, leg_positions. destruct (leg_line (Some leg)) as [[| | | |l|]|]; try discriminate; try by eexists.
  intros Hl. destruct (length l <? 2)%nat; [by eexists|]. destruct (positions_of_finite l Hl) as (points & -> & _). by eexists.
Qed.

Lemma endpoint_answers legs i : Forall (fun leg => shaped_leg leg = true) legs -> exists p, leg_endpoint (leg_at legs i) = Ok p.
Proof.
  intros Hall. unfold leg_at. destruct (i <? 0); [by eexists|]. destruct (legs !! Z.to_nat i) as [leg|] eqn:E; [|by eexists].
  apply (Forall_lookup_1 _ _ _ _ Hall) in E. unfold leg_endpoint, shaped_leg in *.
  destruct (leg_line (Some leg)) as [[| | | |l|]|]; try discriminate; by eexists.
Qed.

Lemma prepare_answers legs : Forall has_places legs -> Forall (fun leg => shaped_leg leg = true) legs ->
  exists p, prepare_legs legs = Ok p.
Proof.
  induction 1 as [|leg rest Hleg _ IH]; [by eexists|]. intros [Hs Hrest]%Forall_cons. cbn [prepare_legs]. unfold prepare_leg.
  destruct (has_places_member leg Hleg) as (_ & _ & _ & _ & _ & _ & [g ->]). cbn [mbind outcome_bind].
  destruct (leg_positions_answers leg Hs) as [points ->]. cbn [mbind outcome_bind].
  destruct (IH Hrest) as [p ->]. by eexists.
Qed.

Lemma snap_leg_answers indexed f : on_earth (fix_coords f) -> prepared_from_line indexed ->
  exists m, snap_leg indexed f = Ok m.
Proof.
  intros Hf Hi. unfold snap_leg. destruct indexed as [leg|]; [|by eexists]. destruct Hi as (g & Hm & Hg).
  rewrite Hm. destruct (snap_answers g (fix_coords f) Hf Hg) as [s ->]. by eexists.
Qed.

(** The stops of the captures lie somewhere. *)
Definition placed_stops (captures : list TransitLegCapture) : Prop :=
  Forall (fun c => Forall (fun s => finite_point (stop_point s) = true) (tc_stops c)) captures.

Lemma finite_on_earth p : finite_point p = true -> on_earth p.
Proof. unfold finite_point. intros [Hx Hy]%andb_true_iff. by apply point_finite. Qed.

Lemma follow_fix_answers legs captures nowMs fp targets prepared f k :
  Forall (fun leg => shaped_leg leg = true) legs -> placed_stops captures -> on_earth (fix_coords f) ->
  Forall prepared_from_line prepared ->
  exists k', follow_fix legs captures nowMs fp targets prepared f k = Ok k'.
Proof.
  intros Hlegs Hstops Hf Hp. unfold follow_fix. cbv zeta. set (i := t_currentLegIndex (tk_state k)).
  pose proof (prepared_leg_line prepared i Hp) as Hi.
  destruct (snap_leg_answers (prepared_leg prepared i) f Hf Hi) as [m ->]. cbn [mbind outcome_bind].
  set (k2 := on_state _ k). destruct (negb _); [by eexists|].
  assert (exists k3, (if bool_decide (t_phase (tk_state k2) = Riding)
     then follow_ride captures fp (leg_at legs i) i (prepared_leg prepared i) f k2
     else if isTransitRide (leg_at legs i) then Ok k2
          else _ ← leg_endpoint (leg_at legs i); Ok (follow_walk legs nowMs fp targets (leg_at legs i) i m f k2)) = Ok k3) as [k3 ->]; [|by eexists].
  destruct (bool_decide _).
  2:{ destruct (isTransitRide _); [by eexists|]. destruct (endpoint_answers legs i Hlegs) as [p ->]. by eexists. }
  unfold follow_ride. destruct (List.find _ _) as [c|] eqn:Ec; [|by eexists]. cbv zeta.
  apply List.find_some in Ec as [Hc%list_elem_of_In _]. unfold placed_stops in Hstops. rewrite Forall_forall in Hstops.
  assert (Forall (fun s => on_earth (stop_point s)) (tc_stops c)) as Hplaced.
  { eapply Forall_impl; [by apply Hstops|]. intros s. apply finite_on_earth. }
  destruct (cursor_answers (tc_stops c) (prepared_leg prepared i) f (t_lastAcceptedFix (tk_state k2))
              (default 1 (t_stopCursor (tk_state k2))) (default (num_of_Z 0) (t_alongMeters (tk_state k2)))
              (t_stopTracking (tk_state k2)) Hf Hplaced Hi) as [a ->].
  by eexists.
Qed.
End answers.

(** *** The position that counted last *)

Lemma reset_leg_fix legs nowMs fp i k :
  t_lastAcceptedFix (tk_state (resetLeg legs nowMs fp i k)) = t_lastAcceptedFix (tk_state k).
Proof. unfold resetLeg. cbn. destruct (_ =? _); [done|]. by destruct (emit_state fp (TTransfer (t_currentLegIndex (tk_state k)) i) k) as [l ->]. Qed.

(** What the rider says does not change it. *)
Lemma take_action_fix `{MathFunctions} legs nowMs fp targets accepted a k :
  t_lastAcceptedFix (tk_state (take_action legs nowMs fp targets accepted a k)) = t_lastAcceptedFix (tk_state k).
Proof.
  assert (forall body k', t_lastAcceptedFix (tk_state (emit fp body k')) = t_lastAcceptedFix (tk_state k')) as Hemit.
  { intros body k'. by destruct (emit_state fp body k') as [l ->]. }
  assert (forall i k', t_lastAcceptedFix (tk_state (board_leg legs nowMs fp i k')) = t_lastAcceptedFix (tk_state k')) as Hboard.
  { intros i k'. unfold board_leg. rewrite Hemit. exact (reset_leg_fix legs nowMs fp i k'). }
  unfold take_action. cbv zeta. destruct (act_type a); [by rewrite Hboard| |by rewrite Hboard|by destruct (t_lastAction _)].
  unfold alight_leg. cbv zeta. destruct (_ =? _).
  - destruct (alights_off_plan _ _ _ _); rewrite ?Hemit; cbn; by rewrite Hemit.
  - rewrite reset_leg_fix. cbn. by rewrite Hemit.
Qed.

Lemma accepted_is_finite nowMs cap last f : rejectedReason nowMs cap last f = None -> finite_point (fix_coords f) = true.
Proof.
  unfold rejectedReason, finite_point. destruct (num_is_finite (fix_coords f).1), (num_is_finite (fix_coords f).2); cbn; try discriminate. done.
Qed.

Lemma settle_confidence_fix nowMs t : t_lastAcceptedFix (settle_confidence nowMs t) = t_lastAcceptedFix t.
Proof. unfold settle_confidence. destruct (t_lastAcceptedFix t) eqn:E; [destruct (_ <? _)|]; exact E. Qed.

(** Where there is no position there is nothing to snap. *)
Definition placed (fix_ : option FixInput) : Prop :=
  match fix_ with Some f => finite_point (fix_coords f) = true | None => True end.


(** ** The state keeps its type *)

(** What the schema asks of everything but the measured distances, with the bounds of
    the leg and the step that an undo needs too. *)
Record tick_wf (legs : list json) (t : TransitTickState) : Prop := {
  wf_leg : 0 <= t_currentLegIndex t < Z.of_nat (length legs);
  wf_step : 0 <= t_currentWalkStepIndex t <= 10000;
  wf_walkRevision : opt_ok safeInteger (t_walkRevision t) = true;
  wf_fix : opt_ok fixSchema (t_lastAcceptedFix t) = true;
  wf_progress : opt_ok safeInteger (t_lastProgressAtMs t) = true;
  wf_entered : safeInteger (t_legEnteredAtMs t) = true;
  wf_cursor : opt_ok (int_within 0 2000) (t_stopCursor t) = true;
  wf_tracking : opt_ok (fun s => opt_ok safeInteger (st_alongTimestampMs s)
                        && opt_ok safeInteger (st_candidateTimestampMs s)) (t_stopTracking t) = true;
  wf_actionId : opt_ok boundedId (t_lastActionId t) = true;
  wf_action : match t_lastAction t with
              | Some a => lastActionSchema a = true
                  /\ 0 <= prev_currentLegIndex (la_previous a) < Z.of_nat (length legs)
                  /\ 0 <= prev_currentWalkStepIndex (la_previous a) <= 10000
              | None => True
              end;
  wf_cues : forallb boundedId (t_spokenCueIds t) = true /\ (length (t_spokenCueIds t) <= 512)%nat;
  wf_emitted : forallb boundedId (t_emittedEventIds t) = true /\ (length (t_emittedEventIds t) <= 512)%nat;
}.

(** The measured distances are numbers a store can keep. *)
Definition measured (t : TransitTickState) : bool :=
  opt_ok nonnegative (t_alongMeters t) && opt_ok nonnegative (t_distanceToNextStepMeters t)
  && opt_ok (fun s => opt_ok nonnegative (st_candidateAlongMeters s)) (t_stopTracking t).

Lemma wf_schema legs t : tick_wf legs t -> measured t = true -> Z.of_nat (length legs) <= 513 ->
  transitTickStateSchema t = true.
Proof.
  intros [] Hm Hlen. unfold measured in Hm. unfold transitTickStateSchema. unfold int_within in *.
  rewrite !andb_true_iff in *. rewrite !Z.leb_le, !Nat.leb_le. unfold MOBILE_SESSION_LEDGER_LIMIT.
  destruct Hm as [[Ha Hd] Ht]. split_and!; try tauto; try lia.
  - destruct (t_stopTracking t) as [s|]; [|done]. cbn in *. rewrite !andb_true_iff in *. tauto.
  - destruct (t_lastAction t) as [a|]; [|done]. cbn. tauto.
Qed.

Lemma event_id_bounded fp body : (1 <= String.length fp <= 64)%nat ->
  (match body with
   | TBoard i | TAlight i | TMissedConnection i | TArrival i | TPlatformChange i _
   | TApproachingAlight i _ => 0 <= i <= 2 ^ 32
   | TTransfer i j => 0 <= i <= 2 ^ 32 /\ 0 <= j <= 2 ^ 32
   end) -> boundedId (event_id fp body) = true.
Proof.
  intros Hf Hb. unfold boundedId, MAX_ID_LENGTH, str_length.
  assert (forall type i, 0 <= i <= 2 ^ 32 -> (String.length type <= 18)%nat ->
    (1 <= String.length (fp ++ ":" ++ type ++ ":" ++ show_Z i) <= 94)%nat) as Hname.
  { intros type i Hi%show_Z_length Ht. rewrite !string_length_app. cbn [String.length]. lia. }
  assert (forall type i s, 0 <= i <= 2 ^ 32 -> (String.length type <= 15)%nat -> (String.length s <= 32)%nat ->
    (1 <= String.length ((fp ++ ":" ++ type ++ ":" ++ show_Z i) ++ ":" ++ s) <= 128)%nat) as Hlong.
  { intros type i s Hi%show_Z_length Ht Hs. rewrite !string_length_app. cbn [String.length]. lia. }
  enough (1 <= String.length (event_id fp body) <= 128)%nat.
  { apply andb_true_iff. split; apply Z.leb_le; lia. }
  destruct body; unfold event_id; cbv zeta.
  - pose proof (Hname "board" _ Hb ltac:(simpl; lia)). lia.
  - pose proof (Hname "alight" _ Hb ltac:(simpl; lia)). lia.
  - pose proof (Hname "missed-connection" _ Hb ltac:(simpl; lia)). lia.
  - pose proof (Hname "arrival" _ Hb ltac:(simpl; lia)). lia.
  - apply (Hlong "platform-change"); [done|simpl; lia|]. apply toString36_length.
    assert (forall l h, 0 <= h < 2 ^ 32 -> 0 <= foldl (fun h c => to_uint32 (h * 31 + c)) h l < 2 ^ 32) as Hfold.
    { induction l as [|c l IH]; intros h Hh; [done|]. apply IH. unfold to_uint32. apply Z.mod_pos_bound. lia. }
    apply Hfold. lia.
  - pose proof (Hname "approaching-alight" _ Hb ltac:(simpl; lia)). lia.
  - destruct Hb as [Hi Hj]. apply (Hlong "transfer"); [done|simpl; lia|]. apply show_Z_length in Hj. lia.
Qed.

Section wf.
Context `{MathFunctions} `{Turf}.
Variables (legs : list json) (captures : list TransitLegCapture) (nowMs : Z) (fp : string).
Hypothesis Hfp : (1 <= String.length fp <= 64)%nat.
Hypothesis Hlegs : Z.of_nat (length legs) <= 513.
Hypothesis Hnow : safeInteger nowMs = true.
Hypothesis Hcaptures : forallb transitLegCaptureSchema captures = true.
Hypothesis Hsteps : forall i leg, leg_at legs i = Some leg ->
  Z.of_nat (length (leg_steps (Some leg))) <= 10001.

Notation wf k := (tick_wf legs (tk_state k)).

Definition event_in_range (body : TransitEventBody) : Prop :=
  match body with
  | TBoard i | TAlight i | TMissedConnection i | TArrival i | TPlatformChange i _
  | TApproachingAlight i _ => 0 <= i < Z.of_nat (length legs)
  | TTransfer i j => 0 <= i < Z.of_nat (length legs) /\ 0 <= j < Z.of_nat (length legs)
  end.

Lemma emit_wf body k : wf k -> event_in_range body -> wf (emit fp body k).
Proof.
  intros Hk Hb. unfold emit. destruct (includes _ _); [done|]. destruct Hk. split; try done.
  cbn. destruct wf_emitted0 as [Hall Hlen]. split; [|apply keep_last_length].
  apply forallb_forall. intros x Hx%list_elem_of_In. apply keep_last_subseteq, elem_of_app in Hx as [Hx|Hx].
  - rewrite forallb_forall in Hall. by apply Hall, list_elem_of_In.
  - apply list_elem_of_singleton in Hx as ->. apply event_id_bounded; [done|].
    destruct body; cbn in Hb; lia.
Qed.

Lemma reset_leg_wf i k : wf k -> 0 <= i < Z.of_nat (length legs) -> wf (resetLeg legs nowMs fp i k).
Proof.
  intros Hk Hi. unfold resetLeg. cbv zeta. set (k1 := if _ =? _ then k else _).
  assert (wf k1) as []. { subst k1. destruct (_ =? _); [done|]. apply emit_wf; [done|]. split; [apply Hk|done]. }
  by split.
Qed.

Lemma leg_at_range i leg : leg_at legs i = Some leg -> 0 <= i < Z.of_nat (length legs).
Proof.
  unfold leg_at. destruct (i <? 0) eqn:E; [done|]. intros Hl%lookup_lt_Some. apply Z.ltb_ge in E. lia.
Qed.

Lemma ride_range i : isTransitRide (leg_at legs i) = true -> 0 <= i < Z.of_nat (length legs).
Proof. destruct (leg_at legs i) as [leg|] eqn:E; [intros _; by eapply leg_at_range|done]. Qed.

Lemma settle_phase_wf t : tick_wf legs t -> tick_wf legs (settle_phase legs t).
Proof. intros Ht. unfold settle_phase. destruct (t_phase t); try done; case_match; try done; by destruct Ht. Qed.

Lemma remember_wf type a k : wf k -> opt_ok nonnegative (t_alongMeters (tk_state k)) = true ->
  act_legIndex a = t_currentLegIndex (tk_state k) \/ 0 <= act_legIndex a < Z.of_nat (length legs) ->
  wf (on_state (remember_action nowMs type a) k).
Proof.
  intros Hk Ha Hi. pose proof Hk as []. split; try done. cbn. split_and!; try tauto; try lia.
  unfold lastActionSchema. cbn. unfold int_within in *. rewrite !andb_true_iff. unfold safeInteger, MAX_SAFE_INTEGER in *.
  rewrite !andb_true_iff, !Z.leb_le in *. split_and!; try lia.
  - destruct (t_stopCursor _) as [c|]; cbn in *; [|lia]. rewrite andb_true_iff, !Z.leb_le in wf_cursor0. lia.
  - destruct (t_stopCursor _) as [c|]; cbn in *; [|lia]. rewrite andb_true_iff, !Z.leb_le in wf_cursor0. lia.
  - by destruct (t_alongMeters (tk_state k)).
Qed.

Lemma board_leg_wf i k : wf k -> 0 <= i < Z.of_nat (length legs) -> wf (board_leg legs nowMs fp i k).
Proof.
  intros Hk Hi. unfold board_leg. apply emit_wf; [|done].
  pose proof (reset_leg_wf i k Hk Hi) as []. split; done.
Qed.

Lemma alight_leg_wf off i k : wf k -> i = t_currentLegIndex (tk_state k) -> wf (alight_leg legs nowMs fp off i k).
Proof.
  intros Hk ->. pose proof (wf_leg _ _ Hk) as Hi. unfold alight_leg. cbv zeta.
  set (i := t_currentLegIndex (tk_state k)) in *.
  assert (wf (on_state (set_offPlan off) (emit fp (TAlight i) k))) as Hk1.
  { pose proof (emit_wf (TAlight i) k Hk Hi) as []. split; done. }
  destruct (i =? _) eqn:E.
  - assert (forall p, wf (on_state (set_phase p) (on_state (set_offPlan off) (emit fp (TAlight i) k)))) as Hk2.
    { intros p. destruct Hk1. split; done. }
    destruct off; [apply Hk2|]. apply emit_wf; [apply Hk2|done].
  - apply Z.eqb_neq in E. apply reset_leg_wf; [done|]. lia.
Qed.

Lemma take_action_wf targets accepted a k : wf k -> opt_ok nonnegative (t_alongMeters (tk_state k)) = true ->
  action_valid legs nowMs a (tk_state k) = true -> wf (take_action legs nowMs fp targets accepted a k).
Proof.
  intros Hk Ha Hv. unfold take_action, action_valid in *. cbv zeta in *. destruct (act_type a).
  - rewrite !andb_true_iff in Hv. destruct Hv as [[[_ Hi%Z.eqb_eq] Hr] _]. apply ride_range in Hr.
    apply board_leg_wf; [|done]. apply remember_wf; [done..|]. right. by rewrite Hi.
  - rewrite !andb_true_iff in Hv. destruct Hv as [_ Hi%Z.eqb_eq].
    apply alight_leg_wf; [|done]. apply remember_wf; [done..|]. by left.
  - rewrite !andb_true_iff in Hv. destruct Hv as [[[_ Hi%Z.eqb_eq] _] Hr]. apply ride_range in Hr.
    apply board_leg_wf; [|done]. apply remember_wf; [done..|]. by left.
  - destruct (t_lastAction (tk_state k)) as [p|] eqn:E; [|done]. destruct Hk. rewrite E in wf_action0.
    destruct wf_action0 as (Hs & Hl & Hst). split; try done. cbn.
    unfold lastActionSchema in Hs. rewrite !andb_true_iff in Hs. tauto.
Qed.

Lemma gate_range ends lastIndex along entry exit_ prev : 0 <= lastIndex ->
  0 <= committedStepIndex (gate ends lastIndex along entry exit_ prev) <= lastIndex.
Proof. intros Hl. destruct (gate_stops ends lastIndex along entry exit_ prev Hl) as [Hr _]. lia. Qed.

Lemma follow_steps_wf steps indexed snap k : wf k -> Z.of_nat (length steps) <= 10001 ->
  wf (on_state (follow_steps steps indexed snap) k).
Proof.
  intros Hk Hs. pose proof (wf_step _ _ Hk) as Hst. destruct Hk. split; try done. cbn.
  set (g := walk_gate _ _ _).
  assert (0 <= committedStepIndex g <= 10000).
  { subst g. unfold walk_gate. cbv zeta. destruct (_ <=? 0) eqn:E; [cbn; lia|]. apply Z.leb_gt in E.
    match goal with |- context [gate ?e ?l ?a ?x ?y ?p] => pose proof (gate_range e l a x y p ltac:(lia)) end. lia. }
  lia.
Qed.

Lemma follow_walk_wf targets leg i matched f k : wf k -> i = t_currentLegIndex (tk_state k) ->
  leg_at legs i = leg -> wf (follow_walk legs nowMs fp targets leg i matched f k).
Proof.
  intros Hk -> Hleg. pose proof (wf_leg _ _ Hk) as Hi. unfold follow_walk. cbv zeta.
  set (k1 := match matched with Some _ => _ | None => k end).
  assert (wf k1) as Hk1.
  { subst k1. destruct matched as [[indexed snap]|]; [|done]. destruct (num_le _ _); [|done].
    apply follow_steps_wf; [done|]. destruct leg as [leg|]; [by eapply Hsteps|simpl; lia]. }
  destruct (isWithinStopArea _ _ _); [|done]. set (i := t_currentLegIndex (tk_state k)) in *.
  assert (forall f, (forall t, tick_wf legs t -> tick_wf legs (f t)) -> wf (on_state f k1)) as Hf.
  { intros g Hg. by apply Hg. }
  assert (wf (on_state (set_offPlan false) k1)) as Hk2 by (destruct Hk1; split; done).
  destruct (i =? _) eqn:E.
  - apply emit_wf; [|done]. destruct Hk2. split; done.
  - apply Z.eqb_neq in E. apply reset_leg_wf; [done|]. lia.
Qed.

Lemma capture_fits c : c ∈ captures -> (Z.of_nat (length (tc_stops c)) <= 2000)%Z.
Proof.
  intros Hc%list_elem_of_In. rewrite forallb_forall in Hcaptures. specialize (Hcaptures c Hc).
  unfold transitLegCaptureSchema in Hcaptures. rewrite !andb_true_iff, !Z.leb_le in Hcaptures. tauto.
Qed.

Lemma follow_ride_wf leg i indexed f k k' : wf k -> 0 <= i < Z.of_nat (length legs) ->
  safeInteger (fix_timestampMs f) = true ->
  follow_ride captures fp leg i indexed f k = Ok k' -> wf k'.
Proof.
  intros Hk Hi Hf. unfold follow_ride. destruct (List.find _ _) as [c|] eqn:Ec; [|by intros <-%Ok_inj].
  apply List.find_some in Ec as [Hc%list_elem_of_In _]. apply capture_fits in Hc.
  cbv zeta. intros (p & Hp & <-%Ok_inj)%outcome_bind_ok.
  apply advance_keeps in Hp as [Hcur Htrack].
  match goal with |- context [on_state ?g k] => set (k1 := on_state g k) end.
  assert (wf k1) as Hk1.
  { pose proof (wf_cursor _ _ Hk) as Hwc. pose proof (wf_tracking _ _ Hk) as Hwt.
    destruct Hk. split; try done; cbn.
    - unfold int_within in *. rewrite andb_true_iff, !Z.leb_le.
      destruct Hcur as [->|Hcur]; [|lia].
      destruct (t_stopCursor (tk_state k)) as [x|]; cbn in *; [|lia].
      by rewrite andb_true_iff, !Z.leb_le in Hwc.
    - destruct (adv_tracking p) as [s|]; [|done]. destruct (Htrack s eq_refl) as [[Ha|Ha] [Hb|Hb]];
        cbn; rewrite Ha, Hb; cbn; rewrite ?Hf; try done;
        (destruct (t_stopTracking (tk_state k)) as [x|]; [|done]; cbn in *;
         apply andb_true_iff in Hwt as [-> _]; done). }
  destruct (_ && _); [|done]. by apply emit_wf.
Qed.

Lemma watch_platform_wf leg i k : wf k -> 0 <= i < Z.of_nat (length legs) ->
  wf (watch_platform captures fp leg i k).
Proof.
  intros Hk Hi. unfold watch_platform. cbv zeta. destruct (sp_code _); [|done].
  destruct (_ && _); [by apply emit_wf|done].
Qed.

Lemma follow_fix_wf targets prepared f k k' : wf k -> fixSchema f = true ->
  follow_fix legs captures nowMs fp targets prepared f k = Ok k' -> wf k'.
Proof.
  intros Hk Hf. pose proof (wf_leg _ _ Hk) as Hi. unfold follow_fix. cbv zeta.
  intros (m & _ & (k1 & Hk1 & <-%Ok_inj)%outcome_bind_ok)%outcome_bind_ok.
  enough (wf k1) as [] by (split; try done; cbn; by rewrite Hf).
  set (k2 := on_state _ k) in Hk1. assert (wf k2) as Hk2 by (destruct Hk; split; done).
  destruct (negb _); [by apply Ok_inj in Hk1 as <-|].
  apply outcome_bind_ok in Hk1 as (k3 & Hk3 & <-%Ok_inj). apply watch_platform_wf; [|done].
  assert (safeInteger (fix_timestampMs f) = true) as Hts.
  { unfold fixSchema in Hf. rewrite !andb_true_iff in Hf. tauto. }
  destruct (bool_decide _); [by eapply follow_ride_wf in Hk3|].
  destruct (isTransitRide _); [apply Ok_inj in Hk3 as <-; done|apply outcome_bind_ok in Hk3 as (? & _ & <-%Ok_inj)]. by apply follow_walk_wf.
Qed.

Lemma settle_confidence_wf t : tick_wf legs t -> tick_wf legs (settle_confidence nowMs t).
Proof.
  intros Ht. unfold settle_confidence. destruct (t_lastAcceptedFix t); [destruct (_ <? _); [|done]|];
    destruct Ht; by split.
Qed.
End wf.

Lemma settle_confidence_measured nowMs t : measured (settle_confidence nowMs t) = measured t.
Proof. unfold settle_confidence. destruct (t_lastAcceptedFix t); [destruct (_ <? _)|]; done. Qed.

Lemma settle_phase_measured legs t : measured (settle_phase legs t) = measured t.
Proof. unfold settle_phase. by repeat case_match. Qed.

Lemma process_wf `{MathFunctions} `{Turf} itinerary captures state fix_ action nowMs
    options prepared stopAreas r :
  let legs := legs_of itinerary in
  (1 <= String.length (itineraryFingerprint options) <= 64)%nat ->
  Z.of_nat (length legs) <= 513 ->
  (forall i leg, leg_at legs i = Some leg -> Z.of_nat (length (leg_steps (Some leg))) <= 10001) ->
  forallb transitLegCaptureSchema captures = true ->
  safeInteger nowMs = true -> opt_ok fixSchema fix_ = true ->
  tick_wf legs state -> (action = None \/ measured state = true) ->
  processTransitFix itinerary captures state fix_ action nowMs options prepared stopAreas = Ok r ->
  tick_wf legs (res_state r).
Proof.
  intros legs Hfp Hlegs Hsteps Hcap Hnow Hfix Hs Hm (tg & acted & followed & [_ _ Ha Hf Hst _])%process_parts.
  subst legs. set (legs := legs_of itinerary) in *. cbv zeta in Ha. rewrite Hst.
  enough (tick_wf legs (tk_state followed)) as Hwf by (by apply settle_confidence_wf).
  assert (tick_wf legs (tk_state acted)) as Hacted.
  { pose proof (settle_phase_wf legs state Hs) as Hsp. destruct action as [a|]; [|by destruct Ha as [_ ->]].
    destruct Hm as [|Hm]; [done|].
    destruct Ha as [Hr ->]. destruct (res_actionRejected r); [done|].
    apply take_action_wf; try done.
    - cbn [tk_state]. pose proof (settle_phase_measured legs state) as Hms. rewrite Hm in Hms.
      unfold measured in Hms. rewrite !andb_true_iff in Hms. tauto.
    - cbn [tk_state] in Hr |- *. destruct (action_valid _ _ _ _); done. }
  destruct (res_rejectedReason r); [by subst|]. destruct fix_ as [f|]; [|by subst].
  by eapply follow_fix_wf.
Qed.

(** ** How much a tick tells *)

Definition told (k : Tick) : nat := length (tk_events k).

Lemma on_state_count f k : told (on_state f k) = told k.
Proof. done. Qed.

Lemma emit_count fp body k : (told (emit fp body k) <= told k + 1)%nat.
Proof. unfold emit, told. destruct (includes _ _); cbn; rewrite ?length_app; cbn; lia. Qed.

Lemma reset_leg_count legs nowMs fp i k : (told (resetLeg legs nowMs fp i k) <= told k + 1)%nat.
Proof.
  unfold resetLeg. cbv zeta. rewrite on_state_count. destruct (_ =? _); [lia|]. apply emit_count.
Qed.

Lemma take_action_count `{MathFunctions} `{Turf} legs nowMs fp targets accepted a k :
  (told (take_action legs nowMs fp targets accepted a k) <= told k + 2)%nat.
Proof.
  assert (forall i k, (told (board_leg legs nowMs fp i k) <= told k + 2)%nat) as Hboard.
  { intros i k1. unfold board_leg. etrans; [apply emit_count|].
    pose proof (reset_leg_count legs nowMs fp i k1). rewrite on_state_count. lia. }
  unfold take_action. cbv zeta. destruct (act_type a);
    [etrans; [apply Hboard|]; rewrite on_state_count; lia| |etrans; [apply Hboard|]; rewrite on_state_count; lia|].
  - unfold alight_leg. cbv zeta. set (k1 := on_state _ k). set (k2 := on_state _ (emit _ _ _)).
    assert (told k2 <= told k + 1)%nat as Hk2.
    { subst k2. rewrite on_state_count. etrans; [apply emit_count|]. subst k1. rewrite on_state_count. lia. }
    destruct (_ =? _).
    + destruct (alights_off_plan _ _ _ _); [rewrite on_state_count; lia|].
      etrans; [apply emit_count|]. rewrite on_state_count. lia.
    + etrans; [apply reset_leg_count|]. lia.
  - destruct (t_lastAction _); rewrite ?on_state_count; lia.
Qed.

Lemma follow_fix_count `{MathFunctions} `{Turf} legs captures nowMs fp targets prepared f k k' :
  follow_fix legs captures nowMs fp targets prepared f k = Ok k' -> (told k' <= told k + 2)%nat.
Proof.
  unfold follow_fix. cbv zeta.
  intros (m & _ & (k1 & Hk1 & <-%Ok_inj)%outcome_bind_ok)%outcome_bind_ok.
  change (told (on_state _ k1)) with (told k1). set (k2 := on_state _ k) in Hk1.
  change (told k) with (told k2). destruct (negb _); [apply Ok_inj in Hk1 as <-; lia|].
  apply outcome_bind_ok in Hk1 as (k3 & Hk3 & <-%Ok_inj).
  assert (forall leg i, (told (watch_platform captures fp leg i k3) <= told k3 + 1)%nat) as Hwatch.
  { intros leg i. unfold watch_platform. cbv zeta. destruct (sp_code _); [|lia].
    destruct (_ && _); [apply emit_count|lia]. }
  etrans; [apply Hwatch|]. enough (told k3 <= told k2 + 1)%nat by lia. clearbody k2. clear Hwatch.
  destruct (bool_decide _).
  { revert Hk3. unfold follow_ride. destruct (List.find _ _); [|intros <-%Ok_inj; lia].
    cbv zeta. intros (p & _ & <-%Ok_inj)%outcome_bind_ok.
    destruct (_ && _); [etrans; [apply emit_count|]|]; rewrite on_state_count; lia. }
  destruct (isTransitRide _); [apply Ok_inj in Hk3 as <-; lia|apply outcome_bind_ok in Hk3 as (? & _ & <-%Ok_inj)]. unfold follow_walk. cbv zeta.
  set (k4 := match m with Some _ => _ | None => k2 end).
  assert (told k4 = told k2) as Hk4 by (subst k4; destruct m as [[? ?]|]; [by destruct (num_le _ _)|done]).
  destruct (isWithinStopArea _ _ _); [|lia]. destruct (_ =? _).
  - etrans; [apply emit_count|]. rewrite !on_state_count. lia.
  - etrans; [apply reset_leg_count|]. rewrite on_state_count. lia.
Qed.

(** A tick tells at most four events. *)
Lemma tick_tells_little `{MathFunctions} `{Turf} itinerary captures state fix_ action nowMs options prepared stopAreas r :
  processTransitFix itinerary captures state fix_ action nowMs options prepared stopAreas = Ok r ->
  (length (res_events r) <= 4)%nat.
Proof.
  intros (tg & acted & followed & [_ _ Ha Hf _ He])%process_parts. rewrite He. cbv zeta in Ha.
  change (told followed <= 4)%nat. assert (told acted <= 2)%nat as Hacted.
  { destruct action as [a|]; [|destruct Ha as [_ ->]; cbn; lia]. destruct Ha as [_ ->].
    destruct (res_actionRejected r); [cbn; lia|]. etrans; [apply take_action_count|]. cbn. lia. }
  destruct (match res_rejectedReason r with Some _ => _ | None => _ end); [|subst; lia].
  apply follow_fix_count in Hf. lia.
Qed.

(** What a tick tells is in the ledger it leaves. *)
Lemma told_is_recorded `{MathFunctions} `{Turf} itinerary captures state fix_ action nowMs options prepared stopAreas r :
  (length (t_emittedEventIds state) <= MAX_EMITTED)%nat ->
  processTransitFix itinerary captures state fix_ action nowMs options prepared stopAreas = Ok r ->
  forall e, e ∈ res_events r -> ev_id e ∈ t_emittedEventIds (res_state r).
Proof.
  intros Hb Hr e He. pose proof (tick_tells_little _ _ _ _ _ _ _ _ _ _ Hr) as Hlen.
  apply process_tells in Hr; [|done]. destruct Hr as (new & E1 & E2 & _). cbn in E1. subst new.
  unfold emitted in E2. cbn in E2. rewrite E2, keep_last_drop. unfold ids in *.
  set (old := t_emittedEventIds state) in *. rewrite drop_app_le.
  - apply elem_of_app. right. by apply list_elem_of_fmap_2.
  - rewrite length_app, length_map. unfold MAX_EMITTED. lia.
Qed.

(** The leg of the state is one of the itinerary, and so is the one an undo goes back
    to; the step it goes back to is within the schema's bound of a current step, which
    the schema does not ask of a remembered one. *)
Definition on_itinerary (legs : list json) (t : TransitTickState) : Prop :=
  0 <= t_currentLegIndex t < Z.of_nat (length legs) /\
  match t_lastAction t with
  | Some a => 0 <= prev_currentLegIndex (la_previous a) < Z.of_nat (length legs) /\
              prev_currentWalkStepIndex (la_previous a) <= 10000
  | None => True
  end.

(** A state the schema reads, on the itinerary, is well formed. *)
Lemma schema_wf legs t : transitTickStateSchema t = true -> on_itinerary legs t -> tick_wf legs t /\ measured t = true.
Proof.
  unfold transitTickStateSchema, on_itinerary, measured. unfold int_within at 1 2. rewrite !andb_true_iff, !Z.leb_le, !Nat.leb_le.
  unfold MOBILE_SESSION_LEDGER_LIMIT. intros Hs [Hleg Hact]. split.
  - split; try tauto.
    + destruct (t_stopTracking t) as [s|]; [|done]. cbn in *. rewrite !andb_true_iff in *. tauto.
    + destruct (t_lastAction t) as [a|]; [|done]. cbn in *. assert (lastActionSchema a = true) as Ha by tauto.
      split; [done|]. unfold lastActionSchema, safeInteger in Ha. rewrite !andb_true_iff, !Z.leb_le in Ha. lia.
  - split_and!; try tauto. destruct (t_stopTracking t) as [s|]; [|done]. cbn in *.
    rewrite !andb_true_iff in *. tauto.
Qed.

Lemma wf_on_itinerary legs t : tick_wf legs t -> on_itinerary legs t.
Proof.
  intros Hwf. split; [apply Hwf|]. pose proof (wf_action _ _ Hwf) as Ha. destruct (t_lastAction t); [|done]. split; apply Ha.
Qed.

(** A state the schema reads has its distances measured. *)
Lemma schema_measured t : transitTickStateSchema t = true -> measured t = true.
Proof.
  unfold transitTickStateSchema, measured. rewrite !andb_true_iff. intros Hs. split_and!; try tauto.
  destruct (t_stopTracking t) as [s|]; [|done]. cbn in *. rewrite !andb_true_iff in *. tauto.
Qed.

