(* ===== verification/Ride.v ===== *)
(** * A ride through the transit engine

    A walk of two hundred and twenty metres, a bus of two stops and a walk of a
    hundred and ten, on the flat world of [SampleMath]: the witnesses of the transit
    engine's properties.  Nothing here models code. *)

From S2P Require Import Prelude Text Doubles Protocol RouteMatcher SampleMath RouteMatcherFacts Waypoints Maneuver Session.
From S2P Require Import Itinerary StopAreas Captures StopCursor Samples Guidance TransitEngine TransitEngineFacts.

Section flat_ride.
#[local] Existing Instance flat_math | 0.
#[local] Existing Instance flat_turf | 0.
#[local] Open Scope Z_scope.

Definition place (stopId : option string) (p : LngLat) : json :=
  JObj (match stopId with Some s => [("stopId", JStr s); ("name", JStr s)] | None => [] end ++
        [("lat", JNum p.2); ("lng", JNum p.1)]).

Definition line_json (l : list LngLat) : json :=
  JObj [("coordinates", JArr (map (fun p => JArr [JNum p.1; JNum p.2]) l))].

(** A point by tenths of a thousandth of a degree, eleven metres apart. *)
Definition at_ (x y : Z) : LngLat := (literal x 10000, literal y 10000).

Definition meters (d : Z) : json := JObj [("distanceMeters", JNum (num_of_Z d)); ("instruction", JStr "LEFT")].

Definition walk_to_stop : json :=
  JObj [("mode", JStr "walking"); ("from", place None (at_ 0 0)); ("to", place (Some "s1") (at_ 20 0));
        ("geometry", line_json [at_ 0 0; at_ 10 0; at_ 20 0]); ("steps", JArr [meters 111; meters 111])].

Definition bus : json :=
  JObj [("mode", JStr "bus"); ("tripId", JStr "t1"); ("route", JObj [("shortName", JStr "42")]);
        ("headsign", JStr "Harbour");
        ("from", place (Some "s1") (at_ 20 0)); ("to", place (Some "s3") (at_ 20 100));
        ("geometry", line_json [at_ 20 0; at_ 20 50; at_ 20 100])].

Definition walk_home : json :=
  JObj [("mode", JStr "walking"); ("from", place (Some "s3") (at_ 20 100)); ("to", place None (at_ 30 100));
        ("geometry", line_json [at_ 20 100; at_ 30 100]); ("steps", JArr [meters 111])].

Definition trip : Itinerary := [("legs", JArr [walk_to_stop; bus; walk_home])].

Definition journey_stop (id : string) (p : LngLat) : json :=
  JObj [("stopId", JStr id); ("name", JStr id); ("lat", JNum p.2); ("lng", JNum p.1)].

(** The bus comes from and goes on to other stops. *)
Definition bus_journey : json :=
  JObj [("t1", JArr [journey_stop "s0" (at_ 20 (-50)); journey_stop "s1" (at_ 20 0);
                     journey_stop "s2" (at_ 20 50); journey_stop "s3" (at_ 20 100);
                     journey_stop "s4" (at_ 20 150)])].

Definition no_dates : DateParser := {| date_getTime := fun _ => NaN |}.
#[local] Existing Instance no_dates | 0.

Definition trip_captures : list TransitLegCapture := captureTransitLegStops (legs_of trip) bus_journey 1000.

(** The one capture of the trip holds the three stops ridden. *)
Lemma captures_are_what_is_ridden_witness :
  let c := default {| tc_legIndex := 0; tc_tripId := ""; tc_capturedAtMs := 0; tc_status := Missing; tc_stops := [] |}
             (head trip_captures) in
  map cs_stopId (tc_stops c) = ["s1"; "s2"; "s3"] /\ transitLegCaptureSchema c = true.
Proof.
  split; [vm_compute; reflexivity|].
  apply (captures_are_what_is_ridden (legs_of trip) bus_journey 1000);
    [apply list_elem_of_In; left|..]; vm_compute; [reflexivity|discriminate|reflexivity..].
Defined.

Definition trip_prepared : list (option PreparedTransitLeg) :=
  match prepareTransitProgress trip with Ok p => p | Throw _ => [] end.

Definition trip_options : TransitTickOptions := default_tick_options "it-1".

Definition seen_at (second x y : Z) : FixInput :=
  {| fix_coords := at_ x y; fix_accuracy := num_of_Z 5; fix_heading := None;
     fix_speed := None; fix_timestampMs := second * 1000; fix_coasted := false |}.

Definition see (second x y : Z) : TickInput :=
  {| in_fix := Some (seen_at second x y); in_action := None; in_nowMs := second * 1000 |}.

Definition tap (second : Z) (type : RiderActionType) (leg : Z) : TickInput :=
  {| in_fix := None; in_action := Some {| act_type := type; act_legIndex := leg |}; in_nowMs := second * 1000 |}.

Definition setting_out : TransitTickState := freshTransitTickState 0 trip.

Definition ride (s : TransitTickState) (inputs : list TickInput)
    : list TransitNavigationEvent * TransitTickState :=
  match journey trip trip_captures trip_options trip_prepared [] s inputs with
  | Ok told => told
  | Throw _ => ([], s)
  end.

Definition whole_ride : list TickInput :=
  [see 10 10 0; see 20 20 0; tap 25 Board 1; see 60 20 30; see 90 20 60; see 120 20 98;
   tap 125 Alight 1; see 200 30 100].

Example the_ride : map ev_id (ride setting_out whole_ride).1 =
  ["it-1:transfer:0:1"; "it-1:board:1"; "it-1:approaching-alight:1"; "it-1:alight:1"; "it-1:transfer:1:2"; "it-1:arrival:2"].
Proof. vm_compute. reflexivity. Qed.

(** The result of one tick. *)
Definition one_tick (s : TransitTickState) (i : TickInput) : outcome TransitTickResult :=
  processTransitFix trip trip_captures s (in_fix i) (in_action i) (in_nowMs i) trip_options trip_prepared [].

Definition result (s : TransitTickState) (i : TickInput) : TransitTickResult :=
  match one_tick s i with
  | Ok r => r
  | Throw _ => {| res_state := s; res_events := []; res_confidence := ConfStale; res_needsReplan := false;
                  res_actionRejected := false; res_rejectedReason := None |}
  end.

Definition answered (s : TransitTickState) (i : TickInput) : bool :=
  match one_tick s i with Ok _ => true | Throw _ => false end.

Lemma answered_result s i : answered s i = true ->
  processTransitFix trip trip_captures s (in_fix i) (in_action i) (in_nowMs i) trip_options trip_prepared [] =
    Ok (result s i).
Proof. change (answered s i = true -> one_tick s i = Ok (result s i)). unfold answered, result. by destruct (one_tick s i). Qed.

Definition rode (s : TransitTickState) (inputs : list TickInput) : bool :=
  match journey trip trip_captures trip_options trip_prepared [] s inputs with
  | Ok _ => true | Throw _ => false
  end.

Lemma rode_ride s inputs : rode s inputs = true ->
  journey trip trip_captures trip_options trip_prepared [] s inputs = Ok (ride s inputs).
Proof. unfold rode, ride. by destruct (journey _ _ _ _ _ _ _). Qed.

(** Six events, each told once, and all of them in the ledger. *)
Lemma no_transit_event_is_told_twice_witness :
  let told := ride setting_out whole_ride in
  length told.1 = 6%nat /\ NoDup (ids told.1) /\ t_emittedEventIds told.2 = ids told.1.
Proof.
  assert (length (ride setting_out whole_ride).1 = 6%nat) as Hlen by (vm_compute; reflexivity).
  assert (rode setting_out whole_ride = true) as Hr by (vm_compute; reflexivity).
  apply rode_ride in Hr. cbv zeta. split; [exact Hlen|].
  generalize dependent (ride setting_out whole_ride). intros told Hlen Hr.
  destruct (no_transit_event_is_told_twice trip trip_captures trip_options trip_prepared []
              setting_out whole_ride told) as (_ & _ & Hnd & Hledger).
  - constructor.
  - apply Nat.le_0_l.
  - exact Hr.
  - assert (length (ids told.1) = 6%nat) as Hids by (unfold ids; rewrite length_map; exact Hlen).
    split.
    + specialize (Hnd 0%nat). rewrite drop_0 in Hnd. cbn [setting_out freshTransitTickState t_emittedEventIds app] in Hnd.
      fold (ids told.1) in Hnd. rewrite take_ge in Hnd by (rewrite Hids; lia). exact Hnd.
    + rewrite Hledger. cbn [setting_out freshTransitTickState t_emittedEventIds app]. fold (ids told.1).
      rewrite Hids. reflexivity.
Defined.

Definition aboard : TransitTickState := (ride setting_out (take 3 whole_ride)).2.

(** Aboard, a position half way keeps the rider aboard the same bus. *)
Lemma positions_never_board_or_alight_witness :
  let r := result aboard (see 60 20 30) in
  t_phase (res_state r) = Riding /\ t_currentLegIndex (res_state r) = 1.
Proof.
  assert (answered aboard (see 60 20 30) = true) as Hr by (vm_compute; reflexivity).
  assert (t_phase (settle_phase (legs_of trip) aboard) = Riding) as Hp by (vm_compute; reflexivity).
  assert (t_currentLegIndex (settle_phase (legs_of trip) aboard) = 1) as Hl by (vm_compute; reflexivity).
  apply answered_result in Hr. cbv zeta. generalize dependent (result aboard (see 60 20 30)). intros r Hr.
  generalize dependent aboard. intros s Hp Hl Hr. cbn [see in_fix in_action in_nowMs] in Hr.
  destruct (positions_never_board_or_alight trip trip_captures s (Some (seen_at 60 20 30)) (60 * 1000)
              trip_options trip_prepared [] r Hr) as (H1 & H2 & _).
  split; [exact (proj2 H1 Hp)|]. rewrite (H2 Hp). exact Hl.
Defined.

(** A minute after boarding, with a position in between, the rider takes it back. *)
Lemma an_undo_takes_the_rider_back_witness :
  let s := (ride setting_out (take 2 whole_ride)).2 in
  let r := result s (tap 25 Board 1) in
  let told := ride (res_state r) [see 60 20 30] in
  let r' := result told.2 (tap 85 Undo 1) in
  t_phase (res_state r) = Riding /\ res_actionRejected r' = false /\
  previous_of (res_state r') = previous_of (settle_phase (legs_of trip) s).
Proof.
  cbv zeta. set (s := (ride setting_out (take 2 whole_ride)).2).
  assert (answered s (tap 25 Board 1) = true) as H1 by (vm_compute; reflexivity).
  assert (rode (res_state (result s (tap 25 Board 1))) [see 60 20 30] = true) as H2 by (vm_compute; reflexivity).
  assert (answered (ride (res_state (result s (tap 25 Board 1))) [see 60 20 30]).2 (tap 85 Undo 1) = true)
    as H3 by (vm_compute; reflexivity).
  assert (t_phase (res_state (result s (tap 25 Board 1))) = Riding) as H4 by (vm_compute; reflexivity).
  assert (res_actionRejected (result s (tap 25 Board 1)) = false) as H5 by (vm_compute; reflexivity).
  apply answered_result in H1, H3. apply rode_ride in H2. split; [exact H4|].
  generalize dependent (result (ride (res_state (result s (tap 25 Board 1))) [see 60 20 30]).2 (tap 85 Undo 1)).
  intros r' H3. generalize dependent (ride (res_state (result s (tap 25 Board 1))) [see 60 20 30]).
  intros told H2 H3. generalize dependent (result s (tap 25 Board 1)). intros r H1 _ H5 H2.
  clearbody s. cbn [tap in_fix in_action in_nowMs] in H1, H3.
  destruct (an_undo_takes_the_rider_back trip trip_captures trip_options trip_prepared [] s None
              {| act_type := Board; act_legIndex := 1 |} (25 * 1000) r [see 60 20 30] told (85 * 1000) r')
    as (Hok & Hprev & _); [discriminate|exact H1|exact H5|by repeat constructor|exact H2|lia|exact H3|].
  split; [exact Hok|exact Hprev].
Defined.

(** A position of a minute ago is refused, and the ride stays where it is. *)
Lemma a_refused_position_counts_for_nothing_witness :
  let stale := {| in_fix := Some (seen_at 60 20 30); in_action := None; in_nowMs := 120 * 1000 |} in
  let r := result aboard stale in
  res_rejectedReason r = Some StaleFix /\ res_events r = [].
Proof.
  cbv zeta. set (stale := {| in_fix := _; in_action := _; in_nowMs := _ |}).
  assert (answered aboard stale = true) as Hr by (vm_compute; reflexivity).
  assert (res_rejectedReason (result aboard stale) = Some StaleFix) as Hs by (vm_compute; reflexivity).
  apply answered_result in Hr. split; [exact Hs|].
  generalize dependent (result aboard stale). intros r Hr Hs.
  generalize dependent aboard. intros s Hr. subst stale. cbn [in_fix in_action in_nowMs] in Hr.
  apply (a_refused_position_counts_for_nothing trip trip_captures s (Some (seen_at 60 20 30)) (120 * 1000)
           trip_options trip_prepared [] r Hr). right. rewrite Hs. by eexists.
Defined.



End flat_ride.
