(* ===== verification/TransitSession.v ===== *)
(** * The session of a journey

    apps/mobile/src/navigation/transit/transitSession.ts: which captured package is a
    journey that can be followed, its first session, and the location cadence each
    phase deserves. *)

From S2P Require Import Prelude Doubles Protocol Session Itinerary StopAreas Captures StopCursor Location Processor TransitEngine TransitEngineFacts.

(** ** The package *)

(** [legs.some((leg) => leg.mode !== "walking" && leg.route)] *)
Fixpoint has_ride (legs : list json) : outcome bool :=
  match legs with
  | [] => Ok false
  | leg :: rest =>
      mode ← member "mode" (Some leg);
      if negb (is_text "walking" mode) && truthy (json_field "route" leg) then Ok true
      else has_ride rest
  end.

(** [validateTransitStartPackage]: a package of the wire's shape, or anything else. *)
Definition validateTransitStartPackage (value : Unvalidated)
    : outcome (TransitNavigationStartPackage + string) :=
  match value with
  | Junk | Candidate (GroundPackage _) => Ok (inr "invalid-package")
  | Candidate (TransitPackage p) =>
      if negb (transitStartPackageSchema p) then Ok (inr "invalid-package")
      else
        let legs := legs_of (tp_itinerary p) in
        if negb (truthy (opt_field "to" (last legs))) then Ok (inr "no-destination")
        else
          ride ← has_ride legs;
          if negb ride then Ok (inr "no-transit-leg")
          else if existsb (fun c => Z.of_nat (length legs) <=? tc_legIndex c) (tp_captures p)
          then Ok (inr "capture-leg-mismatch")
          else Ok (inl p)
  end.

(** ** The first session *)

(** [typeof itinerary.refreshToken === "string" ? ... : null] *)
Definition token_of (itinerary : Itinerary) : option string := json_string (field "refreshToken" itinerary).

(** A text that counts as true. *)
Definition has_text (s : option string) : bool :=
  match s with Some t => negb (String.eqb t "") | None => false end.

(** The refresh runtime of a package nobody has asked about yet. *)
Definition fresh_refresh (p : TransitNavigationStartPackage) (generation : Z) : RefreshRuntime :=
  {| rf_status := if has_text (token_of (tp_itinerary p))
                     || match tp_captures p with [] => false | _ => true end
                  then RfReady else RfBroken;
     rf_generation := generation; rf_requestId := None; rf_nextAttemptAtMs := None;
     rf_attempts := 0; rf_firstAttemptAtMs := None; rf_ambiguousAttempts := None |}.

(** The payload of a journey nobody has begun. *)
Definition fresh_journey (p : TransitNavigationStartPackage) (generation nowMs : Z) : TransitPayload :=
  {| p_startPackage := p; p_navigationDataRevision := None;
     p_tickState := freshTransitTickState nowMs (tp_itinerary p); p_progress := None;
     p_confidence := ConfGps; p_refreshToken := token_of (tp_itinerary p);
     p_refresh := fresh_refresh p generation; p_scheduledAlerts := [] |}.

Definition createTransitPreparingSession (p : TransitNavigationStartPackage) (sid : string)
    (mode : PermissionMode) (nowMs : Z) : MobileNavigationSession :=
  {| schemaVersion := MOBILE_NAVIGATION_SESSION_SCHEMA_VERSION;
     sessionId := sid; revision := 1; status := Preparing;
     startedAtMs := nowMs; updatedAtMs := nowMs;
     expiresAtMs := nowMs + MOBILE_NAVIGATION_SESSION_MAX_AGE_MS;
     locale := tp_locale p; units := tp_units p;
     connectivity := NetUnknown; permissionMode := mode;
     cueLedger := {| spoken := []; events := [] |};
     lastAcceptedFix := None;
     payload := TransitSession (fresh_journey p 0 nowMs) |}.

(** ** The cadence *)

Definition NEAR_EVENT_SECONDS : Z := 300.

Definition transitProfileFor (p : TransitPayload) : LocationProfileKind :=
  let tickState := p_tickState p in
  match t_phase tickState with
  | PhaseWalking | Transferring => ProfileWalking
  | WaitingToBoard => TransitNearEvent
  | PhaseArrived => ProfileWalking
  | Riding =>
      match List.find (fun entry => tc_legIndex entry =? t_currentLegIndex tickState)
              (tp_captures (p_startPackage p)) with
      | Some capture =>
          if match tc_status capture with Captured => true | Missing => false end
             && match tc_stops capture with [] => false | _ => true end
             && (Z.of_nat (length (tc_stops capture)) - default 1 (t_stopCursor tickState) <=? 2)
          then TransitNearEvent else TransitCruise
      | None => TransitCruise
      end
  end.

Definition transitProfileForTime `{DateParser} (p : TransitPayload) (nowMs : Z) : LocationProfileKind :=
  match transitProfileFor p with
  | TransitCruise =>
      match leg_at (legs_of (tp_itinerary (p_startPackage p)))
              (t_currentLegIndex (p_tickState p)) with
      | Some leg =>
          let endTime := json_field "endTime" leg in
          match endTime with
          | Some value =>
              if negb (truthy endTime) then TransitCruise
              else
                let endsAtMs := date_getTime value in
                if negb (num_is_finite endsAtMs) then TransitCruise
                else if num_le (num_sub endsAtMs (num_of_Z nowMs))
                          (num_of_Z (NEAR_EVENT_SECONDS * 1000))
                then TransitNearEvent else TransitCruise
          | None => TransitCruise
          end
      | None => TransitCruise
      end
  | byPhase => byPhase
  end.

(** ** Facts *)

(** What an accepted package is. *)
Record navigable (p : TransitNavigationStartPackage) : Prop := {
  nav_schema : transitStartPackageSchema p = true;
  nav_legs : (0 < length (legs_of (tp_itinerary p)))%nat;
  nav_destination : exists leg, last (legs_of (tp_itinerary p)) = Some leg /\
    truthy (json_field "to" leg) = true;
  nav_ride : exists leg, leg ∈ legs_of (tp_itinerary p) /\
    truthy (json_field "route" leg) = true /\ is_text "walking" (json_field "mode" leg) = false;
  nav_captures : Forall (fun c => tc_legIndex c < Z.of_nat (length (legs_of (tp_itinerary p))))
    (tp_captures p);
}.

Lemma has_ride_spec legs b : has_ride legs = Ok b ->
  b = true <-> exists leg, leg ∈ legs /\ truthy (json_field "route" leg) = true /\
    is_text "walking" (json_field "mode" leg) = false.
Proof.
  revert b. induction legs as [|leg legs IH]; intros b; cbn [has_ride].
  { intros <-%Ok_inj. split; [done|]. by intros (leg & ?%elem_of_nil & _). }
  intros (mode & Hm & Hb)%outcome_bind_ok.
  assert (json_field "mode" leg = mode) as <- by (unfold member in Hm; by destruct leg; simplify_eq).
  destruct (is_text "walking" _) eqn:Ew; cbn [negb andb] in Hb.
  2: destruct (truthy _) eqn:Er.
  - rewrite IH by done. split; intros (l & Hl & Hr & Hw); exists l; split_and!; try done; [by right|].
    apply elem_of_cons in Hl as [->|]; [congruence|done].
  - apply Ok_inj in Hb as <-. split; [|done]. intros _. exists leg. split_and!; [by left|done|done].
  - rewrite IH by done. split; intros (l & Hl & Hr & Hw); exists l; split_and!; try done; [by right|].
    apply elem_of_cons in Hl as [->|]; [congruence|done].
Qed.

(** A package is accepted only as a journey that ends somewhere, has a ride, and whose
    captures are of its own legs. *)
Lemma accepted_is_navigable u p : validateTransitStartPackage u = Ok (inl p) ->
  u = Candidate (TransitPackage p) /\ navigable p.
Proof.
  unfold validateTransitStartPackage. destruct u as [[g|q]|]; [done| |done].
  destruct (transitStartPackageSchema q) eqn:Es; cbn [negb]; [|done].
  destruct (truthy _) eqn:Et; cbn [negb]; [|done].
  intros (ride & Hr & Hp)%outcome_bind_ok. destruct ride; cbn [negb] in Hp; [|done].
  destruct (existsb _ _) eqn:Ee; [done|]. apply Ok_inj in Hp as [= ->]. split; [done|].
  unfold opt_field in Et. destruct (last (legs_of (tp_itinerary p))) as [leg|] eqn:El; [|done].
  split.
  - done.
  - destruct (legs_of _); [done|]. cbn. lia.
  - by exists leg.
  - by apply (has_ride_spec _ true Hr).
  - apply Forall_forall. intros c Hc. apply Z.leb_gt.
    destruct (Z.leb _ _) eqn:E; [|done]. rewrite <- Ee. symmetry. apply existsb_exists. exists c.
    split; [by apply list_elem_of_In|done].
Qed.

Lemma fresh_tick_wf itinerary nowMs : (0 < length (legs_of itinerary))%nat ->
  safeInteger nowMs = true -> tick_wf (legs_of itinerary) (freshTransitTickState nowMs itinerary).
Proof. intros Hl Hn. split; cbn; try done; try lia. Qed.

(** The legs a session can name. *)
Definition legs_fit (itinerary : Itinerary) : Prop := Z.of_nat (length (legs_of itinerary)) <= 513.

Lemma fresh_journey_ok `{ReceiptValidators} p generation nowMs :
  navigable p -> legs_fit (tp_itinerary p) -> safeInteger nowMs = true ->
  0 <= generation <= MAX_SAFE_INTEGER ->
  opt_ok (max_text 4096) (token_of (tp_itinerary p)) = true ->
  transitPayloadSchema (fresh_journey p generation nowMs) = true.
Proof.
  intros [Hs Hl _ _ _] Hf Hn Hg Ht. unfold transitPayloadSchema, fresh_journey.
  cbn [p_startPackage p_navigationDataRevision p_tickState p_refreshToken p_refresh p_scheduledAlerts].
  rewrite Hs, Ht. rewrite (wf_schema (legs_of (tp_itinerary p))); [|by apply fresh_tick_wf|done|done].
  unfold refreshSchema, fresh_refresh. cbn [rf_generation rf_requestId rf_nextAttemptAtMs
    rf_firstAttemptAtMs rf_ambiguousAttempts rf_attempts opt_ok].
  assert (int_within 0 MAX_SAFE_INTEGER generation = true) as ->; [|done].
  unfold int_within. apply andb_true_iff. split; apply Z.leb_le; lia.
Qed.

(** The first session of an accepted package can be read back, as long as its rotating
    token is no longer than the stored schema allows. *)
Lemma first_session_is_readable `{ReceiptValidators} u p sid mode nowMs :
  validateTransitStartPackage u = Ok (inl p) -> legs_fit (tp_itinerary p) ->
  boundedId sid = true -> safeInteger nowMs = true ->
  safeInteger (nowMs + MOBILE_NAVIGATION_SESSION_MAX_AGE_MS) = true ->
  opt_ok (max_text 4096) (token_of (tp_itinerary p)) = true ->
  mobileNavigationSessionSchema (createTransitPreparingSession p sid mode nowMs) = true.
Proof.
  intros [_ Hp]%accepted_is_navigable Hf Hid Hn He Ht.
  unfold mobileNavigationSessionSchema, baseSessionShape, hasCoherentLifetime, createTransitPreparingSession.
  cbn [schemaVersion sessionId revision startedAtMs updatedAtMs expiresAtMs cueLedger lastAcceptedFix payload
       payloadSchema opt_ok].
  rewrite fresh_journey_ok by (done || unfold MAX_SAFE_INTEGER; lia).
  rewrite Hid, Hn, He. cbn [andb].
  assert (nowMs <? nowMs = false) as -> by (apply Z.ltb_ge; lia).
  assert (nowMs + MOBILE_NAVIGATION_SESSION_MAX_AGE_MS <=? nowMs = false) as ->
    by (apply Z.leb_gt; unfold MOBILE_NAVIGATION_SESSION_MAX_AGE_MS; lia).
  cbn. apply Z.leb_le. lia.
Qed.
