(* ===== verification/Engine.v ===== *)
(** * The guidance engine

    packages/core/src/navigation: the off-route score and the reroute decision
    (reroute.ts), the voice schedule (voiceCue.ts) and one tick of the engine over
    a fix (processFix.ts, eta.ts), put together from the matcher, the manoeuvre
    positions, the step gate and the speed filter.  The engine's own extras of a
    tick state pass through the session schema as the record they are, so they are
    read back from it here. *)

From S2P Require Import Prelude Doubles Protocol Cues Geodesy RouteMatcher Maneuver Progress Session Speed Guidance.

#[local] Open Scope num_scope.

(** ** The extras of a tick state *)

Definition extra (key : string) (t : NavTickState) : option json := field key (tick_extra t).

Definition extra_number (key : string) (t : NavTickState) : option number :=
  match extra key t with Some (JNum n) => Some n | _ => None end.

Definition extra_point (key : string) (t : NavTickState) : option LngLat :=
  match extra key t with Some j => json_point j | None => None end.

(** An index the engine wrote. *)
Definition extra_index (key : string) (t : NavTickState) : option Z :=
  match extra key t with Some (JNum (Fin q)) => Some (q_trunc q) | _ => None end.

Definition extra_flag (key : string) (t : NavTickState) : option bool :=
  match extra key t with Some (JBool b) => Some b | _ => None end.

Definition JZ (z : Z) : json := JNum (num_of_Z z).
Definition JPoint (p : LngLat) : json := JArr [JNum p.1; JNum p.2].

(** ** Leaving the route *)

Definition DEAD_BAND_METERS : number := literal 1 2.

Definition updateOffRouteScore (prevScore : number) (offRoute moving wrongDirection : bool)
    (deviation : number) (lastDeviation : option number) : number :=
  if negb offRoute then 0
  else
    let stationaryJitter :=
      negb moving && match lastDeviation with
                     | Some d => num_abs (deviation - d) <? DEAD_BAND_METERS
                     | None => false
                     end in
    if stationaryJitter then prevScore
    else prevScore + (if moving then 2 else 1) + (if wrongDirection then 1 else 0).

(** [lastRerouteAtMs !== null && nowMs - lastRerouteAtMs < backoffMs] *)
Definition within_backoff (lastRerouteAtMs : option Z) (backoffMs : number) (nowMs : Z) : bool :=
  match lastRerouteAtMs with
  | Some last => num_of_Z (nowMs - last) <? backoffMs
  | None => false
  end.

Definition shouldReroute (score : number) (lastRerouteAtMs : option Z) (backoffMs : number)
    (nowMs : Z) (opts : RerouteOpts) : bool :=
  if score <? scoreThreshold opts then false
  else negb (within_backoff lastRerouteAtMs backoffMs nowMs).

Definition shouldRerouteForClosure (closureAhead : bool) (lastRerouteAtMs : option Z)
    (backoffMs : number) (nowMs : Z) : bool :=
  if negb closureAhead then false else negb (within_backoff lastRerouteAtMs backoffMs nowMs).

Definition pruneRerouteTimes (timestampsMs : list Z) (nowMs windowMs : Z) : list Z :=
  List.filter (fun t => (nowMs - t <? windowMs)%Z) timestampsMs.

Definition isReroutingTooOften (timestampsMs : list Z) (maxInWindow : Z) : bool :=
  (maxInWindow <=? Z.of_nat (length timestampsMs))%Z.

(** ** The voice schedule *)

Definition tier_name (t : CueTier) : string :=
  match t with TierFar => "far" | TierNear => "near" | TierNow => "now" end.

Definition cue_key_of (stepIndex : Z) (t : CueTier) : string :=
  (show_Z stepIndex ++ ":" ++ tier_name t)%string.

(** The trigger distances at a speed: now, near, far. *)
Definition cue_triggers (currentSpeedMps : number) (config : VoiceScheduleConfig)
    (multiplier : number) : number * number * number :=
  let speed := num_max currentSpeedMps 0 in
  let m := if multiplier >? 0 then multiplier else 1 in
  let speedRatio := num_max speed (refSpeedMps config) / refSpeedMps config in
  let latency := speed * ttsDelaySeconds config in
  (num_max (nowFloorMeters config) (nowSeconds config * speed) * m + latency,
   nearMeters config * speedRatio * m + latency,
   farMeters config * speedRatio * m + latency).

Definition cue_tier_at (distanceToManeuver : number) (triggers : number * number * number)
    : option CueTier :=
  if distanceToManeuver <=? triggers.1.1 then Some TierNow
  else if distanceToManeuver <=? triggers.1.2 then Some TierNear
  else if distanceToManeuver <=? triggers.2 then Some TierFar
  else None.

Definition nextVoiceCue (step : json) (stepIndex : Z) (distanceToManeuver currentSpeedMps : number)
    (config : VoiceScheduleConfig) (multiplier : number) (spoken : list string) : option VoiceCue :=
  match cue_tier_at distanceToManeuver (cue_triggers currentSpeedMps config multiplier) with
  | None => None
  | Some tier =>
      let key := cue_key_of stepIndex tier in
      if includes key spoken then None
      else Some {| cue_key := key; cue_tier := tier; cue_step := step; cue_stepIndex := stepIndex;
                   cue_distance := distanceToManeuver |}
  end.

(** [eta] *)
Definition eta (durationRemainingSec : number) (nowMs : Z) : number :=
  num_of_Z nowMs + durationRemainingSec * 1000.

(** ** A tick *)

Definition WRONG_DIRECTION_DEG : number := 90.
Definition U_TURN_DEG : number := 135.
Definition U_TURN_SUSTAIN_MS : number := 10000.
Definition MIN_MOTION_METERS : number := 3.

Section engine.
Context `{MathFunctions} `{Turf}.

(** [motionBearing]: where the traveller is heading, when it can be told. *)
Definition motionBearing (fix_ : FixInput) (lastRaw : option LngLat) (moving : bool) : option number :=
  if negb moving then None
  else
    let derived :=
      match lastRaw with
      | Some l => if haversineDistance l (fix_coords fix_) >=? MIN_MOTION_METERS
                  then Some (bearingBetween l (fix_coords fix_)) else None
      | None => None
      end in
    match fix_heading fix_ with
    | Some h => if h >=? 0 then Some h else derived
    | None => derived
    end.

Definition rejected_tick (state : NavTickState) : NavTickResult :=
  {| tick_progress := None; accuracyRejected := true; tick_weakGps := true;
     tick_offRoute := false; needsReroute := false; arrived := false; voiceCue := None;
     nextState := state |}.

(** A fix too inaccurate to use, or without a position. *)
Definition unusable (fix_ : FixInput) (opts : NavTickOptions) : bool :=
  (fix_accuracy fix_ >? accuracyCapMeters opts) || negb (finite_point (fix_coords fix_)).

(** What a usable fix says of leaving the route. *)
Record Departure := {
  dep_offRoute : bool;
  dep_wrongDirection : bool;
  dep_uTurnSinceMs : option number;
  dep_score : number;
  dep_currentBackoff : number;
  dep_needsReroute : bool;
}.

Definition departure (fix_ : FixInput) (state : NavTickState) (opts : NavTickOptions)
    (deviationMeters routeBearing : number) (moving : bool) : Departure :=
  let r := opt_reroute opts in
  let now := fix_timestampMs fix_ in
  let offRoute := deviationMeters >? thresholdMeters r + fix_accuracy fix_ in
  let heading := motionBearing fix_ (extra_point "lastRaw" state) moving in
  let bearingOff := match heading with
                    | Some h => Some (angularDiff h routeBearing) | None => None end in
  let off limit := match bearingOff with Some b => b >? limit | None => false end in
  let wrongDirection := offRoute && off WRONG_DIRECTION_DEG in
  let uTurnSinceMs :=
    if off U_TURN_DEG
    then Some (default (num_of_Z now) (extra_number "uTurnSinceMs" state)) else None in
  let sustainedUTurn := match uTurnSinceMs with
                        | Some since => num_of_Z now - since >=? U_TURN_SUSTAIN_MS
                        | None => false
                        end in
  let score := updateOffRouteScore (offRouteScore state) offRoute moving wrongDirection
                 deviationMeters (extra_number "lastDeviation" state) in
  let decisionScore := if sustainedUTurn then num_max score (scoreThreshold r) else score in
  let currentBackoff := if rerouteBackoffMs state >? 0 then rerouteBackoffMs state
                        else backoffBaseMs r in
  let decisionBackoff := if wrongDirection then backoffBaseMs r else currentBackoff in
  {| dep_offRoute := offRoute; dep_wrongDirection := wrongDirection;
     dep_uTurnSinceMs := uTurnSinceMs; dep_score := score; dep_currentBackoff := currentBackoff;
     dep_needsReroute := shouldReroute decisionScore (lastRerouteAtMs state) decisionBackoff now r |}.

(** The back-off after a tick. *)
Definition next_backoff (d : Departure) (r : RerouteOpts) : number :=
  if dep_needsReroute d then num_min (dep_currentBackoff d * literal 15 10) (backoffMaxMs r)
  else if negb (dep_offRoute d) || dep_wrongDirection d then backoffBaseMs r
  else dep_currentBackoff d.

(** Within the threshold of the destination, on foot and on paper, with a real fix
    and the last travel step committed. *)
Definition has_arrived (route : Route) (fix_ : FixInput) (opts : NavTickOptions)
    (distanceRemaining : number) (committed : Z) : bool :=
  let lastIndex := (Z.of_nat (length (route_steps route)) - 1)%Z in
  negb (fix_coasted fix_)
  && match last (route_geometry route) with
     | Some destination =>
         haversineDistance (fix_coords fix_) destination <=? arrivalThresholdMeters opts
     | None => false
     end
  && (distanceRemaining <=? arrivalThresholdMeters opts)
  && ((length (route_steps route) =? 0)%nat || (lastIndex - 1 <=? committed)%Z).

Definition progress_record (prog : ProgressResult) (snap : SnapResult) (now : Z)
    (bearing speedMps : number) : NavProgress :=
  {| np_record :=
       [("currentStepIndex", JZ (currentStepIndex prog));
        ("distanceToNextManeuver", JNum (distanceToNextManeuver prog));
        ("distanceRemaining", JNum (distanceRemaining prog));
        ("durationRemaining", JNum (durationRemaining prog));
        ("snapped", JPoint (snap_snapped snap));
        ("alongMeters", JNum (snap_alongMeters snap));
        ("deviationMeters", JNum (snap_deviationMeters snap));
        ("segmentIndex", JZ (snap_segmentIndex snap));
        ("etaEpochMs", JNum (eta (durationRemaining prog) now));
        ("bearing", JNum bearing);
        ("speedMps", JNum speedMps)];
     np_segmentIndex := snap_segmentIndex snap |}.

(** The rest of a tick, once the fix is on the route and the gate has moved. *)
Definition tick (route : Route) (fix_ : FixInput) (state : NavTickState) (opts : NavTickOptions)
    (snap : SnapResult) (gate : StepGateState) (prog : ProgressResult) : NavTickResult :=
  let now := fix_timestampMs fix_ in
  let '(speedMps, speedEstimate) :=
    navigationSpeed (speedEstimate state) fix_ (snap_alongMeters snap) in
  let moving := speedMps >? minMovingSpeedMps opts in
  let routeBearing := bearingAt (route_geometry route) (snap_segmentIndex snap) in
  let d := departure fix_ state opts (snap_deviationMeters snap) routeBearing moving in
  let arrived := has_arrived route fix_ opts (distanceRemaining prog) (committedStepIndex gate) in
  let upcomingIndex :=
    upcomingManeuverIndex (currentStepIndex prog) (Z.of_nat (length (route_steps route))) in
  let cue :=
    match route_steps route !! Z.to_nat upcomingIndex with
    | Some step =>
        if arrived || dep_offRoute d then None
        else nextVoiceCue step upcomingIndex (distanceToNextManeuver prog) speedMps
               (opt_voice opts) (announceMultiplier opts) (spokenCues state)
    | None => None
    end in
  {| tick_progress := Some (progress_record prog snap now routeBearing speedMps);
     accuracyRejected := false;
     tick_weakGps := fix_accuracy fix_ >? weakGpsMeters opts;
     tick_offRoute := dep_offRoute d;
     needsReroute := dep_needsReroute d;
     arrived := arrived;
     voiceCue := cue;
     nextState :=
       {| offRouteScore := if dep_needsReroute d then 0 else dep_score d;
          lastRerouteAtMs := if dep_needsReroute d then Some now else lastRerouteAtMs state;
          rerouteBackoffMs := next_backoff d (opt_reroute opts);
          spokenCues := spokenCues state ++ match cue with Some c => [cue_key c] | None => [] end;
          speedEstimate := speedEstimate;
          tick_extra :=
            [("lastAlongMeters", JNum (snap_alongMeters snap));
             ("lastFixMs", JZ now);
             ("lastRaw", JPoint (fix_coords fix_));
             ("lastDeviation", JNum (snap_deviationMeters snap));
             ("uTurnSinceMs", if dep_needsReroute d then JNull
                              else match dep_uTurnSinceMs d with
                                   | Some u => JNum u | None => JNull end);
             ("committedStepIndex", JZ (committedStepIndex gate));
             ("reachedStepEnd", JBool (reachedStepEnd gate))] |} |}.

(** [routeMatcherFor]: a matcher built for another geometry is never used. *)
Definition routeMatcherFor (geometry : list LngLat) (supplied : MatcherIndex) : MatcherIndex :=
  if decide (coords supplied = geometry) then supplied else buildIndex geometry.

Definition engine_processFix (route : Route) (fix_ : FixInput) (state : NavTickState)
    (opts : NavTickOptions) (matcher : MatcherIndex) : outcome NavTickResult :=
  if unusable fix_ opts then Ok (rejected_tick state)
  else
    match snapPreparedRoute (routeMatcherFor (route_geometry route) matcher) (fix_coords fix_) None with
    | Throw e => Throw e
    | Ok snap =>
        match advanceStepGate route (snap_alongMeters snap)
                {| committedStepIndex := default 0%Z (extra_index "committedStepIndex" state);
                   reachedStepEnd := default false (extra_flag "reachedStepEnd" state) |}
                (stepGateEntryMeters opts) (stepGateExitMeters opts) with
        | Throw e => Throw e
        | Ok gate =>
            match computeProgress route (snap_alongMeters snap) (Some (committedStepIndex gate)) with
            | Throw e => Throw e
            | Ok prog => Ok (tick route fix_ state opts snap gate prog)
            end
        end
    end.
End engine.
