(* ===== verification/EngineFacts.v ===== *)
(** * What the guidance engine keeps

    The invariant of the tick states [Engine] hands back, the laws of [Guidance] it
    satisfies, and what holds along a whole journey: no cue twice, reroutes apart,
    arrival only when it is earned, the committed step never back. *)

From S2P Require Import Prelude Text Doubles Protocol Cues Geodesy RouteMatcher RouteMatcherFacts Maneuver ManeuverFacts Progress.
From S2P Require Import Session Speed Guidance Engine.
From Stdlib Require Import QArith_base Qround Qabs Lqa.
#[local] Open Scope Z_scope.

(** ** The cues *)

Section cues.
Context `{MathFunctions} `{Turf}.

Lemma rejected_or_ticked route f state opts m r :
  engine_processFix route f state opts m = Ok r ->
  (unusable f opts = true /\ r = rejected_tick state) \/
  (unusable f opts = false /\ exists snap gate prog,
     snapPreparedRoute (routeMatcherFor (route_geometry route) m) (fix_coords f) None = Ok snap /\
     advanceStepGate route (snap_alongMeters snap)
       {| committedStepIndex := default 0%Z (extra_index "committedStepIndex" state);
          reachedStepEnd := default false (extra_flag "reachedStepEnd" state) |}
       (stepGateEntryMeters opts) (stepGateExitMeters opts) = Ok gate /\
     computeProgress route (snap_alongMeters snap) (Some (committedStepIndex gate)) = Ok prog /\
     r = tick route f state opts snap gate prog).
Proof.
  unfold engine_processFix. intros Hr. destruct (unusable f opts); [left; by injection Hr as <-|right].
  split; [done|].
  destruct (snapPreparedRoute _ _ _) as [snap|] eqn:E1; [|discriminate].
  destruct (advanceStepGate _ _ _ _ _) as [gate|] eqn:E2; [|discriminate].
  destruct (computeProgress _ _ _) as [prog|] eqn:E3; [|discriminate].
  injection Hr as <-. by exists snap, gate, prog.
Qed.

Lemma nextVoiceCue_spec step i d v config m spoken c :
  nextVoiceCue step i d v config m spoken = Some c ->
  cue_key c ∉ spoken /\ cue_key c = cue_key_of i (cue_tier c).
Proof.
  unfold nextVoiceCue. destruct (cue_tier_at _ _) as [t|]; [|discriminate].
  destruct (includes _ _) eqn:E; [discriminate|]. intros [= <-]. cbn [cue_key cue_tier].
  split; [|done]. intros Hin. apply not_true_iff_false in E. apply E.
  unfold includes. apply existsb_exists. eexists. split; [by apply list_elem_of_In|apply String.eqb_refl].
Qed.

Lemma computeProgress_index route along forced prog :
  computeProgress route along (Some forced) = Ok prog -> (0 <= currentStepIndex prog)%Z.
Proof.
  unfold computeProgress. destruct (route_steps route) as [|s l]; [intros [= <-]; cbn; lia|].
  destruct (prepareManeuverPositions route) as [p|]; [|discriminate].
  intros Hp%Ok_inj. subst prog. cbn [currentStepIndex length]. lia.
Qed.

(** The cue of a tick is new, and is about a step of the route. *)
Lemma tick_cue route f state opts snap gate prog c :
  (0 <= currentStepIndex prog)%Z ->
  voiceCue (tick route f state opts snap gate prog) = Some c ->
  cue_key c ∉ spokenCues state /\
  exists i, (0 <= i < Z.of_nat (length (route_steps route)))%Z /\ cue_key c = cue_key_of i (cue_tier c).
Proof.
  intros Hp. unfold tick. destruct (navigationSpeed _ _ _) as [v e]. cbn [voiceCue].
  set (i := upcomingManeuverIndex _ _). destruct (route_steps route !! Z.to_nat i) as [step|] eqn:Es; [|done].
  destruct (_ || _); [done|]. intros Hc. apply nextVoiceCue_spec in Hc as [Hnew Hkey].
  split; [exact Hnew|]. apply lookup_lt_Some in Es. exists i. split; [|exact Hkey].
  unfold i, upcomingManeuverIndex in *. case_match; lia.
Qed.

Lemma tick_spoken route f state opts snap gate prog :
  let r := tick route f state opts snap gate prog in
  spokenCues (nextState r) =
    spokenCues state ++ match voiceCue r with Some c => [cue_key c] | None => [] end.
Proof. unfold tick. by destruct (navigationSpeed _ _ _) as [v e]. Qed.

(** One fix of the engine, as a step between tick states. *)
Definition engine_step (route : Route) (opts : NavTickOptions) (s s' : NavTickState) : Prop :=
  exists f m r, engine_processFix route f s opts m = Ok r /\ s' = nextState r.

(** The keys a route with [n] steps can have spoken. *)
Definition all_keys (n : nat) : list string :=
  flat_map (fun i => map (cue_key_of (Z.of_nat i)) [TierFar; TierNear; TierNow]) (seq 0 n).

Lemma all_keys_length n : length (all_keys n) = (3 * n)%nat.
Proof.
  unfold all_keys. generalize 0%nat at 1. induction n as [|n IH]; intros k; [done|].
  cbn [seq flat_map]. rewrite length_app, IH. simpl. lia.
Qed.

Lemma all_keys_elem n i t : (0 <= i < Z.of_nat n)%Z -> cue_key_of i t ∈ all_keys n.
Proof.
  intros Hi. unfold all_keys. apply list_elem_of_In, in_flat_map. exists (Z.to_nat i).
  split; [apply in_seq; lia|]. rewrite Z2Nat.id by lia. destruct t; simpl; tauto.
Qed.

Definition cues_ok (route : Route) (s : NavTickState) : Prop :=
  NoDup (spokenCues s) /\ spokenCues s ⊆ all_keys (length (route_steps route)).

Lemma engine_step_cues route opts s s' :
  engine_step route opts s s' -> cues_ok route s -> cues_ok route s' /\ spokenCues s `prefix_of` spokenCues s'.
Proof.
  intros (f & m & r & Hr & ->) [Hnd Hin].
  destruct (rejected_or_ticked _ _ _ _ _ _ Hr) as [[_ ->]|(_ & snap & gate & prog & _ & _ & Hp & ->)].
  { cbn [rejected_tick nextState]. by split. }
  apply computeProgress_index in Hp.
  rewrite tick_spoken. destruct (voiceCue _) as [c|] eqn:Ec.
  - destruct (tick_cue _ _ _ _ _ _ _ _ Hp Ec) as [Hnew (i & Hi & Hkey)].
    split; [|by apply prefix_app_r]. unfold cues_ok. rewrite tick_spoken, Ec. split.
    + apply NoDup_app. split_and!; [done| |apply NoDup_singleton].
      intros x Hx Hx'. apply list_elem_of_singleton in Hx' as ->. done.
    + intros x. rewrite elem_of_app, list_elem_of_singleton. intros [Hx| ->]; [by apply Hin|].
      rewrite Hkey. by apply all_keys_elem.
  - unfold cues_ok. rewrite tick_spoken, Ec, app_nil_r. by split.
Qed.
End cues.

(** C23: No cue is spoken twice along a route, and there are not many: whatever fixes
    arrive, with whatever options and matchers, the ledger of cues only grows, never
    repeats a key, and holds at most three for each step of the route.  So a route
    of up to 666 steps never reaches the two thousand cues a stored session may hold. *)
Theorem no_cue_is_spoken_twice `{MathFunctions} `{Turf} route opts s s' :
  rtc (engine_step route opts) s s' -> spokenCues s = [] ->
  NoDup (spokenCues s') /\
  (length (spokenCues s') <= 3 * length (route_steps route))%nat /\
  ((length (route_steps route) <= 666)%nat -> Z.of_nat (length (spokenCues s')) <= MAX_SPOKEN_CUES).
Proof.
  intros Hsteps Hs.
  assert (cues_ok route s') as [Hnd Hin].
  { assert (cues_ok route s) as Hok by (unfold cues_ok; rewrite Hs; split; [constructor|set_solver]).
    clear Hs. induction Hsteps as [s|s1 s2 s3 Hstep _ IH]; [done|].
    apply IH. by apply (engine_step_cues route opts s1). }
  assert (length (spokenCues s') <= 3 * length (route_steps route))%nat as Hlen.
  { rewrite <- all_keys_length. by apply NoDup_incl_length; [apply NoDup_ListNoDup|intros x Hx; apply list_elem_of_In, Hin, list_elem_of_In]. }
  split_and!; [done|done|]. intros Hn. unfold MAX_SPOKEN_CUES. lia.
Qed.

(** ** The committed step *)

Section committed.
Context `{MathFunctions} `{Turf}.

(** The step a tick state has committed, and the last one there is. *)
Definition committed_of (s : NavTickState) : Z := default 0 (extra_index "committedStepIndex" s).
Definition last_step (route : Route) : Z := Z.max 0 (Z.of_nat (length (route_steps route)) - 1).

(** The extras the engine writes are the extras it reads. *)
Lemma tick_extras route f state opts snap gate prog :
  let s := nextState (tick route f state opts snap gate prog) in
  extra_index "committedStepIndex" s = Some (committedStepIndex gate) /\
  extra_flag "reachedStepEnd" s = Some (reachedStepEnd gate) /\
  extra_point "lastRaw" s = Some (fix_coords f) /\
  extra_number "lastDeviation" s = Some (snap_deviationMeters snap).
Proof.
  unfold tick. destruct (navigationSpeed _ _ _) as [v e]. cbn.
  split_and!; [|done| |done].
  - unfold extra_index, extra. cbn. unfold q_trunc. cbn. by rewrite Z.quot_1_r.
  - unfold extra_point, extra. cbn. by destruct (fix_coords f).
Qed.

Lemma advance_range route along prev entry exit_ gate :
  advanceStepGate route along prev entry exit_ = Ok gate ->
  Z.min (Z.max (committedStepIndex prev) 0) (last_step route) <= committedStepIndex gate <= last_step route.
Proof.
  unfold advanceStepGate, last_step. case_match eqn:E.
  - apply Z.leb_le in E. intros [= <-]. cbn [committedStepIndex]. lia.
  - apply Z.leb_gt in E. destruct (prepareManeuverPositions route) as [p|]; [|discriminate].
    intros [= <-]. rewrite (Z.max_r 0) by lia.
    destruct (gate_stops (mp_ends p) (Z.of_nat (length (route_steps route)) - 1) along entry exit_ prev ltac:(lia))
      as [Hr _]. lia.
Qed.

Lemma engine_step_committed route opts s s' :
  engine_step route opts s s' -> 0 <= committed_of s <= last_step route ->
  committed_of s <= committed_of s' <= last_step route.
Proof.
  intros (f & m & r & Hr & ->) Hs.
  destruct (rejected_or_ticked _ _ _ _ _ _ Hr) as [[_ ->]|(_ & snap & gate & prog & _ & Hg & _ & ->)].
  { cbn [rejected_tick nextState]. lia. }
  apply advance_range in Hg. cbn [committedStepIndex] in Hg.
  unfold committed_of at 2 3.
  destruct (tick_extras route f s opts snap gate prog) as [-> _]. cbn [default].
  change (default 0 (extra_index "committedStepIndex" s)) with (committed_of s) in Hg.
  unfold from_option, id. lia.
Qed.

Lemma steps_committed route opts s s' :
  rtc (engine_step route opts) s s' -> 0 <= committed_of s <= last_step route ->
  committed_of s <= committed_of s' <= last_step route.
Proof.
  induction 1 as [s|s1 s2 s3 Hstep _ IH]; intros Hs; [lia|].
  pose proof (engine_step_committed _ _ _ _ Hstep Hs). specialize (IH ltac:(lia)). lia.
Qed.

Lemma tick_arrived route f state opts snap gate prog :
  arrived (tick route f state opts snap gate prog) =
  has_arrived route f opts (distanceRemaining prog) (committedStepIndex gate).
Proof. unfold tick. by destruct (navigationSpeed _ _ _). Qed.

(** A sum that meets [NaN] stays [NaN]. *)
Lemma sum_after_nan l : sum_after NaN l = NaN.
Proof. induction l as [|x l IH]; [done|exact IH]. Qed.

Lemma num_add_nan x : (x + NaN)%num = NaN.
Proof. by destruct x. Qed.

Lemma sum_after_in x l : NaN ∈ l -> sum_after x l = NaN.
Proof.
  revert x. induction l as [|y l IH]; intros x Hin; [by apply not_elem_of_nil in Hin|].
  apply elem_of_cons in Hin as [<-|Hin].
  - change (sum_after x (NaN :: l)) with (sum_after (x + NaN)%num l). rewrite num_add_nan. apply sum_after_nan.
  - exact (IH _ Hin).
Qed.

(** What is left of a route whose last step has no distance is not a number. *)
Lemma distance_unknown route along forced prog step :
  last (route_steps route) = Some step -> step_distance step = NaN ->
  computeProgress route along forced = Ok prog -> distanceRemaining prog = NaN.
Proof.
  intros Hlast Hnan. unfold computeProgress.
  destruct (route_steps route) as [|s0 l] eqn:Es; [done|]. rewrite <- Es in *.
  destruct (prepareManeuverPositions route) as [p|]; [|discriminate].
  intros Hp%Ok_inj. subst prog. cbn [distanceRemaining].
  set (i := raw_step _ _ _ _). rewrite last_lookup in Hlast.
  set (n := length (route_steps route)) in *.
  destruct (decide (Z.to_nat i < pred n)%nat) as [Hlt|Hge].
  - apply sum_after_in. rewrite <- Hnan. apply list_elem_of_fmap_2.
    apply (list_elem_of_lookup_2 _ (pred n - S (Z.to_nat i))%nat).
    rewrite lookup_drop. rewrite <- Hlast. f_equal. lia.
  - assert (default JNull (route_steps route !! Z.to_nat i) = step) as ->.
    { enough (Z.to_nat i = pred n) as -> by by rewrite Hlast.
      enough (i <= Z.of_nat n - 1) by lia.
      assert (forall along k ends, k + Z.of_nat (length ends) <= Z.of_nat n ->
                raw_step along k (Z.of_nat n - 1) ends <= Z.of_nat n - 1) as Hraw.
      { intros a k ends. revert k. induction ends as [|e ends IH]; intros k Hk; cbn [raw_step]; [lia|].
        simpl in Hk. case_match; [lia|]. apply IH. lia. }
      apply Hraw. rewrite length_take. lia. }
    rewrite Hnan. apply sum_after_nan.
Qed.
End committed.

(** The step the traveller is shown never goes back: along any sequence of fixes
    the committed step of the tick state only grows, and stays a step of the route. *)
Theorem committed_step_never_goes_back `{MathFunctions} `{Turf} route opts s s' :
  rtc (engine_step route opts) s s' -> 0 <= committed_of s <= last_step route ->
  committed_of s <= committed_of s' <= last_step route.
Proof. apply steps_committed. Qed.

(** C24: Arrival is earned: the engine reports it only for a real fix, never for a
    coasted one, that is accurate enough and lies within the arrival threshold of the
    last vertex, and after the gate has committed the last travel step. *)
Theorem arrival_is_earned `{MathFunctions} `{Turf} route f state opts m r :
  engine_processFix route f state opts m = Ok r -> arrived r = true ->
  fix_coasted f = false /\ accuracyRejected r = false /\
  num_lt (accuracyCapMeters opts) (fix_accuracy f) = false /\
  (exists destination, last (route_geometry route) = Some destination /\
     num_le (haversineDistance (fix_coords f) destination) (arrivalThresholdMeters opts) = true) /\
  (route_steps route = [] \/ Z.of_nat (length (route_steps route)) - 2 <= committed_of (nextState r)).
Proof.
  intros Hr Ha.
  destruct (rejected_or_ticked _ _ _ _ _ _ Hr) as [[_ ->]|(Hu & snap & gate & prog & _ & _ & _ & ->)];
    [discriminate|].
  rewrite tick_arrived in Ha. unfold has_arrived in Ha. rewrite !andb_true_iff in Ha.
  destruct Ha as [[[Hc Hd] Hrem] Hg]. unfold unusable in Hu. apply orb_false_iff in Hu as [Hu _].
  split_and!.
  - by apply negb_true_iff.
  - unfold tick. by destruct (navigationSpeed _ _ _).
  - exact Hu.
  - destruct (last (route_geometry route)) as [d|]; [by exists d|done].
  - apply orb_true_iff in Hg as [Hg|Hg].
    + left. apply Nat.eqb_eq in Hg. by apply length_zero_iff_nil.
    + right. apply Z.leb_le in Hg. unfold committed_of.
      destruct (tick_extras route f state opts snap gate prog) as [-> _]. cbn. lia.
Qed.

(** A journey whose last step carries no distance never ends.  The wire schema
    lets a step through without one, the engine adds what is missing as [NaN], and
    no fix whatever is then an arrival. *)
Theorem missing_distance_never_arrives `{MathFunctions} `{Turf} route f state opts m r step :
  last (route_steps route) = Some step -> json_field "distance" step = None ->
  engine_processFix route f state opts m = Ok r -> arrived r = false.
Proof.
  intros Hlast Hnone Hr.
  destruct (rejected_or_ticked _ _ _ _ _ _ Hr) as [[_ ->]|(_ & snap & gate & prog & _ & _ & Hp & ->)];
    [done|].
  rewrite tick_arrived. unfold has_arrived.
  rewrite (distance_unknown _ _ _ _ step Hlast ltac:(unfold step_distance; by rewrite Hnone) Hp).
  cbn [num_le]. by rewrite andb_false_r.
Qed.

(** ** The range of a tick state *)

Section range.
#[local] Open Scope Q_scope.

(** A point the code's trigonometry handles: within a quarter turn in each axis. *)
Definition close (a b : LngLat) : Prop :=
  lngLat_ok a = true /\ lngLat_ok b = true /\
  num_le (num_abs (b.1 - a.1)%num) (num_of_Z 90) = true /\
  num_le (num_abs (b.2 - a.2)%num) (num_of_Z 90) = true.

Fixpoint track (geometry : list LngLat) : Prop :=
  match geometry with
  | a :: (b :: _) as r => close a b /\ track r
  | _ => True
  end.

(** What is relied on of Turf's distances between points that are close. *)
Class TrackLaws `{MathFunctions} `{Turf} : Prop := {
  track_distance : forall a b, close a b -> between 0 (pow2 25) (turfDistanceMeters a b);
  track_hit : forall a b p, close a b -> close a p ->
    between 0 (pow2 25) (hit_location (nearestPointOnSegment a b p)) /\
    num_is_finite (hit_dist (nearestPointOnSegment a b p)) = true;
}.

(** A route and a fix the engine can follow: a plausible fix, near a line of at most
    2^20 positions that are near each other, with steps whose coordinates are
    positions. *)
Definition followable (route : Route) (f : FixInput) : Prop :=
  plausible_fix f /\ track (route_geometry route) /\
  (forall p, p ∈ route_geometry route -> close p (fix_coords f)) /\
  (2 <= Z.of_nat (length (route_geometry route)) <= 2 ^ 20)%Z /\
  (Z.of_nat (length (route_steps route)) <= 2 ^ 32)%Z /\
  forallb shaped_step (route_steps route) = true.

(** The back-off: none yet, or between the base and the longest of the modes. *)
Definition backoff_ok (x : number) : Prop := x = num_of_Z 0 \/ between 3000 120000 x.

Definition engine_tick_ok (t : NavTickState) : Prop :=
  between 0 (pow2 60) (offRouteScore t) /\
  opt_ok safeInteger (lastRerouteAtMs t) = true /\
  backoff_ok (rerouteBackoffMs t) /\
  Forall (fun c => max_text 128 c = true) (spokenCues t) /\
  forall e, speedEstimate t = Some e -> estimate_ok e.

(** A score at the top of its range absorbs what is added to it. *)
Lemma absorb q c : 0 <= q -> q <= pow2 60 -> 0 <= c -> c <= 3 ->
  between 0 (pow2 60) (round_double (q + c)).
Proof.
  intros Hq1 Hq2 Hc1 Hc2. destruct (Qlt_le_dec (pow2 60) (q + c)) as [Hlt|Hle];
    [|apply round_between; [done|rep 1%Z 60%Z|lra|lra]].
  pose proof (pow2_pos 60) as Hp60.
  assert (0 < Qabs (q + c)) as Hpos by (rewrite Qabs_pos; lra).
  assert (ulp_exponent (q + c) = 8)%Z as HE.
  { unfold ulp_exponent. assert (q_log2 (q_abs (q + c)) = 60)%Z as ->; [|done].
    pose proof Hpos as Hl. rewrite <- q_abs_spec in Hl. apply q_log2_spec in Hl as [Hl1 Hl2].
    pose proof (q_abs_spec (q + c)) as Ha. rewrite Qabs_pos in Ha by lra.
    assert (pow2 61 == 2 * pow2 60) as H61 by side. assert (3 < pow2 60) as H3 by side.
    assert (60 < q_log2 (q_abs (q + c)) + 1)%Z by (apply pow2_lt_inv; lra).
    assert (q_log2 (q_abs (q + c)) < 61)%Z by (apply pow2_lt_inv; lra). lia. }
  pose proof (round_value_spec (q + c)) as Hv. rewrite HE in Hv.
  change (- (8))%Z with (-8)%Z in Hv.
  assert (round_half_even ((q + c) * pow2 (- 8)) = 2 ^ 52)%Z as Hr.
  { apply Z.le_antisymm.
    - unfold round_half_even.
      assert (Qfloor ((q + c) * pow2 (- 8)) = 2 ^ 52)%Z as ->.
      { apply Z.le_antisymm.
        - apply Z.lt_succ_r. rewrite Zlt_Qlt. eapply Qle_lt_trans; [apply Qfloor_le|].
          assert (pow2 (-8) == 1 # 256) as -> by side.
          assert (inject_Z (Z.succ (2 ^ 52)) * 256 == pow2 60 + 256) by side. lra.
        - rewrite <- (Qfloor_Z (2 ^ 52)). apply Qfloor_resp_le.
          assert (pow2 (-8) == 1 # 256) as -> by side.
          assert (inject_Z (2 ^ 52) * 256 == pow2 60) by side. lra. }
      assert ((q + c) * pow2 (-8) - inject_Z (2 ^ 52) < 1 # 2) as Hlow.
      { assert (pow2 (-8) == 1 # 256) as -> by side.
        assert (inject_Z (2 ^ 52) * 256 == pow2 60) by side. lra. }
      pose proof (proj1 (Qlt_alt _ _) Hlow) as Hcmp. rewrite Hcmp. done.
    - apply round_half_even_ge, (proj2 (scale_ge 8 (q + c) (inject_Z (2 ^ 52)))).
      assert (inject_Z (2 ^ 52) * pow2 8 == pow2 60) as -> by side. lra. }
  rewrite Hr in Hv. assert (inject_Z (2 ^ 52) * pow2 8 == pow2 60) as H60 by side. rewrite H60 in Hv.
  destruct (round_double_cases (q + c)) as [[Hz _]|[(_ & _ & ->)|[(_ & Hbig & _)|(_ & Hbig & _)]]].
  - lra.
  - apply between_intro.
    + rewrite Qred_correct, Hv. rep 1%Z 60%Z.
    + rewrite Qred_correct, Hv. lra.
    + rewrite Qred_correct, Hv. lra.
  - rewrite Hv in Hbig. exfalso. revert Hbig. by vm_compute.
  - rewrite Hv in Hbig. exfalso. revert Hbig. by vm_compute.
Qed.

Lemma score_between prev offRoute moving wrong dev lastDev :
  between 0 (pow2 60) prev ->
  between 0 (pow2 60) (updateOffRouteScore prev offRoute moving wrong dev lastDev).
Proof.
  intros Hprev. unfold updateOffRouteScore.
  assert (forall x c, between 0 (pow2 60) x -> 0 <= c -> c <= 3 ->
            between 0 (pow2 60) (x + Fin c)%num) as Hadd.
  { intros x c (q & -> & _ & Hq1 & Hq2) H1 H2. by apply absorb. }
  destruct offRoute; [|apply between_intro; [done|side|side]]. cbn [negb].
  destruct (negb moving && _); [exact Hprev|].
  destruct moving, wrong; (apply Hadd; [apply Hadd; [exact Hprev|side|side]|side|side]).
Qed.

Lemma literal_between lo hi n d : representable lo -> representable hi -> lo <= n # d -> n # d <= hi ->
  between lo hi (literal n d).
Proof. apply round_between. Qed.

(** The modes' reroute options. *)
Lemma mode_reroute mode m : let r := opt_reroute (with_announceMultiplier m (navOptionsForMode mode)) in
  backoffBaseMs r = literal 3000 1 /\ between 30000 120000 (backoffMaxMs r) /\
  num_le (accuracyCapMeters (with_announceMultiplier m (navOptionsForMode mode))) (num_of_Z 200) = true.
Proof.
  destruct mode; (split_and!; [reflexivity| |by vm_compute]);
    (apply literal_between; [rep 30000%Z 0%Z|rep 120000%Z 0%Z|side|side]).
Qed.

Lemma base_between : between 3000 120000 (literal 3000 1).
Proof. apply literal_between; [rep 3000%Z 0%Z|rep 120000%Z 0%Z|side|side]. Qed.

Section departure.
Context `{MathFunctions}.
Variables (f : FixInput) (state : NavTickState) (mode : GroundMode) (m : number).
Variables (dev bearing : number) (moving : bool).
Hypothesis Hbackoff : backoff_ok (rerouteBackoffMs state).
Let opts := with_announceMultiplier m (navOptionsForMode mode).
Let d := departure f state opts dev bearing moving.

Lemma current_backoff_between : between 3000 120000 (dep_currentBackoff d).
Proof.
  unfold d, departure. cbn [dep_currentBackoff].
  destruct (mode_reroute mode m) as (Hbase & _). fold opts in Hbase.
  destruct (num_lt _ (rerouteBackoffMs state)) eqn:E.
  - destruct Hbackoff as [Hz|Hb]; [|exact Hb]. rewrite Hz in E. discriminate.
  - rewrite Hbase. exact base_between.
Qed.

Lemma next_backoff_between : between 3000 120000 (next_backoff d (opt_reroute opts)).
Proof.
  pose proof current_backoff_between as Hc.
  destruct (mode_reroute mode m) as (Hbase & Hmax & _). fold opts in Hbase, Hmax.
  unfold next_backoff. destruct (dep_needsReroute d).
  - assert (between 3000 180000 (dep_currentBackoff d * literal 15 10)%num) as (x & -> & Hx & Hx1 & Hx2).
    { apply between_mul_pos with (a := 3000) (b := 120000) (c := 1) (d := 3 # 2);
        [rep 3000%Z 0%Z|rep 180000%Z 0%Z|side|side|exact Hc| |side|side].
      apply literal_between; [done|rep 3%Z (-1)%Z|side|side]. }
    destruct Hmax as (y & -> & Hy & Hy1 & Hy2). unfold num_min.
    destruct (num_lt (Fin y) (Fin x)) eqn:E.
    + apply between_intro; [exact Hy|lra|exact Hy2].
    + apply num_lt_Fin_false in E. apply between_intro; [exact Hx|exact Hx1|lra].
  - destruct (negb _ || _); [rewrite Hbase; exact base_between|exact Hc].
Qed.

(** A reroute is asked for only when three seconds have passed since the last. *)
Lemma reroute_spaced last : dep_needsReroute d = true -> lastRerouteAtMs state = Some last ->
  (3000 <= fix_timestampMs f - last)%Z.
Proof.
  unfold d, departure. cbn [dep_needsReroute]. intros Hr Hlast.
  pose proof current_backoff_between as Hc. unfold d, departure in Hc. cbn [dep_currentBackoff] in Hc.
  unfold shouldReroute, within_backoff in Hr. rewrite Hlast in Hr.
  destruct (num_lt _ (scoreThreshold _)); [discriminate|]. apply negb_true_iff in Hr.
  destruct (mode_reroute mode m) as (Hbase & _). fold opts in Hbase.
  assert (forall (w : bool) c, between 3000 120000 c ->
            between 3000 120000 (if w then backoffBaseMs (opt_reroute opts) else c)) as Hdecision.
  { intros [] c Hc'; [rewrite Hbase; exact base_between|exact Hc']. }
  match type of Hr with num_lt _ (if ?w then _ else _) = _ => specialize (Hdecision w _ Hc) end.
  destruct Hdecision as (q & Hq & _ & Hle & _). rewrite Hq in Hr. rename Hr into Hlt.
  apply num_lt_Fin_false in Hlt. rewrite Zle_Qle. change (inject_Z 3000) with 3000. lra.
Qed.
End departure.

(** ** Along a track *)

Lemma cue_key_short i t : (0 <= i <= 2 ^ 32)%Z -> max_text 128 (cue_key_of i t) = true.
Proof.
  intros Hi. unfold max_text, cue_key_of. apply Z.leb_le. unfold str_length.
  pose proof (show_Z_length i Hi) as Hs.
  rewrite !string_length_app. destruct t; simpl; lia.
Qed.

Section track.
Context `{MathFunctions} `{Turf} `{!TrackLaws}.

Lemma prefix_between g x k : track g -> (0 <= k)%Z -> (k + Z.of_nat (length g) <= 2 ^ 21)%Z ->
  between 0 (inject_Z k * pow2 25) x ->
  Forall (between 0 (pow2 46)) (prefix_from x g).
Proof.
  revert x k. induction g as [|a g IH]; intros x k Ht Hk Hlen Hx; [constructor|].
  destruct g as [|b g]; [constructor|]. cbn [prefix_from]. destruct Ht as [Hab Ht].
  assert (between 0 (inject_Z (k + 1) * pow2 25) (x + turfDistanceMeters a b)%num) as Hd.
  { apply between_add with (a := 0) (b := inject_Z k * pow2 25) (c := 0) (d := pow2 25);
      [apply representable_0| |exact Hx|by apply track_distance|side|].
    - apply (representable_intro (k + 1) 25); [simpl length in Hlen; lia|lia|done].
    - rewrite inject_Z_plus. change (inject_Z 1) with 1. lra. }
  constructor.
  - eapply between_weaken; [exact Hd|side|].
    assert (inject_Z (k + 1) <= inject_Z (2 ^ 21)) as Hk' by (rewrite <- Zle_Qle; simpl length in Hlen; lia).
    assert (pow2 46 == inject_Z (2 ^ 21) * pow2 25) as -> by side.
    apply Qmult_le_compat_r; [exact Hk'|apply Qlt_le_weak, pow2_pos].
  - apply (IH _ (k + 1)%Z); [exact Ht|lia|simpl length in *; lia|exact Hd].
Qed.

Lemma route_prefix_between g e x : track g -> (Z.of_nat (length g) <= 2 ^ 20)%Z ->
  route_prefix g !! e = Some x -> between 0 (pow2 46) x.
Proof.
  intros Ht Hlen He. assert (between 0 (pow2 46) (num_of_Z 0)) as Hzero
    by (apply between_intro; [apply representable_0|side|side]).
  destruct g as [|a g]; [discriminate He|]. destruct e as [|e].
  - injection He as <-. exact Hzero.
  - eapply Forall_lookup_1; [|exact He]. unfold route_prefix. constructor; [exact Hzero|].
    apply (prefix_between _ _ 0); [exact Ht|lia|lia|].
    apply between_intro; [apply representable_0|side|side].
Qed.

Lemma prefix_from_length x g : length (prefix_from x g) = (length g - 1)%nat.
Proof.
  revert x. induction g as [|a g IH]; intros x; [done|]. destruct g as [|b g]; [done|].
  change (S (length (prefix_from (x + turfDistanceMeters a b)%num (b :: g))) = (length (a :: b :: g) - 1)%nat).
  rewrite IH. cbn [length]. lia.
Qed.

Lemma route_prefix_length g : length (route_prefix g) = length g.
Proof. destruct g as [|a g]; [done|]. unfold route_prefix. rewrite length_cons, prefix_from_length. cbn [length]. lia. Qed.

Lemma track_lookup g e a b : track g -> g !! e = Some a -> g !! S e = Some b -> close a b.
Proof.
  revert e. induction g as [|x g IH]; intros e Ht Ha Hb; [done|].
  destruct g as [|y g]; [done|]. destruct Ht as [Hxy Ht]. destruct e as [|e].
  - injection Ha as <-. injection Hb as <-. exact Hxy.
  - by apply (IH e).
Qed.

Lemma fix_point_finite f : fixSchema f = true -> finite_point (fix_coords f) = true.
Proof.
  unfold fixSchema, lngLat_ok, finite_within, finite_min, finite_point. rewrite !andb_true_iff. tauto.
Qed.

(** The position along the route is a finite number of metres, whatever edge the
    search ends with. *)
Lemma snap_between route f snap : followable route f -> finite_point (fix_coords f) = true ->
  snapPreparedRoute (buildIndex (route_geometry route)) (fix_coords f) None = Ok snap ->
  between 0 (pow2 50) (snap_alongMeters snap).
Proof.
  intros (Hf & Ht & Hclose & Hlen & _) Hfin Hsnap. set (g := route_geometry route) in *.
  assert (edges (buildIndex g) = (length g - 1)%nat /\ coords (buildIndex g) = g /\
          prefix (buildIndex g) = route_prefix g) as (He & Hg & Hp).
  { unfold buildIndex. by destruct (negb _ || _). }
  rewrite snap_of_line in Hsnap by lia. apply outcome_bind_ok in Hsnap as (_ & _ & <-%Ok_inj).
  assert (forall e, (e < edges (buildIndex g))%nat ->
            between 0 (pow2 25) (hit_location (segment_hit (buildIndex g) (fix_coords f) e)) /\
            num_is_finite (edge_dist (buildIndex g) (fix_coords f) e) = true) as Hhit.
  { intros e Hlt. rewrite He in Hlt. unfold edge_dist, segment_hit. rewrite Hg.
    destruct (lookup_lt_is_Some_2 g e ltac:(lia)) as [a Ha].
    destruct (lookup_lt_is_Some_2 g (S e) ltac:(lia)) as [b Hb]. rewrite Ha, Hb.
    apply track_hit; [by apply (track_lookup g e)|]. apply Hclose. by apply list_elem_of_lookup_2 in Ha. }
  assert (forallb finite_point g = true) as Hfinite.
  { apply forallb_forall. intros p Hin%list_elem_of_In. destruct (Hclose p Hin) as [Hok _].
    unfold lngLat_ok, finite_within, finite_min in Hok. unfold finite_point. rewrite !andb_true_iff in *. tauto. }
  destruct (search_finds g (fix_coords f) Hfinite ltac:(apply Nat.eqb_neq; lia) (fun e Hlt => proj2 (Hhit e Hlt)) None)
    as (e & Hin & ->).
  cbn [best_result edge_best snap_alongMeters bestAlong]. rewrite Hp.
  destruct (Hhit e Hin) as [Hloc _]. rewrite He in Hin.
  destruct (lookup_lt_is_Some_2 (route_prefix g) e) as [x Hx]; [rewrite route_prefix_length; lia|].
  rewrite Hx. cbn [default].
  apply between_add with (a := 0) (b := pow2 46) (c := 0) (d := pow2 25);
    [apply representable_0|rep 1%Z 50%Z| |exact Hloc|side|side].
  apply (route_prefix_between g e); [exact Ht| |exact Hx]. lia.
Qed.

Lemma tick_state route f state opts snap gate prog :
  exists d speed estimate,
    d = departure f state opts (snap_deviationMeters snap)
          (bearingAt (route_geometry route) (snap_segmentIndex snap))
          (num_lt (minMovingSpeedMps opts) speed) /\
    navigationSpeed (speedEstimate state) f (snap_alongMeters snap) = (speed, estimate) /\
    let s := nextState (tick route f state opts snap gate prog) in
    offRouteScore s = (if dep_needsReroute d then num_of_Z 0 else dep_score d) /\
    lastRerouteAtMs s = (if dep_needsReroute d then Some (fix_timestampMs f) else lastRerouteAtMs state) /\
    rerouteBackoffMs s = next_backoff d (opt_reroute opts) /\
    speedEstimate s = estimate /\
    needsReroute (tick route f state opts snap gate prog) = dep_needsReroute d.
Proof.
  unfold tick. destruct (navigationSpeed _ _ _) as [v e]. eexists _, v, e. split; [reflexivity|].
  by split_and!.
Qed.

(** A tick along a track keeps the range of the state. *)
Lemma tick_keeps_range `{!ExpLaws} route f state mode m snap gate prog :
  let opts := with_announceMultiplier m (navOptionsForMode mode) in
  followable route f -> unusable f opts = false ->
  snapPreparedRoute (buildIndex (route_geometry route)) (fix_coords f) None = Ok snap ->
  (0 <= currentStepIndex prog)%Z -> engine_tick_ok state ->
  engine_tick_ok (nextState (tick route f state opts snap gate prog)).
Proof.
  intros opts Hfollow Hu Hsnap Hprog (Hscore & Hlast & Hback & Hcues & Hest).
  destruct (tick_state route f state opts snap gate prog)
    as (d & speed & estimate & Hd & Hspeed & H1' & H2' & H3' & H4' & _).
  assert (finite_point (fix_coords f) = true) as Hfin.
  { unfold unusable in Hu. apply orb_false_iff in Hu as [_ Hu]. by apply negb_false_iff in Hu. }
  pose proof (snap_between route f snap Hfollow Hfin Hsnap) as Halong.
  destruct Hfollow as (Hf & _ & _ & _ & Hsteps & _).
  unfold engine_tick_ok. rewrite H1', H2', H3', H4', tick_spoken. split_and!.
  - destruct (dep_needsReroute d); [apply between_intro; [apply representable_0|side|side]|].
    rewrite Hd. cbn [departure dep_score]. by apply score_between.
  - destruct (dep_needsReroute d); [|exact Hlast]. destruct Hf as [Hf _].
    unfold fixSchema in Hf. by apply andb_true_iff in Hf as [_ Hf].
  - right. rewrite Hd. by apply next_backoff_between.
  - apply Forall_app. split; [exact Hcues|]. destruct (voiceCue _) as [c|] eqn:Ec; [|constructor].
    destruct (tick_cue _ _ _ _ _ _ _ _ Hprog Ec) as (_ & i & Hi & ->).
    constructor; [|constructor]. apply cue_key_short. lia.
  - pose proof (navigationSpeed_bounded (speedEstimate state) f (snap_alongMeters snap) Hf) as Hb.
    rewrite Hspeed in Hb. apply Hb; [|exact Halong|exact Hest].
    destruct (mode_reroute mode m) as (_ & _ & Hcap). fold opts in Hcap.
    unfold unusable in Hu. apply orb_false_iff in Hu as [Hu _].
    eapply num_le_trans; [|exact Hcap]. apply num_le_total; [| |exact Hu].
    + intros Hnan. rewrite Hnan in Hcap. discriminate Hcap.
    + intros Hnan. destruct Hf as [Hf _]. unfold fixSchema, nonnegative in Hf.
      rewrite Hnan in Hf. cbn [num_is_finite] in Hf. rewrite andb_false_r in Hf. discriminate Hf.
Qed.
End track.
End range.

(** ** Every fix is answered *)

Lemma matcher_for_geometry `{MathFunctions} `{Turf} g g' : routeMatcherFor g (buildIndex g') = buildIndex g.
Proof.
  assert (forall x, coords (buildIndex x) = x) as Hc by (intros x; unfold buildIndex; by destruct (negb _ || _)).
  unfold routeMatcherFor. rewrite Hc. by case_decide as E; [rewrite E|].
Qed.

Section answers.
Context `{MathFunctions} `{TurfLaws}.

Lemma advance_answers route along prev entry exit_ : forallb shaped_step (route_steps route) = true ->
  exists gate, advanceStepGate route along prev entry exit_ = Ok gate.
Proof.
  intros Hs. unfold advanceStepGate. destruct (_ <=? 0); [by eexists|].
  destruct (prepareManeuverPositions_answers route Hs) as [p ->]. by eexists.
Qed.

Lemma progress_answers route along forced : forallb shaped_step (route_steps route) = true ->
  exists prog, computeProgress route along forced = Ok prog.
Proof.
  intros Hs. unfold computeProgress. destruct (route_steps route) eqn:E; [by eexists|]. rewrite <- E in Hs.
  destruct (prepareManeuverPositions_answers route Hs) as [p ->]. by eexists.
Qed.

Lemma line_is_answered route f state opts g :
  (2 <= length (route_geometry route))%nat -> forallb shaped_step (route_steps route) = true ->
  exists r, engine_processFix route f state opts (buildIndex g) = Ok r.
Proof.
  intros Hlen Hs. unfold engine_processFix. destruct (unusable f opts) eqn:Hu; [by eexists|].
  unfold unusable in Hu. apply orb_false_iff in Hu as [_ Hu]. apply negb_false_iff, andb_true_iff in Hu as [Hx Hy].
  rewrite matcher_for_geometry, snap_of_line by exact Hlen. rewrite point_finite by done. cbn [mbind outcome_bind].
  set (snap := best_result _).
  destruct (advance_answers route (snap_alongMeters snap)
    {| committedStepIndex := default 0%Z (extra_index "committedStepIndex" state);
       reachedStepEnd := default false (extra_flag "reachedStepEnd" state) |}
    (stepGateEntryMeters opts) (stepGateExitMeters opts) Hs) as [gate ->].
  destruct (progress_answers route (snap_alongMeters snap) (Some (committedStepIndex gate)) Hs) as [prog ->].
  by eexists.
Qed.
End answers.


(** ** Reroutes are spaced *)

Section journey.
Context `{MathFunctions} `{Turf}.
Variables (route : Route) (mode : GroundMode) (m : number) (matcher : MatcherIndex).
Let opts := with_announceMultiplier m (navOptionsForMode mode).

(** When a journey over fixes asks for a reroute. *)
Fixpoint reroute_times (s : NavTickState) (fixes : list FixInput) : list Z :=
  match fixes with
  | [] => []
  | f :: r =>
      match engine_processFix route f s opts matcher with
      | Throw _ => []
      | Ok res => (if needsReroute res then [fix_timestampMs f] else []) ++ reroute_times (nextState res) r
      end
  end.

Lemma journey_step s f r :
  engine_processFix route f s opts matcher = Ok r -> backoff_ok (rerouteBackoffMs s) ->
  backoff_ok (rerouteBackoffMs (nextState r)) /\
  lastRerouteAtMs (nextState r) = (if needsReroute r then Some (fix_timestampMs f) else lastRerouteAtMs s) /\
  forall last, needsReroute r = true -> lastRerouteAtMs s = Some last -> last + 3000 <= fix_timestampMs f.
Proof.
  intros Hr Hs. destruct (rejected_or_ticked _ _ _ _ _ _ Hr) as [[_ ->]|(_ & snap & gate & prog & _ & _ & _ & ->)].
  { cbn [rejected_tick nextState needsReroute]. split_and!; [exact Hs|done|discriminate]. }
  destruct (tick_state route f s opts snap gate prog) as (d & v & e & Hd & _ & _ & Hlast & Hback & _ & Hneeds).
  rewrite Hlast, Hback, Hneeds. split_and!; [|done|].
  - right. rewrite Hd. by apply next_backoff_between.
  - intros last Hn Hl. rewrite Hd in Hn.
    pose proof (reroute_spaced _ _ _ _ _ _ _ Hs last Hn Hl). lia.
Qed.

(** Asked for again only three seconds later. *)
Definition spaced (t t' : Z) : Prop := t + 3000 <= t'.

Lemma reroute_times_spaced fixes s : backoff_ok (rerouteBackoffMs s) ->
  StronglySorted spaced (reroute_times s fixes) /\
  forall last, lastRerouteAtMs s = Some last -> Forall (spaced last) (reroute_times s fixes).
Proof.
  revert s. induction fixes as [|f fixes IH]; intros s Hs; cbn [reroute_times]; [split; [constructor|by constructor]|].
  destruct (engine_processFix route f s opts matcher) as [r|] eqn:Hr; [|split; [constructor|by constructor]].
  destruct (journey_step s f r Hr Hs) as (Hs' & Hlast & Hgap).
  destruct (IH (nextState r) Hs') as [Hsorted Hafter].
  destruct (needsReroute r); cbn [app].
  - specialize (Hafter _ Hlast). split; [by constructor|]. intros last Hl.
    specialize (Hgap last eq_refl Hl). constructor; [exact Hgap|].
    eapply Forall_impl; [exact Hafter|]. unfold spaced. lia.
  - split; [exact Hsorted|]. intros last Hl. apply Hafter. by rewrite Hlast.
Qed.
End journey.

(** Reroutes are spaced: along any journey over one route, whatever the fixes, the
    mode and the announce multiplier, the engine asks for a reroute at most once in
    three seconds, however the back-off grows and resets, and by whatever matcher. *)
Theorem reroutes_are_spaced `{MathFunctions} `{Turf} route mode m matcher s fixes :
  backoff_ok (rerouteBackoffMs s) ->
  StronglySorted spaced (reroute_times route mode m matcher s fixes).
Proof. intros Hs. apply (reroute_times_spaced route mode m matcher fixes s Hs). Qed.

(** ** The engine keeps its promises *)

Section implementation.
Context `{MathFunctions} `{Turf}.

(** The engine behind the interface of [Guidance].  On a line [processFix] always returns; a caller that could pass it
    anything shorter is outside [followable]. *)
Definition engine : GuidanceEngine :=
  {| PreparedRouteMatcher := MatcherIndex;
     prepareRouteMatcher := buildIndex;
     matcher_geometry := coords;
     processFix := fun route f state opts matcher =>
       match engine_processFix route f state opts matcher with
       | Ok r => r
       | Throw _ => rejected_tick state
       end |}.

Lemma engine_tick_ok_fresh last back : opt_ok safeInteger last = true -> backoff_ok back ->
  engine_tick_ok (fresh_tick last back).
Proof.
  intros Hl Hb. split_and!; [|exact Hl|exact Hb|constructor|discriminate].
  apply (between_intro 0 (pow2 60)); [apply representable_0|side|side].
Qed.

Lemma engine_tick_ok_readable t : engine_tick_ok t -> Z.of_nat (length (spokenCues t)) <= MAX_SPOKEN_CUES ->
  navTickStateSchema t = true.
Proof.
  intros (Hs & Hl & Hb & Hc & He) Hn. unfold navTickStateSchema.
  rewrite (between_finite _ _ _ Hs), Hl.
  assert (nonnegative (rerouteBackoffMs t) = true) as ->.
  { destruct Hb as [-> |Hb]; [done|]. by apply (between_nonnegative 3000 120000). }
  assert (forallb (max_text 128) (spokenCues t) = true) as -> by by apply forallb_Forall.
  apply Z.leb_le in Hn. rewrite Hn. cbn [andb].
  destruct (speedEstimate t) as [e|]; [|done]. by apply estimate_ok_readable, He.
Qed.

Lemma engine_tick_ok_kept `{!TurfLaws} `{!ExpLaws} `{!TrackLaws} route f state mode m :
  let opts := with_announceMultiplier m (navOptionsForMode mode) in
  followable route f -> engine_tick_ok state ->
  exists r, engine_processFix route f state opts (buildIndex (route_geometry route)) = Ok r /\
    engine_tick_ok (nextState r).
Proof.
  intros opts Hfollow Ht.
  destruct (line_is_answered route f state opts (route_geometry route)) as [r Hr].
  { destruct Hfollow as (_ & _ & _ & Hlen & _). lia. }
  { apply Hfollow. }
  exists r. split; [exact Hr|].
  destruct (rejected_or_ticked _ _ _ _ _ _ Hr) as [[_ ->]|(Hu & snap & gate & prog & Hs & _ & Hp & ->)];
    [exact Ht|].
  rewrite matcher_for_geometry in Hs. apply computeProgress_index in Hp.
  by apply tick_keeps_range.
Qed.

#[export] Instance engine_lawful `{!TurfLaws} `{!ExpLaws} `{!TrackLaws} : @GuidanceLaws engine.
Proof.
  refine (@Build_GuidanceLaws engine _ _ engine_tick_ok followable _ _ _ _).
  - intros g. cbn [matcher_geometry prepareRouteMatcher engine]. unfold buildIndex. by destruct (negb _ || _).
  - intros route f state opts matcher. cbn [processFix engine]. cbv zeta.
    destruct (engine_processFix route f state opts matcher) as [r|e] eqn:Hr;
      [|cbn [rejected_tick nextState voiceCue]; by rewrite app_nil_r].
    destruct (rejected_or_ticked _ _ _ _ _ _ Hr) as [[_ ->]|(_ & snap & gate & prog & _ & _ & _ & ->)].
    + cbn [rejected_tick nextState voiceCue]. by rewrite app_nil_r.
    + apply tick_spoken.
  - apply engine_tick_ok_fresh; [done|by left].
  - intros t (_ & Hl & Hb & _). by apply engine_tick_ok_fresh.
  - intros route f state mode m opts Hfollow Ht. cbn [processFix prepareRouteMatcher engine].
    destruct (engine_tick_ok_kept route f state mode m Hfollow Ht) as (r & Hr & Hok).
    subst opts. by rewrite Hr.
  - exact engine_tick_ok_readable.
Qed.
End implementation.

(** C8: A tick state keeps its type: on a route and with a fix the engine can follow -
    a plausible fix within 90 degrees of a line of 2 to 2^20 positions, each within 90
    degrees of the next, and steps whose coordinates are positions - and from a state in
    range, a usable or unusable fix in any mode is answered with a state in range again
    (a score that absorbs what it can no longer count, a back-off between its base and
    its ceiling, short cue keys, a finite speed estimate).  The session schema reads
    that state back as long as it has at most the 2000 cues the schema allows. *)
Theorem tick_states_keep_their_type `{MathFunctions} `{TurfLaws} `{!ExpLaws} `{!TrackLaws} route f state mode m :
  let opts := with_announceMultiplier m (navOptionsForMode mode) in
  followable route f -> engine_tick_ok state ->
  exists r, engine_processFix route f state opts (buildIndex (route_geometry route)) = Ok r /\
    engine_tick_ok (nextState r) /\
    (Z.of_nat (length (spokenCues (nextState r))) <= MAX_SPOKEN_CUES ->
     navTickStateSchema (nextState r) = true).
Proof.
  intros opts Hfollow Ht. destruct (engine_tick_ok_kept route f state mode m Hfollow Ht) as (r & Hr & Hok).
  exists r. split_and!; [exact Hr|exact Hok|]. intros Hn. by apply engine_tick_ok_readable.
Qed.
