(* ===== verification/Drive.v ===== *)
(** * A drive through the engine

    A street of two hundred and twenty metres, a left turn and as many again, driven
    on the flat world of [SampleMath]: the witnesses of the engine's properties.
    Nothing here models code. *)

From S2P Require Import Prelude Doubles Protocol Geodesy RouteMatcher SampleMath RouteMatcherFacts Maneuver ManeuverFacts.
From S2P Require Import Progress Session Speed Samples Guidance Engine EngineFacts.
From Stdlib Require Import QArith_base Lqa.

Section flat_drive.
#[local] Existing Instance flat_math | 0.
#[local] Existing Instance flat_turf | 0.
#[local] Open Scope Z_scope.

(** A point by tenths of a thousandth of a degree, eleven metres apart. *)
Definition spot (x y : Z) : LngLat := (literal x 10000, literal y 10000).

Definition corner_line : list LngLat := [spot 0 0; spot 10 0; spot 20 0; spot 20 10; spot 20 20].

Definition drive_step (distance : option Z) (shape : list LngLat) : json :=
  JObj (match distance with Some d => [("distance", JNum (num_of_Z d))] | None => [] end ++
        [("duration", JNum (num_of_Z 20)); ("coordinates", JArr (map JPoint shape))]).

Definition drive_route (last_distance : option Z) : Route :=
  {| route_distance := num_of_Z 444; route_duration := num_of_Z 40;
     route_geometry := corner_line;
     route_steps := [drive_step (Some 222) [spot 0 0; spot 10 0; spot 20 0];
                     drive_step (Some 222) [spot 20 0; spot 20 10; spot 20 20];
                     drive_step last_distance [spot 20 20]];
     route_mode := "driving"; route_segmentSpeedLimits := None; route_summary := None;
     route_extra := [] |}.

(** A fix five metres accurate at ten metres a second. *)
Definition seen (second x y : Z) : FixInput :=
  {| fix_coords := spot x y; fix_accuracy := num_of_Z 5; fix_heading := None;
     fix_speed := Some (num_of_Z 10); fix_timestampMs := second * 1000; fix_coasted := false |}.

Definition driving : NavTickOptions := navOptionsForMode Driving.
Definition corner_matcher : MatcherIndex := buildIndex corner_line.
Definition setting_off : NavTickState := fresh_tick None (num_of_Z 0).

Fixpoint after_fixes (route : Route) (s : NavTickState) (fixes : list FixInput) : NavTickState :=
  match fixes with
  | [] => s
  | f :: r => match engine_processFix route f s driving corner_matcher with
              | Ok res => after_fixes route (nextState res) r
              | Throw _ => s
              end
  end.

Lemma after_fixes_steps route s fixes : rtc (engine_step route driving) s (after_fixes route s fixes).
Proof.
  revert s. induction fixes as [|f fixes IH]; intros s; [apply rtc_refl|]. cbn [after_fixes].
  destruct (engine_processFix route f s driving corner_matcher) as [res|] eqn:E; [|apply rtc_refl].
  eapply rtc_l; [|apply IH]. by exists f, corner_matcher, res.
Qed.

Definition to_the_corner : list FixInput := [seen 1 0 0; seen 10 19 0; seen 12 20 2].

(** Four cues are spoken on the way to the corner and past it. *)
Lemma no_cue_is_spoken_twice_witness :
  let s' := after_fixes (drive_route (Some 0)) setting_off to_the_corner in
  rtc (engine_step (drive_route (Some 0)) driving) setting_off s' /\
  spokenCues s' = ["1:far"; "1:now"; "2:near"] /\ NoDup (spokenCues s').
Proof.
  cbv zeta. pose proof (after_fixes_steps (drive_route (Some 0)) setting_off to_the_corner) as Hs.
  split; [exact Hs|]. split; [vm_compute; reflexivity|].
  exact (proj1 (no_cue_is_spoken_twice _ driving _ _ Hs eq_refl)).
Defined.

(** Past the corner the second step is committed. *)
Lemma committed_step_never_goes_back_witness :
  let s' := after_fixes (drive_route (Some 0)) setting_off to_the_corner in
  committed_of setting_off = 0 /\ committed_of s' = 1 /\
  committed_of setting_off <= committed_of s' <= last_step (drive_route (Some 0)).
Proof.
  cbv zeta. split; [reflexivity|]. split; [vm_compute; reflexivity|].
  apply (committed_step_never_goes_back _ driving);
    [exact (after_fixes_steps _ setting_off to_the_corner)|]. vm_compute. split; discriminate.
Defined.

Lemma answered (o : outcome NavTickResult) (P : NavTickResult -> bool) :
  match o with Ok r => P r | Throw _ => false end = true -> exists r, o = Ok r /\ P r = true.
Proof. destruct o as [r|e]; [|discriminate]. intros HP. by exists r. Qed.

(** At the end of the line the journey is over. *)
Lemma arrival_is_earned_witness :
  let route := drive_route (Some 0) in
  let there := seen 30 20 20 in
  let s := after_fixes route setting_off to_the_corner in
  exists r, engine_processFix route there s driving corner_matcher = Ok r /\ arrived r = true /\
    fix_coasted there = false /\ 1 <= committed_of (nextState r).
Proof.
  intros route there s.
  assert (exists r, engine_processFix route there s driving corner_matcher = Ok r /\ arrived r = true)
    as (r & Hr & Ha) by (apply answered; vm_compute; reflexivity).
  assert (route_steps route <> [] /\ Z.of_nat (length (route_steps route)) - 2 = 1) as [Hsteps H1']
    by (split; [discriminate|reflexivity]).
  clearbody route there s.
  destruct (arrival_is_earned route there s driving corner_matcher r Hr Ha) as (Hc & _ & _ & _ & [Hn|Hstep]);
    [destruct (Hsteps Hn)|].
  exists r. rewrite <- H1'. exact (conj Hr (conj Ha (conj Hc Hstep))).
Defined.

(** The same drive, its last step without a distance, passes the wire and never ends. *)
Lemma missing_distance_never_arrives_witness :
  let route := drive_route None in
  let there := seen 30 20 20 in
  let s := after_fixes route setting_off to_the_corner in
  routeSchema route = true /\
  exists r, engine_processFix route there s driving (buildIndex corner_line) = Ok r /\ arrived r = false.
Proof.
  intros route there s. split; [vm_compute; reflexivity|].
  assert (2 <= length (route_geometry route))%nat as Hline by (cbn; lia).
  assert (forallb shaped_step (route_steps route) = true) as Hshape by (vm_compute; reflexivity).
  assert (last (route_steps route) = Some (drive_step None [spot 20 20])) as Hlast by reflexivity.
  assert (json_field "distance" (drive_step None [spot 20 20]) = None) as Hnone by reflexivity.
  clearbody route there s.
  destruct (line_is_answered route there s driving corner_line Hline Hshape) as [r Hr].
  exists r. split; [exact Hr|].
  exact (missing_distance_never_arrives route there s driving (buildIndex corner_line) r _ Hlast Hnone Hr).
Defined.


(** Two hundred metres off the line: a reroute at once, and another later. *)
Definition astray : list FixInput :=
  map (fun t => seen (Z.of_nat t) 0 (20 + Z.of_nat t mod 2)) (seq 1 11).

Lemma reroutes_are_spaced_witness :
  reroute_times (drive_route (Some 0)) Driving (num_of_Z 1) corner_matcher setting_off astray =
    [5000; 10000] /\
  StronglySorted spaced
    (reroute_times (drive_route (Some 0)) Driving (num_of_Z 1) corner_matcher setting_off astray).
Proof.
  split; [vm_compute; reflexivity|]. apply reroutes_are_spaced. left. reflexivity.
Defined.
End flat_drive.

(** ** The laws together *)

#[export] Instance sample_track : TrackLaws.
Proof.
  split.
  - intros a b _. apply between_intro; [apply representable_0|by vm_compute|by vm_compute].
  - intros a b p _ (_ & _ & Hlng & _). cbn [nearestPointOnSegment sample_turf hit_location hit_dist]. split.
    + apply between_intro; [apply representable_0|by vm_compute|by vm_compute].
    + destruct (p.1 - a.1)%num as [| | |q]; [discriminate Hlng|discriminate Hlng|discriminate Hlng|reflexivity].
Qed.

Definition eastward : Route := sample_route.

Lemma tick_states_keep_their_type_witness :
  followable eastward (slow_fix 1000) /\ engine_tick_ok (fresh_tick None (num_of_Z 0)) /\
  exists r, engine_processFix eastward (slow_fix 1000) (fresh_tick None (num_of_Z 0))
              (with_announceMultiplier (num_of_Z 1) (navOptionsForMode Driving))
              (buildIndex (route_geometry eastward)) = Ok r /\
    engine_tick_ok (nextState r).
Proof.
  assert (plausible_fix (slow_fix 1000)) as Hf.
  { split_and!; [reflexivity| |discriminate]. by apply representable_Z. }
  assert (followable eastward (slow_fix 1000)) as Hfollow.
  { split; [exact Hf|]. split; [repeat split; vm_compute; reflexivity|]. split_and!.
    - intros p Hp. apply elem_of_cons in Hp as [-> |Hp]; [repeat split; vm_compute; reflexivity|].
      apply list_elem_of_singleton in Hp as ->. repeat split; vm_compute; reflexivity.
    - vm_compute. discriminate.
    - vm_compute. discriminate.
    - vm_compute. discriminate.
    - vm_compute. reflexivity. }
  assert (engine_tick_ok (fresh_tick None (num_of_Z 0))) as Ht
    by (apply engine_tick_ok_fresh; [reflexivity|left; reflexivity]).
  split; [exact Hfollow|]. split; [exact Ht|].
  destruct (tick_states_keep_their_type eastward (slow_fix 1000) _ Driving (num_of_Z 1) Hfollow Ht)
    as (r & Hr & Hok & _).
  exists r. exact (conj Hr Hok).
Defined.
