(* ===== verification/SampleEngine.v ===== *)
(** * A concrete engine

    An engine that satisfies the interface of [Guidance], for the witnesses of the
    library: it accepts a precise fix, reports one cue for it.
    Nothing here models code. *)

From S2P Require Import Prelude Protocol Cues Session Samples Guidance.

Definition sample_cue : VoiceCue :=
  {| cue_key := "0:now"; cue_tier := TierNow;
     cue_step := JObj [("instruction", JStr " turn left ")]; cue_stepIndex := 0;
     cue_distance := deg 10 |}.

Definition heard (t : NavTickState) : NavTickState :=
  {| offRouteScore := offRouteScore t; lastRerouteAtMs := lastRerouteAtMs t;
     rerouteBackoffMs := rerouteBackoffMs t; spokenCues := spokenCues t ++ [cue_key sample_cue];
     speedEstimate := speedEstimate t; tick_extra := tick_extra t |}.

Definition sample_tick (f : FixInput) (t : NavTickState) (o : NavTickOptions) : NavTickResult :=
  if num_lt (accuracyCapMeters o) (fix_accuracy f)
  then {| tick_progress := None; accuracyRejected := true; tick_weakGps := true;
          tick_offRoute := false; needsReroute := false; arrived := false; voiceCue := None;
          nextState := t |}
  else {| tick_progress := Some {| np_record := [("alongMeters", JNum (deg 1))]; np_segmentIndex := 0 |};
          accuracyRejected := false; tick_weakGps := false; tick_offRoute := false;
          needsReroute := false; arrived := false; voiceCue := Some sample_cue;
          nextState := heard t |}.

#[export] Instance sample_engine : GuidanceEngine :=
  {| PreparedRouteMatcher := list LngLat;
     prepareRouteMatcher := fun g => g;
     matcher_geometry := fun m => m;
     processFix := fun _ f t o _ => sample_tick f t o |}.

#[export] Instance sample_engine_lawful : GuidanceLaws.
Proof.
  refine {| tick_ok := fun t => offRouteScore t = num_of_Z 0 /\ lastRerouteAtMs t = None /\
              rerouteBackoffMs t = num_of_Z 0 /\ speedEstimate t = None /\
              Forall (fun c => max_text 128 c = true) (spokenCues t);
            can_guide := fun _ _ => True |}.
  - done.
  - intros route f t o m. cbn [processFix sample_engine]. unfold sample_tick.
    case_match; cbn [nextState voiceCue]; [by rewrite app_nil_r|done].
  - by repeat split.
  - intros t (_ & -> & -> & _). by repeat split.
  - intros route f t mode m o _ Ht. cbn [processFix sample_engine]. unfold sample_tick.
    case_match; cbn [nextState]; [done|]. destruct Ht as (? & ? & ? & ? & ?).
    split_and!; try done. apply Forall_app. split; [done|by repeat constructor].
  - intros t (H1 & H2 & H3 & H4 & H5) Hn. unfold navTickStateSchema. rewrite H1, H2, H3, H4.
    rewrite !andb_true_iff. split_and!; try done; [by apply forallb_Forall|by apply Z.leb_le].
Defined.

Definition sample_fix (t : Z) : FixInput :=
  {| fix_coords := (deg 8, deg 50); fix_accuracy := deg 5; fix_heading := None; fix_speed := None;
     fix_timestampMs := t; fix_coasted := false |}.
