(* ===== verification/Ground.v ===== *)
(** * Ground navigation

    apps/mobile/src/navigation/ground: a captured route becomes a session
    (groundSession.ts), a batch of fixes one revision (groundBatch.ts, groundCue.ts),
    a replacement resets what the old line owned (groundReplacement.ts), and the
    processor puts them together (GroundNavigationProcessor.ts). *)

From S2P Require Import Prelude Doubles Protocol Cues Session Snapshot Repository Reroute Processor Guidance.

(** ** The start package *)

Definition MAX_ALTERNATIVES : Z := 8.
Definition MAX_DESTINATION_WAYPOINTS : Z := 64.

Section ground.
Context `{ReceiptValidators}.

(** [validateGroundStartPackage]: a package of the wire's shape, or anything else. *)
Definition validateGroundStartPackage (value : Unvalidated)
    : GroundNavigationStartPackage + string :=
  match value with
  | Junk | Candidate (TransitPackage _) => inr "invalid-package"
  | Candidate (GroundPackage p) =>
      if negb (groundStartPackageSchema p) then inr "invalid-package"
      else if match route_steps (gp_route p) with [] => true | _ => false end
      then inr "missing-steps"
      else if negb (String.eqb (route_mode (gp_route p)) (ground_mode_name (gp_mode p)))
      then inr "mode-mismatch"
      else if match gp_destinationWaypoints p with [] => true | _ => false end
      then inr "missing-destination"
      else if MAX_DESTINATION_WAYPOINTS <? Z.of_nat (length (gp_destinationWaypoints p))
      then inr "invalid-package"
      else if MAX_ALTERNATIVES <? Z.of_nat (length (gp_alternatives p))
      then inr "invalid-alternative"
      else if existsb (fun a => negb (String.eqb (route_mode a) (ground_mode_name (gp_mode p))))
                (gp_alternatives p)
      then inr "invalid-alternative"
      else if match gp_capturedLiveSpeedLimits p with
              | Some limits => negb (Z.of_nat (length limits) =?
                                     Z.of_nat (length (route_geometry (gp_route p))) - 1)
              | None => false
              end
      then inr "speed-limit-length-mismatch"
      else inl p
  end.

Definition announceMultiplierFor (timing : VoiceTiming) : number :=
  match timing with
  | Early => literal 135 100
  | Normal => literal 1 1
  | Late => literal 75 100
  end.

Definition createGroundPreparingSession (startPackage : GroundNavigationStartPackage)
    (sid : string) (permissionMode : PermissionMode) (nowMs : Z) : MobileNavigationSession :=
  {| schemaVersion := MOBILE_NAVIGATION_SESSION_SCHEMA_VERSION;
     sessionId := sid; revision := 1; status := Preparing;
     startedAtMs := nowMs; updatedAtMs := nowMs;
     expiresAtMs := nowMs + MOBILE_NAVIGATION_SESSION_MAX_AGE_MS;
     locale := gp_locale startPackage; units := gp_units startPackage;
     connectivity := NetUnknown; permissionMode := permissionMode;
     cueLedger := {| spoken := []; events := [] |};
     lastAcceptedFix := None;
     payload := GroundSession
       {| g_startPackage := startPackage; g_tickState := fresh_tick None (num_of_Z 0);
          g_progress := None; g_weakGps := false; g_offRoute := false; g_coasting := false;
          g_currentSpeedLimit := None; g_coastingAnchor := None;
          g_reroute := {| rr_status := RrIdle; rr_requestId := None; rr_attempts := 0;
                          rr_nextAttemptAtMs := None; rr_lastFailureCode := None |} |} |}.

(** ** Replacement *)

Definition validateGroundReplacement (s : MobileNavigationSession) (p : GroundPayload)
    (replacement : Unvalidated) : GroundNavigationStartPackage + string :=
  if negb (bool_decide (status s = Active)) && negb (bool_decide (status s = Preparing))
  then inr "not-active"
  else match validateGroundStartPackage replacement with
  | inr code => inr code
  | inl startPackage =>
      if negb (bool_decide (gp_mode startPackage = gp_mode (g_startPackage p)))
      then inr "mode-changed"
      else inl startPackage
  end.

Definition applyGroundReplacement (s : MobileNavigationSession) (p : GroundPayload)
    (startPackage : GroundNavigationStartPackage) (nowMs : Z) : RepositoryMutation :=
  {| mut_session := set_payload
       (GroundSession
          {| g_startPackage := startPackage;
             g_tickState := fresh_tick (lastRerouteAtMs (g_tickState p)) (rerouteBackoffMs (g_tickState p));
             g_progress := None; g_weakGps := false; g_offRoute := false; g_coasting := false;
             g_currentSpeedLimit := None; g_coastingAnchor := None;
             g_reroute := {| rr_status := RrIdle; rr_requestId := None; rr_attempts := rr_attempts (g_reroute p);
                             rr_nextAttemptAtMs := None; rr_lastFailureCode := None |} |})
       (set_lastAcceptedFix None (advance nowMs s));
     mut_effects := [PublishSnapshot true]; mut_enqueue := []; mut_alerts := None |}.

(** ** Cues *)

Definition MAX_CUE_AGE_MS : Z := 10000.
Definition MAX_CUE_ID_LENGTH : nat := 128.
Definition MAX_SPEECH_TEXT_LENGTH : Z := 512.

Definition groundCueId (sid fingerprint cueKey : string) : string :=
  slice0 MAX_CUE_ID_LENGTH (sid ++ ":ground:" ++ fingerprint ++ ":" ++ cueKey)%string.

Definition offRouteEpisodeId (sid fingerprint : string) (episodeStartedAtMs : Z) : string :=
  groundCueId sid fingerprint ("off-route:" ++ show_Z episodeStartedAtMs)%string.

Definition arrivalCueId (sid fingerprint : string) : string := groundCueId sid fingerprint "arrival".

Context `{Catalogue} `{Intl} `{GuidanceEngine}.

(** The sentence of a cue, when there is one worth speaking. *)
Definition cue_text (cue : NavigationCue) (s : MobileNavigationSession) : option string :=
  match formatNavigationCue cue (locale s) (units s) with
  | Throw _ => None
  | Ok text =>
      if (str_length text =? 0) || (MAX_SPEECH_TEXT_LENGTH <? str_length text)
      then None else Some text
  end.

(** [groundCueEffect]: the cue's id with what to speak. *)
Definition groundCueEffect (s : MobileNavigationSession) (fingerprint : string) (cue : VoiceCue)
    : option (string * SessionEffect) :=
  instruction ← spokenInstructionFor cue;
  text ← cue_text (GroundManeuver (cue_tier cue) instruction
                     (if decide (cue_tier cue = TierNow) then None else Some (cue_distance cue))) s;
  let cueId := groundCueId (sessionId s) fingerprint (cue_key cue) in
  Some (cueId, Speak cueId text (locale s)).

Definition statusCueEffect (s : MobileNavigationSession) (cueId : string) (cue : NavigationCue)
    : option SessionEffect :=
  text ← cue_text cue s;
  Some (Speak cueId text (locale s)).

(** ** The prepared route index *)

(** [GroundRouteCache]: the session it belongs to and the index it holds. *)
Record GroundRouteCache := {
  cache_sessionId : option string;
  cache_matcher : option PreparedRouteMatcher;
}.

Definition empty_cache : GroundRouteCache :=
  {| cache_sessionId := None; cache_matcher := None |}.

(** [invalidate()] *)
Definition invalidate (c : GroundRouteCache) : GroundRouteCache := empty_cache.

(** [a[axis] !== b[axis]] for no axis of no point. *)
Definition same_point (a b : LngLat) : bool := num_eq a.1 b.1 && num_eq a.2 b.2.

Fixpoint sameCoordinates (owned candidate : list LngLat) : bool :=
  match owned, candidate with
  | [], [] => true
  | a :: owned, b :: candidate => same_point a b && sameCoordinates owned candidate
  | _, _ => false
  end.

(** [matcherFor(session)] *)
Definition matcherFor (c : GroundRouteCache) (sid : string) (geometry : list LngLat)
    : PreparedRouteMatcher * GroundRouteCache :=
  let prepared :=
    let m := prepareRouteMatcher geometry in
    (m, {| cache_sessionId := Some sid; cache_matcher := Some m |}) in
  match cache_matcher c with
  | Some m =>
      if bool_decide (cache_sessionId c = Some sid) && sameCoordinates (matcher_geometry m) geometry
      then (m, c) else prepared
  | None => prepared
  end.

(** ** A batch of fixes *)

(** [limits[index]] inside the array. *)
Definition limit_at (limits : option (list (option number))) (index : Z) : option (option number) :=
  match limits with
  | Some l => if (0 <=? index) && (index <? Z.of_nat (length l))
              then l !! Z.to_nat index else None
  | None => None
  end.

(** [speedLimitAt]: the captured limit, else the route's own. *)
Definition speedLimitAt (p : GroundNavigationStartPackage) (segmentIndex : Z) : option number :=
  match limit_at (gp_capturedLiveSpeedLimits p) segmentIndex with
  | Some (Some limit) => Some limit
  | _ => match limit_at (route_segmentSpeedLimits (gp_route p)) segmentIndex with
         | Some limit => limit
         | None => None
         end
  end.

Record CueCandidate := {
  cand_cueId : string;
  cand_effect : SessionEffect;
  cand_atMs : Z;
}.

(** The variables of the loop over the fixes. *)
Record BatchState := {
  b_tickState : NavTickState;
  b_progress : option (list (string * json));
  b_weakGps : bool;
  b_offRoute : bool;
  b_currentSpeedLimit : option number;
  b_lastAcceptedFix : option FixInput;
  b_arrived : bool;
  b_needsReroute : bool;
  b_offRouteEpisodeStart : option Z;
  b_cueCandidates : list CueCandidate;
  b_spokenCueIds : list string;
}.

(** Everything the loop reads of the session. *)
Record BatchContext := {
  ctx_session : MobileNavigationSession;
  ctx_startPackage : GroundNavigationStartPackage;
  ctx_fingerprint : string;
  ctx_route : Route;
  ctx_options : NavTickOptions;
  ctx_matcher : PreparedRouteMatcher;
}.

(** A rejected fix only says that the signal is poor. *)
Definition reject_fix (r : NavTickResult) (b : BatchState) : BatchState :=
  {| b_tickState := nextState r; b_progress := b_progress b; b_weakGps := tick_weakGps r;
     b_offRoute := b_offRoute b; b_currentSpeedLimit := b_currentSpeedLimit b;
     b_lastAcceptedFix := b_lastAcceptedFix b; b_arrived := b_arrived b;
     b_needsReroute := b_needsReroute b; b_offRouteEpisodeStart := b_offRouteEpisodeStart b;
     b_cueCandidates := b_cueCandidates b; b_spokenCueIds := b_spokenCueIds b |}.

(** The cue of a tick, when the ledger has not recorded it. *)
Definition fresh_cue (x : BatchContext) (r : NavTickResult) : option (string * SessionEffect) :=
  cue ← voiceCue r;
  built ← groundCueEffect (ctx_session x) (ctx_fingerprint x) cue;
  if includes built.1 (spoken (cueLedger (ctx_session x))) then None else Some built.

Definition accept_fix (x : BatchContext) (fix_ : FixInput) (r : NavTickResult) (b : BatchState)
    : BatchState :=
  let cue := fresh_cue x r in
  {| b_tickState := nextState r;
     b_progress := match tick_progress r with
                   | Some p => Some (np_record p) | None => b_progress b end;
     b_weakGps := tick_weakGps r;
     b_offRoute := tick_offRoute r;
     b_currentSpeedLimit := match tick_progress r with
                            | Some p => speedLimitAt (ctx_startPackage x) (np_segmentIndex p)
                            | None => b_currentSpeedLimit b
                            end;
     b_lastAcceptedFix := match tick_progress r with
                          | Some _ => Some fix_ | None => b_lastAcceptedFix b end;
     b_arrived := arrived r || b_arrived b;
     b_needsReroute := needsReroute r || b_needsReroute b;
     b_offRouteEpisodeStart := if tick_offRoute r && negb (b_offRoute b)
                               then Some (fix_timestampMs fix_) else b_offRouteEpisodeStart b;
     b_cueCandidates := b_cueCandidates b ++
       match cue with
       | Some c => [{| cand_cueId := c.1; cand_effect := c.2; cand_atMs := fix_timestampMs fix_ |}]
       | None => []
       end;
     b_spokenCueIds := b_spokenCueIds b ++ match cue with Some c => [c.1] | None => [] end |}.

(** One fix: a rejected one is skipped, the loop stops at the arrival. *)
Definition batch_tick (x : BatchContext) (fix_ : FixInput) (b : BatchState) : NavTickResult :=
  processFix (ctx_route x) fix_ (b_tickState b) (ctx_options x) (ctx_matcher x).

Fixpoint batch_loop (x : BatchContext) (fixes : list FixInput) (b : BatchState) : BatchState :=
  match fixes with
  | [] => b
  | fix_ :: rest =>
      let r := batch_tick x fix_ b in
      if accuracyRejected r then batch_loop x rest (reject_fix r b)
      else let b := accept_fix x fix_ r b in
           if arrived r then b else batch_loop x rest b
  end.

Definition with_geometry (g : list LngLat) (r : Route) : Route :=
  {| route_distance := route_distance r; route_duration := route_duration r;
     route_geometry := g; route_steps := route_steps r; route_mode := route_mode r;
     route_segmentSpeedLimits := route_segmentSpeedLimits r; route_summary := route_summary r;
     route_extra := route_extra r |}.

Definition batch_context (s : MobileNavigationSession) (p : GroundPayload)
    (matcher : PreparedRouteMatcher) : BatchContext :=
  let startPackage := g_startPackage p in
  {| ctx_session := s; ctx_startPackage := startPackage;
     ctx_fingerprint := routeFingerprint (route_geometry (gp_route startPackage));
     ctx_route := with_geometry (matcher_geometry matcher) (gp_route startPackage);
     ctx_options := with_announceMultiplier
                      (announceMultiplierFor (ground_voiceTiming (gp_settings startPackage)))
                      (navOptionsForMode (gp_mode startPackage));
     ctx_matcher := matcher |}.

Definition batch_start (s : MobileNavigationSession) (p : GroundPayload) : BatchState :=
  {| b_tickState := g_tickState p; b_progress := g_progress p; b_weakGps := g_weakGps p;
     b_offRoute := g_offRoute p; b_currentSpeedLimit := g_currentSpeedLimit p;
     b_lastAcceptedFix := lastAcceptedFix s; b_arrived := false; b_needsReroute := false;
     b_offRouteEpisodeStart := None; b_cueCandidates := []; b_spokenCueIds := [] |}.

(** *** What the batch says *)

(** A status the ledger has not recorded yet: its event, and its sentence when
    speech is on. *)
Record StatusReport := {
  rep_eventIds : list string;
  rep_enqueue : list EventInput;
  rep_effects : list SessionEffect;
}.

Definition no_report : StatusReport :=
  {| rep_eventIds := []; rep_enqueue := []; rep_effects := [] |}.

Definition option_effects (o : option SessionEffect) : list SessionEffect :=
  match o with Some e => [e] | None => [] end.

Definition status_report (x : BatchContext) (cueId type : string) (cue : NavigationCue)
    : StatusReport :=
  if includes cueId (events (cueLedger (ctx_session x))) then no_report
  else {| rep_eventIds := [cueId];
          rep_enqueue := [{| in_eventId := cueId; in_critical := true;
                             in_payload := JObj [("type", JStr type)] |}];
          rep_effects := if ground_voiceEnabled (gp_settings (ctx_startPackage x))
                         then option_effects (statusCueEffect (ctx_session x) cueId cue) else [] |}.

Definition off_route_report (x : BatchContext) (b : BatchState) : StatusReport :=
  match b_offRouteEpisodeStart b with
  | Some at_ => status_report x
      (offRouteEpisodeId (sessionId (ctx_session x)) (ctx_fingerprint x) at_) "off-route" CueOffRoute
  | None => no_report
  end.

Definition arrival_report (x : BatchContext) (b : BatchState) : StatusReport :=
  if b_arrived b
  then status_report x (arrivalCueId (sessionId (ctx_session x)) (ctx_fingerprint x))
         "arrived" CueArrival
  else no_report.

(** At most the newest cue, while it still describes something ahead. *)
Definition newest_cue (x : BatchContext) (b : BatchState) (nowMs : Z) : list SessionEffect :=
  if ground_voiceEnabled (gp_settings (ctx_startPackage x))
  then match last (b_cueCandidates b) with
       | Some newest => if nowMs - cand_atMs newest <=? MAX_CUE_AGE_MS
                        then [cand_effect newest] else []
       | None => []
       end
  else [].

(** [appendBounded] *)
Definition appendBounded (existing additions : list string) : list string :=
  keep_last 512 (push_missing existing additions).

Definition isRejected (f : FixInput) (accuracyCapMeters : number) : bool :=
  num_lt accuracyCapMeters (fix_accuracy f).

Record GroundBatchOutcome := {
  out_mutation : RepositoryMutation;
  out_arrived : bool;
  out_needsReroute : bool;
}.

Definition is_some {A} (o : option A) : bool := match o with Some _ => true | None => false end.

(** What is left of the batch once the loop has run. *)
Definition batch_outcome (x : BatchContext) (p : GroundPayload) (fixes : list FixInput)
    (nowMs : Z) (b : BatchState) : GroundBatchOutcome :=
  let s := ctx_session x in
  let off := off_route_report x b in
  let arr := arrival_report x b in
  {| out_mutation :=
       {| mut_session :=
            set_payload
              (GroundSession
                 {| g_startPackage := g_startPackage p; g_tickState := b_tickState b;
                    g_progress := b_progress b; g_weakGps := b_weakGps b;
                    g_offRoute := b_offRoute b;
                    g_coasting := if existsb (fun f => negb (fix_coasted f)
                                       && negb (isRejected f (accuracyCapMeters (ctx_options x)))) fixes
                                  then false else g_coasting p;
                    g_currentSpeedLimit := b_currentSpeedLimit b;
                    g_coastingAnchor := g_coastingAnchor p; g_reroute := g_reroute p |})
              (set_lastAcceptedFix (b_lastAcceptedFix b)
                 (set_cueLedger
                    {| spoken := appendBounded (spoken (cueLedger s)) (b_spokenCueIds b);
                       events := appendBounded (events (cueLedger s))
                                   (rep_eventIds off ++ rep_eventIds arr) |}
                    (set_status (if b_arrived b then Arrived else status s) (advance nowMs s))));
          mut_effects := newest_cue x b nowMs ++ rep_effects off ++ rep_effects arr
                         ++ [PublishSnapshot (b_arrived b || is_some (b_offRouteEpisodeStart b))];
          mut_enqueue := rep_enqueue off ++ rep_enqueue arr;
          mut_alerts := None |};
     out_arrived := b_arrived b;
     out_needsReroute := b_needsReroute b |}.

Definition processGroundBatch (c : GroundRouteCache) (s : MobileNavigationSession)
    (p : GroundPayload) (fixes : list FixInput) (nowMs : Z)
    : GroundBatchOutcome * GroundRouteCache :=
  let (matcher, c) := matcherFor c (sessionId s) (route_geometry (gp_route (g_startPackage p))) in
  let x := batch_context s p matcher in
  (batch_outcome x p fixes nowMs (batch_loop x fixes (batch_start s p)), c).

(** ** The processor *)

(** [`${session.sessionId}:reroute:${revision}`] *)
Definition reroute_request_id (sid : string) (rev : Z) : string :=
  (sid ++ ":reroute:" ++ show_Z rev)%string.

Definition pending_reroute (requestId : string) (attempts : Z) : RerouteRuntime :=
  {| rr_status := RrPending; rr_requestId := Some requestId; rr_attempts := attempts;
     rr_nextAttemptAtMs := None; rr_lastFailureCode := None |}.

(** The mutation with the reroute the engine asked for recorded. *)
Definition with_reroute_request (attempts : Z) (m : RepositoryMutation) : RepositoryMutation :=
  match payload (mut_session m) with
  | GroundSession p =>
      let requestId := reroute_request_id (sessionId (mut_session m)) (revision (mut_session m)) in
      {| mut_session := set_payload (GroundSession (with_reroute (pending_reroute requestId attempts) p))
                          (mut_session m);
         mut_effects := mut_effects m ++ [RequestReroute requestId];
         mut_enqueue := mut_enqueue m; mut_alerts := mut_alerts m |}
  | TransitSession _ => m
  end.

(** [processFixes]: the mutation and the cache it leaves. *)
Definition ground_processFixes (c : GroundRouteCache) (s : MobileNavigationSession)
    (p : GroundPayload) (fixes : list FixInput) (nowMs : Z)
    : RepositoryMutation * GroundRouteCache :=
  let (out, c) := processGroundBatch c s p fixes nowMs in
  if negb (out_needsReroute out) || out_arrived out then (out_mutation out, c)
  else (with_reroute_request (rr_attempts (g_reroute p)) (out_mutation out), c).

(** [onConnectivityRestored] *)
Definition ground_onConnectivityRestored (s : MobileNavigationSession) (p : GroundPayload)
    (nowMs : Z) : option RepositoryMutation :=
  if negb (bool_decide (rr_status (g_reroute p) = RrUnavailable)) then None
  else
    let requestId := reroute_request_id (sessionId s) (revision s + 1) in
    Some {| mut_session := set_payload
              (GroundSession (with_reroute (pending_reroute requestId (rr_attempts (g_reroute p))) p))
              (set_connectivity Online (advance nowMs s));
            mut_effects := [RequestReroute requestId]; mut_enqueue := []; mut_alerts := None |}.

(** [GroundNavigationProcessor] as the coordinator sees it.  The cache is not part
    of the value: a coherent one does not change a batch, and the processor is
    stated with an empty one.  A session of the other mode never reaches it. *)
Definition GroundNavigationProcessor : NavigationProcessor :=
  {| proc_kind := Ground;
     needsScheduleTicks := false;
     proc_prepare := fun startPackage sid nowMs mode =>
       match validateGroundStartPackage (Candidate startPackage) with
       | inr code => Ok (inr code)
       | inl p => Ok (inl (createGroundPreparingSession p sid mode nowMs))
       end;
     processFixes := fun s fixes nowMs =>
       match payload s with
       | GroundSession p => Ok (ground_processFixes empty_cache s p fixes nowMs).1
       | TransitSession _ => Throw "kind"
       end;
     proc_replace := fun s replacement nowMs =>
       match payload s with
       | GroundSession p =>
           match validateGroundReplacement s p replacement with
           | inr code => Ok (inr code)
           | inl startPackage => Ok (inl (applyGroundReplacement s p startPackage nowMs))
           end
       | TransitSession _ => Throw "kind"
       end;
     repairTransitWalk := None;
     transitAction := None |}.
End ground.
