(* ===== verification/GroundFacts.v ===== *)
(** * What ground navigation guarantees

    Over [Ground]: the processor's contract, that a batch leaves a session storage
    can read back, what a batch may say, that the route index is only a cache, and
    what a replacement resets. *)

From S2P Require Import Prelude Protocol Cues Session Snapshot Samples Database Repository Register Reroute Processor Guidance SampleEngine Ground.

Section ground_facts.
Context `{ReceiptValidators} `{Catalogue} `{Intl} `{GuidanceEngine}.

(** ** Validation *)

(** What a package must be for the engine to guide along it. *)
Record coherent_package (p : GroundNavigationStartPackage) : Prop := {
  coh_schema : groundStartPackageSchema p = true;
  coh_steps : route_steps (gp_route p) <> [];
  coh_mode : route_mode (gp_route p) = ground_mode_name (gp_mode p);
  coh_alternatives : Forall (fun a => route_mode a = ground_mode_name (gp_mode p)) (gp_alternatives p);
  coh_limits : match gp_capturedLiveSpeedLimits p with
               | Some l => (length l + 1 = length (route_geometry (gp_route p)))%nat
               | None => True
               end;
}.

Lemma schema_counts p :
  groundStartPackageSchema p = true ->
  gp_destinationWaypoints p <> []
  /\ Z.of_nat (length (gp_destinationWaypoints p)) <= MAX_DESTINATION_WAYPOINTS
  /\ Z.of_nat (length (gp_alternatives p)) <= MAX_ALTERNATIVES
  /\ (2 <= length (route_geometry (gp_route p)))%nat.
Proof.
  unfold groundStartPackageSchema, routeSchema.
  rewrite !andb_true_iff, !Z.leb_le. intros (((((([Hr _] & Ha) & Hd) & Hd') & _) & _) & _).
  split_and!; [|done|done|lia]. by destruct (gp_destinationWaypoints p).
Qed.

Lemma existsb_false_Forall {A} (f : A -> bool) l :
  existsb f l = false <-> Forall (fun x => f x = false) l.
Proof.
  induction l as [|x l IH]; simpl; [by split|].
  rewrite orb_false_iff, Forall_cons, IH. done.
Qed.

Lemma validated_package p q :
  validateGroundStartPackage (Candidate (GroundPackage p)) = inl q ->
  q = p /\ coherent_package p.
Proof.
  unfold validateGroundStartPackage. intros Hv.
  destruct (groundStartPackageSchema p) eqn:Hs; [|done]. cbn [negb] in Hv.
  destruct (schema_counts p Hs) as (Hd & Hd' & Ha & Hg).
  repeat (case_match; [done|]). injection Hv as <-. split; [done|]. constructor; [done|..].
  - intros E. rewrite E in *. done.
  - by apply String.eqb_eq, negb_false_iff.
  - rewrite existsb_false_Forall in *. eapply Forall_impl; [eassumption|]. simpl.
    intros a E. by apply String.eqb_eq, negb_false_iff.
  - destruct (gp_capturedLiveSpeedLimits p); [|done].
    match goal with E : negb _ = false |- _ => apply negb_false_iff, Z.eqb_eq in E; lia end.
Qed.

Lemma coherent_validates p :
  coherent_package p -> validateGroundStartPackage (Candidate (GroundPackage p)) = inl p.
Proof.
  intros [Hs Hsteps Hmode Halt Hlim]. destruct (schema_counts p Hs) as (Hd & Hd' & Ha & Hg).
  unfold validateGroundStartPackage. rewrite Hs. cbn [negb].
  destruct (route_steps (gp_route p)) as [|st sts]; [done|].
  rewrite Hmode, String.eqb_refl. cbn [negb].
  destruct (gp_destinationWaypoints p) as [|d ds]; [done|].
  rewrite (proj2 (Z.ltb_ge _ _)) by exact Hd'. rewrite (proj2 (Z.ltb_ge _ _)) by exact Ha.
  replace (existsb _ _) with false; cycle 1.
  { symmetry. apply existsb_false_Forall. eapply Forall_impl; [exact Halt|]. simpl.
    intros a ->. by rewrite String.eqb_refl. }
  destruct (gp_capturedLiveSpeedLimits p) as [l|]; [|done].
  replace (_ =? _) with true by (symmetry; apply Z.eqb_eq; lia). done.
Qed.

Lemma accepted_iff value q :
  validateGroundStartPackage value = inl q
  <-> value = Candidate (GroundPackage q) /\ coherent_package q.
Proof.
  split.
  - intros Hv. destruct value as [[p|p]|]; try done.
    by destruct (validated_package p q Hv) as [-> ?].
  - intros [-> Hq]. by apply coherent_validates.
Qed.

(** a ground package is accepted exactly when it passes the wire schema, has
    steps to announce, its route and every alternative are for the requested
    mode, and captured speed limits line up with the segments; what is accepted
    is the package itself, and nothing else on the wire is a ground package. *)
Theorem ground_package_accepted_iff value q :
  validateGroundStartPackage value = inl q
  <-> value = Candidate (GroundPackage q) /\ coherent_package q.
Proof. apply accepted_iff. Qed.

(** ** Replacement *)

(** The processor's answer to a replacement. *)
Lemma ground_replace_run s p u nowMs :
  payload s = GroundSession p ->
  proc_replace GroundNavigationProcessor s u nowMs =
    Ok match validateGroundReplacement s p u with
       | inr code => inr code
       | inl q => inl (applyGroundReplacement s p q nowMs)
       end.
Proof. intros Hp. simpl. rewrite Hp. by case_match. Qed.

Lemma ground_kind s : kind s = Ground -> exists p, payload s = GroundSession p.
Proof. unfold kind. destruct (payload s); eauto; done. Qed.

(** What a replacement leaves of the old line in a payload: nothing but the attempts at
    a reroute and the times that space them. *)
Record reset_line (q : GroundNavigationStartPackage) (old new : GroundPayload) : Prop := {
  reset_package : g_startPackage new = q;
  reset_flags : g_progress new = None /\ g_weakGps new = false /\ g_offRoute new = false /\
    g_coasting new = false /\ g_currentSpeedLimit new = None /\ g_coastingAnchor new = None;
  reset_reroute : rr_status (g_reroute new) = RrIdle /\ rr_requestId (g_reroute new) = None /\
    rr_nextAttemptAtMs (g_reroute new) = None /\ rr_lastFailureCode (g_reroute new) = None;
  reset_engine : offRouteScore (g_tickState new) = num_of_Z 0 /\ spokenCues (g_tickState new) = [] /\
    speedEstimate (g_tickState new) = None /\ tick_extra (g_tickState new) = [];
  reset_keeps : rr_attempts (g_reroute new) = rr_attempts (g_reroute old) /\
    lastRerouteAtMs (g_tickState new) = lastRerouteAtMs (g_tickState old) /\
    rerouteBackoffMs (g_tickState new) = rerouteBackoffMs (g_tickState old);
}.

(** C40: a replacement that is accepted resets, in one revision, everything the old
    line owned: the last fix, the progress, the flags of a weak signal, of leaving the
    route and of coasting, the speed limit, the coasting anchor, the reroute in
    progress, and the engine's off-route score, spoken cues, speed estimate and extras;
    it keeps the ledger, the attempts at a reroute, the last one's time and the
    back-off, and the session's identity and lifetime.  It is accepted only for a
    running session, in the same mode, with a coherent package; a refusal names a code
    and has no mutation. *)
Theorem replacement_resets_the_line s p u nowMs :
  payload s = GroundSession p ->
  match proc_replace GroundNavigationProcessor s u nowMs with
  | Ok (inl m) =>
      exists q new, u = Candidate (GroundPackage q) /\ coherent_package q
        /\ (status s = Active \/ status s = Preparing)
        /\ gp_mode q = gp_mode (g_startPackage p)
        /\ payload (mut_session m) = GroundSession new /\ reset_line q p new
        /\ lastAcceptedFix (mut_session m) = None
        /\ revision (mut_session m) = revision s + 1 /\ updatedAtMs (mut_session m) = nowMs
        /\ cueLedger (mut_session m) = cueLedger s
        /\ sessionId (mut_session m) = sessionId s /\ status (mut_session m) = status s
        /\ startedAtMs (mut_session m) = startedAtMs s /\ expiresAtMs (mut_session m) = expiresAtMs s
        /\ mut_effects m = [PublishSnapshot true] /\ mut_enqueue m = []
  | Ok (inr code) =>
      forall q, u = Candidate (GroundPackage q) ->
        ~ (coherent_package q /\ (status s = Active \/ status s = Preparing)
           /\ gp_mode q = gp_mode (g_startPackage p))
  | Throw _ => False
  end.
Proof.
  intros Hp. rewrite (ground_replace_run _ p) by done. unfold validateGroundReplacement.
  destruct (negb (bool_decide (status s = Active)) && _) eqn:Est.
  { apply andb_true_iff in Est as [E1 E2]. intros q _ (_ & Hst & _).
    apply negb_true_iff, bool_decide_eq_false in E1, E2. tauto. }
  assert (status s = Active \/ status s = Preparing) as Hst.
  { apply andb_false_iff in Est. destruct Est as [E|E]; apply negb_false_iff, bool_decide_eq_true in E; auto. }
  destruct (validateGroundStartPackage u) as [q|code] eqn:Hv.
  - destruct (bool_decide (gp_mode q = gp_mode (g_startPackage p))) eqn:Em; cbn [negb].
    + apply bool_decide_eq_true in Em. apply accepted_iff in Hv as [-> Hq].
      eexists q, _. by split_and!.
    + apply bool_decide_eq_false in Em. intros q' -> (_ & _ & Hm).
      apply accepted_iff in Hv as [E _]. by simplify_eq.
  - intros q -> (Hq & _ & _). by rewrite coherent_validates in Hv.
Qed.

(** ** The processor's contract *)

Lemma batch_outcome_session x p fixes nowMs b :
  kind (ctx_session x) = Ground ->
  advances (ctx_session x) nowMs (out_mutation (batch_outcome x p fixes nowMs b)).
Proof. by split. Qed.

Lemma reroute_request_advances s nowMs attempts m :
  kind s = Ground -> advances s nowMs m -> advances s nowMs (with_reroute_request attempts m).
Proof.
  intros Hk []. unfold with_reroute_request. destruct (payload (mut_session m)) eqn:E; [|done].
  by split.
Qed.

Lemma processGroundBatch_run c s p fixes nowMs :
  let m := matcherFor c (sessionId s) (route_geometry (gp_route (g_startPackage p))) in
  let x := batch_context s p m.1 in
  processGroundBatch c s p fixes nowMs =
    (batch_outcome x p fixes nowMs (batch_loop x fixes (batch_start s p)), m.2).
Proof. unfold processGroundBatch. by destruct (matcherFor _ _ _). Qed.

Lemma ground_processFixes_run c s p fixes nowMs :
  let out := (processGroundBatch c s p fixes nowMs).1 in
  ground_processFixes c s p fixes nowMs =
    (if negb (out_needsReroute out) || out_arrived out then out_mutation out
     else with_reroute_request (rr_attempts (g_reroute p)) (out_mutation out),
     (processGroundBatch c s p fixes nowMs).2).
Proof.
  unfold ground_processFixes. destruct (processGroundBatch _ _ _ _ _) as [out c'].
  simpl. by case_match.
Qed.

#[export] Instance ground_processor_lawful : ProcessorLaws GroundNavigationProcessor.
Proof.
  split; cbn [proc_kind proc_prepare processFixes proc_replace repairTransitWalk transitAction
              GroundNavigationProcessor].
  - intros pkg sid nowMs mode s Hp. case_match; [|done]. by simplify_eq.
  - intros s fixes nowMs m Hk Hm. destruct (ground_kind s Hk) as [p Hp]. rewrite Hp in Hm.
    rewrite ground_processFixes_run, processGroundBatch_run in Hm. injection Hm as <-. cbn [fst].
    case_match; [by apply (batch_outcome_session (batch_context s p _))|].
    apply reroute_request_advances; [done|]. by apply (batch_outcome_session (batch_context s p _)).
  - intros s u nowMs m Hk Hm. destruct (ground_kind s Hk) as [p Hp]. rewrite Hp in Hm.
    case_match; [|done]. simplify_eq. by split.
  - done.
  - done.
Qed.

(** ** The route index is only a cache *)

(** Coordinates as [JSON.parse] makes them: a finite one in lowest terms. *)
Definition canonical (x : number) : Prop :=
  match x with Fin q => Qreduction.Qred q = q | NaN => False | _ => True end.

Lemma num_eq_canonical x y : canonical x -> canonical y -> num_eq x y = true -> x = y.
Proof.
  unfold num_eq, num_le. destruct x as [| | |q], y as [| | |r]; simpl; try done.
  intros Hq Hr E. apply andb_true_iff in E as [E1 E2].
  apply QArith_base.Qle_bool_iff in E1, E2.
  f_equal. rewrite <- Hq, <- Hr. apply Qreduction.Qred_complete.
  by apply QArith_base.Qle_antisym.
Qed.

Lemma sameCoordinates_eq a b :
  Forall (fun p => canonical p.1 /\ canonical p.2) a ->
  Forall (fun p => canonical p.1 /\ canonical p.2) b ->
  sameCoordinates a b = true -> a = b.
Proof.
  intros Ha. revert b. induction Ha as [|[x y] a [Hx Hy] Ha IH]; intros [|[x' y'] b] Hb E; try done.
  simpl in E. apply andb_true_iff in E as [E1 E2]. unfold same_point in E1.
  apply andb_true_iff in E1 as [E1 E1']. apply Forall_cons in Hb as [[Hx' Hy'] Hb].
  f_equal; [f_equal; by apply num_eq_canonical|by apply IH].
Qed.

(** A cache whose index was prepared from the geometry it reports. *)
Definition cache_coherent (c : GroundRouteCache) : Prop :=
  match cache_matcher c with
  | Some m => m = prepareRouteMatcher (matcher_geometry m)
              /\ Forall (fun p => canonical p.1 /\ canonical p.2) (matcher_geometry m)
  | None => True
  end.

Definition session_canonical (p : GroundPayload) : Prop :=
  Forall (fun q => canonical q.1 /\ canonical q.2) (route_geometry (gp_route (g_startPackage p))).

Lemma matcherFor_prepares `{!GuidanceLaws} c sid g :
  cache_coherent c -> Forall (fun p => canonical p.1 /\ canonical p.2) g ->
  (matcherFor c sid g).1 = prepareRouteMatcher g /\ cache_coherent (matcherFor c sid g).2.
Proof.
  intros Hc Hg.
  assert (cache_coherent {| cache_sessionId := Some sid;
                            cache_matcher := Some (prepareRouteMatcher g) |}) as Hfresh.
  { unfold cache_coherent. simpl. by rewrite matcher_keeps_geometry. }
  unfold matcherFor. destruct (cache_matcher c) as [m|] eqn:Em; [|done].
  destruct (_ && _) eqn:E; [|done]. apply andb_true_iff in E as [_ E].
  split; [|done]. simpl. unfold cache_coherent in Hc. rewrite Em in Hc. destruct Hc as [Hm Hcan].
  rewrite Hm. f_equal. by apply sameCoordinates_eq.
Qed.

(** the prepared route index never shows.  Whatever batches came before, for
    this session or another, a coherent cache gives the mutation an empty one
    gives, and stays coherent: reusing the index is an optimisation of preparing
    it afresh.  (Coordinates are the numbers a JSON text can hold.) *)
Theorem route_cache_is_invisible `{!GuidanceLaws} c s p fixes nowMs :
  cache_coherent c -> session_canonical p ->
  (ground_processFixes c s p fixes nowMs).1 = (ground_processFixes empty_cache s p fixes nowMs).1
  /\ cache_coherent (ground_processFixes c s p fixes nowMs).2.
Proof.
  intros Hc Hp. rewrite !ground_processFixes_run, !processGroundBatch_run. cbn [fst snd].
  destruct (matcherFor_prepares c (sessionId s) _ Hc Hp) as [-> Hc'].
  destruct (matcherFor_prepares empty_cache (sessionId s) _ I Hp) as [-> _]. done.
Qed.

(** ** The loop over the fixes *)

(** Induction over a batch: an invariant that may depend on the fixes left. *)
Lemma batch_loop_ind (P : nat -> BatchState -> Prop) x fixes b :
  (forall n b, P (S n) b -> P n b) ->
  (forall n f b, f ∈ fixes -> P (S n) b -> accuracyRejected (batch_tick x f b) = true ->
     P n (reject_fix (batch_tick x f b) b)) ->
  (forall n f b, f ∈ fixes -> P (S n) b -> accuracyRejected (batch_tick x f b) = false ->
     P n (accept_fix x f (batch_tick x f b) b)) ->
  P (length fixes) b -> P 0%nat (batch_loop x fixes b).
Proof.
  intros Hdown. revert b. induction fixes as [|f fixes IH]; intros b Hrej Hacc Hb; [done|].
  cbn [batch_loop]. destruct (accuracyRejected (batch_tick x f b)) eqn:Er.
  - apply IH; [| |by apply Hrej; [left|..]]; intros; [apply Hrej|apply Hacc]; try done; by right.
  - assert (P (length fixes) (accept_fix x f (batch_tick x f b) b)) as Hb'
      by (apply Hacc; [left|done..]).
    case_match.
    + clear -Hdown Hb'. induction (length fixes); [done|]. auto.
    + apply IH; [..|done]; intros; [apply Hrej|apply Hacc]; try done; by right.
Qed.

(** An invariant that does not depend on the fixes left. *)
Lemma batch_loop_inv (P : BatchState -> Prop) x fixes b :
  (forall f b, f ∈ fixes -> P b -> P (reject_fix (batch_tick x f b) b)) ->
  (forall f b, f ∈ fixes -> P b -> P (accept_fix x f (batch_tick x f b) b)) ->
  P b -> P (batch_loop x fixes b).
Proof.
  intros Hrej Hacc Hb. apply (batch_loop_ind (fun _ => P)); auto.
Qed.

(** The cues the loop collects: each one is new to the ledger, is recorded, and is
    a sentence about the fix it was due at. *)
Definition cues_recorded (x : BatchContext) (fixes : list FixInput) (b : BatchState) : Prop :=
  map cand_cueId (b_cueCandidates b) = b_spokenCueIds b
  /\ Forall (fun c =>
       cand_cueId c ∉ spoken (cueLedger (ctx_session x))
       /\ (exists text, cand_effect c = Speak (cand_cueId c) text (locale (ctx_session x)))
       /\ cand_atMs c ∈ map fix_timestampMs fixes) (b_cueCandidates b).

Lemma fresh_cue_spec x r c :
  fresh_cue x r = Some c ->
  c.1 ∉ spoken (cueLedger (ctx_session x))
  /\ (exists text, c.2 = Speak c.1 text (locale (ctx_session x)))
  /\ (exists cue, voiceCue r = Some cue
       /\ c.1 = groundCueId (sessionId (ctx_session x)) (ctx_fingerprint x) (cue_key cue)).
Proof.
  unfold fresh_cue, groundCueEffect. intros Hc.
  apply bind_Some in Hc as (cue & Hcue & Hc). apply bind_Some in Hc as (built & Hb & Hc).
  apply bind_Some in Hb as (ins & _ & Hb). apply bind_Some in Hb as (text & _ & Hb).
  destruct (includes _ _) eqn:Hi; [done|]. apply includes_false in Hi. simplify_eq.
  split; [done|]. split; [by eexists|]. by exists cue.
Qed.

Lemma batch_cues_recorded x fixes s p :
  cues_recorded x fixes (batch_loop x fixes (batch_start s p)).
Proof.
  apply batch_loop_inv; [done| |by split; [|constructor]].
  intros f b Hf [Hids Hall]. unfold cues_recorded. cbn [accept_fix b_cueCandidates b_spokenCueIds].
  destruct (fresh_cue x (batch_tick x f b)) as [c|] eqn:Ec; cycle 1.
  { by rewrite !app_nil_r. }
  destruct (fresh_cue_spec _ _ _ Ec) as (Hnew & Htext & _).
  rewrite map_app, Hids. split; [done|]. apply Forall_app. split; [done|].
  constructor; [|constructor]. simpl. split_and!; [done|done|]. by apply list_elem_of_fmap_2.
Qed.

(** ** What a batch may say *)

Definition is_spoken (e : SessionEffect) : bool := match e with Speak _ _ _ => true | _ => false end.

(** The sentences among some effects. *)
Definition sentences (l : list SessionEffect) : list SessionEffect := List.filter is_spoken l.

Lemma sentences_app l k : sentences (l ++ k) = sentences l ++ sentences k.
Proof. apply List.filter_app. Qed.

Lemma newest_cue_spec x b nowMs e :
  e ∈ newest_cue x b nowMs ->
  ground_voiceEnabled (gp_settings (ctx_startPackage x)) = true
  /\ (exists c, last (b_cueCandidates b) = Some c /\ e = cand_effect c
       /\ nowMs - cand_atMs c <= MAX_CUE_AGE_MS).
Proof.
  unfold newest_cue. intros He. repeat case_match; try by apply not_elem_of_nil in He.
  apply list_elem_of_singleton in He. split; [done|]. eexists. split_and!; [done|done|by apply Z.leb_le].
Qed.

Lemma status_report_spec x cueId type cue e :
  e ∈ rep_effects (status_report x cueId type cue) ->
  ground_voiceEnabled (gp_settings (ctx_startPackage x)) = true
  /\ cueId ∉ events (cueLedger (ctx_session x))
  /\ (exists text, e = Speak cueId text (locale (ctx_session x))).
Proof.
  unfold status_report. destruct (includes _ _) eqn:Hi; [intros []%not_elem_of_nil|].
  apply includes_false in Hi. simpl. destruct (ground_voiceEnabled _); [|intros []%not_elem_of_nil].
  unfold statusCueEffect. destruct (cue_text _ _) as [text|]; simpl; [|intros []%not_elem_of_nil].
  intros ->%list_elem_of_singleton. split_and!; [done|done|by eexists].
Qed.

Lemma batch_cue_count x fixes s p :
  (length (b_spokenCueIds (batch_loop x fixes (batch_start s p))) <= length fixes)%nat.
Proof.
  pose (P n b := (length (b_spokenCueIds b) + n <= length fixes)%nat).
  enough (P 0%nat (batch_loop x fixes (batch_start s p))) by (unfold P in *; lia).
  apply batch_loop_ind; unfold P; simpl; intros; try lia.
  rewrite length_app. case_match; simpl; lia.
Qed.

(** The effects of a batch: at most one sentence about a turn, one about the
    route, one about the arrival; then the snapshot. *)
Lemma batch_effects x p fixes nowMs b :
  mut_effects (out_mutation (batch_outcome x p fixes nowMs b)) =
    newest_cue x b nowMs ++ rep_effects (off_route_report x b) ++ rep_effects (arrival_report x b)
    ++ [PublishSnapshot (b_arrived b || is_some (b_offRouteEpisodeStart b))].
Proof. done. Qed.

Lemma sentences_short l n : (length l <= n)%nat -> (length (sentences l) <= n)%nat.
Proof. intros Hl. etrans; [apply List.filter_length_le|done]. Qed.

Lemma newest_cue_short x b nowMs : (length (newest_cue x b nowMs) <= 1)%nat.
Proof. unfold newest_cue. repeat case_match; simpl; lia. Qed.

Lemma status_report_short x c type cue :
  (length (rep_effects (status_report x c type cue)) <= 1)%nat
  /\ (length (rep_eventIds (status_report x c type cue)) <= 1)%nat.
Proof.
  unfold status_report. repeat case_match; simpl; try lia.
  destruct (statusCueEffect _ _ _); simpl; lia.
Qed.

Lemma off_route_report_short x b :
  (length (rep_effects (off_route_report x b)) <= 1)%nat
  /\ (length (rep_eventIds (off_route_report x b)) <= 1)%nat.
Proof. unfold off_route_report. case_match; [apply status_report_short|simpl; lia]. Qed.

Lemma arrival_report_short x b :
  (length (rep_effects (arrival_report x b)) <= 1)%nat
  /\ (length (rep_eventIds (arrival_report x b)) <= 1)%nat.
Proof. unfold arrival_report. case_match; [apply status_report_short|simpl; lia]. Qed.

Lemma status_report_records x c type cue e :
  e ∈ rep_effects (status_report x c type cue) ->
  exists id text, e = Speak id text (locale (ctx_session x))
    /\ id ∈ rep_eventIds (status_report x c type cue)
    /\ id ∉ events (cueLedger (ctx_session x))
    /\ ground_voiceEnabled (gp_settings (ctx_startPackage x)) = true.
Proof.
  intros He. pose proof He as (Hv & Hn & text & ->)%status_report_spec.
  exists c, text. split_and!; try done. unfold status_report in *.
  rewrite (proj2 (includes_false _ _)) by done. by left.
Qed.

(** Every sentence of the outcome comes from one of the three places. *)
Lemma batch_sentence x fixes s p nowMs e :
  ctx_session x = s ->
  let b := batch_loop x fixes (batch_start s p) in
  e ∈ newest_cue x b nowMs ++ rep_effects (off_route_report x b) ++ rep_effects (arrival_report x b) ->
  exists id text, e = Speak id text (locale s)
    /\ ground_voiceEnabled (gp_settings (ctx_startPackage x)) = true
    /\ ((id ∉ spoken (cueLedger s) /\ id ∈ b_spokenCueIds b
         /\ (exists t, t ∈ map fix_timestampMs fixes /\ nowMs - t <= MAX_CUE_AGE_MS))
        \/ (id ∉ events (cueLedger s)
            /\ id ∈ rep_eventIds (off_route_report x b) ++ rep_eventIds (arrival_report x b))).
Proof.
  intros Hs b. rewrite !elem_of_app. intros [He|[He|He]].
  - apply newest_cue_spec in He as (Hv & c & Hlast & -> & Hage).
    destruct (batch_cues_recorded x fixes s p) as [Hids Hall]. fold b in Hids, Hall.
    apply last_Some_elem_of in Hlast. rewrite Forall_forall in Hall.
    destruct (Hall c Hlast) as (Hnew & [text Ht] & Hat). rewrite Hs in *.
    exists (cand_cueId c), text. split_and!; [done|done|]. left.
    split_and!; [done| |by eexists]. rewrite <- Hids. by apply list_elem_of_fmap_2.
  - unfold off_route_report in *. destruct (b_offRouteEpisodeStart b); [|by apply not_elem_of_nil in He].
    apply status_report_records in He as (id & text & -> & Hid & Hn & Hv). rewrite Hs in *.
    exists id, text. split_and!; [done..|]. right. split; [done|]. apply elem_of_app. by left.
  - unfold arrival_report in *. destruct (b_arrived b); [|by apply not_elem_of_nil in He].
    apply status_report_records in He as (id & text & -> & Hid & Hn & Hv). rewrite Hs in *.
    exists id, text. split_and!; [done..|]. right. split; [done|]. apply elem_of_app. by right.
Qed.

(** what a batch says.  A batch of at most 512 fixes, however late it arrives,
    speaks at most three sentences (a turn, the route lost, the arrival) and
    publishes exactly one snapshot, last.  Nothing is spoken with speech off.  A
    sentence is in the session's language, its cue was not in the ledger before
    and is in it afterwards, and a turn is spoken only when some fix of the batch
    is at most ten seconds old. *)
Theorem batch_speaks_the_present_once c s p fixes nowMs :
  (length fixes <= MOBILE_SESSION_LEDGER_LIMIT)%nat ->
  let m := out_mutation (processGroundBatch c s p fixes nowMs).1 in
  let ledger := cueLedger (mut_session m) in
  exists said immediate,
    mut_effects m = said ++ [PublishSnapshot immediate]
    /\ (length said <= 3)%nat
    /\ (ground_voiceEnabled (gp_settings (g_startPackage p)) = false -> said = [])
    /\ Forall (fun e => exists id text, e = Speak id text (locale s)
         /\ ((id ∉ spoken (cueLedger s) /\ id ∈ spoken ledger
              /\ (exists t, t ∈ map fix_timestampMs fixes /\ nowMs - t <= MAX_CUE_AGE_MS))
             \/ (id ∉ events (cueLedger s) /\ id ∈ events ledger))) said.
Proof.
  intros Hlen. rewrite processGroundBatch_run. cbv zeta. cbn [fst]. rewrite batch_effects.
  set (x := batch_context s p _). set (b := batch_loop x fixes (batch_start s p)).
  exists (newest_cue x b nowMs ++ rep_effects (off_route_report x b) ++ rep_effects (arrival_report x b)).
  eexists. split; [rewrite <- !app_assoc; reflexivity|].
  destruct (off_route_report_short x b) as [Ho1 Ho2], (arrival_report_short x b) as [Ha1 Ha2].
  pose proof (newest_cue_short x b nowMs) as Hn.
  split_and!.
  - rewrite !length_app. lia.
  - intros Hv. destruct (_ ++ _ ++ _) as [|e l] eqn:E; [done|].
    destruct (batch_sentence x fixes s p nowMs e) as (id & text & _ & Hv' & _); [done| |].
    + fold b. rewrite E. by left.
    + by change (ctx_startPackage x) with (g_startPackage p) in Hv'; rewrite Hv in Hv'.
  - apply Forall_forall. intros e He.
    destruct (batch_sentence x fixes s p nowMs e eq_refl He) as (id & text & -> & _ & Hcase).
    fold b in Hcase. exists id, text. split; [done|].
    destruct Hcase as [(Hnew & Hid & Hage)|[Hnew Hid]]; [left|right]; split_and!; try done.
    + apply append_records; [|done|done]. etrans; [apply batch_cue_count|done].
    + apply append_records; [|done|done]. rewrite length_app.
      unfold MOBILE_SESSION_LEDGER_LIMIT in *. lia.
Qed.

(** ** What a batch leaves can be read back *)

Lemma groundCueId_bounded sid fp key : boundedId (groundCueId sid fp key) = true.
Proof.
  unfold boundedId, groundCueId, str_length, MAX_ID_LENGTH, MAX_CUE_ID_LENGTH.
  rewrite slice0_length, !string_length_app. simpl String.length.
  apply andb_true_iff. rewrite !Z.leb_le. lia.
Qed.

Lemma status_report_bounded x c type cue :
  boundedId c = true ->
  Forall (fun i => boundedId i = true) (rep_eventIds (status_report x c type cue)).
Proof. intros Hc. unfold status_report. case_match; simpl; [done|]. by repeat constructor. Qed.

Lemma reports_bounded x b :
  Forall (fun i => boundedId i = true)
    (rep_eventIds (off_route_report x b) ++ rep_eventIds (arrival_report x b)).
Proof.
  apply Forall_app. split.
  - unfold off_route_report. case_match; [|done]. apply status_report_bounded, groundCueId_bounded.
  - unfold arrival_report. case_match; [|done]. apply status_report_bounded, groundCueId_bounded.
Qed.

Lemma speedLimitAt_finite p i :
  groundStartPackageSchema p = true -> opt_ok num_is_finite (speedLimitAt p i) = true.
Proof.
  unfold groundStartPackageSchema, routeSchema. rewrite !andb_true_iff.
  intros (((((((Hr & _) & _) & _) & _) & _) & _) & Hl).
  assert (forall check l v, opt_ok (forallb (opt_ok check)) l = true -> limit_at l i = Some v ->
            opt_ok check v = true) as Hat.
  { intros check [l|] v Hok Hv; [|done]. simpl in Hok, Hv. case_match; [|done].
    apply forallb_Forall in Hok. exact (Forall_lookup_1 _ _ _ _ Hok Hv). }
  destruct Hr as (((_ & Hlim) & _) & _). unfold speedLimitAt.
  assert (forall v, limit_at (route_segmentSpeedLimits (gp_route p)) i = Some v ->
            opt_ok num_is_finite v = true) as Hroute.
  { intros v Hv. specialize (Hat _ _ _ Hlim Hv). destruct v as [v|]; [|done]. simpl in *.
    unfold nonnegative, finite_min in Hat. by apply andb_true_iff in Hat as [? _]. }
  destruct (limit_at (gp_capturedLiveSpeedLimits p) i) as [[v|]|] eqn:E.
  - by apply (Hat _ _ _ Hl E).
  - case_match; [by apply Hroute|done].
  - case_match; [by apply Hroute|done].
Qed.

(** What the loop keeps, with room for the fixes left. *)
Record batch_ok `{!GuidanceLaws} (n : nat) (b : BatchState) : Prop := {
  bok_tick : tick_ok (b_tickState b);
  bok_room : Z.of_nat (length (spokenCues (b_tickState b)) + n) <= MAX_SPOKEN_CUES;
  bok_limit : opt_ok num_is_finite (b_currentSpeedLimit b) = true;
  bok_fix : opt_ok fixSchema (b_lastAcceptedFix b) = true;
  bok_cues : Forall (fun i => boundedId i = true) (b_spokenCueIds b);
}.

(** A context of a batch as [batch_context] builds it. *)
Definition context_ok (x : BatchContext) (fixes : list FixInput) `{!GuidanceLaws} : Prop :=
  ctx_matcher x = prepareRouteMatcher (route_geometry (ctx_route x)) /\
  (exists m mode, ctx_options x = with_announceMultiplier m (navOptionsForMode mode)) /\
  forall f, f ∈ fixes -> can_guide (ctx_route x) f /\ fixSchema f = true.

Lemma batch_ok_tick `{!GuidanceLaws} x fixes f n b :
  context_ok x fixes -> f ∈ fixes -> batch_ok (S n) b ->
  tick_ok (nextState (batch_tick x f b))
  /\ Z.of_nat (length (spokenCues (nextState (batch_tick x f b))) + n) <= MAX_SPOKEN_CUES.
Proof.
  intros (Hm & (m & mode & Ho) & Hf) Hin []. unfold batch_tick. rewrite Hm, Ho. split.
  - apply tick_ok_kept; [by apply Hf|done].
  - rewrite spoken_cues_grow, length_app. destruct (voiceCue _); simpl; lia.
Qed.

Lemma batch_loop_ok `{!GuidanceLaws} x fixes b :
  groundStartPackageSchema (ctx_startPackage x) = true -> context_ok x fixes ->
  batch_ok (length fixes) b -> batch_ok 0 (batch_loop x fixes b).
Proof.
  intros Hp Hx. pose proof Hx as (_ & _ & Hf). apply batch_loop_ind.
  - intros n b' []. constructor; try done. lia.
  - intros n f b' Hin Hok _. destruct (batch_ok_tick x fixes f n b' Hx Hin Hok) as [? ?].
    destruct Hok. by constructor.
  - intros n f b' Hin Hok _. destruct (batch_ok_tick x fixes f n b' Hx Hin Hok) as [? ?].
    destruct Hok. constructor; cbn [accept_fix b_tickState b_currentSpeedLimit b_lastAcceptedFix b_spokenCueIds]; try done.
    + case_match; [by apply speedLimitAt_finite|done].
    + case_match; [by apply Hf|done].
    + apply Forall_app. split; [done|]. destruct (fresh_cue _ _) as [c|] eqn:Ec; [|done].
      destruct (fresh_cue_spec _ _ _ Ec) as (_ & _ & cue & _ & ->).
      repeat constructor. apply groundCueId_bounded.
Qed.

Lemma append_bounded_ok l ids :
  ledger_wf l -> Forall (fun i => boundedId i = true) ids -> ledger_wf (appendBounded l ids).
Proof. apply append_ledger_wf. Qed.

Lemma batch_start_ok `{!GuidanceLaws} s p n :
  payload s = GroundSession p -> mobileNavigationSessionSchema s = true ->
  tick_ok (g_tickState p) ->
  Z.of_nat (length (spokenCues (g_tickState p)) + n) <= MAX_SPOKEN_CUES ->
  batch_ok n (batch_start s p).
Proof.
  unfold mobileNavigationSessionSchema, baseSessionShape. rewrite !andb_true_iff.
  intros Hp [[Hb Hs] _] Htick Hn. rewrite Hp in Hs. simpl in Hs. unfold groundPayloadSchema in Hs.
  rewrite !andb_true_iff in Hs. by constructor; simpl; try tauto.
Qed.

Lemma batch_outcome_valid `{!GuidanceLaws} x p fixes nowMs b :
  payload (ctx_session x) = GroundSession p ->
  mobileNavigationSessionSchema (ctx_session x) = true ->
  revision (ctx_session x) < MAX_SAFE_INTEGER ->
  startedAtMs (ctx_session x) <= nowMs <= MAX_SAFE_INTEGER ->
  batch_ok 0 b ->
  mobileNavigationSessionSchema (mut_session (out_mutation (batch_outcome x p fixes nowMs b))) = true.
Proof.
  intros Hp Hs Hr Ht [].
  assert (navTickStateSchema (b_tickState b) = true) as Htick by (apply tick_ok_readable; [done|lia]).
  assert (ledgerSchema (cueLedger (ctx_session x)) = true /\ groundPayloadSchema p = true) as [Hled Hg].
  { pose proof Hs as Hs'. unfold mobileNavigationSessionSchema, baseSessionShape in Hs'.
    rewrite Hp in Hs'. simpl in Hs'. rewrite !andb_true_iff in Hs'. tauto. }
  apply ledgerSchema_spec in Hled as [Hsp Hev].
  apply (schema_next (ctx_session x) _ nowMs); try done.
  - apply ledgerSchema_spec. split; apply append_bounded_ok; [done..|apply reports_bounded].
  - cbn [batch_outcome out_mutation mut_session set_payload payload payloadSchema].
    unfold groundPayloadSchema in *. cbn [g_startPackage g_tickState
      g_currentSpeedLimit g_coastingAnchor g_reroute].
    rewrite !andb_true_iff in Hg. rewrite !andb_true_iff. tauto.
Qed.

Lemma reroute_request_valid attempts m :
  mobileNavigationSessionSchema (mut_session m) = true ->
  boundedId (reroute_request_id (sessionId (mut_session m)) (revision (mut_session m))) = true ->
  int_within 0 64 attempts = true ->
  mobileNavigationSessionSchema (mut_session (with_reroute_request attempts m)) = true.
Proof.
  intros Hm Hid Ha. unfold with_reroute_request. destruct (payload (mut_session m)) as [p|p] eqn:Ep; [|done].
  unfold mobileNavigationSessionSchema, int_within in *. rewrite Ep in Hm.
  apply andb_true_iff in Hm as [[Hb Hp]%andb_true_iff Hl], Ha as [Ha1 Ha2].
  change (payloadSchema (GroundSession p)) with (groundPayloadSchema p) in Hp.
  apply andb_true_iff. split; [|exact Hl]. apply andb_true_iff. split; [exact Hb|].
  cbn [mut_session set_payload payload payloadSchema].
  unfold groundPayloadSchema, groundRerouteStateSchema in *.
  cbn [with_reroute pending_reroute g_startPackage g_tickState g_currentSpeedLimit g_coastingAnchor
       g_reroute rr_requestId rr_attempts rr_nextAttemptAtMs rr_lastFailureCode opt_ok].
  rewrite Hid, Ha1, Ha2. rewrite !andb_true_iff in Hp. rewrite !andb_true_iff.
  destruct_and! Hp. by split_and!.
Qed.

(** The context of a batch over a coherent cache. *)
Lemma batch_context_ok `{!GuidanceLaws} c s p fixes :
  cache_coherent c -> session_canonical p ->
  (forall f, f ∈ fixes -> can_guide (gp_route (g_startPackage p)) f /\ fixSchema f = true) ->
  context_ok (batch_context s p
    (matcherFor c (sessionId s) (route_geometry (gp_route (g_startPackage p)))).1) fixes.
Proof.
  intros Hc Hcan Hf. destruct (matcherFor_prepares c (sessionId s) _ Hc Hcan) as [-> _].
  unfold context_ok, batch_context. cbn [ctx_matcher ctx_route ctx_options].
  rewrite matcher_keeps_geometry. cbn [with_geometry route_geometry].
  split; [done|]. split; [by eexists _, _|]. intros f Hin.
  assert (with_geometry (route_geometry (gp_route (g_startPackage p))) (gp_route (g_startPackage p))
          = gp_route (g_startPackage p)) as -> by by destruct (gp_route _). by apply Hf.
Qed.

(** C26: a batch leaves a session that storage can read back, and that the next batch
    can go on from.  From a readable session whose tick state satisfies the engine's
    invariant, with fixes the engine can follow on the route, room for the cues the
    batch may add, a clock between the start and the last safe integer, and a reroute
    id that fits, the mutation of the processor passes the whole session schema, so
    the next load of it is never a quarantine, and its tick state satisfies the
    invariant again. *)
Theorem ground_batch_stays_readable `{!GuidanceLaws} c s p fixes nowMs :
  payload s = GroundSession p ->
  mobileNavigationSessionSchema s = true ->
  cache_coherent c -> session_canonical p -> tick_ok (g_tickState p) ->
  (forall f, f ∈ fixes -> can_guide (gp_route (g_startPackage p)) f /\ fixSchema f = true) ->
  revision s < MAX_SAFE_INTEGER ->
  startedAtMs s <= nowMs <= MAX_SAFE_INTEGER ->
  boundedId (reroute_request_id (sessionId s) (revision s + 1)) = true ->
  Z.of_nat (length (spokenCues (g_tickState p)) + length fixes) <= MAX_SPOKEN_CUES ->
  let s' := mut_session (ground_processFixes c s p fixes nowMs).1 in
  mobileNavigationSessionSchema s' = true /\ published s' = Authority s' /\
  exists p', payload s' = GroundSession p' /\ tick_ok (g_tickState p').
Proof.
  intros Hp Hs Hc Hcan Htick Hf Hr Ht Hid Hroom.
  pose proof (batch_context_ok c s p fixes Hc Hcan Hf) as Hx. cbv zeta.
  rewrite ground_processFixes_run, processGroundBatch_run. cbn [fst].
  set (x := batch_context s p _) in *.
  assert (groundPayloadSchema p = true) as Hg.
  { pose proof Hs as Hs'. unfold mobileNavigationSessionSchema in Hs'. rewrite Hp in Hs'.
    simpl in Hs'. rewrite !andb_true_iff in Hs'. tauto. }
  unfold groundPayloadSchema, groundRerouteStateSchema in Hg. rewrite !andb_true_iff in Hg.
  assert (batch_ok 0 (batch_loop x fixes (batch_start s p))) as Hloop
    by (apply batch_loop_ok; [tauto|done|by apply batch_start_ok]).
  set (m := out_mutation _).
  assert (mobileNavigationSessionSchema (mut_session m) = true) as Hout
    by by apply batch_outcome_valid.
  match goal with |- context [mut_session ?mm] =>
    enough (mobileNavigationSessionSchema (mut_session mm) = true /\
            exists p', payload (mut_session mm) = GroundSession p' /\ tick_ok (g_tickState p')) as [E Hp']
      by (unfold published; rewrite E; done) end.
  case_match; [split; [done|eexists; split; [reflexivity|exact (bok_tick _ _ Hloop)]]|]. split.
  - apply reroute_request_valid; [done|exact Hid|]. unfold int_within. rewrite andb_true_iff. tauto.
  - unfold with_reroute_request. cbn. eexists. split; [reflexivity|exact (bok_tick _ _ Hloop)].
Qed.

(** the 2001st cue ends a journey.  The engine keeps every cue it has spoken
    along a route, the schema accepts at most 2000 of them, and a route may have
    ten thousand steps with three cues each: a session that has heard 2000 cues
    is committed with one more at the next cue, and what was committed reads back
    as an unreadable row, which the next load quarantines. *)
Theorem one_cue_too_many_loses_the_session `{!GuidanceLaws} s p f nowMs cue :
  payload s = GroundSession p ->
  Z.of_nat (length (spokenCues (g_tickState p))) = MAX_SPOKEN_CUES ->
  let x := batch_context s p (prepareRouteMatcher (route_geometry (gp_route (g_startPackage p)))) in
  voiceCue (batch_tick x f (batch_start s p)) = Some cue ->
  published (mut_session (ground_processFixes empty_cache s p [f] nowMs).1)
    = Unreadable (sessionId s).
Proof.
  intros Hp Hn x Hcue.
  set (s' := mut_session _).
  assert (exists g, payload s' = GroundSession g /\ sessionId s' = sessionId s
            /\ navTickStateSchema (g_tickState g) = false) as (g & Hpay & Hid & Hbad).
  { assert (navTickStateSchema (nextState (batch_tick x f (batch_start s p))) = false) as Hbad.
    { unfold navTickStateSchema, batch_tick in *. rewrite spoken_cues_grow, Hcue, length_app. simpl.
      rewrite !andb_false_iff. left. right. apply Z.leb_gt. lia. }
    unfold s'. rewrite ground_processFixes_run, processGroundBatch_run. cbn [fst matcherFor empty_cache cache_matcher].
    fold x. set (b := batch_loop x [f] (batch_start s p)).
    assert (b_tickState b = nextState (batch_tick x f (batch_start s p))) as Hb.
    { unfold b. cbn [batch_loop]. repeat case_match; done. }
    rewrite <- Hb in Hbad. case_match; [by eexists|]. unfold with_reroute_request. simpl. by eexists. }
  assert (groundPayloadSchema g = false) as Hg
    by (unfold groundPayloadSchema; by rewrite Hbad, andb_false_r).
  unfold published, mobileNavigationSessionSchema. rewrite Hpay. cbn [payloadSchema].
  by rewrite Hg, andb_false_r, Hid.
Qed.
End ground_facts.

(** ** At concrete values *)

Definition step_route : Route :=
  {| route_distance := deg 1000; route_duration := deg 120;
     route_geometry := [(deg 8, deg 50); (deg 9, deg 50)];
     route_steps := [JObj [("instruction", JStr "Head east")]]; route_mode := "driving";
     route_segmentSpeedLimits := None; route_summary := None; route_extra := [] |}.

Definition step_package : GroundNavigationStartPackage :=
  {| gp_route := step_route; gp_alternatives := []; gp_mode := Driving;
     gp_destinationWaypoints := [(deg 9, deg 50)];
     gp_routeProvider := None; gp_routeSelectionIntent := Automatic;
     gp_routeOptions := []; gp_capturedLiveSpeedLimits := None;
     gp_locale := En; gp_units := Metric;
     gp_settings := {| ground_voiceEnabled := true; ground_keepScreenOn := true;
                       ground_voiceTiming := Normal |} |}.

(** A session that had strayed, with a weak signal and a fix, is on the new line. *)
Lemma replacement_resets_the_line_witness :
  let strayed := {| g_startPackage := g_startPackage sample_ground_payload; g_tickState := g_tickState sample_ground_payload;
                    g_progress := g_progress sample_ground_payload; g_weakGps := true; g_offRoute := true; g_coasting := true;
                    g_currentSpeedLimit := Some (num_of_Z 50); g_coastingAnchor := None;
                    g_reroute := g_reroute sample_ground_payload |} in
  let s := set_lastAcceptedFix (Some (sample_fix 1500)) (set_payload (GroundSession strayed) (sample_ground 4 Active)) in
  match proc_replace GroundNavigationProcessor s (Candidate (GroundPackage step_package)) 2000 with
  | Ok (inl m) => revision (mut_session m) = 5 /\ lastAcceptedFix (mut_session m) = None /\
      exists new, payload (mut_session m) = GroundSession new /\ g_weakGps new = false /\ g_offRoute new = false
  | _ => False
  end.
Proof.
  intros strayed s.
  pose proof (replacement_resets_the_line s strayed (Candidate (GroundPackage step_package)) 2000 eq_refl) as Hr.
  assert (match proc_replace GroundNavigationProcessor s (Candidate (GroundPackage step_package)) 2000 with
          | Ok (inl _) => true | _ => false end = true) as Hok by (vm_compute; reflexivity).
  destruct (proc_replace _ _ _ _) as [[m|code]|e]; [|discriminate Hok|discriminate Hok].
  destruct Hr as (q & new & _ & _ & _ & _ & Hp & Hreset & Hfix & Hrev & _).
  split; [exact Hrev|]. split; [exact Hfix|]. exists new. split; [exact Hp|].
  destruct (reset_flags _ _ _ Hreset) as (_ & Hweak & Hoff & _). exact (conj Hweak Hoff).
Defined.

Lemma route_cache_is_invisible_witness :
  cache_coherent {| cache_sessionId := Some "s1"; cache_matcher := Some (route_geometry sample_route) |}
  /\ (ground_processFixes
        {| cache_sessionId := Some "s1"; cache_matcher := Some (route_geometry sample_route) |}
        (sample_ground 4 Active) sample_ground_payload [sample_fix 1500] 2000).1
     = (ground_processFixes empty_cache (sample_ground 4 Active) sample_ground_payload
          [sample_fix 1500] 2000).1.
Proof.
  assert (session_canonical sample_ground_payload) as Hp by (repeat constructor).
  split.
  - split; [reflexivity|exact Hp].
  - apply route_cache_is_invisible; [|exact Hp]. split; [reflexivity|exact Hp].
Defined.

Lemma batch_speaks_the_present_once_witness :
  exists said immediate,
    mut_effects (out_mutation (processGroundBatch empty_cache (sample_ground 4 Active)
      sample_ground_payload [sample_fix 1500; sample_fix 1900] 2000).1)
    = said ++ [PublishSnapshot immediate] /\ (length said <= 3)%nat.
Proof.
  destruct (batch_speaks_the_present_once empty_cache (sample_ground 4 Active)
    sample_ground_payload [sample_fix 1500; sample_fix 1900] 2000) as (said & i & E & Hn & _).
  - vm_compute. lia.
  - exists said, i. split; [exact E|exact Hn].
Defined.

Lemma ground_batch_stays_readable_witness :
  mobileNavigationSessionSchema (mut_session (ground_processFixes empty_cache
    (sample_ground 4 Active) sample_ground_payload [sample_fix 1500; sample_fix 1900] 2000).1) = true.
Proof.
  assert (forall f, f ∈ [sample_fix 1500; sample_fix 1900] -> True /\ fixSchema f = true) as Hf.
  { intros f Hf. split; [exact I|]. apply elem_of_cons in Hf as [->|Hf]; [reflexivity|].
    apply list_elem_of_singleton in Hf as ->. reflexivity. }
  refine (proj1 (ground_batch_stays_readable empty_cache (sample_ground 4 Active) sample_ground_payload
            [sample_fix 1500; sample_fix 1900] 2000 eq_refl eq_refl I _ _ Hf eq_refl _ eq_refl _)).
  - repeat constructor.
  - repeat split. constructor.
  - split; vm_compute; discriminate.
  - vm_compute. discriminate.
Defined.

(** A session whose journey has had two thousand cues. *)
Definition worn_payload : GroundPayload :=
  {| g_startPackage := sample_ground_package;
     g_tickState := {| offRouteScore := deg 0; lastRerouteAtMs := None; rerouteBackoffMs := deg 0;
                       spokenCues := repeat "0:far" 2000; speedEstimate := None; tick_extra := [] |};
     g_progress := None; g_weakGps := false; g_offRoute := false; g_coasting := false;
     g_currentSpeedLimit := None; g_coastingAnchor := None; g_reroute := sample_reroute |}.

Lemma one_cue_too_many_loses_the_session_witness :
  let s := set_payload (GroundSession worn_payload) (sample_ground 4 Active) in
  mobileNavigationSessionSchema s = true
  /\ published (mut_session (ground_processFixes empty_cache s worn_payload [sample_fix 1500] 2000).1)
     = Unreadable "s1".
Proof.
  split; [vm_compute; reflexivity|].
  exact (one_cue_too_many_loses_the_session
    (set_payload (GroundSession worn_payload) (sample_ground 4 Active)) worn_payload
    (sample_fix 1500) 2000 sample_cue eq_refl eq_refl eq_refl).
Defined.
