(* ===== verification/TransitWalk.v ===== *)
(** * Guidance on foot

    packages/core/src/navigation/transitWalk.ts: what a step of a walk reads as, and
    when it is said. *)

From S2P Require Import Prelude Text Doubles Protocol Cues Maneuver Session Itinerary Guidance Engine.

Record TransitWalkManeuver := {
  wm_type : string;
  wm_modifier : option string;
}.

Record WalkStepInfo := {
  wsi_maneuver : option TransitWalkManeuver;
  wsi_instructionText : option string;
  wsi_key : string;
  wsi_stairs : bool;
  wsi_elevator : bool;
  wsi_streetName : option string;
  wsi_toLevel : option json;
}.

Definition turn (modifier : string) : TransitWalkManeuver :=
  {| wm_type := "turn"; wm_modifier := Some modifier |}.

Definition straight_on (type : string) : TransitWalkManeuver :=
  {| wm_type := type; wm_modifier := Some "straight" |}.

Definition DIRECTION : list (string * (TransitWalkManeuver * string)) :=
  [("DEPART", (straight_on "depart", "depart"));
   ("CONTINUE", (straight_on "continue", "continue"));
   ("LEFT", (turn "left", "left"));
   ("RIGHT", (turn "right", "right"));
   ("SLIGHTLY_LEFT", (turn "slight left", "slightLeft"));
   ("SLIGHTLY_RIGHT", (turn "slight right", "slightRight"));
   ("HARD_LEFT", (turn "sharp left", "sharpLeft"));
   ("HARD_RIGHT", (turn "sharp right", "sharpRight"));
   ("UTURN_LEFT", (turn "uturn", "uturn"));
   ("UTURN_RIGHT", (turn "uturn", "uturn"));
   ("CIRCLE_CLOCKWISE", ({| wm_type := "roundabout"; wm_modifier := Some "right" |}, "continue"));
   ("CIRCLE_COUNTERCLOCKWISE", ({| wm_type := "roundabout"; wm_modifier := Some "left" |}, "continue"));
   ("STAIRS", ({| wm_type := "stairs"; wm_modifier := None |}, "stairs"));
   ("ELEVATOR", ({| wm_type := "elevator"; wm_modifier := None |}, "elevator"))].

Definition FALLBACK : TransitWalkManeuver * string := (straight_on "continue", "continue").

(** The properties every object literal inherits: under such a name the table answers
    a function, which has neither a manoeuvre nor a key. *)
Definition INHERITED : list string :=
  ["constructor"; "hasOwnProperty"; "isPrototypeOf"; "propertyIsEnumerable"; "toLocaleString";
   "toString"; "valueOf"; "__defineGetter__"; "__defineSetter__"; "__lookupGetter__";
   "__lookupSetter__"; "__proto__"].

(** [DIRECTION[step.instruction] ?? FALLBACK] *)
Definition direction_of (instruction : option string) : option TransitWalkManeuver * string :=
  let name := default "undefined" instruction in
  match List.find (fun d => String.eqb d.1 name) DIRECTION with
  | Some d => (Some d.2.1, d.2.2)
  | None => if includes name INHERITED then (None, "undefined")
            else (Some FALLBACK.1, FALLBACK.2)
  end.

(** A text, unless it is empty. *)
Definition nonempty_text (s : option string) : option string :=
  match s with Some EmptyString => None | _ => s end.

Definition walkStepInfo (step : json) : WalkStepInfo :=
  let instruction := json_string (json_field "instruction" step) in
  let d := direction_of instruction in
  let named name := match instruction with Some i => String.eqb i name | None => false end in
  {| wsi_maneuver := d.1;
     wsi_instructionText := json_string (json_field "instructionText" step);
     wsi_key := d.2;
     wsi_stairs := truthy (json_field "stairs" step) || named "STAIRS";
     wsi_elevator := truthy (json_field "elevator" step) || named "ELEVATOR";
     wsi_streetName := nonempty_text (json_string (json_field "streetName" step));
     wsi_toLevel := json_field "toLevel" step |}.

(** [composeWalkInstruction], asking the navigation translator of a locale. *)
Definition composeWalkInstruction `{Catalogue} `{Intl} (info : WalkStepInfo) (l : Locale) : outcome string :=
  let t path := translate l ("navigation" :: path) in
  match nonempty_text (wsi_instructionText info) with
  | Some text => Ok text
  | None =>
      action ← t ["walkDir"; wsi_key info] [];
      let level := match wsi_toLevel info with
                   | Some JNull | None => None
                   | level => if wsi_stairs info || wsi_elevator info then level else None
                   end in
      match level, wsi_streetName info with
      | Some level, _ => t ["walkToLevel"] [("action", JStr action); ("level", level)]
      | None, Some street => t ["walkOnStreet"] [("action", JStr action); ("street", JStr street)]
      | None, None => Ok action
      end
  end.

(** ** Where along the steps *)

(** [step.distanceMeters || 0] *)
Definition step_length (step : json) : number :=
  match json_field "distanceMeters" step with
  | Some (JNum x) => if truthy (Some (JNum x)) then x else num_of_Z 0
  | _ => num_of_Z 0
  end.

Local Open Scope num_scope.

(** The step the walker is on, from the [i]-th step and the length before it. *)
Fixpoint step_at (steps : list json) (i : Z) (cum target : number) : Z * number :=
  match steps with
  | [] => (i, 0)
  | step :: rest =>
      let len := step_length step in
      if (cum + len >? target) || match rest with [] => true | _ => false end
      then (i, num_max 0 (cum + len - target))
      else step_at rest (i + 1)%Z (cum + len) target
  end.

(** [walkLegStepProgress]: the step and the metres left on it. *)
Definition walkLegStepProgress (steps : list json) (fractionAlongLeg : number) : Z * number :=
  let total := foldl (fun s step => s + step_length step) 0 steps in
  match steps with
  | [] => (0%Z, 0)
  | _ => if total <=? 0 then (0%Z, 0)
         else step_at steps 0 0 (num_max 0 (num_min 1 fractionAlongLeg) * total)
  end.

Local Close Scope num_scope.

(** ** When it is said *)

Definition maneuver_json (m : option TransitWalkManeuver) : list (string * json) :=
  match m with
  | None => []
  | Some m => [("maneuver", JObj (("type", JStr (wm_type m)) ::
                 match wm_modifier m with Some x => [("modifier", JStr x)] | None => [] end))]
  end.

(** The step as the voice schedule sees it. *)
Definition voiced_step (step : json) (instruction : string) : json :=
  let field_or key other := match nullish (json_field key step) (Some other) with
                      | Some v => v | None => other end in
  JObj ([("instruction", JStr instruction)]
        ++ match json_field "distanceMeters" step with Some d => [("distance", d)] | None => [] end
        ++ [("duration", field_or "durationSeconds" (JNum (num_of_Z 0)));
            ("coordinates", field_or "coordinates" (JArr []))]
        ++ maneuver_json (wsi_maneuver (walkStepInfo step))).

Definition transitWalkVoiceCue (step : json) (index : Z) (distance speed : number)
    (instruction : string) (spoken : list string) : option VoiceCue :=
  nextVoiceCue (voiced_step step instruction) index distance speed
    (opt_voice (navOptionsForMode Walking)) (num_of_Z 1) spoken.

(** ** Facts *)

Lemma step_at_range steps i cum target : steps <> [] ->
  (i <= (step_at steps i cum target).1 < i + Z.of_nat (length steps))%Z.
Proof.
  revert i cum. induction steps as [|s rest IH]; intros i cum; [done|]. intros _. cbn [step_at length].
  destruct (_ || _) eqn:E; [cbn [fst]; lia|]. destruct rest as [|s' rest]; [by rewrite orb_true_r in E|].
  specialize (IH (i + 1)%Z (cum + step_length s)%num ltac:(done)). cbn [length] in *. lia.
Qed.

(** The step answered is one of the leg, whatever the distances are. *)
Lemma walk_progress_names_a_step steps fraction : steps <> [] ->
  (0 <= (walkLegStepProgress steps fraction).1 < Z.of_nat (length steps))%Z.
Proof.
  intros Hs. unfold walkLegStepProgress. destruct steps as [|s rest] eqn:E; [done|]. rewrite <- E in *.
  destruct (num_le _ _); [subst; cbn [fst length]; lia|].
  pose proof (step_at_range steps 0 (num_of_Z 0)
    (num_mul (num_max (num_of_Z 0) (num_min (num_of_Z 1) fraction))
       (foldl (fun s step => num_add s (step_length step)) (num_of_Z 0) steps)) Hs). exact H.
Qed.

(** Every direction of the table, and any other name that is not inherited, is worded
    in every language. *)
Definition walk_keys : list string :=
  ["depart"; "continue"; "left"; "right"; "slightLeft"; "slightRight"; "sharpLeft"; "sharpRight";
   "uturn"; "stairs"; "elevator"].

Lemma direction_key instruction :
  includes (default "undefined" instruction) INHERITED = false ->
  (direction_of instruction).2 ∈ walk_keys.
Proof.
  intros Hi. unfold direction_of. destruct (List.find _ _) as [d|] eqn:E.
  - apply List.find_some in E as [Hd _]. apply list_elem_of_In.
    cbn in Hd. repeat destruct Hd as [<-|Hd]; cbn; tauto.
  - rewrite Hi. apply list_elem_of_In. cbn. tauto.
Qed.
