(* ===== verification/TransitCue.v ===== *)
(** * What a journey says

    apps/mobile/src/navigation/transit/transitCue.ts: an event of the transit engine
    becomes one bounded sentence whose every name comes from the captured itinerary,
    cleaned of anything a feed could hide in it. *)

From S2P Require Import Prelude Text Doubles Protocol Cues Session Snapshot Itinerary StopAreas Captures StopCursor Repository Guidance TransitEngine Ground.

Definition MAX_NAME_LENGTH : Z := 120.
Definition MAX_ALERT_TEXT_LENGTH : Z := 240.

Definition transitCueId (sid itineraryFingerprint eventId : string) : string :=
  slice0 MAX_CUE_ID_LENGTH (sid ++ ":transit:" ++ itineraryFingerprint ++ ":" ++ eventId)%string.

(** ** Names *)

(** [isControlCodePoint], for a code point below 256. *)
Definition isControlCodePoint (c : Ascii.ascii) : bool :=
  let n := N.to_nat (Ascii.N_of_ascii c) in ((n <=? 31) || (n =? 127))%nat.

Definition blank : Ascii.ascii := Ascii.ascii_of_nat 32.

(** A control character becomes a space. *)
Fixpoint without_controls (s : string) : string :=
  match s with
  | EmptyString => EmptyString
  | String c r => String (if isControlCodePoint c then blank else c) (without_controls r)
  end.

(** Each run of white space becomes one space; [after] says whether one is running. *)
Fixpoint collapse (after : bool) (s : string) : string :=
  match s with
  | EmptyString => EmptyString
  | String c r =>
      if is_white c then if after then collapse true r else String blank (collapse true r)
      else String c (collapse false r)
  end.

Definition boundedName (limit : Z) (value : option json) : option string :=
  match json_string value with
  | None => None
  | Some value =>
      let cleaned := trim (collapse false (without_controls value)) in
      if (str_length cleaned =? 0) || (limit <? str_length cleaned) then None else Some cleaned
  end.

Definition name_of (value : option json) : option string := boundedName MAX_NAME_LENGTH value.

(** [boundedName(leg?.route?.shortName ?? leg?.route?.longName)] *)
Definition lineName (leg : option json) : option string :=
  let route := opt_field "route" leg in
  name_of (nullish (opt_field "shortName" route) (opt_field "longName" route)).

(** [legAt(session, index)] *)
Definition session_leg (p : TransitPayload) (index : Z) : option json :=
  leg_at (legs_of (tp_itinerary (p_startPackage p))) index.

Record TransitCueEffect := {
  tce_cueId : string;
  tce_critical : bool;
  tce_effect : SessionEffect;
}.

Section cue.
Context `{Catalogue} `{Intl}.
Variables (s : MobileNavigationSession) (p : TransitPayload).

(** A sentence worth speaking, under its id. *)
Definition speak (cueId : string) (intent : NavigationCue) (critical : bool) : option TransitCueEffect :=
  match formatNavigationCue intent (locale s) (units s) with
  | Throw _ => None
  | Ok text =>
      if (str_length text =? 0) || (MAX_SPEECH_TEXT_LENGTH <? str_length text) then None
      else Some {| tce_cueId := cueId; tce_critical := critical;
                   tce_effect := Speak cueId text (locale s) |}
  end.

(** What an event means to say, when the feed named what it is about. *)
Definition event_intent (body : TransitEventBody) : option NavigationCue :=
  let stop_of leg := name_of (opt_field "name" (opt_field "to" (session_leg p leg))) in
  match body with
  | TBoard legIndex =>
      let leg := session_leg p legIndex in
      line ← lineName leg;
      destination ← name_of (nullish (opt_field "headsign" leg) (opt_field "name" (opt_field "to" leg)));
      let platform := boundedName 64 (opt_field "platformCode" (opt_field "from" leg)) in
      Some (CueBoard line destination platform)
  | TPlatformChange _ platform =>
      platform ← boundedName 64 (Some (JStr platform));
      Some (CuePlatformChange platform)
  | TApproachingAlight legIndex _ | TAlight legIndex =>
      stop ← stop_of legIndex; Some (CueAlight stop)
  | TTransfer fromLegIndex toLegIndex =>
      stop ← stop_of fromLegIndex;
      line ← lineName (session_leg p toLegIndex);
      Some (CueTransfer stop line)
  | TMissedConnection _ => Some CueScheduleFallback
  | TArrival _ => Some CueArrival
  end.

Definition transitCueEffect (event : TransitNavigationEvent) : option TransitCueEffect :=
  let cueId := transitCueId (sessionId s) (tp_itineraryFingerprint (p_startPackage p)) (ev_id event) in
  intent ← event_intent (ev_body event);
  speak cueId intent true.

(** [transitWalkCueEffect]: [timing] is the tier and the distance of a voice cue. *)
Definition transitWalkCueEffect (cueKey action : string) (street : option string)
    (timing : option (CueTier * number)) : option TransitCueEffect :=
  action ← name_of (Some (JStr action));
  let street := street ≫= fun s => name_of (Some (JStr s)) in
  speak (transitCueId (sessionId s) (tp_itineraryFingerprint (p_startPackage p)) cueKey)
    match timing with
    | Some (tier, distance) =>
        GroundManeuver tier action (if decide (tier = TierNow) then None else Some distance)
    | None => CueWalk action street None
    end false.
End cue.

(** [speakableAlertText] *)
Definition speakableAlertText (alert : json) : option string :=
  match json_string (json_field "id" alert) with
  | None | Some EmptyString => None
  | Some _ =>
      let severity := json_field "severity" alert in
      if is_text "critical" severity || is_text "severe" severity
      then boundedName MAX_ALERT_TEXT_LENGTH (json_field "header" alert) else None
  end.

(** ** Facts: cleaned names *)

Fixpoint all_units (P : Ascii.ascii -> Prop) (s : string) : Prop :=
  match s with EmptyString => True | String c r => P c /\ all_units P r end.


Lemma all_units_trim_start P s : all_units P s -> all_units P (trim_start s).
Proof. induction s as [|c s IH]; cbn; [done|]. intros [Hc Hs]. destruct (is_white c); [auto|done]. Qed.

Lemma all_units_trim_end P s : all_units P s -> all_units P (trim_end s).
Proof.
  induction s as [|c s IH]; cbn; [done|]. intros [Hc Hs]. specialize (IH Hs).
  destruct (trim_end s); [by destruct (is_white c)|done].
Qed.

Lemma all_units_trim P s : all_units P s -> all_units P (trim s).
Proof. intros Hs. by apply all_units_trim_end, all_units_trim_start. Qed.

Lemma trim_start_twice s : trim_start (trim_start s) = trim_start s.
Proof. induction s as [|c s IH]; cbn; [done|]. destruct (is_white c) eqn:E; [done|]. cbn. by rewrite E. Qed.

(** Trimming the end leaves a text that begins with no white space as it begins. *)
Lemma trim_start_end s : trim_start s = s -> trim_start (trim_end s) = trim_end s.
Proof.
  destruct s as [|c s]; [done|]. cbn. destruct (is_white c) eqn:E.
  - intros Hs. exfalso. assert (forall t, String.length (trim_start t) <= String.length t)%nat as Hl.
    { induction t as [|d t IH]; cbn; [lia|]. destruct (is_white d); cbn; lia. }
    specialize (Hl s). rewrite Hs in Hl. cbn in Hl. lia.
  - intros _. destruct (trim_end s); cbn; by rewrite ?E.
Qed.

Lemma trim_twice s : trim (trim s) = trim s.
Proof.
  unfold trim. rewrite trim_start_end by apply trim_start_twice. apply trim_end_idempotent.
Qed.

Lemma str_length_zero s : (str_length s =? 0) = String.eqb s "".
Proof. by destruct s. Qed.

(** A unit that may be spoken. *)
Definition spoken_unit (c : Ascii.ascii) : Prop := isControlCodePoint c = false.

Lemma controls_gone s : all_units spoken_unit (without_controls s).
Proof.
  induction s as [|c s IH]; cbn; [done|]. split; [|done]. unfold spoken_unit.
  by destruct (isControlCodePoint c) eqn:E.
Qed.

Lemma collapse_units after s : all_units spoken_unit s -> all_units spoken_unit (collapse after s).
Proof.
  revert after. induction s as [|c s IH]; intros after; cbn; [done|]. intros [Hc Hs].
  destruct (is_white c); [destruct after; [by apply IH|split; [done|by apply IH]]|split; [done|by apply IH]].
Qed.

(** A bounded name has something to say, at most [limit] units of it, and not one
    control character: whatever the feed sent. *)
Lemma boundedName_spec limit value name : boundedName limit value = Some name ->
  text_ok limit name = true /\ all_units spoken_unit name /\ (1 <= String.length name)%nat.
Proof.
  unfold boundedName. destruct (json_string value) as [v|]; [|done].
  set (cleaned := trim _). rewrite str_length_zero.
  destruct (String.eqb cleaned "") eqn:E; [done|]. cbn [orb].
  destruct (limit <? str_length cleaned) eqn:El; [done|]. intros [= <-].
  apply String.eqb_neq in E. split_and!.
  - unfold text_ok. assert (trim cleaned = cleaned) as -> by apply trim_twice.
    apply andb_true_iff. split; [by apply negb_true_iff, String.eqb_neq|].
    apply Z.ltb_ge in El. by apply Z.leb_le.
  - apply all_units_trim, collapse_units, controls_gone.
  - destruct cleaned; [done|]. cbn. lia.
Qed.

Lemma text_ok_weaken limit limit' s : limit <= limit' -> text_ok limit s = true -> text_ok limit' s = true.
Proof.
  unfold text_ok. rewrite !andb_true_iff, !Z.leb_le. intros ? [??]. split; [done|lia].
Qed.

(** Every cue of an event can be said. *)
Lemma event_intent_sayable p body intent : event_intent p body = Some intent -> can_say intent = true.
Proof.
  assert (forall v n, name_of v = Some n -> text_ok MAX_FREE_TEXT n = true) as Hname
    by (intros v n Hn; by apply boundedName_spec in Hn as [? _]).
  assert (forall l n, lineName l = Some n -> text_ok MAX_FREE_TEXT n = true) as Hline
    by (intros l n; apply Hname).
  assert (forall v n, boundedName 64 v = Some n -> text_ok MAX_FREE_TEXT n = true) as H64.
  { intros v n Hn. apply boundedName_spec in Hn as [Hn _]. revert Hn. apply text_ok_weaken.
    unfold MAX_FREE_TEXT. lia. }
  destruct body; cbn [event_intent]; intros Hi; try (by simplify_eq).
  - apply bind_Some in Hi as (line & Hl & (dest & Hd & [= <-])%bind_Some). cbn [can_say].
    rewrite (Hline _ _ Hl), (Hname _ _ Hd). destruct (boundedName 64 _) eqn:Ep; [|done].
    by rewrite (H64 _ _ Ep).
  - apply bind_Some in Hi as (stop & Hs & [= <-]). by apply (Hname _ _ Hs).
  - apply bind_Some in Hi as (name & Hn & [= <-]). by apply (H64 _ _ Hn).
  - apply bind_Some in Hi as (stop & Hs & [= <-]). by apply (Hname _ _ Hs).
  - apply bind_Some in Hi as (stop & Hs & (line & Hl & [= <-])%bind_Some). cbn [can_say].
    by rewrite (Hline _ _ Hl), (Hname _ _ Hs).
Qed.
