(* ===== verification/TransitBatch.v ===== *)
(** * A batch of a journey

    apps/mobile/src/navigation/transit/transitBatch.ts: positions, or a wake-up with
    none, become one revision: the engine's next state, its events as cues and outbox
    entries, the walking guidance, and the location cadence of the new phase. *)

From S2P Require Import Prelude Text Doubles Protocol Cues RouteMatcher Maneuver Progress Session Snapshot Itinerary StopAreas Captures StopCursor Database Repository Location Processor Guidance TransitEngine TransitEngineFacts TransitSession Engine Ground TransitWalk TransitCue.
#[export] Instance ProgressConfidence_eq_dec : EqDecision ProgressConfidence.
Proof. solve_decision. Defined.

(** ** The prepared geometry *)

(** [TransitItineraryCache] *)
Record TransitItineraryCache := {
  tic_key : option string;
  tic_prepared : option (list (option PreparedTransitLeg));
  tic_captures : list TransitLegCapture;
}.

(** A cache that has prepared nothing yet, and what [invalidate()] leaves. *)
Definition invalidated : TransitItineraryCache :=
  {| tic_key := None; tic_prepared := None; tic_captures := [] |}.

Definition cache_key (sid : string) (p : TransitPayload) : string :=
  (sid ++ ":" ++ tp_itineraryFingerprint (p_startPackage p) ++ ":"
   ++ show_Z (default 0 (p_navigationDataRevision p)))%string.

(** ** Helpers *)

Definition CRITICAL_EVENTS (body : TransitEventBody) : bool :=
  match body with
  | TBoard _ | TPlatformChange _ _ | TApproachingAlight _ _ | TAlight _ | TTransfer _ _
  | TMissedConnection _ | TArrival _ => true
  end.

Definition event_type (body : TransitEventBody) : string :=
  match body with
  | TBoard _ => "board"
  | TAlight _ => "alight"
  | TMissedConnection _ => "missed-connection"
  | TArrival _ => "arrival"
  | TPlatformChange _ _ => "platform-change"
  | TApproachingAlight _ _ => "approaching-alight"
  | TTransfer _ _ => "transfer"
  end.

(** [event.legIndex], which a transfer does not have. *)
Definition event_leg (body : TransitEventBody) : option Z :=
  match body with
  | TBoard l | TAlight l | TMissedConnection l | TArrival l | TPlatformChange l _
  | TApproachingAlight l _ => Some l
  | TTransfer _ _ => None
  end.

Definition is_arrival (body : TransitEventBody) : bool :=
  match body with TArrival _ => true | _ => false end.

(** [appendBounded] *)
Definition appendBounded (existing additions : list string) : list string :=
  keep_last 512 (push_missing existing additions).

Definition profile_name (k : LocationProfileKind) : string :=
  match k with
  | ProfileDriving => "driving"
  | ProfileMotorcycle => "motorcycle"
  | ProfileCycling => "cycling"
  | ProfileWalking => "walking"
  | TransitCruise => "transit-cruise"
  | TransitNearEvent => "transit-near-event"
  end.

(** [const { lastAcceptedFix: _fix, ...durable } = tickState] *)
Definition durable (t : TransitTickState) : TransitTickState :=
  Build_TransitTickState (t_currentLegIndex t) (t_currentWalkStepIndex t) (t_walkRevision t)
    (t_phase t) None (t_lastProgressAtMs t) (t_legEnteredAtMs t) (t_stopCursor t)
    (t_alongMeters t) (t_stopTracking t) (t_reachedStepEnd t) (t_distanceToNextStepMeters t)
    (t_progressConfidence t) (t_offPlan t) (t_lastActionId t) (t_lastAction t)
    (t_spokenCueIds t) (t_emittedEventIds t).

Definition phase_name (p : TransitPhase) : string :=
  match p with
  | PhaseWalking => "walking"
  | WaitingToBoard => "waiting-to-board"
  | Riding => "riding"
  | Transferring => "transferring"
  | PhaseArrived => "arrived"
  end.

Definition confidence_name (c : ProgressConfidence) : string :=
  match c with PcGps => "gps" | PcUncertain => "uncertain" | PcStale => "stale" end.

(** A property that is stored only when it has a value. *)
Definition stored (key : string) (value : option json) : list (string * json) :=
  match value with Some j => [(key, j)] | None => [] end.

(** A progress as the record the payload keeps. *)
Definition progress_fields (t : TransitProgress) : list (string * json) :=
  [("currentLegIndex", JZ (tpr_currentLegIndex t))]
  ++ match tpr_position t with
     | Some (coords, at_) => [("position", JPoint coords); ("positionTimestampMs", JZ at_)]
     | None => []
     end
  ++ [("snapped", JPoint (tpr_snapped t));
      ("fractionAlongLeg", JNum (tpr_fractionAlongLeg t));
      ("deviationMeters", JNum (tpr_deviationMeters t));
      ("arrived", JBool (tpr_arrived t));
      ("phase", JStr (phase_name (tpr_phase t)));
      ("confidence", JStr (confidence_name (tpr_confidence t)));
      ("stopCursor", JZ (tpr_stopCursor t));
      ("currentWalkStepIndex", JZ (tpr_currentWalkStepIndex t));
      ("walkRevision", JZ (tpr_walkRevision t))]
  ++ stored "distanceToNextStepMeters" (JNum <$> tpr_distanceToNextStepMeters t)
  ++ stored "offPlan" (JBool <$> tpr_offPlan t)
  ++ [("canUndo", JBool (tpr_canUndo t))]
  ++ stored "lastActionLegIndex" (JZ <$> tpr_lastActionLegIndex t)
  ++ stored "lastActionAtMs" (JZ <$> tpr_lastActionAtMs t).

(** [s.slice(prefix.length)] *)
Definition after_prefix (prefix s : string) : string :=
  String.substring (String.length prefix) (String.length s - String.length prefix) s.

(** ** The batch *)

Record TransitBatchOutcome := {
  tbo_mutation : RepositoryMutation;
  tbo_arrived : bool;
  tbo_needsReplan : bool;
  tbo_actionRejected : bool;
  tbo_events : list TransitNavigationEvent;
}.

(** The variables of the loop over the ticks. *)
Record TickRun := {
  run_state : TransitTickState;
  run_confidence : Confidence;
  run_needsReplan : bool;
  run_actionRejected : bool;
  run_events : list TransitNavigationEvent;
}.

(** What an event adds: its id, its outbox entry and its sentence. *)
Record Announcement := {
  ann_eventIds : list string;
  ann_enqueue : list EventInput;
  ann_spoken : list string;
  ann_effects : list SessionEffect;
}.

Definition no_announcement : Announcement :=
  {| ann_eventIds := []; ann_enqueue := []; ann_spoken := []; ann_effects := [] |}.

Section batch.
Context `{MathFunctions} `{Turf} `{DateParser} `{Catalogue} `{Intl}.

(** [preparedFor(session)], with the captures it keeps beside the geometry. *)
Definition preparedFor (c : TransitItineraryCache) (sid : string) (p : TransitPayload)
    : outcome (list (option PreparedTransitLeg) * TransitItineraryCache) :=
  let key := cache_key sid p in
  let prepare :=
    prepared ← prepareTransitProgress (tp_itinerary (p_startPackage p));
    Ok (prepared, {| tic_key := Some key; tic_prepared := Some prepared;
                     tic_captures := tp_captures (p_startPackage p) |}) in
  match tic_prepared c with
  | Some prepared => if bool_decide (tic_key c = Some key) then Ok (prepared, c) else prepare
  | None => prepare
  end.

Section with_session.
Variables (s : MobileNavigationSession) (p : TransitPayload) (nowMs : Z).

Definition batch_options : TransitTickOptions :=
  default_tick_options (tp_itineraryFingerprint (p_startPackage p)).

Definition run_start : TickRun :=
  {| run_state := tick_with_fix (p_tickState p) (lastAcceptedFix s);
     run_confidence := p_confidence p; run_needsReplan := false; run_actionRejected := false;
     run_events := [] |}.

Definition run_tick (captures : list TransitLegCapture) (prepared : list (option PreparedTransitLeg))
    (action : option TransitRiderAction) (fix_ : option FixInput) (run : TickRun) : outcome TickRun :=
  r ← processTransitFix (tp_itinerary (p_startPackage p)) captures (run_state run) fix_ action nowMs
        batch_options prepared (default [] (tp_stopAreas (p_startPackage p)));
  Ok {| run_state := res_state r; run_confidence := res_confidence r;
        run_needsReplan := res_needsReplan r || run_needsReplan run;
        run_actionRejected := run_actionRejected run || res_actionRejected r;
        run_events := run_events run ++ res_events r |}.

Fixpoint run_ticks (captures : list TransitLegCapture) (prepared : list (option PreparedTransitLeg))
    (action : option TransitRiderAction) (ticks : list (option FixInput)) (run : TickRun) : outcome TickRun :=
  match ticks with
  | [] => Ok run
  | fix_ :: rest =>
      run ← run_tick captures prepared action fix_ run;
      run_ticks captures prepared action rest run
  end.

(** A batch without positions is one tick without one. *)
Definition ticks_of (fixes : list FixInput) : list (option FixInput) :=
  match fixes with [] => [None] | _ => map Some fixes end.

(** *** What the batch says *)

Definition voice_effects (e : SessionEffect) : list SessionEffect :=
  if transit_voiceEnabled (tp_settings (p_startPackage p)) then [e] else [].

(** An event the ledger has not recorded. *)
Definition announce (event : TransitNavigationEvent) : Announcement :=
  if includes (ev_id event) (events (cueLedger s)) then no_announcement
  else
    let entry := {| in_eventId := ev_id event; in_critical := CRITICAL_EVENTS (ev_body event);
                    in_payload := JObj (("type", JStr (event_type (ev_body event)))
                                        :: stored "legIndex" (JZ <$> event_leg (ev_body event))) |} in
    let quiet := {| ann_eventIds := [ev_id event]; ann_enqueue := [entry];
                    ann_spoken := []; ann_effects := [] |} in
    match transitCueEffect s p event with
    | None => quiet
    | Some cue =>
        if includes (tce_cueId cue) (spoken (cueLedger s)) then quiet
        else {| ann_eventIds := [ev_id event]; ann_enqueue := [entry];
                ann_spoken := [tce_cueId cue]; ann_effects := voice_effects (tce_effect cue) |}
    end.

(** [leg?.steps?.[currentWalkStepIndex + 1]] of a walk positions confirm. *)
Definition next_walk_step (t : TransitTickState) : option json :=
  if bool_decide (t_phase t = PhaseWalking) && bool_decide (t_progressConfidence t = Some PcGps)
  then match leg_at (leg_steps (session_leg p (t_currentLegIndex t))) (t_currentWalkStepIndex t + 1) with
       | Some step => if truthy (Some step) then Some step else None
       | None => None
       end
  else None.

Definition walk_prefix (t : TransitTickState) : string :=
  ("walk:" ++ show_Z (t_currentLegIndex t) ++ ":" ++ show_Z (default 0 (t_walkRevision t)) ++ ":")%string.

Definition walk_namespace : string :=
  (sessionId s ++ ":transit:" ++ tp_itineraryFingerprint (p_startPackage p) ++ ":")%string.

(** The walking cues already spoken, by the key of the voice schedule. *)
Definition spoken_walk_keys (t : TransitTickState) : list string :=
  let prefix := (walk_namespace ++ walk_prefix t)%string in
  map (after_prefix prefix) (List.filter (startsWith prefix) (spoken (cueLedger s))).

(** The walking instruction that is due. *)
Definition walk_cue (t : TransitTickState) : outcome (option TransitCueEffect) :=
  match next_walk_step t with
  | None => Ok None
  | Some step =>
      text ← composeWalkInstruction (walkStepInfo step) (locale s);
      let timing := transitWalkVoiceCue step (t_currentWalkStepIndex t)
                      (default PosInf (t_distanceToNextStepMeters t))
                      (default (num_of_Z 0) (t_lastAcceptedFix t ≫= fix_speed)) text (spoken_walk_keys t) in
      Ok (timing ← timing;
          cue ← transitWalkCueEffect s p (walk_prefix t ++ cue_key timing)%string text None
                  (Some (cue_tier timing, cue_distance timing));
          if includes (tce_cueId cue) (spoken (cueLedger s)) then None else Some cue)
  end.

Definition walk_announcement (cue : option TransitCueEffect) : Announcement :=
  match cue with
  | None => no_announcement
  | Some cue => {| ann_eventIds := []; ann_enqueue := []; ann_spoken := [tce_cueId cue];
                   ann_effects := voice_effects (tce_effect cue) |}
  end.

Definition gather {A} (f : Announcement -> list A) (l : list Announcement) : list A := concat (map f l).

Definition next_status (arrived : bool) (t : TransitTickState) : SessionStatus :=
  if arrived then Arrived
  else if negb (bool_decide (t_phase t = PhaseArrived)) && bool_decide (status s = Arrived) then Active
  else status s.

(** What is left of the batch once the ticks have run. *)
Definition batch_result (run : TickRun) (said : list Announcement) (progress : TransitProgress)
    : TransitBatchOutcome :=
  let t := run_state run in
  let arrived := existsb (fun e => is_arrival (ev_body e)) (run_events run) in
  let payload :=
    {| p_startPackage := p_startPackage p; p_navigationDataRevision := p_navigationDataRevision p;
       p_tickState := durable t; p_progress := Some (progress_fields progress);
       p_confidence := run_confidence run; p_refreshToken := p_refreshToken p;
       p_refresh := p_refresh p; p_scheduledAlerts := p_scheduledAlerts p |} in
  let next := set_payload (TransitSession payload)
    (set_lastAcceptedFix (match t_lastAcceptedFix t with Some f => Some f | None => lastAcceptedFix s end)
      (set_cueLedger
         {| spoken := appendBounded (spoken (cueLedger s)) (gather ann_spoken said);
            events := appendBounded (events (cueLedger s)) (gather ann_eventIds said) |}
         (set_status (next_status arrived t) (advance nowMs s)))) in
  let profile := transitProfileForTime payload nowMs in
  let enqueue := gather ann_enqueue said in
  {| tbo_mutation :=
       {| mut_session := next;
          mut_effects := gather ann_effects said
            ++ (if bool_decide (profile = transitProfileForTime p nowMs) then []
                else [UpdateLocationProfile (profile_name profile)])
            ++ [ReconcileAlerts (sessionId s);
                PublishSnapshot (arrived || match enqueue with [] => false | _ => true end)];
          mut_enqueue := enqueue; mut_alerts := None |};
     tbo_arrived := arrived; tbo_needsReplan := run_needsReplan run;
     tbo_actionRejected := run_actionRejected run; tbo_events := run_events run |}.

(** The batch over prepared geometry. *)
Definition batch_over (captures : list TransitLegCapture) (prepared : list (option PreparedTransitLeg))
    (fixes : list FixInput) (action : option TransitRiderAction) : outcome TransitBatchOutcome :=
  run ← run_ticks captures prepared action (ticks_of fixes) run_start;
  progress ← transitProgressFromTick (run_state run) prepared;
  walk ← walk_cue (run_state run);
  Ok (batch_result run (map announce (run_events run) ++ [walk_announcement walk]) progress).
End with_session.

Definition processTransitBatch (c : TransitItineraryCache) (s : MobileNavigationSession)
    (p : TransitPayload) (fixes : list FixInput) (nowMs : Z) (action : option TransitRiderAction)
    : outcome (TransitBatchOutcome * TransitItineraryCache) :=
  '(prepared, c) ← preparedFor c (sessionId s) p;
  out ← batch_over s p nowMs (tic_captures c) prepared fixes action;
  Ok (out, c).
End batch.

(** * What a batch of a journey says and leaves

    Facts about transitBatch.ts and transitCue.ts: which events a batch announces and
    with which sentences, and that its state keeps its type. *)

Section facts.
Context `{MathFunctions} `{Turf} `{DateParser} `{Catalogue} `{Intl}.

(** ** What a sentence is made of *)

(** The texts a cue speaks. *)
Definition cue_texts (cue : NavigationCue) : list string :=
  match cue with
  | GroundManeuver _ instruction _ => [instruction]
  | CueWalk action street _ => action :: match street with Some s => [s] | None => [] end
  | CueBoard line destination platform =>
      line :: destination :: match platform with Some x => [x] | None => [] end
  | CueAlight stop => [stop]
  | CueTransfer stop line => [stop; line]
  | CuePlatformChange platform => [platform]
  | CueOffRoute | CueWeakGps | CueScheduleFallback | CuePermissionLost | CueArrival => []
  end.

(** A text fit for a synthesiser: short, with something to say, no control character. *)
Definition clean_text (s : string) : Prop :=
  all_units spoken_unit s /\ (1 <= String.length s)%nat /\ str_length s <= MAX_FREE_TEXT.

Lemma bounded_name_clean limit v n : limit <= MAX_FREE_TEXT -> boundedName limit v = Some n -> clean_text n.
Proof.
  intros Hl (Ht & Hu & Hn)%boundedName_spec. split_and!; [done|done|].
  unfold text_ok in Ht. apply andb_true_iff in Ht as [_ Ht%Z.leb_le]. lia.
Qed.

Lemma event_texts_clean p body intent : event_intent p body = Some intent ->
  Forall clean_text (cue_texts intent).
Proof.
  assert (forall v n, name_of v = Some n -> clean_text n) as Hname
    by (intros v n; by apply bounded_name_clean).
  assert (forall v n, boundedName 64 v = Some n -> clean_text n) as H64
    by (intros v n; by apply bounded_name_clean).
  destruct body; cbn [event_intent]; intros Hi; try (by simplify_eq).
  - apply bind_Some in Hi as (line & Hl & (dest & Hd & [= <-])%bind_Some). cbn [cue_texts].
    constructor; [by eapply Hname|]. constructor; [by eapply Hname|].
    destruct (boundedName 64 _) eqn:Ep; [|done]. constructor; [by eapply H64|done].
  - apply bind_Some in Hi as (stop & Hs & [= <-]). constructor; [by eapply Hname|done].
  - apply bind_Some in Hi as (name & Hn & [= <-]). constructor; [by eapply H64|done].
  - apply bind_Some in Hi as (stop & Hs & [= <-]). constructor; [by eapply Hname|done].
  - apply bind_Some in Hi as (stop & Hs & (line & Hl & [= <-])%bind_Some). cbn [cue_texts].
    constructor; [by eapply Hname|]. constructor; [by eapply Hname|done].
Qed.

(** An event is silent only where the feed named nothing it could name, or where its
    sentence would be longer than the driver speaks; and what it speaks is a sentence
    of the catalogue around short names of the captured itinerary, with no control
    character in them, whatever the feed sent. *)
Theorem an_event_is_silent_only_without_a_name `{!CatalogueLaws} `{!IntlLaws} s p e :
  match event_intent p (ev_body e) with
  | None => transitCueEffect s p e = None
  | Some intent =>
      Forall clean_text (cue_texts intent) /\
      exists text, formatNavigationCue intent (locale s) (units s) = Ok text /\
        transitCueEffect s p e =
          if (1 <=? str_length text) && (str_length text <=? MAX_SPEECH_TEXT_LENGTH)
          then Some {| tce_cueId := transitCueId (sessionId s)
                                      (tp_itineraryFingerprint (p_startPackage p)) (ev_id e);
                       tce_critical := true;
                       tce_effect := Speak (transitCueId (sessionId s)
                                      (tp_itineraryFingerprint (p_startPackage p)) (ev_id e)) text (locale s) |}
          else None
  end.
Proof.
  destruct (event_intent p (ev_body e)) as [intent|] eqn:Ei.
  2:{ unfold transitCueEffect. by rewrite Ei. }
  split; [by eapply event_texts_clean|].
  destruct (proj1 (every_cue_is_said intent (locale s) (units s)) (event_intent_sayable _ _ _ Ei)) as [text Ht].
  exists text. split; [done|]. unfold transitCueEffect. rewrite Ei. cbn [mbind option_bind]. unfold speak.
  rewrite Ht. destruct (str_length text =? 0) eqn:E0.
  - apply Z.eqb_eq in E0. by rewrite E0.
  - apply Z.eqb_neq in E0. assert (1 <=? str_length text = true) as ->
      by (apply Z.leb_le; unfold str_length in *; lia).
    cbn [orb andb]. rewrite Z.leb_antisym. by destruct (MAX_SPEECH_TEXT_LENGTH <? str_length text).
Qed.

(** ** The parts of a batch *)

(** The parts of a batch that answered. *)
Lemma batch_over_ok s p nowMs captures prepared fixes action out :
  batch_over s p nowMs captures prepared fixes action = Ok out ->
  exists run progress walk,
    run_ticks p nowMs captures prepared action (ticks_of fixes) (run_start s p) = Ok run /\
    transitProgressFromTick (run_state run) prepared = Ok progress /\
    walk_cue s p (run_state run) = Ok walk /\
    out = batch_result s p nowMs run
            (map (announce s p) (run_events run) ++ [walk_announcement p walk]) progress.
Proof.
  unfold batch_over.
  intros (run & Hr & (progress & Hp & (walk & Hw & <-%Ok_inj)%outcome_bind_ok)%outcome_bind_ok)%outcome_bind_ok.
  by exists run, progress, walk.
Qed.

Lemma process_batch_ok c s p fixes nowMs action out c' :
  processTransitBatch c s p fixes nowMs action = Ok (out, c') ->
  exists prepared, preparedFor c (sessionId s) p = Ok (prepared, c') /\
    batch_over s p nowMs (tic_captures c') prepared fixes action = Ok out.
Proof.
  unfold processTransitBatch. intros ([prepared c1] & Hc & (out' & Ho & [= <- <-]%Ok_inj)%outcome_bind_ok)%outcome_bind_ok.
  by exists prepared.
Qed.

(** ** Sentences *)

(** A sentence is the formatter's, within the bound of the speech driver. *)
Lemma speak_ok s cueId intent critical cue : speak s cueId intent critical = Some cue ->
  exists text, formatNavigationCue intent (locale s) (units s) = Ok text /\
    1 <= str_length text <= MAX_SPEECH_TEXT_LENGTH /\
    cue = {| tce_cueId := cueId; tce_critical := critical; tce_effect := Speak cueId text (locale s) |}.
Proof.
  unfold speak. destruct (formatNavigationCue _ _ _) as [text|]; [|done].
  destruct (_ || _) eqn:E; [done|]. apply orb_false_iff in E as [E1%Z.eqb_neq E2%Z.ltb_ge].
  intros [= <-]. exists text. split_and!; try done. unfold str_length in *. lia.
Qed.

Lemma cue_id_bounded sid fp id : (String.length (transitCueId sid fp id) <= 128)%nat.
Proof. unfold transitCueId, MAX_CUE_ID_LENGTH. rewrite slice0_length. lia. Qed.

(** What a batch may speak: a bounded sentence in the session's language under a
    bounded id that the ledger does not hold, and only with speech on. *)
Definition may_speak (s : MobileNavigationSession) (p : TransitPayload) (e : SessionEffect) : Prop :=
  exists cueId text, e = Speak cueId text (locale s) /\
    transit_voiceEnabled (tp_settings (p_startPackage p)) = true /\
    cueId ∉ spoken (cueLedger s) /\ (String.length cueId <= 128)%nat /\
    1 <= str_length text <= MAX_SPEECH_TEXT_LENGTH.

Lemma voice_effects_may s p cueId text : cueId ∉ spoken (cueLedger s) -> (String.length cueId <= 128)%nat ->
  1 <= str_length text <= MAX_SPEECH_TEXT_LENGTH ->
  Forall (may_speak s p) (voice_effects p (Speak cueId text (locale s))).
Proof.
  intros Hid Hlen Ht. unfold voice_effects. destruct (transit_voiceEnabled _) eqn:E; [|done].
  constructor; [|done]. exists cueId, text. exact (conj eq_refl (conj E (conj Hid (conj Hlen Ht)))).
Qed.

(** [voice_effects] holds at most its effect. *)
Lemma voice_effects_length p e : (length (voice_effects p e) <= 1)%nat.
Proof. unfold voice_effects. case_match; cbn; lia. Qed.

Definition is_new (s : MobileNavigationSession) (e : TransitNavigationEvent) : bool :=
  negb (includes (ev_id e) (events (cueLedger s))).

(** One event: announced exactly when it is new, under its own id. *)
Lemma announce_spec s p e :
  let a := announce s p e in
  ann_eventIds a = (if is_new s e then [ev_id e] else []) /\
  map in_eventId (ann_enqueue a) = ann_eventIds a /\
  Forall (fun entry => in_critical entry = true) (ann_enqueue a) /\
  Forall (may_speak s p) (ann_effects a) /\
  (length (ann_effects a) <= length (ann_eventIds a))%nat.
Proof.
  unfold announce, is_new. cbv zeta. destruct (includes (ev_id e) _); [by split_and!|].
  assert (CRITICAL_EVENTS (ev_body e) = true) as Hc by by destruct (ev_body e).
  destruct (transitCueEffect s p e) as [cue|] eqn:Ec; [|by split_and!; repeat constructor].
  destruct (includes (tce_cueId cue) _) eqn:Ei; [by split_and!; repeat constructor|].
  cbn [ann_eventIds ann_enqueue ann_effects map in_eventId negb]. split_and!; try (by repeat constructor).
  - apply includes_false in Ei. unfold transitCueEffect in Ec.
    apply bind_Some in Ec as (intent & _ & (text & _ & Ht & ->)%speak_ok). cbn in *.
    apply voice_effects_may; [done|apply cue_id_bounded|done].
  - pose proof (voice_effects_length p (tce_effect cue)). cbn. lia.
Qed.

Lemma walk_announcement_spec s p t cue : walk_cue s p t = Ok cue ->
  let a := walk_announcement p cue in
  ann_eventIds a = [] /\ ann_enqueue a = [] /\ Forall (may_speak s p) (ann_effects a) /\
  (length (ann_effects a) <= 1)%nat.
Proof.
  unfold walk_cue, walk_announcement. destruct (next_walk_step p t) as [step|].
  2:{ intros <-%Ok_inj. cbn. split_and!; [done|done|done|lia]. }
  intros (text & _ & Hc%Ok_inj)%outcome_bind_ok. destruct cue as [cue|]; cbn; [|split_and!; [done..|lia]].
  apply bind_Some in Hc as (timing & _ & (cue' & Hc & Hi)%bind_Some).
  destruct (includes _ _) eqn:Ei; [done|]. injection Hi as ->. apply includes_false in Ei.
  unfold transitWalkCueEffect in Hc. apply bind_Some in Hc as (action & _ & (sentence & _ & Ht & ->)%speak_ok).
  cbn in *. split_and!; [done|done| |apply voice_effects_length].
  apply voice_effects_may; [done|apply cue_id_bounded|done].
Qed.

(** The announcements of a list of events. *)
Lemma gather_app {A} (f : Announcement -> list A) l l' : gather f (l ++ l') = gather f l ++ gather f l'.
Proof. unfold gather. by rewrite map_app, concat_app. Qed.

Lemma announcements_spec s p l :
  let said := map (announce s p) l in
  gather ann_eventIds said = map ev_id (List.filter (is_new s) l) /\
  map in_eventId (gather ann_enqueue said) = gather ann_eventIds said /\
  Forall (fun entry => in_critical entry = true) (gather ann_enqueue said) /\
  Forall (may_speak s p) (gather ann_effects said) /\
  (length (gather ann_effects said) <= length (gather ann_eventIds said))%nat.
Proof.
  unfold gather. induction l as [|e l (I1 & I2 & I3 & I4 & I5)]; [by split_and!|].
  destruct (announce_spec s p e) as (A1 & A2 & A3 & A4 & A5). cbn [map concat List.filter].
  rewrite I1 in *. split_and!.
  - rewrite A1. by destruct (is_new s e).
  - by rewrite map_app, A2, I2.
  - by apply Forall_app.
  - by apply Forall_app.
  - rewrite !length_app. lia.
Qed.

(** The sentences among the effects. *)
Definition speaks (e : SessionEffect) : bool := match e with Speak _ _ _ => true | _ => false end.

Lemma may_speak_all s p l : Forall (may_speak s p) l -> List.filter speaks l = l.
Proof.
  induction 1 as [|e l (cueId & text & -> & _) _ IH]; [done|]. cbn. by rewrite IH.
Qed.

(** A batch announces what is new and nothing else: one critical outbox entry for each
    event the ledger did not hold, in order and under the event's id, which the ledger
    then holds; and no more sentences than there are such events, besides one for the
    walk, each bounded, never one the ledger holds, and none with speech off. *)
Theorem a_batch_announces_what_is_new c s p fixes nowMs action out c' :
  processTransitBatch c s p fixes nowMs action = Ok (out, c') ->
  let m := tbo_mutation out in
  let new := map ev_id (List.filter (is_new s) (tbo_events out)) in
  map in_eventId (mut_enqueue m) = new /\
  Forall (fun entry => in_critical entry = true) (mut_enqueue m) /\
  events (cueLedger (mut_session m)) = appendBounded (events (cueLedger s)) new /\
  (forall e, e ∈ mut_effects m -> speaks e = true -> may_speak s p e) /\
  (length (List.filter speaks (mut_effects m)) <= length new + 1)%nat.
Proof.
  intros (prepared & _ & (run & progress & walk & _ & _ & Hw & ->)%batch_over_ok)%process_batch_ok.
  set (said := map (announce s p) (run_events run)).
  destruct (announcements_spec s p (run_events run)) as (A1 & A2 & A3 & A4 & A5). fold said in A1, A2, A3, A4, A5.
  destruct (walk_announcement_spec s p _ _ Hw) as (W1 & W2 & W3 & W4).
  unfold batch_result. cbv zeta. cbn [tbo_mutation tbo_events mut_enqueue mut_session mut_effects].
  assert (gather ann_enqueue (said ++ [walk_announcement p walk]) = gather ann_enqueue said) as ->.
  { rewrite gather_app. unfold gather at 2. cbn [map concat]. by rewrite W2, !app_nil_r. }
  assert (gather ann_eventIds (said ++ [walk_announcement p walk]) = gather ann_eventIds said) as ->.
  { rewrite gather_app. unfold gather at 2. cbn [map concat]. by rewrite W1, !app_nil_r. }
  assert (Forall (may_speak s p) (gather ann_effects (said ++ [walk_announcement p walk]))) as Hall.
  { rewrite gather_app. apply Forall_app. split; [done|]. unfold gather. cbn. by rewrite app_nil_r. }
  assert (length (gather ann_effects (said ++ [walk_announcement p walk]))
          <= length (gather ann_eventIds said) + 1)%nat as Hlen.
  { rewrite gather_app, length_app. unfold gather at 2. cbn [map concat]. rewrite app_nil_r. lia. }
  rewrite A1 in *. split_and!; [done|done|done| |].
  - intros e [He|He]%elem_of_app Hs; [by apply (proj1 (Forall_forall _ _) Hall)|].
    exfalso. destruct (bool_decide _); set_solver.
  - rewrite List.filter_app, length_app, (may_speak_all _ _ _ Hall).
    destruct (bool_decide _); cbn; lia.
Qed.

(** ** The state keeps its type *)

(** What the sizes of a package allow a journey. *)
Record fitting (p : TransitNavigationStartPackage) : Prop := {
  fit_fingerprint : (1 <= String.length (tp_itineraryFingerprint p) <= 64)%nat;
  fit_legs : legs_fit (tp_itinerary p);
  fit_steps : forall i leg, leg_at (legs_of (tp_itinerary p)) i = Some leg ->
    Z.of_nat (length (leg_steps (Some leg))) <= 10001;
  fit_captures : forallb transitLegCaptureSchema (tp_captures p) = true;
}.

(** What a run of ticks keeps. *)
Definition run_wf (p : TransitPayload) (run : TickRun) : Prop :=
  tick_wf (legs_of (tp_itinerary (p_startPackage p))) (run_state run) /\
  Forall (fun e => boundedId (ev_id e) = true) (run_events run).

Lemma run_ticks_wf p nowMs prepared action ticks run run' :
  fitting (p_startPackage p) -> safeInteger nowMs = true -> Forall (fun f => opt_ok fixSchema f = true) ticks ->
  run_wf p run -> (action = None \/ ((length ticks <= 1)%nat /\ measured (run_state run) = true)) ->
  run_ticks p nowMs (tp_captures (p_startPackage p)) prepared action ticks run = Ok run' ->
  run_wf p run'.
Proof.
  intros [Hfp Hlegs Hsteps Hcap] Hnow. revert run. induction ticks as [|f ticks IH]; intros run Hf Hs Ha; cbn [run_ticks].
  { by intros <-%Ok_inj. }
  apply Forall_cons in Hf as [Hf Hfs].
  destruct Hs as [Hs He].
  intros (run1 & (r & Hr & <-%Ok_inj)%outcome_bind_ok & Hrun)%outcome_bind_ok.
  assert (tick_wf (legs_of (tp_itinerary (p_startPackage p))) (res_state r)) as Hwf.
  { eapply (process_wf _ _ _ _ _ _ (batch_options p)); [exact Hfp|exact Hlegs|exact Hsteps|exact Hcap|exact Hnow|exact Hf|exact Hs| |exact Hr].
    destruct Ha as [|[_ Ha]]; auto. }
  assert (Forall (fun e => boundedId (ev_id e) = true) (res_events r)) as Hev.
  { apply Forall_forall. intros e Hin. destruct (wf_emitted _ _ Hwf) as [Hall _].
    rewrite forallb_forall in Hall. apply Hall, list_elem_of_In.
    eapply told_is_recorded; [|exact Hr|exact Hin]. apply (wf_emitted _ _ Hs). }
  assert (Forall (fun e => boundedId (ev_id e) = true) (run_events run ++ res_events r)) as Hboth by by apply Forall_app.
  destruct ticks as [|f' ticks]; [by apply Ok_inj in Hrun as <-|].
  apply IH in Hrun; [done|done|done|]. destruct Ha as [|[Ha _]]; [by left|]. cbn in Ha. lia.
Qed.

Lemma cue_id_ok sid fp id : boundedId (transitCueId sid fp id) = true.
Proof.
  pose proof (cue_id_bounded sid fp id) as Hl.
  assert (1 <= String.length (transitCueId sid fp id))%nat as Hp.
  { unfold transitCueId, MAX_CUE_ID_LENGTH. rewrite slice0_length, !string_length_app.
    change (String.length ":transit:") with 9%nat. lia. }
  unfold boundedId, MAX_ID_LENGTH, str_length. apply andb_true_iff. split; apply Z.leb_le; lia.
Qed.

Lemma announced_cues_ok s p l :
  Forall (fun i => boundedId i = true) (gather ann_spoken (map (announce s p) l)).
Proof.
  unfold gather. induction l as [|e l IH]; [done|]. cbn [map concat]. apply Forall_app. split; [|done].
  unfold announce. cbv zeta. destruct (includes _ _); [done|].
  destruct (transitCueEffect s p e) as [cue|] eqn:E; [|done]. destruct (includes _ _); [done|].
  repeat constructor. unfold transitCueEffect in E.
  apply bind_Some in E as (intent & _ & (text & _ & _ & ->)%speak_ok). apply cue_id_ok.
Qed.

Lemma walk_cue_ok s p t cue : walk_cue s p t = Ok cue ->
  Forall (fun i => boundedId i = true) (ann_spoken (walk_announcement p cue)).
Proof.
  unfold walk_cue, walk_announcement. destruct (next_walk_step p t) as [step|]; [|by intros <-%Ok_inj].
  intros (text & _ & Hc%Ok_inj)%outcome_bind_ok. destruct cue as [cue|]; [|done].
  apply bind_Some in Hc as (timing & _ & (cue' & Hc & Hi)%bind_Some).
  destruct (includes _ _); [done|]. injection Hi as ->. unfold transitWalkCueEffect in Hc.
  apply bind_Some in Hc as (action & _ & (sentence & _ & _ & ->)%speak_ok).
  repeat constructor. apply cue_id_ok.
Qed.

Lemma tick_with_fix_wf legs t f : tick_wf legs t -> opt_ok fixSchema f = true -> tick_wf legs (tick_with_fix t f).
Proof. intros [] Hf. split; try done. cbn. by destruct f. Qed.

Lemma durable_wf legs t : tick_wf legs t -> tick_wf legs (durable t).
Proof. intros []. by split. Qed.

(** The session a batch leaves. *)
Lemma batch_readable `{ReceiptValidators} s p nowMs prepared fixes action out :
  payload s = TransitSession p -> mobileNavigationSessionSchema s = true -> fitting (p_startPackage p) ->
  tick_wf (legs_of (tp_itinerary (p_startPackage p))) (p_tickState p) ->
  revision s < MAX_SAFE_INTEGER -> startedAtMs s <= nowMs <= MAX_SAFE_INTEGER ->
  Forall (fun f => fixSchema f = true) fixes ->
  (action = None \/ (fixes = [] /\ measured (p_tickState p) = true)) ->
  batch_over s p nowMs (tp_captures (p_startPackage p)) prepared fixes action = Ok out ->
  exists q, payload (mut_session (tbo_mutation out)) = TransitSession q /\
    tick_wf (legs_of (tp_itinerary (p_startPackage p))) (p_tickState q) /\
    p_refresh q = p_refresh p /\ p_refreshToken q = p_refreshToken p /\ p_startPackage q = p_startPackage p /\
    (measured (p_tickState q) = true ->
     mobileNavigationSessionSchema (mut_session (tbo_mutation out)) = true).
Proof.
  intros Hp Hs Hfit Ht Hr Hnow Hf Ha (run & progress & walk & Hrun & _ & Hw & ->)%batch_over_ok.
  destruct (schema_parts s Hs) as (Hled & Hfix & Hpay). rewrite Hp in Hpay.
  assert (safeInteger nowMs = true) as Hsafe.
  { pose proof Hs as Hs'. unfold mobileNavigationSessionSchema, baseSessionShape, safeInteger in *.
    rewrite !andb_true_iff, !Z.leb_le in *. lia. }
  assert (run_wf p run) as [Hwf Hev].
  { eapply run_ticks_wf; [exact Hfit|exact Hsafe| | | |exact Hrun].
    - destruct fixes; [by repeat constructor|]. unfold ticks_of. by apply Forall_fmap.
    - split; [|done]. by apply tick_with_fix_wf.
    - destruct Ha as [|[-> Hm]]; [by left|]. right. split; [cbn; lia|exact Hm]. }
  eexists. split; [reflexivity|]. cbn [p_tickState p_refresh p_refreshToken p_startPackage].
  split_and!; try done; [by apply durable_wf|]. intros Hm.
  apply (schema_next s _ nowMs); try done.
  - apply ledgerSchema_spec in Hled as [Hsp He]. apply ledgerSchema_spec. cbn.
    rewrite !gather_app. destruct (announcements_spec s p (run_events run)) as (A1 & _).
    destruct (walk_announcement_spec s p _ _ Hw) as (W1 & _).
    split; apply append_ledger_wf; [done| |done|].
    + apply Forall_app. split; [apply announced_cues_ok|]. unfold gather. cbn. rewrite app_nil_r. by eapply walk_cue_ok.
    + rewrite A1. unfold gather. cbn. rewrite W1, app_nil_r. apply Forall_fmap, Forall_forall.
      intros e [Hin _]%list_elem_of_In%List.filter_In. apply list_elem_of_In in Hin. by apply (proj1 (Forall_forall _ _) Hev).
  - cbn. destruct (t_lastAcceptedFix (run_state run)) eqn:E; [|done]. pose proof (wf_fix _ _ Hwf) as H'. by rewrite E in H'.
  - cbn [batch_result tbo_mutation mut_session set_payload payload payloadSchema] in *.
    unfold transitPayloadSchema in *. cbn [p_startPackage p_navigationDataRevision p_tickState p_refreshToken
      p_refresh p_scheduledAlerts] in *. rewrite !andb_true_iff in Hpay |- *.
    assert (transitTickStateSchema (durable (run_state run)) = true) as ->; [|tauto].
    eapply wf_schema; [by apply durable_wf|exact Hm|]. apply Hfit.
Qed.
End facts.
