(* ===== verification/TransitProcessor.v ===== *)
(** * The transit processor

    apps/mobile/src/navigation/transit/TransitNavigationProcessor.ts: what the
    coordinator asks of a journey: its first session, a batch of positions with the
    live data it is due, a rider's action, a walk found again, another journey. *)

From S2P Require Import Prelude Text Doubles Protocol Cues RouteMatcher Session Snapshot Itinerary StopAreas Captures StopCursor Database Repository Refresh Location Processor Guidance TransitEngine TransitEngineFacts TransitSession Engine TransitWalk TransitCue TransitBatch.
(** ** Writes to the payload *)

Definition with_refresh (r : RefreshRuntime) (p : TransitPayload) : TransitPayload :=
  {| p_startPackage := p_startPackage p; p_navigationDataRevision := p_navigationDataRevision p;
     p_tickState := p_tickState p; p_progress := p_progress p; p_confidence := p_confidence p;
     p_refreshToken := p_refreshToken p; p_refresh := r; p_scheduledAlerts := p_scheduledAlerts p |}.

Definition without_token (p : TransitPayload) : TransitPayload :=
  {| p_startPackage := p_startPackage p; p_navigationDataRevision := p_navigationDataRevision p;
     p_tickState := p_tickState p; p_progress := p_progress p; p_confidence := p_confidence p;
     p_refreshToken := None; p_refresh := p_refresh p; p_scheduledAlerts := p_scheduledAlerts p |}.

Definition package_with_itinerary (i : Itinerary) (p : TransitNavigationStartPackage)
    : TransitNavigationStartPackage :=
  {| tp_itinerary := i; tp_captures := tp_captures p; tp_stopAreas := tp_stopAreas p;
     tp_replanOptions := tp_replanOptions p; tp_locale := tp_locale p; tp_units := tp_units p;
     tp_settings := tp_settings p; tp_itineraryFingerprint := tp_itineraryFingerprint p |}.

(** ** Refreshing *)

(** [captures.some((c) => c.legIndex >= tickState.currentLegIndex)] *)
Definition hasJourneys (p : TransitPayload) : bool :=
  existsb (fun c => t_currentLegIndex (p_tickState p) <=? tc_legIndex c) (tp_captures (p_startPackage p)).

Definition refresh_request_id (sid : string) (generation : Z) : string :=
  (sid ++ ":refresh:" ++ show_Z generation)%string.

(** Without a token there is no ambiguity to remember, and a journey that still has
    captures to poll is never broken. *)
Definition tokenless_refresh (p : TransitPayload) : RefreshRuntime :=
  let refresh := forget_ambiguity (p_refresh p) in
  if bool_decide (rf_status refresh = RfBroken) && hasJourneys p
  then {| rf_status := RfReady; rf_generation := rf_generation refresh;
          rf_requestId := rf_requestId refresh; rf_nextAttemptAtMs := rf_nextAttemptAtMs refresh;
          rf_attempts := 0; rf_firstAttemptAtMs := None; rf_ambiguousAttempts := None |}
  else refresh.

(** A reply that is overdue counts as ambiguous. *)
Definition expire_request (hasToken : bool) (nowMs : Z) (refresh : RefreshRuntime) : RefreshRuntime :=
  if bool_decide (rf_status refresh = RfInFlight)
     && match rf_nextAttemptAtMs refresh with Some t => t <=? nowMs | None => false end
  then onRefreshFailed refresh FailAmbiguous nowMs hasToken else refresh.

(** The payload of a batch with the refresh decision taken, and the request it sends. *)
Definition refresh_turn (sid : string) (net : Connectivity) (st : SessionStatus) (arrived : bool)
    (nowMs : Z) (p : TransitPayload) : TransitPayload * list SessionEffect :=
  let hasToken := has_text (p_refreshToken p) in
  let refresh := expire_request hasToken nowMs (if hasToken then p_refresh p else tokenless_refresh p) in
  match shouldRefresh refresh (hasToken || hasJourneys p) net st nowMs with
  | Some refusal =>
      match refusal with
      | NoBroken => if hasToken then (with_refresh (onRefreshSucceeded refresh nowMs) (without_token p), [])
                    else (with_refresh refresh p, [])
      | _ => (with_refresh refresh p, [])
      end
  | None =>
      if arrived then (with_refresh refresh p, [])
      else let requestId := refresh_request_id sid (rf_generation refresh + 1) in
           (with_refresh (onRefreshRequested refresh requestId nowMs) p, [RequestTransitRefresh requestId])
  end.

(** ** The operations *)

(** A session of the other mode never reaches the processor. *)
Definition of_journey {A} (s : MobileNavigationSession) (f : TransitPayload -> outcome A) : outcome A :=
  match payload s with TransitSession p => f p | GroundSession _ => Throw "kind" end.

(** The answer, without the cache that is left. *)
Definition answer {A B} (o : outcome (A * B)) : outcome A := r ← o; Ok r.1.

Definition replaced_journey (p : TransitNavigationStartPackage) (generation nowMs : Z) : TransitPayload :=
  fresh_journey p (generation + 1) nowMs.

Definition applyTransitReplacement (s : MobileNavigationSession) (p : TransitPayload)
    (startPackage : TransitNavigationStartPackage) (nowMs : Z) : RepositoryMutation :=
  {| mut_session := set_payload
       (TransitSession (replaced_journey startPackage (rf_generation (p_refresh p)) nowMs))
       (set_lastAcceptedFix None (advance nowMs s));
     mut_effects := [CancelSessionAlerts (sessionId s); ReconcileAlerts (sessionId s); PublishSnapshot true];
     mut_enqueue := []; mut_alerts := None |}.

(** The tick state of a walk that was found again. *)
Definition repaired_walk (route : Route) (t : TransitTickState) : TransitTickState :=
  Build_TransitTickState (t_currentLegIndex t) 0 (Some (default 0 (t_walkRevision t) + 1)) (t_phase t)
    (t_lastAcceptedFix t) (t_lastProgressAtMs t) (t_legEnteredAtMs t) (t_stopCursor t)
    (t_alongMeters t) (t_stopTracking t) (Some false)
    (match route_steps route with
     | step :: _ => match json_field "distance" step with Some (JNum x) => Some x | _ => None end
     | [] => None
     end)
    (t_progressConfidence t) (Some false) (t_lastActionId t) (t_lastAction t)
    (t_spokenCueIds t) (t_emittedEventIds t).

Section processor.
Context `{MathFunctions} `{Turf} `{DateParser} `{RouteReceipts} `{Catalogue} `{Intl}.

(** [processFixes]: the mutation and the cache it leaves. *)
Definition transit_processFixes (c : TransitItineraryCache) (s : MobileNavigationSession)
    (p : TransitPayload) (fixes : list FixInput) (nowMs : Z)
    : outcome (RepositoryMutation * TransitItineraryCache) :=
  '(out, c) ← processTransitBatch c s p fixes nowMs None;
  let m := tbo_mutation out in
  let next := mut_session m in
  match payload next with
  | GroundSession _ => Ok (m, c)
  | TransitSession q =>
      let turn := refresh_turn (sessionId next) (connectivity next) (status next) (tbo_arrived out) nowMs q in
      Ok ({| mut_session := set_payload (TransitSession turn.1) next;
             mut_effects := mut_effects m ++ turn.2; mut_enqueue := mut_enqueue m;
             mut_alerts := mut_alerts m |}, c)
  end.

Definition transit_action (c : TransitItineraryCache) (s : MobileNavigationSession)
    (p : TransitPayload) (action : TransitRiderAction) (nowMs : Z)
    : outcome ((RepositoryMutation + string) * TransitItineraryCache) :=
  '(out, c) ← processTransitBatch c s p [] nowMs (Some action);
  if tbo_actionRejected out then Ok (inr "invalid-action", c)
  else let m := tbo_mutation out in
       Ok (inl {| mut_session := mut_session m;
                  mut_effects := mut_effects m ++ [ReconcileAlerts (sessionId s)];
                  mut_enqueue := mut_enqueue m; mut_alerts := mut_alerts m |}, c).

(** [repairTransitWalk] of the processor. *)
Definition repair_walk (s : MobileNavigationSession) (p : TransitPayload) (legIndex : Z) (route : Route)
    (nowMs : Z) : outcome (RepositoryMutation + string) :=
  let t := p_tickState p in
  if negb (t_currentLegIndex t =? legIndex) || negb (bool_decide (t_phase t = PhaseWalking))
  then Ok (inr "invalid-state")
  else
    repaired ← Itinerary.repairTransitWalk (tp_itinerary (p_startPackage p)) legIndex route;
    match repaired with
    | None => Ok (inr "invalid-route")
    | Some itinerary =>
        prepared ← prepareTransitProgress itinerary;
        progress ← transitProgressFromTick (tick_with_fix (repaired_walk route t) (lastAcceptedFix s)) prepared;
        Ok (inl
          {| mut_session := set_payload
               (TransitSession
                  {| p_startPackage := package_with_itinerary itinerary (p_startPackage p);
                     p_navigationDataRevision := Some (default 0 (p_navigationDataRevision p) + 1);
                     p_tickState := repaired_walk route t;
                     p_progress := Some (progress_fields progress);
                     p_confidence := p_confidence p; p_refreshToken := p_refreshToken p;
                     p_refresh := p_refresh p; p_scheduledAlerts := p_scheduledAlerts p |})
               (advance nowMs s);
             mut_effects := [PublishSnapshot true]; mut_enqueue := []; mut_alerts := None |})
    end.

(** [replace]: the cache is emptied only for a package that is accepted. *)
Definition transit_replace (c : TransitItineraryCache) (s : MobileNavigationSession) (p : TransitPayload)
    (replacement : Unvalidated) (nowMs : Z)
    : outcome ((RepositoryMutation + string) * TransitItineraryCache) :=
  if negb (bool_decide (status s = Active)) && negb (bool_decide (status s = Preparing))
  then Ok (inr "not-active", c)
  else
    validated ← validateTransitStartPackage replacement;
    match validated with
    | inr code => Ok (inr code, c)
    | inl startPackage => Ok (inl (applyTransitReplacement s p startPackage nowMs), invalidated)
    end.

Definition transit_onConnectivityRestored (s : MobileNavigationSession) (p : TransitPayload) (nowMs : Z)
    : option RepositoryMutation :=
  let refresh := p_refresh p in
  if negb (bool_decide (rf_status refresh = RfStale)) then None
  else match shouldRefresh refresh (has_text (p_refreshToken p) || hasJourneys p) Online (status s) nowMs with
  | Some _ => None
  | None =>
      let requestId := refresh_request_id (sessionId s) (rf_generation refresh + 1) in
      Some {| mut_session := set_payload
                (TransitSession (with_refresh (onRefreshRequested refresh requestId nowMs) p))
                (set_connectivity Online (advance nowMs s));
              mut_effects := [RequestTransitRefresh requestId]; mut_enqueue := []; mut_alerts := None |}
  end.

(** [TransitNavigationProcessor] as the coordinator sees it, stated with an empty
    cache: a coherent one does not change a batch. *)
Definition TransitNavigationProcessor : NavigationProcessor :=
  {| proc_kind := Transit;
     needsScheduleTicks := true;
     proc_prepare := fun startPackage sid nowMs mode =>
       validated ← validateTransitStartPackage (Candidate startPackage);
       match validated with
       | inr code => Ok (inr code)
       | inl p => Ok (inl (createTransitPreparingSession p sid mode nowMs))
       end;
     processFixes := fun s fixes nowMs => of_journey s (fun p =>
       answer (transit_processFixes invalidated s p fixes nowMs));
     proc_replace := fun s replacement nowMs => of_journey s (fun p =>
       answer (transit_replace invalidated s p replacement nowMs));
     Processor.repairTransitWalk := Some (fun s legIndex route nowMs => of_journey s (fun p =>
       repair_walk s p legIndex route nowMs));
     transitAction := Some (fun s type legIndex nowMs => of_journey s (fun p =>
       answer (transit_action invalidated s p {| act_type := type; act_legIndex := legIndex |} nowMs))) |}.
End processor.

(** * What the transit processor guarantees

    Its contract with the coordinator, that its cache never shows, what a batch may
    say, that a batch leaves a session that can be read back, when it asks for live
    data, and what a replacement or a repaired walk changes. *)

Section facts.
Context `{MathFunctions} `{Turf} `{DateParser} `{RouteReceipts} `{Catalogue} `{Intl}.

(** ** The contract *)

Lemma transit_kind s : kind s = Transit -> exists p, payload s = TransitSession p.
Proof. unfold kind. destruct (payload s); [done|eauto]. Qed.

Lemma answer_ok {A B} (o : outcome (A * B)) a : answer o = Ok a -> exists b, o = Ok (a, b).
Proof. unfold answer. intros ([a' b] & -> & <-%Ok_inj)%outcome_bind_ok. by exists b. Qed.

Lemma batch_advances s p nowMs captures prepared fixes action out :
  payload s = TransitSession p ->
  batch_over s p nowMs captures prepared fixes action = Ok out -> advances s nowMs (tbo_mutation out).
Proof.
  intros Hs (run & progress & walk & _ & _ & _ & ->)%batch_over_ok.
  split; try done. unfold kind. cbn. by rewrite Hs.
Qed.

Lemma process_fixes_ok c s p fixes nowMs m c' :
  transit_processFixes c s p fixes nowMs = Ok (m, c') ->
  exists out q, processTransitBatch c s p fixes nowMs None = Ok (out, c') /\
    payload (mut_session (tbo_mutation out)) = TransitSession q /\
    let next := mut_session (tbo_mutation out) in
    let turn := refresh_turn (sessionId next) (connectivity next) (status next) (tbo_arrived out) nowMs q in
    m = {| mut_session := set_payload (TransitSession turn.1) next;
           mut_effects := mut_effects (tbo_mutation out) ++ turn.2;
           mut_enqueue := mut_enqueue (tbo_mutation out); mut_alerts := mut_alerts (tbo_mutation out) |}.
Proof.
  unfold transit_processFixes. intros ([out c1] & Hb & Hm)%outcome_bind_ok.
  pose proof Hb as (prepared & _ & (run & progress & walk & _ & _ & _ & Hout)%batch_over_ok)%process_batch_ok.
  exists out. subst out. cbn in Hm. injection Hm as <- <-. eexists. split; [exact Hb|]. by split.
Qed.

#[export] Instance transit_processor_lawful : ProcessorLaws TransitNavigationProcessor.
Proof.
  split; cbn [proc_kind proc_prepare processFixes proc_replace Processor.repairTransitWalk transitAction
              TransitNavigationProcessor].
  - intros pkg sid nowMs mode s (v & Hv & Hs)%outcome_bind_ok. destruct v; [|done].
    injection Hs as <-. by split.
  - intros s fixes nowMs m [p Hp]%transit_kind. unfold of_journey. rewrite Hp.
    intros (c' & (out & q & (prepared & _ & Hb)%process_batch_ok & _ & ->)%process_fixes_ok)%answer_ok.
    destruct (batch_advances _ _ _ _ _ _ _ _ Hp Hb). split; try done.
    cbn [mut_session]. unfold kind. cbn [payload set_payload]. by rewrite Hp.
  - intros s u nowMs m [p Hp]%transit_kind. unfold of_journey. rewrite Hp.
    intros (c' & Hr)%answer_ok. unfold transit_replace in Hr. destruct (negb _ && negb _); [done|].
    apply outcome_bind_ok in Hr as (v & _ & Hv). destruct v; [|done]. injection Hv as <- <-.
    split; try done. unfold kind. by rewrite Hp.
  - intros f s leg route nowMs m [= <-] [p Hp]%transit_kind. unfold of_journey. rewrite Hp. unfold repair_walk.
    destruct (negb _ || negb _); [done|]. intros (repaired & _ & Hr)%outcome_bind_ok.
    destruct repaired; [|done].
    apply outcome_bind_ok in Hr as (prepared & _ & (progress & _ & Hm)%outcome_bind_ok).
    injection Hm as <-. split; try done. unfold kind. by rewrite Hp.
  - intros f s type leg nowMs m [= <-] [p Hp]%transit_kind. unfold of_journey. rewrite Hp.
    intros (c' & Ha)%answer_ok. unfold transit_action in Ha.
    apply outcome_bind_ok in Ha as ([out c1] & (prepared & _ & Hb)%process_batch_ok & Ha).
    destruct (tbo_actionRejected out); [done|]. injection Ha as <- <-.
    destruct (batch_advances _ _ _ _ _ _ _ _ Hp Hb). by split.
Qed.
(** ** The prepared geometry is only a cache *)

(** What a cache holds under the key of a session is what the session would prepare. *)
Definition coherent (c : TransitItineraryCache) (sid : string) (p : TransitPayload) : Prop :=
  tic_key c = Some (cache_key sid p) ->
  exists prepared, tic_prepared c = Some prepared /\
    prepareTransitProgress (tp_itinerary (p_startPackage p)) = Ok prepared /\
    tic_captures c = tp_captures (p_startPackage p).

Lemma invalidated_coherent sid p : coherent invalidated sid p.
Proof. done. Qed.

(** What [preparedFor] answers with a coherent cache, and the cache it leaves. *)
Lemma preparedFor_coherent c sid p : coherent c sid p ->
  answer (preparedFor c sid p) = prepareTransitProgress (tp_itinerary (p_startPackage p)) /\
  forall prepared c', preparedFor c sid p = Ok (prepared, c') ->
    tic_key c' = Some (cache_key sid p) /\ tic_prepared c' = Some prepared /\
    tic_captures c' = tp_captures (p_startPackage p).
Proof.
  intros Hc. unfold preparedFor, answer.
  assert (forall o : outcome (list (option PreparedTransitLeg)),
    (r ← (prepared ← o; Ok (prepared, {| tic_key := Some (cache_key sid p); tic_prepared := Some prepared;
                        tic_captures := tp_captures (p_startPackage p) |})); Ok r.1) = o) as Hfresh
    by by intros [].
  destruct (tic_prepared c) as [prepared|] eqn:Ep.
  2:{ split; [apply Hfresh|]. intros prepared c' (q & Hq & [= <- <-]%Ok_inj)%outcome_bind_ok. done. }
  destruct (bool_decide _) eqn:Ek.
  - apply bool_decide_eq_true in Ek. destruct (Hc Ek) as (q & Hq & Hp & Hcap). simplify_eq.
    split; [by rewrite Hp|]. intros ? ? [= <- <-]. done.
  - split; [apply Hfresh|]. intros q c' (q' & Hq & [= <- <-]%Ok_inj)%outcome_bind_ok. done.
Qed.

Lemma cache_key_revision sid p q :
  tp_itineraryFingerprint (p_startPackage q) = tp_itineraryFingerprint (p_startPackage p) ->
  cache_key sid q = cache_key sid p ->
  default 0 (p_navigationDataRevision q) = default 0 (p_navigationDataRevision p).
Proof.
  unfold cache_key, show_Z. intros ->. intros E. repeat apply (inj (String.append _)) in E.
  by apply (inj pretty) in E.
Qed.

(** The answer of a batch does not depend on the cache. *)
Lemma batch_answer c s p fixes nowMs action : coherent c (sessionId s) p ->
  answer (processTransitBatch c s p fixes nowMs action) =
    prepared ← prepareTransitProgress (tp_itinerary (p_startPackage p));
    batch_over s p nowMs (tp_captures (p_startPackage p)) prepared fixes action.
Proof.
  intros Hc. destruct (preparedFor_coherent c _ p Hc) as [Ha Hk]. unfold processTransitBatch, answer in *.
  destruct (preparedFor c (sessionId s) p) as [[prepared c']|e]; cbn in Ha; rewrite <- Ha; [|done].
  destruct (Hk _ _ eq_refl) as (_ & _ & Hcap). cbn. rewrite Hcap.
  by destruct (batch_over _ _ _ _ _ _ _).
Qed.

Lemma batch_keeps_data c s p fixes nowMs action out c' q :
  processTransitBatch c s p fixes nowMs action = Ok (out, c') ->
  payload (mut_session (tbo_mutation out)) = TransitSession q ->
  p_startPackage q = p_startPackage p /\ p_navigationDataRevision q = p_navigationDataRevision p.
Proof.
  intros (prepared & _ & (run & progress & walk & _ & _ & _ & ->)%batch_over_ok)%process_batch_ok.
  by intros [= <-].
Qed.

Lemma repair_walk_ok s p leg route nowMs m : repair_walk s p leg route nowMs = Ok (inl m) ->
  exists itinerary progress,
    Itinerary.repairTransitWalk (tp_itinerary (p_startPackage p)) leg route = Ok (Some itinerary) /\
    leg = t_currentLegIndex (p_tickState p) /\ t_phase (p_tickState p) = PhaseWalking /\
    m = {| mut_session := set_payload
               (TransitSession
                  {| p_startPackage := package_with_itinerary itinerary (p_startPackage p);
                     p_navigationDataRevision := Some (default 0 (p_navigationDataRevision p) + 1);
                     p_tickState := repaired_walk route (p_tickState p);
                     p_progress := Some (progress_fields progress);
                     p_confidence := p_confidence p; p_refreshToken := p_refreshToken p;
                     p_refresh := p_refresh p; p_scheduledAlerts := p_scheduledAlerts p |})
               (advance nowMs s);
             mut_effects := [PublishSnapshot true]; mut_enqueue := []; mut_alerts := None |}.
Proof.
  unfold repair_walk. destruct (negb _ || negb _) eqn:E; [done|].
  apply orb_false_iff in E as [E1%negb_false_iff%Z.eqb_eq E2%negb_false_iff%bool_decide_eq_true].
  intros (repaired & Hrep & Hr)%outcome_bind_ok. destruct repaired as [itinerary|]; [|done].
  apply outcome_bind_ok in Hr as (prepared & _ & (progress & _ & Hm)%outcome_bind_ok).
  injection Hm as <-. by exists itinerary, progress.
Qed.

(** C27: The prepared geometry is only a cache: whatever it holds for the session, a batch
    answers what it would answer with an empty cache; what it leaves fits the session
    after the batch, and never serves the old geometry to the session after a walk
    was repaired or after any other change that counts the data's revision up. *)
Theorem transit_cache_is_invisible c s p fixes nowMs action :
  coherent c (sessionId s) p ->
  answer (processTransitBatch c s p fixes nowMs action)
    = answer (processTransitBatch invalidated s p fixes nowMs action) /\
  forall out c', processTransitBatch c s p fixes nowMs action = Ok (out, c') ->
    (forall q, payload (mut_session (tbo_mutation out)) = TransitSession q -> coherent c' (sessionId s) q) /\
    (forall q, tp_itineraryFingerprint (p_startPackage q) = tp_itineraryFingerprint (p_startPackage p) ->
       default 0 (p_navigationDataRevision q) <> default 0 (p_navigationDataRevision p) ->
       coherent c' (sessionId s) q) /\
    (forall leg route nowMs' m q, repair_walk s p leg route nowMs' = Ok (inl m) ->
       payload (mut_session m) = TransitSession q -> coherent c' (sessionId s) q).
Proof.
  intros Hc. split; [by rewrite !batch_answer|]. intros out c' Hb.
  pose proof Hb as (prepared & Hp & _)%process_batch_ok.
  destruct (preparedFor_coherent c _ p Hc) as [Ha Hk]. destruct (Hk _ _ Hp) as (Hkey & Hpre & Hcap).
  assert (forall q, tp_itineraryFingerprint (p_startPackage q) = tp_itineraryFingerprint (p_startPackage p) ->
     default 0 (p_navigationDataRevision q) <> default 0 (p_navigationDataRevision p) ->
     coherent c' (sessionId s) q) as Hrev.
  { intros q Hf Hne Hq. rewrite Hkey in Hq. injection Hq as Hq. destruct Hne.
    by eapply cache_key_revision. }
  split_and!.
  - intros q Hq _. destruct (batch_keeps_data _ _ _ _ _ _ _ _ _ Hb Hq) as [-> _].
    exists prepared. split_and!; [done| |done]. rewrite <- Ha. unfold answer. by rewrite Hp.
  - exact Hrev.
  - intros leg route nowMs' m q (itinerary & progress & _ & _ & _ & ->)%repair_walk_ok [= <-].
    apply Hrev; [done|]. cbn. lia.
Qed.
End facts.

(** ** When live data is asked for *)

Lemma shouldRefresh_none runtime hasToken net st nowMs : shouldRefresh runtime hasToken net st nowMs = None ->
  (st = Active \/ st = Preparing) /\ hasToken = true /\ rf_status runtime <> RfInFlight /\
  rf_status runtime <> RfBroken /\ net <> Offline /\
  match rf_nextAttemptAtMs runtime with Some t => t <= nowMs | None => True end.
Proof.
  unfold shouldRefresh. destruct (_ && _) eqn:Es; [done|]. destruct hasToken; [|done]. cbn [negb].
  destruct (decide _); [done|]. destruct (match rf_firstAttemptAtMs runtime with Some _ => _ | None => _ end); [done|].
  destruct (decide _); [done|]. destruct (decide _); [done|].
  destruct (match rf_nextAttemptAtMs runtime with Some _ => _ | None => _ end) eqn:En; [done|]. intros _.
  split_and!; try done.
  - apply andb_false_iff in Es as [Es%negb_false_iff%bool_decide_eq_true|Es%negb_false_iff%bool_decide_eq_true]; auto.
  - destruct (rf_nextAttemptAtMs runtime); [by apply Z.ltb_ge in En|done].
Qed.

Lemma shouldRefresh_broken runtime net st nowMs :
  (st = Active \/ st = Preparing) -> rf_status runtime = RfBroken ->
  shouldRefresh runtime true net st nowMs = Some NoBroken.
Proof.
  intros Hst Hb. unfold shouldRefresh. assert (negb (bool_decide (st = Active)) && negb (bool_decide (st = Preparing)) = false) as ->.
  { destruct Hst as [-> | ->]; by vm_compute. }
  cbn [negb]. rewrite Hb. rewrite decide_False by done. destruct (match rf_firstAttemptAtMs runtime with Some _ => _ | None => _ end); [done|].
  by rewrite decide_True.
Qed.

(** The runtime a turn decides about. *)
Definition turn_runtime (nowMs : Z) (p : TransitPayload) : RefreshRuntime :=
  expire_request (has_text (p_refreshToken p)) nowMs
    (if has_text (p_refreshToken p) then p_refresh p else tokenless_refresh p).

Lemma turn_runtime_generation nowMs p : rf_generation (turn_runtime nowMs p) = rf_generation (p_refresh p).
Proof.
  unfold turn_runtime, expire_request, tokenless_refresh, onRefreshFailed, onRefreshUnreachable, forget_ambiguity.
  destruct (has_text _); cbn [negb]; repeat case_match; done.
Qed.

(** A journey without a token whose captures can be polled is never broken. *)
Lemma turn_runtime_broken nowMs p : rf_status (turn_runtime nowMs p) = RfBroken ->
  has_text (p_refreshToken p) = false -> hasJourneys p = false.
Proof.
  intros Hb Ht. destruct (hasJourneys p) eqn:Ej; [|done]. exfalso. revert Hb.
  unfold turn_runtime. rewrite Ht. unfold expire_request, onRefreshFailed. cbn [negb].
  assert (rf_status (tokenless_refresh p) <> RfBroken) as Hnb.
  { unfold tokenless_refresh. rewrite Ej, andb_true_r. by case_bool_decide. }
  destruct (_ && _); [|done]. unfold onRefreshUnreachable. cbn [rf_status]. by case_match.
Qed.

(** C39: A turn asks for live data at most once, and only when nothing is on its way: the
    request it sends is then the only one whose reply will be taken, under a new
    generation.  A live journey that has a token, or captures still to poll, is not
    left broken: an exhausted token is given up and its captures go on being polled. *)
Theorem a_refresh_turn_asks_at_most_once sid net st arrived nowMs p :
  let turn := refresh_turn sid net st arrived nowMs p in
  let generation := rf_generation (p_refresh p) + 1 in
  let requestId := refresh_request_id sid generation in
  (turn.2 = [] /\ rf_generation (p_refresh turn.1) = rf_generation (p_refresh p) \/
   turn.2 = [RequestTransitRefresh requestId] /\ arrived = false /\ net <> Offline /\
   (st = Active \/ st = Preparing) /\
   (rf_status (p_refresh p) = RfInFlight ->
      exists deadline, rf_nextAttemptAtMs (p_refresh p) = Some deadline /\ deadline <= nowMs) /\
   rf_status (p_refresh turn.1) = RfInFlight /\
   forall g id, isCurrentGeneration (p_refresh turn.1) g id = true <-> g = generation /\ id = requestId) /\
  ((st = Active \/ st = Preparing) -> rf_status (p_refresh turn.1) = RfBroken ->
     has_text (p_refreshToken p) = false /\ hasJourneys p = false).
Proof.
  cbv zeta. pose proof (turn_runtime_generation nowMs p) as Hg. pose proof (turn_runtime_broken nowMs p) as Hb.
  unfold refresh_turn. fold (turn_runtime nowMs p). set (r := turn_runtime nowMs p) in *.
  destruct (shouldRefresh r _ net st nowMs) as [refusal|] eqn:Er.
  - set (kept := match refusal with NoBroken => _ | _ => (with_refresh r p, []) end).
    assert (kept = (with_refresh r p, []) /\ (refusal = NoBroken -> has_text (p_refreshToken p) = false) \/
            kept = (with_refresh (onRefreshSucceeded r nowMs) (without_token p), [])) as [[-> Hk]| ->].
    { subst kept. destruct refusal; try (by left).
      destruct (has_text (p_refreshToken p)); [by right|by left]. }
    + cbn. split; [left; by split|]. intros Hst Hbr. destruct (has_text (p_refreshToken p)) eqn:Et; [|by auto].
      cbn [orb] in Er. rewrite shouldRefresh_broken in Er by done. injection Er as <-. by specialize (Hk eq_refl).
    + cbn. split; [left; by split|done].
  - apply shouldRefresh_none in Er as (Hst & Hj & Hnf & Hnb & Hnet & _).
    destruct arrived; cbn; [split; [left; by split|by intros _ ?]|]. rewrite Hg. split; [right|by intros _ ?].
    split_and!; try done.
    + intros Hin. subst r. unfold turn_runtime, expire_request in Hnf.
      assert (rf_status (if has_text (p_refreshToken p) then p_refresh p else tokenless_refresh p) = RfInFlight
        /\ rf_nextAttemptAtMs (if has_text (p_refreshToken p) then p_refresh p else tokenless_refresh p)
             = rf_nextAttemptAtMs (p_refresh p)) as [E1 E2].
      { destruct (has_text _); [done|]. unfold tokenless_refresh, forget_ambiguity. cbn [rf_status].
        rewrite Hin. by rewrite bool_decide_false. }
      rewrite (bool_decide_true _ E1), E2 in Hnf. cbn [andb] in Hnf.
      destruct (rf_nextAttemptAtMs (p_refresh p)) as [d|]; [|congruence].
      destruct (d <=? nowMs) eqn:Ed; [|congruence]. apply Z.leb_le in Ed. by exists d.
    + intros g id. unfold isCurrentGeneration. cbn. rewrite andb_true_iff, Z.eqb_eq, String.eqb_eq.
      rewrite Hg. naive_solver.
Qed.

(** ** The session stays readable *)

Lemma turn_runtime_ok nowMs p : 0 <= nowMs <= MAX_SAFE_INTEGER - 1000000 ->
  refreshSchema (p_refresh p) = true -> refreshSchema (turn_runtime nowMs p) = true.
Proof.
  intros Hn Hr. unfold turn_runtime, expire_request.
  assert (refreshSchema (if has_text (p_refreshToken p) then p_refresh p else tokenless_refresh p) = true) as Hr'.
  { destruct (has_text _); [done|]. unfold tokenless_refresh. pose proof (forget_ok _ Hr) as Hf.
    destruct (_ && _); [|done].
    apply refreshSchema_spec in Hf as (? & ? & ? & ? & ? & ?). apply refreshSchema_spec.
    repeat split; cbn [rf_attempts rf_generation]; try done; lia. }
  destruct (_ && _); [|done]. by apply failed_ok.
Qed.

Lemma refresh_turn_ok sid net st arrived nowMs p : 0 <= nowMs <= MAX_SAFE_INTEGER - 1000000 ->
  boundedId (refresh_request_id sid (rf_generation (p_refresh p) + 1)) = true ->
  rf_generation (p_refresh p) < MAX_SAFE_INTEGER -> refreshSchema (p_refresh p) = true ->
  let turn := refresh_turn sid net st arrived nowMs p in
  refreshSchema (p_refresh turn.1) = true /\ p_startPackage turn.1 = p_startPackage p /\
  p_tickState turn.1 = p_tickState p /\ p_navigationDataRevision turn.1 = p_navigationDataRevision p /\
  p_scheduledAlerts turn.1 = p_scheduledAlerts p /\
  (p_refreshToken turn.1 = p_refreshToken p \/ p_refreshToken turn.1 = None).
Proof.
  intros Hn Hid Hg Hr. pose proof (turn_runtime_ok nowMs p Hn Hr) as Hok.
  pose proof (turn_runtime_generation nowMs p) as Hgen. cbv zeta. unfold refresh_turn.
  fold (turn_runtime nowMs p). set (r := turn_runtime nowMs p) in *.
  destruct (shouldRefresh r _ net st nowMs) as [refusal|].
  - destruct refusal; cbn; try (split_and!; auto; done). destruct (has_text _); cbn; split_and!; auto.
    by apply succeeded_ok.
  - destruct arrived; cbn; split_and!; auto. rewrite Hgen. apply requested_ok; [done|done|lia|done].
Qed.

(** What a batch over a well-formed state leaves. *)
Lemma journey_readable `{MathFunctions} `{Turf} `{DateParser} `{RouteReceipts} `{Catalogue} `{Intl}
    `{ReceiptValidators} c s p fixes nowMs m c' :
  payload s = TransitSession p -> mobileNavigationSessionSchema s = true -> fitting (p_startPackage p) ->
  coherent c (sessionId s) p ->
  tick_wf (legs_of (tp_itinerary (p_startPackage p))) (p_tickState p) ->
  revision s < MAX_SAFE_INTEGER -> startedAtMs s <= nowMs <= MAX_SAFE_INTEGER - 1000000 ->
  rf_generation (p_refresh p) < MAX_SAFE_INTEGER ->
  boundedId (refresh_request_id (sessionId s) (rf_generation (p_refresh p) + 1)) = true ->
  Forall (fun f => fixSchema f = true) fixes ->
  transit_processFixes c s p fixes nowMs = Ok (m, c') ->
  exists q, payload (mut_session m) = TransitSession q /\ p_startPackage q = p_startPackage p /\
    tick_wf (legs_of (tp_itinerary (p_startPackage q))) (p_tickState q) /\
    (measured (p_tickState q) = true -> mobileNavigationSessionSchema (mut_session m) = true).
Proof.
  intros Hp Hs Hfit Hc Ht Hr Hnow Hg Hid Hf (out & q & Hb & Hq & ->)%process_fixes_ok.
  apply process_batch_ok in Hb as (prepared & Hpre & Hb).
  destruct (preparedFor_coherent c _ p Hc) as [_ Hk]. destruct (Hk _ _ Hpre) as (_ & _ & Hcap).
  rewrite Hcap in Hb. pose proof (batch_advances _ _ _ _ _ _ _ _ Hp Hb) as [Hsid _ _ _ _ _ _].
  destruct (batch_readable s p nowMs prepared fixes None out Hp Hs Hfit Ht Hr ltac:(lia) Hf (or_introl eq_refl) Hb)
    as (q' & Hq' & Hwf & Hrf & Htok & Hpkg & Hread). rewrite Hq in Hq'. injection Hq' as <-.
  destruct (schema_parts s Hs) as (_ & _ & Hpay). rewrite Hp in Hpay. cbn [payloadSchema] in Hpay.
  assert (refreshSchema (p_refresh q) = true) as Hrq.
  { rewrite Hrf. unfold transitPayloadSchema in Hpay. rewrite !andb_true_iff in Hpay. tauto. }
  assert (0 <= nowMs) as Hn0.
  { pose proof Hs as Hs'. unfold mobileNavigationSessionSchema, baseSessionShape, safeInteger in Hs'.
    rewrite !andb_true_iff, !Z.leb_le in Hs'. lia. }
  cbv zeta. set (turn := refresh_turn _ _ _ _ _ _).
  destruct (refresh_turn_ok (sessionId (mut_session (tbo_mutation out))) (connectivity (mut_session (tbo_mutation out)))
    (status (mut_session (tbo_mutation out))) (tbo_arrived out) nowMs q ltac:(lia)) as (R1 & R2 & R3 & R4 & R5 & R6);
    [by rewrite Hrf, Hsid|by rewrite Hrf|done|]. fold turn in R1, R2, R3, R4, R5, R6.
  exists turn.1. cbn [mut_session set_payload payload]. rewrite R2, R3, Hpkg. split_and!; try done.
  intros Hm. specialize (Hread Hm). revert Hread. unfold mobileNavigationSessionSchema. rewrite Hq.
  change (baseSessionShape (set_payload (TransitSession turn.1) (mut_session (tbo_mutation out))))
    with (baseSessionShape (mut_session (tbo_mutation out))).
  change (hasCoherentLifetime (set_payload (TransitSession turn.1) (mut_session (tbo_mutation out))))
    with (hasCoherentLifetime (mut_session (tbo_mutation out))).
  cbn [payload set_payload payloadSchema]. unfold transitPayloadSchema.
  rewrite R1, R2, R3, R4, R5. rewrite !andb_true_iff. intros H'. destruct_and! H'. split_and!; try done.
  destruct R6 as [-> | ->]; done.
Qed.

(** C25: Only a distance can lose a journey.  A batch of positions the wire lets through,
    over a session the schema reads, leaves a session of the same journey on a leg of
    its itinerary, and storage can read that session back exactly when the distances
    measured in its state are finite and not negative.  This is of a package of the
    usual sizes ([fitting]: a fingerprint of 1 to 64 units, at most 513 legs of at most
    10001 steps each, captures the schema admits), of a cache that belongs to the session
    ([coherent]), with room for one more revision and one more refresh generation whose
    request id fits, at a time between the start and a thousand seconds before the last
    safe integer. *)
Theorem a_journey_stays_readable `{MathFunctions} `{Turf} `{DateParser} `{RouteReceipts} `{Catalogue} `{Intl}
    `{ReceiptValidators} c s p fixes nowMs m c' :
  payload s = TransitSession p -> mobileNavigationSessionSchema s = true -> fitting (p_startPackage p) ->
  coherent c (sessionId s) p ->
  on_itinerary (legs_of (tp_itinerary (p_startPackage p))) (p_tickState p) ->
  revision s < MAX_SAFE_INTEGER -> startedAtMs s <= nowMs <= MAX_SAFE_INTEGER - 1000000 ->
  rf_generation (p_refresh p) < MAX_SAFE_INTEGER ->
  boundedId (refresh_request_id (sessionId s) (rf_generation (p_refresh p) + 1)) = true ->
  Forall (fun f => fixSchema f = true) fixes ->
  transit_processFixes c s p fixes nowMs = Ok (m, c') ->
  exists q, payload (mut_session m) = TransitSession q /\ p_startPackage q = p_startPackage p /\
    on_itinerary (legs_of (tp_itinerary (p_startPackage q))) (p_tickState q) /\
    (mobileNavigationSessionSchema (mut_session m) = true <->
       opt_ok nonnegative (t_alongMeters (p_tickState q)) = true /\
       opt_ok nonnegative (t_distanceToNextStepMeters (p_tickState q)) = true /\
       opt_ok (fun s => opt_ok nonnegative (st_candidateAlongMeters s)) (t_stopTracking (p_tickState q)) = true).
Proof.
  intros Hp Hs Hfit Hc Hon Hr Hnow Hg Hid Hf Hm.
  assert (tick_wf (legs_of (tp_itinerary (p_startPackage p))) (p_tickState p)) as Ht.
  { destruct (schema_parts s Hs) as (_ & _ & Hpay). rewrite Hp in Hpay. cbn [payloadSchema] in Hpay.
    unfold transitPayloadSchema in Hpay. rewrite !andb_true_iff in Hpay. apply schema_wf; [apply Hpay|exact Hon]. }
  destruct (journey_readable c s p fixes nowMs m c' Hp Hs Hfit Hc Ht Hr Hnow Hg Hid Hf Hm) as (q & Hq & Hpkg & Hwf & Hread).
  exists q. split_and!; [exact Hq|exact Hpkg|by eapply wf_on_itinerary|]. split.
  - intros Hnext. destruct (schema_parts (mut_session m) Hnext) as (_ & _ & Hpay). rewrite Hq in Hpay. cbn [payloadSchema] in Hpay.
    unfold transitPayloadSchema in Hpay. rewrite !andb_true_iff in Hpay.
    assert (measured (p_tickState q) = true) as Hmeas by (apply schema_measured, Hpay).
    unfold measured in Hmeas. rewrite !andb_true_iff in Hmeas. tauto.
  - intros (Ha & Hd & Htr). apply Hread. unfold measured. by rewrite Ha, Hd, Htr.
Qed.

(** ** Another journey *)

(** A replacement is taken whole or not at all.  Taken, it is a journey that can be
    followed, begun at its start with nothing of the old one: no position, no progress,
    no alert, its own token, and a refresh generation under which no reply to a request
    of the old journey is taken; the alerts of the old journey are cancelled before new
    ones are set.  Refused, it leaves even the cache as it was. *)
Theorem a_replacement_is_a_new_journey `{MathFunctions} `{Turf} c s p u nowMs result c' :
  transit_replace c s p u nowMs = Ok (result, c') ->
  match result with
  | inr code => c' = c /\ (code = "not-active" <-> status s <> Active /\ status s <> Preparing)
  | inl m =>
      exists pkg, u = Candidate (TransitPackage pkg) /\ navigable pkg /\
        (status s = Active \/ status s = Preparing) /\ c' = invalidated /\
        let generation := rf_generation (p_refresh p) + 1 in
        payload (mut_session m) = TransitSession (fresh_journey pkg generation nowMs) /\
        lastAcceptedFix (mut_session m) = None /\ cueLedger (mut_session m) = cueLedger s /\
        mut_effects m = [CancelSessionAlerts (sessionId s); ReconcileAlerts (sessionId s); PublishSnapshot true] /\
        forall g id, g <= rf_generation (p_refresh p) ->
          isCurrentGeneration (p_refresh (fresh_journey pkg generation nowMs)) g id = false
  end.
Proof.
  unfold transit_replace. destruct (_ && _) eqn:E.
  { intros [= <- <-]. split; [done|]. apply andb_true_iff in E as [E1 E2]. rewrite negb_true_iff in E1, E2.
    apply bool_decide_eq_false in E1, E2. by split. }
  intros (v & Hv & Hr)%outcome_bind_ok.
  assert (status s = Active \/ status s = Preparing) as Hst.
  { apply andb_false_iff in E as [E|E]; apply negb_false_iff, bool_decide_eq_true in E; auto. }
  destruct v as [pkg|code]; injection Hr as <- <-.
  - apply accepted_is_navigable in Hv as [-> Hnav]. exists pkg. split_and!; try done.
    intros g id Hg. unfold isCurrentGeneration. cbn. apply andb_false_iff. left. apply Z.eqb_neq. lia.
  - split; [done|]. split; [|by intros [? ?]; destruct Hst]. intros ->.
    unfold validateTransitStartPackage in Hv. destruct u as [[g|q]|]; try discriminate Hv.
    destruct (negb (transitStartPackageSchema q)); [discriminate Hv|]. cbv zeta in Hv.
    destruct (negb (truthy _)); [discriminate Hv|].
    apply outcome_bind_ok in Hv as (ride & _ & Hv). destruct (negb ride); [discriminate Hv|].
    destruct (existsb _ _); discriminate Hv.
Qed.

(** ** The modes together *)

(** The registry of the app: both processors keep the coordinator's contract. *)
Lemma navigation_registry_lawful `{MathFunctions} `{Turf} `{DateParser} `{RouteReceipts} `{Catalogue} `{Intl} ground :
  ProcessorLaws ground ->
  lawful_registry (register ground (register TransitNavigationProcessor empty_registry)).
Proof.
  intros Hg. apply register_lawful; [done|]. apply register_lawful; [apply transit_processor_lawful|].
  apply empty_registry_lawful.
Qed.
