(* ===== verification/RideSession.v ===== *)
(** * A ride through the transit processor

    The journey of [Ride] as a session: the witnesses of the transit processor's
    properties.  Nothing here models code. *)

From S2P Require Import Prelude Text Doubles NumberText Protocol Cues RouteMatcher SampleMath Session Snapshot Itinerary Database Repository.
From S2P Require Import StopAreas Captures StopCursor Samples Refresh Processor Guidance TransitEngine TransitEngineFacts Ride TransitSession TransitCue TransitBatch TransitProcessor.

Section flat_ride.
#[local] Existing Instance flat_math | 0.
#[local] Existing Instance flat_turf | 0.
#[local] Existing Instance no_dates | 0.
#[local] Open Scope Z_scope.

Definition trip_package : TransitNavigationStartPackage :=
  {| tp_itinerary := trip; tp_captures := trip_captures; tp_stopAreas := None; tp_replanOptions := None;
     tp_locale := En; tp_units := Metric;
     tp_settings := {| transit_voiceEnabled := true; transit_keepScreenOn := false;
                       transit_alightAlertsEnabled := true |};
     tp_itineraryFingerprint := "it-1" |}.

(** The session as it starts, active. *)
Definition trip_session : MobileNavigationSession :=
  set_status Active (createTransitPreparingSession trip_package "s-1" ModeBackground 0).

Definition trip_payload : TransitPayload := fresh_journey trip_package 0 0.

Lemma trip_payload_of : payload trip_session = TransitSession trip_payload.
Proof. reflexivity. Qed.

(** What the processor makes of one position after another. *)
Fixpoint travel (c : TransitItineraryCache) (s : MobileNavigationSession) (inputs : list TickInput)
    : list (MobileNavigationSession * list SessionEffect) :=
  match inputs with
  | [] => []
  | i :: rest =>
      match payload s with
      | GroundSession _ => []
      | TransitSession p =>
          let outcome := match in_action i with
                         | Some a => match transit_action c s p a (in_nowMs i) with
                                     | Ok (inl m, c) => Some (m, c) | _ => None end
                         | None => match transit_processFixes c s p (option_list (in_fix i)) (in_nowMs i) with
                                   | Ok (m, c) => Some (m, c) | _ => None end
                         end in
          match outcome with
          | Some (m, c) => (mut_session m, mut_effects m) :: travel c (mut_session m) rest
          | None => []
          end
      end
  end.

Definition sentences (l : list (MobileNavigationSession * list SessionEffect)) : list string :=
  flat_map (fun r => flat_map (fun e => match e with Speak _ text _ => [text] | _ => [] end) r.2) l.

(** The whole ride is spoken, every event once.  The last words before the arrival come
    when the rider has already said to have got off. *)
Example the_ride_is_spoken :
  sentences (travel invalidated trip_session whole_ride) =
  ["Turn left"; "Get off at s1 and change to the 42"; "Board the 42 towards Harbour";
   "Get off at the next stop, s3"; "Get off at the next stop, s3"; "You have arrived"].
Proof. vm_compute. reflexivity. Qed.

(** A position at the stop the bus leaves from. *)
Definition at_the_stop : list FixInput := [seen_at 20 20 0].

Notation stop_batch := (processTransitBatch invalidated trip_session trip_payload at_the_stop 20000 None).

(** The change to the bus is announced once, with one sentence. *)
Lemma a_batch_announces_what_is_new_witness :
  exists out c, stop_batch = Ok (out, c) /\
    map in_eventId (mut_enqueue (tbo_mutation out)) = ["it-1:transfer:0:1"] /\
    (length (List.filter speaks (mut_effects (tbo_mutation out))) <= 2)%nat.
Proof.
  assert (match stop_batch with
          | Ok (out, _) => bool_decide (map ev_id (List.filter (is_new trip_session) (tbo_events out)) = ["it-1:transfer:0:1"])
          | Throw _ => false end = true) as Hnew by (vm_compute; reflexivity).
  destruct stop_batch as [[out c]|e] eqn:Hok; [|discriminate Hnew].
  apply bool_decide_eq_true in Hnew. exists out, c. split; [reflexivity|].
  destruct (a_batch_announces_what_is_new _ _ _ _ _ _ _ _ Hok) as (H1 & _ & _ & _ & H5).
  rewrite Hnew in H1, H5. split; [exact H1|exact H5].
Defined.

#[local] Instance no_receipts : RouteReceipts := {| contributorsForField := fun _ _ => None |}.

(** Prepared once, the geometry of the trip fits the session after the batch. *)
Lemma transit_cache_is_invisible_witness :
  coherent invalidated "s-1" trip_payload /\
  exists out c, stop_batch = Ok (out, c) /\ tic_key c = Some "s-1:it-1:0" /\
    forall q, payload (mut_session (tbo_mutation out)) = TransitSession q -> coherent c "s-1" q.
Proof.
  split; [apply invalidated_coherent|].
  assert (match stop_batch with Ok (_, c) => bool_decide (tic_key c = Some "s-1:it-1:0") | Throw _ => false end = true)
    as Hkey by (vm_compute; reflexivity).
  destruct stop_batch as [[out c]|e] eqn:Hok; [|discriminate Hkey].
  apply bool_decide_eq_true in Hkey. exists out, c. split; [reflexivity|]. split; [exact Hkey|].
  destruct (transit_cache_is_invisible invalidated trip_session trip_payload at_the_stop 20000 None
              (invalidated_coherent _ _)) as [_ H2].
  destruct (H2 _ _ Hok) as [H3 _]. exact H3.
Defined.

Lemma trip_fits : fitting trip_package.
Proof.
  split; [cbn; lia|vm_compute; discriminate| |vm_compute; reflexivity].
  intros i leg (_ & Hl)%leg_at_lookup. change (legs_of trip) with [walk_to_stop; bus; walk_home] in Hl.
  destruct (Z.to_nat i) as [|[|[|n]]]; simplify_eq/=; vm_compute; discriminate.
Qed.

Notation first_turn := (transit_processFixes invalidated trip_session trip_payload at_the_stop 20000).

(** The session the change to the bus leaves can be stored and read back. *)
Lemma a_journey_stays_readable_witness :
  mobileNavigationSessionSchema trip_session = true /\
  exists m c q, first_turn = Ok (m, c) /\ payload (mut_session m) = TransitSession q /\
    measured (p_tickState q) = true /\ mobileNavigationSessionSchema (mut_session m) = true.
Proof.
  assert (mobileNavigationSessionSchema trip_session = true) as Hs by (vm_compute; reflexivity).
  split; [exact Hs|].
  assert (match first_turn with
          | Ok (m, _) => match payload (mut_session m) with
                         | TransitSession q => measured (p_tickState q) | GroundSession _ => false end
          | Throw _ => false end = true) as Hm by (vm_compute; reflexivity).
  destruct first_turn as [[m c]|e] eqn:Hok; [|discriminate Hm].
  destruct (a_journey_stays_readable invalidated trip_session trip_payload at_the_stop 20000 m c) as (q & Hq & _ & _ & Hr).
  - apply trip_payload_of.
  - exact Hs.
  - apply trip_fits.
  - apply invalidated_coherent.
  - apply wf_on_itinerary, fresh_tick_wf; [cbn; lia|reflexivity].
  - reflexivity.
  - cbn. unfold MAX_SAFE_INTEGER. lia.
  - reflexivity.
  - vm_compute. reflexivity.
  - repeat constructor.
  - exact Hok.
  - exists m, c, q. rewrite Hq in Hm. split; [reflexivity|]. split; [exact Hq|]. split; [exact Hm|].
    apply Hr. unfold measured in Hm. apply andb_true_iff in Hm as [Hm Htr]. apply andb_true_iff in Hm as [Ha Hd].
    exact (conj Ha (conj Hd Htr)).
Defined.

(** The same trip with a step of the first walk that does not say how long it is. *)
Definition vague_walk : json :=
  JObj [("mode", JStr "walking"); ("from", place None (at_ 0 0)); ("to", place (Some "s1") (at_ 20 0));
        ("geometry", line_json [at_ 0 0; at_ 10 0; at_ 20 0]); ("steps", JArr [JObj [("instruction", JStr "LEFT")]; meters 111])].

Definition vague_package : TransitNavigationStartPackage :=
  {| tp_itinerary := [("legs", JArr [vague_walk; bus; walk_home])]; tp_captures := trip_captures; tp_stopAreas := None;
     tp_replanOptions := None; tp_locale := En; tp_units := Metric; tp_settings := tp_settings trip_package;
     tp_itineraryFingerprint := "it-1" |}.

Definition vague_session : MobileNavigationSession :=
  set_status Active (createTransitPreparingSession vague_package "s-1" ModeBackground 0).

(** The wire lets the trip through and a session of it can be stored; the first position
    along the walk leaves one that cannot be read back. *)
Lemma a_step_without_metres_loses_the_journey :
  transitStartPackageSchema vague_package = true /\ mobileNavigationSessionSchema vague_session = true /\
  exists m c, transit_processFixes invalidated vague_session (fresh_journey vague_package 0 0) [seen_at 10 10 0] 10000 = Ok (m, c) /\
    mobileNavigationSessionSchema (mut_session m) = false.
Proof.
  split; [vm_compute; reflexivity|]. split; [vm_compute; reflexivity|].
  assert (match transit_processFixes invalidated vague_session (fresh_journey vague_package 0 0) [seen_at 10 10 0] 10000 with
          | Ok (m, _) => negb (mobileNavigationSessionSchema (mut_session m)) | Throw _ => false end = true) as Hm
    by (vm_compute; reflexivity).
  destruct (transit_processFixes _ _ _ _ _) as [[m c]|e]; [|discriminate Hm]. exists m, c.
  split; [reflexivity|]. by apply negb_true_iff.
Qed.

Notation replaced :=
  (transit_replace invalidated trip_session trip_payload (Candidate (TransitPackage trip_package)) 20000).

(** The same trip again is another journey: no reply to the first one's requests counts. *)
Lemma a_replacement_is_a_new_journey_witness :
  exists m pkg, replaced = Ok (inl m, invalidated) /\ navigable pkg /\
    payload (mut_session m) = TransitSession (fresh_journey pkg 1 20000).
Proof.
  assert (match replaced with Ok (inl _, _) => true | _ => false end = true) as Hok by (vm_compute; reflexivity).
  destruct replaced as [[[m|code] c]|e] eqn:Hr; [|discriminate Hok|discriminate Hok].
  destruct (a_replacement_is_a_new_journey _ _ _ _ _ _ _ Hr) as (pkg & _ & Hnav & _ & Hc & Hp & _).
  exists m, pkg. split; [rewrite Hc; reflexivity|]. split; [exact Hnav|exact Hp].
Defined.

(** Every cue of the repository's catalogues can be said; a name of spaces cannot. *)
Lemma every_cue_can_be_said_witness :
  (exists text, formatNavigationCue (CueBoard "42" "Harbour" (Some "B")) De Metric = Ok text) /\
  ~ (exists text, formatNavigationCue (CueAlight "   ") En Metric = Ok text).
Proof.
  split; [apply every_cue_can_be_said; vm_compute; reflexivity|].
  intros Hs%every_cue_can_be_said. vm_compute in Hs. discriminate Hs.
Defined.

(** The named bus is boarded in words. *)
Lemma an_event_is_silent_only_without_a_name_witness :
  exists text, transitCueEffect trip_session trip_payload {| ev_id := "it-1:board:1"; ev_body := TBoard 1 |} =
    Some {| tce_cueId := "s-1:transit:it-1:it-1:board:1"; tce_critical := true;
            tce_effect := Speak "s-1:transit:it-1:it-1:board:1" text En |}.
Proof.
  pose proof (an_event_is_silent_only_without_a_name trip_session trip_payload
                {| ev_id := "it-1:board:1"; ev_body := TBoard 1 |}) as H1.
  cbn [ev_body ev_id] in H1.
  assert (event_intent trip_payload (TBoard 1) = Some (CueBoard "42" "Harbour" None)) as Hi by (vm_compute; reflexivity).
  rewrite Hi in H1. destruct H1 as (_ & text & Ht & He).
  assert (text = "Board the 42 towards Harbour") as ->.
  { assert (formatNavigationCue (CueBoard "42" "Harbour" None) (locale trip_session) (units trip_session)
            = Ok "Board the 42 towards Harbour") as Hf by (vm_compute; reflexivity).
    rewrite Hf in Ht. injection Ht as <-. reflexivity. }
  eexists. exact He.
Defined.
End flat_ride.
