(* ===== verification/Notifications.v ===== *)
(** * Scheduled notifications

    apps/mobile/src/notifications: the identifiers of scheduled alerts
    (notificationIds.ts), what a reconciliation changes (NotificationScheduler.ts), and
    the scheduler over the platform's notification center (ExpoNotificationScheduler.ts). *)

From S2P Require Import Prelude Text Doubles Protocol Geodesy RouteMatcher Maneuver Session Itinerary.

(** ** Identifiers *)

Inductive NotificationCategory := CatAlight | CatTransfer | CatDeparture | CatCritical.

#[export] Instance NotificationCategory_eq_dec : EqDecision NotificationCategory.
Proof. solve_decision. Defined.

Definition category_name (c : NotificationCategory) : string :=
  match c with
  | CatAlight => "alight" | CatTransfer => "transfer" | CatDeparture => "departure" | CatCritical => "critical"
  end.

Definition MAX_NOTIFICATION_ID_LENGTH : nat := 48.

(** [s.padStart(n, "0")] *)
Fixpoint repeat_zero (n : nat) : string :=
  match n with O => EmptyString | S n => String (Ascii.ascii_of_nat 48) (repeat_zero n) end.

Definition padStart (n : nat) (s : string) : string := (repeat_zero (n - String.length s) ++ s)%string.

(** [fnv1a(input, seed)]: the hash as seven base-36 digits. *)
Definition fnv1a_text (input : string) (seed : Z) : string := padStart 7 (toString36 (fnv1a seed input)).

Definition digest (input : string) : string :=
  (fnv1a_text input 2166136261 ++ fnv1a_text input 2654435769)%string.

Definition NUL : string := String Ascii.zero EmptyString.

Definition notificationIdFor (sessionId : string) (category : NotificationCategory) (eventKey : string)
    : outcome string :=
  if String.eqb sessionId "" || String.eqb eventKey "" then Throw "notification id needs a session and an event key"
  else Ok (slice0 MAX_NOTIFICATION_ID_LENGTH
             ("omx-" ++ category_name category ++ "-"
              ++ digest (sessionId ++ NUL ++ category_name category ++ NUL ++ eventKey))%string).

(** [[0-9a-z]] *)
Definition is_base36 (c : Ascii.ascii) : bool :=
  let n := N.to_nat (Ascii.N_of_ascii c) in ((48 <=? n) && (n <=? 57) || (97 <=? n) && (n <=? 122))%nat.

Fixpoint all_base36 (s : string) : bool :=
  match s with EmptyString => true | String c r => is_base36 c && all_base36 r end.

(** [NOTIFICATION_ID_PATTERN.test(value)] *)
Definition isOpenMapXNotificationId (value : string) : bool :=
  existsb (fun c => match strip_prefix ("omx-" ++ category_name c ++ "-") value with
                    | Some rest => (String.length rest =? 14)%nat && all_base36 rest
                    | None => false
                    end) [CatAlight; CatTransfer; CatDeparture; CatCritical].

(** ** The plan of a reconciliation *)

Record ScheduledNotification := {
  sn_id : string;
  sn_category : NotificationCategory;
  sn_triggerAtMs : Z;
  sn_title : string;
  sn_body : string;
}.

Record ReconcilePlan := {
  toSchedule : list ScheduledNotification;
  toCancel : list string;
  orphans : list string;
}.

Definition planReconciliation (desired : list ScheduledNotification) (pending : list string)
    (isOurs : string -> bool) : ReconcilePlan :=
  let ours := List.filter isOurs pending in
  let cancelled := List.filter (fun id => negb (includes id (map sn_id desired))) ours in
  {| toSchedule := List.filter (fun r => negb (includes (sn_id r) pending)) desired;
     toCancel := cancelled; orphans := cancelled |}.

(** ** The notification center *)

(** What expo-notifications is asked: the identifiers it holds, the channel Android
    files alerts in, a request under an identifier (one that may interrupt, or not),
    and its withdrawal; a call that rejects may have changed anything. *)
Class NotificationCenter := {
  Center : Type;
  is_android : bool;
  held_ids : Center -> list string;
  setNotificationChannel : Center -> outcome unit * Center;
  scheduleNotification : bool -> ScheduledNotification -> Center -> outcome unit * Center;
  cancelScheduledNotification : string -> Center -> outcome unit * Center;
}.

(** What the center shows under an identifier: the request, if it holds one.  A
    channel holds no request; a request is shown under its identifier, in place of
    an older one, beside all others; a withdrawn one is gone, and no other. *)
Class CenterLaws `{NotificationCenter} := {
  request_of : Center -> string -> option ScheduledNotification;
  held_is_shown : forall c id, id ∈ held_ids c <-> is_Some (request_of c id);
  channel_is_empty : forall c c', setNotificationChannel c = (Ok tt, c') ->
    forall id, request_of c' id = request_of c id;
  schedule_holds : forall interruption r c c', scheduleNotification interruption r c = (Ok tt, c') ->
    forall id, request_of c' id = if decide (id = sn_id r) then Some r else request_of c id;
  cancel_withdraws : forall i c c', cancelScheduledNotification i c = (Ok tt, c') ->
    forall id, request_of c' id = if decide (id = i) then None else request_of c id;
}.

(** The scheduler over the center it asks. *)
Record ExpoNotificationScheduler `{NotificationCenter} := {
  sch_prepared : bool;
  sch_center : Center;
}.

Record ReconcileResult := {
  rr_scheduled : Z;
  rr_cancelled : Z;
  rr_orphans : Z;
}.

Definition is_critical (c : NotificationCategory) : bool :=
  match c with CatCritical => true | _ => false end.

Section scheduler.
Context `{NotificationCenter}.

Definition held (s : ExpoNotificationScheduler) : list string := held_ids (sch_center s).

Definition ask_center {A} (m : M Center A) : M ExpoNotificationScheduler A := fun s =>
  let (o, c) := m (sch_center s) in (o, {| sch_prepared := sch_prepared s; sch_center := c |}).

Definition prepare_scheduler : M ExpoNotificationScheduler unit :=
  ready ← gets sch_prepared;
  _ ← (if ready || negb is_android then mret tt else ask_center setNotificationChannel);
  modify (fun s => {| sch_prepared := true; sch_center := sch_center s |}).

Definition schedule (request : ScheduledNotification) (interruption : bool) : M ExpoNotificationScheduler unit :=
  _ ← prepare_scheduler;
  ask_center (scheduleNotification interruption request).

Definition scheduleAlight (request : ScheduledNotification) : M ExpoNotificationScheduler unit :=
  schedule request false.

Definition scheduleCriticalInterruption (request : ScheduledNotification) : M ExpoNotificationScheduler unit :=
  schedule request true.

Definition cancel (id : string) : M ExpoNotificationScheduler unit := ask_center (cancelScheduledNotification id).

(** [cancelSession(ids)] *)
Definition cancelSession (ids : list string) : M ExpoNotificationScheduler unit := for_each ids cancel.

Definition pending : M ExpoNotificationScheduler (list string) := gets held.

Definition reconcile (records : list ScheduledNotification) : M ExpoNotificationScheduler ReconcileResult :=
  now_held ← pending;
  let plan := planReconciliation records now_held isOpenMapXNotificationId in
  _ ← for_each (toCancel plan) cancel;
  _ ← for_each (toSchedule plan) (fun r => schedule r (is_critical (sn_category r)));
  mret {| rr_scheduled := Z.of_nat (length (toSchedule plan));
          rr_cancelled := Z.of_nat (length (toCancel plan));
          rr_orphans := Z.of_nat (length (orphans plan)) |}.
End scheduler.

(** ** Facts: identifiers *)

Lemma all_base36_app s t : all_base36 (s ++ t) = all_base36 s && all_base36 t.
Proof.
  induction s as [|c s IH]; [done|].
  change (is_base36 c && all_base36 (s ++ t) = (is_base36 c && all_base36 s) && all_base36 t).
  by rewrite IH, andb_assoc.
Qed.

Lemma digit36_spec d : 0 <= d < 36 -> all_base36 (digit36 d) = true /\ String.length (digit36 d) = 1%nat.
Proof.
  intros Hd. assert (forallb (fun k => all_base36 (digit36 (Z.of_nat k))
    && (String.length (digit36 (Z.of_nat k)) =? 1)%nat) (seq 0 36) = true) as Hall by by vm_compute.
  rewrite forallb_forall in Hall. specialize (Hall (Z.to_nat d) ltac:(apply in_seq; lia)).
  rewrite Z2Nat.id in Hall by lia. apply andb_true_iff in Hall as [H1 H2%Nat.eqb_eq]. done.
Qed.

(** The digits of a number below [36 ^ k] are at most [k]. *)
Lemma digits36_spec fuel k n acc : 0 <= n < 36 ^ Z.of_nat (S k) -> all_base36 acc = true ->
  all_base36 (digits36 fuel n acc) = true /\
  (String.length (digits36 fuel n acc) <= S k + String.length acc)%nat.
Proof.
  revert k n acc. induction fuel as [|fuel IH]; intros k n acc Hn Ha; cbn [digits36]; [split; [done|lia]|].
  cbv zeta. destruct (digit36_spec (n mod 36)) as [Hd Hl]; [apply Z.mod_pos_bound; lia|].
  assert (all_base36 (digit36 (n mod 36) ++ acc) = true) as Ha' by by rewrite all_base36_app, Hd, Ha.
  assert (String.length (digit36 (n mod 36) ++ acc) = S (String.length acc)) as Hl'
    by by rewrite string_length_app, Hl.
  destruct (n <? 36) eqn:E; [split; [done|lia]|]. apply Z.ltb_ge in E.
  destruct k as [|k]; [change (36 ^ Z.of_nat 1) with 36 in Hn; lia|].
  destruct (IH k (n / 36) (digit36 (n mod 36) ++ acc)%string) as [H1 H2]; [|done|].
  - rewrite Nat2Z.inj_succ, Z.pow_succ_r in Hn by lia.
    split; [apply Z.div_pos; lia|]. apply Z.div_lt_upper_bound; lia.
  - split; [done|]. rewrite Hl' in H2. lia.
Qed.

Lemma repeat_zero_spec n : all_base36 (repeat_zero n) = true /\ String.length (repeat_zero n) = n.
Proof. induction n as [|n [IH1 IH2]]; cbn; [done|]. by rewrite IH1, IH2. Qed.

Lemma fnv1a_text_spec input seed : 0 <= seed < 2 ^ 32 ->
  all_base36 (fnv1a_text input seed) = true /\ String.length (fnv1a_text input seed) = 7%nat.
Proof.
  intros Hs. pose proof (fnv1a_range seed input Hs) as Hr. unfold fnv1a_text, padStart, toString36.
  set (n := fnv1a seed input) in *.
  destruct (digits36_spec (S (Z.to_nat (Z.log2 n))) 6 n "") as [Hd Hl]; [|done|].
  { change (36 ^ Z.of_nat 7) with 78364164096. lia. }
  destruct (repeat_zero_spec (7 - String.length (digits36 (S (Z.to_nat (Z.log2 n))) n ""))) as [Hz Hzl].
  rewrite all_base36_app, Hz, Hd, string_length_app, Hzl. split; [done|]. cbn [String.length] in Hl. lia.
Qed.

Lemma slice0_short n s : (String.length s <= n)%nat -> slice0 n s = s.
Proof.
  unfold slice0. revert s. induction n as [|n IH]; intros [|c s] Hl; simpl in *; try done; [lia|].
  rewrite IH; [done|lia].
Qed.

(** Every identifier the module makes is one it recognises, of its category. *)
Lemma notification_id_spec sid category key id : notificationIdFor sid category key = Ok id ->
  isOpenMapXNotificationId id = true /\ (String.length id <= 28)%nat /\
  exists hash, id = ("omx-" ++ category_name category ++ "-" ++ hash)%string /\ String.length hash = 14%nat.
Proof.
  unfold notificationIdFor. destruct (_ || _); [done|]. intros <-%Ok_inj.
  set (text := (sid ++ NUL ++ _)%string).
  destruct (fnv1a_text_spec text 2166136261 ltac:(lia)) as [A1 L1].
  destruct (fnv1a_text_spec text 2654435769 ltac:(lia)) as [A2 L2].
  assert (all_base36 (digest text) = true /\ String.length (digest text) = 14%nat) as [Ha Hl].
  { unfold digest. by rewrite all_base36_app, A1, A2, string_length_app, L1, L2. }
  set (id := ("omx-" ++ category_name category ++ "-" ++ digest text)%string).
  assert (String.length id <= 28)%nat as Hid.
  { unfold id. rewrite !string_length_app, Hl. destruct category; cbn; lia. }
  rewrite (slice0_short MAX_NOTIFICATION_ID_LENGTH) by (unfold MAX_NOTIFICATION_ID_LENGTH; lia).
  split_and!; [|exact Hid|by exists (digest text)].
  unfold isOpenMapXNotificationId. apply existsb_exists. exists category. split; [destruct category; cbn; tauto|].
  assert (id = ("omx-" ++ category_name category ++ "-") ++ digest text)%string as ->
    by (unfold id; by destruct category).
  by rewrite strip_prefix_app, Hl, Ha.
Qed.

(** ** Facts: the plan *)

Section center.
Context `{NotificationCenter} `{!CenterLaws}.

Definition shown (s : ExpoNotificationScheduler) (id : string) : option ScheduledNotification :=
  request_of (sch_center s) id.

Lemma held_shown s id : id ∈ held s <-> is_Some (shown s id).
Proof. apply held_is_shown. Qed.

Lemma prepare_shows s s' : prepare_scheduler s = (Ok tt, s') ->
  forall id, shown s' id = shown s id.
Proof.
  unfold prepare_scheduler, mbind, M_bind, gets, modify, ask_center, shown.
  destruct (sch_prepared s || negb is_android); cbn; [by intros [= <-]|].
  destruct (setNotificationChannel (sch_center s)) as [[[]|e] c] eqn:E; [|done].
  intros [= <-]. by apply channel_is_empty.
Qed.

Lemma schedule_shows r interruption s s' : schedule r interruption s = (Ok tt, s') ->
  forall id, shown s' id = if decide (id = sn_id r) then Some r else shown s id.
Proof.
  unfold schedule, mbind, M_bind. destruct (prepare_scheduler s) as [[[]|e] s1] eqn:E1; [|done].
  unfold ask_center. destruct (scheduleNotification interruption r (sch_center s1)) as [o c] eqn:E2.
  intros [= -> <-] id. unfold shown at 1. cbn [sch_center].
  rewrite (schedule_holds _ _ _ _ E2). by rewrite <- (prepare_shows _ _ E1 id).
Qed.

Lemma for_each_cancel ids s s' : for_each ids cancel s = (Ok tt, s') ->
  forall id, shown s' id = if decide (id ∈ ids) then None else shown s id.
Proof.
  revert s. induction ids as [|i ids IH]; intros s; cbn [for_each].
  { intros [= <-] id. case_decide as Hi; [by apply elem_of_nil in Hi|done]. }
  unfold mbind, M_bind. destruct (cancel i s) as [[[]|e] s1] eqn:E; [|done].
  intros Hr id. rewrite (IH _ Hr). revert E. unfold cancel, ask_center.
  destruct (cancelScheduledNotification i (sch_center s)) as [o c] eqn:E.
  intros [= -> <-]. unfold shown at 1. cbn [sch_center]. rewrite (cancel_withdraws _ _ _ E).
  unfold shown. repeat case_decide; set_solver.
Qed.

(** The requests of a list, each in place of an older one under its identifier. *)
Definition over (l : list ScheduledNotification) (f : string -> option ScheduledNotification)
    : string -> option ScheduledNotification :=
  foldl (fun f r id => if decide (id = sn_id r) then Some r else f id) f l.

Lemma over_ext l f g : (forall id, f id = g id) -> forall id, over l f id = over l g id.
Proof.
  revert f g. induction l as [|r l IH]; intros f g Hfg id; cbn; [apply Hfg|].
  apply IH. intros x. by rewrite Hfg.
Qed.

Lemma for_each_schedule f l s s' : for_each l (fun r => schedule r (f r)) s = (Ok tt, s') ->
  forall id, shown s' id = over l (shown s) id.
Proof.
  revert s. induction l as [|r l IH]; intros s; cbn [for_each].
  { by intros [= <-] id. }
  unfold mbind, M_bind. destruct (schedule r (f r) s) as [[[]|e] s1] eqn:E; [|done].
  intros Hr id. rewrite (IH _ Hr). cbn. apply over_ext. exact (schedule_shows _ _ _ _ E).
Qed.

(** A reconciliation that resolves withdraws the app's own requests that are not
    wanted, and puts the wanted ones that were not held over the rest. *)
Lemma reconcile_shows records s n s' :
  reconcile records s = (Ok n, s') ->
  forall id, shown s' id =
    over (List.filter (fun r => negb (includes (sn_id r) (held s))) records)
      (fun id => if isOpenMapXNotificationId id && negb (includes id (map sn_id records))
                 then None else shown s id) id.
Proof.
  unfold reconcile, pending, mbind, M_bind, gets. cbv zeta.
  set (plan := planReconciliation records (held s) isOpenMapXNotificationId).
  destruct (for_each (toCancel plan) cancel s) as [[[]|e] s1] eqn:E1; [|done].
  destruct (for_each (toSchedule plan) _ s1) as [[[]|e] s2] eqn:E2; [|done].
  intros [= <- <-] id. rewrite (for_each_schedule _ _ _ _ E2).
  unfold plan at 1, planReconciliation at 1. cbn [toSchedule].
  apply over_ext. clear id. intros id. rewrite (for_each_cancel _ _ _ E1).
  assert (id ∈ toCancel plan <->
    isOpenMapXNotificationId id && negb (includes id (map sn_id records)) = true /\ id ∈ held s) as Hin.
  { unfold plan, planReconciliation. cbn [toCancel]. rewrite list_elem_of_In, !List.filter_In, andb_true_iff.
    rewrite <- list_elem_of_In. tauto. }
  destruct (shown s id) as [r|] eqn:Es.
  - assert (id ∈ held s) as Hh by (apply held_shown; by rewrite Es).
    case_decide as Hd; destruct (_ && _); [done|..|done]; exfalso; [by destruct (proj1 Hin Hd)|tauto].
  - by repeat case_match.
Qed.
End center.
