(* ===== verification/Alerts.v ===== *)
(** * The get-off alert

    apps/mobile/src/navigation/transit: which alert a journey should hold
    (AlightAlertPolicy.ts), its text (alightAlertCopy.ts), and the port that keeps the
    repository and the notification center in step with it (createAlertPort.ts). *)

From S2P Require Import Prelude Text Doubles Protocol Cues Session Snapshot Itinerary StopAreas Captures Samples Database Repository RepositoryFacts Guidance TransitEngine TransitSession Ground TransitCue TransitBatch Notifications.
Definition SCHEDULE_FALLBACK_LEAD_MS : Z := 180000.
Definition MIN_LEAD_MS : Z := 5000.

Inductive AlertBasis := BasisCaptured | BasisSchedule.

Record AlightAlert := {
  aa_notification : ScheduledNotification;
  aa_legIndex : Z;
  aa_basis : AlertBasis;
}.

Definition aa_id (a : AlightAlert) : string := sn_id (aa_notification a).
Definition aa_triggerAtMs (a : AlightAlert) : Z := sn_triggerAtMs (aa_notification a).

(** ** The text *)

Record AlightAlertCopy := {
  copy_title : string -> string;
  copy_body : string -> AlertBasis -> option string -> string;
}.

(** [[first, platform ? ... : null, last].filter(Boolean).join(" ")] *)
Definition sentences_of (first : string) (platform : option string) (last : string) : string :=
  join " " (first :: match platform with Some p => [p] | None => [] end ++ [last]).

Definition a_umlaut : string := String (Ascii.ascii_of_nat 228) EmptyString.

(** [COPY] *)
Definition alightAlertCopy (l : Locale) : AlightAlertCopy :=
  match l with
  | En => {| copy_title := fun stop => ("Get off at " ++ stop)%string;
             copy_body := fun stop _ platform =>
               sentences_of ("Your stop " ++ stop ++ " is coming up.")
                 ((fun p => "Platform " ++ p ++ ".")%string <$> platform)
                 "Time estimate; check the stops on your service." |}
  | De => {| copy_title := fun stop => ("Aussteigen: " ++ stop)%string;
             copy_body := fun stop _ platform =>
               sentences_of ("Gleich erreichst du " ++ stop ++ ".")
                 ((fun p => "Gleis " ++ p ++ ".")%string <$> platform)
                 ("Zeitsch" ++ a_umlaut ++ "tzung; beachte die Haltestellen deiner Verbindung.")%string |}
  end.

(** ** The policy *)

Section policy.
Context `{DateParser}.

(** [parseTime]: a time is a whole number of milliseconds. *)
Definition parseTime (value : option json) : option Z :=
  match value with
  | Some (JStr s) => match date_getTime (JStr s) with
                     | Fin q => Some (QArith_base.Qnum q / Zpos (QArith_base.Qden q))
                     | _ => None
                     end
  | _ => None
  end.

Definition or_else {A} (a b : option A) : option A := match a with Some _ => a | None => b end.

Definition triggerFor (p : TransitPayload) (leg : json) (legIndex : Z) : option (Z * AlertBasis) :=
  let capture := List.find (fun e => tc_legIndex e =? legIndex) (tp_captures (p_startPackage p)) in
  let captured :=
    match capture with
    | Some c =>
        if is_captured c && (2 <=? length (tc_stops c))%nat
        then penultimate ← tc_stops c !! (length (tc_stops c) - 2)%nat;
             or_else (parseTime (JStr <$> cs_expectedDeparture penultimate))
                     (parseTime (JStr <$> cs_scheduledDeparture penultimate))
        else None
    | None => None
    end in
  match captured with
  | Some atMs => Some (atMs, BasisCaptured)
  | None =>
      arrivalMs ← or_else (parseTime (json_field "endTime" leg)) (parseTime (json_field "scheduledEndTime" leg));
      Some (arrivalMs - SCHEDULE_FALLBACK_LEAD_MS, BasisSchedule)
  end.

(** The ride an alert could be for: the current leg, its stop, and when to warn. *)
Definition alert_ride (s : MobileNavigationSession) (p : TransitPayload) (nowMs : Z)
    : option (json * string * (Z * AlertBasis)) :=
  let t := p_tickState p in
  if negb (transit_alightAlertsEnabled (tp_settings (p_startPackage p))) then None
  else if negb (bool_decide (status s = Active)) && negb (bool_decide (status s = Preparing)) then None
  else if negb (bool_decide (t_phase t = Riding)) then None
  else
    leg ← session_leg p (t_currentLegIndex t);
    if is_text "walking" (json_field "mode" leg) || negb (truthy (json_field "route" leg)) then None
    else if truthy (json_field "cancelled" leg) then None
    else
      stop ← name_of (opt_field "name" (json_field "to" leg));
      trigger ← triggerFor p leg (t_currentLegIndex t);
      if trigger.1 - nowMs <? MIN_LEAD_MS then None
      else if expiresAtMs s <=? trigger.1 then None
      else Some (leg, stop, trigger).

Definition computeAlightAlert (s : MobileNavigationSession) (p : TransitPayload) (nowMs : Z)
    (copy : AlightAlertCopy) : outcome (option AlightAlert) :=
  match alert_ride s p nowMs with
  | None => Ok None
  | Some (leg, stop, (atMs, basis)) =>
      let legIndex := t_currentLegIndex (p_tickState p) in
      let platform := boundedName 64 (opt_field "platformCode" (json_field "to" leg)) in
      id ← notificationIdFor (sessionId s) CatAlight
             (tp_itineraryFingerprint (p_startPackage p) ++ ":" ++ show_Z legIndex)%string;
      Ok (Some {| aa_notification :=
                    {| sn_id := id; sn_category := CatAlight; sn_triggerAtMs := atMs;
                       sn_title := copy_title copy stop; sn_body := copy_body copy stop basis platform |};
                  aa_legIndex := legIndex; aa_basis := basis |})
  end.

(** [alertHasChanged]: the identifier and the time of what is held. *)
Definition alertHasChanged (current : option (string * Z)) (next : option AlightAlert) : bool :=
  match current, next with
  | None, None => false
  | Some (alertId, triggerAtMs), Some next =>
      if negb (String.eqb alertId (aa_id next)) then true
      else MIN_LEAD_MS <=? Z.abs (triggerAtMs - aa_triggerAtMs next)
  | _, _ => true
  end.
End policy.

(** ** The port *)

(** The [n]-th reading of the clock and of the notification permission. *)
Class AlertEnv := {
  alert_now : nat -> Z;
  alert_available : nat -> bool;
}.

Record AlertWorld `{NotificationCenter} := {
  aw_db : db;
  aw_scheduler : ExpoNotificationScheduler;
  aw_readings : nat;
}.

Definition desired_list (desired : option AlightAlert) : list ScheduledNotification :=
  match desired with Some a => [aa_notification a] | None => [] end.

Definition desired_row (desired : option AlightAlert) : list ScheduledAlertInput :=
  match desired with
  | Some a => [{| alert_alertId := aa_id a; alert_legIndex := aa_legIndex a;
                  alert_triggerAtMs := aa_triggerAtMs a |}]
  | None => []
  end.

Section port.
Context `{ReceiptValidators} `{DateParser} `{NotificationCenter} `{AlertEnv}.
Variable copy : AlightAlertCopy.

Definition in_store {A} (m : M db A) : M AlertWorld A := fun w =>
  let (o, d) := m (aw_db w) in
  (o, {| aw_db := d; aw_scheduler := aw_scheduler w; aw_readings := aw_readings w |}).

Definition in_scheduler {A} (m : M ExpoNotificationScheduler A) : M AlertWorld A := fun w =>
  let (o, c) := m (aw_scheduler w) in
  (o, {| aw_db := aw_db w; aw_scheduler := c; aw_readings := aw_readings w |}).

Definition alert_reading : M AlertWorld nat := fun w =>
  (Ok (aw_readings w), {| aw_db := aw_db w; aw_scheduler := aw_scheduler w; aw_readings := S (aw_readings w) |}).

Definition alert_clock : M AlertWorld Z := n ← alert_reading; mret (alert_now n).

(** [recorded.find((entry) => entry.state === "scheduled")] *)
Definition current_alert (recorded : list (ScheduledAlertInput * AlertState)) : option (string * Z) :=
  (fun r => (alert_alertId r.1, alert_triggerAtMs r.1)) <$>
    List.find (fun r => match r.2 with AlertStateScheduled => true | _ => false end) recorded.

(** [reconcile(sessionId)] *)
Definition reconcile_alerts (sid : string) : M AlertWorld unit :=
  now ← alert_clock;
  session ← in_store (loadActive now);
  match session with
  | None => mret tt
  | Some s =>
      if negb (String.eqb (sessionId s) sid) then mret tt
      else match payload s with
      | GroundSession _ => mret tt
      | TransitSession p =>
          n ← alert_reading;
          if negb (alert_available n) then mret tt
          else
            now ← alert_clock;
            desired ← from_outcome (computeAlightAlert s p now copy);
            recorded ← in_store (listScheduledAlerts sid);
            if negb (alertHasChanged (current_alert recorded) desired)
            then _ ← in_scheduler (reconcile (desired_list desired)); mret tt
            else
              now ← alert_clock;
              _ ← in_store (replaceScheduledAlerts sid (desired_row desired) now);
              _ ← in_scheduler (reconcile (desired_list desired));
              mret tt
      end
  end.

(** [cancelSession(sessionId)] *)
Definition cancel_session_alerts (sid : string) : M AlertWorld unit :=
  recorded ← in_store (listScheduledAlerts sid);
  _ ← in_scheduler (cancelSession (map (fun r => alert_alertId r.1) recorded));
  now ← alert_clock;
  in_store (replaceScheduledAlerts sid [] now).

(** [cancelOrphanedAlerts]: how many were cancelled. *)
Definition cancelOrphanedAlerts : M AlertWorld Z :=
  now ← alert_clock;
  active ← in_store (loadActive now);
  known ← match active with
          | Some s => in_store (listScheduledAlerts (sessionId s))
          | None => mret []
          end;
  held ← in_scheduler pending;
  let keep := map (fun r => alert_alertId r.1) known in
  let orphans := List.filter (fun id => negb (includes id keep)) held in
  _ ← (match orphans with [] => mret tt | _ => in_scheduler (cancelSession orphans) end);
  mret (Z.of_nat (length orphans)).
End port.

(** * What the get-off alert guarantees, and where it fails

    The alert is only ever for the ride in hand, and after a reconciliation it is the
    only one held; but a live update does not reach the notification center, and ending
    a session leaves its alert there. *)

Section facts.
Context `{ReceiptValidators} `{DateParser} `{NotificationCenter} `{AlertEnv}.

(** ** The policy *)

(** An alert is for the ride in hand: the rider is aboard a line, on the current leg of
    a live session that wants alerts; it warns at least five seconds ahead and before
    the session expires; its identifier is the app's own and names the leg, whatever
    the time; and it is about a short clean name of the leg's last stop. *)
Theorem an_alert_is_for_the_ride_in_hand s p nowMs copy a :
  computeAlightAlert s p nowMs copy = Ok (Some a) ->
  (status s = Active \/ status s = Preparing) /\ t_phase (p_tickState p) = Riding /\
  transit_alightAlertsEnabled (tp_settings (p_startPackage p)) = true /\
  nowMs + MIN_LEAD_MS <= aa_triggerAtMs a < expiresAtMs s /\
  aa_legIndex a = t_currentLegIndex (p_tickState p) /\
  isOpenMapXNotificationId (aa_id a) = true /\
  (forall s' p' nowMs' copy' a', computeAlightAlert s' p' nowMs' copy' = Ok (Some a') ->
     sessionId s' = sessionId s ->
     tp_itineraryFingerprint (p_startPackage p') = tp_itineraryFingerprint (p_startPackage p) ->
     aa_legIndex a' = aa_legIndex a -> aa_id a' = aa_id a) /\
  exists leg stop, session_leg p (aa_legIndex a) = Some leg /\
    truthy (json_field "route" leg) = true /\ truthy (json_field "cancelled" leg) = false /\
    name_of (opt_field "name" (json_field "to" leg)) = Some stop /\ clean_text stop /\
    sn_title (aa_notification a) = copy_title copy stop.
Proof.
  assert (forall s p nowMs copy a, computeAlightAlert s p nowMs copy = Ok (Some a) ->
    aa_legIndex a = t_currentLegIndex (p_tickState p) /\
    notificationIdFor (sessionId s) CatAlight
      (tp_itineraryFingerprint (p_startPackage p) ++ ":" ++ show_Z (aa_legIndex a))%string = Ok (aa_id a) /\
    exists leg stop, alert_ride s p nowMs = Some (leg, stop, (aa_triggerAtMs a, aa_basis a)) /\
      sn_title (aa_notification a) = copy_title copy stop) as Hparts.
  { clear. intros s p nowMs copy a. unfold computeAlightAlert.
    destruct (alert_ride s p nowMs) as [[[leg stop] [atMs basis]]|] eqn:E; [|done].
    intros (id & Hid & [= <-]%Ok_inj)%outcome_bind_ok. cbn. split_and!; [done|exact Hid|].
    by exists leg, stop. }
  intros (Hleg & Hid & leg & stop & Hr & Ht)%Hparts.
  unfold alert_ride in Hr. destruct (transit_alightAlertsEnabled _) eqn:E1; [|done]. cbn [negb] in Hr.
  destruct (_ && _) eqn:E2 in Hr; [done|]. destruct (negb (bool_decide (t_phase _ = _))) eqn:E3; [done|].
  apply bind_Some in Hr as (leg' & Hl & Hr). destruct (_ || _) eqn:E4 in Hr; [done|].
  destruct (truthy (json_field "cancelled" leg')) eqn:E5; [done|].
  apply bind_Some in Hr as (stop' & Hs & (trigger & Htr & Hr)%bind_Some).
  destruct (_ <? _) eqn:E6 in Hr; [done|]. destruct (_ <=? _) eqn:E7 in Hr; [done|].
  injection Hr as -> -> Htrig. apply Z.ltb_ge in E6. apply Z.leb_gt in E7. rewrite Htrig in E6, E7. cbn in E6, E7.
  apply orb_false_iff in E4 as [_ E4%negb_false_iff].
  apply negb_false_iff, bool_decide_eq_true in E3.
  assert (status s = Active \/ status s = Preparing) as Hstatus.
  { apply andb_false_iff in E2 as [E2%negb_false_iff%bool_decide_eq_true|E2%negb_false_iff%bool_decide_eq_true]; auto. }
  do 4 (split; [first [done|lia]|]). split; [exact Hleg|]. split; [exact (proj1 (notification_id_spec _ _ _ _ Hid))|]. split.
  - intros s' p' nowMs' copy' a' (_ & Hid' & _)%Hparts Es Ep Hsame.
    rewrite Es, Ep, Hsame, Hid in Hid'. by injection Hid'.
  - exists leg, stop. rewrite Hleg. split_and!; try done. by eapply bounded_name_clean.
Qed.

(** ** Runs of the port *)

(** The rows of a session, as the repository lists them. *)
Definition alerts_of (sid : string) (d : db) : list (ScheduledAlertInput * AlertState) :=
  map (fun r => ({| alert_alertId := al_alert_id r; alert_legIndex := al_leg_index r;
                    alert_triggerAtMs := al_trigger_at_ms r |}, al_state r))
    (order_by earlier_alert (filter (fun r => al_session_id r = sid) (scheduled_alerts d))).

Lemma list_alerts_run sid d : listScheduledAlerts sid d = (Ok (alerts_of sid d), d).
Proof. done. Qed.

Lemma replace_none_run sid nowMs d :
  replaceScheduledAlerts sid [] nowMs d =
    (Ok tt, with_alerts (filter (fun r => al_session_id r <> sid) (scheduled_alerts d)) d).
Proof. done. Qed.

(** A session that has no row under an identifier of another one gets its one row. *)
Lemma replace_one_run sid i nowMs d : 0 <= alert_legIndex i ->
  Forall (fun r => al_alert_id r = alert_alertId i -> al_session_id r = sid) (scheduled_alerts d) ->
  exists d', replaceScheduledAlerts sid [i] nowMs d = (Ok tt, d') /\
    alerts_of sid d' = [(i, AlertStateScheduled)].
Proof.
  intros Hl Ho. unfold replaceScheduledAlerts, replaceAlertsIn, transaction, mbind, M_bind. cbn [for_each].
  unfold DELETE_SESSION_ALERTS, modify, mbind, M_bind, INSERT_SCHEDULED_ALERT.
  replace (alert_legIndex i <? 0) with false by (symmetry; apply Z.ltb_ge; lia).
  set (others := filter (fun r => al_session_id r <> sid) (scheduled_alerts d)).
  eexists. split; [reflexivity|]. unfold alerts_of, upsert_alert. cbn [scheduled_alerts with_alerts al_alert_id].
  fold others. rewrite decide_False.
  - rewrite filter_app. assert (filter (fun r => al_session_id r = sid) others = []) as ->.
    { unfold others. apply elem_of_nil_inv. intros x [Hx [Hn _]%list_elem_of_filter]%list_elem_of_filter. done. }
    cbn [app]. rewrite filter_cons_True by done. cbn. by destruct i.
  - intros (r & Hid & [Hn Hr]%list_elem_of_filter)%list_elem_of_fmap.
    apply Hn, (proj1 (Forall_forall _ _) Ho); [exact Hr|by rewrite <- Hid].
Qed.

Section with_copy.
Variable copy : AlightAlertCopy.

(** What a reconciliation for a journey whose alerts are allowed runs. *)
Lemma reconcile_alerts_run w s p desired :
  let n := aw_readings w in
  loadActive (alert_now n) (aw_db w) = (Ok (Some s), aw_db w) -> payload s = TransitSession p ->
  alert_available (S n) = true -> computeAlightAlert s p (alert_now (S (S n))) copy = Ok desired ->
  reconcile_alerts copy (sessionId s) w =
    let after k := {| aw_db := aw_db w; aw_scheduler := aw_scheduler w; aw_readings := k |} in
    if negb (alertHasChanged (current_alert (alerts_of (sessionId s) (aw_db w))) desired)
    then (_ ← in_scheduler (reconcile (desired_list desired)); mret tt) (after (S (S (S n))))
    else (_ ← in_store (replaceScheduledAlerts (sessionId s) (desired_row desired) (alert_now (S (S (S n)))));
          _ ← in_scheduler (reconcile (desired_list desired)); mret tt) (after (S (S (S (S n))))).
Proof.
  cbv zeta. intros Hload Hp Hav Hd. unfold reconcile_alerts.
  unfold alert_clock, alert_reading, mbind, M_bind, mret, M_ret, in_store at 1. cbn [fst snd aw_db aw_readings aw_scheduler].
  rewrite Hload. cbn [aw_db aw_readings aw_scheduler]. rewrite String.eqb_refl. cbn [negb]. rewrite Hp.
  cbn [aw_db aw_readings aw_scheduler]. rewrite Hav. cbn [negb aw_db aw_readings aw_scheduler].
  unfold from_outcome. rewrite Hd. unfold in_store at 1. cbn [aw_db aw_readings aw_scheduler].
  rewrite list_alerts_run. cbn [aw_db aw_readings aw_scheduler].
  by destruct (alertHasChanged _ desired).
Qed.

(** What a center that showed [before] shows once the journey's alert is [desired]. *)
Definition desired_shows (before : string -> option ScheduledNotification)
    (desired : option AlightAlert) (id : string) : option ScheduledNotification :=
  let others := if isOpenMapXNotificationId id then None else before id in
  match desired with
  | Some a =>
      if decide (id = aa_id a)
      then match before id with Some pending => Some pending | None => Some (aa_notification a) end
      else others
  | None => others
  end.

Lemma desired_over `{!CenterLaws} desired c id :
  over (List.filter (fun r => negb (includes (sn_id r) (held c))) (desired_list desired))
    (fun id => if isOpenMapXNotificationId id && negb (includes id (map sn_id (desired_list desired)))
               then None else shown c id) id
  = desired_shows (shown c) desired id.
Proof.
  unfold desired_shows. destruct desired as [a|]; unfold desired_list; cbn [List.filter map];
    [|change (includes id []) with false; cbn [negb over foldl]; by rewrite andb_true_r].
  change (sn_id (aa_notification a)) with (aa_id a).
  assert (includes id [aa_id a] = bool_decide (id = aa_id a)) as Hone.
  { apply eq_true_iff_eq. rewrite includes_spec, bool_decide_eq_true. apply list_elem_of_singleton. }
  destruct (includes (aa_id a) (held c)) eqn:Eh; cbn [negb over foldl]; rewrite Hone.
  - apply includes_spec, held_shown in Eh as [r Er].
    destruct (decide (id = aa_id a)) as [Hid|Hid];
      [subst id; by rewrite bool_decide_true, andb_false_r, Er by done|].
    by rewrite (bool_decide_false _ Hid), andb_true_r.
  - change (sn_id (aa_notification a)) with (aa_id a).
    apply includes_false in Eh. rewrite held_shown in Eh. destruct (decide (id = aa_id a)) as [Hid|Hid].
    + subst id. destruct (shown c (aa_id a)); [by destruct Eh|done].
    + by rewrite (bool_decide_false _ Hid), andb_true_r.
Qed.

(** C37: After a reconciliation that resolves, the app's own requests in the
    notification center are under the one identifier of the alert the journey
    should hold, or there are none, and whatever else is there stays as it was.
    The request under that identifier is the alert, its time and its text, if the
    center held none under it before; one that was pending already is left alone,
    whatever its time and text (which is how an alarm can outlive its time). *)
Theorem one_alert_for_the_ride_in_hand `{!CenterLaws} w w' s p desired :
  let n := aw_readings w in
  loadActive (alert_now n) (aw_db w) = (Ok (Some s), aw_db w) -> payload s = TransitSession p ->
  alert_available (S n) = true -> computeAlightAlert s p (alert_now (S (S n))) copy = Ok desired ->
  reconcile_alerts copy (sessionId s) w = (Ok tt, w') ->
  forall id, shown (aw_scheduler w') id = desired_shows (shown (aw_scheduler w)) desired id.
Proof.
  intros n Hload Hp Hav Hd. subst n. rewrite (reconcile_alerts_run w s p desired Hload Hp Hav Hd).
  assert (forall w1, aw_scheduler w1 = aw_scheduler w ->
    (_ ← in_scheduler (reconcile (desired_list desired)); mret tt) w1 = (Ok tt, w') ->
    exists n, reconcile (desired_list desired) (aw_scheduler w) = (Ok n, aw_scheduler w')) as Hran.
  { intros w1 Hc. unfold mbind, M_bind, in_scheduler. rewrite Hc.
    destruct (reconcile (desired_list desired) (aw_scheduler w)) as [[m|e] c'] eqn:Er; [|done].
    intros [= <-]. by exists m. }
  assert ((exists n, reconcile (desired_list desired) (aw_scheduler w) = (Ok n, aw_scheduler w')) ->
    forall id, shown (aw_scheduler w') id = desired_shows (shown (aw_scheduler w)) desired id) as Hshows.
  { intros [m Er] id. rewrite (reconcile_shows _ _ _ _ Er). by apply desired_over. }
  cbv zeta. destruct (negb _); [intros Hr; apply Hshows; eapply Hran; [|exact Hr]; done|].
  unfold mbind at 1, M_bind at 1, in_store.
  destruct (replaceScheduledAlerts _ _ _ _) as [[[]|e] d']; [|done].
  intros Hr. apply Hshows. eapply Hran; [|exact Hr]. done.
Qed.

(** A center that holds the desired alert and no other of the app's own is left alone. *)
Lemma reconcile_nothing_to_do a c :
  sn_id a ∈ held c -> (forall id, id ∈ held c -> isOpenMapXNotificationId id = true -> id = sn_id a) ->
  exists n, reconcile [a] c = (Ok n, c).
Proof.
  intros Hin Hours. unfold reconcile, pending, mbind, M_bind, gets. cbv zeta.
  set (plan := planReconciliation _ _ _).
  assert (toSchedule plan = []) as ->.
  { cbn. by rewrite (proj2 (includes_spec _ _) Hin). }
  assert (toCancel plan = []) as ->.
  { apply elem_of_nil_inv. intros id Hid%list_elem_of_In%List.filter_In.
    destruct Hid as [[Hh Ho]%List.filter_In Hn%negb_true_iff%includes_false].
    apply Hn. cbn. apply list_elem_of_In in Hh. rewrite (Hours id Hh Ho). by left. }
  eexists. reflexivity.
Qed.

(** C38: A live update does not reach the rider's alarm.  When the time of the alert in hand
    moves, by however much, the repository records the new time, but the notification
    center already holds the identifier, so nothing is scheduled: the alarm still rings
    at the old time.  (The identifier is stable so that a new time would replace the
    alert; the plan of a reconciliation compares identifiers only.) *)
Theorem a_live_update_keeps_the_old_alarm w s p a old :
  let n := aw_readings w in
  loadActive (alert_now n) (aw_db w) = (Ok (Some s), aw_db w) -> payload s = TransitSession p ->
  alert_available (S n) = true -> computeAlightAlert s p (alert_now (S (S n))) copy = Ok (Some a) ->
  0 <= aa_legIndex a ->
  Forall (fun r => al_alert_id r = aa_id a -> al_session_id r = sessionId s) (scheduled_alerts (aw_db w)) ->
  current_alert (alerts_of (sessionId s) (aw_db w)) = Some (aa_id a, old) ->
  MIN_LEAD_MS <= Z.abs (old - aa_triggerAtMs a) ->
  aa_id a ∈ held (aw_scheduler w) ->
  (forall id, id ∈ held (aw_scheduler w) -> isOpenMapXNotificationId id = true -> id = aa_id a) ->
  exists w', reconcile_alerts copy (sessionId s) w = (Ok tt, w') /\
    aw_scheduler w' = aw_scheduler w /\
    current_alert (alerts_of (sessionId s) (aw_db w')) = Some (aa_id a, aa_triggerAtMs a) /\
    aa_triggerAtMs a <> old.
Proof.
  intros n Hload Hp Hav Hd Hl Ho Hcur Hmoved Hin Hours. subst n.
  rewrite (reconcile_alerts_run w s p (Some a) Hload Hp Hav Hd). rewrite Hcur. unfold alertHasChanged.
  rewrite String.eqb_refl. cbn [negb]. rewrite (proj2 (Z.leb_le _ _) Hmoved). cbv zeta. cbn [negb].
  destruct (replace_one_run (sessionId s) {| alert_alertId := aa_id a; alert_legIndex := aa_legIndex a;
              alert_triggerAtMs := aa_triggerAtMs a |} (alert_now (S (S (S (aw_readings w))))) (aw_db w) Hl Ho)
    as (d' & Hrep & Hrows).
  destruct (reconcile_nothing_to_do (aa_notification a) (aw_scheduler w) Hin Hours) as [k Hk].
  unfold mbind, M_bind, in_store, in_scheduler, desired_row, desired_list. cbn [aw_db aw_scheduler aw_readings].
  rewrite Hrep. cbn [aw_db aw_scheduler aw_readings]. rewrite Hk. eexists. split; [reflexivity|].
  cbn [aw_scheduler aw_db]. split_and!; [done| |unfold MIN_LEAD_MS in Hmoved; lia].
  unfold current_alert. by rewrite Hrows.
Qed.

End with_copy.

(** Ending a session leaves its alarm.  The transaction that ends a session erases its
    alert rows, and the effect that should cancel its alerts looks them up afterwards:
    it finds none, so nothing in the notification center is withdrawn. *)
Theorem ending_a_session_leaves_its_alarm sid st nowMs w r :
  active_navigation (aw_db w) = Some r -> row_session_id r = sid -> 0 <= row_revision r ->
  exists ack effects ended w',
    terminate sid st nowMs (aw_db w) = (Ok (Some ack, effects), ended) /\
    CancelSessionAlerts sid ∈ effects /\
    cancel_session_alerts sid {| aw_db := ended; aw_scheduler := aw_scheduler w; aw_readings := aw_readings w |}
      = (Ok tt, w') /\
    aw_scheduler w' = aw_scheduler w.
Proof.
  intros Ha Hs Hr. eexists _, _, _, _. split; [by apply (terminate_run sid st nowMs (aw_db w) r)|].
  split; [unfold termination_effects; set_solver|].
  match goal with |- context [upsert_ack ?a _] => set (ack0 := a) end.
  set (d' := without_session _ _).
  assert (alerts_of sid d' = []) as Hnone.
  { unfold alerts_of. assert (filter (fun r => al_session_id r = sid) (scheduled_alerts d') = []) as ->; [|done].
    destruct (without_session_erased sid (with_acks (upsert_ack ack0 (terminal_ack (aw_db w))) (aw_db w)))
      as (_ & _ & Hal & _). apply elem_of_nil_inv. intros x [Hx Hin]%list_elem_of_filter.
    by apply (proj1 (Forall_forall _ _) Hal) in Hin. }
  unfold cancel_session_alerts, mbind, M_bind, in_store at 1. cbn [aw_db aw_scheduler aw_readings].
  rewrite list_alerts_run, Hnone. cbn. split; reflexivity.
Qed.

End facts.
