(* ===== verification/RideAlerts.v ===== *)
(** * Alerts of a ride

    A rider aboard a timetabled bus, the notification center as a list of requests: the
    witnesses of the get-off alert's properties.  Nothing here models code. *)

From S2P Require Import Prelude Text Doubles Protocol Cues RouteMatcher SampleMath Session Snapshot Itinerary Samples Database Repository RepositoryFacts Notifications.
From S2P Require Import StopAreas Captures Guidance TransitEngine TransitEngineFacts Ride TransitSession Ground TransitCue RideSession Alerts.

Section flat_ride.
#[local] Open Scope Z_scope.

Definition clock_times : DateParser :=
  {| date_getTime := fun v => match v with
                              | JStr s => if String.eqb s "00:10" then num_of_Z 600000 else NaN
                              | _ => NaN
                              end |}.
#[local] Existing Instance clock_times | 0.

(** The notification center that holds what it is asked to. *)
Definition listed_center : NotificationCenter :=
  {| Center := list ScheduledNotification; is_android := true; held_ids := map sn_id;
     setNotificationChannel := fun c => (Ok tt, c);
     scheduleNotification := fun _ r c => (Ok tt, List.filter (fun x => negb (String.eqb (sn_id x) (sn_id r))) c ++ [r]);
     cancelScheduledNotification := fun id c => (Ok tt, List.filter (fun x => negb (String.eqb (sn_id x) id)) c) |}.
#[local] Existing Instance listed_center | 0.

Definition find_request (c : list ScheduledNotification) (id : string) : option ScheduledNotification :=
  List.find (fun r => String.eqb (sn_id r) id) c.

Lemma find_without i c id :
  find_request (List.filter (fun x => negb (String.eqb (sn_id x) i)) c) id =
  if decide (id = i) then None else find_request c id.
Proof.
  unfold find_request. induction c as [|r c IH]; cbn; [by case_decide|].
  destruct (String.eqb_spec (sn_id r) i) as [Ei|Ei]; cbn; rewrite IH;
    destruct (String.eqb_spec (sn_id r) id) as [Er|Er]; case_decide; congruence.
Qed.

Lemma find_snoc c r id :
  find_request (c ++ [r]) id =
  match find_request c id with Some x => Some x | None => if decide (id = sn_id r) then Some r else None end.
Proof.
  unfold find_request. induction c as [|x c IH]; cbn.
  - destruct (String.eqb_spec (sn_id r) id); case_decide; congruence.
  - by destruct (String.eqb (sn_id x) id).
Qed.

#[local] Instance listed_center_lawful : CenterLaws.
Proof.
  refine {| request_of := find_request : @Center listed_center -> _ |}.
  - intros c id. cbn. unfold find_request. induction c as [|r c IH]; cbn.
    + split; [by intros ?%elem_of_nil|by intros [? ?]].
    + rewrite elem_of_cons, IH. destruct (String.eqb_spec (sn_id r) id); naive_solver.
  - by intros c c' [= <-].
  - intros interruption r c c' [= <-] id. rewrite find_snoc, find_without.
    repeat case_decide; by try case_match.
  - intros i c c' [= <-] id. apply find_without.
Defined.

#[local] Instance steady_clock : AlertEnv :=
  {| alert_now := fun n => 60000 + Z.of_nat n; alert_available := fun _ => true |}.

Definition timed_bus : json :=
  match bus with JObj fields => JObj (fields ++ [("endTime", JStr "00:10")]) | j => j end.

Definition timed_trip : Itinerary := [("legs", JArr [walk_to_stop; timed_bus; walk_home])].

Definition timed_package : TransitNavigationStartPackage :=
  {| tp_itinerary := timed_trip; tp_captures := []; tp_stopAreas := None; tp_replanOptions := None;
     tp_locale := En; tp_units := Metric; tp_settings := tp_settings trip_package;
     tp_itineraryFingerprint := "it-1" |}.

(** Aboard the bus. *)
Definition riding_tick : TransitTickState :=
  let t := freshTransitTickState 0 timed_trip in
  {| t_currentLegIndex := 1; t_currentWalkStepIndex := 0; t_walkRevision := t_walkRevision t;
     t_phase := Riding; t_lastAcceptedFix := None; t_lastProgressAtMs := None; t_legEnteredAtMs := 0;
     t_stopCursor := Some 1; t_alongMeters := t_alongMeters t; t_stopTracking := None;
     t_reachedStepEnd := None; t_distanceToNextStepMeters := None; t_progressConfidence := None;
     t_offPlan := None; t_lastActionId := None; t_lastAction := None;
     t_spokenCueIds := []; t_emittedEventIds := [] |}.

Definition riding_payload : TransitPayload :=
  let p := fresh_journey timed_package 0 0 in
  {| p_startPackage := timed_package; p_navigationDataRevision := None; p_tickState := riding_tick;
     p_progress := None; p_confidence := ConfGps; p_refreshToken := None; p_refresh := p_refresh p;
     p_scheduledAlerts := [] |}.

Definition riding_session : MobileNavigationSession :=
  set_payload (TransitSession riding_payload)
    (set_status Active (createTransitPreparingSession timed_package "s-1" ModeBackground 0)).

(** The alert of the ride, three minutes before the bus is due. *)
Notation the_alert := (computeAlightAlert riding_session riding_payload 60002 (alightAlertCopy En)).

Lemma an_alert_is_for_the_ride_in_hand_witness :
  exists a, the_alert = Ok (Some a) /\ aa_triggerAtMs a = 420000 /\
    isOpenMapXNotificationId (aa_id a) = true /\ sn_title (aa_notification a) = "Get off at s3".
Proof.
  assert (match the_alert with
          | Ok (Some a) => (aa_triggerAtMs a =? 420000) && String.eqb (sn_title (aa_notification a)) "Get off at s3"
          | _ => false end = true) as Ha by (vm_compute; reflexivity).
  destruct the_alert as [[a|]|e] eqn:Hok; [|discriminate Ha|discriminate Ha].
  apply andb_true_iff in Ha as [Ha%Z.eqb_eq Ht%String.eqb_eq].
  destruct (an_alert_is_for_the_ride_in_hand _ _ _ _ _ Hok) as (_ & _ & _ & _ & _ & Hid & _).
  exists a. split; [reflexivity|]. split; [exact Ha|]. split; [exact Hid|exact Ht].
Defined.

(** A store with the ride, and an alert recorded for half past the minute. *)
Definition riding_db (rows : list AlertRow) : db :=
  MkDb (active_navigation (writeActive riding_session empty_db).2) [] [] [] rows [] 0 [] 0.

Definition expo (requests : list ScheduledNotification) : ExpoNotificationScheduler :=
  {| sch_prepared := false; sch_center := requests |}.

Definition alert_world (rows : list AlertRow) (requests : list ScheduledNotification) : AlertWorld :=
  {| aw_db := riding_db rows; aw_scheduler := expo requests; aw_readings := 0 |}.

Lemma riding_is_loaded rows :
  loadActive 60000 (riding_db rows) = (Ok (Some riding_session), riding_db rows).
Proof. vm_compute. reflexivity. Qed.

Definition meeting : ScheduledNotification :=
  {| sn_id := "calendar-1"; sn_category := CatCritical; sn_triggerAtMs := 500000; sn_title := ""; sn_body := "" |}.

Notation fresh_run := (reconcile_alerts (alightAlertCopy En) "s-1" (alert_world [] [meeting])).

(** The ride's alert joins what others have scheduled. *)
Lemma one_alert_for_the_ride_in_hand_witness :
  exists a w', the_alert = Ok (Some a) /\ fresh_run = (Ok tt, w') /\
    shown (aw_scheduler w') (aa_id a) = Some (aa_notification a) /\
    shown (aw_scheduler w') "calendar-1" = Some meeting.
Proof.
  assert (match the_alert with
          | Ok (Some a) => negb (String.eqb (aa_id a) "calendar-1") | _ => false end = true) as Ha
    by (vm_compute; reflexivity).
  destruct the_alert as [[a|]|e] eqn:Hok; [|discriminate Ha|discriminate Ha].
  apply negb_true_iff, String.eqb_neq in Ha.
  assert (match fresh_run with (Ok tt, _) => true | _ => false end = true) as Hr by (vm_compute; reflexivity).
  destruct fresh_run as [[[]|e] w'] eqn:Hrun; [|discriminate Hr].
  exists a, w'. split; [reflexivity|]. split; [reflexivity|].
  pose proof (one_alert_for_the_ride_in_hand (alightAlertCopy En) (alert_world [] [meeting]) w'
                riding_session riding_payload (Some a) (riding_is_loaded []) eq_refl eq_refl Hok Hrun) as Hshown.
  rewrite !Hshown. unfold desired_shows. split.
  - rewrite decide_True by reflexivity.
    assert (shown (aw_scheduler (alert_world [] [meeting])) (aa_id a) = None) as E.
    { change (find_request [meeting] (aa_id a) = None).
      unfold find_request, List.find. change (sn_id meeting) with "calendar-1"%string.
      rewrite (proj2 (String.eqb_neq "calendar-1" (aa_id a))); [reflexivity|congruence]. }
    rewrite E. reflexivity.
  - rewrite decide_False by congruence. vm_compute. reflexivity.
Defined.

Definition recorded_row (id : string) (atMs : Z) : AlertRow :=
  {| al_alert_id := id; al_session_id := "s-1"; al_leg_index := 1; al_trigger_at_ms := atMs;
     al_state := AlertStateScheduled; al_updated_at_ms := 0 |}.

Definition earlier (a : AlightAlert) : ScheduledNotification :=
  {| sn_id := aa_id a; sn_category := CatAlight; sn_triggerAtMs := 300000; sn_title := ""; sn_body := "" |}.

(** The bus is two minutes late, and the alarm still rings at the old time. *)
Lemma a_live_update_keeps_the_old_alarm_witness :
  exists a w', the_alert = Ok (Some a) /\
    reconcile_alerts (alightAlertCopy En) "s-1" (alert_world [recorded_row (aa_id a) 300000] [earlier a]) = (Ok tt, w') /\
    aw_scheduler w' = expo [earlier a] /\ aa_triggerAtMs a <> 300000.
Proof.
  assert (match the_alert with Ok (Some a) => (aa_triggerAtMs a =? 420000) && (aa_legIndex a =? 1) | _ => false end = true)
    as Ha by (vm_compute; reflexivity).
  destruct the_alert as [[a|]|e] eqn:Hok; [|discriminate Ha|discriminate Ha].
  apply andb_true_iff in Ha as [Ht%Z.eqb_eq Hl%Z.eqb_eq].
  destruct (a_live_update_keeps_the_old_alarm (alightAlertCopy En)
              (alert_world [recorded_row (aa_id a) 300000] [earlier a])
              riding_session riding_payload a 300000)
    as (w' & Hrun & Hc & _ & Hne).
  - apply riding_is_loaded.
  - reflexivity.
  - reflexivity.
  - exact Hok.
  - rewrite Hl. lia.
  - apply Forall_cons. split; [intros _; reflexivity|apply Forall_nil, I].
  - reflexivity.
  - rewrite Ht. unfold MIN_LEAD_MS. lia.
  - left.
  - intros id Hid _. apply list_elem_of_singleton in Hid. exact Hid.
  - exists a, w'. split; [reflexivity|]. split; [exact Hrun|]. split; [exact Hc|exact Hne].
Defined.

(** The rider ends the ride, and the alarm still rings. *)
Lemma ending_a_session_leaves_its_alarm_witness :
  exists ended w',
    (terminate "s-1" FinalStopped 70000 (riding_db [recorded_row "omx-1" 420000])).2 = ended /\
    cancel_session_alerts "s-1" {| aw_db := ended; aw_scheduler := expo [meeting]; aw_readings := 0 |} = (Ok tt, w') /\
    aw_scheduler w' = expo [meeting].
Proof.
  destruct (ending_a_session_leaves_its_alarm "s-1" FinalStopped 70000
              (alert_world [recorded_row "omx-1" 420000] [meeting]) (row_of riding_session))
    as (ack & effects & ended & w' & Hend & _ & Hrun & Hc).
  - reflexivity.
  - reflexivity.
  - vm_compute. discriminate.
  - exists ended, w'. split; [change ((terminate "s-1" FinalStopped 70000 (aw_db (alert_world [recorded_row "omx-1" 420000] [meeting]))).2 = ended); rewrite Hend; reflexivity|].
    split; [exact Hrun|exact Hc].
Defined.
End flat_ride.
