(* ===== verification/Coordinator.v ===== *)
(** * The navigation coordinator

    apps/mobile/src/navigation/NavigationCoordinator.ts: every command, location
    batch and remote answer as a handler over the database, the readings of the
    environment and the trace of what the outside world can observe.  The handlers
    run one at a time (SerialExecutor), so a handler is atomic here. *)

From S2P Require Import Prelude Protocol Session Snapshot Itinerary Captures Samples Database Repository Effects Reroute Refresh Location Processor.

(** ** The environment *)

(** startContext.ts *)
Inductive NavigationStartContext :=
  | PhoneContext (activityVisible : bool)
  | CarContext (hostAuthorized locationServiceStartAllowed : bool)
  | BackgroundContext.

Definition allowsNavigationStart (context : NavigationStartContext)
    (permission : LocationPermissionState) : bool :=
  match context with
  | PhoneContext activityVisible => activityVisible
  | CarContext hostAuthorized locationServiceStartAllowed =>
      hostAuthorized && locationServiceStartAllowed && bool_decide (permission = PermBackground)
  | BackgroundContext => false
  end.

Inductive StartDecision := DecideBackground | DecideForegroundOnly | DecideDenied.

(** [RerouteOutcome] and [RefreshOutcome]. *)
Record RerouteOutcome := {
  ro_requestId : string;
  ro_sessionId : string;
  ro_result : Unvalidated + string;
}.

Inductive RefreshFailureReply := ReplyFailure (f : RefreshFailure) | ReplyUnreachable.

Record RefreshOutcome := {
  rfo_requestId : string;
  rfo_sessionId : string;
  rfo_generation : Z;
  rfo_result : (option (list (string * json)) * json * bool) + RefreshFailureReply;
}.

(** The ports of [CoordinatorDeps] that answer questions.  The [n]-th reading of
    the environment may be anything, and may differ from the one before. *)
Class CoordinatorDeps := {
  env_processors : ProcessorRegistry;
  env_clock : nat -> Z;
  env_newSessionId : nat -> string;
  env_permission : nat -> outcome LocationPermissionState;
  env_isAppActive : nat -> bool;
  env_startContext : option (nat -> NavigationStartContext);
  env_requestForStart : nat -> outcome StartDecision;
  env_random : nat -> QArith_base.Q;
  env_effect_fails : nat -> SessionEffect -> bool;
  env_auxiliary : option (nat -> WebToNativeMessage -> outcome (option CommandResponse));
}.

(** ** The world of a handler *)

(** What the outside can observe, in order; with an effect that is attempted, the
    database as it was found at that moment. *)
Inductive observation :=
  | Sent (response : CommandResponse) (forMessageId : option string)
  | Ran (effect : SessionEffect) (found : db)
  | Prompted
  | Logged (type scope : string).

Record World := MkWorld {
  w_db : db;
  w_readings : nat;
  w_trace : list observation;
}.

Definition observe (o : observation) : M World unit :=
  modify (fun w => MkWorld (w_db w) (w_readings w) (w_trace w ++ [o])).

(** A reading of the environment. *)
Definition reading : M World nat := fun w =>
  (Ok (w_readings w), MkWorld (w_db w) (S (w_readings w)) (w_trace w)).

(** A repository operation. *)
Definition repo {A} (m : M db A) : M World A :=
  lift w_db (fun d w => MkWorld d (w_readings w) (w_trace w)) m.

Section coordinator.
Context `{ReceiptValidators} `{TransitProgressEngine} `{DateParser}.
Context `{env : CoordinatorDeps}.

Definition clock : M World Z := n ← reading; mret (env_clock n).
Definition newSessionId : M World string := n ← reading; mret (env_newSessionId n).
Definition permission_state : M World LocationPermissionState :=
  n ← reading; from_outcome (env_permission n).
Definition isAppActive : M World bool := n ← reading; mret (env_isAppActive n).
Definition random : M World QArith_base.Q := n ← reading; mret (env_random n).

Definition requestForStart : M World StartDecision :=
  n ← reading;
  _ ← observe Prompted;
  from_outcome (env_requestForStart n).

Definition diagnostic (scope : string) : M World unit := observe (Logged "typed.error" scope).

(** The ports the effects run against, each of which may fail. *)
Definition attempt_effect (e : SessionEffect) : M World unit :=
  n ← reading;
  w ← get;
  _ ← observe (Ran e (w_db w));
  if env_effect_fails n e then throw "effect" else mret tt.

Definition coordinator_ports : EffectPorts World :=
  {| reconcileSurface := Some (attempt_effect ReconcileSurface);
     driver_start := fun m => attempt_effect (StartLocation m);
     driver_stop := attempt_effect StopLocation;
     driver_updateProfile := fun p => attempt_effect (UpdateLocationProfile p);
     audio_speak := fun c t l => attempt_effect (Speak c t l);
     audio_stop := attempt_effect StopAudio;
     alerts_reconcile := fun s => attempt_effect (ReconcileAlerts s);
     alerts_cancelSession := fun s => attempt_effect (CancelSessionAlerts s);
     publish_snapshot := fun i => attempt_effect (PublishSnapshot i);
     publish_event := fun e => attempt_effect (PublishEvent e);
     remote_reroute := fun r => attempt_effect (RequestReroute r);
     remote_transitRefresh := fun r => attempt_effect (RequestTransitRefresh r);
     diagnostics_record := fun type scope _ w =>
       MkWorld (w_db w) (w_readings w) (w_trace w ++ [Logged type scope]) |}.

(** [this.deps.effects.run(effects)] *)
Definition effects_run (effects : list SessionEffect) : M World Z :=
  run_effects coordinator_ports effects.

(** ** Responses *)

Definition errorResponse (code : string) (forMessageId : option string) : CommandResponse :=
  {| resp_type := "native.error";
     resp_payload := ErrorPayload code (non_empty forMessageId);
     resp_sessionId := None; resp_revision := None |}.

(** A response that names a session and the revision it reached. *)
Definition revisionResponse (type : string) (s : MobileNavigationSession) : CommandResponse :=
  {| resp_type := type;
     resp_payload := SessionRevision (sessionId s) (revision s);
     resp_sessionId := Some (sessionId s); resp_revision := Some (revision s) |}.

Definition snapshotResponse (s : MobileNavigationSession) : CommandResponse :=
  {| resp_type := "snapshot.update";
     resp_payload := SnapshotPayload (snapshotOf s);
     resp_sessionId := Some (sessionId s); resp_revision := Some (revision s) |}.

Definition commit_failure_code (c : CommitFailure) : string :=
  match c with
  | RevisionConflict => "revision-conflict"
  | NoActiveSession => "no-active-session"
  | SessionActive => "session-active"
  | CorruptSession => "corrupt-session"
  end.

Definition reply (response : CommandResponse) (forMessageId : string) : M World unit :=
  observe (Sent response (Some forMessageId)).

(** [MUTATING.has(command.type)] *)
Definition MUTATING (p : WebPayload) : bool :=
  match p with
  | SessionPrepare _ | SessionStart | SessionReplace _ _ | TransitActionCommand _ _ _ _ _
  | TransitWalkRoute _ _ _ | SettingsUpdate _ _ _ _ _ _ | SessionStop | SessionComplete => true
  | _ => false
  end.

(** ** Internals *)

Definition load (nowMs : Z) : M World (option MobileNavigationSession) := repo (loadActive nowMs).

Definition isTerminal (s : MobileNavigationSession) : bool := is_terminal_status (status s).

(** [matches(command, session)]: an absent identity or revision matches. *)
Definition matches (sid : option string) (rev : option Z) (s : MobileNavigationSession) : bool :=
  match sid with Some i => String.eqb i (sessionId s) | None => true end
  && match rev with Some r => r =? revision s | None => true end.

(** [commit(current, mutation, now)] *)
Definition commit (current : MobileNavigationSession) (mutation : RepositoryMutation) (nowMs : Z)
    : M World CommitResult :=
  repo (compareAndSwap (sessionId current) (revision current) (fun _ => mutation) nowMs).

Definition snapshot (nowMs : Z) : M World CommandResponse :=
  current ← load nowMs;
  mret match current with
       | None => {| resp_type := "snapshot.update"; resp_payload := SnapshotPayload EmptySnapshot;
                    resp_sessionId := None; resp_revision := None |}
       | Some s => snapshotResponse s
       end.

(** [terminate(command, finalStatus, now)] *)
Definition terminate_command (sid : option string) (messageId : string)
    (finalStatus : FinalStatus) (nowMs : Z) : M World CommandResponse :=
  current ← load nowMs;
  match current with
  | None =>
      ack ← match non_empty sid with
            | Some s => repo (readTerminalAck s)
            | None => mret None
            end;
      mret {| resp_type := "session.stopped";
              resp_payload := StoppedPayload (default "" sid)
                (match ack with Some a => ack_finalStatus a | None => finalStatus end)
                (match ack with Some a => ack_finalRevision a | None => 0 end);
              resp_sessionId := non_empty sid; resp_revision := None |}
  | Some current =>
      if match sid with Some s => negb (String.eqb s (sessionId current)) | None => false end
      then mret (errorResponse "revision-conflict" (Some messageId))
      else
        ended ← repo (terminate (sessionId current) finalStatus nowMs);
        _ ← effects_run ended.2;
        mret {| resp_type := "session.stopped";
                resp_payload := StoppedPayload (sessionId current)
                  (match ended.1 with Some a => ack_finalStatus a | None => finalStatus end)
                  (match ended.1 with Some a => ack_finalRevision a | None => revision current end);
                resp_sessionId := Some (sessionId current); resp_revision := None |}
  end.

(** ** Preparing and starting *)

Definition prepare (messageId : string) (startPackage : NavigationStartPackage) (nowMs : Z)
    : M World CommandResponse :=
  match env_processors (package_kind startPackage) with
  | None => mret (errorResponse "mode-unsupported" (Some messageId))
  | Some processor =>
      existing ← load nowMs;
      if match existing with
         | Some e => negb (isTerminal e) && negb (isMobileSessionExpired e nowMs)
         | None => false
         end
      then mret (errorResponse "session-active" (Some messageId))
      else
        sid ← newSessionId;
        prepared ← from_outcome (proc_prepare processor startPackage sid nowMs ModeForegroundOnly);
        match prepared with
        | inr code => mret (errorResponse code (Some messageId))
        | inl session =>
            created ← repo (createPreparing session);
            mret match created with
                 | CommitFail code =>
                     errorResponse (commit_failure_code code) (Some messageId)
                 | CommitOk _ _ => revisionResponse "session.prepared" session
                 end
        end
  end.

(** The mutation of [start]: active, under the granted permission mode. *)
Definition started_mutation (decision : PermissionMode) (nowMs : Z)
    (session : MobileNavigationSession) : RepositoryMutation :=
  {| mut_session := set_permissionMode decision (set_status Active (advance nowMs session));
     mut_effects := [StartLocation decision; PublishSnapshot true];
     mut_enqueue := []; mut_alerts := None |}.

Definition granted_mode (d : StartDecision) : option PermissionMode :=
  match d with
  | DecideBackground => Some ModeBackground
  | DecideForegroundOnly => Some ModeForegroundOnly
  | DecideDenied => None
  end.

(** [authorizedContext ?? permissions.startContext?.() ?? { kind: "phone", ... }] *)
Definition start_context (authorizedContext : option NavigationStartContext)
    : M World NavigationStartContext :=
  match authorizedContext, env_startContext with
  | Some c, _ => mret c
  | None, Some read => n ← reading; mret (read n)
  | None, None => visible ← isAppActive; mret (PhoneContext visible)
  end.

Definition start (messageId : string) (sid : option string) (rev : option Z) (nowMs : Z)
    (authorizedContext : option NavigationStartContext) (valid : M World bool)
    : M World CommandResponse :=
  let error code := mret (errorResponse code (Some messageId)) in
  current ← load nowMs;
  match current with
  | None => error "no-session"
  | Some current =>
    if negb (matches sid rev current) then error "revision-conflict"
    else if negb (bool_decide (status current = Preparing)) then error "invalid-state"
    else if negb (supports env_processors (kind current)) then error "mode-unsupported"
    else
      startContext ← start_context authorizedContext;
      permission ← permission_state;
      if negb (allowsNavigationStart startContext permission) then error "app-not-visible"
      else
        decision ← match startContext with
                   | CarContext _ _ => mret DecideBackground
                   | _ => requestForStart
                   end;
        match granted_mode decision with
        | None =>
            _ ← repo (terminate (sessionId current) FinalError nowMs);
            error "permission-denied"
        | Some mode =>
            still ← valid;
            if negb still then error "invalid-state"
            else
              committed ← repo (compareAndSwap (sessionId current) (revision current)
                                  (started_mutation mode nowMs) nowMs);
              match committed with
              | CommitFail code => error (commit_failure_code code)
              | CommitOk session effects =>
                  failed ← effects_run effects;
                  if 0 <? failed then
                    cleanup ← repo (terminate (sessionId session) FinalError nowMs);
                    _ ← effects_run cleanup.2;
                    error "driver-start-failed"
                  else mret (revisionResponse "session.started" session)
              end
        end
  end.

(** ** Changing a running session *)

Definition itinerary_fingerprint (s : MobileNavigationSession) : option string :=
  match payload s with
  | TransitSession p => Some (tp_itineraryFingerprint (p_startPackage p))
  | GroundSession _ => None
  end.

(** The first disjunct of [replace]: a transit replacement that names the
    itinerary it replaces need not name the revision. *)
Definition names_itinerary (sid expectedItineraryFingerprint : option string)
    (s : MobileNavigationSession) : bool :=
  match itinerary_fingerprint s with
  | Some fp => bool_decide (sid = Some (sessionId s))
               && bool_decide (expectedItineraryFingerprint = Some fp)
  | None => false
  end.

Definition replace (messageId : string) (sid : option string) (rev : option Z)
    (startPackage : NavigationStartPackage) (expectedItineraryFingerprint : option string)
    (nowMs : Z) : M World CommandResponse :=
  let error code := mret (errorResponse code (Some messageId)) in
  current ← load nowMs;
  match current with
  | None => error "no-session"
  | Some current =>
    if negb (names_itinerary sid expectedItineraryFingerprint current)
       && negb (matches sid rev current) then error "revision-conflict"
    else if negb (bool_decide (status current = Active)) then error "invalid-state"
    else match env_processors (kind current) with
    | None => error "mode-unsupported"
    | Some processor =>
      if negb (bool_decide (package_kind startPackage = kind current)) then error "mode-mismatch"
      else
        outcome ← from_outcome (proc_replace processor current (Candidate startPackage) nowMs);
        match outcome with
        | inr code => error code
        | inl mutation =>
            committed ← commit current mutation nowMs;
            match committed with
            | CommitFail code => error (commit_failure_code code)
            | CommitOk session _ => mret (revisionResponse "session.replaced" session)
            end
        end
    end
  end.

Definition repair_transit_walk (messageId : string) (sid : option string)
    (itineraryFingerprint : string) (legIndex : Z) (route : Route) (nowMs : Z)
    : M World CommandResponse :=
  let error code := mret (errorResponse code (Some messageId)) in
  current ← load nowMs;
  match current with
  | None => error "revision-conflict"
  | Some current =>
    if negb (bool_decide (itinerary_fingerprint current = Some itineraryFingerprint))
       || negb (bool_decide (status current = Active))
       || negb (bool_decide (sid = Some (sessionId current)))
    then error "revision-conflict"
    else match env_processors Transit ≫= repairTransitWalk with
    | None => error "mode-unsupported"
    | Some repair =>
        result ← from_outcome (repair current legIndex route nowMs);
        match result with
        | inr code => error code
        | inl mutation =>
            committed ← commit current mutation nowMs;
            match committed with
            | CommitFail code => error (commit_failure_code code)
            | CommitOk _ effects => _ ← effects_run effects; snapshot nowMs
            end
        end
    end
  end.

(** [outcome.session.payload.tickState.lastActionId = action.actionId] *)
Definition set_lastActionId (actionId : string) (t : TransitTickState) : TransitTickState :=
  {| t_currentLegIndex := t_currentLegIndex t;
     t_currentWalkStepIndex := t_currentWalkStepIndex t;
     t_walkRevision := t_walkRevision t; t_phase := t_phase t;
     t_lastAcceptedFix := t_lastAcceptedFix t; t_lastProgressAtMs := t_lastProgressAtMs t;
     t_legEnteredAtMs := t_legEnteredAtMs t; t_stopCursor := t_stopCursor t;
     t_alongMeters := t_alongMeters t; t_stopTracking := t_stopTracking t;
     t_reachedStepEnd := t_reachedStepEnd t;
     t_distanceToNextStepMeters := t_distanceToNextStepMeters t;
     t_progressConfidence := t_progressConfidence t; t_offPlan := t_offPlan t;
     t_lastActionId := Some actionId; t_lastAction := t_lastAction t;
     t_spokenCueIds := t_spokenCueIds t; t_emittedEventIds := t_emittedEventIds t |}.

Definition with_tickState (t : TransitTickState) (p : TransitPayload) : TransitPayload :=
  {| p_startPackage := p_startPackage p;
     p_navigationDataRevision := p_navigationDataRevision p;
     p_tickState := t; p_progress := p_progress p; p_confidence := p_confidence p;
     p_refreshToken := p_refreshToken p; p_refresh := p_refresh p;
     p_scheduledAlerts := p_scheduledAlerts p |}.

Definition record_action (actionId : string) (m : RepositoryMutation) : RepositoryMutation :=
  match payload (mut_session m) with
  | TransitSession p =>
      {| mut_session := set_payload
           (TransitSession (with_tickState (set_lastActionId actionId (p_tickState p)) p))
           (mut_session m);
         mut_effects := mut_effects m; mut_enqueue := mut_enqueue m;
         mut_alerts := mut_alerts m |}
  | GroundSession _ => m
  end.

(** ["walking" | "waiting-to-board"] *)
Definition before_boarding (p : TransitPhase) : bool :=
  bool_decide (p = PhaseWalking) || bool_decide (p = WaitingToBoard).

Definition transit_action (messageId : string) (sid : option string)
    (actionId itineraryFingerprint : string) (expectedPhase : TransitPhase)
    (type : RiderActionType) (legIndex : Z) (nowMs : Z) : M World CommandResponse :=
  let error code := mret (errorResponse code (Some messageId)) in
  current ← load nowMs;
  match current with
  | None => error "no-session"
  | Some current =>
    match payload current with
    | GroundSession _ => error "no-session"
    | TransitSession p =>
      if negb (bool_decide (sid = Some (sessionId current)))
         || negb (String.eqb (tp_itineraryFingerprint (p_startPackage p)) itineraryFingerprint)
      then error "revision-conflict"
      else if bool_decide (t_lastActionId (p_tickState p) = Some actionId) then snapshot nowMs
      else
        let phase := t_phase (p_tickState p) in
        let boardPhaseRace := bool_decide (type = Board) && before_boarding expectedPhase
                              && before_boarding phase in
        if (negb (bool_decide (phase = expectedPhase)) && negb boardPhaseRace)
           || (negb (bool_decide (status current = Active))
               && negb (bool_decide (status current = Arrived) && bool_decide (type = Undo)))
        then error "invalid-state"
        else match env_processors Transit ≫= transitAction with
        | None => error "mode-unsupported"
        | Some act =>
            outcome ← from_outcome (act current type legIndex nowMs);
            match outcome with
            | inr code => error code
            | inl mutation =>
                committed ← commit current (record_action actionId mutation) nowMs;
                match committed with
                | CommitFail code => error (commit_failure_code code)
                | CommitOk session effects =>
                    _ ← effects_run effects; mret (snapshotResponse session)
                end
            end
        end
    end
  end.

(** The mutation of [updateSettings]. *)
Definition settings_mutation (newLocale : option Locale) (newUnits : option Units) (nowMs : Z)
    (session : MobileNavigationSession) : RepositoryMutation :=
  {| mut_session := set_locale_units (default (locale session) newLocale)
                      (default (units session) newUnits) (advance nowMs session);
     mut_effects := [PublishSnapshot true]; mut_enqueue := []; mut_alerts := None |}.

Definition updateSettings (messageId : string) (sid : option string) (rev : option Z)
    (newLocale : option Locale) (newUnits : option Units) (nowMs : Z) : M World CommandResponse :=
  let error code := mret (errorResponse code (Some messageId)) in
  current ← load nowMs;
  match current with
  | None => error "no-session"
  | Some current =>
    if negb (matches sid rev current) then error "revision-conflict"
    else
      committed ← repo (compareAndSwap (sessionId current) (revision current)
        (settings_mutation newLocale newUnits nowMs)
        nowMs);
      match committed with
      | CommitFail code => error (commit_failure_code code)
      | CommitOk session effects => _ ← effects_run effects; mret (snapshotResponse session)
      end
  end.

(** ** Commands *)

Definition auxiliary (command : WebToNativeMessage) : M World (option CommandResponse) :=
  match env_auxiliary with
  | None => mret None
  | Some handler => n ← reading; from_outcome (handler n command)
  end.

Definition route (command : WebToNativeMessage) (nowMs : Z) : M World (option CommandResponse) :=
  let id := msg_messageId command in
  let sid := msg_sessionId command in
  let rev := msg_revision command in
  let answer (m : M World CommandResponse) : M World (option CommandResponse) :=
    r ← m; mret (Some r) in
  match msg_payload command with
  | DestinationsUpdate _ | VoiceProbe | VoiceStart _ _ | VoiceStop _ | VoiceCancel _
  | WebHello _ _ _ => mret None
  | IntakeList | IntakeRead _ _ | IntakeComplete _ _ =>
      mret (Some (errorResponse "unsupported-capability" (Some id)))
  | SessionPrepare startPackage => answer (prepare id startPackage nowMs)
  | SessionStart => answer (start id sid rev nowMs None (mret true))
  | SessionReplace startPackage expected => answer (replace id sid rev startPackage expected nowMs)
  | TransitWalkRoute fp legIndex newRoute =>
      answer (repair_transit_walk id sid fp legIndex newRoute nowMs)
  | TransitActionCommand actionId fp expectedPhase type legIndex =>
      answer (transit_action id sid actionId fp expectedPhase type legIndex nowMs)
  | SettingsUpdate newLocale newUnits _ _ _ _ =>
      answer (updateSettings id sid rev newLocale newUnits nowMs)
  | SnapshotRequest => answer (snapshot nowMs)
  | SessionStop => answer (terminate_command sid id FinalStopped nowMs)
  | SessionComplete => answer (terminate_command sid id FinalArrived nowMs)
  | EventAck eventIds => _ ← repo (ackEvents eventIds); mret None
  | LocationRequest _ _ _ _ | SettingsOpen _ | AuthOpen _ _ =>
      handled ← auxiliary command;
      mret (Some (default (errorResponse "unsupported-capability" (Some id)) handled))
  end.

Definition run_command (command : WebToNativeMessage) (nowMs : Z)
    : M World (option CommandResponse) :=
  let id := msg_messageId command in
  response ← try_catch (route command nowMs)
               (_ ← diagnostic "command";
                mret (Some (errorResponse "internal-error" (Some id))));
  match response with
  | None => mret None
  | Some r =>
      _ ← if MUTATING (msg_payload command)
          then repo (rememberCommand id (resp_sessionId r) r nowMs) else mret tt;
      _ ← reply r id;
      mret (Some r)
  end.

Definition handleCommand (command : WebToNativeMessage) : M World (option CommandResponse) :=
  let id := msg_messageId command in
  nowMs ← clock;
  cached ← if MUTATING (msg_payload command) then repo (lookupCommand id nowMs) else mret None;
  match cached with
  | Some response => _ ← reply response id; mret (Some response)
  | None => run_command command nowMs
  end.

(** ** Location batches *)

Record LocationBatch := {
  batch_locations : list (option RawLocation);
  batch_errorCode : option string;
}.

(** [processBatch(batch, mayRetry)]; the number of retries is at most one. *)
Fixpoint processBatch (retries : nat) (batch : LocationBatch) : M World unit :=
  nowMs ← clock;
  session ← load nowMs;
  match session with
  | None => _ ← effects_run [ReconcileSurface]; mret tt
  | Some session =>
    if isMobileSessionExpired session nowMs then
      expired ← repo (terminate (sessionId session) FinalExpired nowMs);
      _ ← effects_run expired.2; mret tt
    else if negb (bool_decide (status session = Active)) then
      _ ← effects_run [ReconcileSurface]; mret tt
    else match env_processors (kind session) with
    | None => mret tt
    | Some processor =>
        let sanitised := sanitiseFixes (batch_locations batch) nowMs
                           (fix_timestampMs <$> lastAcceptedFix session) in
        _ ← observe (Logged "location.batch" "");
        if match sanitised.1 with [] => negb (needsScheduleTicks processor) | _ => false end
        then mret tt
        else
          mutation ← from_outcome (processFixes processor session sanitised.1 nowMs);
          committed ← commit session mutation nowMs;
          match committed with
          | CommitOk _ effects => _ ← effects_run effects; mret tt
          | CommitFail RevisionConflict =>
              match retries with
              | O => mret tt
              | S retries => processBatch retries batch
              end
          | CommitFail _ => mret tt
          end
    end
  end.

Definition handleLocationBatch (batch : LocationBatch) : M World unit :=
  try_catch (processBatch 1 batch) (diagnostic "location-batch").

(** ** Remote answers *)

(** The replacement's mutation with the reroute marked as done. *)
Definition reroute_applied (m : RepositoryMutation) : RepositoryMutation :=
  match payload (mut_session m) with
  | GroundSession p =>
      {| mut_session := set_payload (GroundSession (with_reroute onRerouteSucceeded p))
                          (mut_session m);
         mut_effects := mut_effects m; mut_enqueue := mut_enqueue m;
         mut_alerts := mut_alerts m |}
  | TransitSession _ => m
  end.

Definition reroute_failed (session : MobileNavigationSession) (p : GroundPayload) (code : string)
    (nowMs : Z) (jitter01 : QArith_base.Q) : RepositoryMutation :=
  {| mut_session := set_payload
       (GroundSession (with_reroute (onRerouteFailed (g_reroute p) code nowMs jitter01) p))
       (advance nowMs session);
     mut_effects := [PublishSnapshot false]; mut_enqueue := []; mut_alerts := None |}.

(** The mutation of a successful answer, if its route can replace the session's. *)
Definition reroute_replacement (session : MobileNavigationSession) (result : Unvalidated + string)
    (nowMs : Z) : M World (option RepositoryMutation) :=
  match result, env_processors Ground with
  | inl route, Some processor =>
      replaced ← from_outcome (proc_replace processor session route nowMs);
      mret match replaced with inl m => Some (reroute_applied m) | inr _ => None end
  | _, _ => mret None
  end.

Definition commitReroute (outcome : RerouteOutcome) : M World unit :=
  nowMs ← clock;
  session ← load nowMs;
  match session with
  | None => mret tt
  | Some session =>
    match payload session with
    | TransitSession _ => mret tt
    | GroundSession p =>
      if negb (bool_decide (status session = Active)) then mret tt
      else if negb (String.eqb (sessionId session) (ro_sessionId outcome)) then mret tt
      else if negb (bool_decide (rr_requestId (g_reroute p) = Some (ro_requestId outcome)))
      then mret tt
      else if match ro_result outcome with inr code => String.eqb code "aborted" | inl _ => false end
      then mret tt
      else
        replacement ← reroute_replacement session (ro_result outcome) nowMs;
        mutation ← match replacement with
                   | Some m => mret m
                   | None =>
                       jitter01 ← random;
                       mret (reroute_failed session p
                               (match ro_result outcome with
                                | inl _ => "invalid-response" | inr code => code end)
                               nowMs jitter01)
                   end;
        committed ← commit session mutation nowMs;
        match committed with
        | CommitOk _ effects => _ ← effects_run effects; mret tt
        | CommitFail _ => mret tt
        end
    end
  end.

Definition applyReroute (outcome : RerouteOutcome) : M World unit :=
  try_catch (commitReroute outcome) (diagnostic "reroute").

(** [{ ...startPackage, itinerary }] *)
Definition with_itinerary (i : list (string * json)) (p : TransitNavigationStartPackage)
    : TransitNavigationStartPackage :=
  {| tp_itinerary := i; tp_captures := tp_captures p; tp_stopAreas := tp_stopAreas p;
     tp_replanOptions := tp_replanOptions p; tp_locale := tp_locale p; tp_units := tp_units p;
     tp_settings := tp_settings p; tp_itineraryFingerprint := tp_itineraryFingerprint p |}.

Definition with_captures (c : list TransitLegCapture) (p : TransitNavigationStartPackage)
    : TransitNavigationStartPackage :=
  {| tp_itinerary := tp_itinerary p; tp_captures := c; tp_stopAreas := tp_stopAreas p;
     tp_replanOptions := tp_replanOptions p; tp_locale := tp_locale p; tp_units := tp_units p;
     tp_settings := tp_settings p; tp_itineraryFingerprint := tp_itineraryFingerprint p |}.

(** [transitStartPackageSchema.safeParse({ ...startPackage, itinerary })] followed
    by the merge: the merged itinerary and whether the walk restarts. *)
Definition merged_refresh (p : TransitPayload) (reply : RefreshOutcome)
    : outcome (option (list (string * json) * bool)) :=
  match rfo_result reply with
  | inl (Some itinerary, _, _) =>
      if transitStartPackageSchema (with_itinerary itinerary (p_startPackage p))
      then mergeTransitRefresh (tp_itinerary (p_startPackage p)) itinerary
             (t_currentLegIndex (p_tickState p)) (default 0 (t_walkRevision (p_tickState p)))
      else Ok None
  | _ => Ok None
  end.

Definition refresh_failure (outcome : RefreshOutcome) : RefreshFailure :=
  match rfo_result outcome with
  | inl _ => FailRejected
  | inr ReplyUnreachable => FailRetryable
  | inr (ReplyFailure f) => f
  end.

(** The start package with the captures of the answer, when the result is still a
    valid package. *)
Definition recaptured (old merged : TransitNavigationStartPackage) (journeys : json) (nowMs : Z)
    : TransitNavigationStartPackage :=
  let captured := with_captures
    (refreshTransitCaptures (tp_captures old) (legs_of (tp_itinerary old)) journeys nowMs)
    merged in
  if transitStartPackageSchema captured then captured else merged.

(** The tick state of a walk that starts over. *)
Definition restart_walk (t : TransitTickState) : TransitTickState :=
  {| t_currentLegIndex := t_currentLegIndex t; t_currentWalkStepIndex := 0;
     t_walkRevision := Some (default 0 (t_walkRevision t) + 1); t_phase := t_phase t;
     t_lastAcceptedFix := t_lastAcceptedFix t; t_lastProgressAtMs := t_lastProgressAtMs t;
     t_legEnteredAtMs := t_legEnteredAtMs t; t_stopCursor := t_stopCursor t;
     t_alongMeters := t_alongMeters t; t_stopTracking := t_stopTracking t;
     t_reachedStepEnd := Some false; t_distanceToNextStepMeters := None;
     t_progressConfidence := t_progressConfidence t; t_offPlan := t_offPlan t;
     t_lastActionId := t_lastActionId t; t_lastAction := t_lastAction t;
     t_spokenCueIds := t_spokenCueIds t; t_emittedEventIds := t_emittedEventIds t |}.

(** The payload after the answer, given what the merge left. *)
Definition refreshed_payload (session : MobileNavigationSession) (p : TransitPayload)
    (merged : option (list (string * json) * bool)) (outcome : RefreshOutcome) (nowMs : Z)
    : TransitPayload :=
  match merged, rfo_result outcome with
  | Some (itinerary, resetWalk), inl (_, journeys, capturesOnly) =>
      let merged := with_itinerary itinerary (p_startPackage p) in
      let tickState := if resetWalk then restart_walk (p_tickState p) else p_tickState p in
      {| p_startPackage := recaptured (p_startPackage p) merged journeys nowMs;
         p_navigationDataRevision := Some (default 0 (p_navigationDataRevision p) + 1);
         p_tickState := tickState;
         p_progress := if resetWalk
                       then Some (transit_progress (tick_with_fix tickState (lastAcceptedFix session))
                                    itinerary)
                       else p_progress p;
         p_confidence := p_confidence p;
         p_refreshToken := if capturesOnly then p_refreshToken p
                           else json_string (field "refreshToken" itinerary);
         p_refresh := onRefreshSucceeded (p_refresh p) nowMs;
         p_scheduledAlerts := p_scheduledAlerts p |}
  | _, _ =>
      let refresh := onRefreshFailed (p_refresh p) (refresh_failure outcome) nowMs
                       (match non_empty (p_refreshToken p) with Some _ => true | None => false end) in
      {| p_startPackage := p_startPackage p;
         p_navigationDataRevision := p_navigationDataRevision p;
         p_tickState := p_tickState p; p_progress := p_progress p;
         p_confidence := p_confidence p;
         p_refreshToken := if decide (rf_status refresh = RfBroken) then None
                           else p_refreshToken p;
         p_refresh := refresh; p_scheduledAlerts := p_scheduledAlerts p |}
  end.

Definition applyTransitRefresh (outcome : RefreshOutcome) : M World unit :=
  nowMs ← clock;
  session ← load nowMs;
  match session with
  | None => mret tt
  | Some session =>
    match payload session with
    | GroundSession _ => mret tt
    | TransitSession p =>
      if negb (bool_decide (status session = Active))
         || negb (String.eqb (sessionId session) (rfo_sessionId outcome)) then mret tt
      else if negb (bool_decide (rf_status (p_refresh p) = RfInFlight))
              || negb (isCurrentGeneration (p_refresh p) (rfo_generation outcome)
                         (rfo_requestId outcome)) then mret tt
      else
        merged ← from_outcome (merged_refresh p outcome);
        committed ← commit session
          {| mut_session := set_payload
               (TransitSession (refreshed_payload session p merged outcome nowMs)) (advance nowMs session);
             mut_effects := [ReconcileAlerts (sessionId session); PublishSnapshot true];
             mut_enqueue := []; mut_alerts := None |} nowMs;
        match committed with
        | CommitOk _ effects => _ ← effects_run effects; mret tt
        | CommitFail _ => mret tt
        end
    end
  end.

(** ** Surfaces and the car *)

Definition stopFromSurface (expectedSessionId : string) : M World bool :=
  nowMs ← clock;
  current ← load nowMs;
  match current with
  | None => mret false
  | Some current =>
      if negb (String.eqb (sessionId current) expectedSessionId) then mret false
      else
        nowMs ← clock;
        response ← terminate_command (Some expectedSessionId) "native-surface" FinalStopped nowMs;
        _ ← observe (Sent response None);
        mret true
  end.

(** [startCarTrip(startPackage, context, valid, replaceSessionId)] *)
Definition startCarTrip (startPackage : GroundNavigationStartPackage)
    (context : M World NavigationStartContext) (valid : M World bool)
    (replaceSessionId : option string) : M World CommandResponse :=
  let refuse code := mret (errorResponse code None) in
  ok ← valid;
  if negb ok then refuse "invalid-state"
  else
    nowMs ← clock;
    ctx ← context;
    permission ← permission_state;
    if negb (allowsNavigationStart ctx permission) then refuse "app-not-visible"
    else
      current ← load nowMs;
      id ← newSessionId;
      let messageId := ("car-start-" ++ id)%string in
      blocked ← match current with
                | None => mret false
                | Some current =>
                    if isTerminal current then mret false
                    else if negb (bool_decide (replaceSessionId = Some (sessionId current)))
                    then mret true
                    else _ ← terminate_command (Some (sessionId current)) messageId FinalStopped nowMs;
                         mret false
                end;
      if blocked : bool then refuse "session-active"
      else
        ok ← valid;
        if negb ok then refuse "invalid-state"
        else
          prepared ← prepare messageId (GroundPackage startPackage) nowMs;
          if negb (String.eqb (resp_type prepared) "session.prepared") then mret prepared
          else
            ok ← valid;
            if negb ok then
              _ ← terminate_command (resp_sessionId prepared) messageId FinalStopped nowMs;
              refuse "invalid-state"
            else
              ctx ← context;
              response ← start messageId (resp_sessionId prepared) (resp_revision prepared) nowMs
                           (Some ctx) valid;
              _ ← reply response messageId;
              mret response.
End coordinator.
