(* ===== verification/SampleWorld.v ===== *)
(** * A concrete environment

    An environment in which the witnesses of the coordinator evaluate: a stopped
    clock, ground navigation, background permission, and effects that succeed or
    fail as asked.  Nothing here models code. *)

From S2P Require Import Prelude Protocol Cues Session Snapshot Itinerary Samples Database Repository RepositoryFacts Register Location Processor Guidance SampleEngine Ground GroundFacts Coordinator.

#[export] Instance sample_progress : TransitProgressEngine :=
  {| transit_progress := fun _ _ => [] |}.

(** No date can be read: two visits of a stop cannot be told apart. *)
#[export] Instance sample_dates : DateParser := {| date_getTime := fun _ => NaN |}.

Definition sample_registry : ProcessorRegistry := register GroundNavigationProcessor empty_registry.

Lemma sample_registry_lawful : lawful_registry sample_registry.
Proof. apply register_lawful; [apply ground_processor_lawful|apply empty_registry_lawful]. Qed.

(** The environment at a time; [fails] says which effects fail. *)
Definition sample_env (nowMs : Z) (fails : SessionEffect -> bool) : CoordinatorDeps :=
  {| env_processors := sample_registry;
     env_clock := fun _ => nowMs;
     env_newSessionId := fun _ => "s2";
     env_permission := fun _ => Ok PermBackground;
     env_isAppActive := fun _ => true;
     env_startContext := None;
     env_requestForStart := fun _ => Ok DecideBackground;
     env_random := fun _ => QArith_base.Qmake 1 2;
     env_effect_fails := fun _ e => fails e;
     env_auxiliary := None |}.

(** A world whose database holds a session. *)
Definition world_of (s : MobileNavigationSession) : World :=
  MkWorld (writeActive s empty_db).2 0 [].

Lemma world_of_wf s : db_wf (w_db (world_of s)).
Proof. apply UPSERT_ACTIVE_wf, empty_db_wf. Qed.

Definition empty_world : World := MkWorld empty_db 0 [].

(** A command from the page. *)
Definition sample_command (id : string) (sid : option string) (rev : option Z) (p : WebPayload)
    : WebToNativeMessage :=
  {| msg_protocolVersion := 5; msg_messageId := id; msg_channelNonce := "nonce";
     msg_sessionId := sid; msg_revision := rev; msg_sentAtMs := 1000; msg_payload := p |}.
