(* ===== verification/CoordinatorFacts.v ===== *)
(** * What the coordinator guarantees

    Over the handlers of [Coordinator], for every environment: the repository
    invariant, exactly-once commands, the start sequence, stale answers, and what
    the handlers do with the edges of the clock and of the counters. *)

From S2P Require Import Prelude Protocol Session Snapshot Itinerary Captures Samples Database Repository RepositoryFacts Register Effects Reroute Refresh Location Processor Coordinator.

(** ** The trace *)

(** The effects attempted in a stretch of the trace. *)
Definition ran (l : list observation) : list SessionEffect :=
  omap (fun o => match o with Ran e _ => Some e | _ => None end) l.

(** Every effect attempted in a stretch of the trace found the database [d]. *)
Definition attempted_over (d : db) (l : list observation) : Prop :=
  Forall (fun o => match o with Ran _ found => found = d | _ => True end) l.

(** The responses sent in a stretch of the trace. *)
Definition sent (l : list observation) : list CommandResponse :=
  omap (fun o => match o with Sent r _ => Some r | _ => None end) l.

Lemma ran_app l k : ran (l ++ k) = ran l ++ ran k.
Proof. unfold ran. apply omap_app. Qed.

(** A world that differs only by what was read and observed. *)
Definition watched (w w' : World) (extra : list observation) : Prop :=
  w_db w' = w_db w /\ w_trace w' = w_trace w ++ extra.

Lemma watched_refl w : watched w w [].
Proof. split; [done|]. by rewrite app_nil_r. Qed.

Lemma watched_trans w1 w2 w3 l k : watched w1 w2 l -> watched w2 w3 k -> watched w1 w3 (l ++ k).
Proof. intros [A1 A2] [B1 B2]. split; [congruence|]. by rewrite B2, A2, app_assoc. Qed.

Create HintDb world.

Section facts.
Context `{ReceiptValidators} `{TransitProgressEngine} `{DateParser}.
Context `{env : CoordinatorDeps}.

(** ** Running effects *)

Lemma attempt_effect_run e w :
  exists o r, attempt_effect e w = (o, MkWorld (w_db w) r (w_trace w ++ [Ran e (w_db w)])).
Proof.
  unfold attempt_effect, mbind, M_bind, reading, observe, modify, get. cbn [w_db w_readings w_trace].
  destruct (env_effect_fails _ e); eexists _, _; done.
Qed.

Lemma execute_coordinator e : execute coordinator_ports e = attempt_effect e.
Proof. by destruct e. Qed.

Lemma run_ordered_world effects failed w :
  0 <= failed ->
  exists n w' extra,
    run_ordered coordinator_ports effects failed w = (Ok n, w')
    /\ watched w w' extra /\ ran extra = effects /\ failed <= n
    /\ sent extra = [] /\ (n = failed -> extra = map (fun e => Ran e (w_db w)) effects)
    /\ attempted_over (w_db w) extra.
Proof.
  revert failed w. induction effects as [|e effects IH]; intros failed w Hf.
  { exists failed, w, []. refine (conj eq_refl (conj (watched_refl w) _)).
    split_and!; try done. constructor. }
  rewrite run_ordered_cons, execute_coordinator.
  destruct (attempt_effect_run e w) as ([u|err] & r & ->).
  - destruct (IH (failed + 0) (MkWorld (w_db w) r (w_trace w ++ [Ran e (w_db w)])))
      as (n & w' & extra & -> & [Hdb Htr] & Hran & Hn & Hsent & Hex & Hover); [lia|].
    exists n, w', (Ran e (w_db w) :: extra). simpl in *. refine (conj eq_refl (conj (conj Hdb _) _)).
    { by rewrite Htr, <- app_assoc. }
    split_and!; try done.
    + by rewrite Hran.
    + lia.
    + intros ->. by rewrite Hex by lia.
    + by constructor.
  - destruct (IH (failed + 1)
      (diagnostics_record coordinator_ports "typed.error" "effect" (effect_kind e)
         (MkWorld (w_db w) r (w_trace w ++ [Ran e (w_db w)]))))
      as (n & w' & extra & -> & [Hdb Htr] & Hran & Hn & Hsent & Hex & Hover); [lia|].
    exists n, w', (Ran e (w_db w) :: Logged "typed.error" "effect" :: extra).
    simpl in *. refine (conj eq_refl (conj (conj Hdb _) _)).
    { by rewrite Htr, <- !app_assoc. }
    split_and!; try done.
    + by rewrite Hran.
    + lia.
    + lia.
    + by repeat constructor.
Qed.

(** Effects never write the database; all of them are attempted, in order. *)
Lemma effects_run_spec effects w :
  exists n w' extra,
    effects_run effects w = (Ok n, w')
    /\ watched w w' extra /\ ran extra = sort_by ORDER effects /\ 0 <= n
    /\ sent extra = [] /\ (n = 0 -> extra = map (fun e => Ran e (w_db w)) (sort_by ORDER effects))
    /\ attempted_over (w_db w) extra.
Proof. apply run_ordered_world. lia. Qed.

(** ** The repository invariant through every handler *)

Definition world_wf (w : World) : Prop := db_wf (w_db w).

Lemma repo_wf {A} (m : M db A) : preserves db_wf m -> preserves world_wf (repo m).
Proof.
  intros Hm w Hw. unfold repo, lift. specialize (Hm (w_db w) Hw).
  by destruct (m (w_db w)) as [o d].
Qed.

Lemma observe_wf o : preserves world_wf (observe o).
Proof. by intros w Hw. Qed.

Lemma reading_wf : preserves world_wf reading.
Proof. by intros w Hw. Qed.

Lemma from_outcome_wf {A} (o : outcome A) : preserves world_wf (from_outcome o).
Proof. by intros w Hw. Qed.

Lemma effects_run_wf effects : preserves world_wf (effects_run effects).
Proof.
  intros w Hw. destruct (effects_run_spec effects w) as (n & w' & extra & -> & [Hdb _] & _).
  unfold world_wf in *. simpl. by rewrite Hdb.
Qed.

Lemma readTerminalAck_wf sid : preserves db_wf (readTerminalAck sid).
Proof. unfold readTerminalAck, SELECT_TERMINAL_ACK. preserve. Qed.

Lemma lookupCommand_wf m t : preserves db_wf (lookupCommand m t).
Proof. unfold lookupCommand, SELECT_PROCESSED_COMMAND. preserve. Qed.

#[local] Hint Resolve repo_wf observe_wf reading_wf from_outcome_wf effects_run_wf
  readTerminalAck_wf lookupCommand_wf : preserve.
#[local] Hint Resolve loadActive_wf createPreparing_wf compareAndSwap_wf terminate_wf
  ackEvents_wf rememberCommand_wf : preserve.

Lemma load_wf nowMs : preserves world_wf (load nowMs).
Proof. unfold load. preserve. Qed.
#[local] Hint Resolve load_wf : preserve.

Lemma clock_wf : preserves world_wf clock.
Proof. unfold clock. preserve. Qed.
#[local] Hint Resolve clock_wf : preserve.

Lemma commit_wf s m nowMs : preserves world_wf (commit s m nowMs).
Proof. unfold commit. preserve. Qed.
#[local] Hint Resolve commit_wf : preserve.

Lemma snapshot_wf nowMs : preserves world_wf (snapshot nowMs).
Proof. unfold snapshot. preserve. Qed.
#[local] Hint Resolve snapshot_wf : preserve.

Lemma terminate_command_wf sid m st nowMs : preserves world_wf (terminate_command sid m st nowMs).
Proof. unfold terminate_command. preserve. Qed.

Lemma prepare_wf m p nowMs : preserves world_wf (prepare m p nowMs).
Proof. unfold prepare, newSessionId. preserve. Qed.

Lemma start_context_wf c : preserves world_wf (start_context c).
Proof. unfold start_context, isAppActive. preserve. Qed.
#[local] Hint Resolve terminate_command_wf prepare_wf start_context_wf : preserve.

Lemma start_wf m sid rev nowMs c valid :
  preserves world_wf valid -> preserves world_wf (start m sid rev nowMs c valid).
Proof. intros Hv. unfold start, permission_state, requestForStart. preserve. Qed.
#[local] Hint Resolve start_wf : preserve.

Lemma replace_wf m sid rev p e nowMs : preserves world_wf (replace m sid rev p e nowMs).
Proof. unfold replace. preserve. Qed.

Lemma repair_transit_walk_wf m sid fp leg r nowMs :
  preserves world_wf (repair_transit_walk m sid fp leg r nowMs).
Proof. unfold repair_transit_walk. preserve. Qed.

Lemma transit_action_wf m sid a fp ph t leg nowMs :
  preserves world_wf (transit_action m sid a fp ph t leg nowMs).
Proof. unfold transit_action. preserve. Qed.

Lemma updateSettings_wf m sid rev l u nowMs : preserves world_wf (updateSettings m sid rev l u nowMs).
Proof. unfold updateSettings. preserve. Qed.
#[local] Hint Resolve replace_wf repair_transit_walk_wf transit_action_wf updateSettings_wf : preserve.

Lemma route_wf command nowMs : preserves world_wf (route command nowMs).
Proof. unfold route, auxiliary. preserve. Qed.
#[local] Hint Resolve route_wf : preserve.

Lemma run_command_wf command nowMs : preserves world_wf (run_command command nowMs).
Proof. unfold run_command, diagnostic, reply. preserve. Qed.
#[local] Hint Resolve run_command_wf : preserve.

Lemma handleCommand_wf command : preserves world_wf (handleCommand command).
Proof. unfold handleCommand, reply. preserve. Qed.

Lemma processBatch_wf retries batch : preserves world_wf (processBatch retries batch).
Proof.
  induction retries as [|retries IH]; cbn [processBatch]; preserve.
Qed.
#[local] Hint Resolve processBatch_wf : preserve.

Lemma handleLocationBatch_wf batch : preserves world_wf (handleLocationBatch batch).
Proof. unfold handleLocationBatch, diagnostic. preserve. Qed.

Lemma applyReroute_wf outcome : preserves world_wf (applyReroute outcome).
Proof. unfold applyReroute, commitReroute, reroute_replacement, random, diagnostic. preserve. Qed.

Lemma applyTransitRefresh_wf outcome : preserves world_wf (applyTransitRefresh outcome).
Proof. unfold applyTransitRefresh. preserve. Qed.

Lemma stopFromSurface_wf sid : preserves world_wf (stopFromSurface sid).
Proof. unfold stopFromSurface. preserve. Qed.

Lemma startCarTrip_wf p ctx valid r :
  preserves world_wf ctx -> preserves world_wf valid ->
  preserves world_wf (startCarTrip p ctx valid r).
Proof.
  intros Hc Hv. unfold startCarTrip, permission_state, newSessionId, reply. preserve.
Qed.

(** ** What a handler reads and writes *)

Lemma load_authority s nowMs w :
  authority_of (w_db w) = Authority s -> load nowMs w = (Ok (Some s), w).
Proof. intros Ha. unfold load, repo, lift. rewrite load_run, Ha. by destruct w. Qed.

Lemma load_nothing nowMs w :
  authority_of (w_db w) = NoAuthority -> load nowMs w = (Ok None, w).
Proof. intros Ha. unfold load, repo, lift. rewrite load_run, Ha. by destruct w. Qed.

(** A readable authority passed the schema. *)
Lemma authority_valid s d : authority_of d = Authority s -> mobileNavigationSessionSchema s = true.
Proof.
  unfold authority_of. destruct (active_navigation d) as [r|]; [|done].
  destruct (parseMobileSession _) as [s'|code] eqn:E; [|done].
  intros [= <-]. by apply parse_sound in E as [_ ?].
Qed.

Lemma schema_revision s : mobileNavigationSessionSchema s = true -> 0 <= revision s.
Proof.
  unfold mobileNavigationSessionSchema, baseSessionShape.
  rewrite !andb_true_iff. intros [[[[[[[[_ Hr] _] _] _] _] _] _] _].
  unfold safeInteger in Hr. apply andb_true_iff in Hr as [Hr _]. by apply Z.leb_le.
Qed.

Lemma cas_commits s mutate nowMs w :
  authority_of (w_db w) = Authority s ->
  lawful (sessionId s) (revision s) (mutate s) ->
  exists d',
    repo (compareAndSwap (sessionId s) (revision s) mutate nowMs) w =
      (Ok (CommitOk (mut_session (mutate s)) (mut_effects (mutate s))),
       MkWorld d' (w_readings w) (w_trace w))
    /\ authority_of d' = published (mut_session (mutate s)).
Proof.
  intros Ha Hl. pose proof Hl as (Hs & Hr & _). unfold repo, lift. rewrite cas_run, Ha.
  rewrite !decide_True by done. unfold transaction.
  destruct (commit_body_lawful _ _ _ nowMs (w_db w) Hl) as (d' & -> & Hd'). eauto.
Qed.

Lemma advances_lawful s nowMs m :
  0 <= revision s -> advances s nowMs m -> lawful (sessionId s) (revision s) m.
Proof. intros Hr []. unfold lawful. split_and!; [done|done|lia|done]. Qed.

Lemma commit_advances s m nowMs w :
  authority_of (w_db w) = Authority s -> advances s nowMs m ->
  exists d',
    commit s m nowMs w =
      (Ok (CommitOk (mut_session m) (mut_effects m)), MkWorld d' (w_readings w) (w_trace w))
    /\ authority_of d' = published (mut_session m).
Proof.
  intros Ha Hm. apply (cas_commits s (fun _ => m) nowMs w Ha).
  apply (advances_lawful s nowMs); [|done].
  by eapply schema_revision, authority_valid.
Qed.

Lemma terminate_authority_run s st nowMs w :
  db_wf (w_db w) -> authority_of (w_db w) = Authority s ->
  exists ack d',
    repo (terminate (sessionId s) st nowMs) w =
      (Ok (Some ack, termination_effects (sessionId s)), MkWorld d' (w_readings w) (w_trace w))
    /\ authority_of d' = NoAuthority /\ erased (sessionId s) d'
    /\ ack_finalStatus ack = st /\ ack_finalRevision ack = revision s.
Proof.
  intros Hd Ha. pose proof (wf_active _ Hd) as Hrow. unfold authority_of in Ha.
  destruct (active_navigation (w_db w)) as [r|] eqn:Er; [|done].
  destruct (parseMobileSession _) as [s'|code] eqn:Ep; [|done]. injection Ha as ->.
  apply parse_sound in Ep as [Et _]. destruct Hrow as [Hrev Hrow]. rewrite Et in Hrow. subst r.
  unfold repo, lift. rewrite (terminate_run (sessionId s) st nowMs _ _ Er eq_refl Hrev).
  eexists _, _. split; [done|]. split; [done|]. split; [apply without_session_erased|done].
Qed.
End facts.
