(* ===== verification/Commands.v ===== *)
(** * Commands are answered exactly once, and never against a state they did not see

    The entry points of the coordinator as one step relation, and the guarantees a
    page relies on when it retries, races or sends late. *)

From S2P Require Import Prelude Protocol Session Snapshot Itinerary Captures Samples Database Repository RepositoryFacts Register Effects Reroute Refresh Location Processor SampleEngine Coordinator SampleWorld CoordinatorFacts.

(** ** Entry points *)

(** Every way into the serial queue. *)
Inductive coordinator_op :=
  | OpDispatch (command : WebToNativeMessage)
  | OpLocationBatch (batch : LocationBatch)
  | OpReroute (outcome : RerouteOutcome)
  | OpTransitRefresh (outcome : RefreshOutcome)
  | OpStopFromSurface (expectedSessionId : string)
  | OpCarTrip (p : GroundNavigationStartPackage) (context : nat -> NavigationStartContext)
      (valid : nat -> bool) (replaceSessionId : option string)
  | OpRunEffects (effects : list SessionEffect).

Section commands.
Context `{ReceiptValidators} `{TransitProgressEngine} `{DateParser}.
Context `{env : CoordinatorDeps}.

Definition read_with {A} (f : nat -> A) : M World A := n ← reading; mret (f n).

Definition run_coordinator_op (op : coordinator_op) : M World unit :=
  match op with
  | OpDispatch command => ignore (handleCommand command)
  | OpLocationBatch batch => handleLocationBatch batch
  | OpReroute outcome => applyReroute outcome
  | OpTransitRefresh outcome => applyTransitRefresh outcome
  | OpStopFromSurface sid => ignore (stopFromSurface sid)
  | OpCarTrip p context valid r =>
      ignore (startCarTrip p (read_with context) (read_with valid) r)
  | OpRunEffects effects => ignore (effects_run effects)
  end.

(** The worlds a sequence of queued operations leads to. *)
Inductive coordinator_reachable (w0 : World) : World -> Prop :=
  | coord_start : coordinator_reachable w0 w0
  | coord_step w op : coordinator_reachable w0 w ->
      coordinator_reachable w0 (run_coordinator_op op w).2.

(** A command that names a session, revision or itinerary other than the current
    one. *)
Definition stale_command (command : WebToNativeMessage) (s : MobileNavigationSession) : bool :=
  let sid := msg_sessionId command in
  let other_session := match sid with Some i => negb (String.eqb i (sessionId s)) | None => false end in
  match msg_payload command with
  | SessionStart | SettingsUpdate _ _ _ _ _ _ => negb (matches sid (msg_revision command) s)
  | SessionReplace _ expected =>
      negb (names_itinerary sid expected s) && negb (matches sid (msg_revision command) s)
  | SessionStop | SessionComplete => other_session
  | TransitWalkRoute fp _ _ =>
      negb (bool_decide (itinerary_fingerprint s = Some fp))
      || negb (bool_decide (sid = Some (sessionId s)))
  | TransitActionCommand _ fp _ _ _ =>
      match itinerary_fingerprint s with
      | Some current => negb (bool_decide (sid = Some (sessionId s))) || negb (String.eqb current fp)
      | None => false
      end
  | _ => false
  end.

(** The rows of the replay table only shrink while a command is routed. *)
Definition commands_within (c : list CommandRow) (w : World) : Prop :=
  processed_commands (w_db w) `sublist_of` c.

(** ** Lemmas *)

Lemma read_with_wf {A} (f : nat -> A) : preserves world_wf (read_with f).
Proof. unfold read_with. apply preserves_bind; [apply reading_wf|intros n; apply preserves_ret]. Qed.

Lemma ignore_keeps {S A} (I : S -> Prop) (m : M S A) : preserves I m -> preserves I (ignore m).
Proof. intros Hm. unfold ignore. apply preserves_bind; [done|intros a; apply preserves_ret]. Qed.

Lemma run_coordinator_op_wf op : preserves world_wf (run_coordinator_op op).
Proof.
  destruct op; cbn [run_coordinator_op].
  - apply ignore_keeps, handleCommand_wf.
  - apply handleLocationBatch_wf.
  - apply applyReroute_wf.
  - apply applyTransitRefresh_wf.
  - apply ignore_keeps, stopFromSurface_wf.
  - apply ignore_keeps, startCarTrip_wf; apply read_with_wf.
  - apply ignore_keeps, effects_run_wf.
Qed.

(** *** The replay table while a command runs *)

Section within.
Context (c : list CommandRow).

Definition db_within (d : db) : Prop := processed_commands d `sublist_of` c.

Lemma repo_within {A} (m : M db A) : preserves db_within m -> preserves (commands_within c) (repo m).
Proof.
  intros Hm w Hw. unfold repo, lift. specialize (Hm (w_db w) Hw). by destruct (m (w_db w)).
Qed.

Lemma within_modify f :
  (forall d, processed_commands (f d) `sublist_of` processed_commands d) ->
  preserves db_within (modify f).
Proof. intros Hf d Hd. unfold db_within in *. simpl. etrans; [apply Hf|done]. Qed.

Lemma UPSERT_ACTIVE_within r : preserves db_within (UPSERT_ACTIVE r).
Proof. unfold UPSERT_ACTIVE. case_match; [apply preserves_throw|by apply within_modify]. Qed.

Lemma UPSERT_TERMINAL_ACK_within a : preserves db_within (UPSERT_TERMINAL_ACK a).
Proof. unfold UPSERT_TERMINAL_ACK. case_match; [apply preserves_throw|by apply within_modify]. Qed.

Lemma deleteSessionRows_within sid : preserves db_within (deleteSessionRows sid).
Proof.
  intros d Hd. rewrite delete_session_rows_run. unfold db_within in *. simpl.
  etrans; [apply sublist_filter|done].
Qed.

Lemma quarantine_within sid reason nowMs : preserves db_within (quarantineCorruptSession sid reason nowMs).
Proof.
  intros d Hd. rewrite quarantine_run. unfold db_within, quarantined in *.
  destruct (non_empty sid); simpl; [|done]. etrans; [apply sublist_filter|done].
Qed.

Lemma enqueueEventIn_within event : preserves db_within (enqueueEventIn event).
Proof.
  intros d Hd. rewrite enqueue_run. unfold append_event. cbn [snd]. cbv zeta.
  by repeat case_match; repeat case_decide.
Qed.

Lemma replaceAlertsIn_within sid alerts nowMs : preserves db_within (replaceAlertsIn sid alerts nowMs).
Proof.
  unfold replaceAlertsIn. apply preserves_bind; [by apply within_modify|]. intros _.
  apply preserves_for_each. intros x _. unfold INSERT_SCHEDULED_ALERT.
  case_match; [apply preserves_throw|by apply within_modify].
Qed.

#[local] Hint Resolve UPSERT_ACTIVE_within UPSERT_TERMINAL_ACK_within deleteSessionRows_within
  quarantine_within enqueueEventIn_within replaceAlertsIn_within repo_within : preserve.

Lemma loadActive_within nowMs : preserves db_within (loadActive nowMs).
Proof. unfold loadActive, inspectActive, SELECT_ACTIVE. preserve. Qed.

Lemma createPreparing_within s : preserves db_within (createPreparing s).
Proof. unfold createPreparing, SELECT_ACTIVE, writeActive. preserve. Qed.

Lemma compareAndSwap_within sid e mutate nowMs : preserves db_within (compareAndSwap sid e mutate nowMs).
Proof. unfold compareAndSwap, SELECT_ACTIVE, writeActive. preserve. Qed.

Lemma terminate_within sid st nowMs : preserves db_within (terminate sid st nowMs).
Proof. unfold terminate, SELECT_ACTIVE. preserve. Qed.

Lemma ackEvents_within ids : preserves db_within (ackEvents ids).
Proof.
  unfold ackEvents. destruct ids; [apply preserves_ret|].
  apply preserves_transaction, preserves_for_each. intros x _. by apply within_modify.
Qed.

Lemma readTerminalAck_within sid : preserves db_within (readTerminalAck sid).
Proof. unfold readTerminalAck, SELECT_TERMINAL_ACK. preserve. Qed.

Lemma observe_within o : preserves (commands_within c) (observe o).
Proof. by intros w Hw. Qed.

Lemma reading_within : preserves (commands_within c) reading.
Proof. by intros w Hw. Qed.

Lemma from_outcome_within {A} (o : outcome A) : preserves (commands_within c) (from_outcome o).
Proof. by intros w Hw. Qed.

Lemma effects_run_within effects : preserves (commands_within c) (effects_run effects).
Proof.
  intros w Hw. destruct (effects_run_spec effects w) as (n & w' & extra & -> & [Hdb _] & _).
  unfold commands_within in *. simpl. by rewrite Hdb.
Qed.

#[local] Hint Resolve loadActive_within createPreparing_within compareAndSwap_within
  terminate_within ackEvents_within readTerminalAck_within observe_within reading_within
  from_outcome_within effects_run_within : preserve.

Lemma route_within command nowMs : preserves (commands_within c) (route command nowMs).
Proof.
  assert (forall t, preserves (commands_within c) (load t)) by (intros t; unfold load; preserve).
  assert (forall s m t, preserves (commands_within c) (commit s m t))
    by (intros; unfold commit; preserve).
  assert (forall t, preserves (commands_within c) (snapshot t)) by (intros; unfold snapshot; preserve).
  unfold route, auxiliary, prepare, start, start_context, replace, repair_transit_walk,
    transit_action, updateSettings, terminate_command, newSessionId, isAppActive,
    permission_state, requestForStart.
  preserve.
Qed.
End within.

(** *** One command *)

Lemma answer_some (m : M World CommandResponse) w :
  match (r ← m; mret (Some r)) w with
  | (Ok None, _) => False
  | _ => True
  end.
Proof. unfold mbind, M_bind. by destruct (m w) as [[r|e] w']. Qed.

Lemma route_answers command nowMs w :
  MUTATING (msg_payload command) = true ->
  match route command nowMs w with (Ok None, _) => False | _ => True end.
Proof. unfold route. destruct (msg_payload command); intros; try done; apply answer_some. Qed.

Lemma clock_run w :
  clock w = (Ok (env_clock (w_readings w)), MkWorld (w_db w) (S (w_readings w)) (w_trace w)).
Proof. done. Qed.

Lemma repo_run {A} (m : M db A) w :
  repo m w = ((m (w_db w)).1, MkWorld (m (w_db w)).2 (w_readings w) (w_trace w)).
Proof. unfold repo, lift. by destruct (m (w_db w)). Qed.

(** The answer a mutating command gets, its effect on the replay table, and the
    reply that is sent. *)
Lemma run_command_answers command nowMs w :
  MUTATING (msg_payload command) = true ->
  db_wf (w_db w) ->
  exists r w1,
    run_command command nowMs w =
      (Ok (Some r),
       MkWorld (rememberCommand (msg_messageId command) (resp_sessionId r) r nowMs (w_db w1)).2
         (w_readings w1) (w_trace w1 ++ [Sent r (Some (msg_messageId command))]))
    /\ db_wf (w_db w1)
    /\ processed_commands (w_db w1) `sublist_of` processed_commands (w_db w).
Proof.
  intros Hmut Hw. pose proof (route_answers command nowMs w Hmut) as Hsome.
  pose proof (route_wf command nowMs w Hw) as Hwf.
  pose proof (route_within (processed_commands (w_db w)) command nowMs w (reflexivity _)) as Hin.
  unfold run_command. destruct (route command nowMs w) as [[[r|]|e] w1] eqn:Er; [|done|].
  - exists r, w1. split; [|done]. erewrite bind_ok by (by apply try_ok, Er). cbv beta iota.
    rewrite Hmut. erewrite bind_ok by (rewrite repo_run, remember_run; reflexivity).
    by rewrite remember_run.
  - eexists _, (MkWorld (w_db w1) (w_readings w1) (w_trace w1 ++ [Logged "typed.error" "command"])).
    split; [|done].
    rewrite (bind_ok _ _ _ _ _ (try_throw _ (_ ← diagnostic "command"; mret (Some _)) _ _ _ Er)).
    cbv beta iota. rewrite Hmut.
    erewrite bind_ok by (rewrite repo_run, remember_run; reflexivity).
    by rewrite remember_run.
Qed.

(** The row of the answer [r] to the command under the id [m], taken at [nowMs]. *)
Definition answer_row (m : string) (r : CommandResponse) (nowMs : Z) : CommandRow :=
  command_row m (resp_sessionId r) r nowMs.

(** A retry that finds its answer, and one that finds none. *)
Lemma kept_answer retry r nowMs w :
  MUTATING (msg_payload retry) = true ->
  db_wf (w_db w) ->
  answer_row (msg_messageId retry) r nowMs ∈ processed_commands (w_db w) ->
  env_clock (w_readings w) < nowMs + PROCESSED_COMMAND_TTL_MS ->
  handleCommand retry w =
    (Ok (Some r), MkWorld (w_db w) (S (w_readings w))
                    (w_trace w ++ [Sent r (Some (msg_messageId retry))])).
Proof.
  intros Hmut Hw Hrow Ht. destruct (wf_commands _ Hw) as [Hnd _].
  pose proof (find_unique cmd_message_id _ _ Hnd Hrow) as F. cbn [answer_row command_row cmd_message_id] in F.
  unfold handleCommand. rewrite (bind_ok _ _ _ _ _ (clock_run w)), Hmut.
  erewrite bind_ok by (rewrite repo_run, lookup_run; reflexivity). cbn [fst snd w_db].
  rewrite F. cbn [answer_row command_row cmd_expires_at_ms cmd_response].
  by rewrite (proj2 (Z.leb_gt _ _) Ht).
Qed.

Lemma forgotten_answer retry w :
  MUTATING (msg_payload retry) = true ->
  msg_messageId retry ∉ map cmd_message_id (processed_commands (w_db w)) ->
  handleCommand retry w =
    run_command retry (env_clock (w_readings w))
      (MkWorld (w_db w) (S (w_readings w)) (w_trace w)).
Proof.
  intros Hmut Hgone. unfold handleCommand. rewrite (bind_ok _ _ _ _ _ (clock_run w)), Hmut.
  erewrite bind_ok by (rewrite repo_run, lookup_run; reflexivity). cbn [fst snd w_db].
  by rewrite find_absent.
Qed.

(** C3: a mutating command is executed at most once while its answer is kept.
    A command whose id is not in the replay table, taken while the table has room
    or everything in it is older, always gets an answer, and leaves in the table
    the row of that answer, good for the twenty-four hours that follow.  In any
    later world that still holds the row, however it came about, and before the
    row expires, a retry under the same id, even with a different body, is
    answered with exactly that response, commits nothing, runs no effect and
    leaves the database as it was: the only thing the outside sees is the answer
    sent again.  A row does go: the session's end erases the session's rows, the
    clean-up erases the expired ones and the cap the oldest; once no row carries
    the id, a retry is executed as a command of its own. *)
Theorem command_executes_once command w :
  MUTATING (msg_payload command) = true ->
  db_wf (w_db w) ->
  let now := env_clock (w_readings w) in
  (length (processed_commands (w_db w)) < MAX_PROCESSED_COMMANDS)%nat
    \/ Forall (fun row => cmd_created_at_ms row < now) (processed_commands (w_db w)) ->
  msg_messageId command ∉ map cmd_message_id (processed_commands (w_db w)) ->
  exists r w1,
    handleCommand command w = (Ok (Some r), w1)
    /\ db_wf (w_db w1)
    /\ answer_row (msg_messageId command) r now ∈ processed_commands (w_db w1)
    /\ forall w2 retry,
         db_wf (w_db w2) ->
         MUTATING (msg_payload retry) = true ->
         msg_messageId retry = msg_messageId command ->
         let later := env_clock (w_readings w2) in
         let read := MkWorld (w_db w2) (S (w_readings w2)) (w_trace w2) in
         (answer_row (msg_messageId command) r now ∈ processed_commands (w_db w2) ->
          later < now + PROCESSED_COMMAND_TTL_MS ->
          handleCommand retry w2 =
            (Ok (Some r), MkWorld (w_db w2) (S (w_readings w2))
                            (w_trace w2 ++ [Sent r (Some (msg_messageId command))])))
         /\ (msg_messageId command ∉ map cmd_message_id (processed_commands (w_db w2)) ->
             handleCommand retry w2 = run_command retry later read).
Proof.
  intros Hmut Hw now Hroom Hfresh.
  set (w0 := MkWorld (w_db w) (S (w_readings w)) (w_trace w)).
  destruct (run_command_answers command now w0 Hmut Hw) as (r & w2 & Hrun & Hwf & Hin).
  exists r. eexists. split; [|split; [|split]].
  - unfold handleCommand. rewrite (bind_ok _ _ _ _ _ (clock_run w)), Hmut.
    erewrite bind_ok by (rewrite repo_run, lookup_run; reflexivity). cbn [fst snd w_db].
    rewrite find_absent by done. exact Hrun.
  - by apply rememberCommand_wf.
  - apply remember_kept; [done| |].
    + destruct Hroom as [Hroom|Hold].
      * left. eapply Nat.le_lt_trans; [by apply sublist_length|done].
      * right. rewrite Forall_forall in Hold |- *. intros x Hx. apply Hold.
        by eapply sublist_subseteq.
    + intros Hc. apply Hfresh. eapply sublist_subseteq; [by apply fmap_sublist|exact Hc].
  - intros w3 retry Hw3 Hmut' Hid later read. split.
    + intros Hrow Hlater. rewrite <- Hid in *. by eapply kept_answer.
    + intros Hgone. apply forgotten_answer; [done|by rewrite Hid].
Qed.

(** ** The repository invariant in every reachable world *)

(** Whatever commands, batches, remote answers and surface or car requests are
    queued, in any order and in any environment, and however any of them fails,
    the database keeps the repository's invariant. *)
Theorem coordinator_keeps_invariant w0 w :
  world_wf w0 -> coordinator_reachable w0 w -> world_wf w.
Proof.
  intros Hw Hr. induction Hr as [|w op Hr IH]; [done|]. by apply run_coordinator_op_wf.
Qed.

(** ** Commands against a state they did not see *)

(** A stale command is refused without a step. *)
Lemma stale_route command nowMs s w :
  authority_of (w_db w) = Authority s ->
  stale_command command s = true ->
  route command nowMs w =
    (Ok (Some (errorResponse "revision-conflict" (Some (msg_messageId command)))), w).
Proof.
  intros Ha. unfold stale_command, route.
  destruct (msg_payload command) as [| | | | |pkg| |pkg e|act fp ph ty leg|fp leg r| | | | | | | | | | | |];
    intros Hst; try done; erewrite bind_ok; try reflexivity.
  - unfold start. rewrite (bind_ok _ _ _ _ _ (load_authority s nowMs w Ha)). by rewrite Hst.
  - unfold replace. rewrite (bind_ok _ _ _ _ _ (load_authority s nowMs w Ha)). by rewrite Hst.
  - unfold transit_action. rewrite (bind_ok _ _ _ _ _ (load_authority s nowMs w Ha)).
    unfold itinerary_fingerprint in Hst. destruct (payload s); [done|]. by rewrite Hst.
  - unfold repair_transit_walk. rewrite (bind_ok _ _ _ _ _ (load_authority s nowMs w Ha)).
    apply orb_true_iff in Hst as [->| ->]; [done|]. by rewrite !orb_true_r.
  - unfold updateSettings. rewrite (bind_ok _ _ _ _ _ (load_authority s nowMs w Ha)). by rewrite Hst.
  - unfold terminate_command. rewrite (bind_ok _ _ _ _ _ (load_authority s nowMs w Ha)). by rewrite Hst.
  - unfold terminate_command. rewrite (bind_ok _ _ _ _ _ (load_authority s nowMs w Ha)). by rewrite Hst.
Qed.

End commands.

(** ** At concrete values *)

Definition quiet_env : CoordinatorDeps := sample_env 2000 (fun _ => false).

Lemma coordinator_keeps_invariant_witness :
  world_wf (run_coordinator_op (env := quiet_env)
              (OpDispatch (sample_command "m1" (Some "s1") (Some 3) SessionStop))
              (world_of (sample_ground 3 Active))).2.
Proof.
  apply (coordinator_keeps_invariant (env := quiet_env) (world_of (sample_ground 3 Active))).
  - apply world_of_wf.
  - apply coord_step, coord_start.
Defined.

(** The answer of a settings command, and of a retry with another body after a
    batch that was taken in between. *)
Lemma command_executes_once_witness :
  exists r w1,
    handleCommand (env := quiet_env)
      (sample_command "m1" (Some "s1") (Some 3) (SettingsUpdate (Some De) None None None None None))
      (world_of (sample_ground 3 Active)) = (Ok (Some r), w1)
    /\ (handleCommand (env := quiet_env) (sample_command "m1" None None SessionStop)
          (run_coordinator_op (env := quiet_env)
             (OpLocationBatch {| batch_locations := []; batch_errorCode := None |}) w1).2).1
       = Ok (Some r).
Proof.
  destruct (command_executes_once (env := quiet_env)
    (sample_command "m1" (Some "s1") (Some 3) (SettingsUpdate (Some De) None None None None None))
    (world_of (sample_ground 3 Active))) as (r & w1 & E & Hwf & Hrow & Hretry).
  - reflexivity.
  - apply world_of_wf.
  - left. vm_compute. lia.
  - vm_compute. intros Hin. inversion Hin.
  - exists r, w1. split; [exact E|].
    pose proof (run_coordinator_op_wf (env := quiet_env)
      (OpLocationBatch {| batch_locations := []; batch_errorCode := None |}) w1 Hwf) as Hwf2.
    assert ((Ok (Some r), w1) = handleCommand (env := quiet_env)
      (sample_command "m1" (Some "s1") (Some 3) (SettingsUpdate (Some De) None None None None None))
      (world_of (sample_ground 3 Active))) as E' by (symmetry; exact E).
    destruct (Hretry _ (sample_command "m1" None None SessionStop) Hwf2 eq_refl eq_refl) as [Hkept _].
    rewrite Hkept; [reflexivity| |reflexivity].
    apply (f_equal snd) in E'. cbn [snd] in E'. rewrite E' in *.
    apply (f_equal fst) in E. vm_compute in E. apply Ok_inj in E. injection E as <-.
    vm_compute. left.
Defined.

