(* ===== verification/Guarantees.v ===== *)
(** * What each handler of the coordinator guarantees

    Over the handlers of [Coordinator]: the start sequence, the four fates of a
    location batch, answers that come too late, and what the handlers do at the
    edges of the clock, of the counters and of the settings. *)

From S2P Require Import Prelude Protocol Cues Session Snapshot Itinerary Captures Samples Database Repository RepositoryFacts Register Effects Reroute Refresh Location Processor SampleEngine Ground GroundFacts Coordinator SampleWorld CoordinatorFacts Commands.

Section guarantees.
Context `{ReceiptValidators} `{TransitProgressEngine} `{DateParser}.
Context `{env : CoordinatorDeps}.

(** ** Steps that do not touch the database *)

(** A step that writes nothing and attempts no effect. *)
Definition quiet {A} (m : M World A) : Prop :=
  forall w, exists extra, watched w (m w).2 extra /\ ran extra = [].

Lemma quiet_ret {A} (a : A) : quiet (mret a).
Proof. intros w. exists []. split; [apply watched_refl|done]. Qed.

Lemma quiet_reading {A} (f : nat -> M World A) : (forall n, quiet (f n)) -> quiet (n ← reading; f n).
Proof.
  intros Hf w. destruct (Hf (w_readings w) (MkWorld (w_db w) (S (w_readings w)) (w_trace w)))
    as (extra & [E1 E2] & Hr). exists extra. done.
Qed.

Lemma quiet_outcome {A} (o : outcome A) : quiet (from_outcome o).
Proof. intros w. exists []. split; [apply watched_refl|done]. Qed.

Lemma quiet_observe o : ran [o] = [] -> quiet (observe o).
Proof. intros Ho w. by exists [o]. Qed.

Lemma quiet_bind {A B} (m : M World A) (f : A -> M World B) :
  quiet m -> (forall a, quiet (f a)) -> quiet (m ≫= f).
Proof.
  intros Hm Hf w. destruct (Hm w) as (l & Hw & Hl). unfold mbind, M_bind.
  destruct (m w) as [[a|e] w1]; [|by exists l].
  destruct (Hf a w1) as (k & Hw' & Hk). exists (l ++ k). split; [by eapply watched_trans|].
  by rewrite ran_app, Hl, Hk.
Qed.

Lemma quiet_start_context c : quiet (start_context c).
Proof.
  unfold start_context, isAppActive. destruct c; [apply quiet_ret|].
  destruct env_startContext; [apply quiet_reading; intros; apply quiet_ret|].
  apply quiet_bind; [apply quiet_reading; intros; apply quiet_ret|]. intros. apply quiet_ret.
Qed.

Lemma quiet_permission : quiet permission_state.
Proof. unfold permission_state. apply quiet_reading. intros. apply quiet_outcome. Qed.

Lemma quiet_request : quiet requestForStart.
Proof.
  unfold requestForStart. apply quiet_reading. intros. apply quiet_bind; [by apply quiet_observe|].
  intros. apply quiet_outcome.
Qed.

(** ** Where a handler ends *)

(** From [w], [m] adds a stretch to the trace, and the answer, the world and the
    stretch satisfy [P]. *)
Definition ends {A} (m : M World A) (w : World) (P : outcome A -> World -> list observation -> Prop)
    : Prop :=
  exists extra, w_trace (m w).2 = w_trace w ++ extra /\ P (m w).1 (m w).2 extra.

#[local] Instance ends_proper {A} (m : M World A) w :
  Proper (pointwise_relation _ (pointwise_relation _ (pointwise_relation _ iff)) ==> iff) (ends m w).
Proof.
  intros P Q HPQ. unfold ends. split; intros (l & E & HP); exists l; (split; [done|]); by apply HPQ.
Qed.

Lemma ends_ret {A} (a : A) w (P : outcome A -> World -> list observation -> Prop) :
  P (Ok a) w [] -> ends (mret a) w P.
Proof. intros HP. exists []. split; [by rewrite app_nil_r|done]. Qed.

(** After a quiet step the rest continues from the same database. *)
Lemma ends_quiet {A B} (m : M World A) (f : A -> M World B) w
    (P : outcome B -> World -> list observation -> Prop) :
  quiet m ->
  (forall e w' l, watched w w' l -> ran l = [] -> P (Throw e) w' l) ->
  (forall a w' l, watched w w' l -> ran l = [] ->
     ends (f a) w' (fun o w'' k => P o w'' (l ++ k))) ->
  ends (m ≫= f) w P.
Proof.
  intros Hm Hthrow Hf. destruct (Hm w) as (l & Hw & Hl). unfold ends, mbind, M_bind.
  destruct (m w) as [[a|e] w1].
  - destruct (Hf a w1 l Hw Hl) as (k & E & HP). exists (l ++ k). split; [|done].
    destruct Hw as [_ Ht]. simpl in *. by rewrite E, Ht, app_assoc.
  - exists l. split; [apply Hw|]. by apply Hthrow.
Qed.

(** A step whose result is known. *)
Lemma ends_step {A B} (m : M World A) (f : A -> M World B) w a w' l
    (P : outcome B -> World -> list observation -> Prop) :
  m w = (Ok a, w') -> w_trace w' = w_trace w ++ l ->
  ends (f a) w' (fun o w'' k => P o w'' (l ++ k)) -> ends (m ≫= f) w P.
Proof.
  intros Hm Ht (k & E & HP). exists (l ++ k). rewrite (bind_ok _ _ _ _ _ Hm).
  split; [|done]. by rewrite E, Ht, app_assoc.
Qed.

(** A repository step, which the trace does not see. *)
Lemma ends_repo {A B} (m : M db A) (f : A -> M World B) w a d'
    (P : outcome B -> World -> list observation -> Prop) :
  repo m w = (Ok a, MkWorld d' (w_readings w) (w_trace w)) ->
  ends (f a) (MkWorld d' (w_readings w) (w_trace w)) P -> ends (repo m ≫= f) w P.
Proof. intros Hm Hf. eapply (ends_step _ _ _ _ _ []); [exact Hm|by rewrite app_nil_r|exact Hf]. Qed.

(** Attempting effects. *)
Lemma ends_effects {B} effects (f : Z -> M World B) w
    (P : outcome B -> World -> list observation -> Prop) :
  (forall n w' l, watched w w' l -> ran l = sort_by ORDER effects -> 0 <= n ->
     attempted_over (w_db w) l ->
     ends (f n) w' (fun o w'' k => P o w'' (l ++ k))) ->
  ends (effects_run effects ≫= f) w P.
Proof.
  intros Hf. destruct (effects_run_spec effects w) as (n & w' & l & E & Hw & Hran & Hn & _ & _ & Hover).
  eapply ends_step; [exact E|apply Hw|]. by apply Hf.
Qed.

Lemma ends_load {B} (f : option MobileNavigationSession -> M World B) s nowMs w
    (P : outcome B -> World -> list observation -> Prop) :
  authority_of (w_db w) = Authority s -> ends (f (Some s)) w P -> ends (load nowMs ≫= f) w P.
Proof.
  intros Ha Hf. eapply (ends_step _ _ _ _ _ []); [by apply load_authority|by rewrite app_nil_r|exact Hf].
Qed.

Lemma watched_authority w w' l s :
  watched w w' l -> authority_of (w_db w) = s -> authority_of (w_db w') = s.
Proof. by intros [-> _]. Qed.

(** ** Starting *)

(** The session [start] commits. *)
Definition started (mode : PermissionMode) (nowMs : Z) (s : MobileNavigationSession) :=
  mut_session (started_mutation mode nowMs s).

Lemma started_readable mode nowMs s :
  mobileNavigationSessionSchema s = true -> revision s < MAX_SAFE_INTEGER ->
  startedAtMs s <= nowMs <= MAX_SAFE_INTEGER ->
  published (started mode nowMs s) = Authority (started mode nowMs s).
Proof.
  intros Hs Hr Ht. unfold published.
  destruct (schema_parts s Hs) as (Hl & Hf & Hp).
  by rewrite (schema_next s (started mode nowMs s) nowMs).
Qed.

(** The effects of a start whose commit went through, and of the clean-up after a
    failed one. *)
Definition start_effects (mode : PermissionMode) : list SessionEffect :=
  [StartLocation mode; PublishSnapshot true].
Definition cleanup_effects (sid : string) : list SessionEffect :=
  sort_by ORDER (termination_effects sid).

(** How a start may end. *)
Definition start_result (s : MobileNavigationSession) (nowMs : Z)
    (o : outcome CommandResponse) (w' : World) (extra : list observation) : Prop :=
  match o with
  | Ok r =>
      (resp_type r = "session.started" /\ status s = Preparing
       /\ exists mode, authority_of (w_db w') = Authority (started mode nowMs s)
            /\ ran extra = start_effects mode)
      \/ (resp_type r = "native.error"
          /\ ((authority_of (w_db w') = Authority s /\ ran extra = [])
              \/ (authority_of (w_db w') = NoAuthority
                  /\ (ran extra = []
                      \/ exists mode, ran extra = start_effects mode ++ cleanup_effects (sessionId s)))))
  | Throw _ => authority_of (w_db w') = Authority s /\ ran extra = []
  end.

Lemma start_refused code m s nowMs w :
  authority_of (w_db w) = Authority s ->
  forall l, ran l = [] ->
  ends (mret (errorResponse code (Some m))) w (fun o w'' k => start_result s nowMs o w'' (l ++ k)).
Proof. intros Ha l Hl. apply ends_ret. rewrite app_nil_r. right. split; [done|]. by left. Qed.

(** From the commit on: a start ends active with the driver attempted and no
    effect failed, or with nothing. *)
Lemma start_commit m mode s nowMs w l :
  world_wf w -> authority_of (w_db w) = Authority s -> status s = Preparing ->
  revision s < MAX_SAFE_INTEGER -> startedAtMs s <= nowMs <= MAX_SAFE_INTEGER ->
  ran l = [] ->
  ends (committed ← repo (compareAndSwap (sessionId s) (revision s)
                            (started_mutation mode nowMs) nowMs);
        match committed with
        | CommitFail code => mret (errorResponse (commit_failure_code code) (Some m))
        | CommitOk session effects =>
            failed ← effects_run effects;
            if 0 <? failed then
              cleanup ← repo (terminate (sessionId session) FinalError nowMs);
              _ ← effects_run cleanup.2;
              mret (errorResponse "driver-start-failed" (Some m))
            else mret (revisionResponse "session.started" session)
        end) w (fun o w'' k => start_result s nowMs o w'' (l ++ k)).
Proof.
  intros Hw Ha Hst Hr Ht Hl. pose proof (authority_valid _ _ Ha) as Hs.
  pose proof (schema_revision s Hs) as Hr0.
  destruct (cas_commits s (started_mutation mode nowMs) nowMs w Ha) as (d' & Hcas & Hd');
    [unfold lawful; simpl; split_and!; try done; lia|].
  fold (started mode nowMs s) in Hcas, Hd'. rewrite started_readable in Hd' by done.
  assert (db_wf d') as Hwf.
  { pose proof (repo_wf _ (compareAndSwap_wf (sessionId s) (revision s) (started_mutation mode nowMs)
      nowMs) w Hw) as Hwf. by rewrite Hcas in Hwf. }
  eapply ends_repo; [exact Hcas|]. cbv beta iota. apply ends_effects.
  intros n w1 l1 Hw1 Hr1 Hn _.
  pose proof (watched_authority _ _ _ _ Hw1 Hd') as Ha1.
  destruct (0 <? n).
  - assert (world_wf w1) as Hwf1 by (unfold world_wf; destruct Hw1 as [-> _]; exact Hwf).
    destruct (terminate_authority_run (started mode nowMs s) FinalError nowMs w1 Hwf1 Ha1)
      as (ack & d2 & Hterm & Hd2 & _). change (sessionId (started mode nowMs s)) with (sessionId s) in Hterm.
    eapply ends_repo; [exact Hterm|]. apply ends_effects. intros n2 w2 l2 Hw2 Hr2 _ _.
    apply ends_ret. right. split; [done|]. right. split.
    + by apply (watched_authority _ _ _ _ Hw2).
    + right. exists mode. rewrite !ran_app, Hl, Hr1, Hr2. done.
  - apply ends_ret. left. split; [done|]. split; [done|]. exists mode. split; [done|].
    rewrite !ran_app, Hl, Hr1. done.
Qed.

Lemma watched_wf w w' l : watched w w' l -> world_wf w -> world_wf w'.
Proof. unfold world_wf. by intros [-> _]. Qed.

(** C1: a start is all or nothing.  From a readable session, whatever the
    permissions, the prompt, the driver and the other ports do, a start that
    answers "session.started" has committed the session as active under the
    granted mode and attempted its location stream once; any other end leaves
    the session exactly as it was with no effect attempted, or no session at all,
    and in the latter case a stream that was attempted is followed by the whole
    clean-up, which stops it.  No phantom session is left guiding without a
    stream, and no stream without a session. *)
Theorem start_is_all_or_nothing m sid rev nowMs ctx valid s w :
  world_wf w -> authority_of (w_db w) = Authority s -> quiet valid ->
  revision s < MAX_SAFE_INTEGER -> startedAtMs s <= nowMs <= MAX_SAFE_INTEGER ->
  ends (start m sid rev nowMs ctx valid) w (start_result s nowMs).
Proof.
  intros Hw Ha Hvalid Hr Ht. unfold start. apply (ends_load _ s); [done|].
  assert (forall code, ends (mret (errorResponse code (Some m))) w (start_result s nowMs)) as Href
    by (intros code; apply (start_refused code m s nowMs w Ha [] eq_refl)).
  destruct (negb (matches sid rev s)); [done|].
  destruct (negb (bool_decide (status s = Preparing))) eqn:Est; [done|].
  apply negb_false_iff, bool_decide_eq_true in Est.
  destruct (negb (supports env_processors (kind s))); [done|].
  apply ends_quiet; [apply quiet_start_context| |].
  { intros e w' l Hw' Hl. split; [by apply (watched_authority _ _ _ _ Hw')|done]. }
  intros c w1 l1 Hw1 Hl1. pose proof (watched_authority _ _ _ _ Hw1 Ha) as Ha1.
  apply ends_quiet; [apply quiet_permission| |].
  { intros e w' l Hw' Hl. split; [by apply (watched_authority _ _ _ _ Hw')|]. by rewrite ran_app, Hl1, Hl. }
  intros perm w2 l2 Hw2 Hl2. pose proof (watched_authority _ _ _ _ Hw2 Ha1) as Ha2.
  assert (ran (l1 ++ l2) = []) as Hl12 by (by rewrite ran_app, Hl1, Hl2).
  destruct (negb (allowsNavigationStart c perm)).
  { setoid_rewrite app_assoc. by apply start_refused. }
  apply ends_quiet; [destruct c; [apply quiet_request|apply quiet_ret|apply quiet_request]| |].
  { intros e w' l Hw' Hl. split; [by apply (watched_authority _ _ _ _ Hw')|].
    by rewrite !ran_app, Hl1, Hl2, Hl. }
  intros decision w3 l3 Hw3 Hl3. pose proof (watched_authority _ _ _ _ Hw3 Ha2) as Ha3.
  assert (world_wf w3) as Hwf3 by eauto using watched_wf.
  assert (ran (l1 ++ l2 ++ l3) = []) as Hl123 by (by rewrite !ran_app, Hl1, Hl2, Hl3).
  destruct (granted_mode decision) as [mode|].
  - apply ends_quiet; [apply Hvalid| |].
    { intros e w' l Hw' Hl. split; [by apply (watched_authority _ _ _ _ Hw')|].
      by rewrite !ran_app, Hl1, Hl2, Hl3, Hl. }
    intros ok w4 l4 Hw4 Hl4. pose proof (watched_authority _ _ _ _ Hw4 Ha3) as Ha4.
    assert (world_wf w4) as Hwf4 by eauto using watched_wf.
    assert (ran (l1 ++ l2 ++ l3 ++ l4) = []) as Hl1234
      by (by rewrite !ran_app, Hl1, Hl2, Hl3, Hl4).
    setoid_rewrite (app_assoc l3). setoid_rewrite (app_assoc l2). setoid_rewrite (app_assoc l1).
    destruct (negb ok); [by apply start_refused|]. by apply start_commit.
  - destruct (terminate_authority_run s FinalError nowMs w3 Hwf3 Ha3) as (ack & d2 & Hterm & Hd2 & _).
    eapply ends_repo; [exact Hterm|]. apply ends_ret. rewrite !app_nil_r.
    right. split; [done|]. right. split; [done|]. by left.
Qed.

(** ** Location batches *)

Lemma ends_clock {B} (f : Z -> M World B) w (P : outcome B -> World -> list observation -> Prop) :
  ends (f (env_clock (w_readings w))) (MkWorld (w_db w) (S (w_readings w)) (w_trace w)) P ->
  ends (clock ≫= f) w P.
Proof. intros Hf. eapply (ends_step _ _ _ _ _ []); [apply clock_run|by rewrite app_nil_r|exact Hf]. Qed.

(** A batch that only nudges the surfaces. *)
Lemma ends_reconcile w (P : outcome unit -> World -> list observation -> Prop) :
  (forall w' l, watched w w' l -> ran l = [ReconcileSurface] -> attempted_over (w_db w) l ->
     P (Ok tt) w' l) ->
  ends (_ ← effects_run [ReconcileSurface]; mret tt) w P.
Proof.
  intros HP. apply ends_effects. intros n w' l Hw Hl _ Hover. apply ends_ret. rewrite app_nil_r. by apply HP.
Qed.

(** The catch of a handler that only logs. *)
Lemma ends_catch scope (m : M World unit) w (P : outcome unit -> World -> list observation -> Prop) :
  ends m w (fun o w' l => match o with
                          | Ok _ => P (Ok tt) w' l
                          | Throw _ => forall w'', w_db w'' = w_db w' ->
                                         P (Ok tt) w'' (l ++ [Logged "typed.error" scope])
                          end) ->
  ends (try_catch m (diagnostic scope)) w P.
Proof.
  intros (l & E & HP). unfold ends. destruct (m w) as [[[]|e] w'] eqn:Em; simpl in *.
  - exists l. by rewrite (try_ok _ _ _ _ _ Em).
  - exists (l ++ [Logged "typed.error" scope]). rewrite (try_throw _ _ _ _ _ Em).
    unfold diagnostic, observe, modify. simpl. split; [by rewrite E, app_assoc|]. by apply HP.
Qed.

Lemma ran_logged l type scope : ran (l ++ [Logged type scope]) = ran l.
Proof. by rewrite ran_app, app_nil_r. Qed.

(** What a batch must do, from the session it finds: the database it leaves and the
    effects it attempts. *)
Definition batch_result (batch : LocationBatch) (s : MobileNavigationSession) (nowMs : Z) (d : db)
    (w' : World) (extra : list observation) : Prop :=
  let nothing := w_db w' = d /\ ran extra = [] in
  if isMobileSessionExpired s nowMs then
    authority_of (w_db w') = NoAuthority /\ erased (sessionId s) (w_db w')
    /\ ran extra = cleanup_effects (sessionId s)
  else if negb (bool_decide (status s = Active)) then
    w_db w' = d /\ ran extra = [ReconcileSurface]
  else match env_processors (kind s) with
  | None => nothing
  | Some p =>
      let fixes := (sanitiseFixes (batch_locations batch) nowMs
                      (fix_timestampMs <$> lastAcceptedFix s)).1 in
      if match fixes with [] => negb (needsScheduleTicks p) | _ => false end then nothing
      else match processFixes p s fixes nowMs with
           | Ok m => revision (mut_session m) = revision s + 1
                     /\ authority_of (w_db w') = published (mut_session m)
                     /\ ran extra = sort_by ORDER (mut_effects m)
           | Throw _ => nothing
           end
  end.

Lemma location_batch_spec batch s w :
  world_wf w -> authority_of (w_db w) = Authority s -> lawful_registry env_processors ->
  ends (handleLocationBatch batch) w (fun o w' extra =>
    o = Ok tt /\ batch_result batch s (env_clock (w_readings w)) (w_db w) w' extra
    /\ attempted_over (w_db w') extra).
Proof.
  intros Hw Ha [Hkind Hlaws]. unfold handleLocationBatch. apply ends_catch.
  cbn [processBatch]. apply ends_clock. set (w1 := MkWorld _ _ _). set (nowMs := env_clock _).
  apply (ends_load _ s); [done|]. unfold batch_result.
  destruct (isMobileSessionExpired s nowMs).
  { destruct (terminate_authority_run s FinalExpired nowMs w1 Hw Ha)
      as (ack & d2 & Hterm & Hd2 & Herased & _).
    eapply ends_repo; [exact Hterm|]. apply ends_effects. intros n w2 l Hw2 Hl _ Hover.
    apply ends_ret. rewrite app_nil_r. split; [done|]. destruct Hw2 as [E _]. simpl in E, Hover.
    by rewrite E. }
  destruct (negb (bool_decide (status s = Active))).
  { apply ends_reconcile. intros w2 l [E _] Hl Hover. by rewrite E. }
  destruct (env_processors (kind s)) as [p|] eqn:Ep; [|apply ends_ret; split; [done|]; split; [done|constructor]].
  set (sanitised := sanitiseFixes _ _ _).
  eapply (ends_step _ _ _ tt _ [Logged "location.batch" ""]); [done|done|].
  set (w2 := MkWorld _ _ _). assert (authority_of (w_db w2) = Authority s) as Ha2 by done.
  destruct (match sanitised.1 with [] => _ | _ => _ end).
  { apply ends_ret. rewrite app_nil_r. split; [done|]. split; [done|]. repeat constructor. }
  destruct (processFixes p s sanitised.1 nowMs) as [m|e] eqn:Em.
  - assert (advances s nowMs m) as Hadv
      by (eapply (law_fixes (ProcessorLaws := Hlaws _ _ Ep)); [by rewrite (Hkind _ _ Ep)|exact Em]).
    eapply (ends_step _ _ _ m _ []); [done|by rewrite app_nil_r|].
    destruct (commit_advances s m nowMs w2 Ha2 Hadv) as (d3 & Hc & Hd3).
    eapply (ends_step _ _ _ _ _ []); [exact Hc|by rewrite app_nil_r|].
    apply ends_effects. intros n w4 l4 [E4 _] Hl4 _ Hover. apply ends_ret.
    simpl in *. rewrite app_nil_r, E4, <- Hl4. pose proof (adv_revision _ _ _ Hadv).
    split; [done|]. split; [done|]. by constructor.
  - exists []. split; [by rewrite app_nil_r|]. intros w'' E. simpl in E. rewrite E.
    split; [done|]. split; [done|]. repeat constructor.
Qed.

(** C2: a batch becomes exactly one revision, committed before anything is done
    about it.  An expired session is ended with the whole clean-up; a session that
    is not active, or a batch with nothing usable for a mode that needs a
    position, leaves the database as it was, and so does a batch on which the
    processor throws; otherwise the session becomes what the processor made of
    the fixes, one revision later, and the effects of that one commit are
    attempted in order.  Every effect finds the database the handler leaves: the
    commit, or the erasure of the expired session, is done when the first of them
    is attempted.  The handler itself never rejects, whatever the processor or
    the ports do, from a database that keeps the repository's invariant and with
    processors that obey the registry's laws. *)
Theorem location_batch_is_one_revision batch s w :
  world_wf w -> authority_of (w_db w) = Authority s -> lawful_registry env_processors ->
  ends (handleLocationBatch batch) w (fun o w' extra =>
    o = Ok tt /\ batch_result batch s (env_clock (w_readings w)) (w_db w) w' extra
    /\ attempted_over (w_db w') extra).
Proof. apply location_batch_spec. Qed.

(** ** Answers that come too late *)

(** The session still waits for this route. *)
Definition awaits_route (s : MobileNavigationSession) (outcome : RerouteOutcome) : bool :=
  match payload s with
  | GroundSession p =>
      bool_decide (status s = Active) && String.eqb (sessionId s) (ro_sessionId outcome)
      && bool_decide (rr_requestId (g_reroute p) = Some (ro_requestId outcome))
  | TransitSession _ => false
  end.

(** The session still waits for this refresh. *)
Definition awaits_refresh (s : MobileNavigationSession) (outcome : RefreshOutcome) : bool :=
  match payload s with
  | TransitSession p =>
      bool_decide (status s = Active) && String.eqb (sessionId s) (rfo_sessionId outcome)
      && bool_decide (rf_status (p_refresh p) = RfInFlight)
      && isCurrentGeneration (p_refresh p) (rfo_generation outcome) (rfo_requestId outcome)
  | GroundSession _ => false
  end.

Lemma late_route s outcome w :
  authority_of (w_db w) = Authority s -> awaits_route s outcome = false ->
  applyReroute outcome w = (Ok tt, MkWorld (w_db w) (S (w_readings w)) (w_trace w)).
Proof.
  intros Ha Hs. unfold applyReroute. apply try_ok. unfold commitReroute.
  rewrite (bind_ok _ _ _ _ _ (clock_run w)).
  set (w1 := MkWorld _ _ _). rewrite (bind_ok _ _ _ _ _ (load_authority s _ w1 Ha)).
  unfold awaits_route in Hs. destruct (payload s) as [p|p]; [|done].
  destruct (bool_decide (status s = Active)); [|done].
  destruct (String.eqb (sessionId s) _); [|done]. by destruct (bool_decide (rr_requestId _ = _)).
Qed.

Lemma late_refresh s outcome w :
  authority_of (w_db w) = Authority s -> awaits_refresh s outcome = false ->
  applyTransitRefresh outcome w = (Ok tt, MkWorld (w_db w) (S (w_readings w)) (w_trace w)).
Proof.
  intros Ha Hs. unfold applyTransitRefresh. rewrite (bind_ok _ _ _ _ _ (clock_run w)).
  set (w1 := MkWorld _ _ _). rewrite (bind_ok _ _ _ _ _ (load_authority s _ w1 Ha)).
  unfold awaits_refresh in Hs. destruct (payload s) as [p|p]; [done|].
  destruct (bool_decide (status s = Active)); [|done].
  destruct (String.eqb (sessionId s) _); [|done].
  destruct (bool_decide (rf_status _ = _)); [|done]. cbn [negb orb andb] in *. by rewrite Hs.
Qed.

(** an answer the session no longer waits for changes nothing.  A route for
    another session, for a session that is not active, or for a request that a
    newer one has replaced, and a refresh of another session or of an older
    generation, leave the database as it was and attempt no effect, whatever the
    answer says. *)
Theorem late_answers_change_nothing s w :
  authority_of (w_db w) = Authority s ->
  (forall outcome, awaits_route s outcome = false ->
     applyReroute outcome w = (Ok tt, MkWorld (w_db w) (S (w_readings w)) (w_trace w)))
  /\ (forall outcome, awaits_refresh s outcome = false ->
        applyTransitRefresh outcome w = (Ok tt, MkWorld (w_db w) (S (w_readings w)) (w_trace w))).
Proof. intros Ha. split; intros outcome; [by apply late_route|by apply late_refresh]. Qed.

(** ** Edges *)

(** The sixty-fifth failure. *)
Lemma reroute_failed_unreadable s p code nowMs jitter :
  64 <= rr_attempts (g_reroute p) ->
  published (mut_session (reroute_failed s p code nowMs jitter)) = Unreadable (sessionId s).
Proof.
  intros Hn.
  assert (groundRerouteStateSchema (onRerouteFailed (g_reroute p) code nowMs jitter) = false) as E.
  { unfold groundRerouteStateSchema, onRerouteFailed. cbn [rr_attempts rr_requestId opt_ok].
    rewrite (proj2 (Z.leb_gt (rr_attempts (g_reroute p) + 1) 64)) by lia.
    by rewrite !andb_false_r. }
  unfold published, mobileNavigationSessionSchema. cbn [reroute_failed mut_session set_payload payload
    payloadSchema with_reroute]. unfold groundPayloadSchema. cbn [g_reroute with_reroute].
  by rewrite E, !andb_false_r.
Qed.

(** the sixty-fifth failed route ends a journey.  The failure count of a
    reroute grows with every failed answer and is carried into the next request,
    and nothing stops the requests; the schema caps it at 64.  A session that has
    failed 64 times and gets one more failed answer is committed with a count no
    load accepts: the row reads back as unreadable and is quarantined. *)
Theorem too_many_failures_lose_the_session s p outcome code w :
  authority_of (w_db w) = Authority s -> payload s = GroundSession p ->
  awaits_route s outcome = true -> ro_result outcome = inr code -> code <> "aborted" ->
  rr_attempts (g_reroute p) = 64 ->
  authority_of (w_db (applyReroute outcome w).2) = Unreadable (sessionId s).
Proof.
  intros Ha Hp Hs Hres Hcode Hn.
  assert (ends (applyReroute outcome) w
            (fun _ w' _ => authority_of (w_db w') = Unreadable (sessionId s))) as (l & _ & HP); [|exact HP].
  unfold applyReroute. apply ends_catch. unfold commitReroute. apply ends_clock.
  set (w1 := MkWorld _ _ _). apply (ends_load _ s); [done|].
  unfold awaits_route in Hs. rewrite Hp in *. rewrite !andb_true_iff in Hs.
  destruct Hs as [[-> ->] ->]. cbn [negb]. rewrite Hres.
  rewrite (proj2 (String.eqb_neq code "aborted") Hcode).
  unfold reroute_replacement. cbn [negb].
  eapply (ends_step _ _ _ None w1 []); [done|by rewrite app_nil_r|].
  eapply (ends_step _ _ _ _ (MkWorld (w_db w1) (S (w_readings w1)) (w_trace w1)) []);
    [done|by rewrite app_nil_r|].
  set (w2 := MkWorld _ _ _). set (m := reroute_failed _ _ _ _ _).
  destruct (commit_advances s m (env_clock (w_readings w)) w2) as (d3 & Hc & Hd3).
  { exact Ha. }
  { split; try done. unfold kind, m, reroute_failed. simpl. by rewrite Hp. }
  eapply (ends_step _ _ _ _ _ []); [exact Hc|by rewrite app_nil_r|].
  apply ends_effects. intros n w4 l4 [E4 _] _ _ _. apply ends_ret. simpl in E4. rewrite E4, Hd3.
  apply reroute_failed_unreadable. lia.
Qed.

(** a clock that steps back loses the session.  A session is readable only if
    it was updated no earlier than it started, and a batch stamps the update with
    the clock of the moment: when the clock reads earlier than the start, the
    batch commits a row that no load accepts. *)
Theorem clock_step_back_loses_the_session batch s p m w :
  world_wf w -> authority_of (w_db w) = Authority s -> lawful_registry env_processors ->
  status s = Active -> env_processors (kind s) = Some p ->
  let nowMs := env_clock (w_readings w) in
  nowMs < startedAtMs s ->
  let fixes := (sanitiseFixes (batch_locations batch) nowMs
                  (fix_timestampMs <$> lastAcceptedFix s)).1 in
  fixes <> [] \/ needsScheduleTicks p = true ->
  processFixes p s fixes nowMs = Ok m ->
  authority_of (w_db (handleLocationBatch batch w).2) = Unreadable (sessionId s).
Proof.
  intros Hw Ha Hreg Hst Hp nowMs Hback fixes Hfix Hm.
  assert (advances s nowMs m) as Hadv
    by (destruct Hreg as [Hk Hl]; eapply (law_fixes (ProcessorLaws := Hl _ _ Hp)); [by rewrite (Hk _ _ Hp)|exact Hm]).
  destruct (location_batch_spec batch s w Hw Ha Hreg) as (l & _ & _ & HP & _).
  unfold batch_result in HP.
  assert (isMobileSessionExpired s (env_clock (w_readings w)) = false) as Hexp.
  { pose proof (schema_lifetime s (authority_valid _ _ Ha)). unfold isMobileSessionExpired.
    apply Z.leb_gt. lia. }
  rewrite Hexp, Hst, bool_decide_true, Hp in HP by done. cbn [negb] in HP.
  change (sanitiseFixes _ _ _).1 with fixes in HP. change (env_clock (w_readings w)) with nowMs in HP.
  replace (match fixes with [] => negb (needsScheduleTicks p) | _ => false end) with false in HP
    by (destruct fixes; [destruct Hfix as [?| ->]; done|done]).
  rewrite Hm in HP. destruct HP as (_ & -> & _). unfold published.
  destruct Hadv as [Eid _ Eup Est _ _ _].
  assert (hasCoherentLifetime (mut_session m) = false) as Hlife.
  { unfold hasCoherentLifetime. rewrite Eup, Est. by rewrite (proj2 (Z.ltb_lt _ _) Hback). }
  unfold mobileNavigationSessionSchema. by rewrite Hlife, andb_false_r, Eid.
Qed.

(** an expired session blocks the next one.  The coordinator lets a prepare
    through when the current session has expired, but the repository refuses to
    create over any session that has not ended: the page is told a session is
    active, for as long as no batch and no stop ends the expired one. *)
Theorem expired_session_blocks_prepare m pkg s p prepared nowMs w :
  authority_of (w_db w) = Authority s -> lawful_registry env_processors ->
  isMobileSessionExpired s nowMs = true -> isTerminal s = false ->
  env_processors (package_kind pkg) = Some p ->
  proc_prepare p pkg (env_newSessionId (w_readings w)) nowMs ModeForegroundOnly = Ok (inl prepared) ->
  exists w', prepare m pkg nowMs w = (Ok (errorResponse "session-active" (Some m)), w')
    /\ w_db w' = w_db w.
Proof.
  intros Ha Hreg Hexp Hterm Hp Hprep. unfold prepare. rewrite Hp.
  rewrite (bind_ok _ _ _ _ _ (load_authority s nowMs w Ha)). cbv beta iota.
  rewrite Hexp, Hterm. cbn [negb andb].
  set (w1 := MkWorld (w_db w) (S (w_readings w)) (w_trace w)).
  assert (prepares (env_newSessionId (w_readings w)) nowMs ModeForegroundOnly (proc_kind p) prepared)
    as [_ Hrev _ _ _ _ _ _]
    by (destruct Hreg as [_ Hl]; by eapply (law_prepare (ProcessorLaws := Hl _ _ Hp))).
  rewrite (bind_ok newSessionId _ w (env_newSessionId (w_readings w)) w1 eq_refl).
  rewrite (bind_ok (from_outcome _) _ w1 (inl prepared) w1) by (unfold from_outcome; by rewrite Hprep).
  rewrite (bind_ok (repo _) _ w1 (CommitFail SessionActive) w1); [by exists w1|].
  rewrite repo_run, create_run by lia. change (w_db w1) with (w_db w). unfold isTerminal in Hterm.
  by rewrite Ha, Hterm.
Qed.

(** the page's voice switch does not reach the session.  The settings command
    carries the voice, screen, timing and alert settings, which the schema
    accepts; the handler answers with a fresh snapshot and commits a session in
    which only the locale, the units and the time moved: the start package, which
    is what the batches consult before they speak, keeps the old settings. *)
Theorem voice_switch_is_dropped command loc un ve ks al vt s nowMs w :
  authority_of (w_db w) = Authority s ->
  msg_payload command = SettingsUpdate loc un ve ks al vt ->
  matches (msg_sessionId command) (msg_revision command) s = true ->
  revision s < MAX_SAFE_INTEGER -> startedAtMs s <= nowMs <= MAX_SAFE_INTEGER ->
  exists r w' s',
    route command nowMs w = (Ok (Some r), w')
    /\ resp_type r = "snapshot.update"
    /\ authority_of (w_db w') = Authority s' /\ payload s' = payload s
    /\ locale s' = default (locale s) loc /\ units s' = default (units s) un.
Proof.
  intros Ha Hc Hm Hr Ht. unfold route. rewrite Hc.
  set (m := msg_messageId command). set (sid := msg_sessionId command).
  set (rev := msg_revision command).
  set (s' := set_locale_units (default (locale s) loc) (default (units s) un) (advance nowMs s)).
  assert (ends (updateSettings m sid rev loc un nowMs) w
            (fun o w' _ => o = Ok (snapshotResponse s') /\ authority_of (w_db w') = Authority s'))
    as (l & _ & Ho & Hd).
  { unfold updateSettings. apply (ends_load _ s); [done|]. unfold sid, rev. rewrite Hm. cbn [negb].
    pose proof (authority_valid _ _ Ha) as Hs. pose proof (schema_revision s Hs) as Hr0.
    destruct (cas_commits s (settings_mutation loc un nowMs) nowMs w Ha) as (d' & Hcas & Hd');
      [unfold lawful; simpl; split_and!; try done; lia|].
    eapply ends_repo; [exact Hcas|]. cbv beta iota. apply ends_effects.
    intros n w1 l1 Hw1 _ _ _. apply ends_ret. split; [done|].
    apply (watched_authority _ _ _ _ Hw1). simpl. rewrite Hd'. change (mut_session _) with s'.
    unfold published. destruct (schema_parts s Hs) as (Hl & Hf & Hp).
    by rewrite (schema_next s s' nowMs). }
  destruct (updateSettings m sid rev loc un nowMs w) as [o w'] eqn:E. simpl in Ho, Hd. subst o.
  exists (snapshotResponse s'), w', s'. rewrite (bind_ok _ _ _ _ _ E). by split_and!.
Qed.

(** a replacement is committed and its effects are dropped.  When the page
    swaps the route or the itinerary of the running session, the handler commits
    what the processor returned and answers, but never runs the effects of the
    commit: the snapshot is not published, and for transit the notifications of
    the superseded itinerary are not cancelled, whatever the processor asked
    for. *)
Theorem replacement_effects_are_dropped id sid rev pkg expected s p m nowMs w :
  authority_of (w_db w) = Authority s -> lawful_registry env_processors ->
  matches sid rev s = true -> status s = Active ->
  env_processors (kind s) = Some p -> package_kind pkg = kind s ->
  proc_replace p s (Candidate pkg) nowMs = Ok (inl m) ->
  exists w', replace id sid rev pkg expected nowMs w
               = (Ok (revisionResponse "session.replaced" (mut_session m)), w')
    /\ authority_of (w_db w') = published (mut_session m)
    /\ w_trace w' = w_trace w.
Proof.
  intros Ha [Hkind Hlaws] Hm Hst Hp Hpkg Hrep. unfold replace.
  rewrite (bind_ok _ _ _ _ _ (load_authority s nowMs w Ha)), Hm, Hst, andb_false_r, Hp, Hpkg.
  rewrite !bool_decide_true by done. cbn [negb].
  rewrite (bind_ok (from_outcome _) _ w (inl m) w) by (unfold from_outcome; by rewrite Hrep).
  assert (advances s nowMs m) as Hadv
    by (eapply (law_replace (ProcessorLaws := Hlaws _ _ Hp)); [by rewrite (Hkind _ _ Hp)|exact Hrep]).
  destruct (commit_advances s m nowMs w Ha Hadv) as (d' & Hc & Hd').
  rewrite (bind_ok _ _ _ _ _ Hc). eexists. split; [done|]. by split.
Qed.
End guarantees.

(** ** At concrete values *)

Definition busy_env : CoordinatorDeps :=
  sample_env 2000 (fun e => match e with StartLocation _ => true | _ => false end).

Lemma start_is_all_or_nothing_witness :
  let r := start (env := quiet_env) "m1" (Some "s1") (Some 3) 2000 None (mret true)
             (world_of (sample_ground 3 Preparing)) in
  start_result (sample_ground 3 Preparing) 2000 r.1 r.2 (w_trace r.2)
  /\ ran (w_trace r.2) = [StartLocation ModeBackground; PublishSnapshot true]
  /\ authority_of (w_db (start (env := busy_env) "m1" (Some "s1") (Some 3) 2000 None (mret true)
       (world_of (sample_ground 3 Preparing))).2) = NoAuthority.
Proof.
  intros r. split; [|split; vm_compute; reflexivity].
  destruct (start_is_all_or_nothing (env := quiet_env) "m1" (Some "s1") (Some 3) 2000 None (mret true)
    (sample_ground 3 Preparing) (world_of (sample_ground 3 Preparing))) as (l & E & HP).
  - apply world_of_wf.
  - vm_compute. reflexivity.
  - intros w. exists []. split; [apply watched_refl|reflexivity].
  - reflexivity.
  - split; vm_compute; discriminate.
  - change (w_trace r.2 = l) in E. rewrite <- E in HP. exact HP.
Defined.

(** A location the platform reports at time [t]. *)
Definition sample_location (t : Z) : RawLocation :=
  {| raw_coords := Some {| raw_latitude := deg 50; raw_longitude := deg 8; raw_accuracy := Some (deg 5);
                      raw_speed := None; raw_heading := None |};
     raw_timestamp := deg t |}.

Definition sample_batch (t : Z) : LocationBatch :=
  {| batch_locations := [Some (sample_location t)]; batch_errorCode := None |}.

(** One fix: the session is committed at its next revision, and the cue is spoken
    and the snapshot published over it. *)
Lemma location_batch_is_one_revision_witness :
  let w := world_of (sample_ground 3 Active) in
  let w' := (handleLocationBatch (env := quiet_env) (sample_batch 1900) w).2 in
  batch_result (env := quiet_env) (sample_batch 1900) (sample_ground 3 Active) 2000 (w_db w) w'
    (w_trace w')
  /\ attempted_over (w_db w') (w_trace w')
  /\ ran (w_trace w')
     = [Speak "s1:ground:2:wckmg5:0:now" "turn left" En; PublishSnapshot false]
  /\ exists s', authority_of (w_db w') = Authority s' /\ revision s' = 4.
Proof.
  intros w w'. destruct (location_batch_is_one_revision (env := quiet_env) (sample_batch 1900)
    (sample_ground 3 Active) (world_of (sample_ground 3 Active))) as (l & E & _ & HP & Hover).
  - apply world_of_wf.
  - vm_compute. reflexivity.
  - apply sample_registry_lawful.
  - change (w_trace w' = l) in E. rewrite <- E in HP, Hover. split; [exact HP|].
    split; [exact Hover|]. split; [vm_compute; reflexivity|].
    eexists. split; vm_compute; reflexivity.
Defined.

Definition failed_payload : GroundPayload :=
  with_reroute {| rr_status := RrPending; rr_requestId := Some "r1"; rr_attempts := 64;
                  rr_nextAttemptAtMs := None; rr_lastFailureCode := Some "timeout" |}
    sample_ground_payload.

Definition failed_session : MobileNavigationSession :=
  set_payload (GroundSession failed_payload) (sample_ground 3 Active).

Lemma late_answers_change_nothing_witness :
  authority_of (w_db (applyReroute (env := quiet_env)
    {| ro_requestId := "r0"; ro_sessionId := "s1"; ro_result := inr "timeout" |}
    (world_of failed_session)).2) = Authority failed_session.
Proof.
  destruct (late_answers_change_nothing (env := quiet_env) failed_session (world_of failed_session))
    as [Hroute _].
  - vm_compute. reflexivity.
  - rewrite Hroute; vm_compute; reflexivity.
Defined.

Lemma too_many_failures_lose_the_session_witness :
  authority_of (w_db (applyReroute (env := quiet_env)
    {| ro_requestId := "r1"; ro_sessionId := "s1"; ro_result := inr "timeout" |}
    (world_of failed_session)).2) = Unreadable "s1".
Proof.
  apply (too_many_failures_lose_the_session (env := quiet_env) failed_session failed_payload
    {| ro_requestId := "r1"; ro_sessionId := "s1"; ro_result := inr "timeout" |} "timeout");
    [vm_compute; reflexivity|reflexivity|reflexivity|reflexivity|discriminate|reflexivity].
Defined.

Lemma clock_step_back_loses_the_session_witness :
  authority_of (w_db (handleLocationBatch (env := sample_env 500 (fun _ => false))
    (sample_batch 450)
    (world_of (sample_ground 3 Active))).2) = Unreadable "s1".
Proof.
  eapply (clock_step_back_loses_the_session (env := sample_env 500 (fun _ => false))
    (sample_batch 450)
    (sample_ground 3 Active) GroundNavigationProcessor).
  - apply world_of_wf.
  - vm_compute. reflexivity.
  - apply sample_registry_lawful.
  - reflexivity.
  - reflexivity.
  - reflexivity.
  - left. vm_compute. discriminate.
  - reflexivity.
Defined.

Lemma expired_session_blocks_prepare_witness :
  exists w', prepare (env := quiet_env) "m1" (GroundPackage step_package) 9000000
      (world_of (sample_ground 3 Active)) = (Ok (errorResponse "session-active" (Some "m1")), w')
    /\ w_db w' = w_db (world_of (sample_ground 3 Active)).
Proof.
  eapply (expired_session_blocks_prepare (env := quiet_env) "m1" (GroundPackage step_package)
    (sample_ground 3 Active) GroundNavigationProcessor).
  - vm_compute. reflexivity.
  - apply sample_registry_lawful.
  - reflexivity.
  - reflexivity.
  - reflexivity.
  - reflexivity.
Defined.

Lemma voice_switch_is_dropped_witness :
  exists r w' s',
    route (env := quiet_env)
      (sample_command "m1" (Some "s1") (Some 3) (SettingsUpdate None None (Some false) None None None))
      2000 (world_of (sample_ground 3 Active)) = (Ok (Some r), w')
    /\ authority_of (w_db w') = Authority s'
    /\ payload s' = GroundSession sample_ground_payload
    /\ ground_voiceEnabled (gp_settings (g_startPackage sample_ground_payload)) = true.
Proof.
  destruct (voice_switch_is_dropped (env := quiet_env)
    (sample_command "m1" (Some "s1") (Some 3) (SettingsUpdate None None (Some false) None None None))
    None None (Some false) None None None (sample_ground 3 Active) 2000
    (world_of (sample_ground 3 Active))) as (r & w' & s' & E & _ & Ha & Hp & _).
  - vm_compute. reflexivity.
  - reflexivity.
  - reflexivity.
  - reflexivity.
  - split; vm_compute; discriminate.
  - exists r, w', s'. split; [exact E|]. split; [exact Ha|]. split; [exact Hp|reflexivity].
Defined.

Lemma replacement_effects_are_dropped_witness :
  exists m w',
    mut_effects m = [PublishSnapshot true]
    /\ replace (env := quiet_env) "m1" (Some "s1") (Some 3) (GroundPackage step_package) None 2000
         (world_of (sample_ground 3 Active))
       = (Ok (revisionResponse "session.replaced" (mut_session m)), w')
    /\ w_trace w' = [].
Proof.
  set (m := applyGroundReplacement (sample_ground 3 Active) sample_ground_payload step_package 2000).
  destruct (replacement_effects_are_dropped (env := quiet_env) "m1" (Some "s1") (Some 3)
    (GroundPackage step_package) None (sample_ground 3 Active) GroundNavigationProcessor m 2000
    (world_of (sample_ground 3 Active))) as (w' & E & _ & Ht).
  - vm_compute. reflexivity.
  - apply sample_registry_lawful.
  - reflexivity.
  - reflexivity.
  - reflexivity.
  - reflexivity.
  - vm_compute. reflexivity.
  - exists m, w'. split; [reflexivity|]. split; [exact E|exact Ht].
Defined.
