(* ===== verification/Base64.v ===== *)
(** * Bytes on their way into the page

    apps/mobile/src/bridge/base64.ts and outboundScript.ts: the encoder, the
    script that carries one message into the page, and the script that publishes
    the channel nonce.  A byte is a [Z] between 0 and 255. *)

From S2P Require Import Prelude Text.
From Stdlib Require Import Ascii.

(** ** The encoder *)

Definition STANDARD : string := "ABCDEFGHIJKLMNOPQRSTUVWXYZabcdefghijklmnopqrstuvwxyz0123456789+/".
Definition URL_SAFE : string := "ABCDEFGHIJKLMNOPQRSTUVWXYZabcdefghijklmnopqrstuvwxyz0123456789-_".

(** [alphabet[index]], as [out +=] appends it. *)
Definition letter (alphabet : string) (index : Z) : string :=
  match String.get (Z.to_nat index) alphabet with
  | Some c => String c ""
  | None => "undefined"
  end.

(** [encode(bytes, alphabet, pad)]; the loop takes three bytes a round. *)
Fixpoint encode (bytes : list Z) (alphabet : string) (pad : bool) : string :=
  match bytes with
  | [] => ""
  | [a] =>
      letter alphabet (Z.shiftr a 2)
      ++ letter alphabet (Z.lor (Z.shiftl (Z.land a 3) 4) (Z.shiftr 0 4))
      ++ (if pad then "==" else "")
  | [a; b] =>
      letter alphabet (Z.shiftr a 2)
      ++ letter alphabet (Z.lor (Z.shiftl (Z.land a 3) 4) (Z.shiftr b 4))
      ++ letter alphabet (Z.lor (Z.shiftl (Z.land b 15) 2) (Z.shiftr 0 6))
      ++ (if pad then "=" else "")
  | a :: b :: c :: rest =>
      letter alphabet (Z.shiftr a 2)
      ++ letter alphabet (Z.lor (Z.shiftl (Z.land a 3) 4) (Z.shiftr b 4))
      ++ letter alphabet (Z.lor (Z.shiftl (Z.land b 15) 2) (Z.shiftr c 6))
      ++ letter alphabet (Z.land c 63)
      ++ encode rest alphabet pad
  end%string.

Definition encodeBase64 (bytes : list Z) : string := encode bytes STANDARD true.
Definition encodeBase64Url (bytes : list Z) : string := encode bytes URL_SAFE false.

(** ** The scripts *)

Definition quote : string := String (ascii_of_nat 34) "".
Definition newline : string := String (ascii_of_nat 10) "".

(** The fixed text of [decoderProgram] before and after the literal. *)
Definition decoder_head : string :=
  "(function(){try{" ++ newline ++ "var b=atob(" ++ quote.

Definition decoder_tail : string :=
  quote ++ ");" ++ newline
  ++ "var u=new Uint8Array(b.length);" ++ newline
  ++ "for(var i=0;i<b.length;i++){u[i]=b.charCodeAt(i);}" ++ newline
  ++ "var d=JSON.parse(new TextDecoder(" ++ quote ++ "utf-8" ++ quote ++ ").decode(u));" ++ newline
  ++ "window.dispatchEvent(new CustomEvent(" ++ quote ++ "openmapx:native" ++ quote
  ++ ",{detail:d}));" ++ newline
  ++ "}catch(e){}})();true;".

Definition decoderProgram (encoded : string) : string :=
  (decoder_head ++ encoded ++ decoder_tail)%string.

(** What the platform computes of a message: [JSON.stringify] and
    [TextEncoder]. *)
Class TextCodec (message : Type) := {
  stringify : message -> string;
  utf8Bytes : string -> list Z;
}.

Definition buildOutboundScript `{TextCodec message} (m : message) : string :=
  decoderProgram (encodeBase64 (utf8Bytes (stringify m))).

(** [/^[A-Za-z0-9_-]+$/] *)
Definition is_base64url (c : ascii) : bool :=
  let n := Z.of_nat (nat_of_ascii c) in
  ((65 <=? n) && (n <=? 90)) || ((97 <=? n) && (n <=? 122)) || ((48 <=? n) && (n <=? 57))
  || (n =? 95) || (n =? 45).

Definition bootstrap_head : string :=
  "(function(){try{" ++ newline
  ++ "Object.defineProperty(window," ++ quote ++ "__OPENMAPX_MOBILE_CHANNEL__" ++ quote ++ ",{"
  ++ newline ++ "configurable:false,enumerable:false,writable:false," ++ newline
  ++ "value:Object.freeze({nonce:" ++ quote.

Definition bootstrap_tail : string :=
  quote ++ "})});" ++ newline ++ "}catch(e){}})();true;".

Definition buildChannelBootstrapScript (nonce : string) : outcome string :=
  if negb (String.eqb nonce "") && all_chars is_base64url nonce
  then Ok (bootstrap_head ++ nonce ++ bootstrap_tail)%string
  else Throw "channel nonce must be base64url".

(** ** Minting a nonce *)

Definition CHANNEL_NONCE_BYTES : nat := 32.

(** [mintChannelNonce(random)], [bytes] being what the source returned. *)
Definition mintChannelNonce (bytes : list Z) : outcome string :=
  if negb (Nat.eqb (length bytes) CHANNEL_NONCE_BYTES)
  then Throw "bridge channel nonce source returned the wrong length"
  else Ok (encodeBase64Url bytes).

(** ** What the page reads *)

(** [atob]: the value of a letter, and the groups of four. *)
Fixpoint index_of (c : ascii) (alphabet : string) : option Z :=
  match alphabet with
  | "" => None
  | String d r => if Ascii.eqb c d then Some 0 else i ← index_of c r; Some (i + 1)
  end.

Definition is_pad (c : ascii) : bool := Ascii.eqb c "="%char.

(** The bytes of a group whose last letters are missing or padding. *)
Definition decode_short (alphabet : string) (w x : ascii) (y : option ascii) : option (list Z) :=
  w ← index_of w alphabet;
  x ← index_of x alphabet;
  match y with
  | None => Some [w * 4 + x / 16]
  | Some y => y ← index_of y alphabet; Some [w * 4 + x / 16; x mod 16 * 16 + y / 4]
  end.

Fixpoint decode (alphabet : string) (s : string) : option (list Z) :=
  match s with
  | "" => Some []
  | String w (String x "") => decode_short alphabet w x None
  | String w (String x (String y "")) => decode_short alphabet w x (Some y)
  | String w (String x (String y (String z r))) =>
      if is_pad z then
        if negb (String.eqb r "") then None
        else decode_short alphabet w x (if is_pad y then None else Some y)
      else
        w ← index_of w alphabet;
        x ← index_of x alphabet;
        y ← index_of y alphabet;
        z ← index_of z alphabet;
        rest ← decode alphabet r;
        Some (w * 4 + x / 16 :: x mod 16 * 16 + y / 4 :: y mod 4 * 64 + z :: rest)
  | String _ "" => None
  end.

Definition is_byte (b : Z) : Prop := 0 <= b < 256.

(** ** Round trip *)

Definition alphabet_ok (alphabet : string) : Prop :=
  forall i, 0 <= i < 64 ->
    exists c, letter alphabet i = String c "" /\ index_of c alphabet = Some i /\ is_pad c = false.

(** The alphabets are checked letter by letter. *)
Definition check_letter (alphabet : string) (i : Z) : bool :=
  match String.get (Z.to_nat i) alphabet with
  | Some c => bool_decide (index_of c alphabet = Some i) && negb (is_pad c)
  | None => false
  end.

Lemma alphabet_checked alphabet :
  forallb (fun n => check_letter alphabet (Z.of_nat n)) (seq 0 64) = true -> alphabet_ok alphabet.
Proof.
  intros H i Hi. rewrite forallb_forall in H.
  specialize (H (Z.to_nat i)). rewrite in_seq in H. rewrite Z2Nat.id in H by lia.
  unfold check_letter in H. unfold letter.
  destruct (String.get (Z.to_nat i) alphabet) as [c|]; [|discriminate H; lia].
  destruct (andb_prop _ _ (H ltac:(lia))) as [E1 E2]. exists c.
  apply bool_decide_eq_true in E1. apply negb_true_iff in E2. done.
Qed.

Lemma standard_ok : alphabet_ok STANDARD.
Proof. apply alphabet_checked. vm_compute. reflexivity. Qed.

Lemma url_safe_ok : alphabet_ok URL_SAFE.
Proof. apply alphabet_checked. vm_compute. reflexivity. Qed.

Lemma land_ones x k : 0 <= k -> Z.land x (2 ^ k - 1) = x mod 2 ^ k.
Proof. intros Hk. rewrite <- Z.land_ones by done. by rewrite Z.ones_equiv, Z.sub_1_r. Qed.

(** The four letters of three bytes, as arithmetic. *)
Lemma sextets_bits a b c :
  is_byte a -> is_byte b -> is_byte c ->
  Z.shiftr a 2 = a / 4
  /\ Z.lor (Z.shiftl (Z.land a 3) 4) (Z.shiftr b 4) = a mod 4 * 16 + b / 16
  /\ Z.lor (Z.shiftl (Z.land b 15) 2) (Z.shiftr c 6) = b mod 16 * 4 + c / 64
  /\ Z.land c 63 = c mod 64.
Proof.
  unfold is_byte. intros Ha Hb Hc.
  rewrite !Z.shiftr_div_pow2 by lia.
  change 3 with (2 ^ 2 - 1). change 15 with (2 ^ 4 - 1). change 63 with (2 ^ 6 - 1).
  rewrite !land_ones by lia.
  rewrite !lor_disjoint; [done|lia| |lia|]; split;
    try (apply Z.div_pos; lia); apply Z.div_lt_upper_bound; lia.
Qed.

Lemma sextets_range a b c :
  is_byte a -> is_byte b -> is_byte c ->
  let w := a / 4 in let x := a mod 4 * 16 + b / 16 in
  let y := b mod 16 * 4 + c / 64 in let z := c mod 64 in
  (0 <= w < 64 /\ 0 <= x < 64 /\ 0 <= y < 64 /\ 0 <= z < 64)
  /\ w * 4 + x / 16 = a /\ x mod 16 * 16 + y / 4 = b /\ y mod 4 * 64 + z = c.
Proof.
  unfold is_byte. cbv zeta. intros Ha Hb Hc.
  repeat split; Z.to_euclidean_division_equations; lia.
Qed.

Lemma is_byte_0 : is_byte 0.
Proof. unfold is_byte. lia. Qed.

(** Three bytes at a time. *)
Lemma bytes_ind (P : list Z -> Prop) :
  P [] -> (forall a, P [a]) -> (forall a b, P [a; b]) ->
  (forall a b c r, P r -> P (a :: b :: c :: r)) -> forall l, P l.
Proof.
  intros H0 H1 H2 H3. fix IH 1. intros [|a [|b [|c r]]]; [apply H0|apply H1|apply H2|apply H3, IH].
Qed.

Lemma append_char c s : (String c "" ++ s)%string = String c s.
Proof. reflexivity. Qed.

Lemma decode_quad alphabet w x y z r :
  alphabet_ok alphabet ->
  0 <= w < 64 -> 0 <= x < 64 -> 0 <= y < 64 -> 0 <= z < 64 ->
  decode alphabet (letter alphabet w ++ letter alphabet x ++ letter alphabet y
                   ++ letter alphabet z ++ r)
  = rest ← decode alphabet r;
    Some (w * 4 + x / 16 :: x mod 16 * 16 + y / 4 :: y mod 4 * 64 + z :: rest).
Proof.
  intros Hok Hw Hx Hy Hz.
  destruct (Hok w Hw) as (cw & -> & Ew & _), (Hok x Hx) as (cx & -> & Ex & _).
  destruct (Hok y Hy) as (cy & -> & Ey & _), (Hok z Hz) as (cz & -> & Ez & Pz).
  rewrite !append_char. cbn [decode]. rewrite Pz, Ew, Ex, Ey, Ez. reflexivity.
Qed.

Lemma decode_one alphabet w x (pad : bool) :
  alphabet_ok alphabet -> 0 <= w < 64 -> 0 <= x < 64 ->
  decode alphabet (letter alphabet w ++ letter alphabet x ++ (if pad then "==" else ""))
  = Some [w * 4 + x / 16].
Proof.
  intros Hok Hw Hx.
  destruct (Hok w Hw) as (cw & -> & Ew & _), (Hok x Hx) as (cx & -> & Ex & _).
  rewrite !append_char. destruct pad; cbn; unfold decode_short; by rewrite Ew, Ex.
Qed.

Lemma decode_two alphabet w x y (pad : bool) :
  alphabet_ok alphabet -> 0 <= w < 64 -> 0 <= x < 64 -> 0 <= y < 64 ->
  decode alphabet (letter alphabet w ++ letter alphabet x ++ letter alphabet y
                   ++ (if pad then "=" else ""))
  = Some [w * 4 + x / 16; x mod 16 * 16 + y / 4].
Proof.
  intros Hok Hw Hx Hy.
  destruct (Hok w Hw) as (cw & -> & Ew & _), (Hok x Hx) as (cx & -> & Ex & _).
  destruct (Hok y Hy) as (cy & -> & Ey & Py).
  rewrite !append_char. destruct pad; cbn [decode]; rewrite ?Py; cbn; unfold decode_short; by rewrite Ew, Ex, Ey.
Qed.

Lemma decode_encode alphabet pad bytes :
  alphabet_ok alphabet -> Forall is_byte bytes ->
  decode alphabet (encode bytes alphabet pad) = Some bytes.
Proof.
  intros Hok. induction bytes as [|a|a b|a b c r IH] using bytes_ind; intros Hb; cbn [encode].
  - done.
  - apply Forall_cons in Hb as [Ha _].
    pose proof (sextets_bits a 0 0 Ha is_byte_0 is_byte_0) as (-> & -> & _ & _).
    pose proof (sextets_range a 0 0 Ha is_byte_0 is_byte_0) as [(Hw & Hx & _) (E & _)].
    rewrite decode_one by done. by rewrite E.
  - apply Forall_cons in Hb as [Ha Hb]. apply Forall_cons in Hb as [Hb _].
    pose proof (sextets_bits a b 0 Ha Hb is_byte_0) as (-> & -> & -> & _).
    pose proof (sextets_range a b 0 Ha Hb is_byte_0) as [(Hw & Hx & Hy & _) (E1 & E2 & _)].
    rewrite decode_two by done. by rewrite E1, E2.
  - apply Forall_cons in Hb as [Ha Hb]. apply Forall_cons in Hb as [Hb Hc].
    apply Forall_cons in Hc as [Hc Hr].
    pose proof (sextets_bits a b c Ha Hb Hc) as (-> & -> & -> & ->).
    pose proof (sextets_range a b c Ha Hb Hc) as [(Hw & Hx & Hy & Hz) (E1 & E2 & E3)].
    rewrite decode_quad by done. rewrite IH by done. cbn. by rewrite E1, E2, E3.
Qed.

(** ** The alphabet of what is written *)

Lemma letter_all_chars p alphabet i :
  alphabet_ok alphabet -> all_chars p alphabet = true -> 0 <= i < 64 ->
  all_chars p (letter alphabet i) = true.
Proof.
  intros Hok Hp Hi. unfold letter. destruct (Hok i Hi) as (c & El & _). unfold letter in El.
  destruct (String.get (Z.to_nat i) alphabet) as [d|] eqn:Eg; [|by vm_compute in El].
  simpl. rewrite andb_true_r. clear El Hok Hi. revert Eg Hp. generalize (Z.to_nat i) as n.
  induction alphabet as [|e r IH]; intros n; destruct n; simpl; try done.
  - intros [= ->] [? _]%andb_prop. done.
  - intros Eg [_ ?]%andb_prop. by eapply IH.
Qed.

Lemma encode_all_chars p alphabet (pad : bool) bytes :
  alphabet_ok alphabet -> all_chars p alphabet = true ->
  (pad = true -> p "="%char = true) -> Forall is_byte bytes ->
  all_chars p (encode bytes alphabet pad) = true.
Proof.
  intros Hok Hp Hpad. assert (L : forall i, 0 <= i < 64 -> all_chars p (letter alphabet i) = true)
    by (intros; by apply letter_all_chars).
  induction bytes as [|a|a b|a b c r IH] using bytes_ind; intros Hb; cbn [encode].
  - done.
  - apply Forall_cons in Hb as [Ha _].
    pose proof (sextets_bits a 0 0 Ha is_byte_0 is_byte_0) as (-> & -> & _ & _).
    pose proof (sextets_range a 0 0 Ha is_byte_0 is_byte_0) as [(Hw & Hx & _) _].
    rewrite !all_chars_app, !L by done. destruct pad; simpl; by rewrite ?Hpad.
  - apply Forall_cons in Hb as [Ha Hb]. apply Forall_cons in Hb as [Hb _].
    pose proof (sextets_bits a b 0 Ha Hb is_byte_0) as (-> & -> & -> & _).
    pose proof (sextets_range a b 0 Ha Hb is_byte_0) as [(Hw & Hx & Hy & _) _].
    rewrite !all_chars_app, !L by done. destruct pad; simpl; by rewrite ?Hpad.
  - apply Forall_cons in Hb as [Ha Hb]. apply Forall_cons in Hb as [Hb Hc].
    apply Forall_cons in Hc as [Hc Hr].
    pose proof (sextets_bits a b c Ha Hb Hc) as (-> & -> & -> & ->).
    pose proof (sextets_range a b c Ha Hb Hc) as [(Hw & Hx & Hy & Hz) _].
    rewrite !all_chars_app, !L by done. by rewrite IH.
Qed.

Lemma encode_length alphabet r a b c pad :
  alphabet_ok alphabet -> is_byte a -> is_byte b -> is_byte c ->
  String.length (encode (a :: b :: c :: r) alphabet pad)
  = (4 + String.length (encode r alphabet pad))%nat.
Proof.
  intros Hok Ha Hb Hc. cbn [encode].
  pose proof (sextets_bits a b c Ha Hb Hc) as (-> & -> & -> & ->).
  pose proof (sextets_range a b c Ha Hb Hc) as [(Hw & Hx & Hy & Hz) _].
  rewrite !string_length_app.
  destruct (Hok _ Hw) as (? & -> & _), (Hok _ Hx) as (? & -> & _).
  destruct (Hok _ Hy) as (? & -> & _), (Hok _ Hz) as (? & -> & _). done.
Qed.

Lemma encode_length_32 alphabet bytes :
  alphabet_ok alphabet -> Forall is_byte bytes -> length bytes = 32%nat ->
  String.length (encode bytes alphabet false) = 43%nat.
Proof.
  intros Hok Hb Hl.
  do 32 (destruct bytes as [|? bytes]; [discriminate Hl|]). destruct bytes; [|discriminate Hl].
  rewrite !Forall_cons in Hb. destruct_and! Hb.
  rewrite !encode_length by done. cbn [encode].
  match goal with |- context [letter _ (Z.shiftr ?x 2)] => set (a := x) in * end.
  match goal with |- context [Z.shiftr ?x 4] => set (b := x) in * end.
  pose proof (sextets_bits a b 0) as (-> & -> & -> & _); [done..|apply is_byte_0|].
  pose proof (sextets_range a b 0) as [(Hw & Hx & Hy & _) _]; [done..|apply is_byte_0|].
  rewrite !string_length_app.
  destruct (Hok _ Hw) as (? & -> & _), (Hok _ Hx) as (? & -> & _), (Hok _ Hy) as (? & -> & _).
  done.
Qed.

(** ** What the page gets *)

Definition is_quote (c : ascii) : bool := Ascii.eqb c (ascii_of_nat 34).

(** The text before the first quote, and what follows that quote. *)
Fixpoint up_to_quote (s : string) : string * string :=
  match s with
  | "" => ("", "")
  | String c r => if is_quote c then ("", r) else let (a, b) := up_to_quote r in (String c a, b)
  end.

(** The first string literal of a program. *)
Definition literal_of (program : string) : string := (up_to_quote (up_to_quote program).2).1.

Lemma up_to_quote_app s r :
  all_chars (fun c => negb (is_quote c)) s = true ->
  up_to_quote (s ++ quote ++ r) = (s, r).
Proof.
  induction s as [|c s IH]; intros H; [done|]. simpl in H.
  apply andb_prop in H as [Hc Hs]. apply negb_true_iff in Hc.
  change ((String c s ++ quote ++ r)%string) with (String c (s ++ quote ++ r)).
  cbn [up_to_quote]. rewrite Hc, IH by done. done.
Qed.

(** C36: whatever a message says, the script that carries it into the page is
    the fixed program around one literal: the literal has only letters of the
    base64 alphabet, so nothing in it can end the string or add code, and what
    the page decodes from the program is exactly the bytes of the message. *)
Theorem outbound_script_is_inert `{TextCodec message} (m : message) :
  Forall is_byte (utf8Bytes (stringify m)) ->
  let script := buildOutboundScript m in
  script = (decoder_head ++ literal_of script ++ decoder_tail)%string
  /\ all_chars (fun c => is_base64url c || is_pad c || Ascii.eqb c "+"%char || Ascii.eqb c "/"%char)
       (literal_of script) = true
  /\ decode STANDARD (literal_of script) = Some (utf8Bytes (stringify m)).
Proof.
  intros Hb. cbv zeta. set (bytes := utf8Bytes (stringify m)) in *.
  assert (E : literal_of (buildOutboundScript m) = encodeBase64 bytes).
  { unfold literal_of, buildOutboundScript, decoderProgram. fold bytes.
    change decoder_head with (("(function(){try{" ++ newline ++ "var b=atob(") ++ quote)%string.
    rewrite <- string_app_assoc, up_to_quote_app by done. cbn [snd].
    unfold decoder_tail. rewrite up_to_quote_app; [done|].
    apply encode_all_chars; [apply standard_ok|by vm_compute|by vm_compute|done]. }
  rewrite E. split_and!.
  - done.
  - apply encode_all_chars; [apply standard_ok|by vm_compute|by vm_compute|done].
  - apply decode_encode; [apply standard_ok|done].
Qed.

(** minting a nonce.  A source that gives 32 bytes gives a nonce of 43
    letters that fits the envelope and that the bootstrap script always accepts;
    different bytes give different nonces, so a nonce is as hard to guess as its
    256 bits; a source that gives any other number of bytes is refused. *)
Theorem minted_nonce (bytes : list Z) :
  Forall is_byte bytes ->
  match mintChannelNonce bytes with
  | Ok nonce =>
      length bytes = CHANNEL_NONCE_BYTES /\ String.length nonce = 43%nat
      /\ (exists script, buildChannelBootstrapScript nonce = Ok script)
      /\ (forall other, Forall is_byte other -> mintChannelNonce other = Ok nonce -> other = bytes)
  | Throw _ => length bytes <> CHANNEL_NONCE_BYTES
  end.
Proof.
  intros Hb. unfold mintChannelNonce. destruct (Nat.eqb_spec (length bytes) CHANNEL_NONCE_BYTES) as [El|El];
    cbn [negb]; [|done].
  pose proof (encode_length_32 URL_SAFE bytes url_safe_ok Hb El) as Hlen.
  split_and!; [done|done| |].
  - unfold buildChannelBootstrapScript. fold (encodeBase64Url bytes) in Hlen.
    destruct (String.eqb_spec (encodeBase64Url bytes) "") as [E|_]; [by rewrite E in Hlen|].
    unfold encodeBase64Url at 1. rewrite encode_all_chars; [by eexists|apply url_safe_ok|by vm_compute|done|done].
  - intros other Ho. destruct (Nat.eqb_spec (length other) CHANNEL_NONCE_BYTES); cbn [negb]; [|done].
    intros [= E]. pose proof (decode_encode URL_SAFE false bytes url_safe_ok Hb) as E1.
    pose proof (decode_encode URL_SAFE false other url_safe_ok Ho) as E2.
    unfold encodeBase64Url in E. rewrite E, E1 in E2. by injection E2.
Qed.

(** *** Witnesses *)

(** A text whose quote and angle brackets would end the program, as Latin-1. *)
#[local] Instance latin1_text : TextCodec string := {|
  stringify s := s;
  utf8Bytes s := map (fun c => Z.of_nat (nat_of_ascii c)) (String.list_ascii_of_string s);
|}.

Definition hostile_text : string := quote ++ ");alert(1);</script>${x}" ++ newline.

Lemma outbound_script_is_inert_witness :
  let script := buildOutboundScript hostile_text in
  literal_of script = "Iik7YWxlcnQoMSk7PC9zY3JpcHQ+JHt4fQo="
  /\ (script = (decoder_head ++ literal_of script ++ decoder_tail)%string
      /\ all_chars (fun c => is_base64url c || is_pad c || Ascii.eqb c "+"%char || Ascii.eqb c "/"%char)
           (literal_of script) = true
      /\ decode STANDARD (literal_of script) = Some (utf8Bytes (stringify hostile_text))).
Proof.
  split; [vm_compute; reflexivity|].
  apply (outbound_script_is_inert hostile_text).
  repeat constructor; vm_compute; congruence.
Defined.

Definition some_bytes : list Z := map Z.of_nat (seq 100 32).

Lemma minted_nonce_witness :
  mintChannelNonce some_bytes = Ok "ZGVmZ2hpamtsbW5vcHFyc3R1dnd4eXp7fH1-f4CBgoM"
  /\ match mintChannelNonce some_bytes with
     | Ok nonce =>
         length some_bytes = CHANNEL_NONCE_BYTES /\ String.length nonce = 43%nat
         /\ (exists script, buildChannelBootstrapScript nonce = Ok script)
         /\ (forall other, Forall is_byte other -> mintChannelNonce other = Ok nonce -> other = some_bytes)
     | Throw _ => length some_bytes <> CHANNEL_NONCE_BYTES
     end.
Proof.
  split; [vm_compute; reflexivity|].
  apply (minted_nonce some_bytes).
  repeat constructor; vm_compute; congruence.
Defined.
