(* ===== verification/Wire.v ===== *)
(** * What the shell may say to the page

    packages/core/src/navigation/mobileProtocol.ts (the native-to-web half) and
    the intake schemas of nativeIntake.ts: the payload schema of every message
    type, as a check of a decoded value, and the envelope around it. *)

From S2P Require Import Prelude Protocol.
From Stdlib Require Import Ascii.

(** ** Schemas of values

    Every object of this direction is [.strict()]: each of its properties is
    known and valid, and no required one is missing. *)

Definition schema : Type := json -> bool.

Definition z_string (check : string -> bool) : schema := fun v =>
  match v with JStr s => check s | _ => false end.

Definition z_boolean : schema := fun v => match v with JBool _ => true | _ => false end.

Definition z_enum (values : list string) : schema := z_string (fun s => includes s values).

Definition z_number (check : number -> bool) : schema := fun v =>
  match v with JNum n => check n | _ => false end.

(** [z.number().int().min(lo).max(hi)] *)
Definition z_int (lo hi : Z) : schema := z_number (fun n =>
  match n with
  | Fin q => QArith_base.Qeq_bool q (QArith_base.inject_Z (q_trunc q)) && (lo <=? q_trunc q) && (q_trunc q <=? hi)
  | _ => false
  end).

Definition z_nullable (s : schema) : schema := fun v => match v with JNull => true | _ => s v end.

Definition z_array (s : schema) (max : Z) : schema := fun v =>
  match v with JArr items => forallb s items && (Z.of_nat (length items) <=? max) | _ => false end.

(** [z.record(z.string(), z.unknown())] *)
Definition z_record : schema := fun v => match v with JObj _ => true | _ => false end.

Record property := { prop_name : string; prop_optional : bool; prop_schema : schema }.

Definition required (name : string) (s : schema) : property :=
  {| prop_name := name; prop_optional := false; prop_schema := s |}.
Definition optional (name : string) (s : schema) : property :=
  {| prop_name := name; prop_optional := true; prop_schema := s |}.

Definition z_object (shape : list property) : schema := fun v =>
  match v with
  | JObj fields =>
      forallb (fun kv => existsb (fun p => String.eqb (prop_name p) kv.1) shape) fields
      && forallb (fun p => match field (prop_name p) fields with
                           | Some x => prop_schema p x
                           | None => prop_optional p
                           end) shape
  | _ => false
  end.

(** [z.discriminatedUnion(tag, ...)] *)
Definition z_union (tag : string) (cases : list (string * schema)) : schema := fun v =>
  match json_string (json_field tag v) with
  | Some name => existsb (fun c => String.eqb c.1 name && c.2 v) cases
  | None => false
  end.

Definition z_literal (s : string) : schema := z_enum [s].
Definition z_id : schema := z_string boundedId.
Definition z_text : schema :=
  z_string (fun s => (1 <=? str_length s) && (str_length s <=? MAX_TEXT_LENGTH)).
Definition z_safeInteger : schema := z_int 0 MAX_SAFE_INTEGER.
Definition z_max_string (n : Z) : schema := z_string (max_text n).
Definition z_finite (lo hi : Z) : schema := z_number (finite_within lo hi).

(** ** Vocabulary *)

Inductive NativeToWebType :=
  | NativeHello | IntakeItems | IntakeChunk | IntakeCompleted | IntakeChanged
  | PermissionStateType | SessionPrepared | SessionStarted | SessionReplaced | SessionStopped
  | SnapshotUpdate | NavigationEvent | NativeError | LocationResult | SettingsResult
  | DeepLinkOpen | AuthResult | VoiceAvailability | VoiceEvent.

#[export] Instance NativeToWebType_eq_dec : EqDecision NativeToWebType.
Proof. solve_decision. Defined.

(** The type's name on the wire. *)
Definition native_type (t : NativeToWebType) : string :=
  match t with
  | NativeHello => "native.hello"
  | IntakeItems => "intake.items"
  | IntakeChunk => "intake.chunk"
  | IntakeCompleted => "intake.completed"
  | IntakeChanged => "intake.changed"
  | PermissionStateType => "permission.state"
  | SessionPrepared => "session.prepared"
  | SessionStarted => "session.started"
  | SessionReplaced => "session.replaced"
  | SessionStopped => "session.stopped"
  | SnapshotUpdate => "snapshot.update"
  | NavigationEvent => "navigation.event"
  | NativeError => "native.error"
  | LocationResult => "location.result"
  | SettingsResult => "settings.result"
  | DeepLinkOpen => "deep-link.open"
  | AuthResult => "auth.result"
  | VoiceAvailability => "voice.availability"
  | VoiceEvent => "voice.event"
  end.

(** [type.startsWith("intake.")] *)
Definition is_intake (t : NativeToWebType) : bool :=
  match t with
  | IntakeItems | IntakeChunk | IntakeCompleted | IntakeChanged => true
  | _ => false
  end.

(** ** Payloads *)

Definition MAX_INTAKE_FILE_BYTES : Z := 5 * 1024 * 1024.
Definition MAX_INTAKE_TEXT_BYTES : Z := 8192.
Definition INTAKE_CHUNK_BYTES : Z := 24576.

Definition INTAKE_ERROR_CODES : list string :=
  ["unsupported"; "too-large"; "too-many"; "inbox-full"; "unreadable"; "expired";
   "unavailable"; "invalid-data"].

(** The schema library's [uuid()]. *)
Class SchemaLibrary := { is_uuid : string -> bool }.

(** The letters of [[A-Za-z0-9+/]]. *)
Definition is_base64_char (c : ascii) : bool :=
  let n := Z.of_nat (nat_of_ascii c) in
  ((65 <=? n) && (n <=? 90)) || ((97 <=? n) && (n <=? 122)) || ((48 <=? n) && (n <=? 57))
  || (n =? 43) || (n =? 47).

(** [/^(?:[A-Za-z0-9+/]{4})*(?:[A-Za-z0-9+/]{2}==|[A-Za-z0-9+/]{3}=)?$/] *)
Fixpoint base64_text (s : string) : bool :=
  match s with
  | "" => true
  | String a (String b (String c (String d r))) =>
      is_base64_char a && is_base64_char b
      && ((is_base64_char c && is_base64_char d && base64_text r)
          || (String.eqb r "" && Ascii.eqb d "="%char
              && (is_base64_char c || Ascii.eqb c "="%char)))
  | _ => false
  end.

(** [/^[a-z][a-z0-9+.-]{0,100}$/] *)
Definition is_lower (c : ascii) : bool :=
  let n := Z.of_nat (nat_of_ascii c) in (97 <=? n) && (n <=? 122).
Definition is_scheme_char (c : ascii) : bool :=
  let n := Z.of_nat (nat_of_ascii c) in
  is_lower c || ((48 <=? n) && (n <=? 57)) || (n =? 43) || (n =? 46) || (n =? 45).
Definition scheme_text (s : string) : bool :=
  match s with
  | "" => false
  | String c r => is_lower c && forallb is_scheme_char (String.list_ascii_of_string r)
                  && (str_length r <=? 100)
  end.

Section payloads.
Context `{SchemaLibrary}.

Definition intakeId : schema := z_string is_uuid.

Definition intake_header : list property :=
  [required "id" intakeId; required "createdAtMs" z_safeInteger; required "name" (z_max_string 128)].

Definition intakeItemSchema : schema :=
  z_union "kind"
    [("file", z_object (intake_header ++
        [required "kind" (z_literal "file");
         required "byteLength" (z_int 1 MAX_INTAKE_FILE_BYTES);
         required "format" (z_enum ["gpx"; "geojson"; "kml"])]));
     ("text", z_object (intake_header ++
        [required "kind" (z_literal "text");
         required "byteLength" (z_int 1 MAX_INTAKE_TEXT_BYTES)]));
     ("error", z_object (intake_header ++
        [required "kind" (z_literal "error");
         required "byteLength" (z_int 0 0);
         required "errorCode" (z_enum INTAKE_ERROR_CODES)]))].

Definition intakeChunkShape : list property :=
  [required "id" intakeId;
   required "offset" (z_int 0 MAX_INTAKE_FILE_BYTES);
   required "data" (z_string (fun s => max_text 32768 s && base64_text s));
   required "byteLength" (z_int 0 INTAKE_CHUNK_BYTES);
   required "eof" z_boolean].

Definition permissionStateSchema : schema :=
  z_enum ["not-determined"; "foreground"; "background"; "denied"; "limited"].

Definition nativeCapabilitiesSchema : schema :=
  z_object
    [required "groundNavigation" z_boolean; required "transitNavigation" z_boolean;
     optional "transitActions" z_boolean; required "backgroundLocation" z_boolean;
     required "localNotifications" z_boolean; required "speech" z_boolean;
     optional "nativeIntake" z_boolean; optional "carDestinations" z_boolean].

Definition voiceEventSchema : schema := fun v =>
  z_object
    [required "requestId" z_id;
     required "state" (z_enum ["listening"; "partial"; "final"; "ended"; "error"]);
     optional "text" (z_max_string 512);
     optional "error" (z_enum ["not-allowed"; "language-not-supported"; "no-speech"; "audio-capture";
                               "busy"; "unavailable"; "aborted"; "generic"])] v
  && match json_field "text" v with
     | None => true
     | Some _ => match json_string (json_field "state" v) with
                 | Some state => includes state ["partial"; "final"]
                 | None => false
                 end
     end.

Definition revision_reply : schema :=
  z_object [required "sessionId" z_id; required "revision" z_safeInteger;
            required "forMessageId" z_id].

Definition deepLinkSchema : schema :=
  z_union "kind"
    [("map", z_object [required "kind" (z_literal "map"); required "query" (z_max_string 2048)]);
     ("active-navigation", z_object [required "kind" (z_literal "active-navigation")])].

(** The payload schema of each member of [nativeToWebSchema]. *)
Definition payload_schema (t : NativeToWebType) : schema :=
  match t with
  | IntakeItems =>
      z_object [required "items" (z_array intakeItemSchema 10); required "canApply" z_boolean;
                required "scheme" (z_string scheme_text); required "forMessageId" z_id]
  | IntakeChunk => z_object (intakeChunkShape ++ [required "forMessageId" z_id])
  | IntakeCompleted => z_object [required "id" intakeId; required "forMessageId" z_id]
  | IntakeChanged => z_object [required "pendingCount" (z_int 0 10)]
  | VoiceAvailability => z_object [required "forMessageId" z_id; required "available" z_boolean]
  | VoiceEvent => voiceEventSchema
  | NativeHello =>
      z_object
        [required "shellVersion" z_id; required "shellBuild" z_id;
         required "selectedProtocolVersion" (z_nullable (z_int 1 64));
         required "minProtocolVersion" (z_int 1 64); required "maxProtocolVersion" (z_int 1 64);
         required "platform" (z_enum ["ios"; "android"]);
         required "capabilities" nativeCapabilitiesSchema;
         required "permission" permissionStateSchema;
         required "locationDriver" (z_enum ["expo"; "native"]);
         required "activeSession" (z_nullable (z_object
           [required "sessionId" z_id; required "revision" z_safeInteger;
            required "kind" (z_enum ["ground"; "transit"])]));
         required "forMessageId" z_id]
  | PermissionStateType => z_object [required "permission" permissionStateSchema]
  | SessionPrepared | SessionStarted | SessionReplaced => revision_reply
  | SessionStopped =>
      z_object [required "sessionId" z_id;
                required "finalStatus" (z_enum ["arrived"; "stopped"; "expired"; "error"]);
                required "revision" z_safeInteger; optional "forMessageId" z_id]
  | SnapshotUpdate => z_object [required "snapshot" z_record; optional "forMessageId" z_id]
  | LocationResult =>
      z_object
        [required "requestId" z_id;
         required "status" (z_enum ["ok"; "denied"; "unavailable"; "timeout"]);
         required "forMessageId" z_id;
         optional "fix" (z_object
           [required "lat" (z_finite (-90) 90); required "lng" (z_finite (-180) 180);
            optional "accuracy" (z_finite 0 100000); optional "heading" (z_finite 0 360);
            optional "speed" (z_finite 0 1000); required "timestampMs" z_safeInteger])]
  | SettingsResult =>
      z_object [required "target" (z_enum ["location"; "notifications"; "application"]);
                required "status" (z_enum ["opened"; "unavailable"; "cancelled"]);
                required "forMessageId" z_id]
  | DeepLinkOpen => deepLinkSchema
  | AuthResult =>
      z_object [required "requestId" z_id; required "status" (z_enum ["ok"; "cancelled"; "failed"]);
                optional "handoffCode" z_id; optional "state" z_id; optional "codeVerifier" z_id;
                required "forMessageId" z_id]
  | NavigationEvent => z_object [required "eventId" z_id; required "event" z_record]
  | NativeError => z_object [required "code" z_text; optional "forMessageId" z_id]
  end.

(** ** The envelope *)

Record NativeToWebMessage := {
  nw_protocolVersion : Z;
  nw_type : NativeToWebType;
  nw_messageId : string;
  nw_channelNonce : string;
  nw_sessionId : option string;
  nw_revision : option Z;
  nw_sentAtMs : Z;
  nw_payload : json;
}.

(** [nativeToWebSchema.safeParse]; nothing of this direction is transformed, so
    what passes is the value itself. *)
Definition nativeToWebSchema (m : NativeToWebMessage) : bool :=
  (1 <=? nw_protocolVersion m) && (nw_protocolVersion m <=? 64)
  && boundedId (nw_messageId m) && boundedId (nw_channelNonce m)
  && opt_ok boundedId (nw_sessionId m) && opt_ok safeInteger (nw_revision m)
  && safeInteger (nw_sentAtMs m) && payload_schema (nw_type m) (nw_payload m).
End payloads.
