(* ===== verification/Bridge.v ===== *)
(** * The bridge between the page and the shell

    apps/mobile/src/bridge/channel.ts and nativeBridge.ts, with the origin policy
    of shell/originPolicy.ts: the channel of one document, the gauntlet every
    inbound message runs, the handshake, and the outbound queue. *)

From S2P Require Import Prelude Protocol Wire.

(** ** Origin policy *)

Inductive NavigationDecision := AllowInWebview | OpenSystem | RejectNavigation.

#[export] Instance NavigationDecision_eq_dec : EqDecision NavigationDecision.
Proof. solve_decision. Defined.

(** What [new URL(text)] answers; [None] when it throws. *)
Record Url := {
  url_protocol : string;
  url_username : string;
  url_password : string;
  url_hostname : string;
  url_origin : string;
}.

Class UrlParser := { parse_url : string -> option Url }.

Definition MAX_NAVIGATION_URL_LENGTH : Z := 8 * 1024.
Definition SYSTEM_SCHEMES : list string := ["https:"; "http:"; "mailto:"; "tel:"].
Definition NAVIGABLE_SCHEMES : list string := ["https:"; "http:"].

Definition classifyNavigation `{UrlParser} (rawUrl webOrigin : string) : NavigationDecision :=
  if String.eqb rawUrl "" then RejectNavigation
  else if MAX_NAVIGATION_URL_LENGTH <? str_length rawUrl then RejectNavigation
  else match parse_url rawUrl, parse_url webOrigin with
  | Some candidate, Some product =>
      let system := if includes (url_protocol candidate) SYSTEM_SCHEMES
                    then OpenSystem else RejectNavigation in
      if negb (String.eqb (url_username candidate) "" && String.eqb (url_password candidate) "")
      then RejectNavigation
      else if negb (includes (url_protocol candidate) NAVIGABLE_SCHEMES) then system
      else if String.eqb (url_origin candidate) (url_origin product) then AllowInWebview
      else if String.eqb (url_hostname candidate) (url_hostname product) then RejectNavigation
      else system
  | _, _ => RejectNavigation
  end.

(** ** The channel of one document *)

Definition MAX_SEEN_MESSAGE_IDS : nat := 2048.

Record ChannelHandshake := { hs_webBuildId : string; hs_protocolVersion : Z }.

(** [seenMessageIds] is a [Set]: it iterates oldest first. *)
Record BridgeChannel := {
  ch_nonce : string;
  ch_createdAtMs : Z;
  ch_handshake : option ChannelHandshake;
  ch_seenMessageIds : list string;
}.

(** The registry's [channel]. *)
Definition ChannelRegistry : Type := option BridgeChannel.

Definition adoptDocument (nonce : string) (nowMs : Z) : ChannelRegistry :=
  Some {| ch_nonce := nonce; ch_createdAtMs := nowMs; ch_handshake := None; ch_seenMessageIds := [] |}.

Definition isCurrent (nonce : string) (r : ChannelRegistry) : bool :=
  match r with Some c => String.eqb (ch_nonce c) nonce | None => false end.

Definition handshake (r : ChannelRegistry) : option ChannelHandshake := c ← r; ch_handshake c.

Definition completeHandshake (nonce : string) (h : ChannelHandshake) (r : ChannelRegistry)
    : bool * ChannelRegistry :=
  match r with
  | Some c =>
      if negb (String.eqb (ch_nonce c) nonce) then (false, r)
      else match ch_handshake c with
           | Some _ => (false, r)
           | None => (true, Some {| ch_nonce := ch_nonce c; ch_createdAtMs := ch_createdAtMs c;
                                    ch_handshake := Some h;
                                    ch_seenMessageIds := ch_seenMessageIds c |})
           end
  | None => (false, r)
  end.

(** The ids remembered once a new one is added. *)
Definition remember_id (messageId : string) (seen : list string) : list string :=
  (if (MAX_SEEN_MESSAGE_IDS <=? length seen)%nat then tail seen else seen) ++ [messageId].

Definition rememberMessage (nonce messageId : string) (r : ChannelRegistry) : bool * ChannelRegistry :=
  match r with
  | Some c =>
      if negb (String.eqb (ch_nonce c) nonce) then (false, r)
      else if includes messageId (ch_seenMessageIds c) then (false, r)
      else (true, Some {| ch_nonce := ch_nonce c; ch_createdAtMs := ch_createdAtMs c;
                          ch_handshake := ch_handshake c;
                          ch_seenMessageIds := remember_id messageId (ch_seenMessageIds c) |})
  | None => (false, r)
  end.

(** ** The bridge *)

Inductive BridgeRejectionCode :=
  | RejParse (code : ParseErrorCode)
  | WrongOrigin | NoChannel | NotACommand | DuplicateMessage | HandshakeRequired
  | ProtocolMismatch | UnsupportedCapability.

Inductive ReceiveOutcome :=
  | Handled (type : string)
  | Rejected (code : BridgeRejectionCode)
  | Failed (type : string).

Inductive SendOutcome := Sent | Queued | Dropped | Invalid.

#[export] Instance SendOutcome_eq_dec : EqDecision SendOutcome.
Proof. solve_decision. Defined.

Definition MAX_QUEUED_OUTBOUND : nat := 256.

Record Capabilities := {
  cap_groundNavigation : bool;
  cap_transitNavigation : bool;
  cap_transitActions : option bool;
  cap_backgroundLocation : bool;
  cap_localNotifications : bool;
  cap_speech : bool;
  cap_nativeIntake : option bool;
  cap_carDestinations : option bool;
}.

Record ShellDescription := {
  sh_shellVersion : string;
  sh_shellBuild : string;
  sh_platform : string;
  sh_capabilities : Capabilities;
  sh_permission : string;
  sh_locationDriver : string;
  sh_activeSession : option (string * Z * Kind);
}.

Record OutboundDraft := {
  draft_type : NativeToWebType;
  draft_payload : json;
  draft_sessionId : option string;
  draft_revision : option Z;
}.

(** What the bridge did: the scripts it ran in the page, the commands it handed
    on. *)
Inductive bridge_act :=
  | Injected (m : NativeToWebMessage)
  | Dispatched (c : WebToNativeMessage).

Record NativeBridge := {
  br_registry : ChannelRegistry;
  br_queue : list OutboundDraft;
  br_readings : nat;
  br_acts : list bridge_act;
}.

(** [NativeBridgeDeps]: the [n]-th reading of the clock or of the id source, and
    whether the [n]-th injection throws. *)
Class BridgeDeps := {
  webOrigin : string;
  bridge_now : nat -> Z;
  nextMessageId : nat -> string;
  inject_throws : nat -> bool;
}.

Section bridge.
Context `{UrlParser} `{WireDecoder} `{SchemaLibrary} `{BridgeDeps}.

Definition set_registry (r : ChannelRegistry) : M NativeBridge unit :=
  modify (fun b => {| br_registry := r; br_queue := br_queue b;
                      br_readings := br_readings b; br_acts := br_acts b |}).

Definition set_queue (q : list OutboundDraft) : M NativeBridge unit :=
  modify (fun b => {| br_registry := br_registry b; br_queue := q;
                      br_readings := br_readings b; br_acts := br_acts b |}).

Definition bridge_did (a : bridge_act) : M NativeBridge unit :=
  modify (fun b => {| br_registry := br_registry b; br_queue := br_queue b;
                      br_readings := br_readings b; br_acts := br_acts b ++ [a] |}).

Definition bridge_reading : M NativeBridge nat := fun b =>
  (Ok (br_readings b),
   {| br_registry := br_registry b; br_queue := br_queue b;
      br_readings := S (br_readings b); br_acts := br_acts b |}).

(** [this.deps.inject(buildOutboundScript(message))] *)
Definition inject (m : NativeToWebMessage) : M NativeBridge unit :=
  n ← bridge_reading;
  if inject_throws n then throw "injection failed" else bridge_did (Injected m).

(** *** Outbound *)

Definition is_snapshot (d : OutboundDraft) : bool :=
  bool_decide (draft_type d = SnapshotUpdate).

(** [splice] of the first entry that satisfies [p], when there is one. *)
Fixpoint remove_first {A} (p : A -> bool) (l : list A) : option (list A) :=
  match l with
  | [] => None
  | x :: r => if p x then Some r else r' ← remove_first p r; Some (x :: r')
  end.

Definition enqueue (message : OutboundDraft) : M NativeBridge SendOutcome :=
  b ← get;
  let queue := if is_snapshot message
               then List.filter (fun entry => negb (is_snapshot entry)) (br_queue b)
               else br_queue b in
  if (MAX_QUEUED_OUTBOUND <=? length queue)%nat then
    match remove_first is_snapshot queue with
    | None => _ ← set_queue queue; mret Dropped
    | Some queue => _ ← set_queue (queue ++ [message]); mret Queued
    end
  else _ ← set_queue (queue ++ [message]); mret Queued.

(** [{ ...payload, forMessageId }] *)
Fixpoint set_field (key : string) (v : json) (fields : list (string * json)) : list (string * json) :=
  match fields with
  | [] => [(key, v)]
  | (k, x) :: r => if String.eqb k key then (k, v) :: r else (k, x) :: set_field key v r
  end.

Definition correlated (payload : json) (forMessageId : option string) : json :=
  match forMessageId, payload with
  | Some id, JObj fields =>
      if String.eqb id "" then payload else JObj (set_field "forMessageId" (JStr id) fields)
  | _, _ => payload
  end.

Definition is_ready (c : BridgeChannel) : bool :=
  match ch_handshake c with Some _ => true | None => false end.

(** [options.protocolVersion ?? handshake?.protocolVersion ?? MOBILE_PROTOCOL_MAX] *)
Definition emit_version (c : BridgeChannel) (version : option Z) : Z :=
  match version with
  | Some v => v
  | None => match ch_handshake c with Some h => hs_protocolVersion h | None => MOBILE_PROTOCOL_MAX end
  end.

(** The message [emit] would send. *)
Definition candidate (c : BridgeChannel) (draft : OutboundDraft) (version : option Z)
    (forMessageId : option string) (id at_ : nat) : NativeToWebMessage :=
  {| nw_protocolVersion := emit_version c version;
     nw_type := draft_type draft;
     nw_messageId := nextMessageId id;
     nw_channelNonce := ch_nonce c;
     nw_sessionId := draft_sessionId draft;
     nw_revision := draft_revision draft;
     nw_sentAtMs := bridge_now at_;
     nw_payload := correlated (draft_payload draft) forMessageId |}.

Definition emit (draft : OutboundDraft) (immediate : bool) (version : option Z)
    (forMessageId : option string) : M NativeBridge SendOutcome :=
  b ← get;
  match br_registry b with
  | None => mret Dropped
  | Some channel =>
      if is_ready channel && (emit_version channel version <? 4) && is_intake (draft_type draft)
      then mret Dropped
      else
        id ← bridge_reading;
        at_ ← bridge_reading;
        let m := candidate channel draft version forMessageId id at_ in
        if negb (nativeToWebSchema m) then mret Invalid
        else if bool_decide (draft_type draft = VoiceEvent) && negb (is_ready channel)
        then mret Dropped
        else if negb immediate && negb (is_ready channel) then
          enqueue {| draft_type := draft_type draft;
                     draft_payload := nw_payload m;
                     draft_sessionId := draft_sessionId draft;
                     draft_revision := draft_revision draft |}
        else _ ← inject m; mret Sent
  end.

Definition send (type : NativeToWebType) (payload : json) (sessionId : option string)
    (revision : option Z) (forMessageId : option string) : M NativeBridge SendOutcome :=
  emit {| draft_type := type; draft_payload := payload;
          draft_sessionId := sessionId; draft_revision := revision |} false None forMessageId.

Fixpoint flush_all (pending : list OutboundDraft) (version : Z) (sent : nat) : M NativeBridge nat :=
  match pending with
  | [] => mret sent
  | draft :: rest =>
      o ← emit draft false (Some version) None;
      flush_all rest version (if bool_decide (o = Sent) then S sent else sent)
  end.

Definition flush : M NativeBridge nat :=
  b ← get;
  match handshake (br_registry b) with
  | None => mret 0%nat
  | Some h => _ ← set_queue []; flush_all (br_queue b) (hs_protocolVersion h) 0
  end.

Definition discardQueue : M NativeBridge unit := set_queue [].

(** *** Inbound *)

(** A message whose answer is still awaited. *)
Record PendingHello := {
  ph_command : WebToNativeMessage;
  ph_nonce : string;
  ph_webBuildId : string;
  ph_selected : option Z;
}.

Inductive received :=
  | Settled (o : ReceiveOutcome)
  | AwaitsShell (h : PendingHello)
  | AwaitsDispatch (c : WebToNativeMessage).

Definition error_draft (code : string) : OutboundDraft :=
  {| draft_type := NativeError; draft_payload := JObj [("code", JStr code)];
     draft_sessionId := None; draft_revision := None |}.

Definition is_intake_command (p : WebPayload) : bool :=
  match p with IntakeList | IntakeRead _ _ | IntakeComplete _ _ => true | _ => false end.

(** [receive], up to its first [await]. *)
Definition receive (url data : option string) : M NativeBridge received :=
  let rejected code := mret (Settled (Rejected code)) in
  let fromProductDocument :=
    match url with
    | Some u => bool_decide (classifyNavigation u webOrigin = AllowInWebview)
    | None => false
    end in
  if negb fromProductDocument then rejected WrongOrigin
  else
    b ← get;
    match br_registry b with
    | None => rejected NoChannel
    | Some channel =>
        n ← bridge_reading;
        match parseMobileBridgeMessage (default "" data) (ch_nonce channel) (bridge_now n) with
        | inr code => rejected (RejParse code)
        | inl (FromNative _ _) => rejected NotACommand
        | inl (FromWeb command) =>
            let (fresh, registry) :=
              rememberMessage (ch_nonce channel) (msg_messageId command) (br_registry b) in
            _ ← set_registry registry;
            if negb fresh then rejected DuplicateMessage
            else match msg_payload command with
            | WebHello webBuildId min max =>
                mret (AwaitsShell
                  {| ph_command := command; ph_nonce := ch_nonce channel;
                     ph_webBuildId := webBuildId;
                     ph_selected := negotiateMobileProtocol {| range_min := min; range_max := max |}
                       {| range_min := MOBILE_PROTOCOL_MIN; range_max := MOBILE_PROTOCOL_MAX |} |})
            | payload =>
                match handshake registry with
                | None => rejected HandshakeRequired
                | Some h =>
                    if negb (msg_protocolVersion command =? hs_protocolVersion h)
                    then rejected ProtocolMismatch
                    else if is_intake_command payload && (hs_protocolVersion h <? 4) then
                      _ ← send NativeError (JObj [("code", JStr "unsupported-capability")]) None None
                            (Some (msg_messageId command));
                      rejected UnsupportedCapability
                    else
                      _ ← bridge_did (Dispatched command);
                      mret (AwaitsDispatch command)
                end
            end
        end
    end.

Definition containDependencyFailure (command : WebToNativeMessage) (immediate : bool)
    : M NativeBridge ReceiveOutcome :=
  _ ← try_catch
        (_ ← emit (error_draft "internal-error") immediate
               (if immediate then Some (msg_protocolVersion command) else None)
               (Some (msg_messageId command));
         mret tt)
        (mret tt);
  mret (Failed (web_type (msg_payload command))).

Definition json_bool_opt (key : string) (o : option bool) : list (string * json) :=
  match o with Some v => [(key, JBool v)] | None => [] end.

(** [shell.capabilities], or [legacyCapabilities] below version 4. *)
Definition capabilities_json (c : Capabilities) (modern : bool) : json :=
  JObj ([("groundNavigation", JBool (cap_groundNavigation c));
         ("transitNavigation", JBool (cap_transitNavigation c))]
        ++ json_bool_opt "transitActions" (cap_transitActions c)
        ++ [("backgroundLocation", JBool (cap_backgroundLocation c));
            ("localNotifications", JBool (cap_localNotifications c));
            ("speech", JBool (cap_speech c))]
        ++ (if modern then json_bool_opt "nativeIntake" (cap_nativeIntake c)
                           ++ json_bool_opt "carDestinations" (cap_carDestinations c)
            else [])).

Definition kind_name (k : Kind) : string := match k with Ground => "ground" | Transit => "transit" end.

Definition opt_version (o : option Z) : json :=
  match o with Some v => JNum (num_of_Z v) | None => JNull end.

Definition hello_payload (shell : ShellDescription) (selected : option Z) : json :=
  let modern := match selected with Some v => 4 <=? v | None => false end in
  JObj [("shellVersion", JStr (sh_shellVersion shell));
        ("shellBuild", JStr (sh_shellBuild shell));
        ("platform", JStr (sh_platform shell));
        ("capabilities", capabilities_json (sh_capabilities shell) modern);
        ("permission", JStr (sh_permission shell));
        ("locationDriver", JStr (sh_locationDriver shell));
        ("activeSession",
          match sh_activeSession shell with
          | Some (sid, rev, k) => JObj [("sessionId", JStr sid); ("revision", JNum (num_of_Z rev));
                                        ("kind", JStr (kind_name k))]
          | None => JNull
          end);
        ("selectedProtocolVersion", opt_version selected);
        ("minProtocolVersion", JNum (num_of_Z MOBILE_PROTOCOL_MIN));
        ("maxProtocolVersion", JNum (num_of_Z MOBILE_PROTOCOL_MAX))].

(** [handleHello] from the shell's description on. *)
Definition handleHello (h : PendingHello) (shell : ShellDescription) : M NativeBridge bool :=
  b ← get;
  if negb (isCurrent (ph_nonce h) (br_registry b)) then mret false
  else
    _ ← match ph_selected h with
        | Some v => set_registry (completeHandshake (ph_nonce h)
                      {| hs_webBuildId := ph_webBuildId h; hs_protocolVersion := v |}
                      (br_registry b)).2
        | None => mret tt
        end;
    _ ← emit {| draft_type := NativeHello; draft_payload := hello_payload shell (ph_selected h);
                draft_sessionId := None; draft_revision := None |}
          true (Some (default MOBILE_PROTOCOL_MAX (ph_selected h)))
          (Some (msg_messageId (ph_command h)));
    _ ← match ph_selected h with Some _ => _ ← flush; mret tt | None => mret tt end;
    mret true.

(** A promise that has settled. *)
Definition answer {A} (o : outcome A) : M NativeBridge A := fun b => (o, b).

(** The rest of [receive] once the shell has described itself, or failed to. *)
Definition hello_answered (h : PendingHello) (shell : outcome ShellDescription)
    : M NativeBridge ReceiveOutcome :=
  let command := ph_command h in
  try_catch
    (shell ← answer shell;
     current ← handleHello h shell;
     mret (if (current : bool) then Handled (web_type (msg_payload command))
           else Rejected (RejParse WrongChannel)))
    (containDependencyFailure command true).

(** The rest of [receive] once the handler of a command has settled. *)
Definition dispatch_settled (command : WebToNativeMessage) (ok : bool)
    : M NativeBridge ReceiveOutcome :=
  if ok then mret (Handled (web_type (msg_payload command)))
  else containDependencyFailure command false.
End bridge.
