(* ===== verification/BridgeFacts.v ===== *)
(** * What the bridge guarantees

    Every inbound message runs the whole gauntlet and is admitted at most once
    per document; nothing but the handshake and its errors reaches a page before
    the handshake; the outbound queue is bounded and drops only snapshots. *)

From S2P Require Import Prelude Protocol Wire Bridge.

(** ** The bridge over time *)

(** Everything that can happen to the bridge of one shell. *)
Inductive bridge_event :=
  | EvReceive (url data : option string)
  | EvDescribed (i : nat) (shell : outcome ShellDescription)
  | EvSettled (i : nat) (ok : bool)
  | EvAdopt (nonce : string) (nowMs : Z)
  | EvInvalidate
  | EvSend (type : NativeToWebType) (payload : json) (sid : option string) (rev : option Z)
      (forMessageId : option string)
  | EvFlush
  | EvDiscard.

(** The bridge and the calls of [receive] that wait for an answer. *)
Record BridgeSystem := {
  sys_bridge : NativeBridge;
  sys_hellos : list PendingHello;
  sys_dispatches : list WebToNativeMessage;
}.

Section system.
Context `{UrlParser} `{WireDecoder} `{SchemaLibrary} `{BridgeDeps}.

Definition with_bridge (b : NativeBridge) (s : BridgeSystem) : BridgeSystem :=
  {| sys_bridge := b; sys_hellos := sys_hellos s; sys_dispatches := sys_dispatches s |}.

Definition awaiting (r : outcome received) (b : NativeBridge) (s : BridgeSystem) : BridgeSystem :=
  match r with
  | Ok (AwaitsShell h) =>
      {| sys_bridge := b; sys_hellos := sys_hellos s ++ [h]; sys_dispatches := sys_dispatches s |}
  | Ok (AwaitsDispatch c) =>
      {| sys_bridge := b; sys_hellos := sys_hellos s; sys_dispatches := sys_dispatches s ++ [c] |}
  | _ => with_bridge b s
  end.

Definition bridge_step (e : bridge_event) (s : BridgeSystem) : BridgeSystem :=
  let b := sys_bridge s in
  match e with
  | EvReceive url data => let (r, b) := receive url data b in awaiting r b s
  | EvDescribed i shell =>
      match sys_hellos s !! i with
      | Some h => {| sys_bridge := (hello_answered h shell b).2;
                     sys_hellos := delete i (sys_hellos s); sys_dispatches := sys_dispatches s |}
      | None => s
      end
  | EvSettled i ok =>
      match sys_dispatches s !! i with
      | Some c => {| sys_bridge := (dispatch_settled c ok b).2;
                     sys_hellos := sys_hellos s; sys_dispatches := delete i (sys_dispatches s) |}
      | None => s
      end
  | EvAdopt nonce nowMs => with_bridge (set_registry (adoptDocument nonce nowMs) b).2 s
  | EvInvalidate => with_bridge (set_registry None b).2 s
  | EvSend type payload sid rev forMessageId =>
      with_bridge (send type payload sid rev forMessageId b).2 s
  | EvFlush => with_bridge (flush b).2 s
  | EvDiscard => with_bridge (discardQueue b).2 s
  end.

Definition bridge_run (es : list bridge_event) (s : BridgeSystem) : BridgeSystem :=
  foldl (fun s e => bridge_step e s) s es.

Lemma bridge_step_bridge e s :
  sys_bridge (bridge_step e s) =
  match e with
  | EvReceive url data => (receive url data (sys_bridge s)).2
  | EvDescribed i shell =>
      match sys_hellos s !! i with
      | Some h => (hello_answered h shell (sys_bridge s)).2
      | None => sys_bridge s
      end
  | EvSettled i ok =>
      match sys_dispatches s !! i with
      | Some c => (dispatch_settled c ok (sys_bridge s)).2
      | None => sys_bridge s
      end
  | EvAdopt nonce nowMs => (set_registry (adoptDocument nonce nowMs) (sys_bridge s)).2
  | EvInvalidate => (set_registry None (sys_bridge s)).2
  | EvSend type payload sid rev id => (send type payload sid rev id (sys_bridge s)).2
  | EvFlush => (flush (sys_bridge s)).2
  | EvDiscard => (discardQueue (sys_bridge s)).2
  end.
Proof.
  destruct e; simpl; try done.
  - destruct (receive url data (sys_bridge s)) as [[[]|] b]; done.
  - by destruct (sys_hellos s !! i).
  - by destruct (sys_dispatches s !! i).
Qed.

(** ** What is said *)

(** Whether a script may run, or a command be handed on, under a registry. *)
Definition act_ok (r : ChannelRegistry) (a : bridge_act) : Prop :=
  exists c, r = Some c /\
  match a with
  | Injected m =>
      nativeToWebSchema m = true /\ nw_channelNonce m = ch_nonce c
      /\ (ch_handshake c = None -> nw_type m = NativeHello \/ nw_type m = NativeError)
  | Dispatched command =>
      exists h, ch_handshake c = Some h /\ msg_protocolVersion command = hs_protocolVersion h
                /\ (forall b lo hi, msg_payload command <> WebHello b lo hi)
  end.

(** A document only gains: its handshake is never changed, its nonce never. *)
Definition grows (r r' : ChannelRegistry) : Prop :=
  match r, r' with
  | Some c, Some c' =>
      ch_nonce c' = ch_nonce c
      /\ (forall h, ch_handshake c = Some h -> ch_handshake c' = Some h)
  | None, None => True
  | _, _ => False
  end.

#[local] Instance grows_preorder : PreOrder grows.
Proof.
  split.
  - intros [c|]; [|done]. by split.
  - intros [a|] [b|] [c|]; simpl; try done. intros [N1 K1] [N2 K2].
    split; [congruence|]. auto.
Qed.

Lemma act_ok_grows r r' a : grows r r' -> act_ok r a -> act_ok r' a.
Proof.
  intros Hg (c & -> & Ha). destruct r' as [c'|]; [|done]. destruct Hg as [Hn Hh].
  exists c'. split; [done|]. destruct a as [m|command].
  - destruct Ha as (Hs & Hm & Hc). split_and!; [done|congruence|].
    intros Hnone. apply Hc. destruct (ch_handshake c) as [h|] eqn:E; [|done].
    by rewrite (Hh h eq_refl) in Hnone.
  - destruct Ha as (h & E & Hrest). exists h. split; [auto|done].
Qed.

(** The bridge goes on within one document, and everything it does is allowed. *)
Definition evolves (b b' : NativeBridge) : Prop :=
  grows (br_registry b) (br_registry b')
  /\ exists new, br_acts b' = br_acts b ++ new /\ Forall (act_ok (br_registry b')) new.

#[local] Instance evolves_preorder : PreOrder evolves.
Proof.
  split.
  - intros b. split; [reflexivity|]. exists []. by rewrite app_nil_r.
  - intros a b c [G1 (n1 & E1 & F1)] [G2 (n2 & E2 & F2)]. split; [by etransitivity|].
    exists (n1 ++ n2). rewrite E2, E1, app_assoc. split; [done|].
    apply Forall_app. split; [|done]. eapply Forall_impl; [exact F1|].
    intros x Hx. by eapply act_ok_grows.
Qed.

(** No step of [m] touches the registry. *)
Definition same_registry (b b' : NativeBridge) : Prop := br_registry b' = br_registry b.

#[local] Instance same_registry_preorder : PreOrder same_registry.
Proof. unfold same_registry. split; [done|]. intros a b c E1 E2. congruence. Qed.

Lemma evolves_same b b' :
  br_registry b' = br_registry b -> br_acts b' = br_acts b -> evolves b b'.
Proof.
  intros E1 E2. split; [by rewrite E1|]. exists []. by rewrite app_nil_r.
Qed.

Lemma respects_reading : respects evolves bridge_reading.
Proof. intros b. by apply evolves_same. Qed.
Lemma respects_set_queue q : respects evolves (set_queue q).
Proof. intros b. by apply evolves_same. Qed.

Lemma respects_enqueue d : respects evolves (enqueue d).
Proof. unfold enqueue. respect; apply respects_set_queue. Qed.

Lemma inject_evolves m b :
  act_ok (br_registry b) (Injected m) -> evolves b (inject m b).2.
Proof.
  intros Ha. unfold inject, bridge_reading, mbind, M_bind. cbn.
  destruct (inject_throws (br_readings b)); [by apply evolves_same|].
  split; [reflexivity|]. exists [Injected m]. split; [done|]. by constructor.
Qed.

(** The bridge after the two readings of [emit]. *)
Definition emit_ticked (b : NativeBridge) : NativeBridge :=
  {| br_registry := br_registry b; br_queue := br_queue b;
     br_readings := S (S (br_readings b)); br_acts := br_acts b |}.

(** [emit] by cases. *)
Lemma emit_cases draft immediate version forMessageId b :
  let E := emit draft immediate version forMessageId b in
  match br_registry b with
  | None => E = (Ok Dropped, b)
  | Some c =>
      let m := candidate c draft version forMessageId (br_readings b) (S (br_readings b)) in
      E = (Ok Dropped, b)
      \/ E = (Ok Invalid, emit_ticked b) /\ nativeToWebSchema m = false
      \/ E = (Ok Dropped, emit_ticked b)
      \/ nativeToWebSchema m = true /\ immediate = false /\ ch_handshake c = None
          /\ E = enqueue {| draft_type := draft_type draft; draft_payload := nw_payload m;
                            draft_sessionId := draft_sessionId draft;
                            draft_revision := draft_revision draft |} (emit_ticked b)
      \/ nativeToWebSchema m = true /\ (immediate = true \/ is_Some (ch_handshake c))
          /\ E = (_ ← inject m; mret Sent) (emit_ticked b)
  end.
Proof.
  cbv zeta. unfold emit, get, bridge_reading, mbind, M_bind, mret, M_ret.
  destruct (br_registry b) as [c|] eqn:Er; [|done].
  destruct (_ && is_intake (draft_type draft)); [by left|right].
  cbn [br_readings br_queue br_acts br_registry].
  fold (emit_ticked b).
  set (m := candidate c draft version forMessageId (br_readings b) (S (br_readings b))).
  destruct (nativeToWebSchema m) eqn:Es; cbn [negb]; [right|left; by split].
  destruct (bool_decide (draft_type draft = VoiceEvent) && _); [by left|right].
  unfold is_ready. destruct immediate, (ch_handshake c) eqn:Eh; cbn [negb andb];
    solve [left; done | left; split_and!; done | right; split_and!; eauto].
Qed.

(** *** Outbound operations *)

Lemma emit_evolves draft immediate version forMessageId b :
  (immediate = true -> draft_type draft = NativeHello \/ draft_type draft = NativeError) ->
  evolves b (emit draft immediate version forMessageId b).2.
Proof.
  intros Him. pose proof (emit_cases draft immediate version forMessageId b) as Hc. cbv zeta in Hc.
  destruct (br_registry b) as [c|] eqn:Er; [|by rewrite Hc].
  assert (Ht : evolves b (emit_ticked b)) by (by apply evolves_same).
  destruct Hc as [->|[[-> _]|[->|[(_ & _ & _ & ->)|(Hs & Hr & ->)]]]]; try done.
  - etransitivity; [exact Ht|]. apply respects_enqueue.
  - etransitivity; [exact Ht|].
    assert (Ha : act_ok (br_registry (emit_ticked b))
                   (Injected (candidate c draft version forMessageId (br_readings b) (S (br_readings b))))).
    { exists c. split; [exact Er|]. split_and!; [done|done|]. intros Hn. rewrite Hn in Hr.
      destruct Hr as [Hi|[? ?]]; [by apply Him|done]. }
    apply inject_evolves in Ha. revert Ha. unfold mbind, M_bind.
    by destruct (inject _ (emit_ticked b)) as [[[]|] b'].
Qed.

Lemma respects_send type payload sid rev forMessageId :
  respects evolves (send type payload sid rev forMessageId).
Proof. intros b. by apply emit_evolves. Qed.

Lemma respects_flush_all pending version sent : respects evolves (flush_all pending version sent).
Proof.
  revert sent. induction pending as [|d r IH]; intros sent; simpl; respect; [|apply IH].
  intros b. by apply emit_evolves.
Qed.

Lemma respects_flush : respects evolves flush.
Proof.
  unfold flush. respect; [apply respects_set_queue|apply respects_flush_all].
Qed.

Lemma respects_contain command immediate :
  respects evolves (containDependencyFailure command immediate).
Proof.
  unfold containDependencyFailure. respect.
  intros b. apply emit_evolves. by right.
Qed.

Lemma complete_grows nonce h r : grows r (completeHandshake nonce h r).2.
Proof.
  destruct r as [c|]; [|done]. unfold completeHandshake.
  destruct (String.eqb (ch_nonce c) nonce); cbn [negb]; [|reflexivity].
  destruct (ch_handshake c) eqn:E; [reflexivity|]. split; [done|]. by rewrite E.
Qed.

Lemma set_registry_evolves r b : grows (br_registry b) r -> evolves b (set_registry r b).2.
Proof. intros Hg. split; [done|]. exists []. by rewrite app_nil_r. Qed.

Lemma respects_handleHello h shell : respects evolves (handleHello h shell).
Proof.
  intros b. unfold handleHello, get, mbind at 1, M_bind at 1.
  destruct (isCurrent (ph_nonce h) (br_registry b)); cbn [negb]; [|reflexivity].
  match goal with |- evolves b (?m b).2 =>
    assert (Hm : forall s, br_registry s = br_registry b -> evolves s (m s).2); [|by apply Hm] end.
  intros s Es. unfold mbind at 1, M_bind at 1.
  assert (H3 : respects evolves
    (_ ← emit {| draft_type := NativeHello; draft_payload := hello_payload shell (ph_selected h);
                 draft_sessionId := None; draft_revision := None |}
           true (Some (default MOBILE_PROTOCOL_MAX (ph_selected h)))
           (Some (msg_messageId (ph_command h)));
     _ ← match ph_selected h with Some _ => _ ← flush; mret tt | None => mret tt end;
     mret true)).
  { respect; [|apply respects_flush]. intros b1. apply emit_evolves. by left. }
  destruct (ph_selected h) as [v|] eqn:Ev; [|apply H3].
  etransitivity; [|apply H3]. apply set_registry_evolves. rewrite Es. apply complete_grows.
Qed.

Lemma respects_hello_answered h shell : respects evolves (hello_answered h shell).
Proof.
  unfold hello_answered. respect; [|apply respects_handleHello|apply respects_contain].
  intros b. reflexivity.
Qed.

Lemma respects_dispatch_settled command ok : respects evolves (dispatch_settled command ok).
Proof. unfold dispatch_settled. respect. apply respects_contain. Qed.

(** *** Inbound *)

Definition from_product (url : option string) : bool :=
  match url with
  | Some u => bool_decide (classifyNavigation u webOrigin = AllowInWebview)
  | None => false
  end.

(** A command that passes the first four gates: origin, channel, bounds, schema. *)
Definition arrives (b : NativeBridge) (url data : option string) (c : BridgeChannel)
    (command : WebToNativeMessage) : Prop :=
  from_product url = true /\ br_registry b = Some c
  /\ parseMobileBridgeMessage (default "" data) (ch_nonce c) (bridge_now (br_readings b))
     = inl (FromWeb command).

(** The bridge after the clock was read. *)
Definition clock_read (b : NativeBridge) : NativeBridge :=
  {| br_registry := br_registry b; br_queue := br_queue b;
     br_readings := S (br_readings b); br_acts := br_acts b |}.

Definition remember_in (id : string) (c : BridgeChannel) : BridgeChannel :=
  {| ch_nonce := ch_nonce c; ch_createdAtMs := ch_createdAtMs c; ch_handshake := ch_handshake c;
     ch_seenMessageIds := remember_id id (ch_seenMessageIds c) |}.

(** ... and the message remembered. *)
Definition admitted (b : NativeBridge) (c : BridgeChannel) (command : WebToNativeMessage) : NativeBridge :=
  {| br_registry := Some (remember_in (msg_messageId command) c); br_queue := br_queue b;
     br_readings := S (br_readings b); br_acts := br_acts b |}.

Definition is_hello (p : WebPayload) : bool := match p with WebHello _ _ _ => true | _ => false end.

(** The verdict on a command that is not the handshake. *)
Definition command_verdict (c : BridgeChannel) (command : WebToNativeMessage)
    : M NativeBridge received :=
  match ch_handshake c with
  | None => mret (Settled (Rejected HandshakeRequired))
  | Some h =>
      if negb (msg_protocolVersion command =? hs_protocolVersion h)
      then mret (Settled (Rejected ProtocolMismatch))
      else if is_intake_command (msg_payload command) && (hs_protocolVersion h <? 4) then
        _ ← send NativeError (JObj [("code", JStr "unsupported-capability")]) None None
              (Some (msg_messageId command));
        mret (Settled (Rejected UnsupportedCapability))
      else _ ← bridge_did (Dispatched command); mret (AwaitsDispatch command)
  end.

(** What becomes of an admitted command. *)
Definition verdict (c : BridgeChannel) (command : WebToNativeMessage) : M NativeBridge received :=
  match msg_payload command with
  | WebHello webBuildId lo hi =>
      mret (AwaitsShell
        {| ph_command := command; ph_nonce := ch_nonce c; ph_webBuildId := webBuildId;
           ph_selected := negotiateMobileProtocol {| range_min := lo; range_max := hi |}
             {| range_min := MOBILE_PROTOCOL_MIN; range_max := MOBILE_PROTOCOL_MAX |} |})
  | _ => command_verdict c command
  end.

Lemma receive_arrives url data b c command :
  arrives b url data c command ->
  receive url data b =
    if includes (msg_messageId command) (ch_seenMessageIds c)
    then (Ok (Settled (Rejected DuplicateMessage)), clock_read b)
    else verdict c command (admitted b c command).
Proof.
  intros (Ho & Er & Hp). unfold receive. fold (from_product url). rewrite Ho. cbn [negb].
  unfold get, bridge_reading, set_registry, modify, mbind, M_bind. rewrite Er.
  cbn [br_registry br_readings]. rewrite Hp. cbn [rememberMessage].
  rewrite String.eqb_refl. cbn [negb].
  destruct (includes (msg_messageId command) (ch_seenMessageIds c)); cbn [negb].
  - unfold clock_read. by rewrite Er.
  - unfold verdict, command_verdict, admitted. by destruct (msg_payload command).
Qed.

Lemma receive_other url data b :
  (forall c command, ~ arrives b url data c command) ->
  exists code b', receive url data b = (Ok (Settled (Rejected code)), b')
    /\ (b' = b \/ b' = clock_read b).
Proof.
  intros Hno. unfold receive. fold (from_product url).
  destruct (from_product url) eqn:Ho; cbn [negb]; [|by eauto].
  unfold get, bridge_reading, mbind, M_bind.
  destruct (br_registry b) as [c|] eqn:Er; [|by eauto].
  destruct (parseMobileBridgeMessage (default "" data) (ch_nonce c) (bridge_now (br_readings b)))
    as [[command|n t]|code] eqn:Hp; [|by eauto..].
  exfalso. by apply (Hno c command).
Qed.

(** What parsing has checked about the envelope. *)
Lemma parsed_envelope raw nonce nowMs m :
  parseMobileBridgeMessage raw nonce nowMs = inl (FromWeb m) ->
  (nonce = "" \/ msg_channelNonce m = nonce) /\ Z.abs (nowMs - msg_sentAtMs m) <= MAX_CLOCK_SKEW_MS.
Proof.
  unfold parseMobileBridgeMessage. destruct (_ <? _); [done|].
  destruct (json_parse raw) as [j|]; [|done]. destruct (containsPollutingKey j 0); [done|].
  destruct (message_schema j) as [[m' data]|]; [|done]. destruct (_ && (_ <? _)); [done|].
  destruct (negb (String.eqb nonce "") && _) eqn:En; [done|].
  destruct (MAX_CLOCK_SKEW_MS <? _) eqn:Ek; [done|].
  destruct (enforceAggregateBounds data); [done|]. intros [= ->]. simpl in *. split; [|lia].
  destruct (String.eqb_spec nonce ""); [by left|right].
  destruct (String.eqb_spec (msg_channelNonce m) nonce); [done|]. discriminate En.
Qed.

Lemma arrives_envelope url data b c command :
  arrives b url data c command ->
  (ch_nonce c = "" \/ msg_channelNonce command = ch_nonce c)
  /\ Z.abs (bridge_now (br_readings b) - msg_sentAtMs command) <= MAX_CLOCK_SKEW_MS.
Proof. intros (_ & _ & Hp). by eapply parsed_envelope. Qed.

Lemma arrives_dec url data b :
  (exists c command, arrives b url data c command) \/ (forall c command, ~ arrives b url data c command).
Proof.
  destruct (from_product url) eqn:Ho; [|right; intros c m (E & _); congruence].
  destruct (br_registry b) as [c|] eqn:Er; [|right; intros c m (_ & E & _); congruence].
  destruct (parseMobileBridgeMessage (default "" data) (ch_nonce c) (bridge_now (br_readings b)))
    as [[command|n t]|code] eqn:Hp.
  - left. exists c, command. done.
  - right. intros c' m (_ & E & E'). congruence.
  - right. intros c' m (_ & E & E'). congruence.
Qed.

Lemma includes_elem x l : includes x l = true <-> x ∈ l.
Proof.
  unfold includes. rewrite existsb_exists. split.
  - intros (y & Hy & E). apply String.eqb_eq in E as ->. by apply list_elem_of_In.
  - intros Hx. exists x. split; [by apply list_elem_of_In|apply String.eqb_refl].
Qed.

(** A verdict keeps what it is about. *)
Lemma enqueue_acts d b : br_acts (enqueue d b).2 = br_acts b.
Proof.
  unfold enqueue, get, mbind, M_bind. destruct (is_snapshot d), (_ <=? _)%nat; try done;
    by destruct (remove_first is_snapshot _).
Qed.

Lemma emit_acts draft immediate version forMessageId b :
  br_acts (emit draft immediate version forMessageId b).2 = br_acts b
  \/ exists m, br_acts (emit draft immediate version forMessageId b).2 = br_acts b ++ [Injected m]
       /\ nw_type m = draft_type draft.
Proof.
  pose proof (emit_cases draft immediate version forMessageId b) as Hc. cbv zeta in Hc.
  destruct (br_registry b) as [c|]; [|left; by rewrite Hc].
  destruct Hc as [->|[[-> _]|[->|[(_ & _ & _ & ->)|(_ & _ & ->)]]]]; try by left.
  - left. by rewrite enqueue_acts.
  - unfold inject, bridge_reading, mbind, M_bind. cbn.
    destruct (inject_throws _); [by left|]. right. by eexists.
Qed.

(** What a rejection may have done: at most one error reply. *)
Definition only_refuses (b b' : NativeBridge) : Prop :=
  br_acts b' = br_acts b \/ exists m, br_acts b' = br_acts b ++ [Injected m] /\ nw_type m = NativeError.

(** C32: the gauntlet.  A command is handed on only when it came from the product
    origin, parsed, carries the nonce of the document that is loaded, was not seen
    in this document before, is not the handshake itself, and speaks exactly the
    negotiated version (4 or later for the intake commands).  It is handed on at
    once, as the only thing the bridge does.  A handshake is taken up under the
    same first checks and does nothing yet.  Anything else is refused with a code
    and nothing is handed on: at most one error is sent to the page. *)
Theorem bridge_gauntlet url data b :
  match receive url data b with
  | (Ok (AwaitsDispatch command), b') =>
      exists c h, arrives b url data c command
        /\ (ch_nonce c = "" \/ msg_channelNonce command = ch_nonce c)
        /\ msg_messageId command ∉ ch_seenMessageIds c
        /\ is_hello (msg_payload command) = false
        /\ ch_handshake c = Some h /\ msg_protocolVersion command = hs_protocolVersion h
        /\ (is_intake_command (msg_payload command) = true -> 4 <= hs_protocolVersion h)
        /\ br_acts b' = br_acts b ++ [Dispatched command] /\ br_queue b' = br_queue b
  | (Ok (AwaitsShell h), b') =>
      exists c, arrives b url data c (ph_command h)
        /\ (ch_nonce c = "" \/ msg_channelNonce (ph_command h) = ch_nonce c)
        /\ msg_messageId (ph_command h) ∉ ch_seenMessageIds c
        /\ is_hello (msg_payload (ph_command h)) = true /\ ph_nonce h = ch_nonce c
        /\ br_acts b' = br_acts b /\ br_queue b' = br_queue b
  | (Ok (Settled o), b') => (exists code, o = Rejected code) /\ only_refuses b b'
  | (Throw _, b') => only_refuses b b'
  end.
Proof.
  destruct (arrives_dec url data b) as [(c & command & Ha)|Hno]; cycle 1.
  { destruct (receive_other url data b Hno) as (code & b' & -> & [->| ->]);
      (split; [by eauto|by left]). }
  rewrite (receive_arrives _ _ _ _ _ Ha).
  destruct (includes (msg_messageId command) (ch_seenMessageIds c)) eqn:Ei.
  { split; [by eauto|by left]. }
  assert (Hn : msg_messageId command ∉ ch_seenMessageIds c).
  { intros Hin. apply includes_elem in Hin. congruence. }
  set (b1 := admitted b c command).
  assert (Hhello : forall x lo hi, msg_payload command = WebHello x lo hi ->
    is_hello (msg_payload command) = true) by (intros x lo hi ->; done).
  destruct (is_hello (msg_payload command)) eqn:Eh.
  { unfold verdict. destruct (msg_payload command) eqn:Ep; try discriminate Eh.
    exists c. cbn. rewrite Ep. destruct (arrives_envelope _ _ _ _ _ Ha). done. }
  assert (Ev : verdict c command b1 = command_verdict c command b1).
  { unfold verdict, command_verdict. by destruct (msg_payload command). }
  rewrite Ev. unfold command_verdict.
  destruct (ch_handshake c) as [h|] eqn:Hh; [|split; [by eauto|by left]].
  destruct (msg_protocolVersion command =? hs_protocolVersion h) eqn:Epv; cbn [negb];
    [apply Z.eqb_eq in Epv|split; [by eauto|by left]].
  destruct (is_intake_command (msg_payload command) && (hs_protocolVersion h <? 4)) eqn:Ein.
  - pose proof (emit_acts (error_draft "unsupported-capability") false None
                  (Some (msg_messageId command)) b1) as Hs.
    change (only_refuses b (send NativeError (JObj [("code", JStr "unsupported-capability")])
              None None (Some (msg_messageId command)) b1).2) in Hs.
    unfold mbind, M_bind. destruct (send _ _ _ _ _ b1) as [[o|e] b2]; [split; [by eauto|done]|done].
  - exists c, h. destruct (arrives_envelope _ _ _ _ _ Ha). split_and!; try done. intros Hin. rewrite Hin in Ein. cbn in Ein. lia.
Qed.

(** *** At most once *)

(** What happens within one document. *)
Definition same_document (e : bridge_event) : bool :=
  match e with EvAdopt _ _ | EvInvalidate => false | _ => true end.

Definition is_receive (e : bridge_event) : bool :=
  match e with EvReceive _ _ => true | _ => false end.

(** [id] was remembered, and at most [k] ids after it. *)
Definition remembered_within (id : string) (k : nat) (b : NativeBridge) : Prop :=
  exists c before after, br_registry b = Some c
    /\ ch_seenMessageIds c = before ++ id :: after
    /\ (length after <= k)%nat /\ (length (ch_seenMessageIds c) <= MAX_SEEN_MESSAGE_IDS)%nat.

(** The ids a document has seen stay as they are, or one more is added. *)
Definition seen_keeps (b b' : NativeBridge) : Prop :=
  (ch_seenMessageIds <$> br_registry b') = (ch_seenMessageIds <$> br_registry b).

#[local] Instance seen_keeps_preorder : PreOrder seen_keeps.
Proof. unfold seen_keeps. split; [done|]. intros a b c E1 E2. congruence. Qed.

Lemma remembered_keeps id k b b' :
  seen_keeps b b' -> remembered_within id k b -> remembered_within id k b'.
Proof.
  unfold seen_keeps. intros E (c & before & after & Er & Es & Hk & Hm). rewrite Er in E. simpl in E.
  destruct (br_registry b') as [c'|] eqn:Er'; [|done]. simpl in E. injection E as E.
  exists c', before, after. rewrite E. done.
Qed.

Lemma remember_id_within id x before after k :
  (length after <= k)%nat -> (k < 2047)%nat ->
  (length (before ++ id :: after) <= MAX_SEEN_MESSAGE_IDS)%nat ->
  exists before' after', remember_id x (before ++ id :: after) = before' ++ id :: after'
    /\ (length after' <= S k)%nat
    /\ (length (remember_id x (before ++ id :: after)) <= MAX_SEEN_MESSAGE_IDS)%nat.
Proof.
  intros Hk Hlim Hlen. unfold remember_id, MAX_SEEN_MESSAGE_IDS in *.
  assert (Hl : forall l, length (l ++ id :: after) = (length l + S (length after))%nat)
    by (intros; by rewrite length_app).
  assert (Hl' : forall l, length (l ++ id :: after ++ [x]) = (length l + S (S (length after)))%nat)
    by (intros; rewrite length_app; simpl; rewrite length_app; simpl; lia).
  assert (Ha : length (after ++ [x]) = S (length after)) by (rewrite length_app; simpl; lia).
  rewrite Hl in *. destruct (Nat.leb_spec 2048 (length before + S (length after))).
  - destruct before as [|y before]; [simpl in *; lia|]. exists before, (after ++ [x]). simpl.
    rewrite <- app_assoc. simpl. rewrite Hl', Ha. simpl in *. split; [done|]. lia.
  - exists before, (after ++ [x]). rewrite <- app_assoc. simpl. rewrite Hl', Ha. split; [done|]. lia.
Qed.

Lemma seen_enqueue d : respects seen_keeps (enqueue d).
Proof. unfold enqueue. respect; intros ?; done. Qed.

Lemma seen_emit draft immediate version forMessageId :
  respects seen_keeps (emit draft immediate version forMessageId).
Proof.
  unfold emit. respect; try (intros ?; done); [apply seen_enqueue|].
  unfold inject. respect; intros ?; done.
Qed.

Lemma seen_flush : respects seen_keeps flush.
Proof.
  unfold flush. respect; [intros ?; done|].
  match goal with |- respects _ (flush_all ?l ?v ?n) => generalize n; induction l as [|d r IH] end;
    intros n; simpl; respect; [apply seen_emit|apply IH].
Qed.

Lemma seen_contain command immediate : respects seen_keeps (containDependencyFailure command immediate).
Proof. unfold containDependencyFailure. respect. apply seen_emit. Qed.

Lemma seen_handleHello h shell : respects seen_keeps (handleHello h shell).
Proof.
  intros b. unfold handleHello, get, mbind at 1, M_bind at 1.
  destruct (negb _); [done|].
  match goal with |- context [mbind ?f (match ph_selected h with _ => _ end)] =>
    assert (Hf : forall u, respects seen_keeps (f u)); [|set (k := f) in *] end.
  { intros _. respect; [apply seen_emit|apply seen_flush]. }
  destruct (ph_selected h) as [v|]; [|exact (Hf tt b)].
  unfold mbind, M_bind, set_registry, modify. etransitivity; [|apply Hf].
  unfold seen_keeps. simpl. destruct (br_registry b) as [c|]; [|done]. simpl.
  destruct (negb _); [done|]. by destruct (ch_handshake c).
Qed.

Lemma seen_hello_answered h shell : respects seen_keeps (hello_answered h shell).
Proof.
  unfold hello_answered. respect; [|apply seen_handleHello|apply seen_contain]. by intros ?.
Qed.

Lemma seen_verdict c command : respects seen_keeps (verdict c command).
Proof.
  assert (Hc : respects seen_keeps (command_verdict c command)).
  { unfold command_verdict. respect; [apply seen_emit|by intros ?]. }
  unfold verdict. destruct (msg_payload command); try exact Hc. apply respects_ret, _.
Qed.

(** Every event of the document keeps the id, [EvReceive] behind one more. *)
Lemma step_remembers id k e s :
  same_document e = true -> (is_receive e = true -> (k < 2047)%nat) ->
  remembered_within id k (sys_bridge s) ->
  remembered_within id (if is_receive e then S k else k) (sys_bridge (bridge_step e s)).
Proof.
  intros Hd Hk Hr. rewrite bridge_step_bridge.
  destruct e as [url data|i shell|i ok|n t| |ty p sid rev fid| |]; try discriminate Hd; cbn [is_receive].
  - set (b := sys_bridge s) in *. destruct (arrives_dec url data b) as [(c & command & Ha)|Hno].
    + rewrite (receive_arrives _ _ _ _ _ Ha). destruct Ha as (_ & Er & _).
      destruct Hr as (c' & before & after & Er' & Es & Hl & Hm).
      assert (c' = c) as -> by congruence.
      destruct (includes _ _) eqn:Ei.
      * exists c, before, after. split_and!; [done|done|lia|done].
      * eapply remembered_keeps; [apply seen_verdict|].
        rewrite Es in Hm. destruct (remember_id_within id (msg_messageId command) before after k)
          as (before' & after' & E & Hl' & Hm'); [done|by apply Hk|done|].
        exists (remember_in (msg_messageId command) c), before', after'.
        cbn [admitted br_registry remember_in ch_seenMessageIds]. rewrite Es, E in *. done.
    + destruct (receive_other url data b Hno) as (code & b' & -> & [->| ->]);
        destruct Hr as (c & before & after & ? & ? & ? & ?); exists c, before, after;
        split_and!; (done || lia).
  - destruct (sys_hellos s !! i); [|done]. eapply remembered_keeps; [apply seen_hello_answered|done].
  - destruct (sys_dispatches s !! i); [|done]. unfold dispatch_settled.
    destruct ok; [done|]. eapply remembered_keeps; [apply seen_contain|done].
  - eapply remembered_keeps; [apply seen_emit|done].
  - eapply remembered_keeps; [apply seen_flush|done].
  - done.
Qed.

Lemma run_remembers id es : forall k s,
  Forall (fun e => same_document e = true) es ->
  (k + length (List.filter is_receive es) < 2048)%nat ->
  remembered_within id k (sys_bridge s) ->
  remembered_within id (k + length (List.filter is_receive es)) (sys_bridge (bridge_run es s)).
Proof.
  induction es as [|e es IH]; intros k s Hd Hlen Hr; simpl in *; [by rewrite Nat.add_0_r|].
  apply Forall_cons in Hd as [He Hd].
  pose proof (step_remembers id k e s He) as Hs.
  destruct (is_receive e) eqn:Ee; simpl in *.
  - rewrite Nat.add_succ_r. apply (IH (S k)); [done|lia|]. apply Hs; [lia|done].
  - apply (IH k); [done|lia|]. by apply Hs.
Qed.

(** *** The outbound queue *)

Definition held (b : NativeBridge) : list OutboundDraft :=
  List.filter (fun d => negb (is_snapshot d)) (br_queue b).

Definition snapshots (b : NativeBridge) : list OutboundDraft := List.filter is_snapshot (br_queue b).

Definition queue_wf (b : NativeBridge) : Prop :=
  (length (br_queue b) <= MAX_QUEUED_OUTBOUND)%nat /\ (length (snapshots b) <= 1)%nat.

(** Nothing but a snapshot leaves the queue. *)
Definition queue_keeps (b b' : NativeBridge) : Prop :=
  (queue_wf b -> queue_wf b') /\ held b `prefix_of` held b'.

#[local] Instance queue_keeps_preorder : PreOrder queue_keeps.
Proof.
  split; [by split|]. intros a b c [W1 P1] [W2 P2]. split; [by auto|by etransitivity].
Qed.

Lemma queue_same b b' : br_queue b' = br_queue b -> queue_keeps b b'.
Proof. intros E. unfold queue_keeps, queue_wf, held, snapshots. rewrite E. by split. Qed.

Lemma filter_filter_negb {A} (p : A -> bool) l :
  List.filter p (List.filter (fun x => negb (p x)) l) = []
  /\ List.filter (fun x => negb (p x)) (List.filter (fun x => negb (p x)) l)
     = List.filter (fun x => negb (p x)) l.
Proof.
  induction l as [|x l [IH1 IH2]]; [done|]. simpl.
  destruct (p x) eqn:E; simpl; [done|]. rewrite E. simpl. by rewrite IH1, IH2.
Qed.

Lemma filter_length {A} (p : A -> bool) l : (length (List.filter p l) <= length l)%nat.
Proof. induction l as [|x l IH]; simpl; [lia|]. destruct (p x); simpl; lia. Qed.

Lemma remove_first_spec {A} (p : A -> bool) l :
  match remove_first p l with
  | Some l' => length l = S (length l')
      /\ length (List.filter p l) = S (length (List.filter p l'))
      /\ List.filter (fun x => negb (p x)) l' = List.filter (fun x => negb (p x)) l
  | None => List.filter p l = []
  end.
Proof.
  induction l as [|x l IH]; [done|]. simpl. destruct (p x) eqn:E; simpl; [done|].
  destruct (remove_first p l) as [l'|]; simpl; [|done].
  destruct IH as (I1 & I2 & I3). rewrite E. simpl. rewrite I3. split_and!; [lia|done|done].
Qed.

Lemma filter_snoc {A} (p : A -> bool) l x :
  List.filter p (l ++ [x]) = List.filter p l ++ (if p x then [x] else []).
Proof. by rewrite List.filter_app. Qed.

(** The snapshot is the only entry that is replaced or dropped; a message is
    refused only when the queue is full of others. *)
Lemma enqueue_spec d b :
  queue_keeps b (enqueue d b).2
  /\ (queue_wf b -> (enqueue d b).1 = Ok Dropped ->
        (enqueue d b).2 = b \/ is_snapshot d = true /\ held (enqueue d b).2 = held b).
Proof.
  unfold enqueue, get, mbind, M_bind. set (snap := fun e => negb (is_snapshot e)).
  set (q := if is_snapshot d then List.filter snap (br_queue b) else br_queue b).
  assert (Hq : List.filter snap q = held b /\ (length q <= length (br_queue b))%nat
               /\ (is_snapshot d = true -> List.filter is_snapshot q = [])
               /\ (length (List.filter is_snapshot q) <= length (snapshots b))%nat).
  { unfold q, held. fold snap. destruct (filter_filter_negb is_snapshot (br_queue b)) as [F1 F2]. fold snap in F1, F2.
    destruct (is_snapshot d).
    - split_and!; [exact F2|apply filter_length|intros _; exact F1|]. rewrite F1. simpl. lia.
    - split_and!; [done|lia|done|done]. }
  destruct Hq as (Hh & Hlen & Hnone & Hsn).
  assert (Hpush : forall l, List.filter snap l = held b -> (length l < MAX_QUEUED_OUTBOUND)%nat ->
            (length (List.filter is_snapshot l) <= length (snapshots b))%nat ->
            (is_snapshot d = true -> List.filter is_snapshot l = []) ->
            queue_keeps b (set_queue (l ++ [d]) b).2).
  { intros l El Ll Ls Ln. split.
    - intros [W1 W2]. split; simpl; [rewrite length_app; simpl; lia|].
      unfold snapshots in *. simpl. rewrite filter_snoc, length_app.
      destruct (is_snapshot d) eqn:Ed; simpl; [rewrite Ln by done; simpl; lia|lia].
    - unfold held at 2. simpl. fold snap. rewrite filter_snoc, El. by eexists. }
  destruct (Nat.leb_spec MAX_QUEUED_OUTBOUND (length q)) as [Hfull|Hroom];
    [|split; [by apply Hpush|done]].
  pose proof (remove_first_spec is_snapshot q) as Hrm.
  destruct (remove_first is_snapshot q) as [q'|].
  - destruct Hrm as (R1 & R2 & R3). fold snap in R3. split; [|done].
    destruct (is_snapshot d) eqn:Ed; [rewrite Hnone in R2 by done; done|].
    destruct (Nat.lt_ge_cases (length q') MAX_QUEUED_OUTBOUND) as [Hlt|Hge].
    + apply Hpush; [congruence|done|lia|done].
    + split.
      * intros [W1 _]. unfold q in R1. lia.
      * unfold held at 2. simpl. fold snap. rewrite filter_snoc, R3, Hh. by eexists.
  - assert (Hk : queue_keeps b (set_queue q b).2 /\ held (set_queue q b).2 = held b).
    { split; [split|].
      - intros [W1 W2]. split; simpl; [lia|]. unfold snapshots at 1. simpl. rewrite Hrm. simpl. lia.
      - unfold held at 2. simpl. fold snap. by rewrite Hh.
      - unfold held at 1. simpl. fold snap. by rewrite Hh. }
    destruct Hk as [Hk1 Hk2]. split; [exact Hk1|]. intros _ _.
    destruct (is_snapshot d) eqn:Ed; [by right|left]. unfold q. simpl. by destruct b.
Qed.

Lemma queue_enqueue d : respects queue_keeps (enqueue d).
Proof. intros b. apply enqueue_spec. Qed.

Lemma queue_emit draft immediate version forMessageId :
  respects queue_keeps (emit draft immediate version forMessageId).
Proof.
  unfold emit. respect; try (intros ?; by apply queue_same); [apply queue_enqueue|].
  unfold inject. respect; intros ?; by apply queue_same.
Qed.

Lemma queue_contain command immediate :
  respects queue_keeps (containDependencyFailure command immediate).
Proof. unfold containDependencyFailure. respect. apply queue_emit. Qed.

Lemma queue_verdict c command : respects queue_keeps (verdict c command).
Proof.
  assert (Hc : respects queue_keeps (command_verdict c command)).
  { unfold command_verdict. respect; [apply queue_emit|intros ?; by apply queue_same]. }
  unfold verdict. destruct (msg_payload command); try exact Hc. apply respects_ret, _.
Qed.

Lemma queue_receive url data : respects queue_keeps (receive url data).
Proof.
  intros b. destruct (arrives_dec url data b) as [(c & command & Ha)|Hno].
  - rewrite (receive_arrives _ _ _ _ _ Ha). destruct (includes _ _); [by apply queue_same|].
    etransitivity; [|apply queue_verdict]. by apply queue_same.
  - destruct (receive_other url data b Hno) as (code & b' & -> & [->| ->]); [reflexivity|].
    by apply queue_same.
Qed.

(** The bounds hold after a flush too. *)
Definition wf_keeps (b b' : NativeBridge) : Prop := queue_wf b -> queue_wf b'.

#[local] Instance wf_keeps_preorder : PreOrder wf_keeps.
Proof. split; [by intros b Hb|]. intros a b c Hab Hbc Ha. by apply Hbc, Hab. Qed.

Lemma wf_flush : respects wf_keeps flush.
Proof.
  unfold flush. respect.
  - intros ? _. split; simpl; unfold MAX_QUEUED_OUTBOUND; simpl; lia.
  - match goal with |- respects _ (flush_all ?l ?v ?n) => generalize n; induction l as [|d r IH] end;
      intros n; simpl; respect; [|apply IH].
    intros b. exact (proj1 (queue_emit _ _ _ _ b)).
Qed.

Lemma wf_handleHello h shell : respects wf_keeps (handleHello h shell).
Proof.
  unfold handleHello. respect; try (intros ? ?; done); try apply wf_flush;
    intros b; exact (proj1 (queue_emit _ _ _ _ b)).
Qed.

Lemma wf_hello_answered h shell : respects wf_keeps (hello_answered h shell).
Proof.
  unfold hello_answered. respect; [by intros ? ?|apply wf_handleHello|].
  intros b. exact (proj1 (queue_contain _ _ b)).
Qed.

(** *** Every event *)

Definition seen_bounded (b : NativeBridge) : Prop :=
  forall c, br_registry b = Some c -> (length (ch_seenMessageIds c) <= MAX_SEEN_MESSAGE_IDS)%nat.

Definition bridge_wf (b : NativeBridge) : Prop := queue_wf b /\ seen_bounded b.

Lemma seen_keeps_bounded b b' : seen_keeps b b' -> seen_bounded b -> seen_bounded b'.
Proof.
  unfold seen_keeps, seen_bounded. intros E Hb c Er. rewrite Er in E. simpl in E.
  destruct (br_registry b) as [c0|]; [|done]. simpl in E. injection E as ->. by apply Hb.
Qed.

Lemma remember_id_length x l :
  (length l <= MAX_SEEN_MESSAGE_IDS)%nat -> (length (remember_id x l) <= MAX_SEEN_MESSAGE_IDS)%nat.
Proof.
  unfold remember_id, MAX_SEEN_MESSAGE_IDS. intros Hl.
  destruct (Nat.leb_spec 2048 (length l)); rewrite length_app; simpl; [|lia].
  destruct l; simpl in *; lia.
Qed.

Lemma receive_evolves url data b :
  evolves b (receive url data b).2 /\ (seen_bounded b -> seen_bounded (receive url data b).2).
Proof.
  destruct (arrives_dec url data b) as [(c & command & Ha)|Hno].
  - rewrite (receive_arrives _ _ _ _ _ Ha). destruct Ha as (_ & Er & _).
    destruct (includes _ _); [split; [by apply evolves_same|done]|].
    set (b1 := admitted b c command).
      assert (Hb1 : evolves b b1).
    { split; [|exists []; by rewrite app_nil_r]. rewrite Er. by split. }
    split.
    + etransitivity; [exact Hb1|]. destruct (is_hello (msg_payload command)) eqn:Eh.
      { unfold verdict. destruct (msg_payload command); try discriminate Eh. reflexivity. }
      assert (E : verdict c command b1 = command_verdict c command b1).
      { unfold verdict. by destruct (msg_payload command). }
      rewrite E. unfold command_verdict. destruct (ch_handshake c) as [h|] eqn:Ehs; [|reflexivity].
      destruct (msg_protocolVersion command =? hs_protocolVersion h) eqn:Epv; [|reflexivity]. cbn [negb].
      destruct (_ && _); [apply (respects_bind evolves); [apply respects_send|
        intros ?; apply (respects_ret evolves)]|].
      split; [reflexivity|]. exists [Dispatched command]. split; [done|]. constructor; [|done].
      exists (remember_in (msg_messageId command) c). split; [done|]. exists h.
      split; [done|]. split; [lia|]. intros x lo hi Ep. by rewrite Ep in Eh.
    + intros Hb. eapply seen_keeps_bounded; [apply seen_verdict|].
      intros c' [= <-]. apply remember_id_length, Hb, Er.
  - destruct (receive_other url data b Hno) as (code & b' & -> & [->| ->]);
      (split; [by apply evolves_same|done]).
Qed.

(** The events that empty the queue on purpose. *)
Definition empties_queue (e : bridge_event) : bool :=
  match e with EvDescribed _ _ | EvFlush | EvDiscard => true | _ => false end.

Lemma step_evolves e s :
  same_document e = true -> evolves (sys_bridge s) (sys_bridge (bridge_step e s)).
Proof.
  intros He. rewrite bridge_step_bridge. destruct e as [| i shell|i ok| | | | |]; try discriminate He.
  - apply receive_evolves.
  - destruct (sys_hellos s !! i); [apply respects_hello_answered|reflexivity].
  - destruct (sys_dispatches s !! i); [apply respects_dispatch_settled|reflexivity].
  - apply respects_send.
  - apply respects_flush.
  - by apply evolves_same.
Qed.

Lemma step_queue e s :
  empties_queue e = false -> queue_keeps (sys_bridge s) (sys_bridge (bridge_step e s)).
Proof.
  intros He. rewrite bridge_step_bridge. destruct e as [| |i ok| | | | |]; try discriminate He.
  - apply queue_receive.
  - destruct (sys_dispatches s !! i); [|reflexivity]. unfold dispatch_settled.
    destruct ok; [reflexivity|apply queue_contain].
  - by apply queue_same.
  - by apply queue_same.
  - apply queue_emit.
Qed.

Lemma step_wf e s : bridge_wf (sys_bridge s) -> bridge_wf (sys_bridge (bridge_step e s)).
Proof.
  intros [Hq Hs]. split.
  - destruct (empties_queue e) eqn:Ee; [|by apply step_queue].
    rewrite bridge_step_bridge. destruct e as [|i shell| | | | | |]; try discriminate Ee.
    + destruct (sys_hellos s !! i); [by apply wf_hello_answered|done].
    + by apply wf_flush.
    + split; simpl; unfold MAX_QUEUED_OUTBOUND; simpl; lia.
  - rewrite bridge_step_bridge. destruct e as [|i shell|i ok| | | | |]; simpl.
    + by apply receive_evolves.
    + destruct (sys_hellos s !! i); [|done]. eapply seen_keeps_bounded; [apply seen_hello_answered|done].
    + destruct (sys_dispatches s !! i); [|done]. unfold dispatch_settled.
      destruct ok; [done|]. eapply seen_keeps_bounded; [apply seen_contain|done].
    + intros c [= <-]. simpl. lia.
    + done.
    + eapply seen_keeps_bounded; [apply seen_emit|done].
    + eapply seen_keeps_bounded; [apply seen_flush|done].
    + done.
Qed.

(** what reaches a page.  Whatever happens, the queue holds at most 256
    messages and one snapshot.  Within a document the nonce never changes and a
    handshake, once made, is never overwritten; every script that runs carries a
    message that passes the schema, under the nonce of the loaded document, and
    before the handshake only a handshake reply or an error; every command that
    is handed on speaks the negotiated version.  Except when the queue is flushed
    or discarded, no queued message but a snapshot ever leaves it, and the order
    of the others is kept. *)
Theorem bridge_outbound e s :
  bridge_wf (sys_bridge s) ->
  let b := sys_bridge s in
  let b' := sys_bridge (bridge_step e s) in
  bridge_wf b'
  /\ (if same_document e then evolves b b' else br_acts b' = br_acts b)
  /\ (empties_queue e = false -> held b `prefix_of` held b').
Proof.
  intros Hwf. cbv zeta. split_and!.
  - by apply step_wf.
  - destruct (same_document e) eqn:Ed; [by apply step_evolves|].
    rewrite bridge_step_bridge. by destruct e.
  - intros He. by apply step_queue.
Qed.

(** C33: a message is admitted once.  Once a command has been taken up in a
    document, whatever became of it (a command refused because the handshake was
    missing included), any later message under its id is refused as a duplicate
    as long as the document stays and fewer than 2048 messages came in between:
    nothing is handed on, sent or queued for it. *)
Theorem bridge_admits_once s url data c command es url' data' c' retry :
  bridge_wf (sys_bridge s) ->
  arrives (sys_bridge s) url data c command ->
  msg_messageId command ∉ ch_seenMessageIds c ->
  Forall (fun e => same_document e = true) es ->
  (length (List.filter is_receive es) < 2048)%nat ->
  let s' := bridge_run es (bridge_step (EvReceive url data) s) in
  arrives (sys_bridge s') url' data' c' retry ->
  msg_messageId retry = msg_messageId command ->
  receive url' data' (sys_bridge s')
  = (Ok (Settled (Rejected DuplicateMessage)), clock_read (sys_bridge s')).
Proof.
  intros [_ Hb] Ha Hn Hes Hlen s' Ha' Eid.
  assert (H0' : remembered_within (msg_messageId command) 0
                  (sys_bridge (bridge_step (EvReceive url data) s))).
  { rewrite bridge_step_bridge, (receive_arrives _ _ _ _ _ Ha).
    destruct (includes _ _) eqn:Ei; [apply includes_elem in Ei; done|].
    eapply remembered_keeps; [apply seen_verdict|]. destruct Ha as (_ & Er & _).
    eexists _, (if (MAX_SEEN_MESSAGE_IDS <=? length (ch_seenMessageIds c))%nat
                then tail (ch_seenMessageIds c) else ch_seenMessageIds c), [].
    split; [done|]. split; [done|]. split; [simpl; lia|]. apply remember_id_length, Hb, Er. }
  pose proof (run_remembers _ es 0 _ Hes ltac:(simpl; lia) H0')
    as (c2 & before & after & Er2 & Es2 & _). fold s' in Er2.
  rewrite (receive_arrives _ _ _ _ _ Ha'). destruct Ha' as (_ & Er' & _).
  assert (c2 = c') as -> by congruence.
  assert (Hin : includes (msg_messageId retry) (ch_seenMessageIds c') = true).
  { apply includes_elem. rewrite Eid, Es2. set_solver. }
  by rewrite Hin.
Qed.
End system.

(** ** Witnesses *)

(** A page on the product origin, and a decoder that knows two messages. *)
#[local] Instance sample_urls : UrlParser := {|
  parse_url s := Some {| url_protocol := "https:"; url_username := ""; url_password := "";
                         url_hostname := s; url_origin := s |};
|}.

Definition sample_message (id : string) (payload : WebPayload) : WebToNativeMessage :=
  {| msg_protocolVersion := 5; msg_messageId := id; msg_channelNonce := "nonce";
     msg_sessionId := None; msg_revision := None; msg_sentAtMs := 1000; msg_payload := payload |}.

Definition start_message : WebToNativeMessage := sample_message "m1" SessionStart.
Definition hello_message : WebToNativeMessage := sample_message "m2" (WebHello "build" 3 5).

#[local] Instance sample_decoder : WireDecoder := {|
  utf8_length s := str_length s;
  json_parse s := Some (JStr s);
  message_schema j :=
    match j with
    | JStr "start" => Some (FromWeb start_message, j)
    | JStr "hello" => Some (FromWeb hello_message, j)
    | _ => None
    end;
|}.

#[local] Instance sample_schemas : SchemaLibrary := {| is_uuid _ := true |}.

#[local] Instance sample_bridge_deps : BridgeDeps := {|
  webOrigin := "openmapx.com";
  bridge_now _ := 2000;
  nextMessageId n := ("native-" ++ show_Z (Z.of_nat n))%string;
  inject_throws _ := false;
|}.

Definition sample_shell : ShellDescription :=
  {| sh_shellVersion := "1.0"; sh_shellBuild := "100"; sh_platform := "ios";
     sh_capabilities := {| cap_groundNavigation := true; cap_transitNavigation := true;
                           cap_transitActions := None; cap_backgroundLocation := true;
                           cap_localNotifications := true; cap_speech := true;
                           cap_nativeIntake := Some true; cap_carDestinations := None |};
     sh_permission := "background"; sh_locationDriver := "expo";
     sh_activeSession := Some ("s1", 3, Ground) |}.

Definition sample_channel : BridgeChannel :=
  {| ch_nonce := "nonce"; ch_createdAtMs := 0; ch_handshake := None; ch_seenMessageIds := [] |}.

Definition sample_system : BridgeSystem :=
  {| sys_bridge := {| br_registry := Some sample_channel; br_queue := []; br_readings := 0; br_acts := [] |};
     sys_hellos := []; sys_dispatches := [] |}.

Lemma sample_system_wf : bridge_wf (sys_bridge sample_system).
Proof.
  split; [split; vm_compute; lia|]. intros c [= <-]. vm_compute. lia.
Qed.

Definition page : option string := Some "openmapx.com".

(** The handshake of the sample page. *)
Definition handshaking : list bridge_event :=
  [EvReceive page (Some "hello"); EvDescribed 0 (Ok sample_shell)].

Lemma bridge_outbound_witness :
  let s := bridge_run [EvReceive page (Some "hello")] sample_system in
  let b := sys_bridge s in
  let b' := sys_bridge (bridge_step (EvDescribed 0 (Ok sample_shell)) s) in
  (exists m, br_acts b' = br_acts b ++ [Injected m] /\ nw_type m = NativeHello)
  /\ (bridge_wf b'
      /\ (if same_document (EvDescribed 0 (Ok sample_shell)) then evolves b b'
          else br_acts b' = br_acts b)
      /\ (empties_queue (EvDescribed 0 (Ok sample_shell)) = false -> held b `prefix_of` held b')).
Proof.
  split.
  - eexists. split; [vm_compute; reflexivity|reflexivity].
  - apply (bridge_outbound (EvDescribed 0 (Ok sample_shell))
             (bridge_run [EvReceive page (Some "hello")] sample_system)).
    apply step_wf, sample_system_wf.
Defined.

(** A start that came before the handshake is refused, and so is its retry after
    the handshake. *)
Lemma bridge_admits_once_witness :
  let s' := bridge_run handshaking (bridge_step (EvReceive page (Some "start")) sample_system) in
  (receive page (Some "start") (sys_bridge sample_system)).1
    = Ok (Settled (Rejected HandshakeRequired))
  /\ is_Some (handshake (br_registry (sys_bridge s')))
  /\ receive page (Some "start") (sys_bridge s')
     = (Ok (Settled (Rejected DuplicateMessage)), clock_read (sys_bridge s')).
Proof.
  split; [vm_compute; reflexivity|]. split; [vm_compute; eauto|].
  eapply (bridge_admits_once sample_system page (Some "start") sample_channel start_message handshaking
           page (Some "start") _ start_message).
  - exact sample_system_wf.
  - split_and!; vm_compute; reflexivity.
  - apply not_elem_of_nil.
  - repeat constructor.
  - vm_compute. lia.
  - split; [vm_compute; reflexivity|]. split; [vm_compute; reflexivity|vm_compute; reflexivity].
  - reflexivity.
Defined.
