(* ===== verification/Recovery.v ===== *)
(** * Coming back to a running journey

    apps/mobile/src/lifecycle: the policy of lifecyclePolicy.ts and the recovery
    controller of NavigationRecoveryController.ts, wired to the repository and the
    Expo driver as createNavigationRecoveryController.ts wires them, with the
    cadence of transitSession.ts and groundSession.ts a resumed stream gets. *)

From S2P Require Import Prelude Protocol Session Snapshot Itinerary Samples Database Repository RepositoryFacts Register Location TransitSession.

(** ** The policy *)

Inductive AppVisibility := VisActive | VisInactive | VisBackground.

#[export] Instance AppVisibility_eq_dec : EqDecision AppVisibility.
Proof. solve_decision. Defined.

Inductive LifecycleAction :=
  | KeepTracking
  | PauseForegroundOnly
  | OfferResumeForegroundOnly
  | Expire
  | OfferResume
  | StopOrphanDriver
  | KeepAwake (active : bool).

Definition isLive (s : MobileNavigationSession) : bool :=
  match status s with Preparing | Active => true | _ => false end.

Definition is_visible (v : AppVisibility) : bool := bool_decide (v = VisActive).

Definition decideLifecycle (session : option MobileNavigationSession) (visibility : AppVisibility)
    (driverRunning : bool) (nowMs : Z) : list LifecycleAction :=
  match session with
  | Some s =>
      if negb (isLive s)
      then (if driverRunning then [StopOrphanDriver] else []) ++ [KeepAwake false]
      else if expiresAtMs s <=? nowMs then [Expire; KeepAwake false]
      else if bool_decide (permissionMode s = ModeForegroundOnly) then
        if negb (is_visible visibility) then [PauseForegroundOnly; KeepAwake false]
        else if driverRunning then [KeepTracking; KeepAwake true]
        else [OfferResumeForegroundOnly; KeepAwake false]
      else if driverRunning then [KeepTracking; KeepAwake (is_visible visibility)]
      else [OfferResume; KeepAwake false]
  | None => (if driverRunning then [StopOrphanDriver] else []) ++ [KeepAwake false]
  end.

(** ** The cadence of a resumed stream *)

Definition locationProfileForMode (mode : GroundMode) : LocationProfileKind :=
  match mode with
  | Driving => ProfileDriving
  | Motorcycle => ProfileMotorcycle
  | Cycling => ProfileCycling
  | Walking => ProfileWalking
  end.

Definition profileForSession `{DateParser} (s : MobileNavigationSession) (nowMs : Z) : LocationProfileKind :=
  match payload s with
  | GroundSession p => locationProfileForMode (gp_mode (g_startPackage p))
  | TransitSession p => transitProfileForTime p nowMs
  end.

(** ** The controller *)

Inductive RecoveryEvent :=
  | RecoveredStarted | RecoveredEnded | RecoveredQuarantined | PermissionLost | ResumeRequired.

(** The device calls of the controller. *)
Inductive device_call :=
  | CallStart (k : LocationProfileKind) | CallStop | CallStopAudio | CallClearAlerts
  | CallClearSurface | CallReconcileSurface.

(** The [n]-th reading of the clock, the application state or the permission,
    and whether a device call rejects. *)
Class RecoveryEnv := {
  rec_now : nat -> Z;
  rec_isAppActive : nat -> bool;
  rec_permission : nat -> outcome LocationPermissionState;
  rec_rejects : nat -> device_call -> bool;
}.

Record RecoveryWorld := {
  rw_db : db;
  rw_driver : driver_state;
  rw_readings : nat;
  rw_calls : list device_call;
}.

(** A start that rejects has already stopped the stream it was to replace. *)
Definition expo_start_rejected (p : LocationProfile) (d : driver_state) : driver_state :=
  if hasStartedLocationUpdates d && sameProfile p d then d
  else if hasStartedLocationUpdates d then stopLocationUpdates d else d.

(** The driver after a device call. *)
Definition driver_after (c : device_call) (rejects : bool) (d : driver_state) : driver_state :=
  match c with
  | CallStart k => if rejects then expo_start_rejected (profileFor k) d else expo_start (profileFor k) d
  | CallStop => if rejects then d else expo_stop d
  | _ => d
  end.

Section recovery.
Context `{ReceiptValidators} `{DateParser} `{RecoveryEnv}.

Definition rec_reading : M RecoveryWorld nat := fun w =>
  (Ok (rw_readings w), {| rw_db := rw_db w; rw_driver := rw_driver w;
                          rw_readings := S (rw_readings w); rw_calls := rw_calls w |}).

Definition call (c : device_call) : M RecoveryWorld unit := fun w =>
  let rejects := rec_rejects (rw_readings w) c in
  (if rejects then Throw "device call rejected" else Ok tt,
   {| rw_db := rw_db w; rw_driver := driver_after c rejects (rw_driver w);
      rw_readings := S (rw_readings w); rw_calls := rw_calls w ++ [c] |}).

(** [call(...).catch(() => undefined)] *)
Definition settled (c : device_call) : M RecoveryWorld unit := try_catch (call c) (mret tt).

Definition store {A} (m : M db A) : M RecoveryWorld A := fun w =>
  let (o, d) := m (rw_db w) in
  (o, {| rw_db := d; rw_driver := rw_driver w; rw_readings := rw_readings w; rw_calls := rw_calls w |}).

Definition rec_clock : M RecoveryWorld Z := n ← rec_reading; mret (rec_now n).

(** A promise that has settled. *)
Definition promised {A} (o : outcome A) : M RecoveryWorld A := fun w => (o, w).

Definition permission : M RecoveryWorld LocationPermissionState :=
  n ← rec_reading; promised (rec_permission n).

(** [Promise.allSettled([...])]: each is attempted whatever the others do. *)
Definition cleanupDeviceWork : M RecoveryWorld unit :=
  _ ← settled CallStop;
  _ ← settled CallStopAudio;
  _ ← settled CallClearAlerts;
  settled CallClearSurface.

Definition permissionAllows (s : MobileNavigationSession) (p : LocationPermissionState) : bool :=
  match permissionMode s with
  | ModeBackground => bool_decide (p = PermBackground)
  | ModeForegroundOnly => bool_decide (p = PermForeground) || bool_decide (p = PermBackground)
  end.

Definition ended_as (i : ActiveSessionInspection) : RecoveryEvent :=
  match i with InspectQuarantined => RecoveredQuarantined | _ => RecoveredEnded end.

Definition reconcileNow (visibility : AppVisibility) : M RecoveryWorld RecoveryEvent :=
  now ← rec_clock;
  inspected ← store (inspectActive now);
  match inspected with
  | InspectActive session =>
      if negb (bool_decide (status session = Active)) || (expiresAtMs session <=? now) then
        _ ← store (terminate (sessionId session) FinalStopped now);
        _ ← cleanupDeviceWork;
        mret RecoveredEnded
      else
        granted ← permission;
        if negb (permissionAllows session granted)
        then _ ← cleanupDeviceWork; mret PermissionLost
        else
          w ← get;
          let tracking := hasStartedLocationUpdates (rw_driver w) in
          if bool_decide (permissionMode session = ModeForegroundOnly)
             && negb (is_visible visibility) then
            _ ← (if tracking then call CallStop else mret tt);
            _ ← settled CallClearSurface;
            mret ResumeRequired
          else
            _ ← (if tracking then settled CallReconcileSurface else settled CallClearSurface);
            mret (if tracking then RecoveredStarted else ResumeRequired)
  | _ => _ ← cleanupDeviceWork; mret (ended_as inspected)
  end.

Definition resume : M RecoveryWorld RecoveryEvent :=
  now ← rec_clock;
  inspected ← store (inspectActive now);
  match inspected with
  | InspectActive session =>
      if negb (bool_decide (status session = Active))
      then _ ← cleanupDeviceWork; mret RecoveredEnded
      else
        n ← rec_reading;
        if negb (rec_isAppActive n) then mret ResumeRequired
        else
          granted ← permission;
          if negb (permissionAllows session granted)
          then _ ← cleanupDeviceWork; mret PermissionLost
          else
            now ← rec_clock;
            _ ← call (CallStart (profileForSession session now));
            _ ← settled CallReconcileSurface;
            mret RecoveredStarted
  | _ => _ ← cleanupDeviceWork; mret (ended_as inspected)
  end.

Definition end_session : M RecoveryWorld RecoveryEvent :=
  now ← rec_clock;
  inspected ← store (inspectActive now);
  _ ← match inspected with
      | InspectActive session =>
          now ← rec_clock;
          _ ← store (terminate (sessionId session) FinalStopped now);
          mret tt
      | _ => mret tt
      end;
  _ ← cleanupDeviceWork;
  mret RecoveredEnded.
End recovery.

(** ** What recovery guarantees *)

(** The devices were only released: nothing was started, and the driver holds
    what it held or nothing. *)
Definition releases (w w' : RecoveryWorld) : Prop :=
  (exists extra, rw_calls w' = rw_calls w ++ extra /\ forall k, CallStart k ∉ extra)
  /\ (streams (rw_driver w') = streams (rw_driver w) \/ streams (rw_driver w') = []).

#[local] Instance releases_preorder : PreOrder releases.
Proof.
  split.
  - intros w. split; [|by left]. exists []. rewrite app_nil_r. split; [done|]. intros k. apply not_elem_of_nil.
  - intros a b c [(x & Ex & Hx) Sx] [(y & Ey & Hy) Sy]. split.
    + exists (x ++ y). rewrite Ey, Ex, app_assoc. split; [done|]. intros k. rewrite elem_of_app.
      intros [?|?]; [by eapply Hx|by eapply Hy].
    + destruct Sy as [-> |?]; [done|by right].
Qed.

Section recovery_facts.
Context `{ReceiptValidators} `{DateParser} `{RecoveryEnv}.

Lemma expo_stop_streams d : streams (expo_stop d) = [].
Proof.
  unfold expo_stop, hasStartedLocationUpdates. destruct (streams d) eqn:E; simpl; by rewrite ?E.
Qed.

Lemma call_releases c : (forall k, c <> CallStart k) -> respects releases (call c).
Proof.
  intros Hc w. split.
  - exists [c]. split; [done|]. intros k Hk. apply list_elem_of_singleton in Hk. by apply (Hc k).
  - simpl. destruct c; simpl; try (by left).
    + by destruct (Hc k).
    + destruct (rec_rejects _ _); [by left|right]. apply expo_stop_streams.
Qed.

Lemma settled_releases c : (forall k, c <> CallStart k) -> respects releases (settled c).
Proof. intros Hc. unfold settled. respect. by apply call_releases. Qed.

Lemma cleanup_releases : respects releases cleanupDeviceWork.
Proof. unfold cleanupDeviceWork. respect; apply settled_releases; discriminate. Qed.

Lemma store_releases {A} (m : M db A) : respects releases (store m).
Proof.
  intros w. unfold store. destruct (m (rw_db w)) as [o d].
  split; [|by left]. exists []. rewrite app_nil_r. split; [done|]. intros k. apply not_elem_of_nil.
Qed.

Lemma reading_releases : respects releases rec_reading.
Proof.
  intros w. split; [|by left]. exists []. rewrite app_nil_r. split; [done|].
  intros k. apply not_elem_of_nil.
Qed.

Lemma promised_releases {A} (o : outcome A) : respects releases (promised o).
Proof. intros w. reflexivity. Qed.

Lemma reconcile_releases visibility : respects releases (reconcileNow visibility).
Proof.
  unfold reconcileNow, rec_clock, permission. respect;
    first [ apply reading_releases | apply promised_releases | apply store_releases
          | apply cleanup_releases | apply settled_releases; discriminate
          | apply call_releases; discriminate ].
Qed.

(** The clean-up never rejects, makes its four calls, and leaves the store. *)
Definition cleanup_calls : list device_call :=
  [CallStop; CallStopAudio; CallClearAlerts; CallClearSurface].

Definition settled_world (c : device_call) (w : RecoveryWorld) : RecoveryWorld :=
  {| rw_db := rw_db w;
     rw_driver := driver_after c (rec_rejects (rw_readings w) c) (rw_driver w);
     rw_readings := S (rw_readings w); rw_calls := rw_calls w ++ [c] |}.

Lemma settled_run c w : settled c w = (Ok tt, settled_world c w).
Proof. unfold settled, try_catch, call, settled_world. by destruct (rec_rejects _ _). Qed.

Lemma cleanup_run w :
  exists w', cleanupDeviceWork w = (Ok tt, w') /\ rw_db w' = rw_db w
    /\ rw_calls w' = rw_calls w ++ cleanup_calls
    /\ rw_driver w' = driver_after CallStop (rec_rejects (rw_readings w) CallStop) (rw_driver w).
Proof.
  unfold cleanupDeviceWork.
  do 3 (erewrite bind_ok; [|apply settled_run]). rewrite settled_run.
  eexists. split; [done|]. simpl. split_and!; [done| |done]. by rewrite <- !app_assoc.
Qed.

Lemma stop_releases (Hstop : forall n, rec_rejects n CallStop = false) n d :
  streams (driver_after CallStop (rec_rejects n CallStop) d) = [].
Proof. rewrite Hstop. apply expo_stop_streams. Qed.

(** Reading the session, as the register sees it. *)
Definition inspection_of (d : db) : ActiveSessionInspection :=
  match authority_of d with
  | NoAuthority => InspectNone
  | Authority s => InspectActive s
  | Unreadable _ => InspectQuarantined
  end.

Lemma inspect_run nowMs d :
  exists d', inspectActive nowMs d = (Ok (inspection_of d), d')
    /\ match authority_of d with Unreadable _ => active_navigation d' = None | _ => d' = d end.
Proof.
  unfold inspectActive, inspection_of, authority_of, mbind, M_bind, SELECT_ACTIVE, gets. cbn [fst snd].
  destruct (active_navigation d) as [r|]; [|by eexists].
  destruct (parseMobileSession _) as [s|code]; [by eexists|]. rewrite quarantine_run.
  eexists. split; [done|]. unfold quarantined. by destruct (non_empty _).
Qed.

Lemma authority_row s d :
  db_wf d -> authority_of d = Authority s ->
  exists r, active_navigation d = Some r /\ row_session_id r = sessionId s /\ 0 <= row_revision r.
Proof.
  intros Hd Ha. pose proof (wf_active d Hd) as Hw. unfold authority_of in Ha.
  destruct (active_navigation d) as [r|]; [|done]. exists r. split; [done|].
  destruct Hw as [Hrev Hrow]. split; [|done].
  destruct (parseMobileSession (row_session_json r)) as [s'|code] eqn:Ep; [|done].
  injection Ha as ->. apply parse_sound in Ep as [Et _]. rewrite Et in Hrow. simpl in Hrow.
  by rewrite Hrow.
Qed.

Lemma terminate_active s nowMs d :
  db_wf d -> authority_of d = Authority s ->
  exists r d', terminate (sessionId s) FinalStopped nowMs d = (Ok r, d')
    /\ erased (sessionId s) d'.
Proof.
  intros Hd Ha. destruct (authority_row s d Hd Ha) as (r & Er & Es & Hrev).
  pose proof (terminate_run (sessionId s) FinalStopped nowMs d r Er Es Hrev) as E. cbv zeta in E.
  eexists _, _. split; [exact E|]. apply without_session_erased.
Qed.

(** The grants a session may be tracked under: a background session needs the
    background grant, a foreground-only one any of the two. *)
Definition permitted (s : MobileNavigationSession) (p : LocationPermissionState) : Prop :=
  match permissionMode s with
  | ModeBackground => p = PermBackground
  | ModeForegroundOnly => p = PermForeground \/ p = PermBackground
  end.

Lemma permissionAllows_spec s p : permissionAllows s p = true <-> permitted s p.
Proof.
  unfold permissionAllows, permitted. destruct (permissionMode s).
  - apply bool_decide_eq_true.
  - by rewrite orb_true_iff, !bool_decide_eq_true.
Qed.

(** A session that can go on at [now]. *)
Definition running (w : RecoveryWorld) (now : Z) (s : MobileNavigationSession) : Prop :=
  authority_of (rw_db w) = Authority s /\ status s = Active /\ now < expiresAtMs s.

(** What a reconciliation answers, under which grant, and what it leaves in the
    store: the permission is the second thing it reads. *)
Definition reconciled (visibility : AppVisibility) (w w' : RecoveryWorld) (o : outcome RecoveryEvent) : Prop :=
  let now := rec_now (rw_readings w) in
  let grant := rec_permission (S (rw_readings w)) in
  let tracking := hasStartedLocationUpdates (rw_driver w) in
  match o with
  | Ok RecoveredStarted =>
      exists s p, running w now s /\ grant = Ok p /\ permitted s p
        /\ KeepTracking ∈ decideLifecycle (Some s) visibility tracking now
        /\ rw_db w' = rw_db w /\ rw_driver w' = rw_driver w
  | Ok PermissionLost =>
      exists s p, running w now s /\ grant = Ok p /\ ~ permitted s p /\ rw_db w' = rw_db w
  | Ok ResumeRequired =>
      exists s p, running w now s /\ grant = Ok p /\ permitted s p
        /\ (tracking = false \/ permissionMode s = ModeForegroundOnly /\ visibility <> VisActive)
        /\ rw_db w' = rw_db w
  | Ok RecoveredEnded =>
      active_navigation (rw_db w') = None
      /\ (authority_of (rw_db w) = NoAuthority
          \/ exists s, authority_of (rw_db w) = Authority s /\ ~ running w now s)
  | Ok RecoveredQuarantined =>
      active_navigation (rw_db w') = None
      /\ exists sid, authority_of (rw_db w) = Unreadable sid
  | Throw _ => rw_db w' = rw_db w /\ exists s, running w now s
  end
  /\ (o <> Ok RecoveredStarted -> (forall n, rec_rejects n CallStop = false) ->
      (forall e, o <> Throw e) -> streams (rw_driver w') = []).

(** The world after the clock and the store were read. *)
Definition inspected_world (w : RecoveryWorld) (d : db) : RecoveryWorld :=
  {| rw_db := d; rw_driver := rw_driver w; rw_readings := S (rw_readings w); rw_calls := rw_calls w |}.

Lemma reconcile_unfold visibility w d' :
  inspectActive (rec_now (rw_readings w)) (rw_db w) = (Ok (inspection_of (rw_db w)), d') ->
  reconcileNow visibility w =
  (match inspection_of (rw_db w) with
   | InspectActive session =>
      if negb (bool_decide (status session = Active)) || (expiresAtMs session <=? rec_now (rw_readings w)) then
        _ ← store (terminate (sessionId session) FinalStopped (rec_now (rw_readings w)));
        _ ← cleanupDeviceWork;
        mret RecoveredEnded
      else
        granted ← permission;
        if negb (permissionAllows session granted)
        then _ ← cleanupDeviceWork; mret PermissionLost
        else
          w ← get;
          let tracking := hasStartedLocationUpdates (rw_driver w) in
          if bool_decide (permissionMode session = ModeForegroundOnly)
             && negb (is_visible visibility) then
            _ ← (if tracking then call CallStop else mret tt);
            _ ← settled CallClearSurface;
            mret ResumeRequired
          else
            _ ← (if tracking then settled CallReconcileSurface else settled CallClearSurface);
            mret (if tracking then RecoveredStarted else ResumeRequired)
   | _ => _ ← cleanupDeviceWork; mret (ended_as (inspection_of (rw_db w)))
   end) (inspected_world w d').
Proof.
  intros E. unfold reconcileNow, rec_clock, rec_reading, store, mbind, M_bind, mret, M_ret.
  cbn [rw_db]. rewrite E. reflexivity.
Qed.

(** A clean-up after which an event is answered. *)
Lemma cleanup_then (e : RecoveryEvent) w :
  exists w', (_ ← cleanupDeviceWork; mret e) w = (Ok e, w') /\ rw_db w' = rw_db w
    /\ ((forall n, rec_rejects n CallStop = false) -> streams (rw_driver w') = []).
Proof.
  destruct (cleanup_run w) as (w' & E & Ed & _ & Es). rewrite (bind_ok _ _ _ _ _ E).
  exists w'. split; [done|]. split; [done|]. intros Hs. rewrite Es. by apply stop_releases.
Qed.

Lemma not_tracking_streams d : hasStartedLocationUpdates d = false -> streams d = [].
Proof. unfold hasStartedLocationUpdates. by destruct (streams d). Qed.

Lemma reconcile_active visibility w s :
  status s = Active -> (expiresAtMs s <=? rec_now (rw_readings w)) = false ->
  authority_of (rw_db w) = Authority s ->
  let (o, w') := (granted ← permission;
        if negb (permissionAllows s granted)
        then _ ← cleanupDeviceWork; mret PermissionLost
        else
          w ← get;
          let tracking := hasStartedLocationUpdates (rw_driver w) in
          if bool_decide (permissionMode s = ModeForegroundOnly)
             && negb (is_visible visibility) then
            _ ← (if tracking then call CallStop else mret tt);
            _ ← settled CallClearSurface;
            mret ResumeRequired
          else
            _ ← (if tracking then settled CallReconcileSurface else settled CallClearSurface);
            mret (if tracking then RecoveredStarted else ResumeRequired)) (inspected_world w (rw_db w)) in
  reconciled visibility w w' o.
Proof.
  intros Hst Hexp Ha.
  assert (running w (rec_now (rw_readings w)) s) as Hrun by (apply Z.leb_gt in Hexp; by split_and!).
  unfold permission, rec_reading, promised.
  unfold mbind at 1, M_bind at 1. unfold mbind at 1, M_bind at 1. cbn [rw_readings inspected_world].
  set (w1 := {| rw_db := _ |}). unfold reconciled.
  destruct (rec_permission (S (rw_readings w))) as [granted|e] eqn:Eg;
    [|split; [by split; eauto|intros _ _ Hne; by destruct (Hne e)]].
  destruct (permissionAllows s granted) eqn:Eallow; cbn [negb]; cycle 1.
  { destruct (cleanup_then PermissionLost w1) as (w' & -> & Ed & Es). split; [|intros _ Hs _; by apply Es].
    exists s, granted. rewrite <- permissionAllows_spec, Eallow, Ed. by split_and!. }
  apply permissionAllows_spec in Eallow.
  unfold get, mbind at 1, M_bind at 1. change (rw_driver w1) with (rw_driver w).
  destruct (bool_decide (permissionMode s = ModeForegroundOnly) && negb (is_visible visibility)) eqn:Efg.
  - assert (permissionMode s = ModeForegroundOnly /\ visibility <> VisActive) as Hfg.
    { apply andb_prop in Efg as [Em Ev]. apply bool_decide_eq_true in Em.
      by apply negb_true_iff, bool_decide_eq_false in Ev. }
    destruct (hasStartedLocationUpdates (rw_driver w)) eqn:Et.
    + unfold call, mbind, M_bind, mret, M_ret. cbn [rw_readings w1].
      destruct (rec_rejects (S (S (rw_readings w))) CallStop) eqn:Er.
      * split; [by split; eauto|]. intros _ Hs. by rewrite Hs in Er.
      * rewrite settled_run. split; [exists s, granted; by split_and!; auto|].
        intros _ _ _. cbn. apply expo_stop_streams.
    + unfold mbind, M_bind, mret, M_ret. rewrite settled_run.
      split; [exists s, granted; by split_and!; auto|].
      intros _ _ _. cbn. by apply not_tracking_streams.
  - destruct (hasStartedLocationUpdates (rw_driver w)) eqn:Et; unfold mbind, M_bind, mret, M_ret;
      rewrite settled_run; cbn [fst snd].
    + split; [|done]. exists s, granted. split_and!; try done. unfold decideLifecycle, isLive.
      rewrite Hst, Hexp. cbn [negb]. destruct (bool_decide (permissionMode s = ModeForegroundOnly)).
      * cbn [andb] in Efg. rewrite Efg. set_solver.
      * set_solver.
    + split; [exists s, granted; by split_and!; auto|]. intros _ _ _. cbn. by apply not_tracking_streams.
Qed.

(** C34: coming back never resumes tracking by itself.  A reconciliation starts
    no stream, whatever it finds: the driver keeps its stream or loses it.  It
    answers "started" only for a session that is active, not expired and tracked
    under a grant its mode is allowed (the background grant for a background
    session, the foreground or the background one for a foreground-only session),
    when the system was tracking already and the policy says to keep tracking;
    the store and the driver are then left alone.  A running session under any
    other grant answers that the permission is lost; under its grant, one that is
    not tracked, or is foreground-only and not visible, that a resume is required;
    both leave the store as it was.  An ended or unreadable session is gone from
    the store afterwards.  Whenever the answer is not "started" and the driver
    accepts to stop, nothing is tracking. *)
Theorem recovery_never_resumes visibility w :
  db_wf (rw_db w) ->
  let (o, w') := reconcileNow visibility w in
  releases w w' /\ reconciled visibility w w' o.
Proof.
  intros Hd. pose proof (reconcile_releases visibility w) as Hr.
  destruct (inspect_run (rec_now (rw_readings w)) (rw_db w)) as (d' & E & Ed).
  pose proof (reconcile_unfold visibility w d' E) as Eq.
  destruct (reconcileNow visibility w) as [o w'] eqn:Er. split; [exact Hr|].
  unfold inspection_of in Eq. destruct (authority_of (rw_db w)) as [|sid|s] eqn:Ea.
  - destruct (cleanup_then RecoveredEnded (inspected_world w d')) as (w2 & E2 & Ed2 & Es2).
    cbn [ended_as] in Eq. rewrite E2 in Eq. simplify_eq. split; [|intros _ Hs _; by apply Es2].
    split; [|by left].
    cbn. rewrite Ed2. simpl. unfold authority_of in Ea. destruct (active_navigation (rw_db w)) as [r|]; [|done].
    by destruct (parseMobileSession _).
  - destruct (cleanup_then RecoveredQuarantined (inspected_world w d')) as (w2 & E2 & Ed2 & Es2).
    cbn [ended_as] in Eq. rewrite E2 in Eq. simplify_eq. split; [|intros _ Hs _; by apply Es2].
    split; [|by eexists]. cbn. by rewrite Ed2.
  - subst d'. destruct (negb (bool_decide (status s = Active)) || _) eqn:Eend.
    + unfold store, mbind at 1, M_bind at 1 in Eq. cbn [rw_db inspected_world] in Eq.
      destruct (terminate_active s (rec_now (rw_readings w)) (rw_db w) Hd Ea) as (ack & d2 & Et & He).
      rewrite Et in Eq. match type of Eq with _ = ?m ?x =>
        destruct (cleanup_then RecoveredEnded x) as (w2 & E2 & Ed2 & Es2) end.
      rewrite E2 in Eq. simplify_eq. split; [|intros _ Hs _; by apply Es2]. 
      split; [cbn; rewrite Ed2; apply He|]. right. exists s. split; [done|].
      intros (_ & Hst & Hexp). rewrite bool_decide_true in Eend by done.
      apply Z.leb_le in Eend. lia.
    + apply orb_false_iff in Eend as [Est Eexp].
      apply negb_false_iff, bool_decide_eq_true in Est.
      pose proof (reconcile_active visibility w s Est Eexp Ea) as Hrec.
      cbv beta iota zeta in Eq, Hrec. rewrite <- Eq in Hrec. exact Hrec.
Qed.

(** The user's resume restarts the one stream of an active session, under the
    cadence of its mode, when the app is visible and the permission allows it.
    The expiry is not looked at: a session past its lifetime is restarted too,
    and ended by its next batch. *)
Theorem resume_restarts_the_stream w s granted :
  driver_wf (rw_driver w) -> authority_of (rw_db w) = Authority s -> status s = Active ->
  let n := rw_readings w in
  rec_isAppActive (S n) = true ->
  rec_permission (S (S n)) = Ok granted -> permissionAllows s granted = true ->
  let k := profileForSession s (rec_now (S (S (S n)))) in
  rec_rejects (S (S (S (S n)))) (CallStart k) = false ->
  exists w', resume w = (Ok RecoveredStarted, w')
    /\ streams (rw_driver w') = [profileFor k] /\ rw_db w' = rw_db w.
Proof.
  intros Hdw Ha Hst n Hact Hperm Hallow k Hstart. subst n k.
  destruct (inspect_run (rec_now (rw_readings w)) (rw_db w)) as (d' & E & Ed).
  rewrite Ha in Ed. subst d'.
  unfold inspection_of in E. rewrite Ha in E.
  unfold resume, rec_clock, permission, promised, rec_reading, store, mbind, M_bind, mret, M_ret.
  cbn [rw_db rw_readings rw_driver rw_calls]. rewrite E.
  rewrite (bool_decide_eq_true_2 _ Hst). cbn [negb rw_db rw_readings rw_driver rw_calls].
  rewrite Hact. cbn [negb rw_db rw_readings rw_driver rw_calls].
  rewrite Hperm, Hallow. cbn [negb rw_db rw_readings rw_driver rw_calls]. unfold call.
  cbn [rw_db rw_readings rw_driver rw_calls]. rewrite Hstart, settled_run.
  eexists. split; [done|]. cbn. split; [|done].
  by apply expo_start_runs.
Qed.

(** ending from recovery releases everything.  It never rejects: whatever
    the audio, the notifications or the surface do, the location stream is asked
    to stop and the other three releases are attempted, in order; the session, if
    there is a readable one, is erased from every table first, and no session is
    left in any case. *)
Theorem recovery_end_releases_everything w :
  db_wf (rw_db w) ->
  exists w', end_session w = (Ok RecoveredEnded, w')
    /\ rw_calls w' = rw_calls w ++ cleanup_calls
    /\ active_navigation (rw_db w') = None
    /\ (forall s, authority_of (rw_db w) = Authority s -> erased (sessionId s) (rw_db w'))
    /\ ((forall n, rec_rejects n CallStop = false) -> streams (rw_driver w') = []).
Proof.
  intros Hd. destruct (inspect_run (rec_now (rw_readings w)) (rw_db w)) as (d' & E & Ed).
  assert (Hmid : exists n d2,
    end_session w = (_ ← cleanupDeviceWork; mret RecoveredEnded)
      {| rw_db := d2; rw_driver := rw_driver w; rw_readings := n; rw_calls := rw_calls w |}
    /\ active_navigation d2 = None
    /\ forall s, authority_of (rw_db w) = Authority s -> erased (sessionId s) d2).
  { unfold end_session, rec_clock, rec_reading, store.
    destruct (authority_of (rw_db w)) as [|sid|s] eqn:Ea; unfold inspection_of in E; rewrite Ea in E;
      unfold mbind, M_bind, mret, M_ret; cbn [rw_db rw_readings rw_driver rw_calls]; rewrite E.
    - subst d'. eexists _, _. split; [done|]. split; [|done].
      unfold authority_of in Ea. destruct (active_navigation (rw_db w)) as [r|]; [|done].
      by destruct (parseMobileSession _).
    - eexists _, _. split; [done|]. by split.
    - subst d'. destruct (terminate_active s (rec_now (S (rw_readings w))) (rw_db w) Hd Ea)
        as (ack & d2 & Et & He). cbn [rw_db rw_readings rw_driver rw_calls]. rewrite Et.
      eexists _, _. split; [done|]. split; [apply He|]. by intros s' [= <-]. }
  destruct Hmid as (n & d2 & -> & Hnone & Her).
  set (w1 := {| rw_db := d2; rw_driver := rw_driver w; rw_readings := n; rw_calls := rw_calls w |}).
  destruct (cleanup_run w1) as (w' & Ew & Ed2 & Ec & Es). rewrite (bind_ok _ _ _ _ _ Ew).
  exists w'. split_and!; [done|done|by rewrite Ed2|by intros; rewrite Ed2; auto|].
  intros Hs. rewrite Es. by apply stop_releases.
Qed.
End recovery_facts.

(** *** Witnesses *)

#[local] Instance no_dates : DateParser := {| date_getTime _ := NaN |}.

(** Audio and notifications that always fail, on a phone with the background
    grant. *)
#[local] Instance failing_devices : RecoveryEnv := {|
  rec_now n := 1000000 + Z.of_nat n;
  rec_isAppActive _ := true;
  rec_permission _ := Ok PermBackground;
  rec_rejects _ c := match c with CallStopAudio | CallClearAlerts => true | _ => false end;
|}.

Definition tracking_driver : driver_state :=
  expo_start (profileFor ProfileDriving) {| streams := []; activeProfile := None; calls := [] |}.

Definition tracked_world : RecoveryWorld :=
  {| rw_db := (writeActive (sample_ground 4 Active) empty_db).2; rw_driver := tracking_driver;
     rw_readings := 0; rw_calls := [] |}.

Lemma tracked_world_wf : db_wf (rw_db tracked_world).
Proof. apply UPSERT_ACTIVE_wf, empty_db_wf. Qed.

Lemma recovery_never_resumes_witness :
  (reconcileNow VisActive tracked_world).1 = Ok RecoveredStarted
  /\ let (o, w') := reconcileNow VisActive tracked_world in
     releases tracked_world w' /\ reconciled VisActive tracked_world w' o.
Proof.
  split; [vm_compute; reflexivity|].
  apply (recovery_never_resumes VisActive tracked_world), tracked_world_wf.
Defined.

Lemma recovery_end_releases_everything_witness :
  exists w', end_session tracked_world = (Ok RecoveredEnded, w')
    /\ rw_calls w' = rw_calls tracked_world ++ cleanup_calls
    /\ active_navigation (rw_db w') = None
    /\ streams (rw_driver w') = [].
Proof.
  destruct (recovery_end_releases_everything tracked_world) as (w' & E & Ec & Ea & _ & Es).
  - apply tracked_world_wf.
  - exists w'. split_and!; [exact E|exact Ec|exact Ea|]. apply Es. reflexivity.
Defined.

(** Two days later: the session has expired, and is resumed. *)
Definition late_devices : RecoveryEnv :=
  {| rec_now _ := 172800000 + 1000000; rec_isAppActive _ := true;
     rec_permission _ := Ok PermBackground; rec_rejects _ _ := false |}.

Definition stopped_world : RecoveryWorld :=
  {| rw_db := (writeActive (sample_ground 4 Active) empty_db).2;
     rw_driver := {| streams := []; activeProfile := None; calls := [] |};
     rw_readings := 0; rw_calls := [] |}.

Lemma resume_restarts_the_stream_witness :
  isMobileSessionExpired (sample_ground 4 Active) (@rec_now late_devices 0) = true
  /\ exists w', @resume _ _ late_devices stopped_world = (Ok RecoveredStarted, w')
       /\ streams (rw_driver w') = [profileFor ProfileDriving] /\ rw_db w' = rw_db stopped_world.
Proof.
  split; [vm_compute; reflexivity|].
  apply (@resume_restarts_the_stream _ _ late_devices stopped_world (sample_ground 4 Active) PermBackground).
  - split; [simpl; lia|done].
  - vm_compute. reflexivity.
  - reflexivity.
  - reflexivity.
  - reflexivity.
  - reflexivity.
  - reflexivity.
Defined.
