(* ===== verification/Publish.v ===== *)
(** * What the shell sends the page, and how often

    apps/mobile/src/navigation/snapshots: the throttle (SnapshotPublisher.ts) and the
    publish port over the repository (createPublishPort.ts).  The surfaces and the car
    the port also tells are other components; neither touches what is kept here, and
    their failures are swallowed. *)

From S2P Require Import Prelude Protocol Session Snapshot Samples Database Repository RepositoryFacts.

Definition PROGRESS_INTERVAL_MS : Z := 1000.

Inductive OfferOutcome := Sent | Throttled | Dropped.

(** [None] is [Number.NEGATIVE_INFINITY]. *)
Record SnapshotPublisher := {
  sp_lastProgressAtMs : option Z;
  sp_pending : option Snapshot;
}.

Definition fresh_publisher : SnapshotPublisher := {| sp_lastProgressAtMs := None; sp_pending := None |}.

(** [snapshot.type === "full"] *)
Definition is_full (s : Snapshot) : bool :=
  match s with SnapGround (GroundFull _) | SnapTransitFull _ => true | _ => false end.

(** What reaches the page. *)
Inductive PageMessage :=
  | SnapshotMessage (s : Snapshot)
  | EventMessage (eventId : string) (payload : json).

(** The [n]-th reading of the clock, and whether a document can receive a message. *)
Class PublishPortDeps := {
  publish_now : nat -> Z;
  can_receive : nat -> bool;
}.

Record PublishWorld := {
  pw_db : db;
  pw_publisher : SnapshotPublisher;
  pw_sent : list (Z * PageMessage);
  pw_readings : nat;
}.

(** ** The throttle *)

Section publisher.
Context `{PublishPortDeps}.

Definition publish_reading : M PublishWorld nat := fun w =>
  (Ok (pw_readings w), {| pw_db := pw_db w; pw_publisher := pw_publisher w; pw_sent := pw_sent w;
                          pw_readings := S (pw_readings w) |}).

Definition publish_clock : M PublishWorld Z := n ← publish_reading; mret (publish_now n).

Definition set_publisher (p : SnapshotPublisher) : M PublishWorld unit := modify (fun w =>
  {| pw_db := pw_db w; pw_publisher := p; pw_sent := pw_sent w; pw_readings := pw_readings w |}).

(** [send(type, payload)]; the trace says when. *)
Definition send_message (atMs : Z) (m : PageMessage) : M PublishWorld bool :=
  n ← publish_reading;
  if can_receive n
  then _ ← modify (fun w => {| pw_db := pw_db w; pw_publisher := pw_publisher w;
                               pw_sent := pw_sent w ++ [(atMs, m)]; pw_readings := pw_readings w |});
       mret true
  else mret false.

(** [now - this.lastProgressAtMs < PROGRESS_INTERVAL_MS] *)
Definition within_interval (nowMs : Z) (p : SnapshotPublisher) : bool :=
  match sp_lastProgressAtMs p with
  | Some last => nowMs - last <? PROGRESS_INTERVAL_MS
  | None => false
  end.

Definition offer (snapshot : Snapshot) (immediate : bool) : M PublishWorld OfferOutcome :=
  nowMs ← publish_clock;
  publisher ← gets pw_publisher;
  if is_full snapshot || immediate then
    delivered ← send_message nowMs (SnapshotMessage snapshot);
    if (delivered : bool)
    then _ ← set_publisher {| sp_lastProgressAtMs := Some nowMs; sp_pending := None |}; mret Sent
    else mret Dropped
  else if within_interval nowMs publisher then
    _ ← set_publisher {| sp_lastProgressAtMs := sp_lastProgressAtMs publisher; sp_pending := Some snapshot |};
    mret Throttled
  else
    delivered ← send_message nowMs (SnapshotMessage snapshot);
    if (delivered : bool)
    then _ ← set_publisher {| sp_lastProgressAtMs := Some nowMs; sp_pending := None |}; mret Sent
    else _ ← set_publisher {| sp_lastProgressAtMs := sp_lastProgressAtMs publisher; sp_pending := None |};
         mret Dropped.

Definition flushPending : M PublishWorld bool :=
  publisher ← gets pw_publisher;
  match sp_pending publisher with
  | None => mret false
  | Some snapshot =>
      nowMs ← publish_clock;
      if within_interval nowMs publisher then mret false
      else
        _ ← set_publisher {| sp_lastProgressAtMs := sp_lastProgressAtMs publisher; sp_pending := None |};
        delivered ← send_message nowMs (SnapshotMessage snapshot);
        if (delivered : bool)
        then _ ← set_publisher {| sp_lastProgressAtMs := Some nowMs; sp_pending := None |}; mret true
        else mret false
  end.

Definition discard : M PublishWorld unit :=
  publisher ← gets pw_publisher;
  set_publisher {| sp_lastProgressAtMs := sp_lastProgressAtMs publisher; sp_pending := None |}.

Definition reset_publisher : M PublishWorld unit := set_publisher fresh_publisher.

Definition hasPending (p : SnapshotPublisher) : bool :=
  match sp_pending p with Some _ => true | None => false end.

(** ** The port *)

Context `{ReceiptValidators} `{TransitProgressEngine}.

Definition in_database {A} (m : M db A) : M PublishWorld A := fun w =>
  let (o, d) := m (pw_db w) in
  (o, {| pw_db := d; pw_publisher := pw_publisher w; pw_sent := pw_sent w; pw_readings := pw_readings w |}).

(** A full snapshot for anything that changed what the page renders against. *)
Definition published_snapshot (s : MobileNavigationSession) (immediate : bool) : Snapshot :=
  match payload s with
  | GroundSession p =>
      SnapGround (if immediate then GroundFull (groundFullSnapshot s p)
                  else GroundProgress (groundProgressSnapshot s p))
  | TransitSession p =>
      if immediate then SnapTransitFull (transitFullSnapshot s p)
      else SnapTransitProgress (transitProgressSnapshot s p)
  end.

(** [snapshot(immediate)] *)
Definition publish_snapshot (immediate : bool) : M PublishWorld unit :=
  nowMs ← publish_clock;
  session ← in_database (loadActive nowMs);
  match session with
  | None => mret tt
  | Some s => _ ← offer (published_snapshot s immediate) immediate; mret tt
  end.

(** [event(eventId)] *)
Definition publish_event (eventId : string) : M PublishWorld unit :=
  nowMs ← publish_clock;
  session ← in_database (loadActive nowMs);
  match session with
  | None => mret tt
  | Some s =>
      pending ← in_database (listPendingEvents (sessionId s));
      match List.find (fun entry => String.eqb (out_eventId (pending_event entry)) eventId) pending with
      | Some event => _ ← send_message nowMs (EventMessage eventId (out_payload (pending_event event))); mret tt
      | None => mret tt
      end
  end.
End publisher.

(** ** Facts *)

(** What the port is asked over a life, among commits that change the store at will. *)
Inductive publish_op :=
  | PubSnapshot (immediate : bool)
  | PubEvent (eventId : string)
  | PubFlush
  | PubDiscard
  | PubCommit (d : db).

Section facts.
Context `{PublishPortDeps} `{ReceiptValidators} `{TransitProgressEngine}.

Definition run_publish_op (op : publish_op) : M PublishWorld unit :=
  match op with
  | PubSnapshot immediate => publish_snapshot immediate
  | PubEvent eventId => publish_event eventId
  | PubFlush => _ ← flushPending; mret tt
  | PubDiscard => discard
  | PubCommit d => modify (fun w => {| pw_db := d; pw_publisher := pw_publisher w;
                                       pw_sent := pw_sent w; pw_readings := pw_readings w |})
  end.

Definition publish_life (ops : list publish_op) (w : PublishWorld) : PublishWorld :=
  foldl (fun w op => (run_publish_op op w).2) w ops.

Definition is_progress (m : PageMessage) : bool :=
  match m with SnapshotMessage s => negb (is_full s) | EventMessage _ _ => false end.

Definition carries_snapshot (m : PageMessage) : bool :=
  match m with SnapshotMessage _ => true | EventMessage _ _ => false end.

(** Every progress snapshot comes a second after the snapshot before it. *)
Inductive spaced_out : list (Z * PageMessage) -> Prop :=
  | spaced_nil : spaced_out []
  | spaced_snoc sent t m : spaced_out sent ->
      (is_progress m = true ->
       Forall (fun s => carries_snapshot s.2 = true -> s.1 + PROGRESS_INTERVAL_MS <= t) sent) ->
      spaced_out (sent ++ [(t, m)]).

Hypothesis time_passes : forall n, publish_now n <= publish_now (S n).

Lemma later_readings m n : (m <= n)%nat -> publish_now m <= publish_now n.
Proof. induction 1 as [|n Hmn IH]; [done|]. pose proof (time_passes n). lia. Qed.

(** Between two operations: the throttle remembers the last snapshot sent, and what
    waits is a progress snapshot. *)
Record publishing (w : PublishWorld) : Prop := {
  pub_spaced : spaced_out (pw_sent w);
  pub_last : Forall (fun s => carries_snapshot s.2 = true ->
    exists last, sp_lastProgressAtMs (pw_publisher w) = Some last /\ s.1 <= last) (pw_sent w);
  pub_past : forall last, sp_lastProgressAtMs (pw_publisher w) = Some last ->
    last <= publish_now (pw_readings w);
  pub_waiting : forall s, sp_pending (pw_publisher w) = Some s -> is_full s = false;
}.

Lemma send_message_run t m w : 
  let w' := {| pw_db := pw_db w; pw_publisher := pw_publisher w;
               pw_sent := if can_receive (pw_readings w) then pw_sent w ++ [(t, m)] else pw_sent w;
               pw_readings := S (pw_readings w) |} in
  send_message t m w = (Ok (can_receive (pw_readings w)), w').
Proof.
  unfold send_message, publish_reading, mbind, M_bind, modify, mret, M_ret. cbn.
  by destruct (can_receive (pw_readings w)).
Qed.

(** One more reading of the clock changes nothing. *)
Lemma publishing_later w k : (pw_readings w <= k)%nat -> publishing w ->
  publishing {| pw_db := pw_db w; pw_publisher := pw_publisher w; pw_sent := pw_sent w; pw_readings := k |}.
Proof.
  intros Hk [H1' H2' H3' H4']. split; cbn; [done|done| |done].
  intros last Hl. specialize (H3' last Hl). pose proof (later_readings _ _ Hk). lia.
Qed.

(** A sent message of any kind keeps the bookkeeping, if it is a second late when it is
    a progress snapshot and remembered when it is a snapshot. *)
Lemma publishing_sent w t m p k :
  publishing w -> publish_now (pw_readings w) = t -> (pw_readings w <= k)%nat ->
  (is_progress m = true -> within_interval t (pw_publisher w) = false) ->
  p = (if carries_snapshot m then {| sp_lastProgressAtMs := Some t; sp_pending := None |} else pw_publisher w) ->
  publishing {| pw_db := pw_db w; pw_publisher := p; pw_sent := pw_sent w ++ [(t, m)]; pw_readings := k |}.
Proof.
  intros [H1' H2' H3' H4'] <- Hk Hw ->. pose proof (later_readings _ _ Hk) as Hlate. split; cbn.
  - apply spaced_snoc; [done|]. intros Hm%Hw. unfold within_interval in Hm.
    eapply Forall_impl; [exact H2'|]. intros s Hs (last & Hl & Hle)%Hs. rewrite Hl in Hm.
    apply Z.ltb_ge in Hm. lia.
  - apply Forall_app. split.
    + destruct (carries_snapshot m) eqn:Em; [|exact H2'].
      eapply Forall_impl; [exact H2'|]. intros s Hs (last & Hl & Hle)%Hs. eexists. split; [reflexivity|].
      pose proof (H3' last Hl). lia.
    + repeat constructor. cbn. intros ->. eexists. split; [reflexivity|lia].
  - destruct (carries_snapshot m); cbn; [intros last [= <-]; lia|]. intros last Hl%H3'. lia.
  - destruct (carries_snapshot m); [done|exact H4'].
Qed.

(** What is waiting, and whether it has been, is immaterial to the rest. *)
Lemma publishing_waits w o k : publishing w -> (pw_readings w <= k)%nat ->
  (forall s, o = Some s -> is_full s = false) ->
  publishing {| pw_db := pw_db w;
                pw_publisher := {| sp_lastProgressAtMs := sp_lastProgressAtMs (pw_publisher w); sp_pending := o |};
                pw_sent := pw_sent w; pw_readings := k |}.
Proof.
  intros Hw Hk Ho. destruct (publishing_later w k Hk Hw) as [H1' H2' H3' H4']. split; cbn in *; auto.
Qed.

Lemma offer_keeps s immediate w : publishing w -> (immediate = true -> is_full s = true) ->
  publishing (offer s immediate w).2.
Proof.
  intros Hw Hi. unfold offer, publish_clock, publish_reading, mbind, M_bind, mret, M_ret, gets.
  cbn [fst snd pw_publisher pw_readings].
  set (w1 := {| pw_db := pw_db w; pw_publisher := pw_publisher w; pw_sent := pw_sent w;
                pw_readings := S (pw_readings w) |}).
  set (t := publish_now (pw_readings w)).
  assert (forall s, is_full s = true \/ within_interval t (pw_publisher w) = false ->
    publishing {| pw_db := pw_db w; pw_publisher := {| sp_lastProgressAtMs := Some t; sp_pending := None |};
                  pw_sent := pw_sent w ++ [(t, SnapshotMessage s)]; pw_readings := S (S (pw_readings w)) |}) as Hsent.
  { intros s' Hs'. eapply publishing_sent; [exact Hw|reflexivity|lia| |reflexivity]. cbn.
    destruct Hs' as [->| ->]; done. }
  destruct (is_full s || immediate) eqn:Ef.
  - rewrite send_message_run. cbn [pw_readings w1]. destruct (can_receive _); cbn.
    + apply Hsent. left. apply orb_true_iff in Ef as [Ef|Ef]; auto.
    + apply (publishing_later w); [lia|exact Hw].
  - apply orb_false_iff in Ef as [Ef _].
    destruct (within_interval t (pw_publisher w)) eqn:Ew; cbn.
    + apply (publishing_waits w (Some s)); [exact Hw|lia|]. by intros ? [= <-].
    + rewrite send_message_run. cbn [pw_readings w1]. destruct (can_receive _); cbn.
      * apply Hsent. by right.
      * apply (publishing_waits w None); [exact Hw|lia|done].
Qed.

Lemma flush_keeps w : publishing w -> publishing (flushPending w).2.
Proof.
  intros Hw. unfold flushPending, publish_clock, publish_reading, set_publisher, modify, mbind, M_bind, mret, M_ret, gets.
  destruct (sp_pending (pw_publisher w)) as [s|] eqn:Es; [|exact Hw]. cbn [fst snd pw_publisher pw_readings].
  destruct (within_interval _ (pw_publisher w)) eqn:Ew; cbn; [apply (publishing_later w); [lia|exact Hw]|].
  rewrite send_message_run. cbn. destruct (can_receive _); cbn.
  - eapply publishing_sent; [exact Hw|reflexivity|lia|done|]. done.
  - apply (publishing_waits w None); [exact Hw|lia|done].
Qed.

(** Reading the session leaves all but the store as it was. *)
Lemma publishing_database w d k : (pw_readings w <= k)%nat -> publishing w ->
  publishing {| pw_db := d; pw_publisher := pw_publisher w; pw_sent := pw_sent w; pw_readings := k |}.
Proof. intros Hk Hw. destruct (publishing_later w k Hk Hw) as [H1' H2' H3' H4']. by split. Qed.

Lemma run_publish_keeps op w : publishing w -> publishing (run_publish_op op w).2.
Proof.
  intros Hw. destruct op as [immediate|eventId| | |d]; cbn [run_publish_op].
  - unfold publish_snapshot, publish_clock, publish_reading, in_database, mbind, M_bind, mret, M_ret.
    cbn [pw_db pw_publisher pw_sent pw_readings].
    destruct (loadActive _ _) as [[[s|]|e] d]; cbn; [|by apply publishing_database; [lia|]..].
    assert (publishing (offer (published_snapshot s immediate) immediate
      {| pw_db := d; pw_publisher := pw_publisher w; pw_sent := pw_sent w; pw_readings := S (pw_readings w) |}).2) as Ho.
    { apply offer_keeps; [by apply publishing_database; [lia|]|]. intros ->. unfold published_snapshot.
      by destruct (payload s). }
    by destruct (offer _ _ _) as [[o|e] w'].
  - unfold publish_event, publish_clock, publish_reading, in_database, mbind, M_bind, mret, M_ret.
    cbn [pw_db pw_publisher pw_sent pw_readings].
    destruct (loadActive _ _) as [[[s|]|e] d]; cbn; [|by apply publishing_database; [lia|]..].
    destruct (listPendingEvents _ d) as [[entries|e] d']; cbn; [|by apply publishing_database; [lia|]].
    destruct (List.find _ entries) as [event|]; [|by apply publishing_database; [lia|]].
    rewrite send_message_run. cbn. destruct (can_receive _); cbn; [|by apply publishing_database; [lia|]].
    apply (publishing_database {| pw_db := pw_db w; pw_publisher := pw_publisher w;
      pw_sent := pw_sent w ++ [(publish_now (pw_readings w), EventMessage eventId (out_payload (pending_event event)))];
      pw_readings := S (S (pw_readings w)) |} d' (S (S (pw_readings w)))); [cbn; lia|].
    eapply publishing_sent; [exact Hw|reflexivity|lia|done|done].
  - pose proof (flush_keeps w Hw) as Hf. unfold mbind, M_bind, mret, M_ret.
    by destruct (flushPending w) as [[b|e] w'].
  - exact (publishing_waits w None (pw_readings w) Hw (le_n _) ltac:(done)).
  - by apply publishing_database.
Qed.

Lemma publish_life_keeps ops w : publishing w -> publishing (publish_life ops w).
Proof.
  revert w. induction ops as [|op ops IH]; intros w Hw; [exact Hw|]. cbn. apply IH. by apply run_publish_keeps.
Qed.

(** However often the shell publishes, commits and flushes, the page is sent a progress
    snapshot at the earliest a second after the snapshot before it, and only full ones
    come sooner. *)
Theorem ordinary_progress_is_throttled ops w :
  pw_sent w = [] -> pw_publisher w = fresh_publisher -> spaced_out (pw_sent (publish_life ops w)).
Proof.
  intros Hs Hp. apply publish_life_keeps. split; rewrite ?Hs, ?Hp; [constructor|constructor|done..].
Qed.
End facts.
