(* ===== verification/PageModel.v ===== *)
(** * The page's read model of a native session

    apps/web/src/lib/mobile/nativeSnapshotReducer.ts: the envelope of a snapshot, the
    fold of one snapshot into the model and the projection the interface reads;
    packages/core/src/stores/navigationStore.ts: what the store does with a projection;
    and the message handler of MobileRuntimeProvider.tsx that joins them.  Values are
    decoded JSON, as they come over the bridge. *)

From S2P Require Import Prelude Text Doubles Protocol Cues Session Snapshot Itinerary.

Inductive EnvelopeType := FullEnvelope | ProgressEnvelope.

#[export] Instance EnvelopeType_eq_dec : EqDecision EnvelopeType.
Proof. solve_decision. Defined.

Record SnapshotEnvelope := {
  env_type : EnvelopeType;
  env_sessionId : string;
  env_revision : number;
  env_fingerprint : string;
  env_kind : Kind;
  env_data : list (string * json);
}.

Record NativeReadModel := {
  rm_sessionId : string;
  rm_revision : number;
  rm_fingerprint : string;
  rm_kind : Kind;
  rm_snapshot : list (string * json);
  rm_pendingEventIds : list string;
}.

Inductive Refusal := NeedFullSnapshot | StaleSnapshot.

#[export] Instance Refusal_eq_dec : EqDecision Refusal.
Proof. solve_decision. Defined.

(** Fields a progress snapshot is permitted to move. *)
Definition HOT_FIELDS : list string :=
  ["revision"; "status"; "progress"; "weakGps"; "offRoute"; "coasting"; "currentSpeedLimit";
   "connectivity"; "reroute"; "currentLegIndex"; "currentWalkStepIndex"; "transitProgress"; "phase";
   "confidence"; "liveStatus"].

(** A text that is not empty. *)
Definition filled_text (value : option json) : option string :=
  match value with Some (JStr (String c s)) => Some (String c s) | _ => None end.

Definition finite_number (value : option json) : option number :=
  match value with Some (JNum x) => if num_is_finite x then Some x else None | _ => None end.

Definition envelopeOf (snapshot : json) : option SnapshotEnvelope :=
  match snapshot with
  | JObj raw =>
      type ← (if is_text "full" (field "type" raw) then Some FullEnvelope
              else if is_text "progress" (field "type" raw) then Some ProgressEnvelope else None);
      sid ← filled_text (field "sessionId" raw);
      revision ← finite_number (field "revision" raw);
      fingerprint ← filled_text (nullish (field "routeFingerprint" raw) (field "itineraryFingerprint" raw));
      Some {| env_type := type; env_sessionId := sid; env_revision := revision;
              env_fingerprint := fingerprint;
              env_kind := if is_text "transit" (field "kind" raw) then Transit else Ground;
              env_data := raw |}
  | _ => None
  end.

(** An object that is no array: what a rider's progress must be to count. *)
Definition is_plain_object (value : option json) : bool :=
  match value with Some (JObj _) => true | _ => false end.

(** One field of a progress snapshot, folded into the model's snapshot. *)
Definition fold_field (kind : Kind) (data merged : list (string * json)) (key : string) : list (string * json) :=
  if String.eqb key "transitProgress"
     && (negb (bool_decide (kind = Transit)) || negb (is_plain_object (field key data)))
  then merged
  else match field key data with Some value => set_key key value merged | None => merged end.

(** The model and whether it changed, or the reason of a refusal. *)
Definition applyNativeSnapshot (current : option NativeReadModel) (incoming : SnapshotEnvelope)
    : (NativeReadModel * bool) + Refusal :=
  match env_type incoming with
  | FullEnvelope =>
      let same_session := match current with
                          | Some m => String.eqb (rm_sessionId m) (env_sessionId incoming) | None => false end in
      let newer := match current with
                   | Some m => bool_decide (rm_kind m = Transit) && bool_decide (env_kind incoming = Transit)
                               && same_session && num_lt (env_revision incoming) (rm_revision m)
                   | None => false end in
      if newer then inr StaleSnapshot
      else inl ({| rm_sessionId := env_sessionId incoming; rm_revision := env_revision incoming;
                   rm_fingerprint := env_fingerprint incoming; rm_kind := env_kind incoming;
                   rm_snapshot := env_data incoming;
                   rm_pendingEventIds := match current with
                                         | Some m => if same_session then rm_pendingEventIds m else []
                                         | None => [] end |},
                match current with
                | Some m => negb (num_eq (rm_revision m) (env_revision incoming)) || negb same_session
                | None => true end)
  | ProgressEnvelope =>
      match current with
      | None => inr NeedFullSnapshot
      | Some m =>
          if negb (String.eqb (env_sessionId incoming) (rm_sessionId m)) then inr NeedFullSnapshot
          else if negb (String.eqb (env_fingerprint incoming) (rm_fingerprint m)) then inr NeedFullSnapshot
          else if num_le (env_revision incoming) (rm_revision m) then inr StaleSnapshot
          else if negb (num_eq (env_revision incoming) (num_add (rm_revision m) (num_of_Z 1)))
          then inr NeedFullSnapshot
          else inl ({| rm_sessionId := rm_sessionId m; rm_revision := env_revision incoming;
                       rm_fingerprint := rm_fingerprint m; rm_kind := rm_kind m;
                       rm_snapshot := foldl (fold_field (rm_kind m) (env_data incoming)) (rm_snapshot m) HOT_FIELDS;
                       rm_pendingEventIds := rm_pendingEventIds m |}, true)
      end
  end.

Definition rememberEvent (m : NativeReadModel) (eventId : string) : NativeReadModel :=
  if includes eventId (rm_pendingEventIds m) then m
  else {| rm_sessionId := rm_sessionId m; rm_revision := rm_revision m; rm_fingerprint := rm_fingerprint m;
          rm_kind := rm_kind m; rm_snapshot := rm_snapshot m;
          rm_pendingEventIds := rm_pendingEventIds m ++ [eventId] |}.

Definition forgetEvents (m : NativeReadModel) (eventIds : list string) : NativeReadModel :=
  {| rm_sessionId := rm_sessionId m; rm_revision := rm_revision m; rm_fingerprint := rm_fingerprint m;
     rm_kind := rm_kind m; rm_snapshot := rm_snapshot m;
     rm_pendingEventIds := List.filter (fun id => negb (includes id eventIds)) (rm_pendingEventIds m) |}.

(** ** The projection the interface reads *)

Inductive NavStatus := Idle | Navigating | NavArrived.

#[export] Instance NavStatus_eq_dec : EqDecision NavStatus.
Proof. solve_decision. Defined.

(** The declared fields by name; an undefined one is absent. *)
Record NativeNavigationProjection := {
  np_sessionId : string;
  np_revision : number;
  np_baseRevision : option number;
  np_fingerprint : string;
  np_kind : Kind;
  np_status : NavStatus;
  np_fields : list (string * json);
}.

Definition nativeStatusToNavStatus (status : option json) : NavStatus :=
  if is_text "arrived" status then NavArrived
  else if is_text "stopped" status || is_text "expired" status || is_text "error" status then Idle
  else Navigating.

(** A text of a fixed few, or nothing. *)
Definition one_of (names : list string) (value : option json) : option json :=
  match value with
  | Some (JStr s) => if includes s names then value else None
  | _ => None
  end.

Definition permissionModeOf : option json -> option json := one_of ["denied"; "foreground"; "background"].

Definition alertAvailabilityOf : option json -> option json := one_of ["scheduled"; "unavailable"; "disabled"].

Definition confidenceOf (reported coasting : option json) : option json :=
  match one_of ["live"; "coasting"; "stale"] reported with
  | Some value => Some value
  | None => match coasting with
            | Some (JBool b) => Some (JStr (if b then "coasting" else "live"))
            | _ => None
            end
  end.

(** [assign(key, value)] *)
Definition assign (key : string) (value : option json) (fs : list (string * json)) : list (string * json) :=
  match value with Some v => set_key key v fs | None => fs end.

(** The fields that are taken over under their own name. *)
Definition PICKED : list string :=
  ["mode"; "route"; "routeSelectionIntent"; "progress"; "offRoute"; "weakGps"; "coasting";
   "currentSpeedLimit"; "itinerary"; "transitReplanOptions"; "transitProgress"; "connectivity"].

Definition liveDataUnavailable (liveStatus : option json) : option json :=
  if truthy liveStatus
  then let refresh := opt_field "refresh" liveStatus in
       Some (JBool (is_text "broken" refresh || is_text "stale" refresh))
  else None.

(** [[route, ...alternatives]]: the followed route and the ones still offered. *)
Definition routes_of (route alternatives : option json) : option json :=
  if truthy route
  then r ← route;
       match alternatives with
       | Some (JArr l) => Some (JArr (r :: l))
       | _ => Some (JArr [r])
       end
  else None.

Definition projectionOf (m : NativeReadModel) (type : EnvelopeType) : NativeNavigationProjection :=
  let raw := rm_snapshot m in
  let pick key := field key raw in
  let picked := foldl (fun fs key => assign key (pick key) fs) [] PICKED in
  {| np_sessionId := rm_sessionId m;
     np_revision := rm_revision m;
     np_baseRevision := match type with
                        | ProgressEnvelope => Some (num_sub (rm_revision m) (num_of_Z 1))
                        | FullEnvelope => None end;
     np_fingerprint := rm_fingerprint m;
     np_kind := rm_kind m;
     np_status := nativeStatusToNavStatus (pick "status");
     np_fields :=
       assign "routes" (routes_of (pick "route") (pick "alternatives"))
         (assign "confidence" (confidenceOf (pick "confidence") (pick "coasting"))
         (assign "alertAvailability" (alertAvailabilityOf (pick "alightAlertAvailability"))
         (assign "permissionMode" (permissionModeOf (pick "permissionMode"))
         (assign "liveDataUnavailable" (liveDataUnavailable (pick "liveStatus"))
         (assign "transitCaptures" (pick "captures")
         (assign "routeProvider" (nullish (pick "routeProvider") None) picked)))))) |}.

(** ** The store *)

Inductive NativeApplyOutcome := Applied | Duplicate | StaleUpdate | NeedsFullSnapshot | RejectedUpdate.

#[export] Instance NativeApplyOutcome_eq_dec : EqDecision NativeApplyOutcome.
Proof. solve_decision. Defined.

(** The state of the navigation store: its native identity, and the rest by name. *)
Record NavigationState := {
  ns_nativeAuthority : bool;
  ns_status : NavStatus;
  ns_kind : Kind;
  ns_nativeSessionId : option string;
  ns_nativeRevision : option number;
  ns_nativeRouteFingerprint : option string;
  ns_nativeEventIds : list string;
  ns_fields : list (string * json);
}.

Definition DEFAULT_ROUTE_OPTIONS : json :=
  JObj [("avoidHighways", JBool false); ("avoidTolls", JBool false); ("avoidFerries", JBool false);
        ("avoidClosures", JBool false)].

(** [INITIAL], besides the status and the kind; [transitStopAreas] is undefined in it. *)
Definition INITIAL : list (string * json) :=
  [("mode", JStr "driving"); ("route", JNull); ("routes", JArr []); ("routeSelectionIntent", JStr "automatic");
   ("routeOptions", DEFAULT_ROUTE_OPTIONS); ("routeProvider", JNull); ("roadConditionImpact", JNull);
   ("activeRouteIndex", JNum (num_of_Z 0)); ("destinationWaypoints", JArr []); ("progress", JNull);
   ("offRoute", JBool false); ("weakGps", JBool false); ("coasting", JBool false);
   ("rerouteFailedNonce", JNum (num_of_Z 0)); ("fasterRoute", JNull); ("fasterRouteSuppressed", JBool false);
   ("cameraMode", JStr "follow"); ("currentSpeedLimit", JNull); ("liveSpeedLimits", JNull);
   ("routeCountries", JNull); ("itinerary", JNull); ("transitRequestId", JNull); ("transitProgress", JNull);
   ("transitTickState", JNull); ("transitCaptures", JArr []); ("transitRerouteNeeded", JBool false);
   ("transitReplanOptions", JNull); ("connectivity", JStr "online"); ("rerouteUnavailable", JBool false);
   ("liveDataUnavailable", JBool false); ("transitRefreshUnavailable", JBool false);
   ("rerouteRetryNonce", JNum (num_of_Z 0)); ("navigationStartedAtMs", JNull)].

Definition reset_fields (fs : list (string * json)) : list (string * json) :=
  drop_key "transitStopAreas" (spread fs INITIAL).

(** What a projection writes, by the name the store has for it. *)
Definition COPIED : list (string * string) :=
  map (fun key => (key, key))
    ["mode"; "route"; "routes"; "routeProvider"; "routeSelectionIntent"; "progress"; "offRoute"; "weakGps";
     "coasting"; "currentSpeedLimit"; "itinerary"; "transitProgress"; "transitCaptures";
     "transitReplanOptions"; "connectivity"; "permissionMode"; "rerouteUnavailable"; "liveDataUnavailable";
     "transitRerouteNeeded"; "alertAvailability"]
  ++ [("confidence", "nativeConfidence")].

(** [nativeStatePatch(projection)]: the fields it sets. *)
Definition nativeStatePatch (p : NativeNavigationProjection) (fs : list (string * json)) : list (string * json) :=
  foldl (fun fs names => assign names.2 (field names.1 (np_fields p)) fs) fs COPIED.

Definition patched (p : NativeNavigationProjection) (eventIds : list string) (fs : list (string * json))
    : NavigationState :=
  {| ns_nativeAuthority := true; ns_status := np_status p; ns_kind := np_kind p;
     ns_nativeSessionId := Some (np_sessionId p); ns_nativeRevision := Some (np_revision p);
     ns_nativeRouteFingerprint := Some (np_fingerprint p); ns_nativeEventIds := eventIds;
     ns_fields := nativeStatePatch p fs |}.

(** [a === b] for a value that may be [null] *)
Definition same_text (a : option string) (b : string) : bool :=
  match a with Some a => String.eqb a b | None => false end.

Definition same_revision (a : option number) (b : number) : bool :=
  match a with Some a => num_eq a b | None => false end.

Definition applyNativeFullSnapshot (p : NativeNavigationProjection) (st : NavigationState)
    : NativeApplyOutcome * NavigationState :=
  let sameSession := same_text (ns_nativeSessionId st) (np_sessionId p) in
  if sameSession && same_revision (ns_nativeRevision st) (np_revision p)
     && same_text (ns_nativeRouteFingerprint st) (np_fingerprint p)
  then (Duplicate, st)
  else (Applied, patched p (if sameSession then ns_nativeEventIds st else []) (reset_fields (ns_fields st))).

Definition applyNativeDelta (p : NativeNavigationProjection) (st : NavigationState)
    : NativeApplyOutcome * NavigationState :=
  match ns_nativeRevision st with
  | None => (NeedsFullSnapshot, st)
  | Some revision =>
      if negb (same_text (ns_nativeSessionId st) (np_sessionId p)) then (NeedsFullSnapshot, st)
      else if negb (same_text (ns_nativeRouteFingerprint st) (np_fingerprint p)) then (NeedsFullSnapshot, st)
      else if num_eq (np_revision p) revision then (Duplicate, st)
      else if num_lt (np_revision p) revision then (StaleUpdate, st)
      else
        let base := default (num_sub (np_revision p) (num_of_Z 1)) (np_baseRevision p) in
        if negb (num_eq base revision) then (NeedsFullSnapshot, st)
        else (Applied, patched p (ns_nativeEventIds st) (ns_fields st))
  end.

Definition applyNativeEvent (eventId : string) (st : NavigationState) : NativeApplyOutcome * NavigationState :=
  if negb (ns_nativeAuthority st) then (RejectedUpdate, st)
  else if includes eventId (ns_nativeEventIds st) then (Duplicate, st)
  else (Applied, {| ns_nativeAuthority := ns_nativeAuthority st; ns_status := ns_status st; ns_kind := ns_kind st;
                    ns_nativeSessionId := ns_nativeSessionId st; ns_nativeRevision := ns_nativeRevision st;
                    ns_nativeRouteFingerprint := ns_nativeRouteFingerprint st;
                    ns_nativeEventIds := ns_nativeEventIds st ++ [eventId]; ns_fields := ns_fields st |}).

(** [NATIVE_READ_MODEL_INITIAL], besides the identity and the events. *)
Definition NATIVE_READ_MODEL_INITIAL : list (string * json) :=
  [("nativeConfidence", JStr "live"); ("permissionMode", JNull); ("alertAvailability", JStr "unknown")].

Definition clearNativeReadModel (st : NavigationState) : NavigationState :=
  {| ns_nativeAuthority := ns_nativeAuthority st; ns_status := Idle; ns_kind := Ground;
     ns_nativeSessionId := None; ns_nativeRevision := None; ns_nativeRouteFingerprint := None;
     ns_nativeEventIds := [];
     ns_fields := put_key "connectivity" (field "connectivity" (ns_fields st))
                    (spread (reset_fields (ns_fields st)) NATIVE_READ_MODEL_INITIAL) |}.

(** [applyNativeSurfaceStop(sessionId)] of nativeSurfaceStop.ts. *)
Definition applyNativeSurfaceStop (sid : option json) (st : NavigationState) : bool * NavigationState :=
  match json_string sid with
  | Some s => if same_text (ns_nativeSessionId st) s then (true, clearNativeReadModel st) else (false, st)
  | None => (false, st)
  end.

(** ** The page *)

(** What the page asks of the shell. *)
Inductive PageRequest := RequestSnapshot | AcknowledgeEvents (eventIds : list string).

Record Page := {
  pg_model : option NativeReadModel;
  pg_store : NavigationState;
  pg_asked : list PageRequest;
}.

(** The messages of the shell that the page acts on here, by the part it reads. *)
Inductive ShellMessage :=
  | SessionStopped (sid : option json)
  | SnapshotUpdate (snapshot : json)
  | NavigationEvent (eventId : option json).

Definition ask (r : PageRequest) (pg : Page) : Page :=
  {| pg_model := pg_model pg; pg_store := pg_store pg; pg_asked := pg_asked pg ++ [r] |}.

Definition receive_snapshot (snapshot : json) (pg : Page) : Page :=
  match envelopeOf snapshot with
  | None => pg
  | Some incoming =>
      match applyNativeSnapshot (pg_model pg) incoming with
      | inr NeedFullSnapshot => ask RequestSnapshot pg
      | inr StaleSnapshot => pg
      | inl (model, _) =>
          let projection := projectionOf model (env_type incoming) in
          let '(applied, store) := match env_type incoming with
                                   | FullEnvelope => applyNativeFullSnapshot projection (pg_store pg)
                                   | ProgressEnvelope => applyNativeDelta projection (pg_store pg)
                                   end in
          match applied with
          | NeedsFullSnapshot => ask RequestSnapshot pg
          | _ => {| pg_model := Some model; pg_store := store; pg_asked := pg_asked pg |}
          end
      end
  end.

Definition receive_event (eventId : option json) (pg : Page) : Page :=
  match filled_text eventId with
  | None => pg
  | Some eventId =>
      let '(outcome, store) := applyNativeEvent eventId (pg_store pg) in
      match outcome with
      | Applied =>
          let remembered := (fun m => rememberEvent m eventId) <$> pg_model pg in
          ask (AcknowledgeEvents [eventId])
            {| pg_model := (fun m => forgetEvents m [eventId]) <$> remembered; pg_store := store;
               pg_asked := pg_asked pg |}
      | _ => {| pg_model := pg_model pg; pg_store := store; pg_asked := pg_asked pg |}
      end
  end.

Definition receive_message (m : ShellMessage) (pg : Page) : Page :=
  match m with
  | SessionStopped sid =>
      let '(stopped, store) := applyNativeSurfaceStop sid (pg_store pg) in
      {| pg_model := if stopped then None else pg_model pg; pg_store := store; pg_asked := pg_asked pg |}
  | SnapshotUpdate snapshot => receive_snapshot snapshot pg
  | NavigationEvent eventId => receive_event eventId pg
  end.
