(* ===== verification/PageFacts.v ===== *)
(** * The page shows what the shell has committed

    The snapshots of the shell as the JSON objects that cross the bridge, and what the
    read model of [PageModel] makes of them. *)

From S2P Require Import Prelude Text Doubles Protocol Cues Session Snapshot Itinerary Samples Database Repository Effects Reroute Location Processor Publish PageModel.
From Stdlib Require Import QArith_base Qabs.
Local Open Scope Z_scope.

(** ** Snapshots on the wire *)

(** The nested values cross the bridge unread: their JSON is immaterial here. *)
Class SnapshotValues := {
  value_of_route : Route -> json;
  value_of_reroute : RerouteRuntime -> json;
  value_of_captures : list TransitLegCapture -> json;
  value_of_ground_settings : GroundNavigationSettings -> json;
  value_of_transit_settings : TransitNavigationSettings -> json;
}.

Definition status_value (s : SessionStatus) : json :=
  JStr match s with
       | Preparing => "preparing" | Active => "active" | Arrived => "arrived"
       | Stopped => "stopped" | Expired => "expired" | Errored => "error"
       end.

Definition connectivity_value (c : Connectivity) : json :=
  JStr match c with Online => "online" | Offline => "offline" | NetUnknown => "unknown" end.

Definition permissionMode_value (m : PermissionMode) : json :=
  JStr match m with ModeBackground => "background" | ModeForegroundOnly => "foreground-only" end.

Definition locale_value (l : Locale) : json := JStr match l with En => "en" | De => "de" end.

Definition units_value (u : Units) : json := JStr match u with Metric => "metric" | Imperial => "imperial" end.

Definition confidence_value (c : Confidence) : json :=
  JStr match c with ConfGps => "gps" | ConfSchedule => "schedule" | ConfStale => "stale" end.

Definition phase_value (p : TransitPhase) : json :=
  JStr match p with
       | PhaseWalking => "walking" | WaitingToBoard => "waiting-to-board" | Riding => "riding"
       | Transferring => "transferring" | PhaseArrived => "arrived"
       end.

Definition refresh_value (r : RefreshStatus) : json :=
  JStr match r with
       | RfReady => "ready" | RfInFlight => "in-flight" | RfStale => "stale" | RfBroken => "broken"
       end.

Definition liveStatus_value (l : LiveStatus) : json :=
  JObj [("refresh", refresh_value (ls_refresh l)); ("hasLiveToken", JBool (ls_hasLiveToken l))].

Definition availability_value (a : AlightAvailability) : json :=
  JStr match a with AlertScheduled => "scheduled" | AlertUnavailable => "unavailable" | AlertDisabled => "disabled" end.

Definition intent_value (i : RouteSelectionIntent) : json :=
  JStr match i with Automatic => "automatic" | UserSelected => "userSelected" end.

(** A value or [null]. *)
Definition or_null {A} (f : A -> json) (o : option A) : json := match o with Some a => f a | None => JNull end.

Definition int_value (n : Z) : json := JNum (num_of_Z n).

Section wire.
Context `{SnapshotValues}.

Definition ground_full_object (f : GroundFullSnapshot) : list (string * json) :=
  [("version", int_value 1); ("type", JStr "full"); ("sessionId", JStr (gf_sessionId f));
   ("revision", int_value (gf_revision f)); ("status", status_value (gf_status f)); ("kind", JStr "ground");
   ("mode", JStr (ground_mode_name (gf_mode f))); ("routeFingerprint", JStr (gf_routeFingerprint f));
   ("route", value_of_route (gf_route f)); ("alternatives", JArr (map value_of_route (gf_alternatives f)))]
  ++ match gf_routeProvider f with Some provider => [("routeProvider", JStr provider)] | None => [] end ++
  [("routeSelectionIntent", intent_value (gf_routeSelectionIntent f));
   ("progress", or_null JObj (gf_progress f)); ("weakGps", JBool (gf_weakGps f));
   ("offRoute", JBool (gf_offRoute f)); ("coasting", JBool (gf_coasting f));
   ("currentSpeedLimit", or_null JNum (gf_currentSpeedLimit f));
   ("settings", value_of_ground_settings (gf_settings f)); ("locale", locale_value (gf_locale f));
   ("units", units_value (gf_units f)); ("connectivity", connectivity_value (gf_connectivity f));
   ("permissionMode", permissionMode_value (gf_permissionMode f));
   ("reroute", value_of_reroute (gf_reroute f))].

Definition ground_progress_object (p : GroundProgressSnapshot) : list (string * json) :=
  [("version", int_value 1); ("type", JStr "progress"); ("sessionId", JStr (gg_sessionId p));
   ("revision", int_value (gg_revision p)); ("routeFingerprint", JStr (gg_routeFingerprint p));
   ("status", status_value (gg_status p)); ("progress", or_null JObj (gg_progress p));
   ("weakGps", JBool (gg_weakGps p)); ("offRoute", JBool (gg_offRoute p));
   ("coasting", JBool (gg_coasting p)); ("currentSpeedLimit", or_null JNum (gg_currentSpeedLimit p));
   ("connectivity", connectivity_value (gg_connectivity p)); ("reroute", value_of_reroute (gg_reroute p))].

Definition transit_full_object (f : TransitFullSnapshot) : list (string * json) :=
  [("version", int_value 1); ("type", JStr "full"); ("sessionId", JStr (tf_sessionId f));
   ("revision", int_value (tf_revision f)); ("status", status_value (tf_status f)); ("kind", JStr "transit");
   ("itineraryFingerprint", JStr (tf_itineraryFingerprint f)); ("itinerary", tf_itinerary f);
   ("captures", value_of_captures (tf_captures f)); ("transitReplanOptions", tf_transitReplanOptions f);
   ("currentLegIndex", int_value (tf_currentLegIndex f));
   ("currentWalkStepIndex", int_value (tf_currentWalkStepIndex f)); ("phase", phase_value (tf_phase f));
   ("confidence", confidence_value (tf_confidence f)); ("transitProgress", JObj (tf_transitProgress f));
   ("settings", value_of_transit_settings (tf_settings f)); ("locale", locale_value (tf_locale f));
   ("units", units_value (tf_units f)); ("connectivity", connectivity_value (tf_connectivity f));
   ("permissionMode", permissionMode_value (tf_permissionMode f));
   ("liveStatus", liveStatus_value (tf_liveStatus f));
   ("alightAlertAvailability", availability_value (tf_alightAlertAvailability f))].

Definition transit_progress_object (p : TransitProgressSnapshot) : list (string * json) :=
  [("version", int_value 1); ("type", JStr "progress"); ("sessionId", JStr (tg_sessionId p));
   ("revision", int_value (tg_revision p)); ("itineraryFingerprint", JStr (tg_itineraryFingerprint p));
   ("status", status_value (tg_status p)); ("currentLegIndex", int_value (tg_currentLegIndex p));
   ("currentWalkStepIndex", int_value (tg_currentWalkStepIndex p)); ("phase", phase_value (tg_phase p));
   ("confidence", confidence_value (tg_confidence p)); ("transitProgress", or_null JObj (tg_transitProgress p));
   ("connectivity", connectivity_value (tg_connectivity p)); ("liveStatus", liveStatus_value (tg_liveStatus p))].

Definition snapshot_object (s : Snapshot) : list (string * json) :=
  match s with
  | EmptySnapshot => []
  | SnapGround (GroundFull f) => ground_full_object f
  | SnapGround (GroundProgress p) => ground_progress_object p
  | SnapTransitFull f => transit_full_object f
  | SnapTransitProgress p => transit_progress_object p
  end.
End wire.

(** ** Sessions and the model *)

Section page.
Context `{SnapshotValues} `{TransitProgressEngine}.

(** What the port publishes of a session, as it arrives. *)
Definition published_object (s : MobileNavigationSession) (immediate : bool) : list (string * json) :=
  snapshot_object (published_snapshot s immediate).

Definition fingerprint_of (s : MobileNavigationSession) : string :=
  match payload s with
  | GroundSession p => routeFingerprint (route_geometry (gp_route (g_startPackage p)))
  | TransitSession p => tp_itineraryFingerprint (p_startPackage p)
  end.

(** A session whose identity a page accepts. *)
Definition identified (s : MobileNavigationSession) : Prop :=
  sessionId s <> "" /\ fingerprint_of s <> "" /\ 0 <= revision s < 2 ^ 53.

(** The model shows a session: field for field what a full snapshot of it says. *)
Record shows (m : NativeReadModel) (s : MobileNavigationSession) : Prop := {
  shows_id : rm_sessionId m = sessionId s;
  shows_revision : rm_revision m = num_of_Z (revision s);
  shows_fingerprint : rm_fingerprint m = fingerprint_of s;
  shows_kind : rm_kind m = kind s;
  shows_fields : forall key, field key (rm_snapshot m) = field key (published_object s true);
}.

(** A commit that only moves the traveller: the next revision of the same journey. *)
Definition moves (s s' : MobileNavigationSession) : Prop :=
  sessionId s' = sessionId s /\ revision s' = revision s + 1 /\ locale s' = locale s /\ units s' = units s /\
  permissionMode s' = permissionMode s /\
  match payload s, payload s' with
  | GroundSession p, GroundSession p' => g_startPackage p' = g_startPackage p
  | TransitSession p, TransitSession p' =>
      p_startPackage p' = p_startPackage p /\ p_scheduledAlerts p' = p_scheduledAlerts p /\
      is_Some (p_progress p')
  | _, _ => False
  end.

Lemma moves_same s s' : moves s s' ->
  kind s' = kind s /\ fingerprint_of s' = fingerprint_of s.
Proof.
  intros (_ & _ & _ & _ & _ & Hp). unfold kind, fingerprint_of.
  destruct (payload s), (payload s'); try done; [by rewrite Hp|]. destruct Hp as [-> _]. done.
Qed.

(** *** Numbers *)

Lemma num_of_Z_eq a b : num_eq (num_of_Z a) (num_of_Z b) = (a =? b).
Proof.
  unfold num_eq, num_of_Z. apply Bool.eq_iff_eq_true. rewrite andb_true_iff, Z.eqb_eq.
  rewrite !num_le_Fin. unfold Qle. cbn. lia.
Qed.

Lemma num_of_Z_le a b : num_le (num_of_Z a) (num_of_Z b) = (a <=? b).
Proof. apply Bool.eq_iff_eq_true. unfold num_of_Z. rewrite num_le_Fin, Z.leb_le. unfold Qle. cbn. lia. Qed.

Lemma num_of_Z_lt a b : num_lt (num_of_Z a) (num_of_Z b) = (a <? b).
Proof. apply Bool.eq_iff_eq_true. unfold num_of_Z. rewrite num_lt_Fin, Z.ltb_lt. unfold Qlt. cbn. lia. Qed.

(** The next revision is the double after one. *)
Lemma num_succ a b : 0 <= b < 2 ^ 53 ->
  num_eq (num_of_Z a) (num_add (num_of_Z b) (num_of_Z 1)) = (a =? b + 1).
Proof.
  intros Hb. unfold num_add, num_of_Z.
  assert (inject_Z b + inject_Z 1 == inject_Z (b + 1))%Q as Hq by (unfold Qeq; cbn; lia).
  assert (representable (inject_Z (b + 1))) as Hr by (apply representable_Z; lia).
  pose proof (round_ge _ (inject_Z b + inject_Z 1) Hr ltac:(rewrite Hq; apply Qle_refl)) as Hge.
  pose proof (round_le _ (inject_Z b + inject_Z 1) Hr ltac:(rewrite Hq; apply Qle_refl)) as Hle.
  destruct (round_double _) as [q| | |]; try done. apply num_le_Fin in Hge, Hle.
  assert (q == inject_Z (b + 1))%Q as Hqq by (apply Qle_antisym; done).
  unfold num_eq. apply Bool.eq_iff_eq_true. rewrite andb_true_iff, Z.eqb_eq, !num_le_Fin, Hqq.
  unfold Qle. cbn. lia.
Qed.

(** *** Objects *)

Lemma field_outside key fs : key ∉ map fst fs -> field key fs = None.
Proof.
  induction fs as [|[k v] fs IH]; cbn [field map fst]; [done|].
  intros [Hne Hk]%not_elem_of_cons. rewrite (proj2 (String.eqb_neq k key)) by done. by apply IH.
Qed.

Lemma outside_keys keys key fs : key ∉ keys -> forallb (fun k => includes k keys) (map fst fs) = true ->
  field key fs = None.
Proof.
  intros Hout Hall. apply field_outside. intros Hin. apply Hout, includes_spec.
  rewrite forallb_forall in Hall. by apply Hall, list_elem_of_In.
Qed.

(** A field the fold leaves alone whatever the delta carries. *)
Definition skipped (k : Kind) (data : list (string * json)) (key : string) : bool :=
  String.eqb key "transitProgress"
  && (negb (bool_decide (k = Transit)) || negb (is_plain_object (field key data))).

Lemma field_fold k data fs keys key :
  field key (foldl (fold_field k data) fs keys) =
    if includes key keys && negb (skipped k data key)
    then match field key data with Some v => Some v | None => field key fs end
    else field key fs.
Proof.
  revert fs. induction keys as [|key' keys IH]; intros fs; [done|]. cbn [foldl]. rewrite IH. clear IH.
  assert (field key (fold_field k data fs key') =
    if String.eqb key' key && negb (skipped k data key)
    then match field key data with Some v => Some v | None => field key fs end
    else field key fs) as ->.
  { unfold fold_field, skipped. destruct (String.eqb_spec key' key) as [->|Hne]; cbn [andb].
    - destruct (String.eqb key "transitProgress" && _); cbn [negb]; [done|].
      destruct (field key data) as [v|] eqn:Ed; [|done]. by rewrite field_set_key, String.eqb_refl.
    - destruct (_ && _); [done|]. destruct (field key' data); [|done].
      rewrite field_set_key. by rewrite (proj2 (String.eqb_neq key' key) Hne). }
  cbn [includes]. change (includes key (key' :: keys)) with (String.eqb key key' || includes key keys).
  rewrite (String.eqb_sym key key').
  destruct (String.eqb key' key), (includes key keys), (skipped k data key), (field key data); done.
Qed.

Definition GROUND_KEYS : list string :=
  ["version"; "type"; "sessionId"; "revision"; "status"; "kind"; "mode"; "routeFingerprint"; "route";
   "alternatives"; "routeProvider"; "routeSelectionIntent"; "progress"; "weakGps"; "offRoute"; "coasting";
   "currentSpeedLimit"; "settings"; "locale"; "units"; "connectivity"; "permissionMode"; "reroute"].

(** The page folds a ground delta exactly as the shell's own [applyGroundSnapshot]. *)
Lemma ground_fold_agrees view p key :
  field key (foldl (fold_field Ground (ground_progress_object p)) (ground_full_object (view_full view)) HOT_FIELDS)
    = field key (ground_full_object (view_full (fold_progress view p))).
Proof.
  rewrite field_fold. destruct (decide (key ∈ GROUND_KEYS)) as [Hin|Hout].
  - unfold GROUND_KEYS in Hin. unfold ground_full_object. cbn [view_full fold_progress gf_routeProvider].
    destruct (gf_routeProvider (view_full view));
      (repeat (apply elem_of_cons in Hin as [->|Hin]; [reflexivity|])); by apply elem_of_nil in Hin.
  - rewrite !(outside_keys GROUND_KEYS); [by destruct (_ && _)|done|..];
      first [reflexivity|exact Hout|unfold ground_full_object; by destruct (gf_routeProvider _)].
Qed.

Definition TRANSIT_KEYS : list string :=
  ["version"; "type"; "sessionId"; "revision"; "status"; "kind"; "itineraryFingerprint"; "itinerary"; "captures";
   "transitReplanOptions"; "currentLegIndex"; "currentWalkStepIndex"; "phase"; "confidence"; "transitProgress";
   "settings"; "locale"; "units"; "connectivity"; "permissionMode"; "liveStatus"; "alightAlertAvailability"].

(** A delta of the same journey, with a progress, makes the next full snapshot of the last one. *)
Lemma transit_fold_agrees s p s' p' progress key :
  moves s s' -> payload s = TransitSession p -> payload s' = TransitSession p' -> p_progress p' = Some progress ->
  field key (foldl (fold_field Transit (transit_progress_object (transitProgressSnapshot s' p')))
               (transit_full_object (transitFullSnapshot s p)) HOT_FIELDS)
    = field key (transit_full_object (transitFullSnapshot s' p')).
Proof.
  intros (Hid & _ & Hl & Hu & Hm & Hpay) Ep Ep' Hprog. rewrite Ep, Ep' in Hpay. destruct Hpay as (Hpkg & Hsched & _).
  rewrite field_fold. destruct (decide (key ∈ TRANSIT_KEYS)) as [Hin|Hout].
  - unfold TRANSIT_KEYS in Hin. unfold transitProgressSnapshot, transitFullSnapshot, alightAvailability.
    rewrite Hprog, Hid, Hl, Hu, Hm, Hpkg, Hsched.
    (repeat (apply elem_of_cons in Hin as [->|Hin]; [reflexivity|])); by apply elem_of_nil in Hin.
  - rewrite !(outside_keys TRANSIT_KEYS); [by destruct (_ && _)|done|..]; first [reflexivity|exact Hout].
Qed.

Lemma ground_fold_moves s p s' p' key :
  moves s s' -> payload s = GroundSession p -> payload s' = GroundSession p' ->
  field key (foldl (fold_field Ground (ground_progress_object (groundProgressSnapshot s' p')))
               (ground_full_object (groundFullSnapshot s p)) HOT_FIELDS)
    = field key (ground_full_object (groundFullSnapshot s' p')).
Proof.
  intros (Hid & _ & Hl & Hu & Hm & Hpay) Ep Ep'. rewrite Ep, Ep' in Hpay.
  pose proof (ground_fold_agrees
    {| view_sessionId := sessionId s; view_revision := revision s;
       view_routeFingerprint := fingerprint_of s; view_full := groundFullSnapshot s p |}
    (groundProgressSnapshot s' p') key) as Hf. cbn [view_full] in Hf. rewrite Hf.
  unfold fold_progress, groundFullSnapshot, groundProgressSnapshot. cbn. by rewrite Hid, Hl, Hu, Hm, Hpay.
Qed.

(** *** What a snapshot is received as *)

Lemma filled_text_eq s : s <> "" -> filled_text (Some (JStr s)) = Some s.
Proof. by destruct s. Qed.

Lemma envelope_of_published s immediate : identified s ->
  envelopeOf (JObj (published_object s immediate)) =
    Some {| env_type := if immediate then FullEnvelope else ProgressEnvelope;
            env_sessionId := sessionId s; env_revision := num_of_Z (revision s);
            env_fingerprint := fingerprint_of s; env_kind := if immediate then kind s else Ground;
            env_data := published_object s immediate |}.
Proof.
  intros (Hs & Hf & _). unfold published_object, published_snapshot, fingerprint_of, kind in *.
  destruct (payload s) as [p|p], immediate; cbn [snapshot_object]; unfold envelopeOf;
    cbn -[ground_full_object ground_progress_object transit_full_object transit_progress_object].
  - unfold ground_full_object, groundFullSnapshot. cbn -[filled_text]. by rewrite !filled_text_eq.
  - cbn -[filled_text]. by rewrite !filled_text_eq.
  - cbn -[filled_text]. by rewrite !filled_text_eq.
  - cbn -[filled_text]. by rewrite !filled_text_eq.
Qed.

(** What an accepted snapshot makes of the page: the model shows its session. *)
Lemma full_snapshot_shows current s m changed : identified s ->
  applyNativeSnapshot current {| env_type := FullEnvelope; env_sessionId := sessionId s;
    env_revision := num_of_Z (revision s); env_fingerprint := fingerprint_of s; env_kind := kind s;
    env_data := published_object s true |} = inl (m, changed) ->
  shows m s.
Proof.
  intros _. unfold applyNativeSnapshot. cbn [env_type env_sessionId env_revision env_fingerprint env_kind env_data].
  cbv zeta. case_match; [done|]. intros [= <- _]. by split.
Qed.

Lemma delta_shows m s s' : shows m s -> identified s -> moves s s' ->
  exists m', applyNativeSnapshot (Some m) {| env_type := ProgressEnvelope; env_sessionId := sessionId s';
    env_revision := num_of_Z (revision s'); env_fingerprint := fingerprint_of s'; env_kind := Ground;
    env_data := published_object s' false |} = inl (m', true) /\ shows m' s'.
Proof.
  intros [Hid Hrev Hfp Hk Hf] (_ & _ & Hr) Hm. destruct (moves_same s s' Hm) as [Hk' Hfp'].
  pose proof Hm as (Hid' & Hrev' & _). unfold applyNativeSnapshot.
  cbn [env_type env_sessionId env_revision env_fingerprint env_data].
  rewrite Hid, Hfp, Hrev, Hid', Hfp', !String.eqb_refl, num_of_Z_le, Hrev', num_succ by exact Hr. cbn [negb].
  rewrite (proj2 (Z.leb_gt _ _)) by lia. rewrite Z.eqb_refl. cbn [negb].
  eexists. split; [reflexivity|]. split;
    cbn [rm_sessionId rm_revision rm_fingerprint rm_kind rm_snapshot]; try congruence.
  intros key. rewrite field_fold, Hf, Hk, <- field_fold. unfold published_object, published_snapshot, kind.
  pose proof Hm as (_ & _ & _ & _ & _ & Hpay).
  destruct (payload s) as [p|p] eqn:Ep, (payload s') as [p'|p'] eqn:Ep'; try done; cbn [snapshot_object].
  - by apply (ground_fold_moves s p s' p').
  - destruct Hpay as (_ & _ & [progress Hprog]). by apply (transit_fold_agrees s p s' p' progress).
Qed.

(** *** What was committed *)

(** The commits of the shell in order, each with how it was published: a session begins,
    and any change but a move is published in full. *)
Inductive history : list (MobileNavigationSession * bool) -> Prop :=
  | history_nil : history []
  | history_begins h s : history h -> identified s ->
      Forall (fun x => sessionId x.1 <> sessionId s) h -> history (h ++ [(s, true)])
  | history_changes h s0 i0 s : history (h ++ [(s0, i0)]) -> identified s ->
      sessionId s = sessionId s0 -> revision s = revision s0 + 1 -> history ((h ++ [(s0, i0)]) ++ [(s, true)])
  | history_moves h s0 i0 s : history (h ++ [(s0, i0)]) -> identified s -> moves s0 s ->
      history ((h ++ [(s0, i0)]) ++ [(s, false)]).

Record history_facts (h : list (MobileNavigationSession * bool)) : Prop := {
  hist_identified : Forall (fun x => identified x.1) h;
  hist_latest : forall x, last h = Some x ->
    Forall (fun y => sessionId y.1 = sessionId x.1 -> revision y.1 <= revision x.1) h;
  hist_unique : forall x y, x ∈ h -> y ∈ h -> sessionId x.1 = sessionId y.1 -> revision x.1 = revision y.1 ->
    x.1 = y.1;
  hist_moved : forall s', (s', false) ∈ h -> exists x, x ∈ h /\ moves x.1 s';
}.

(** One more commit whose revision is above all of its session. *)
Lemma history_snoc h s i : history_facts h -> identified s ->
  Forall (fun y => sessionId y.1 = sessionId s -> revision y.1 < revision s) h ->
  (i = false -> exists x, x ∈ h /\ moves x.1 s) -> history_facts (h ++ [(s, i)]).
Proof.
  intros [H1 H2 H3 H4] Hs Hlow Hi. rewrite Forall_forall in Hlow. split.
  - apply Forall_app. split; [done|]. by apply Forall_singleton.
  - intros x. rewrite last_snoc. intros [= <-]. apply Forall_app. cbn. split; [|apply Forall_singleton; cbn; lia].
    apply Forall_forall. intros y Hy Hid. specialize (Hlow y Hy Hid). lia.
  - intros x y [Hx|Hx%list_elem_of_singleton]%elem_of_app [Hy|Hy%list_elem_of_singleton]%elem_of_app Hid Hrev.
    + by apply H3.
    + subst y. cbn in *. specialize (Hlow x Hx Hid). lia.
    + subst x. cbn in *. specialize (Hlow y Hy (eq_sym Hid)). lia.
    + by subst.
  - intros s' [Hin|Hin%list_elem_of_singleton]%elem_of_app.
    + destruct (H4 s' Hin) as (x & Hx & Hm). exists x. split; [|done]. apply elem_of_app. by left.
    + injection Hin as -> <-. destruct (Hi eq_refl) as (x & Hx & Hm). exists x. split; [|done].
      apply elem_of_app. by left.
Qed.

Lemma history_holds h : history h -> history_facts h.
Proof.
  assert (forall h s0 i0 (s : MobileNavigationSession), history_facts (h ++ [(s0, i0)]) ->
    sessionId s = sessionId s0 -> revision s = revision s0 + 1 ->
    Forall (fun y => sessionId y.1 = sessionId s -> revision y.1 < revision s) (h ++ [(s0, i0)])) as Hlow.
  { intros h0 s0 i0 s Hh Hid Hrev. pose proof (hist_latest _ Hh _ (last_snoc _ _)) as Hl.
    eapply Forall_impl; [exact Hl|]. cbn. intros y Hy Hsame. rewrite Hid in Hsame. specialize (Hy Hsame). lia. }
  induction 1 as [|h s Hh IH Hs Hnew|h s0 i0 s Hh IH Hs Hid Hrev|h s0 i0 s Hh IH Hs Hm].
  - split; [constructor|done|by intros x y ?%elem_of_nil|by intros s' ?%elem_of_nil].
  - apply history_snoc; [done|done| |done]. eapply Forall_impl; [exact Hnew|]. by intros x Hx ?.
  - apply history_snoc; [done|done|by eapply Hlow|done].
  - pose proof Hm as (Hid & Hrev & _). apply history_snoc; [done|done|by eapply Hlow|].
    intros _. exists (s0, i0). split; [|done]. apply elem_of_app. right. by apply list_elem_of_singleton.
Qed.

(** The commit a delta follows is the one of the revision before it. *)
Lemma delta_follows h s s' i : history_facts h -> (s, i) ∈ h -> (s', false) ∈ h ->
  sessionId s' = sessionId s -> revision s' = revision s + 1 -> moves s s'.
Proof.
  intros Hh Hs Hs' Hid Hrev. destruct (hist_moved _ Hh s' Hs') as (x & Hx & Hm).
  pose proof Hm as (Hid' & Hrev' & _).
  assert (x.1 = s) as <-; [|done]. apply (hist_unique _ Hh x (s, i)); cbn; [done|done|congruence|lia].
Qed.

(** *** What the store renders *)

(** The fields the store takes over as they are. *)
Definition RENDERED : list string :=
  ["mode"; "route"; "routeSelectionIntent"; "progress"; "offRoute"; "weakGps"; "coasting";
   "currentSpeedLimit"; "itinerary"; "transitReplanOptions"; "transitProgress"; "connectivity"].

Lemma field_assign key key' v fs :
  field key (assign key' v fs) =
    if String.eqb key' key then match v with Some w => Some w | None => field key fs end else field key fs.
Proof.
  unfold assign. destruct v as [w|]; [apply field_set_key|]. by destruct (String.eqb key' key).
Qed.

Lemma field_picked raw keys key fs v : field key raw = Some v -> (key ∈ keys \/ field key fs = Some v) ->
  field key (foldl (fun fs key => assign key (field key raw) fs) fs keys) = Some v.
Proof.
  intros Hv. revert fs. induction keys as [|key' keys IH]; intros fs Hk; cbn [foldl].
  - destruct Hk as [?%elem_of_nil|?]; done.
  - apply IH. rewrite field_assign. destruct (String.eqb_spec key' key) as [->|Hne]; [rewrite Hv; by right|].
    destruct Hk as [[->|Hk]%elem_of_cons|Hk]; [done|by left|by right].
Qed.

Lemma projection_renders m type key v : key ∈ RENDERED -> field key (rm_snapshot m) = Some v ->
  field key (np_fields (projectionOf m type)) = Some v.
Proof.
  intros Hk Hv. unfold projectionOf. cbn [np_fields]. rewrite !field_assign.
  assert (includes key RENDERED = true) as Hi by by apply includes_spec.
  assert (forall other, includes other RENDERED = false -> String.eqb other key = false) as Hother.
  { intros other Ho. apply String.eqb_neq. intros ->. by rewrite Hi in Ho. }
  rewrite !Hother by reflexivity. apply field_picked; [done|]. left. exact Hk.
Qed.

Lemma patch_renders p key v fs : key ∈ RENDERED -> field key (np_fields p) = Some v ->
  field key (nativeStatePatch p fs) = Some v.
Proof.
  intros Hk Hv. unfold nativeStatePatch.
  assert (forall l fs, Forall (fun names => names.2 = key -> names.1 = key) l ->
    (key, key) ∈ l \/ field key fs = Some v ->
    field key (foldl (fun fs names => assign names.2 (field names.1 (np_fields p)) fs) fs l) = Some v) as Hall.
  { induction l as [|[a b] l IH]; intros fs' Hl Hin; cbn [foldl].
    - by destruct Hin as [?%elem_of_nil|?].
    - apply Forall_cons in Hl as [Hab Hl]. cbn [fst snd] in *. apply IH; [done|]. rewrite field_assign.
      destruct (String.eqb_spec b key) as [->|Hne]; [rewrite Hab, Hv by done; by right|].
      destruct Hin as [[[= <- <-]|Hin]%elem_of_cons|Hin]; [done|by left|by right]. }
  apply Hall; unfold RENDERED in Hk;
    repeat (apply elem_of_cons in Hk as [->|Hk];
      [first [apply Forall_forall; intros [a b]; cbn; set_solver|left; apply list_elem_of_In; cbn; tauto]|]);
    by apply elem_of_nil in Hk.
Qed.

Definition nav_status_of (st : SessionStatus) : NavStatus :=
  match st with
  | Arrived => NavArrived
  | Stopped | Expired | Errored => Idle
  | Preparing | Active => Navigating
  end.

(** The store shows a session. *)
Record renders (st : NavigationState) (s : MobileNavigationSession) : Prop := {
  rend_id : ns_nativeSessionId st = Some (sessionId s);
  rend_revision : ns_nativeRevision st = Some (num_of_Z (revision s));
  rend_fingerprint : ns_nativeRouteFingerprint st = Some (fingerprint_of s);
  rend_kind : ns_kind st = kind s;
  rend_status : ns_status st = nav_status_of (status s);
  rend_fields : forall key v, key ∈ RENDERED -> field key (published_object s true) = Some v ->
    field key (ns_fields st) = Some v;
}.

(** The page shows nothing, or a committed session, in its model and in its store. *)
Definition in_step (h : list (MobileNavigationSession * bool)) (pg : Page) : Prop :=
  match pg_model pg with
  | None => ns_nativeSessionId (pg_store pg) = None
  | Some m => exists s i, (s, i) ∈ h /\ shows m s /\ renders (pg_store pg) s
  end.

Lemma published_status s : field "status" (published_object s true) = Some (status_value (status s)).
Proof. unfold published_object, published_snapshot. by destruct (payload s). Qed.

Lemma patched_renders m s type ids fs : shows m s -> renders (patched (projectionOf m type) ids fs) s.
Proof.
  intros [Hid Hrev Hfp Hk Hf]. split; cbn [patched projectionOf ns_nativeSessionId ns_nativeRevision
    ns_nativeRouteFingerprint ns_kind ns_status ns_fields np_sessionId np_revision np_fingerprint np_kind np_status];
    try congruence.
  - rewrite Hf, published_status. by destruct (status s).
  - intros key v Hkey Hv. apply patch_renders; [done|]. apply projection_renders; [done|]. by rewrite Hf.
Qed.

Lemma shows_unique h m m' s i s' i' : history_facts h -> (s, i) ∈ h -> (s', i') ∈ h -> shows m s -> shows m' s' ->
  rm_sessionId m = rm_sessionId m' -> num_eq (rm_revision m) (rm_revision m') = true -> s = s'.
Proof.
  intros Hh Hs Hs' Hm Hm' Hid Hrev. rewrite (shows_id _ _ Hm), (shows_id _ _ Hm') in Hid.
  rewrite (shows_revision _ _ Hm), (shows_revision _ _ Hm'), num_of_Z_eq in Hrev. apply Z.eqb_eq in Hrev.
  exact (hist_unique _ Hh (s, i) (s', i') Hs Hs' Hid Hrev).
Qed.

(** A full snapshot of a committed session. *)
Lemma receive_full_in_step h s i pg : history_facts h -> (s, i) ∈ h -> in_step h pg ->
  in_step h (receive_snapshot (JObj (published_object s true)) pg).
Proof.
  intros Hh Hin Hpg. pose proof (proj1 (Forall_forall _ _) (hist_identified _ Hh) _ Hin) as Hid. cbn in Hid.
  unfold receive_snapshot. rewrite envelope_of_published by done.
  destruct (applyNativeSnapshot _ _) as [[m changed]|[]] eqn:Ea; [|exact Hpg..].
  pose proof (full_snapshot_shows _ _ _ _ Hid Ea) as Hm. cbn [env_type].
  destruct (applyNativeFullSnapshot _ _) as [applied store] eqn:Ef.
  assert (applied <> NeedsFullSnapshot /\ renders store s) as [Ha Hr].
  { revert Ef. unfold applyNativeFullSnapshot. destruct (_ && _) eqn:Edup; intros [= <- <-].
    - split; [done|]. apply andb_true_iff in Edup as [[E1 E2]%andb_true_iff _].
      unfold in_step in Hpg. destruct (pg_model pg) as [m0|]; [|by rewrite Hpg in E1].
      destruct Hpg as (s0 & i0 & Hin0 & Hm0 & Hr0). cbn [projectionOf np_sessionId np_revision] in E1, E2.
      rewrite (rend_id _ _ Hr0) in E1. rewrite (rend_revision _ _ Hr0) in E2. cbn in E1, E2.
      apply String.eqb_eq in E1. rewrite (shows_revision _ _ Hm), num_of_Z_eq in E2. apply Z.eqb_eq in E2.
      rewrite (shows_id _ _ Hm) in E1. pose proof (hist_unique _ Hh _ _ Hin0 Hin E1 E2) as Hsame. cbn in Hsame. by subst s0.
    - split; [done|]. by apply patched_renders. }
  destruct applied; try done; cbn; by exists s, i.
Qed.

Lemma receive_delta_in_step h s pg : history_facts h -> (s, false) ∈ h -> in_step h pg ->
  in_step h (receive_snapshot (JObj (published_object s false)) pg).
Proof.
  intros Hh Hin Hpg. pose proof (proj1 (Forall_forall _ _) (hist_identified _ Hh) _ Hin) as Hid. cbn in Hid.
  unfold receive_snapshot. rewrite envelope_of_published by done.
  destruct (applyNativeSnapshot _ _) as [[m changed]|[]] eqn:Ea; [|exact Hpg..].
  unfold in_step in Hpg. destruct (pg_model pg) as [m0|] eqn:Em0; [|done].
  destruct Hpg as (s0 & i0 & Hin0 & Hm0 & Hr0).
  assert (moves s0 s) as Hmove.
  { revert Ea. unfold applyNativeSnapshot. cbn [env_type env_sessionId env_fingerprint env_revision].
    destruct (negb (String.eqb (sessionId s) _)) eqn:E1; [done|]. apply negb_false_iff, String.eqb_eq in E1.
    destruct (negb (String.eqb (fingerprint_of s) _)); [done|]. destruct (num_le _ _); [done|].
    destruct (negb (num_eq _ _)) eqn:E2; [done|]. intros _. apply negb_false_iff in E2.
    rewrite (shows_revision _ _ Hm0) in E2. rewrite (shows_id _ _ Hm0) in E1.
    pose proof (proj1 (Forall_forall _ _) (hist_identified _ Hh) _ Hin0) as (_ & _ & Hb).
    rewrite num_succ in E2 by exact Hb. apply Z.eqb_eq in E2. by apply (delta_follows h s0 s i0). }
  destruct (delta_shows m0 s0 s Hm0 (proj1 (Forall_forall _ _) (hist_identified _ Hh) _ Hin0) Hmove) as (m' & Ha & Hm').
  rewrite Ha in Ea. injection Ea as -> _. cbn [env_type].
  destruct (applyNativeDelta _ _) as [applied store] eqn:Ef.
  assert (applied = NeedsFullSnapshot /\ store = pg_store pg \/ applied = Applied /\ renders store s) as Happ.
  { revert Ef. unfold applyNativeDelta. rewrite (rend_revision _ _ Hr0).
    cbn [projectionOf np_sessionId np_revision np_fingerprint np_baseRevision].
    destruct (negb (same_text _ _)); [intros [= <- <-]; by left|].
    destruct (negb (same_text _ _)); [intros [= <- <-]; by left|].
    rewrite (shows_revision _ _ Hm'), num_of_Z_eq, num_of_Z_lt. destruct Hmove as (_ & Hrev & _).
    rewrite (proj2 (Z.eqb_neq _ _)) by lia. rewrite (proj2 (Z.ltb_ge _ _)) by lia.
    destruct (negb (num_eq _ _)); [intros [= <- <-]; by left|]. intros [= <- <-]. right. split; [done|].
    by apply patched_renders. }
  destruct Happ as [[-> ->]|[-> Hr]]; unfold in_step; cbn; [rewrite Em0; by exists s0, i0|by exists s, false].
Qed.

Lemma remember_shows m s eventId : shows m s -> shows (forgetEvents (rememberEvent m eventId) [eventId]) s.
Proof. intros [H1 H2 H3 H4 H5]. unfold rememberEvent. destruct (includes _ _); by split. Qed.

Lemma event_renders st s eventId : renders st s -> renders (applyNativeEvent eventId st).2 s.
Proof.
  intros [H1 H2 H3 H4 H5 H6]. unfold applyNativeEvent.
  destruct (negb _); [by split|]. destruct (includes _ _); by split.
Qed.

Lemma event_store_id st eventId :
  ns_nativeSessionId (applyNativeEvent eventId st).2 = ns_nativeSessionId st.
Proof. unfold applyNativeEvent. destruct (negb _); [done|]. by destruct (includes _ _). Qed.

Lemma receive_event_in_step h eventId pg : in_step h pg -> in_step h (receive_event eventId pg).
Proof.
  intros Hpg. unfold receive_event. destruct (filled_text eventId) as [id|]; [|done].
  pose proof (event_store_id (pg_store pg) id) as Hid.
  pose proof (fun s => event_renders (pg_store pg) s id) as Hr.
  destruct (applyNativeEvent id (pg_store pg)) as [outcome store]. cbn [snd] in Hid, Hr.
  unfold in_step in *. destruct (pg_model pg) as [m|] eqn:Em.
  - destruct Hpg as (s & i & Hin & Hm & Hs). destruct outcome; cbn; rewrite ?Em; exists s, i;
      (split; [done|]; split; [try done; by apply remember_shows|by apply Hr]).
  - destruct outcome; cbn; rewrite ?Em; cbn; congruence.
Qed.

(** What reaches the page: snapshots of commits, the deltas that were published, and any
    stops and events. *)
Definition drawn (h : list (MobileNavigationSession * bool)) (message : ShellMessage) : Prop :=
  match message with
  | SnapshotUpdate j =>
      exists s, (exists i, (s, i) ∈ h) /\ j = JObj (published_object s true) \/
                (s, false) ∈ h /\ j = JObj (published_object s false)
  | _ => True
  end.

Lemma receive_in_step h message pg : history_facts h -> drawn h message -> in_step h pg ->
  in_step h (receive_message message pg).
Proof.
  intros Hh Hd Hpg. destruct message as [sid|j|eventId]; cbn [receive_message].
  - unfold applyNativeSurfaceStop. destruct (json_string sid) as [text|]; [|by destruct pg].
    destruct (same_text _ text) eqn:Et; [done|by destruct pg].
  - destruct Hd as (s & [[[i Hin] ->]|[Hin ->]]).
    + by eapply receive_full_in_step.
    + by apply receive_delta_in_step.
  - by apply receive_event_in_step.
Qed.

(** C7: The page never mixes commits in what it renders.  The sessions of the history
    have an id and a fingerprint, and a commit that only moves the traveller is
    published as a delta, any other in full; the page starts with nothing.  Whatever
    snapshots of these commits reach it, lost, late, doubled or out of order, among any
    stops and events, it shows nothing, or one committed session: its model has every
    field of that session's full snapshot and no other, and its store the session's
    id, revision, fingerprint, kind and status and the fields of [RENDERED] the
    snapshot has (mode, route, selection intent, progress, off-route, weak GPS,
    coasting, speed limit, itinerary, replan options, transit progress, connectivity).
    A full snapshot of the last commit always brings it up to date.  The remaining
    fields of the store are not claimed: the confidence and the permission mode, which
    the page takes over only when it knows the value, may be those of an earlier
    commit. *)
Theorem the_page_shows_only_what_was_committed h pg messages :
  history h -> pg_model pg = None -> ns_nativeSessionId (pg_store pg) = None -> Forall (drawn h) messages ->
  let pg' := foldl (fun pg message => receive_message message pg) pg messages in
  in_step h pg' /\
  forall s i, last h = Some (s, i) ->
    let now := receive_message (SnapshotUpdate (JObj (published_object s true))) pg' in
    exists m, pg_model now = Some m /\ shows m s /\ renders (pg_store now) s.
Proof.
  intros Hhist Hm Hid Hall. pose proof (history_holds h Hhist) as Hh. cbv zeta.
  assert (forall messages pg, Forall (drawn h) messages -> in_step h pg ->
    in_step h (foldl (fun pg message => receive_message message pg) pg messages)) as Hrun.
  { intros l. induction l as [|message rest IH]; intros pg0 Hd Hpg; [exact Hpg|]. cbn.
    apply Forall_cons in Hd as [Hd Hrest]. apply IH; [done|]. by apply receive_in_step. }
  assert (in_step h (foldl (fun pg message => receive_message message pg) pg messages)) as Hpg.
  { apply Hrun; [done|]. unfold in_step. by rewrite Hm. }
  split; [exact Hpg|]. generalize dependent (foldl (fun pg message => receive_message message pg) pg messages).
  clear pg Hm Hid Hall Hrun messages. intros pg Hpg s i Hlast. cbn [receive_message].
  assert ((s, i) ∈ h) as Hin by (apply last_Some in Hlast as [l ->]; apply elem_of_app; right; left).
  pose proof (receive_full_in_step h s i pg Hh Hin Hpg) as Hstep.
  pose proof (proj1 (Forall_forall _ _) (hist_identified _ Hh) _ Hin) as Hs. cbn in Hs.
  revert Hstep. unfold receive_snapshot. rewrite envelope_of_published by done.
  destruct (applyNativeSnapshot _ _) as [[m changed]|refusal] eqn:Ea.
  - pose proof (full_snapshot_shows _ _ _ _ Hs Ea) as Hm. cbn [env_type].
    destruct (applyNativeFullSnapshot _ _) as [applied store] eqn:Ef.
    assert (applied <> NeedsFullSnapshot) as Hne.
    { revert Ef. unfold applyNativeFullSnapshot. by destruct (_ && _); intros [= <- _]. }
    intros Hstep. assert (in_step h {| pg_model := Some m; pg_store := store; pg_asked := pg_asked pg |}) as Hnow
      by by destruct applied.
    exists m. destruct Hnow as (s' & i' & Hin' & Hm' & Hr'). cbn in Hr'.
    assert (s = s') as <-.
    { eapply (shows_unique h m m s i s' i'); try done. rewrite (shows_revision _ _ Hm), num_of_Z_eq.
      apply Z.eqb_refl. }
    by destruct applied.
  - exfalso. revert Ea. unfold applyNativeSnapshot.
    cbn [env_type env_sessionId env_kind env_revision]. cbv zeta. case_match eqn:E; [|done]. intros _.
    unfold in_step in Hpg. destruct (pg_model pg) as [m|]; [|done].
    destruct Hpg as (s' & i' & Hin' & Hm & _). apply andb_true_iff in E as [[_ E1]%andb_true_iff E2].
    apply String.eqb_eq in E1. rewrite (shows_id _ _ Hm) in E1. rewrite (shows_revision _ _ Hm), num_of_Z_lt in E2.
    pose proof (proj1 (Forall_forall _ _) (hist_latest _ Hh _ Hlast) _ Hin' E1). cbn in *. lia.
Qed.

(** A delta that does not follow the shown revision moves nothing: the page asks for
    the whole snapshot.  So every delta after a throttled one is refused. *)
Lemma a_gap_is_refused pg m s s' : pg_model pg = Some m -> shows m s -> identified s -> identified s' ->
  sessionId s' = sessionId s -> fingerprint_of s' = fingerprint_of s -> revision s + 1 < revision s' ->
  receive_message (SnapshotUpdate (JObj (published_object s' false))) pg = ask RequestSnapshot pg.
Proof.
  intros Hpg [Hid Hrev Hfp _ _] (_ & _ & Hr) Hs' Eid Efp Hgap. cbn [receive_message]. unfold receive_snapshot.
  rewrite envelope_of_published by done. rewrite Hpg. unfold applyNativeSnapshot.
  cbn [env_type env_sessionId env_fingerprint env_revision].
  rewrite Hid, Hfp, Hrev, Eid, Efp, !String.eqb_refl, num_of_Z_le, num_succ by exact Hr. cbn [negb].
  rewrite (proj2 (Z.leb_gt _ _)), (proj2 (Z.eqb_neq _ _)) by lia. done.
Qed.
End page.
