(* ===== verification/PageShell.v ===== *)
(** * The shell's batches, as the page sees them

    The processors' batches only move the traveller, which is what lets the page fold
    their deltas; and the witnesses of [PageFacts] and [Publish]. *)

From S2P Require Import Prelude Text Doubles NumberText Protocol Cues RouteMatcher Session Snapshot Itinerary Samples Database Repository RepositoryFacts Reroute Processor Guidance TransitEngine TransitSession Engine Ground TransitBatch TransitProcessor Coordinator SampleWorld Publish PageModel PageFacts.

Section transit.
Context `{MathFunctions} `{Turf} `{DateParser} `{Catalogue} `{Intl}.

Lemma refresh_turn_progress sid net st arrived nowMs p :
  p_progress (refresh_turn sid net st arrived nowMs p).1 = p_progress p /\
  p_startPackage (refresh_turn sid net st arrived nowMs p).1 = p_startPackage p /\
  p_scheduledAlerts (refresh_turn sid net st arrived nowMs p).1 = p_scheduledAlerts p.
Proof. unfold refresh_turn. repeat case_match; done. Qed.

(** A batch of the transit processor leaves the package, the language and the permission
    alone, and always has a progress to show. *)
Lemma transit_batch_moves c s p fixes nowMs m c' : payload s = TransitSession p ->
  transit_processFixes c s p fixes nowMs = Ok (m, c') -> moves s (mut_session m).
Proof.
  intros Hp (out & q & (prepared & _ & (run & progress & walk & _ & _ & _ & ->)%batch_over_ok)%process_batch_ok
             & Hq & ->)%process_fixes_ok.
  injection Hq as <-. cbn [mut_session]. repeat split. cbn [payload set_payload]. rewrite Hp.
  match goal with |- context [refresh_turn ?a ?b ?c ?d ?e ?f] =>
    destruct (refresh_turn_progress a b c d e f) as (H1' & H2' & H3') end.
  rewrite H1', H2', H3'. by repeat split.
Qed.
End transit.

Section ground.
Context `{GuidanceEngine} `{Catalogue} `{Intl}.

(** So does a batch of the ground processor. *)
Lemma ground_batch_moves c s p fixes nowMs : payload s = GroundSession p ->
  moves s (mut_session (ground_processFixes c s p fixes nowMs).1).
Proof.
  intros Hp. unfold ground_processFixes, processGroundBatch. destruct (matcherFor _ _ _) as [matcher c'].
  destruct (_ || _); cbn [fst]; [|unfold with_reroute_request]; cbn; repeat split; rewrite Hp; done.
Qed.
End ground.

(** A failed answer to a reroute changes the reroute runtime only. *)
Lemma failed_reroute_moves s p code nowMs jitter01 : payload s = GroundSession p ->
  moves s (mut_session (reroute_failed s p code nowMs jitter01)).
Proof. intros Hp. repeat split. by rewrite Hp. Qed.

(** ** Witnesses *)

#[local] Instance blank_values : SnapshotValues :=
  {| value_of_route := fun _ => JNull; value_of_reroute := fun r => JNum (num_of_Z (rr_attempts r));
     value_of_captures := fun _ => JNull; value_of_ground_settings := fun _ => JNull;
     value_of_transit_settings := fun _ => JNull |}.

Definition shown_first : MobileNavigationSession := sample_ground 1 Active.

Definition shown_next : MobileNavigationSession :=
  set_payload (GroundSession (with_reroute (onRerouteFailed sample_reroute "offline" 2000 (QArith_base.Qmake 1 2))
                                sample_ground_payload)) (advance 2000 shown_first).

Definition blank_store : NavigationState :=
  {| ns_nativeAuthority := true; ns_status := Idle; ns_kind := Ground; ns_nativeSessionId := None;
     ns_nativeRevision := None; ns_nativeRouteFingerprint := None; ns_nativeEventIds := []; ns_fields := INITIAL |}.

Definition opened : Page := {| pg_model := None; pg_store := blank_store; pg_asked := [] |}.

Definition first_in_full : ShellMessage := SnapshotUpdate (JObj (published_object shown_first true)).
Definition next_as_delta : ShellMessage := SnapshotUpdate (JObj (published_object shown_next false)).

(** A delta before anything, the whole, the delta twice: the page shows the second
    revision, and has asked once. *)
Lemma the_page_shows_only_what_was_committed_witness :
  let h := [(shown_first, true); (shown_next, false)] in
  let pg := foldl (fun pg message => receive_message message pg) opened
              [next_as_delta; first_in_full; next_as_delta; next_as_delta] in
  history h /\ in_step h pg /\ pg_asked pg = [RequestSnapshot] /\ ns_nativeRevision (pg_store pg) = Some (num_of_Z 2).
Proof.
  intros h pg. assert (identified shown_first) as H1 by (vm_compute; repeat split; discriminate).
  assert (identified shown_next) as H2 by (vm_compute; repeat split; discriminate).
  assert (history h) as Hh.
  { apply (history_moves [] shown_first true shown_next); [|exact H2|by repeat split].
    apply (history_begins [] shown_first); [constructor|exact H1|constructor]. }
  split; [exact Hh|]. split; [|split; vm_compute; reflexivity].
  refine (proj1 (the_page_shows_only_what_was_committed h opened _ Hh eq_refl eq_refl _)).
  assert (drawn h first_in_full) as Hf by (exists shown_first; left; split; [exists true; left|reflexivity]).
  assert (drawn h next_as_delta) as Hn by (exists shown_next; right; split; [right; left|reflexivity]).
  repeat apply Forall_cons_2; try exact Hf; try exact Hn. apply Forall_nil_2.
Defined.

(** ** Publishing *)

#[local] Instance open_page : PublishPortDeps :=
  {| publish_now := fun n => 200 * Z.of_nat n; can_receive := fun _ => true |}.

Definition publishing_world : PublishWorld :=
  {| pw_db := (writeActive shown_first empty_db).2; pw_publisher := fresh_publisher; pw_sent := []; pw_readings := 0 |}.

(** Four batches in less than two seconds: two deltas go out. *)
Definition four_batches : list publish_op := [PubSnapshot false; PubSnapshot false; PubSnapshot false; PubSnapshot false].

Lemma ordinary_progress_is_throttled_witness :
  let w := publish_life four_batches publishing_world in
  map fst (pw_sent w) = [200; 1200] /\ spaced_out (pw_sent w).
Proof.
  cbv zeta. split; [vm_compute; reflexivity|].
  apply ordinary_progress_is_throttled; [|reflexivity|reflexivity]. intros n. cbn [publish_now open_page]. lia.
Defined.
