(* ===== verification/Words.v ===== *)
(** * The 32-bit operators of JavaScript

    The bitwise operators take the signed 32-bit value of their operands and give a
    signed 32-bit value, [>>>] an unsigned one.  The lemmas relate them to the words of
    the unsigned view, which is where the code that uses them is specified. *)

From S2P Require Import Prelude.
Local Open Scope Z_scope.

Definition js_and (a b : Z) : Z := Z.land (to_int32 a) (to_int32 b).
Definition js_or (a b : Z) : Z := Z.lor (to_int32 a) (to_int32 b).
Definition js_xor (a b : Z) : Z := Z.lxor (to_int32 a) (to_int32 b).
Definition js_not (a : Z) : Z := Z.lnot (to_int32 a).
(** [a << n], [a >> n] and [a >>> n], for [0 <= n < 32]. *)
Definition js_shl (a n : Z) : Z := to_int32 (Z.shiftl (to_int32 a) n).
Definition js_shr (a n : Z) : Z := Z.shiftr (to_int32 a) n.
Definition js_ushr (a n : Z) : Z := Z.shiftr (to_uint32 a) n.

(** A 32-bit word. *)
Definition is_word (z : Z) : Prop := 0 <= z < 2 ^ 32.

Lemma to_uint32_word z : is_word (to_uint32 z).
Proof. apply Z.mod_pos_bound. lia. Qed.

Lemma to_uint32_id z : is_word z -> to_uint32 z = z.
Proof. apply Z.mod_small. Qed.

Lemma to_uint32_int32 z : to_uint32 (to_int32 z) = to_uint32 z.
Proof.
  unfold to_uint32, to_int32. rewrite Zminus_mod_idemp_l. f_equal. lia.
Qed.

Lemma to_int32_id z : - 2 ^ 31 <= z < 2 ^ 31 -> to_int32 z = z.
Proof. intros ?. unfold to_int32. rewrite Z.mod_small; lia. Qed.

(** Numbers with the same word: what an addition modulo 2^32 can see. *)
Inductive same_word (a b : Z) : Prop := SameWord (H : to_uint32 a = to_uint32 b).

Lemma same_word_eq a b : same_word a b -> to_uint32 a = to_uint32 b.
Proof. by intros []. Qed.

#[export] Instance same_word_equivalence : Equivalence same_word.
Proof.
  split.
  - by constructor.
  - intros a b []. by constructor.
  - intros a b c [] []. constructor. congruence.
Qed.

#[export] Instance same_word_add : Proper (same_word ==> same_word ==> same_word) Z.add.
Proof.
  intros a a' [Ha] b b' [Hb]. constructor. unfold to_uint32 in *.
  rewrite Zplus_mod, Ha, Hb. symmetry. apply Zplus_mod.
Qed.

#[export] Instance same_word_to_uint32 : Proper (same_word ==> eq) to_uint32.
Proof. by intros a b []. Qed.

Lemma same_word_uint32 a : same_word (to_uint32 a) a.
Proof. constructor. apply Z.mod_mod. lia. Qed.

Lemma to_uint32_add_l a b : to_uint32 (to_uint32 a + b) = to_uint32 (a + b).
Proof. apply same_word_eq. by rewrite (same_word_uint32 a). Qed.

Lemma word_of_same a w : to_uint32 a = w -> same_word a w.
Proof. intros <-. symmetry. apply same_word_uint32. Qed.

(** The bits of a word are the low bits of the number. *)
Lemma to_uint32_bits z i : 0 <= i ->
  Z.testbit (to_uint32 z) i = Z.testbit z i && (i <? 32).
Proof.
  intros ?. unfold to_uint32. destruct (Z.ltb_spec i 32).
  - by rewrite Z.mod_pow2_bits_low, andb_true_r by lia.
  - by rewrite Z.mod_pow2_bits_high, andb_false_r by lia.
Qed.

Lemma to_uint32_land a b : to_uint32 (Z.land a b) = Z.land (to_uint32 a) (to_uint32 b).
Proof.
  apply Z.bits_inj'. intros i ?. rewrite Z.land_spec, !to_uint32_bits, Z.land_spec by done.
  by destruct (Z.testbit a i), (Z.testbit b i), (i <? 32).
Qed.

Lemma to_uint32_lor a b : to_uint32 (Z.lor a b) = Z.lor (to_uint32 a) (to_uint32 b).
Proof.
  apply Z.bits_inj'. intros i ?. rewrite Z.lor_spec, !to_uint32_bits, Z.lor_spec by done.
  by destruct (Z.testbit a i), (Z.testbit b i), (i <? 32).
Qed.

Lemma to_uint32_lxor a b : to_uint32 (Z.lxor a b) = Z.lxor (to_uint32 a) (to_uint32 b).
Proof.
  apply Z.bits_inj'. intros i ?. rewrite Z.lxor_spec, !to_uint32_bits, Z.lxor_spec by done.
  by destruct (Z.testbit a i), (Z.testbit b i), (i <? 32).
Qed.

Lemma to_uint32_not a : to_uint32 (Z.lnot a) = 2 ^ 32 - 1 - to_uint32 a.
Proof.
  unfold to_uint32, Z.lnot. symmetry. apply Z.mod_unique with (q := - (a / 2 ^ 32) - 1).
  - left. pose proof (Z.mod_pos_bound a (2 ^ 32)). lia.
  - pose proof (Z.div_mod a (2 ^ 32)). lia.
Qed.

Lemma js_and_word a b : to_uint32 (js_and a b) = Z.land (to_uint32 a) (to_uint32 b).
Proof. unfold js_and. by rewrite to_uint32_land, !to_uint32_int32. Qed.

Lemma js_or_word a b : to_uint32 (js_or a b) = Z.lor (to_uint32 a) (to_uint32 b).
Proof. unfold js_or. by rewrite to_uint32_lor, !to_uint32_int32. Qed.

Lemma js_xor_word a b : to_uint32 (js_xor a b) = Z.lxor (to_uint32 a) (to_uint32 b).
Proof. unfold js_xor. by rewrite to_uint32_lxor, !to_uint32_int32. Qed.

Lemma js_not_word a : to_uint32 (js_not a) = 2 ^ 32 - 1 - to_uint32 a.
Proof. unfold js_not. by rewrite to_uint32_not, to_uint32_int32. Qed.

Lemma js_ushr_word a n : 0 <= n -> to_uint32 (js_ushr a n) = Z.shiftr (to_uint32 a) n.
Proof.
  intros ?. apply to_uint32_id. unfold js_ushr, is_word. rewrite Z.shiftr_div_pow2 by done.
  pose proof (to_uint32_word a) as [? ?].
  split; [apply Z.div_pos; lia|]. apply Z.div_lt_upper_bound; [lia|].
  pose proof (Z.pow_pos_nonneg 2 n). nia.
Qed.

Lemma js_shl_word a n : 0 <= n -> to_uint32 (js_shl a n) = to_uint32 (Z.shiftl (to_uint32 a) n).
Proof.
  intros ?. unfold js_shl. rewrite to_uint32_int32, !Z.shiftl_mul_pow2 by done.
  rewrite <-(to_uint32_int32 a). unfold to_uint32. by rewrite Zmult_mod_idemp_l.
Qed.

#[export] Hint Rewrite js_and_word js_or_word js_xor_word js_not_word : words.
#[export] Hint Rewrite js_ushr_word js_shl_word using lia : words.
