(* ===== verification/Sha256.v ===== *)
(** * The digest of a downloaded archive

    apps/web/src/lib/offlineAreas/sha256.ts: an incremental SHA-256 over 32-bit
    JavaScript arithmetic, against the definition of the standard (FIPS 180-4).

    A typed array is the list of its elements.  Sums of words stay far below 2^53 and
    the count of bytes is exact up to 2^53, so numbers are [Z]. *)

From S2P Require Import Prelude Text Words.
From Stdlib Require Import Ascii.
Local Open Scope Z_scope.

Definition is_byte (z : Z) : Prop := 0 <= z < 256.

(** ** The code *)

Definition ROUND_CONSTANTS : list Z :=
  [1116352408; 1899447441; 3049323471; 3921009573; 961987163; 1508970993;
   2453635748; 2870763221; 3624381080; 310598401; 607225278; 1426881987;
   1925078388; 2162078206; 2614888103; 3248222580; 3835390401; 4022224774;
   264347078; 604807628; 770255983; 1249150122; 1555081692; 1996064986;
   2554220882; 2821834349; 2952996808; 3210313671; 3336571891; 3584528711;
   113926993; 338241895; 666307205; 773529912; 1294757372; 1396182291;
   1695183700; 1986661051; 2177026350; 2456956037; 2730485921; 2820302411;
   3259730800; 3345764771; 3516065817; 3600352804; 4094571909; 275423344;
   430227734; 506948616; 659060556; 883997877; 958139571; 1322822218;
   1537002063; 1747873779; 1955562222; 2024104815; 2227730452; 2361852424;
   2428436474; 2756734187; 3204031479; 3329325298].

Definition rotateRight (value amount : Z) : Z := js_or (js_ushr value amount) (js_shl value (32 - amount)).

Record Sha256 := {
  sha_state : list Z;
  sha_block : list Z;
  sha_blockLength : Z;
  sha_bytesHashed : Z;
}.

Definition new_Sha256 : Sha256 := {|
  sha_state := [1779033703; 3144134277; 1013904242; 2773480762; 1359893119; 2600822924; 528734635; 1541459225];
  sha_block := replicate 64 0;
  sha_blockLength := 0;
  sha_bytesHashed := 0;
|}.

(** [view.getUint32(offset)], big-endian. *)
Definition getUint32 (block : list Z) (offset : nat) : Z :=
  ((block !!! offset * 256 + block !!! (offset + 1)%nat) * 256 + block !!! (offset + 2)%nat) * 256
  + block !!! (offset + 3)%nat.

(** The two loops that fill [words]. *)
Definition load_words (block : list Z) : list Z :=
  foldl (fun words index => <[index := getUint32 block (index * 4)]> words) (replicate 64 0) (seq 0 16).

Definition extend_words (words : list Z) (index : nat) : list Z :=
  let s0 := js_xor (js_xor (rotateRight (words !!! (index - 15)%nat) 7) (rotateRight (words !!! (index - 15)%nat) 18))
                   (js_ushr (words !!! (index - 15)%nat) 3) in
  let s1 := js_xor (js_xor (rotateRight (words !!! (index - 2)%nat) 17) (rotateRight (words !!! (index - 2)%nat) 19))
                   (js_ushr (words !!! (index - 2)%nat) 10) in
  <[index := to_uint32 (words !!! (index - 16)%nat + s0 + words !!! (index - 7)%nat + s1)]> words.

(** The eight variables [a] to [h]. *)
Definition Vars : Type := Z * Z * Z * Z * Z * Z * Z * Z.

Definition sha_round (words : list Z) (v : Vars) (index : nat) : Vars :=
  let '(a, b, c, d, e, f, g, h) := v in
  let sigma1 := js_xor (js_xor (rotateRight e 6) (rotateRight e 11)) (rotateRight e 25) in
  let choice := js_xor (js_and e f) (js_and (js_not e) g) in
  let temp1 := to_uint32 (h + sigma1 + choice + ROUND_CONSTANTS !!! index + words !!! index) in
  let sigma0 := js_xor (js_xor (rotateRight a 2) (rotateRight a 13)) (rotateRight a 22) in
  let majority := js_xor (js_xor (js_and a b) (js_and a c)) (js_and b c) in
  let temp2 := to_uint32 (sigma0 + majority) in
  (to_uint32 (temp1 + temp2), a, b, c, to_uint32 (d + temp1), e, f, g).

Definition vars_of (state : list Z) : Vars :=
  (state !!! 0%nat, state !!! 1%nat, state !!! 2%nat, state !!! 3%nat,
   state !!! 4%nat, state !!! 5%nat, state !!! 6%nat, state !!! 7%nat).

Definition list_of (v : Vars) : list Z :=
  let '(a, b, c, d, e, f, g, h) := v in [a; b; c; d; e; f; g; h].

(** [transform(block)], as the state it leaves. *)
Definition transform (state block : list Z) : list Z :=
  let words := foldl extend_words (load_words block) (seq 16 48) in
  zip_with (fun x y => to_uint32 (x + y)) state
    (list_of (foldl (sha_round words) (vars_of state) (seq 0 64))).

(** One turn of the loop of [update], at an offset before the end. *)
Definition update_turn (data : list Z) (offset : Z) (h : Sha256) : Sha256 * Z :=
  let length := Z.min (64 - sha_blockLength h) (Z.of_nat (length data) - offset) in
  let block := list_inserts (Z.to_nat (sha_blockLength h))
                 (take (Z.to_nat length) (drop (Z.to_nat offset) data)) (sha_block h) in
  let blockLength := sha_blockLength h + length in
  ({| sha_state := if blockLength =? 64 then transform (sha_state h) block else sha_state h;
      sha_block := block;
      sha_blockLength := if blockLength =? 64 then 0 else blockLength;
      sha_bytesHashed := sha_bytesHashed h |}, offset + length).

(** A turn takes a byte at least, so there are no more turns than bytes. *)
Fixpoint update_loop (fuel : nat) (data : list Z) (offset : Z) (h : Sha256) : Sha256 :=
  match fuel with
  | O => h
  | S fuel =>
      if offset <? Z.of_nat (length data) then
        let '(h, offset) := update_turn data offset h in update_loop fuel data offset h
      else h
  end.

Definition sha_update (data : list Z) (h : Sha256) : Sha256 :=
  update_loop (S (length data)) data 0
    {| sha_state := sha_state h; sha_block := sha_block h; sha_blockLength := sha_blockLength h;
       sha_bytesHashed := sha_bytesHashed h + Z.of_nat (length data) |}.

(** [while (clone.blockLength !== 56) clone.update(Uint8Array.of(0))]; 64 turns are
    enough. *)
Fixpoint pad_loop (fuel : nat) (h : Sha256) : Sha256 :=
  match fuel with
  | O => h
  | S fuel => if sha_blockLength h =? 56 then h else pad_loop fuel (sha_update [0] h)
  end.

(** The loop from index 7 down to 0 over the eight length bytes. *)
Fixpoint length_loop (count : nat) (remaining : Z) (bytes : list Z) : list Z :=
  match count with
  | O => bytes
  | S index => length_loop index (remaining / 256) (<[index := remaining mod 256]> bytes)
  end.

Definition hex_digit (d : Z) : string :=
  String (Ascii.ascii_of_nat (Z.to_nat (if d <? 10 then 48 + d else 87 + d))) EmptyString.

(** [value.toString(16)] of a natural number. *)
Fixpoint hex_digits (fuel : nat) (n : Z) (acc : string) : string :=
  match fuel with
  | O => acc
  | S fuel =>
      let acc := (hex_digit (n mod 16) ++ acc)%string in
      if n / 16 =? 0 then acc else hex_digits fuel (n / 16) acc
  end.

Definition toString16 (n : Z) : string := hex_digits (S (Z.to_nat (Z.log2 n))) n "".

(** [s.padStart(length, "0")]. *)
Fixpoint zeroes (k : nat) : string :=
  match k with O => EmptyString | S k => String "0"%char (zeroes k) end.
Definition padStart0 (length : nat) (s : string) : string := (zeroes (length - String.length s) ++ s)%string.

Definition hex_word (value : Z) : string := padStart0 8 (toString16 value).

Definition digest_state (h : Sha256) : list Z :=
  let bitLength := sha_bytesHashed h * 8 in
  let clone := pad_loop 64 (sha_update [128] h) in
  sha_state (sha_update (length_loop 8 bitLength (replicate 8 0)) clone).

Definition digestHex (h : Sha256) : string := String.concat "" (map hex_word (digest_state h)).

(** ** The standard *)

Module FIPS.

Definition add (x y : Z) : Z := (x + y) mod 2 ^ 32.
Definition ROTR (n x : Z) : Z := x / 2 ^ n + (x mod 2 ^ n) * 2 ^ (32 - n).
Definition SHR (n x : Z) : Z := x / 2 ^ n.
Definition Ch (x y z : Z) : Z := Z.lxor (Z.land x y) (Z.land (2 ^ 32 - 1 - x) z).
Definition Maj (x y z : Z) : Z := Z.lxor (Z.lxor (Z.land x y) (Z.land x z)) (Z.land y z).
Definition big_sigma0 (x : Z) : Z := Z.lxor (Z.lxor (ROTR 2 x) (ROTR 13 x)) (ROTR 22 x).
Definition big_sigma1 (x : Z) : Z := Z.lxor (Z.lxor (ROTR 6 x) (ROTR 11 x)) (ROTR 25 x).
Definition small_sigma0 (x : Z) : Z := Z.lxor (Z.lxor (ROTR 7 x) (ROTR 18 x)) (SHR 3 x).
Definition small_sigma1 (x : Z) : Z := Z.lxor (Z.lxor (ROTR 17 x) (ROTR 19 x)) (SHR 10 x).

Definition is_prime (n : Z) : bool :=
  forallb (fun d => negb (n mod d =? 0)) (seqZ 2 (n - 2)).

(** The first 64 primes; the last is 311. *)
Definition primes : list Z := List.filter is_prime (seqZ 2 310).

(** The largest [r] with [r ^ 3 <= n], among numbers below [2 ^ bits]. *)
Fixpoint cube_root (bits : nat) (r n : Z) : Z :=
  match bits with
  | O => r
  | S k => let r' := r + 2 ^ Z.of_nat k in cube_root k (if r' * r' * r' <=? n then r' else r) n
  end.

(** The first 32 bits of the fractional parts of the cube roots of the first 64 primes
    and of the square roots of the first eight. *)
Definition K : list Z := map (fun p => cube_root 40 0 (p * 2 ^ 96) mod 2 ^ 32) primes.
Definition H0 : list Z := map (fun p => Z.sqrt (p * 2 ^ 64) mod 2 ^ 32) (take 8 primes).

(** The message, a one bit, as few zero bits as possible, and the length in 64 bits. *)
Definition big_endian (n : nat) (x : Z) : list Z :=
  map (fun i => x / 256 ^ Z.of_nat i mod 256) (rev (seq 0 n)).
Definition padded (m : list Z) : list Z :=
  m ++ [128] ++ replicate (Z.to_nat ((55 - Z.of_nat (length m)) mod 64)) 0
  ++ big_endian 8 (8 * Z.of_nat (length m)).

Definition blocks (m : list Z) : list (list Z) := chunks (length m) 64 m.

Definition word (bytes : list Z) : Z := foldl (fun w b => w * 256 + b) 0 bytes.

(** The message schedule. *)
Definition schedule_step (W : list Z) : list Z :=
  let t := length W in
  W ++ [add (add (add (small_sigma1 (W !!! (t - 2)%nat)) (W !!! (t - 7)%nat)) (small_sigma0 (W !!! (t - 15)%nat)))
            (W !!! (t - 16)%nat)].
Definition schedule (block : list Z) : list Z :=
  Nat.iter 48 schedule_step (map word (chunks (length block) 4 block)).

Definition round (W : list Z) (v : Vars) (t : nat) : Vars :=
  let '(a, b, c, d, e, f, g, h) := v in
  let T1 := add (add (add (add h (big_sigma1 e)) (Ch e f g)) (K !!! t)) (W !!! t) in
  let T2 := add (big_sigma0 a) (Maj a b c) in
  (add T1 T2, a, b, c, add d T1, e, f, g).

Definition compress (H block : list Z) : list Z :=
  zip_with add H (list_of (foldl (round (schedule block)) (vars_of H) (seq 0 64))).

Definition hash (m : list Z) : list Z := foldl compress H0 (blocks (padded m)).

(** Eight digits a word. *)
Definition hash_hex (m : list Z) : string :=
  String.concat "" (map (fun w =>
    String.concat "" (map (fun k => hex_digit (w / 16 ^ Z.of_nat k mod 16)) (rev (seq 0 8)))) (hash m)).

End FIPS.

(** ** The arithmetic is the standard's *)

Lemma constants_are_standard : ROUND_CONSTANTS = FIPS.K /\ sha_state new_Sha256 = FIPS.H0.
Proof. split; vm_compute; reflexivity. Qed.

Lemma rotateRight_word v n : is_word v -> 0 < n < 32 -> to_uint32 (rotateRight v n) = FIPS.ROTR n v.
Proof.
  intros Hv Hn. unfold rotateRight. autorewrite with words. rewrite !(to_uint32_id v) by done.
  unfold FIPS.ROTR. rewrite Z.shiftr_div_pow2 by lia.
  replace (to_uint32 (Z.shiftl v (32 - n))) with (Z.shiftl (v mod 2 ^ n) (32 - n)).
  - rewrite Z.lor_comm, lor_disjoint, Z.add_comm; [done|lia|]. destruct Hv as [? Hv]. split; [apply Z.div_pos; lia|].
    apply Z.div_lt_upper_bound; [lia|]. rewrite <-Z.pow_add_r by lia. by replace (n + (32 - n)) with 32 by lia.
  - unfold to_uint32. rewrite !Z.shiftl_mul_pow2 by lia.
    replace (2 ^ 32) with (2 ^ n * 2 ^ (32 - n)) by (rewrite <-Z.pow_add_r by lia; f_equal; lia).
    rewrite Z.mul_mod_distr_r; lia.
Qed.

Lemma ushr_word v n : is_word v -> 0 < n < 32 -> to_uint32 (js_ushr v n) = FIPS.SHR n v.
Proof.
  intros Hv Hn. rewrite js_ushr_word, to_uint32_id by (done || lia). by rewrite Z.shiftr_div_pow2 by lia.
Qed.

(** The expressions of the code, word by word. *)
Ltac by_words := repeat first
  [ rewrite rotateRight_word by (done || lia) | rewrite ushr_word by (done || lia)
  | rewrite js_xor_word | rewrite js_and_word | rewrite js_not_word
  | rewrite to_uint32_id by done ]; reflexivity.

Lemma sigma1_standard e : is_word e ->
  same_word (js_xor (js_xor (rotateRight e 6) (rotateRight e 11)) (rotateRight e 25)) (FIPS.big_sigma1 e).
Proof. intros ?. apply word_of_same. by_words. Qed.

Lemma sigma0_standard a : is_word a ->
  same_word (js_xor (js_xor (rotateRight a 2) (rotateRight a 13)) (rotateRight a 22)) (FIPS.big_sigma0 a).
Proof. intros ?. apply word_of_same. by_words. Qed.

Lemma choice_standard e f g : is_word e -> is_word f -> is_word g ->
  same_word (js_xor (js_and e f) (js_and (js_not e) g)) (FIPS.Ch e f g).
Proof. intros ???. apply word_of_same. by_words. Qed.

Lemma majority_standard a b c : is_word a -> is_word b -> is_word c ->
  same_word (js_xor (js_xor (js_and a b) (js_and a c)) (js_and b c)) (FIPS.Maj a b c).
Proof. intros ???. apply word_of_same. by_words. Qed.

Lemma s0_standard x : is_word x ->
  same_word (js_xor (js_xor (rotateRight x 7) (rotateRight x 18)) (js_ushr x 3)) (FIPS.small_sigma0 x).
Proof. intros ?. apply word_of_same. by_words. Qed.

Lemma s1_standard x : is_word x ->
  same_word (js_xor (js_xor (rotateRight x 17) (rotateRight x 19)) (js_ushr x 10)) (FIPS.small_sigma1 x).
Proof. intros ?. apply word_of_same. by_words. Qed.

Lemma add_is_word a b : FIPS.add a b = to_uint32 (a + b).
Proof. done. Qed.

Definition vars_words (v : Vars) : Prop := Forall is_word (list_of v).

Lemma sha_round_standard words W v t : vars_words v -> words !!! t = W !!! t ->
  sha_round words v t = FIPS.round W v t /\ vars_words (sha_round words v t).
Proof.
  destruct v as [[[[[[[a b] c] d] e] f] g] h]. unfold vars_words. cbn [list_of sha_round FIPS.round].
  intros Hv Hw. rewrite !Forall_cons in Hv. destruct_and! Hv. rewrite (proj1 constants_are_standard), Hw.
  split; [|rewrite !Forall_cons; split_and!; try done; apply to_uint32_word].
  assert (HT1 : forall h k w, to_uint32 (h + js_xor (js_xor (rotateRight e 6) (rotateRight e 11)) (rotateRight e 25)
                  + js_xor (js_and e f) (js_and (js_not e) g) + k + w)
                = FIPS.add (FIPS.add (FIPS.add (FIPS.add h (FIPS.big_sigma1 e)) (FIPS.Ch e f g)) k) w).
  { intros. rewrite !add_is_word. apply same_word_eq. rewrite !same_word_uint32. by rewrite sigma1_standard, choice_standard. }
  assert (HT2 : to_uint32 (js_xor (js_xor (rotateRight a 2) (rotateRight a 13)) (rotateRight a 22)
                  + js_xor (js_xor (js_and a b) (js_and a c)) (js_and b c))
                = FIPS.add (FIPS.big_sigma0 a) (FIPS.Maj a b c)).
  { rewrite add_is_word. by rewrite sigma0_standard, majority_standard. }
  by rewrite HT1, HT2.
Qed.

Lemma rounds_standard words W ts v : vars_words v -> (forall t, t ∈ ts -> words !!! t = W !!! t) ->
  foldl (sha_round words) v ts = foldl (FIPS.round W) v ts /\ vars_words (foldl (sha_round words) v ts).
Proof.
  revert v. induction ts as [|t ts IH]; intros v Hv Hw; [done|]. cbn [foldl].
  destruct (sha_round_standard words W v t Hv) as [<- Hv']; [apply Hw; left|].
  apply IH; [done|]. intros k ?. apply Hw. by right.
Qed.

(** *** The message schedule *)

Lemma load_words_standard block : length block = 64%nat ->
  load_words block = map FIPS.word (chunks (length block) 4 block) ++ replicate 48 0.
Proof.
  intros H. do 64 (destruct block as [|? block]; [discriminate H|]). destruct block; [|discriminate H].
  reflexivity.
Qed.

Lemma word_bound bytes acc k : Forall is_byte bytes -> 0 <= acc < 256 ^ Z.of_nat k ->
  0 <= foldl (fun w b => w * 256 + b) acc bytes < 256 ^ Z.of_nat (k + length bytes).
Proof.
  revert acc k. induction bytes as [|b bytes IH]; intros acc k Hb Hacc; cbn [foldl length].
  - by rewrite Nat.add_0_r.
  - apply Forall_cons in Hb as [Hb ?]. unfold is_byte in Hb.
    rewrite Nat.add_succ_r. apply (IH _ (S k)); [done|]. rewrite Nat2Z.inj_succ, Z.pow_succ_r; lia.
Qed.

Lemma first_words block : length block = 64%nat -> Forall is_byte block ->
  length (map FIPS.word (chunks (length block) 4 block)) = 16%nat /\
  Forall is_word (map FIPS.word (chunks (length block) 4 block)).
Proof.
  intros H Hb. split.
  - do 64 (destruct block as [|? block]; [discriminate H|]). by destruct block.
  - apply Forall_map. eapply Forall_impl; [by apply (chunks_Forall is_byte)|]. intros c [Hc Hbytes].
    pose proof (word_bound c 0 0 Hbytes ltac:(done)) as [? Hw]. split; [done|].
    eapply Z.lt_le_trans; [exact Hw|]. change (2 ^ 32) with (256 ^ 4). apply Z.pow_le_mono_r; lia.
Qed.

Lemma lookup_total_word W t : Forall is_word W -> is_word (W !!! t).
Proof.
  intros HW. destruct (W !! t) as [w|] eqn:Hw.
  - rewrite (list_lookup_total_correct _ _ _ Hw). by eapply Forall_lookup_1.
  - rewrite list_lookup_total_alt, Hw. done.
Qed.

Lemma schedule_step_length W : length (FIPS.schedule_step W) = S (length W).
Proof. unfold FIPS.schedule_step. rewrite length_app. cbn. lia. Qed.

Lemma schedule_step_words W : Forall is_word W -> Forall is_word (FIPS.schedule_step W).
Proof. intros ?. apply Forall_app. split; [done|]. constructor; [apply to_uint32_word|constructor]. Qed.

Lemma extend_words_standard W k : (16 <= length W)%nat -> Forall is_word W ->
  extend_words (W ++ replicate (S k) 0) (length W) = FIPS.schedule_step W ++ replicate k 0.
Proof.
  intros Hn HW. unfold extend_words, FIPS.schedule_step.
  rewrite !(lookup_total_app_l W) by lia.
  rewrite insert_app_r_alt, Nat.sub_diag by lia. cbn [replicate list_insert insert].
  rewrite <-app_assoc. do 2 f_equal. cbn [app]. f_equal. rewrite !add_is_word. apply same_word_eq.
  rewrite !same_word_uint32, s0_standard, s1_standard by (by apply lookup_total_word).
  apply reflexive_eq. lia.
Qed.

Lemma schedule_prefix W n k : (16 <= length W)%nat -> Forall is_word W ->
  foldl extend_words (W ++ replicate (n + k) 0) (seq (length W) n) = Nat.iter n FIPS.schedule_step W ++ replicate k 0.
Proof.
  revert W. induction n as [|n IH]; intros W Hn HW; [done|]. cbn [seq foldl Nat.add].
  rewrite extend_words_standard by done. rewrite <-schedule_step_length.
  rewrite IH by (rewrite ?schedule_step_length; auto using schedule_step_words with lia).
  by rewrite Nat.iter_succ_r.
Qed.

Lemma schedule_standard block : length block = 64%nat -> Forall is_byte block ->
  foldl extend_words (load_words block) (seq 16 48) = FIPS.schedule block.
Proof.
  intros H Hb. rewrite load_words_standard by done. destruct (first_words block H Hb) as [Hl Hw].
  pose proof (schedule_prefix _ 48 0 ltac:(rewrite Hl; lia) Hw) as E.
  rewrite Hl in E. cbn [replicate] in E. rewrite app_nil_r in E. exact E.
Qed.

Definition words_state (state : list Z) : Prop := length state = 8%nat /\ Forall is_word state.

Lemma transform_standard state block : words_state state -> length block = 64%nat -> Forall is_byte block ->
  transform state block = FIPS.compress state block /\ words_state (transform state block).
Proof.
  intros [Hl Hw] H Hb. unfold transform, FIPS.compress. rewrite schedule_standard by done.
  destruct (rounds_standard (FIPS.schedule block) (FIPS.schedule block) (seq 0 64) (vars_of state)) as [-> _]; [|done|].
  { do 8 (destruct state as [|? state]; [discriminate Hl|]). destruct state; [|discriminate Hl]. exact Hw. }
  split; [done|]. split; [by rewrite length_zip_with, Hl; destruct (foldl _ _ _) as [[[[[[[]]]]]]]|].
  apply Forall_lookup. intros i x (? & ? & -> & _ & _)%lookup_zip_with_Some. apply to_uint32_word.
Qed.

(** ** The object keeps what it has absorbed *)

(** The whole blocks absorbed so far are in the state, the rest waits in the buffer. *)
Record absorbing (bs : list (list Z)) (rest : list Z) (h : Sha256) : Prop := {
  ab_whole : Forall (fun b => length b = 64%nat) bs;
  ab_short : (length rest < 64)%nat;
  ab_bytes : Forall is_byte rest;
  ab_state : sha_state h = foldl FIPS.compress FIPS.H0 bs;
  ab_words : words_state (sha_state h);
  ab_waiting : take (length rest) (sha_block h) = rest;
  ab_buffer : length (sha_block h) = 64%nat;
  ab_length : sha_blockLength h = Z.of_nat (length rest);
}.

Definition absorbed (m : list Z) (h : Sha256) : Prop :=
  exists bs rest, m = concat bs ++ rest /\ absorbing bs rest h.

Lemma fill_buffer (rest piece block : list Z) : take (length rest) block = rest -> length block = 64%nat ->
  (length rest + length piece <= 64)%nat ->
  list_inserts (length rest) piece block = rest ++ piece ++ drop (length rest + length piece) block.
Proof.
  intros Hrest Hl Hle. rewrite <-(take_drop (length rest) block) at 1. rewrite Hrest.
  rewrite <-(Nat.add_0_r (length rest)) at 1. rewrite list_inserts_app_r. f_equal.
  rewrite <-(take_drop (length piece) (drop (length rest) block)).
  rewrite list_inserts_0_r by (rewrite length_take, length_drop; lia). by rewrite drop_drop.
Qed.

Lemma update_turn_absorbs bs rest data offset h : absorbing bs rest h -> Forall is_byte data ->
  0 <= offset < Z.of_nat (length data) ->
  exists piece h' bs' rest', update_turn data offset h = (h', offset + Z.of_nat (length piece)) /\
    piece <> [] /\ piece = take (length piece) (drop (Z.to_nat offset) data) /\
    concat bs' ++ rest' = concat bs ++ rest ++ piece /\ absorbing bs' rest' h' /\
    sha_bytesHashed h' = sha_bytesHashed h.
Proof.
  intros [Hwhole Hshort Hbytes Hstate Hwords Hwait Hbuf Hlen] Hdata Hoff.
  set (n := Nat.min (64 - length rest) (length data - Z.to_nat offset)).
  set (piece := take n (drop (Z.to_nat offset) data)).
  assert (Hpiece : length piece = n) by (unfold piece, n; rewrite length_take, length_drop; lia).
  assert (Hpb : Forall is_byte piece) by (by apply Forall_take, Forall_drop).
  unfold update_turn. rewrite Hlen.
  replace (Z.min (64 - Z.of_nat (length rest)) (Z.of_nat (length data) - offset)) with (Z.of_nat n) by lia.
  rewrite !Nat2Z.id. fold piece.
  pose proof (fill_buffer rest piece (sha_block h) Hwait Hbuf ltac:(lia)) as Hfill. rewrite Hfill.
  exists piece. destruct (Z.eqb_spec (Z.of_nat (length rest) + Z.of_nat n) 64) as [Hfull|Hnot].
  - rewrite drop_ge, app_nil_r in * by lia.
    assert (Hl : length (rest ++ piece) = 64%nat) by (rewrite length_app; lia).
    destruct (transform_standard (sha_state h) (rest ++ piece) Hwords Hl) as [Ht Htw]; [by apply Forall_app|].
    eexists _, (bs ++ [rest ++ piece]), []. split; [by rewrite Hpiece|]. split; [intros E; rewrite E in Hpiece; cbn in Hpiece; lia|].
    split; [by rewrite Hpiece|]. split; [by rewrite concat_app; cbn; rewrite !app_nil_r|].
    split; [|done]. split; cbn [sha_state sha_block sha_blockLength length]; try done.
    + apply Forall_app. split; [done|]. by constructor.
    + lia.
    + rewrite Ht, foldl_app, <-Hstate. done.
  - eexists _, bs, (rest ++ piece). split; [by rewrite Hpiece|]. split; [intros E; rewrite E in Hpiece; cbn in Hpiece; lia|].
    split; [by rewrite Hpiece|]. split; [done|]. split; [|done].
    split; cbn [sha_state sha_block sha_blockLength]; try done; rewrite ?length_app.
    + lia.
    + by apply Forall_app.
    + rewrite app_assoc, take_app_length' by (by rewrite length_app). done.
    + rewrite length_drop, Hbuf. lia.
    + lia.
Qed.

Lemma update_loop_absorbs data fuel bs rest h offset :
  absorbing bs rest h -> Forall is_byte data -> 0 <= offset <= Z.of_nat (length data) ->
  (length data - Z.to_nat offset < fuel)%nat ->
  exists bs' rest', concat bs' ++ rest' = concat bs ++ rest ++ drop (Z.to_nat offset) data /\
    absorbing bs' rest' (update_loop fuel data offset h) /\
    sha_bytesHashed (update_loop fuel data offset h) = sha_bytesHashed h.
Proof.
  revert bs rest h offset. induction fuel as [|fuel IH]; intros bs rest h offset Ha Hdata Hoff Hfuel; [lia|].
  cbn [update_loop]. destruct (Z.ltb_spec offset (Z.of_nat (length data))) as [Hlt|Hge].
  - destruct (update_turn_absorbs bs rest data offset h Ha Hdata ltac:(lia))
      as (piece & h' & bs' & rest' & -> & Hne & Hpiece & Hcat & Ha' & Hh).
    assert (0 < length piece <= length data - Z.to_nat offset)%nat.
    { split; [by destruct piece; [|cbn; lia]|]. rewrite Hpiece, length_take, length_drop. lia. }
    destruct (IH bs' rest' h' (offset + Z.of_nat (length piece)) Ha' Hdata) as (bs2 & rest2 & Hcat2 & Ha2 & Hh2); [lia|lia|].
    exists bs2, rest2. split; [|split; [done|congruence]].
    rewrite Hcat2, app_assoc, Hcat, <-!app_assoc. do 2 f_equal.
    rewrite <-(take_drop (length piece) (drop (Z.to_nat offset) data)), <-Hpiece, drop_drop. do 2 f_equal. lia.
  - exists bs, rest. rewrite drop_ge by lia. by rewrite app_nil_r.
Qed.

(** One call of [update], whatever the split. *)
Lemma update_absorbs m data h : absorbed m h -> Forall is_byte data ->
  absorbed (m ++ data) (sha_update data h) /\
  sha_bytesHashed (sha_update data h) = sha_bytesHashed h + Z.of_nat (length data).
Proof.
  intros (bs & rest & -> & Ha) Hdata. unfold sha_update.
  destruct (update_loop_absorbs data (S (length data)) bs rest
    {| sha_state := sha_state h; sha_block := sha_block h; sha_blockLength := sha_blockLength h;
       sha_bytesHashed := sha_bytesHashed h + Z.of_nat (length data) |} 0) as (bs' & rest' & Hcat & Ha' & Hh);
    [by destruct Ha; split|done|lia|cbn; lia|].
  split; [|done]. exists bs', rest'. split; [|done]. by rewrite Hcat, <-app_assoc.
Qed.

Lemma new_absorbs : absorbed [] new_Sha256.
Proof.
  exists [], []. split; [done|]. split; try done; [cbn; lia|].
  split; [done|]. cbn. rewrite !Forall_cons. unfold is_word. split_and!; try lia. constructor.
Qed.

(** ** Padding *)

Lemma absorbed_length m h : absorbed m h -> sha_blockLength h = Z.of_nat (length m) mod 64.
Proof.
  intros (bs & rest & -> & Ha). rewrite (ab_length _ _ _ Ha). apply (Z.mod_unique _ _ (Z.of_nat (length bs))).
  - left. pose proof (ab_short _ _ _ Ha). lia.
  - rewrite length_app. destruct Ha as [Hb _ _ _ _ _ _ _].
    assert (Hl : length (concat bs) = (64 * length bs)%nat).
    { induction Hb as [|b bs Hb _ IH]; [done|]. cbn. rewrite length_app, Hb, IH. lia. }
    lia.
Qed.

(** Zeroes until the block has room for the length only. *)
Lemma pad_loop_absorbs fuel m h : absorbed m h ->
  (Z.to_nat ((56 - Z.of_nat (length m)) mod 64) < fuel)%nat ->
  absorbed (m ++ replicate (Z.to_nat ((56 - Z.of_nat (length m)) mod 64)) 0) (pad_loop fuel h).
Proof.
  revert m h. induction fuel as [|fuel IH]; intros m h Ha Hfuel; [lia|].
  cbn [pad_loop]. rewrite (absorbed_length m h Ha).
  destruct (Z.eqb_spec (Z.of_nat (length m) mod 64) 56) as [E|E].
  - replace ((56 - Z.of_nat (length m)) mod 64) with 0.
    + by rewrite app_nil_r.
    + rewrite Zminus_mod, E. done.
  - destruct (update_absorbs m [0] h Ha) as [Ha' _]; [constructor; [unfold is_byte; lia|constructor]|].
    assert (Hk : (56 - Z.of_nat (length m)) mod 64 = 1 + (56 - Z.of_nat (length (m ++ [0]))) mod 64).
    { rewrite length_app. cbn [length]. Z.div_mod_to_equations. lia. }
    rewrite Hk, Z2Nat.inj_add by (try apply Z.mod_pos_bound; lia). cbn [Z.to_nat Pos.to_nat Pos.iter_op Nat.add replicate].
    specialize (IH (m ++ [0]) _ Ha'). rewrite <-app_assoc in IH. apply IH.
    rewrite Hk in Hfuel. rewrite Z2Nat.inj_add in Hfuel by (try apply Z.mod_pos_bound; lia). lia.
Qed.

Lemma length_loop_big_endian x : length_loop 8 x (replicate 8 0) = FIPS.big_endian 8 x.
Proof.
  unfold FIPS.big_endian. cbn [seq rev app map length_loop replicate list_insert insert].
  rewrite !Z.div_div by lia. change (256 ^ Z.of_nat 0) with 1. rewrite Z.div_1_r. reflexivity.
Qed.

Lemma big_endian_bytes n x : Forall is_byte (FIPS.big_endian n x).
Proof. apply Forall_map, Forall_true. intros. apply Z.mod_pos_bound. lia. Qed.

Lemma chunks_concat bs : Forall (fun b => length b = 64%nat) bs -> FIPS.blocks (concat bs) = bs.
Proof.
  intros H. unfold FIPS.blocks.
  assert (G : forall fuel, (length (concat bs) <= fuel)%nat -> chunks fuel 64 (concat bs) = bs); [|by apply G].
  induction H as [|b bs Hb _ IH]; intros fuel Hf; [by destruct fuel|].
  cbn [concat] in *. rewrite length_app in Hf. destruct fuel as [|fuel]; [lia|].
  destruct b as [|x b]; [discriminate|]. cbn [app chunks].
  change (x :: b ++ concat bs) with ((x :: b) ++ concat bs).
  rewrite (take_app_length' (x :: b)), (drop_app_length' (x :: b)) by done.
  f_equal. apply IH. cbn in Hf, Hb. lia.
Qed.

(** A whole number of blocks leaves nothing waiting. *)
Lemma absorbed_whole m h : absorbed m h -> Z.of_nat (length m) mod 64 = 0 ->
  sha_state h = foldl FIPS.compress FIPS.H0 (FIPS.blocks m).
Proof.
  intros Ha Hm. pose proof (absorbed_length m h Ha) as Hl. destruct Ha as (bs & rest & -> & Ha).
  destruct rest as [|x rest]; [|rewrite (ab_length _ _ _ Ha), Hm in Hl; cbn in Hl; lia].
  rewrite app_nil_r, (ab_state _ _ _ Ha). by rewrite chunks_concat by apply Ha.
Qed.

Lemma digest_standard m h : absorbed m h -> Forall is_byte m -> sha_bytesHashed h = Z.of_nat (length m) ->
  digest_state h = FIPS.hash m.
Proof.
  intros Ha Hm Hn. unfold digest_state. rewrite length_loop_big_endian, Hn.
  destruct (update_absorbs m [128] h Ha) as [Ha1 _]; [constructor; [unfold is_byte; lia|constructor]|].
  pose proof (pad_loop_absorbs 64 _ _ Ha1) as Ha2. rewrite length_app in Ha2. cbn [length] in Ha2.
  replace (56 - Z.of_nat (length m + 1)) with (55 - Z.of_nat (length m)) in Ha2 by lia.
  pose proof (Z.mod_pos_bound (55 - Z.of_nat (length m)) 64 ltac:(lia)).
  destruct (update_absorbs _ (FIPS.big_endian 8 (Z.of_nat (length m) * 8)) _ (Ha2 ltac:(lia))) as [Ha3 _].
  { apply big_endian_bytes. }
  rewrite (absorbed_whole _ _ Ha3); unfold FIPS.hash, FIPS.padded.
  - by rewrite <-!app_assoc, (Z.mul_comm 8).
  - unfold FIPS.big_endian. rewrite !length_app, length_replicate, length_map, length_rev, length_seq. cbn [length].
    Z.div_mod_to_equations. lia.
Qed.

(** ** Hexadecimal digits *)

Fixpoint nibbles (k : nat) (n : Z) : string :=
  match k with
  | O => ""
  | S k => (nibbles k (n / 16) ++ hex_digit (n mod 16))%string
  end.

Lemma zeroes_snoc k : (zeroes k ++ "0" = String "0"%char (zeroes k))%string.
Proof. induction k as [|k IH]; [done|]. by apply (f_equal (String "0"%char)). Qed.

Lemma nibbles_zero k : nibbles k 0 = zeroes k.
Proof.
  induction k as [|k IH]; [done|]. etrans; [|apply zeroes_snoc]. cbn [nibbles].
  change (0 / 16) with 0. rewrite IH. done.
Qed.

Lemma hex_digit_length d : String.length (hex_digit d) = 1%nat.
Proof. done. Qed.

Lemma hex_digits_nibbles fuel k n acc : 0 <= n < 16 ^ Z.of_nat k -> n < 16 ^ Z.of_nat fuel -> (0 < k)%nat -> (0 < fuel)%nat ->
  exists d, hex_digits fuel n acc = (d ++ acc)%string /\ (String.length d <= k)%nat /\
    nibbles k n = (nibbles (k - String.length d) 0 ++ d)%string.
Proof.
  revert k n acc. induction fuel as [|fuel IH]; intros k n acc Hn Hf Hk Hfuel; [lia|].
  destruct k as [|k]; [lia|]. cbn [hex_digits nibbles].
  rewrite !Nat2Z.inj_succ, !Z.pow_succ_r in * by lia.
  destruct (Z.eqb_spec (n / 16) 0) as [E|E].
  - exists (hex_digit (n mod 16)). rewrite E, hex_digit_length, Nat.sub_succ, Nat.sub_0_r. split_and!; [done|lia|done].
  - pose proof (Z.div_pos n 16). 
    destruct (IH k (n / 16) (hex_digit (n mod 16) ++ acc)%string) as (d & -> & Hd & ->).
    + split; [lia|]. apply Z.div_lt_upper_bound; lia.
    + apply Z.div_lt_upper_bound; lia.
    + destruct k; [cbn in Hn; Z.div_mod_to_equations; lia|lia].
    + destruct fuel; [cbn in Hf; Z.div_mod_to_equations; lia|lia].
    + exists (d ++ hex_digit (n mod 16))%string.
      rewrite string_length_app, hex_digit_length, !string_app_assoc.
      split_and!; [done|lia|]. by replace (S k - (String.length d + 1))%nat with (k - String.length d)%nat by lia.
Qed.

Lemma hex_word_nibbles w : is_word w -> hex_word w = nibbles 8 w.
Proof.
  intros [? Hw]. unfold hex_word, toString16, padStart0.
  destruct (hex_digits_nibbles (S (Z.to_nat (Z.log2 w))) 8 w "") as (d & -> & _ & ->); [done| |lia|lia|].
  - rewrite Nat2Z.inj_succ, Z2Nat.id by apply Z.log2_nonneg.
    destruct (Z.eq_dec w 0) as [->|?]; [done|]. pose proof (Z.log2_spec w ltac:(lia)) as [_ Hlog].
    eapply Z.lt_le_trans; [exact Hlog|]. apply Z.pow_le_mono_l. lia.
  - assert (Hd : (d ++ "" = d)%string) by (clear; induction d as [|x d IH]; [done|]; by apply (f_equal (String x))).
    by rewrite Hd, nibbles_zero.
Qed.

Lemma nibbles_spec w : nibbles 8 w =
  String.concat "" (map (fun k => hex_digit (w / 16 ^ Z.of_nat k mod 16)) (rev (seq 0 8))).
Proof.
  cbn [nibbles]. rewrite !Z.div_div by lia. cbn [seq rev app map String.concat].
  change (16 ^ Z.of_nat 0) with 1. rewrite Z.div_1_r. reflexivity.
Qed.

Lemma digest_words m h : absorbed m h -> Forall is_byte m -> Forall is_word (digest_state h).
Proof.
  intros Ha Hm. unfold digest_state. rewrite length_loop_big_endian.
  destruct (update_absorbs m [128] h Ha) as [Ha1 _]; [constructor; [unfold is_byte; lia|constructor]|].
  pose proof (pad_loop_absorbs 64 _ _ Ha1) as Ha2.
  pose proof (Z.mod_pos_bound (56 - Z.of_nat (length (m ++ [128]))) 64 ltac:(lia)).
  destruct (update_absorbs _ (FIPS.big_endian 8 (sha_bytesHashed h * 8)) _ (Ha2 ltac:(lia)))
    as [(bs & rest & _ & Ha3) _]; [apply big_endian_bytes|]. apply (ab_words _ _ _ Ha3).
Qed.

Lemma chunks_absorbed m h chunks : absorbed m h -> sha_bytesHashed h = Z.of_nat (length m) ->
  Forall (Forall is_byte) chunks ->
  absorbed (m ++ concat chunks) (foldl (fun h chunk => sha_update chunk h) h chunks) /\
  sha_bytesHashed (foldl (fun h chunk => sha_update chunk h) h chunks) = Z.of_nat (length (m ++ concat chunks)).
Proof.
  intros Ha Hn Hc. revert m h Ha Hn. induction Hc as [|c chunks Hc _ IH]; intros m h Ha Hn; cbn [foldl concat].
  - by rewrite app_nil_r.
  - destruct (update_absorbs m c h Ha Hc) as [Ha' Hn']. rewrite app_assoc. apply IH; [done|].
    rewrite Hn', Hn, length_app. lia.
Qed.

(** The digest of what an object has absorbed. *)
Lemma digestHex_standard m h : absorbed m h -> Forall is_byte m -> sha_bytesHashed h = Z.of_nat (length m) ->
  digestHex h = FIPS.hash_hex m.
Proof.
  intros Ha Hm Hn. pose proof (digest_words m h Ha Hm) as Hw. unfold digestHex, FIPS.hash_hex.
  rewrite <-(digest_standard m h) by done. f_equal.
  induction Hw as [|w ws Hw _ IH]; [done|]. cbn [map].
  by rewrite IH, hex_word_nibbles, nibbles_spec.
Qed.

(** C14: however the bytes of a file are cut into chunks, the digest of the object is the
    standard's digest of the file. *)
Theorem streamed_digest_is_sha256 (chunks : list (list Z)) : Forall (Forall is_byte) chunks ->
  digestHex (foldl (fun h chunk => sha_update chunk h) new_Sha256 chunks) = FIPS.hash_hex (concat chunks).
Proof.
  intros Hc. destruct (chunks_absorbed [] new_Sha256 chunks new_absorbs) as [Ha Hn]; [done|done|].
  apply digestHex_standard; [done| |done]. by apply Forall_concat.
Qed.

(** The test vector of the standard, in two chunks. *)
Lemma streamed_digest_is_sha256_witness :
  digestHex (foldl (fun h chunk => sha_update chunk h) new_Sha256 [[97]; [98; 99]])
    = FIPS.hash_hex (concat [[97]; [98; 99]]) /\
  FIPS.hash_hex (concat [[97]; [98; 99]])
    = "ba7816bf8f01cfea414140de5dae2223b00361a396177a9cb410ff61f20015ad"%string.
Proof.
  split.
  - apply (streamed_digest_is_sha256 [[97]; [98; 99]]). unfold is_byte. repeat constructor; lia.
  - vm_compute. reflexivity.
Defined.
