(* ===== verification/TileId.v ===== *)
(** * The number of a tile

    apps/web/src/lib/offlineAreas/pmtilesReader.ts, [rotate] and [zxyToTileId]: tiles of
    a zoom are numbered along a Hilbert curve, after all tiles of the smaller zooms.
    Below zoom 25, the largest a header may name, every number here is an integer below
    2^53 and every operand of [&] one of 32 bits. *)

From S2P Require Import Prelude Words.
Local Open Scope Z_scope.

(** ** The code *)

Definition rotate (n x y rx ry : Z) : Z * Z :=
  if ry =? 0 then
    let '(x, y) := if rx =? 1 then (n - 1 - x, n - 1 - y) else (x, y) in (y, x)
  else (x, y).

(** One turn of the loop. *)
Definition tile_turn (size x y distance : Z) : Z * Z * Z :=
  let rx := if 0 <? js_and x size then 1 else 0 in
  let ry := if 0 <? js_and y size then 1 else 0 in
  let distance := distance + size * size * js_xor (3 * rx) ry in
  let '(x, y) := rotate size x y rx ry in (x, y, distance).

(** The turns with the sizes 2^(k-1) down to 1. *)
Fixpoint tile_turns (k : nat) (x y distance : Z) : Z :=
  match k with
  | O => distance
  | S k => let '(x, y, distance) := tile_turn (2 ^ Z.of_nat k) x y distance in tile_turns k x y distance
  end.

(** At zoom 0 the loop turns once with size 0.5, which has no bit: it is the turn with
    size 0. *)
Definition zxyToTileId (z : nat) (x y : Z) : Z :=
  (4 ^ Z.of_nat z - 1) / 3
  + match z with
    | O => let '(_, _, distance) := tile_turn 0 x y 0 in distance
    | S _ => tile_turns z x y 0
    end.

(** ** The curve *)

(** The first number of a zoom. *)
Definition zoom_start (z : nat) : Z := (4 ^ Z.of_nat z - 1) / 3.

(** The order of the four quarters: from the origin up, right and down. *)
Definition quarter (rx ry : Z) : Z := if rx =? 0 then ry else 3 - ry.

Fixpoint hilbert (k : nat) (x y : Z) : Z :=
  match k with
  | O => 0
  | S k =>
      let n := 2 ^ Z.of_nat k in
      let rx := x / n in let ry := y / n in
      let '(x, y) := (x mod n, y mod n) in
      let '(x, y) := if ry =? 0 then if rx =? 0 then (y, x) else (n - 1 - y, n - 1 - x) else (x, y) in
      4 ^ Z.of_nat k * quarter rx ry + hilbert k x y
  end.

(** The point at a distance along the curve. *)
Fixpoint hilbert_point (k : nat) (d : Z) : Z * Z :=
  match k with
  | O => (0, 0)
  | S k =>
      let n := 2 ^ Z.of_nat k in
      let q := d / 4 ^ Z.of_nat k in
      let '(x, y) := hilbert_point k (d mod 4 ^ Z.of_nat k) in
      if q =? 0 then (y, x) else if q =? 1 then (x, y + n) else if q =? 2 then (x + n, y + n)
      else (n + (n - 1 - y), n - 1 - x)
  end.

(** A point of the square with side [2 ^ k]. *)
Definition in_square (k : nat) (x y : Z) : Prop := 0 <= x < 2 ^ Z.of_nat k /\ 0 <= y < 2 ^ Z.of_nat k.

Lemma powers k : 0 < 2 ^ Z.of_nat k /\ 2 ^ Z.of_nat (S k) = 2 * 2 ^ Z.of_nat k /\
  0 < 4 ^ Z.of_nat k /\ 4 ^ Z.of_nat (S k) = 4 * 4 ^ Z.of_nat k /\ 4 ^ Z.of_nat k = 2 ^ Z.of_nat k * 2 ^ Z.of_nat k.
Proof.
  rewrite Nat2Z.inj_succ, !Z.pow_succ_r by lia. split_and!; try lia; try (apply Z.pow_pos_nonneg; lia).
  by rewrite <-Z.pow_mul_l.
Qed.

(** Quotient and remainder of a sum known to split. *)
Lemma div_mod_split a n q r : 0 <= r < n -> a = n * q + r -> a / n = q /\ a mod n = r.
Proof. intros ? ->. split; [symmetry; eapply Z.div_unique|symmetry; eapply Z.mod_unique]; (by left) || done. Qed.

(** A coordinate of the larger square is a bit and a coordinate of the smaller one. *)
Lemma coordinate_split k x : 0 <= x < 2 ^ Z.of_nat (S k) ->
  exists b r, x = 2 ^ Z.of_nat k * b + r /\ (b = 0 \/ b = 1) /\ 0 <= r < 2 ^ Z.of_nat k /\
    x / 2 ^ Z.of_nat k = b /\ x mod 2 ^ Z.of_nat k = r.
Proof.
  destruct (powers k) as (Hn & HS & _). intros Hx.
  exists (x / 2 ^ Z.of_nat k), (x mod 2 ^ Z.of_nat k). split; [apply Z.div_mod; lia|].
  split; [|split; [by apply Z.mod_pos_bound|done]].
  assert (0 <= x / 2 ^ Z.of_nat k < 2); [|lia].
  split; [apply Z.div_pos; lia|apply Z.div_lt_upper_bound; lia].
Qed.

Lemma distance_split k d : 0 <= d < 4 ^ Z.of_nat (S k) ->
  exists q r, d = 4 ^ Z.of_nat k * q + r /\ (q = 0 \/ q = 1 \/ q = 2 \/ q = 3) /\ 0 <= r < 4 ^ Z.of_nat k /\
    d / 4 ^ Z.of_nat k = q /\ d mod 4 ^ Z.of_nat k = r.
Proof.
  destruct (powers k) as (_ & _ & Hn & HS & _). intros Hd.
  exists (d / 4 ^ Z.of_nat k), (d mod 4 ^ Z.of_nat k). split; [apply Z.div_mod; lia|].
  split; [|split; [by apply Z.mod_pos_bound|done]].
  assert (0 <= d / 4 ^ Z.of_nat k < 4); [|lia].
  split; [apply Z.div_pos; lia|apply Z.div_lt_upper_bound; lia].
Qed.

Lemma hilbert_point_in k d : 0 <= d < 4 ^ Z.of_nat k ->
  in_square k (hilbert_point k d).1 (hilbert_point k d).2.
Proof.
  revert d. induction k as [|k IH]; intros d Hd; [done|].
  destruct (powers k) as (Hn & HS & _). destruct (distance_split k d Hd) as (q & r & _ & Hq & Hr & Eq & Er).
  cbn [hilbert_point]. rewrite Eq, Er. specialize (IH r Hr). unfold in_square in *. rewrite HS.
  destruct (hilbert_point k r) as [x y]. cbn [fst snd] in IH.
  destruct Hq as [->|[->|[->| ->]]]; cbn; lia.
Qed.

Lemma hilbert_of_point k d : 0 <= d < 4 ^ Z.of_nat k ->
  hilbert k (hilbert_point k d).1 (hilbert_point k d).2 = d.
Proof.
  revert d. induction k as [|k IH]; intros d Hd; [cbn in *; lia|].
  destruct (powers k) as (Hn & _). destruct (distance_split k d Hd) as (q & r & Ed & Hq & Hr & Eq & Er).
  cbn [hilbert_point]. rewrite Eq, Er. specialize (IH r Hr). pose proof (hilbert_point_in k r Hr) as Hin.
  unfold in_square in Hin. destruct (hilbert_point k r) as [x y]. cbn [fst snd] in IH, Hin.
  assert (Hq' : forall a b v, v = 2 ^ Z.of_nat k * a + b -> 0 <= b < 2 ^ Z.of_nat k -> v / 2 ^ Z.of_nat k = a)
    by (intros; by eapply div_mod_split).
  assert (Hm' : forall a b v, v = 2 ^ Z.of_nat k * a + b -> 0 <= b < 2 ^ Z.of_nat k -> v mod 2 ^ Z.of_nat k = b)
    by (intros; by eapply div_mod_split).
  set (n := 2 ^ Z.of_nat k) in *.
  destruct Hq as [->|[->|[->| ->]]]; cbn [Z.eqb Pos.eqb fst snd hilbert]; fold n.
  - rewrite (Hq' 0 y y), (Hm' 0 y y), (Hq' 0 x x), (Hm' 0 x x) by lia. cbn. lia.
  - rewrite (Hq' 0 x x), (Hm' 0 x x), (Hq' 1 y (y + n)), (Hm' 1 y (y + n)) by lia. cbn. lia.
  - rewrite (Hq' 1 x (x + n)), (Hm' 1 x (x + n)), (Hq' 1 y (y + n)), (Hm' 1 y (y + n)) by lia. cbn. lia.
  - rewrite (Hq' 1 (n - 1 - y) (n + (n - 1 - y))), (Hm' 1 (n - 1 - y) (n + (n - 1 - y))),
      (Hq' 0 (n - 1 - x) (n - 1 - x)), (Hm' 0 (n - 1 - x) (n - 1 - x)) by lia.
    cbn. replace (n - 1 - (n - 1 - x)) with x by lia. replace (n - 1 - (n - 1 - y)) with y by lia. lia.
Qed.

Lemma hilbert_bound k x y : in_square k x y -> 0 <= hilbert k x y < 4 ^ Z.of_nat k /\ hilbert_point k (hilbert k x y) = (x, y).
Proof.
  revert x y. induction k as [|k IH]; intros x y [Hx Hy]; [cbn in *; split; [lia|f_equal; lia]|].
  destruct (powers k) as (Hn & _ & H4 & HS & _).
  destruct (coordinate_split k x Hx) as (rx & xl & Ex & Hrx & Hxl & Erx & Exl).
  destruct (coordinate_split k y Hy) as (ry & yl & Ey & Hry & Hyl & Ery & Eyl).
  cbn [hilbert]. rewrite Erx, Ery, Exl, Eyl.
  assert (Hd : forall q x' y', 0 <= q < 4 -> in_square k x' y' ->
    0 <= 4 ^ Z.of_nat k * q + hilbert k x' y' < 4 ^ Z.of_nat (S k) /\
    (4 ^ Z.of_nat k * q + hilbert k x' y') / 4 ^ Z.of_nat k = q /\
    hilbert_point k ((4 ^ Z.of_nat k * q + hilbert k x' y') mod 4 ^ Z.of_nat k) = (x', y')).
  { intros q x' y' Hq Hin. destruct (IH x' y' Hin) as [Hb Hp]. rewrite HS.
    destruct (div_mod_split (4 ^ Z.of_nat k * q + hilbert k x' y') _ q _ Hb eq_refl) as [-> ->].
    split; [nia|done]. }
  unfold in_square in Hd. cbn [hilbert_point].
  destruct Hrx as [-> | ->], Hry as [-> | ->]; cbn [Z.eqb quarter]; change (3 - 0) with 3; change (3 - 1) with 2.
  - destruct (Hd 0 yl xl) as (Hb & -> & ->); [lia..|]. split; [exact Hb|]. cbn. f_equal; lia.
  - destruct (Hd 1 xl yl) as (Hb & -> & ->); [lia..|]. split; [exact Hb|]. cbn. f_equal; lia.
  - destruct (Hd 3 (2 ^ Z.of_nat k - 1 - yl) (2 ^ Z.of_nat k - 1 - xl)) as (Hb & -> & ->); [lia..|].
    split; [exact Hb|]. cbn. f_equal; lia.
  - destruct (Hd 2 xl yl) as (Hb & -> & ->); [lia..|]. split; [exact Hb|]. cbn. f_equal; lia.
Qed.

(** ** The turns of the loop walk the curve *)

(** The bit a turn looks at, for any two's complement operand. *)
Lemma js_bit x k : - 2 ^ 31 <= x < 2 ^ 31 -> 0 <= k < 31 ->
  (if 0 <? js_and x (2 ^ k) then 1 else 0) = (x / 2 ^ k) mod 2.
Proof.
  intros Hx Hk. unfold js_and.
  assert (0 < 2 ^ k < 2 ^ 31) by (split; [apply Z.pow_pos_nonneg|apply Z.pow_lt_mono_r]; lia).
  rewrite !to_int32_id by lia.
  assert (E : Z.land x (2 ^ k) = 2 ^ k * ((x / 2 ^ k) mod 2)).
  { apply Z.bits_inj'. intros i Hi. rewrite Z.land_spec, Z.pow2_bits_eqb by lia.
    rewrite (Z.mul_comm (2 ^ k)), <-Z.shiftl_mul_pow2, Z.shiftl_spec by lia.
    rewrite <-Z.bit0_mod, Z.div_pow2_bits, Z.add_0_l by lia.
    destruct (Z.eqb_spec k i) as [->|Hne].
    - rewrite Z.sub_diag. by destruct (Z.testbit x i).
    - rewrite andb_false_r. destruct (Z.testbit x k).
      + cbn [Z.b2z]. destruct (Z.lt_ge_cases (i - k) 0); [by rewrite Z.testbit_neg_r|].
        symmetry. change 1 with (2 ^ 0). rewrite Z.pow2_bits_eqb by lia. apply Z.eqb_neq. lia.
      + by rewrite Z.bits_0. }
  rewrite E. pose proof (Z.mod_pos_bound (x / 2 ^ k) 2 ltac:(lia)).
  assert ((x / 2 ^ k) mod 2 = 0 \/ (x / 2 ^ k) mod 2 = 1) as [-> | ->] by lia.
  - by rewrite Z.mul_0_r.
  - rewrite Z.mul_1_r. by destruct (Z.ltb_spec 0 (2 ^ k)); [|lia].
Qed.

(** The loop looks at the low bits only. *)
Lemma tile_turns_hilbert k x y distance :
  (k <= 30)%nat -> Z.abs x + 2 ^ Z.of_nat k < 2 ^ 31 -> Z.abs y + 2 ^ Z.of_nat k < 2 ^ 31 ->
  tile_turns k x y distance = distance + hilbert k (x mod 2 ^ Z.of_nat k) (y mod 2 ^ Z.of_nat k).
Proof.
  revert x y distance. induction k as [|k IH]; intros x y distance Hk Hx Hy; [cbn; lia|].
  destruct (powers k) as (Hn & HS & _ & _ & H4).
  cbn [tile_turns hilbert]. unfold tile_turn. rewrite !js_bit by lia.
  rewrite HS in *. set (n := 2 ^ Z.of_nat k) in *.
  assert (Hq : forall v, (v mod (2 * n)) / n = (v / n) mod 2).
  { intros v. rewrite (Z.mul_comm 2 n), Z.rem_mul_r by lia.
    rewrite (Z.add_comm (v mod n)), (Z.mul_comm n), Z.div_add_l by lia.
    rewrite (Z.div_small (v mod n)) by (apply Z.mod_pos_bound; lia). lia. }
  assert (Hm : forall v, (v mod (2 * n)) mod n = v mod n).
  { intros v. rewrite (Z.mul_comm 2 n), Z.rem_mul_r by lia.
    by rewrite (Z.mul_comm n ((v / n) mod 2)), Z.mod_add, Z.mod_mod by lia. }
  rewrite !Hq, !Hm.
  assert (Hneg : forall v, (n - 1 - v) mod n = n - 1 - v mod n).
  { intros v. symmetry. apply Z.mod_unique with (q := - (v / n)).
    - left. pose proof (Z.mod_pos_bound v n). lia.
    - pose proof (Z.div_mod v n). lia. }
  rewrite H4. unfold rotate.
  assert (Hbit : forall v, v mod 2 = 0 \/ v mod 2 = 1) by (intros v; pose proof (Z.mod_pos_bound v 2); lia).
  destruct (Hbit (x / n)) as [-> | ->], (Hbit (y / n)) as [-> | ->]; cbn [Z.eqb Pos.eqb];
    rewrite IH by (unfold n in *; lia); fold n; rewrite ?Hneg.
  all: try change (js_xor (3 * 0) 0) with 0; try change (js_xor (3 * 0) 1) with 1;
    try change (js_xor (3 * 1) 0) with 3; try change (js_xor (3 * 1) 1) with 2;
    try change (quarter 0 0) with 0; try change (quarter 0 1) with 1;
    try change (quarter 1 0) with 3; try change (quarter 1 1) with 2; lia.
Qed.

Lemma zxyToTileId_hilbert z x y : (z <= 24)%nat -> in_square z x y ->
  zxyToTileId z x y = zoom_start z + hilbert z x y.
Proof.
  intros Hz [Hx Hy]. unfold zxyToTileId, zoom_start. destruct z as [|z].
  - cbn in Hx, Hy. replace x with 0 by lia. by replace y with 0 by lia.
  - f_equal. assert (2 ^ Z.of_nat (S z) <= 2 ^ 24) by (apply Z.pow_le_mono_r; lia).
    rewrite tile_turns_hilbert by lia. by rewrite !Z.mod_small, Z.add_0_l.
Qed.

Lemma zoom_start_S z : zoom_start (S z) = zoom_start z + 4 ^ Z.of_nat z.
Proof.
  unfold zoom_start. rewrite Nat2Z.inj_succ, Z.pow_succ_r by lia.
  replace (4 * 4 ^ Z.of_nat z - 1) with (4 ^ Z.of_nat z - 1 + 4 ^ Z.of_nat z * 3) by lia.
  by rewrite Z.div_add by lia.
Qed.

Lemma zoom_start_mono z z' : (z <= z')%nat -> zoom_start z <= zoom_start z'.
Proof.
  induction 1 as [|z' _ IH]; [done|]. rewrite zoom_start_S. pose proof (powers z'). lia.
Qed.

(** ** Tiles and numbers *)

Lemma zoom_of_number id k : 0 <= id < zoom_start k -> exists z, (z < k)%nat /\ zoom_start z <= id < zoom_start (S z).
Proof.
  induction k as [|k IH]; intros H; [change (zoom_start 0) with 0 in H; lia|].
  destruct (Z.lt_ge_cases id (zoom_start k)) as [Hlt|Hge].
  - destruct IH as (z & ? & ?); [lia|]. exists z. split; [lia|done].
  - exists k. split; lia.
Qed.

(** A tile's number lies in the band of its zoom. *)
Lemma tile_number_in_band z x y : (z <= 24)%nat -> in_square z x y ->
  zoom_start z <= zxyToTileId z x y < zoom_start (S z).
Proof.
  intros Hz Hin. rewrite zxyToTileId_hilbert, zoom_start_S by done.
  destruct (hilbert_bound z x y Hin) as [? _]. lia.
Qed.

(** C18: every number below the first of zoom 25 is the number of exactly one tile, and
    that tile's zoom is the band the number lies in. *)
Theorem tile_numbers_are_a_bijection id : 0 <= id < zoom_start 25 ->
  exists z x y, (z <= 24)%nat /\ in_square z x y /\ zxyToTileId z x y = id /\
    zoom_start z <= id < zoom_start (S z) /\
    forall z' x' y', (z' <= 24)%nat -> in_square z' x' y' -> zxyToTileId z' x' y' = id ->
      z' = z /\ x' = x /\ y' = y.
Proof.
  intros Hid. destruct (zoom_of_number id 25 Hid) as (z & Hz & Hband).
  assert (Hd : 0 <= id - zoom_start z < 4 ^ Z.of_nat z) by (rewrite zoom_start_S in Hband; lia).
  exists z, (hilbert_point z (id - zoom_start z)).1, (hilbert_point z (id - zoom_start z)).2.
  pose proof (hilbert_point_in z _ Hd) as Hin.
  split; [lia|]. split; [done|]. split; [rewrite zxyToTileId_hilbert, hilbert_of_point by (done || lia); lia|].
  split; [done|]. intros z' x' y' Hz' Hin' <-. pose proof (tile_number_in_band z' x' y' Hz' Hin') as Hband'.
  assert (z' = z) as ->.
  { destruct (Nat.lt_trichotomy z z') as [Hlt|[Heq|Hlt]]; [|done|];
      pose proof (zoom_start_mono _ _ Hlt); lia. }
  rewrite zxyToTileId_hilbert in * by done.
  replace (zoom_start z + hilbert z x' y' - zoom_start z) with (hilbert z x' y') by lia.
  destruct (hilbert_bound z x' y' Hin') as [_ ->]. done.
Qed.

Lemma tile_numbers_are_a_bijection_witness :
  zxyToTileId 2 3 1 = 17 /\
  exists z x y, (z <= 24)%nat /\ in_square z x y /\ zxyToTileId z x y = 17 /\
    zoom_start z <= 17 < zoom_start (S z) /\
    forall z' x' y', (z' <= 24)%nat -> in_square z' x' y' -> zxyToTileId z' x' y' = 17 ->
      z' = z /\ x' = x /\ y' = y.
Proof.
  split; [vm_compute; reflexivity|].
  apply (tile_numbers_are_a_bijection 17). vm_compute. split; [discriminate|reflexivity].
Defined.

(** ** Neighbours *)

Definition neighbours (p q : Z * Z) : Prop := Z.abs (p.1 - q.1) + Z.abs (p.2 - q.2) = 1.

Lemma hilbert_point_ends k :
  hilbert_point k 0 = (0, 0) /\ hilbert_point k (4 ^ Z.of_nat k - 1) = (2 ^ Z.of_nat k - 1, 0).
Proof.
  induction k as [|k [IH0 IH1]]; [done|]. destruct (powers k) as (Hn & HS & H4 & HS4 & _).
  cbn [hilbert_point]. rewrite Z.div_0_l, Z.mod_0_l by lia. rewrite IH0. split; [done|].
  destruct (div_mod_split (4 ^ Z.of_nat (S k) - 1) (4 ^ Z.of_nat k) 3 (4 ^ Z.of_nat k - 1)) as [-> ->]; [lia..|].
  rewrite IH1, HS. cbn. f_equal; lia.
Qed.

Lemma hilbert_steps k d : 0 <= d < 4 ^ Z.of_nat k - 1 -> neighbours (hilbert_point k d) (hilbert_point k (d + 1)).
Proof.
  revert d. induction k as [|k IH]; intros d Hd; [cbn in Hd; lia|].
  destruct (powers k) as (Hn & HS & H4 & HS4 & _).
  destruct (distance_split k d ltac:(lia)) as (q & r & Ed & Hq & Hr & Eq & Er).
  cbn [hilbert_point]. rewrite Eq, Er.
  destruct (Z.eq_dec r (4 ^ Z.of_nat k - 1)) as [->|Hne].
  - destruct (div_mod_split (d + 1) (4 ^ Z.of_nat k) (q + 1) 0) as [-> ->]; [lia..|].
    destruct (hilbert_point_ends k) as [-> ->]. unfold neighbours.
    destruct Hq as [->|[->|[->| ->]]]; [change (0 + 1) with 1|change (1 + 1) with 2|change (2 + 1) with 3|lia]; cbn; lia.
  - destruct (div_mod_split (d + 1) (4 ^ Z.of_nat k) q (r + 1)) as [-> ->]; [lia..|].
    specialize (IH r ltac:(lia)). unfold neighbours in *.
    destruct (hilbert_point k r) as [x y], (hilbert_point k (r + 1)) as [x' y'].
    destruct Hq as [->|[->|[->| ->]]]; cbn in *; lia.
Qed.

(** Tiles of one zoom with consecutive numbers touch along a side. *)
Theorem consecutive_tiles_touch z x y x' y' : (z <= 24)%nat -> in_square z x y -> in_square z x' y' ->
  zxyToTileId z x' y' = zxyToTileId z x y + 1 -> neighbours (x, y) (x', y').
Proof.
  intros Hz H H' E. rewrite !zxyToTileId_hilbert in E by done.
  destruct (hilbert_bound z x y H) as [Hb <-], (hilbert_bound z x' y' H') as [Hb' <-].
  replace (hilbert z x' y') with (hilbert z x y + 1) by lia. apply hilbert_steps. lia.
Qed.
