(* ===== verification/Pmtiles.v ===== *)
(** * The reader of a downloaded archive

    apps/web/src/lib/offlineAreas/pmtilesReader.ts: the header, the directories and the
    lookup of a tile.  An archive file is the list of its bytes; a read cursor is the
    suffix still to be read.  Numbers that pass the code's safe-integer checks are [Z]:
    a double that has left the safe range only grows and is refused by the same checks.
    The reader's promises are memoised reads of an immutable file and are left out.
    gzip and JSON text are parameters. *)

From S2P Require Import Prelude Text Doubles Sha256 TileId.
Local Open Scope Z_scope.

Definition HEADER_LENGTH : Z := 127.
Definition VERSION : Z := 3.
Definition NONE : Z := 1.
Definition GZIP : Z := 2.
Definition MVT : Z := 1.

(** The decompressor of the browser and the parser of a JSON text. *)
Class ArchiveCodecs := {
  gunzip : list Z -> outcome (list Z);
  parse_json : list Z -> outcome json;
}.

Record Bounds := { west : number; south : number; east : number; north : number }.

Record LocalPmtilesHeader := {
  rootOffset : Z;
  rootLength : Z;
  metadataOffset : Z;
  metadataLength : Z;
  leafOffset : Z;
  leafLength : Z;
  tileDataOffset : Z;
  tileDataLength : Z;
  addressedTiles : Z;
  tileEntries : Z;
  tileContents : Z;
  clustered : bool;
  internalCompression : Z;
  tileCompression : Z;
  tileType : Z;
  minZoom : Z;
  maxZoom : Z;
  hd_bounds : Bounds;
}.

Record DirectoryEntry := {
  tileId : Z;
  de_offset : Z;
  de_length : Z;
  runLength : Z;
}.

#[export] Instance DirectoryEntry_eq_dec : EqDecision DirectoryEntry.
Proof. solve_decision. Defined.

Definition reject {A} (condition : bool) (message : string) (k : outcome A) : outcome A :=
  if condition then Throw message else k.

(** ** The header *)

Definition readUint64 (bytes : list Z) (offset : nat) : outcome Z :=
  let value := foldl (fun value index => value * 256 + bytes !!! (offset + index)%nat) 0 (rev (seq 0 8)) in
  if value <=? MAX_SAFE_INTEGER then Ok value else Throw "PMTiles offset exceeds browser limits".

(** [view.getInt32(offset, true) / 10_000_000] *)
Definition position (bytes : list Z) (offset : nat) : number :=
  let value := foldl (fun value index => value * 256 + bytes !!! (offset + index)%nat) 0 (rev (seq 0 4)) in
  num_div (num_of_Z (to_int32 value)) (num_of_Z 10000000).

(** The bytes of the text PMTiles. *)
Definition MAGIC : list Z := [80; 77; 84; 105; 108; 101; 115].

Definition parseHeader (bytes : list Z) : outcome LocalPmtilesHeader :=
  if (Z.of_nat (length bytes) <? HEADER_LENGTH) || negb (bool_decide (take 7 bytes = MAGIC))
  then Throw "invalid PMTiles header"
  else if negb (bytes !!! 7%nat =? VERSION) then Throw "unsupported PMTiles version"
  else
    rootOffset ← readUint64 bytes 8;
    rootLength ← readUint64 bytes 16;
    metadataOffset ← readUint64 bytes 24;
    metadataLength ← readUint64 bytes 32;
    leafOffset ← readUint64 bytes 40;
    leafLength ← readUint64 bytes 48;
    tileDataOffset ← readUint64 bytes 56;
    tileDataLength ← readUint64 bytes 64;
    addressedTiles ← readUint64 bytes 72;
    tileEntries ← readUint64 bytes 80;
    tileContents ← readUint64 bytes 88;
    Ok {|
      rootOffset := rootOffset; rootLength := rootLength;
      metadataOffset := metadataOffset; metadataLength := metadataLength;
      leafOffset := leafOffset; leafLength := leafLength;
      tileDataOffset := tileDataOffset; tileDataLength := tileDataLength;
      addressedTiles := addressedTiles; tileEntries := tileEntries; tileContents := tileContents;
      clustered := bytes !!! 96%nat =? 1;
      internalCompression := bytes !!! 97%nat;
      tileCompression := bytes !!! 98%nat;
      tileType := bytes !!! 99%nat;
      minZoom := bytes !!! 100%nat;
      maxZoom := bytes !!! 101%nat;
      hd_bounds := {| west := position bytes 102; south := position bytes 106;
                      east := position bytes 110; north := position bytes 114 |};
    |}.

(** The four sections of the two loops. *)
Definition sections (h : LocalPmtilesHeader) : list (string * Z * Z) :=
  [("root", rootOffset h, rootLength h); ("metadata", metadataOffset h, metadataLength h);
   ("leaf", leafOffset h, leafLength h); ("tile data", tileDataOffset h, tileDataLength h)]%string.

Definition is_safe (z : Z) : bool := Z.abs z <=? MAX_SAFE_INTEGER.

Fixpoint check_sections (archiveSize : Z) (l : list (string * Z * Z)) : outcome unit :=
  match l with
  | [] => Ok tt
  | (label, offset, length) :: l =>
      if negb (is_safe offset) || negb (is_safe length) || (offset <? HEADER_LENGTH) || (length <? 0)
         || (archiveSize - length <? offset)
      then Throw ("invalid PMTiles " ++ label ++ " section")%string
      else check_sections archiveSize l
  end.

Fixpoint check_order (l : list (string * Z * Z)) : outcome unit :=
  match l with
  | (label, offset, length) :: ((label', offset', _) :: _) as l' =>
      if offset' <? offset + length
      then Throw ("PMTiles " ++ label' ++ " section overlaps " ++ label ++ " section")%string
      else check_order l'
  | _ => Ok tt
  end.

Definition bad_bounds (b : Bounds) : bool :=
  negb (forallb num_is_finite [west b; south b; east b; north b])
  || num_lt (west b) (num_of_Z (-180)) || num_lt (num_of_Z 180) (east b)
  || num_lt (south b) (num_neg (literal 8505112878 100000000)) || num_lt (literal 8505112878 100000000) (north b)
  || num_le (east b) (west b) || num_le (north b) (south b).

Definition validateHeader (header : LocalPmtilesHeader) (archiveSize : Z) : outcome LocalPmtilesHeader :=
  reject (negb (is_safe archiveSize) || (archiveSize <? HEADER_LENGTH)) "invalid PMTiles archive size" (
  reject (negb (existsb (Z.eqb (internalCompression header)) [NONE; GZIP]))
    ("unsupported PMTiles internal compression " ++ show_Z (internalCompression header))%string (
  reject (negb (existsb (Z.eqb (tileCompression header)) [NONE; GZIP]))
    ("unsupported PMTiles tile compression " ++ show_Z (tileCompression header))%string (
  reject (negb (tileType header =? MVT)) "offline PMTiles archive is not vector tile data" (
  reject ((maxZoom header <? minZoom header) || (24 <? maxZoom header)) "invalid PMTiles zoom range" (
  reject (bad_bounds (hd_bounds header)) "invalid PMTiles bounds" (
    check_sections archiveSize (sections header) ≫= fun _ =>
    check_order (sections header) ≫= fun _ =>
  reject ((rootLength header =? 0) || (metadataLength header =? 0) || (tileDataLength header =? 0))
    "PMTiles archive is missing required sections" (
  reject ((addressedTiles header <=? 0) || (tileEntries header <=? 0) || (tileContents header <=? 0)
          || negb (is_safe (addressedTiles header)) || negb (is_safe (tileEntries header))
          || negb (is_safe (tileContents header))
          || (addressedTiles header <? tileEntries header) || (tileEntries header <? tileContents header))
    "invalid PMTiles tile counts" (
  Ok header)))))))).

(** ** Directories *)

Fixpoint readVarint_loop (data : list Z) (value multiplier : Z) : outcome (Z * list Z) :=
  match data with
  | [] => Throw "truncated PMTiles directory"
  | byte :: rest =>
      let value := value + Z.land byte 127 * multiplier in
      if MAX_SAFE_INTEGER <? value then Throw "PMTiles directory value is too large"
      else if Z.land byte 128 =? 0 then Ok (value, rest)
      else if MAX_SAFE_INTEGER <? multiplier * 128 then Throw "PMTiles directory value is too large"
      else readVarint_loop rest value (multiplier * 128)
  end.

Definition readVarint (data : list Z) : outcome (Z * list Z) := readVarint_loop data 0 1.

(** One of the passes over the entries: a number each. *)
Fixpoint read_pass (count : nat) (data : list Z) : outcome (list Z * list Z) :=
  match count with
  | O => Ok ([], data)
  | S count =>
      '(value, data) ← readVarint data;
      '(values, data) ← read_pass count data;
      Ok (value :: values, data)
  end.

(** [entry.tileId = previousTileId + result.value] *)
Fixpoint running_sums (previousTileId : Z) (deltas : list Z) : list Z :=
  match deltas with
  | [] => []
  | delta :: deltas => previousTileId + delta :: running_sums (previousTileId + delta) deltas
  end.

(** The last pass, at an index above 0. *)
Fixpoint next_offsets (previousOffset previousLength : Z) (values lengths : list Z) : list Z :=
  match values, lengths with
  | value :: values, len :: lengths =>
      let offset := if value =? 0 then previousOffset + previousLength else value - 1 in
      offset :: next_offsets offset len values lengths
  | _, _ => []
  end.

Definition entry_offsets (values lengths : list Z) : list Z :=
  match values, lengths with
  | value :: values, len :: lengths => value - 1 :: next_offsets (value - 1) len values lengths
  | _, _ => []
  end.

Fixpoint make_entries (ids runs lengths offsets : list Z) : list DirectoryEntry :=
  match ids, runs, lengths, offsets with
  | id :: ids, run :: runs, len :: lengths, offset :: offsets =>
      {| tileId := id; de_offset := offset; de_length := len; runLength := run |}
      :: make_entries ids runs lengths offsets
  | _, _, _, _ => []
  end.

Definition bad_entry (e : DirectoryEntry) : bool :=
  (de_length e <=? 0) || (de_offset e <? 0) || negb (is_safe (de_length e)) || negb (is_safe (de_offset e))
  || negb (is_safe (runLength e)) || negb (is_safe (tileId e + runLength e)).

(** The final loop; [previous] is the tile id of the entry before. *)
Fixpoint check_entries (previous : option Z) (entries : list DirectoryEntry) : outcome unit :=
  match entries with
  | [] => Ok tt
  | e :: entries =>
      if bad_entry e || match previous with Some id => tileId e <=? id | None => false end
      then Throw "invalid PMTiles directory entry"
      else check_entries (Some (tileId e)) entries
  end.

(** [decodeDirectory] on decompressed bytes. *)
Definition decode_entries (data : list Z) : outcome (list DirectoryEntry) :=
  '(count, data) ← readVarint data;
  if count <=? 0 then Throw "invalid PMTiles directory count"
  else if Z.of_nat (length data) / 4 <? count then Throw "PMTiles directory count exceeds its encoded size"
  else
    let n := Z.to_nat count in
    '(deltas, data) ← read_pass n data;
    '(runs, data) ← read_pass n data;
    '(lengths, data) ← read_pass n data;
    '(values, data) ← read_pass n data;
    match data with
    | _ :: _ => Throw "PMTiles directory has trailing data"
    | [] =>
        let entries := make_entries (running_sums 0 deltas) runs lengths (entry_offsets values lengths) in
        _ ← check_entries None entries;
        Ok entries
    end.

Fixpoint findEntry (entries : list DirectoryEntry) (id : Z) : option DirectoryEntry :=
  match entries with
  | [] => None
  | e :: rest =>
      if runLength e =? 0 then
        if (tileId e <=? id) && match rest with next :: _ => id <? tileId next | [] => true end then Some e
        else if id <? tileId e then None else findEntry rest id
      else if (tileId e <=? id) && (id <? tileId e + runLength e) then Some e
      else if id <? tileId e then None else findEntry rest id
  end.

(** ** The reader *)

Section reader.
Context `{ArchiveCodecs} (file : list Z).

(** [file.read] of a blob: a slice, short at the end. *)
Definition file_read (offset length : Z) : outcome (list Z) :=
  if negb (is_safe offset) || negb (is_safe length) || (offset <? 0) || (length <? 0)
  then Throw "invalid offline archive range"
  else Ok (take (Z.to_nat length) (drop (Z.to_nat offset) file)).

Definition readExact (offset len : Z) : outcome (list Z) :=
  bytes ← file_read offset len;
  if Z.of_nat (length bytes) =? len then Ok bytes else Throw "truncated PMTiles archive".

Definition decodeInternal (bytes : list Z) (compression : Z) : outcome (list Z) :=
  if compression =? NONE then Ok bytes
  else if compression =? GZIP then gunzip bytes
  else Throw ("unsupported PMTiles internal compression " ++ show_Z compression)%string.

Definition decodeDirectory (bytes : list Z) (compression : Z) : outcome (list DirectoryEntry) :=
  data ← decodeInternal bytes compression;
  decode_entries data.

Definition header : outcome LocalPmtilesHeader :=
  bytes ← readExact 0 HEADER_LENGTH;
  parsed ← parseHeader bytes;
  validateHeader parsed (Z.of_nat (length file)).

Definition metadata : outcome json :=
  h ← header;
  bytes ← readExact (metadataOffset h) (metadataLength h);
  bytes ← decodeInternal bytes (internalCompression h);
  parsed ← parse_json bytes;
  match parsed with JObj _ => Ok parsed | _ => Throw "invalid PMTiles metadata" end.

Definition rootDirectory (h : LocalPmtilesHeader) : outcome (list DirectoryEntry) :=
  bytes ← readExact (rootOffset h) (rootLength h);
  decodeDirectory bytes (internalCompression h).

Definition leafDirectory (h : LocalPmtilesHeader) (e : DirectoryEntry) : outcome (list DirectoryEntry) :=
  if (leafLength h =? 0) || (leafLength h - de_length e <? de_offset e)
  then Throw "PMTiles leaf entry exceeds the leaf directory section"
  else
    bytes ← readExact (leafOffset h + de_offset e) (de_length e);
    decodeDirectory bytes (internalCompression h).

Definition tilePayload (h : LocalPmtilesHeader) (e : DirectoryEntry) : outcome (list Z) :=
  if tileDataLength h - de_length e <? de_offset e
  then Throw "PMTiles tile entry exceeds the tile data section"
  else
    bytes ← readExact (tileDataOffset h + de_offset e) (de_length e);
    if tileCompression h =? GZIP then gunzip bytes else Ok bytes.

(** [tile(zoom, x, y)]; the directory of the entry a root pointer names is searched too. *)
Definition tile (zoom : nat) (x y : Z) : outcome (option (list Z)) :=
  h ← header;
  if (Z.of_nat zoom <? minZoom h) || (maxZoom h <? Z.of_nat zoom) || (x <? 0) || (y <? 0)
     || (2 ^ Z.of_nat zoom <=? x) || (2 ^ Z.of_nat zoom <=? y)
  then Ok None
  else
    let id := zxyToTileId zoom x y in
    root ← rootDirectory h;
    entry ← match findEntry root id with
            | Some e => if runLength e =? 0 then leaf ← leafDirectory h e; Ok (findEntry leaf id) else Ok (Some e)
            | None => Ok None
            end;
    match entry with
    | Some e => if runLength e =? 0 then Ok None else payload ← tilePayload h e; Ok (Some payload)
    | None => Ok None
    end.

(** *** validate *)

(** The first loop: the tile entries of the archive and the ranges of its leaves. *)
Fixpoint collect (h : LocalPmtilesHeader) (root : list DirectoryEntry) : outcome (list DirectoryEntry * list (Z * Z)) :=
  match root with
  | [] => Ok ([], [])
  | e :: rest =>
      if 0 <? runLength e then
        '(tiles, ranges) ← collect h rest;
        Ok (e :: tiles, ranges)
      else
        leaf ← leafDirectory h e;
        if existsb (fun c => runLength c =? 0) leaf
        then Throw "PMTiles leaf directory contains a nested directory pointer"
        else if existsb (fun c => (tileId c <? tileId e)
                  || match rest with next :: _ => tileId next <=? tileId c | [] => false end) leaf
        then Throw "PMTiles leaf directory lies outside its root tile range"
        else
          '(tiles, ranges) ← collect h rest;
          Ok (leaf ++ tiles, (de_offset e, de_length e) :: ranges)
  end.

(** [(a, b) => a.offset - b.offset || a.length - b.length]; ties are equal ranges. *)
Definition range_before (a b : Z * Z) : bool :=
  (a.1 <? b.1) || (a.1 =? b.1) && (a.2 <? b.2).

Fixpoint check_ranges (message : string) (ranges : list (Z * Z)) : outcome unit :=
  match ranges with
  | previous :: (current :: _) as rest =>
      if current.1 <? previous.1 + previous.2 then Throw message else check_ranges message rest
  | _ => Ok tt
  end.

(** The loop over the sorted tile entries: the number of addressed tiles and the
    distinct contents. *)
Fixpoint check_tiles (h : LocalPmtilesHeader) (previous : option DirectoryEntry) (addressed : Z)
    (contents : list (Z * Z)) (entries : list DirectoryEntry) : outcome (Z * list (Z * Z)) :=
  match entries with
  | [] => Ok (addressed, contents)
  | e :: entries =>
      if (runLength e <=? 0) || (tileId e <? zoom_start (Z.to_nat (minZoom h)))
         || (zoom_start (Z.to_nat (maxZoom h + 1)) <? tileId e + runLength e)
      then Throw "PMTiles tile entry is outside the declared zoom range"
      else if match previous with Some p => tileId e <? tileId p + runLength p | None => false end
      then Throw "PMTiles tile entry address ranges overlap"
      else if tileDataLength h - de_length e <? de_offset e
      then Throw "PMTiles tile entry exceeds the tile data section"
      else
        let addressed := addressed + runLength e in
        if negb (is_safe addressed) then Throw "PMTiles addressed tile count exceeds browser limits"
        else check_tiles h (Some e) addressed
               (if bool_decide ((de_offset e, de_length e) ∈ contents) then contents
                else contents ++ [(de_offset e, de_length e)]) entries
  end.

(** The checks after the loop of tiles. *)
Definition check_totals (h : LocalPmtilesHeader) (tiles : list DirectoryEntry) (addressed : Z)
    (contents : list (Z * Z)) : outcome unit :=
  match tiles with
  | first :: _ =>
      reject (zoom_start (Z.to_nat (minZoom h + 1)) <=? tileId first)
        "PMTiles archive contains no tiles at the declared minimum zoom" (
      reject (match last tiles with
              | Some e => tileId e + runLength e <=? zoom_start (Z.to_nat (maxZoom h))
              | None => true
              end) "PMTiles archive contains no tiles at the declared maximum zoom" (
      check_ranges "PMTiles tile content ranges overlap" (order_by range_before contents) ≫= fun _ =>
      reject (negb (addressed =? addressedTiles h) || negb (Z.of_nat (length tiles) =? tileEntries h)
              || negb (Z.of_nat (length contents) =? tileContents h))
        "PMTiles directory tile counts do not match the header" (
      payload ← tilePayload h first;
      reject (bool_decide (payload = [])) "PMTiles representative tile payload is empty" (Ok tt))))
  | [] => Throw "PMTiles archive contains no tiles at the declared minimum zoom"
  end.

Definition validate : outcome unit :=
  h ← header;
  root ← rootDirectory h;
  '(tiles, ranges) ← collect h root;
  _ ← check_ranges "PMTiles leaf directory ranges overlap" (order_by range_before ranges);
  let tiles := sort_by tileId tiles in
  '(addressed, contents) ← check_tiles h None 0 [] tiles;
  check_totals h tiles addressed contents.

(** [JSON.stringify] of two boxes: both have their keys in the order of the schema, and
    texts of finite numbers are equal when the numbers are. *)
Definition same_bounds (a b : Bounds) : bool :=
  num_eq (west a) (west b) && num_eq (south a) (south b) && num_eq (east a) (east b) && num_eq (north a) (north b).

Definition validateLocalPmtilesArchive (bounds : Bounds) (min max : Z) : outcome LocalPmtilesHeader :=
  h ← header;
  if negb (minZoom h =? min) || negb (maxZoom h =? max) || negb (same_bounds (hd_bounds h) bounds)
  then Throw "PMTiles metadata does not match the package manifest"
  else
    _ ← metadata;
    _ ← validate;
    Ok h.

End reader.

(** * Directories round-trip, and a validated archive serves its tiles *)

Local Open Scope Z_scope.

(** ** Variable-length numbers *)

(** The encoder of the test fixtures (pmtilesReader.test.ts). *)
Fixpoint varint_loop (fuel : nat) (remaining : Z) : list Z :=
  match fuel with
  | O => []
  | S fuel =>
      let byte := remaining mod 128 in
      let remaining := remaining / 128 in
      if 0 <? remaining then Z.lor byte 128 :: varint_loop fuel remaining else [byte]
  end.

Definition varint (value : Z) : list Z := varint_loop (S (Z.to_nat (Z.log2 value))) value.

Definition safe_natural (v : Z) : Prop := 0 <= v <= MAX_SAFE_INTEGER.

(** The continuation bit is apart from the seven others. *)
Lemma continuation_bits b : 0 <= b < 128 ->
  Z.land b 127 = b /\ Z.land b 128 = 0 /\ Z.land (Z.lor b 128) 127 = b /\ Z.land (Z.lor b 128) 128 = 128.
Proof.
  intros Hb.
  assert (Hall : forallb (fun b => (Z.land b 127 =? b) && (Z.land b 128 =? 0)
    && (Z.land (Z.lor b 128) 127 =? b) && (Z.land (Z.lor b 128) 128 =? 128)) (seqZ 0 128) = true)
    by (vm_compute; reflexivity).
  rewrite forallb_forall in Hall. specialize (Hall b). rewrite <-list_elem_of_In, elem_of_seqZ in Hall.
  rewrite !andb_true_iff, !Z.eqb_eq in Hall. destruct Hall as [[[? ?] ?] ?]; [lia|done].
Qed.

Lemma readVarint_loop_varint fuel n rest value multiplier :
  0 <= n < 128 ^ Z.of_nat fuel -> 0 <= value -> 0 < multiplier -> value + n * multiplier <= MAX_SAFE_INTEGER ->
  readVarint_loop (varint_loop fuel n ++ rest) value multiplier
    = match fuel with O => readVarint_loop rest value multiplier | S _ => Ok (value + n * multiplier, rest) end.
Proof.
  revert n value multiplier. induction fuel as [|fuel IH]; intros n value m Hn Hv Hm Hle; [done|].
  cbn [varint_loop]. pose proof (Z.mod_pos_bound n 128 ltac:(lia)) as Hb.
  destruct (continuation_bits (n mod 128) Hb) as (E1 & E2 & E3 & E4).
  pose proof (Z.div_mod n 128 ltac:(lia)) as Hdm.
  assert (n mod 128 <= n) by (apply Z.mod_le; lia).
  assert (0 <= n / 128) by (apply Z.div_pos; lia).
  assert (Hfirst : value + n mod 128 * m <= MAX_SAFE_INTEGER).
  { pose proof (Z.mul_le_mono_nonneg_r (n mod 128) n m). lia. }
  destruct (Z.ltb_spec 0 (n / 128)) as [Hpos|Hnot]; cbn [app readVarint_loop].
  - rewrite E3, E4. destruct (Z.ltb_spec MAX_SAFE_INTEGER (value + n mod 128 * m)); [lia|]. cbn [Z.eqb Pos.eqb].
    destruct (Z.ltb_spec MAX_SAFE_INTEGER (m * 128)); [nia|].
    rewrite Nat2Z.inj_succ, Z.pow_succ_r in Hn by lia.
    rewrite IH; [|split; [lia|apply Z.div_lt_upper_bound; lia]|nia|lia|nia].
    destruct fuel as [|fuel]; [change (128 ^ Z.of_nat 0) with 1 in Hn; lia|]. do 2 f_equal. nia.
  - rewrite E1, E2. destruct (Z.ltb_spec MAX_SAFE_INTEGER (value + n mod 128 * m)); [lia|]. cbn [Z.eqb].
    do 2 f_equal. nia.
Qed.

Lemma readVarint_varint n rest : safe_natural n -> readVarint (varint n ++ rest) = Ok (n, rest).
Proof.
  intros [? ?]. unfold readVarint, varint.
  assert (n < 128 ^ Z.of_nat (S (Z.to_nat (Z.log2 n)))).
  { rewrite Nat2Z.inj_succ, Z2Nat.id by apply Z.log2_nonneg.
    destruct (Z.eq_dec n 0) as [->|?]; [done|]. pose proof (Z.log2_spec n ltac:(lia)) as [_ Hlog].
    eapply Z.lt_le_trans; [exact Hlog|]. apply Z.pow_le_mono_l. lia. }
  rewrite readVarint_loop_varint by lia. do 2 f_equal. lia.
Qed.

Lemma readVarint_loop_range data value multiplier v rest : Forall is_byte data -> 0 <= value -> 0 < multiplier ->
  readVarint_loop data value multiplier = Ok (v, rest) -> safe_natural v /\ Forall is_byte rest.
Proof.
  revert value multiplier. induction data as [|byte data IH]; intros value m Hd Hv Hm; [discriminate|].
  apply Forall_cons in Hd as [Hbyte Hd]. cbn [readVarint_loop].
  assert (0 <= Z.land byte 127) by (apply Z.land_nonneg; right; lia).
  destruct (Z.ltb_spec MAX_SAFE_INTEGER (value + Z.land byte 127 * m)); [discriminate|].
  destruct (_ =? 0).
  - intros [= <- <-]. split; [|done]. unfold safe_natural. nia.
  - destruct (_ <? _); [discriminate|]. apply IH; [done|nia|lia].
Qed.

Lemma readVarint_range data v rest : Forall is_byte data -> readVarint data = Ok (v, rest) ->
  safe_natural v /\ Forall is_byte rest.
Proof. intros ?. by apply readVarint_loop_range. Qed.

Lemma varint_length n : (1 <= length (varint n))%nat.
Proof. unfold varint. cbn [varint_loop]. destruct (_ <? _); apply le_n_S, Nat.le_0_l. Qed.

(** ** Passes *)

Definition encode_pass (values : list Z) : list Z := concat (map varint values).

Lemma read_pass_encode values rest : Forall safe_natural values ->
  read_pass (length values) (encode_pass values ++ rest) = Ok (values, rest).
Proof.
  unfold encode_pass. induction 1 as [|v values Hv _ IH]; [done|]. cbn [length read_pass map concat].
  rewrite <-app_assoc, readVarint_varint by done. cbn. rewrite IH. done.
Qed.

Lemma encode_pass_length values : (length values <= length (encode_pass values))%nat.
Proof.
  unfold encode_pass. induction values as [|v values IH]; [done|]. cbn [map concat length]. rewrite length_app.
  pose proof (varint_length v). lia.
Qed.

Lemma read_pass_range n data values rest : Forall is_byte data -> read_pass n data = Ok (values, rest) ->
  Forall safe_natural values /\ length values = n /\ Forall is_byte rest.
Proof.
  revert data values. induction n as [|n IH]; intros data values Hd; cbn [read_pass].
  - intros [= <- <-]. done.
  - intros ([v d1] & Hv & H)%outcome_bind_ok. destruct (readVarint_range _ _ _ Hd Hv) as [Hsafe Hd1].
    apply outcome_bind_ok in H as ([vs d2] & Hvs & [= <- <-]).
    destruct (IH d1 vs Hd1 Hvs) as (? & <- & ?). split; [by constructor|done].
Qed.

(** ** Directories *)

(** The encoder of the test fixtures, before compression. *)
Fixpoint id_deltas (previousTileId : Z) (entries : list DirectoryEntry) : list Z :=
  match entries with
  | [] => []
  | e :: entries => tileId e - previousTileId :: id_deltas (tileId e) entries
  end.

Fixpoint offset_values (nextOffset : Z) (entries : list DirectoryEntry) : list Z :=
  match entries with
  | [] => []
  | e :: entries =>
      (if de_offset e =? nextOffset then 0 else de_offset e + 1)
      :: offset_values (de_offset e + de_length e) entries
  end.

Definition encodeDirectory (entries : list DirectoryEntry) : list Z :=
  varint (Z.of_nat (length entries))
  ++ encode_pass (id_deltas 0 entries)
  ++ encode_pass (map runLength entries)
  ++ encode_pass (map de_length entries)
  ++ encode_pass match entries with
                 | [] => []
                 | e :: entries => de_offset e + 1 :: offset_values (de_offset e + de_length e) entries
                 end.

(** What the format asks of a directory. *)
Definition entry_ok (e : DirectoryEntry) : Prop :=
  0 < de_length e /\ 0 <= de_offset e < MAX_SAFE_INTEGER /\ de_length e <= MAX_SAFE_INTEGER /\
  0 <= tileId e /\ 0 <= runLength e /\ tileId e + runLength e <= MAX_SAFE_INTEGER.

Definition increasing (es : list DirectoryEntry) : Prop := StronglySorted (fun a b => tileId a < tileId b) es.

Definition directory (es : list DirectoryEntry) : Prop :=
  es <> [] /\ safe_natural (Z.of_nat (length es)) /\ Forall entry_ok es /\ increasing es.

Lemma running_sums_deltas previous es : running_sums previous (id_deltas previous es) = map tileId es.
Proof.
  revert previous. induction es as [|e es IH]; intros previous; [done|].
  cbn [id_deltas running_sums map]. replace (previous + (tileId e - previous)) with (tileId e) by lia. by rewrite IH.
Qed.

Lemma next_offsets_values previous previousLength es : 0 < previousLength -> 0 <= previous -> Forall entry_ok es ->
  next_offsets previous previousLength (offset_values (previous + previousLength) es) (map de_length es) = map de_offset es.
Proof.
  intros Hl Hp Hes. revert previous previousLength Hl Hp.
  induction Hes as [|e es He _ IH]; intros previous len Hl Hp; [done|]. destruct He as (? & ? & _).
  cbn [offset_values map next_offsets].
  assert (Hoff : (if (if de_offset e =? previous + len then 0 else de_offset e + 1) =? 0 then previous + len
           else (if de_offset e =? previous + len then 0 else de_offset e + 1) - 1) = de_offset e).
  { destruct (Z.eqb_spec (de_offset e) (previous + len)) as [->|?]; [done|].
    destruct (Z.eqb_spec (de_offset e + 1) 0); lia. }
  rewrite Hoff. f_equal. apply IH; lia.
Qed.

Lemma make_entries_map es :
  make_entries (map tileId es) (map runLength es) (map de_length es) (map de_offset es) = es.
Proof. induction es as [|[] es IH]; [done|]. cbn. by rewrite IH. Qed.

Lemma deltas_safe previous es : 0 <= previous -> Forall entry_ok es -> increasing es ->
  Forall (fun e => previous <= tileId e) es -> Forall safe_natural (id_deltas previous es).
Proof.
  intros Hp Hes Hsorted. revert previous Hp. induction Hsorted as [|e es _ IH He]; intros previous Hp Hmin; [constructor|].
  apply Forall_cons in Hes as [(_ & _ & _ & ? & ? & ?) Hes], Hmin as [? _]. constructor.
  - unfold safe_natural. lia.
  - apply IH; [done|done|]. eapply Forall_impl; [exact He|]. cbn. lia.
Qed.

Lemma offset_values_safe next es : Forall entry_ok es -> Forall safe_natural (offset_values next es).
Proof.
  intros Hes. revert next. induction Hes as [|e es (? & ? & ?) _ IH]; intros next; constructor; [|apply IH].
  unfold safe_natural. destruct (_ =? _); lia.
Qed.

Lemma id_deltas_length previous es : length (id_deltas previous es) = length es.
Proof. revert previous. induction es as [|e es IH]; intros previous; [done|]. cbn. by rewrite IH. Qed.

Lemma offset_values_length next es : length (offset_values next es) = length es.
Proof. revert next. induction es as [|e es IH]; intros next; [done|]. cbn. by rewrite IH. Qed.

Lemma check_entries_ok previous es : Forall entry_ok es -> increasing es ->
  Forall (fun e => match previous with Some id => id < tileId e | None => True end) es ->
  check_entries previous es = Ok tt.
Proof.
  intros Hes Hsorted. revert previous. induction Hsorted as [|e es _ IH He]; intros previous Hmin; [done|].
  apply Forall_cons in Hes as [(? & ? & ? & ? & ? & ?) Hes], Hmin as [Hp _]. cbn [check_entries].
  assert (bad_entry e = false) as ->.
  { unfold bad_entry, is_safe. rewrite !orb_false_iff, !negb_false_iff, !Z.leb_le. lia. }
  assert (match previous with Some id => tileId e <=? id | None => false end = false) as ->.
  { destruct previous; [lia|done]. }
  apply IH; [done|]. eapply Forall_impl; [exact He|]. done.
Qed.

(** The values of the last pass. *)
Definition first_offset_values (es : list DirectoryEntry) : list Z :=
  match es with [] => [] | e :: es => de_offset e + 1 :: offset_values (de_offset e + de_length e) es end.

Lemma first_offset_values_length es : length (first_offset_values es) = length es.
Proof. destruct es as [|e es]; [done|]. cbn. by rewrite offset_values_length. Qed.

Lemma passes_safe es : Forall entry_ok es -> increasing es ->
  Forall safe_natural (id_deltas 0 es) /\ Forall safe_natural (map runLength es) /\
  Forall safe_natural (map de_length es) /\ Forall safe_natural (first_offset_values es).
Proof.
  intros Hes Hsorted. split_and!.
  - apply deltas_safe; [done..|]. eapply Forall_impl; [exact Hes|]. intros e (?&?&?&?&?&?). done.
  - apply Forall_map. eapply Forall_impl; [exact Hes|]. intros e (?&?&?&?&?&?). unfold safe_natural. cbn. lia.
  - apply Forall_map. eapply Forall_impl; [exact Hes|]. intros e (?&?&?&?&?&?). unfold safe_natural. cbn. lia.
  - destruct Hes as [|e es (?&?&?&?&?&?) Hes]; [constructor|].
    constructor; [unfold safe_natural; lia|by apply offset_values_safe].
Qed.

(** Four bytes an entry at least. *)
Lemma directory_is_long es rest : rest = encode_pass (id_deltas 0 es) ++ encode_pass (map runLength es)
    ++ encode_pass (map de_length es) ++ encode_pass (first_offset_values es) ->
  (Z.of_nat (length rest) / 4 <? Z.of_nat (length es)) = false.
Proof.
  intros ->. apply Z.ltb_ge, Z.div_le_lower_bound; [lia|]. rewrite !length_app.
  pose proof (encode_pass_length (id_deltas 0 es)) as H1. pose proof (encode_pass_length (map runLength es)) as H2.
  pose proof (encode_pass_length (map de_length es)) as H3. pose proof (encode_pass_length (first_offset_values es)) as H4.
  rewrite id_deltas_length in H1. rewrite length_map in H2, H3. rewrite first_offset_values_length in H4. lia.
Qed.

Lemma first_offsets es : Forall entry_ok es ->
  entry_offsets (first_offset_values es) (map de_length es) = map de_offset es.
Proof.
  intros [|e es' (?&?&?&?&?&?) Hes]; [done|]. cbn [first_offset_values map entry_offsets].
  rewrite Z.add_simpl_r. f_equal. apply next_offsets_values; [lia..|done].
Qed.

Lemma decode_encoded es : directory es -> decode_entries (encodeDirectory es) = Ok es.
Proof.
  intros (Hne & Hcount & Hes & Hsorted). unfold decode_entries, encodeDirectory.
  fold (first_offset_values es). destruct (passes_safe es Hes Hsorted) as (S1 & S2 & S3 & S4).
  rewrite readVarint_varint by done. cbn [mbind outcome_bind].
  destruct (Z.leb_spec (Z.of_nat (length es)) 0); [by destruct es|].
  rewrite directory_is_long, Nat2Z.id by done.
  rewrite <-(id_deltas_length 0 es) at 1. rewrite read_pass_encode by done. cbn [mbind outcome_bind].
  rewrite <-(length_map runLength es) at 1. rewrite read_pass_encode by done. cbn [mbind outcome_bind].
  rewrite <-(length_map de_length es) at 1. rewrite read_pass_encode by done. cbn [mbind outcome_bind].
  rewrite <-(app_nil_r (encode_pass (first_offset_values es))), <-(first_offset_values_length es).
  rewrite read_pass_encode by done. cbn [mbind outcome_bind].
  rewrite running_sums_deltas, first_offsets, make_entries_map by done.
  rewrite check_entries_ok; [done..|]. by apply Forall_true.
Qed.

(** C17: whatever directory a writer of the format encodes, the reader decodes it. *)
Theorem directories_round_trip es : directory es -> decode_entries (encodeDirectory es) = Ok es.
Proof. apply decode_encoded. Qed.

Lemma directories_round_trip_witness :
  decode_entries (encodeDirectory
    [{| tileId := 0; de_offset := 0; de_length := 300; runLength := 1 |};
     {| tileId := 5; de_offset := 300; de_length := 7; runLength := 16 |};
     {| tileId := 1000; de_offset := 0; de_length := 90; runLength := 0 |}])
  = Ok [{| tileId := 0; de_offset := 0; de_length := 300; runLength := 1 |};
     {| tileId := 5; de_offset := 300; de_length := 7; runLength := 16 |};
     {| tileId := 1000; de_offset := 0; de_length := 90; runLength := 0 |}].
Proof.
  apply directories_round_trip. split; [discriminate|]. unfold safe_natural, entry_ok, MAX_SAFE_INTEGER. split; [cbn; lia|].
  split; [repeat constructor; cbn; lia|]. repeat constructor; cbn; lia.
Defined.

(** What decodes is a directory, but for the largest offset, which has no encoding. *)
Definition decoded_entry (e : DirectoryEntry) : Prop :=
  0 < de_length e <= MAX_SAFE_INTEGER /\ 0 <= de_offset e <= MAX_SAFE_INTEGER /\
  0 <= tileId e /\ 0 <= runLength e /\ tileId e + runLength e <= MAX_SAFE_INTEGER.

Lemma check_entries_inv previous es : check_entries previous es = Ok tt ->
  Forall (fun e => bad_entry e = false) es /\ increasing es /\
  Forall (fun e => match previous with Some id => id < tileId e | None => True end) es.
Proof.
  revert previous. induction es as [|e es IH]; intros previous H; [split_and!; constructor|].
  cbn [check_entries] in H. destruct (bad_entry e) eqn:Hb; [discriminate|]. cbn [orb] in H.
  destruct (match previous with Some id => tileId e <=? id | None => false end) eqn:Hp; [discriminate|].
  destruct (IH _ H) as (? & ? & Hmin). split; [by constructor|]. split; [by constructor|].
  assert (match previous with Some id => id < tileId e | None => True end) by (destruct previous; [lia|done]).
  constructor; [done|]. eapply Forall_impl; [exact Hmin|]. destruct previous; [|done]. cbn. lia.
Qed.

Lemma running_sums_le previous deltas : Forall safe_natural deltas -> 0 <= previous ->
  Forall (fun id => 0 <= id) (running_sums previous deltas).
Proof.
  intros Hd. revert previous. induction Hd as [|d deltas [? ?] _ IH]; intros previous ?; constructor; [lia|]. apply IH. lia.
Qed.

Lemma make_entries_fields ids runs lengths offsets :
  Forall (fun id => 0 <= id) ids -> Forall safe_natural runs ->
  Forall (fun e => 0 <= tileId e /\ 0 <= runLength e) (make_entries ids runs lengths offsets).
Proof.
  intros Hids. revert runs lengths offsets. induction Hids as [|id ids ? _ IH]; intros runs lengths offsets Hruns; [constructor|].
  destruct Hruns as [|run runs [? ?] Hruns], lengths, offsets; try constructor; [done|]. by apply IH.
Qed.

Lemma decode_entries_sound data es : Forall is_byte data -> decode_entries data = Ok es ->
  Forall decoded_entry es /\ increasing es.
Proof.
  intros Hd H. unfold decode_entries in H.
  apply outcome_bind_ok in H as ([count d0] & H0 & H). destruct (readVarint_range _ _ _ Hd H0) as [_ Hd0].
  destruct (count <=? 0); [discriminate|]. destruct (_ <? count); [discriminate|].
  apply outcome_bind_ok in H as ([deltas d1] & H1 & H). destruct (read_pass_range _ _ _ _ Hd0 H1) as (Hdeltas & _ & Hd1).
  apply outcome_bind_ok in H as ([runs d2] & H2 & H). destruct (read_pass_range _ _ _ _ Hd1 H2) as (Hruns & _ & Hd2).
  apply outcome_bind_ok in H as ([lengths d3] & H3 & H).
  apply outcome_bind_ok in H as ([values d4] & H4 & H). destruct d4; [|discriminate].
  apply outcome_bind_ok in H as ([] & Hc & [= <-]).
  destruct (check_entries_inv _ _ Hc) as (Hgood & Hsorted & _). split; [|done].
  pose proof (make_entries_fields _ runs lengths (entry_offsets values lengths)
    (running_sums_le 0 deltas Hdeltas ltac:(lia)) Hruns) as Hfields.
  eapply Forall_impl; [apply Forall_and; split; [exact Hgood|exact Hfields]|].
  intros e [Hb [? ?]]. unfold bad_entry, is_safe in Hb.
  rewrite !orb_false_iff, !negb_false_iff, !Z.leb_le, Z.leb_gt, Z.ltb_ge in Hb. unfold decoded_entry. lia.
Qed.
