(* ===== verification/Archive.v ===== *)
(** * What a validated archive serves

    [validate] of [Pmtiles] looks at every entry once; afterwards a lookup through the
    root and a leaf answers what a search of all tile entries would, except where a run
    of a leaf crosses the next pointer of the root, which [validate] lets through.  A
    rule of the format that it does not check excludes these runs: a leaf starts at its
    pointer. *)

From S2P Require Import Prelude Text Doubles Sha256 TileId Pmtiles.
Local Open Scope Z_scope.

(** Documented behaviour of the decompressor: it gives bytes. *)
Class ArchiveCodecLaws `{ArchiveCodecs} := {
  gunzip_bytes : forall bytes data, gunzip bytes = Ok data -> Forall is_byte data;
}.

Definition covers (id : Z) (e : DirectoryEntry) : bool := (tileId e <=? id) && (id <? tileId e + runLength e).

Lemma covers_spec id e : covers id e = true <-> tileId e <= id < tileId e + runLength e.
Proof. unfold covers. rewrite andb_true_iff, Z.leb_le, Z.ltb_lt. done. Qed.

(** One range ends before the other begins. *)
Definition apart (a b : DirectoryEntry) : Prop := tileId a + runLength a <= tileId b.

Definition all_apart (tiles : list DirectoryEntry) : Prop :=
  forall a b, a ∈ tiles -> b ∈ tiles -> tileId a < tileId b -> apart a b.

Lemma find_none {A} (f : A -> bool) l : (forall x, x ∈ l -> f x = false) -> List.find f l = None.
Proof.
  induction l as [|x l IH]; intros H; [done|]. cbn. rewrite (H x) by left. apply IH. intros y ?. apply H. by right.
Qed.

Lemma find_app {A} (f : A -> bool) l k :
  List.find f (l ++ k) = match List.find f l with Some x => Some x | None => List.find f k end.
Proof. induction l as [|x l IH]; [done|]. cbn. by destruct (f x). Qed.

(** ** One directory of tiles *)

Lemma findEntry_tiles es id : increasing es -> Forall (fun e => 0 < runLength e) es -> all_apart es ->
  findEntry es id = List.find (covers id) es.
Proof.
  intros Hsorted. induction Hsorted as [|e es Hs IH He]; intros Hrun Hapart; [done|].
  apply Forall_cons in Hrun as [Hr Hrun]. cbn [findEntry List.find].
  destruct (Z.eqb_spec (runLength e) 0); [lia|].
  change ((tileId e <=? id) && (id <? tileId e + runLength e)) with (covers id e).
  destruct (covers id e) eqn:Hc; [done|].
  destruct (Z.ltb_spec id (tileId e)) as [Hlt|Hge].
  - symmetry. apply find_none. intros c Hin. apply not_true_iff_false. rewrite covers_spec.
    rewrite Forall_forall in He. specialize (He c Hin). lia.
  - apply IH; [done|]. intros a b ??. apply Hapart; by right.
Qed.

(** ** Through the root *)

Section archive.
Context `{ArchiveCodecLaws} (file : list Z) (h : LocalPmtilesHeader).

(** What the first loop of [validate] has seen. *)
Inductive collected : list DirectoryEntry -> list DirectoryEntry -> Prop :=
  | collected_nil : collected [] []
  | collected_tile e rest tiles : 0 < runLength e -> collected rest tiles -> collected (e :: rest) (e :: tiles)
  | collected_leaf e leaf rest tiles : ~ 0 < runLength e -> leafDirectory file h e = Ok leaf ->
      Forall (fun c => runLength c <> 0 /\ tileId e <= tileId c /\
                       match rest with next :: _ => tileId c < tileId next | [] => True end) leaf ->
      collected rest tiles -> collected (e :: rest) (leaf ++ tiles).

Lemma existsb_false {A} (f : A -> bool) l : existsb f l = false -> Forall (fun x => f x = false) l.
Proof.
  induction l as [|x l IH]; intros Hf; [constructor|]. apply orb_false_iff in Hf as [? ?]. constructor; auto.
Qed.

Lemma collect_collected root tiles ranges : collect file h root = Ok (tiles, ranges) -> collected root tiles.
Proof.
  revert tiles ranges. induction root as [|e rest IH]; intros tiles ranges; cbn [collect].
  - intros [= <- <-]. constructor.
  - destruct (Z.ltb_spec 0 (runLength e)) as [Hr|Hr].
    + intros ([t r] & Hc & [= <- <-])%outcome_bind_ok. constructor; [done|]. by eapply IH.
    + intros (leaf & Hleaf & Hrest)%outcome_bind_ok.
      destruct (existsb _ leaf) eqn:Hnested in Hrest; [discriminate|].
      destruct (existsb _ leaf) eqn:Houtside in Hrest; [discriminate|].
      apply outcome_bind_ok in Hrest as ([t r] & Hc & [= <- <-]).
      econstructor; [lia|exact Hleaf| |by eapply IH].
      apply existsb_false in Hnested, Houtside.
      eapply Forall_impl; [apply Forall_and; split; [exact Hnested|exact Houtside]|].
      cbn. intros c [Hn Ho]. apply Z.eqb_neq in Hn. apply orb_false_iff in Ho as [Hlow Hhigh].
      split; [done|]. split; [lia|]. destruct rest; [done|]. lia.
Qed.

(** The rule of the format: the first entry of a leaf has the tile id of its pointer. *)
Definition leaves_start_at_pointers (root : list DirectoryEntry) : Prop :=
  forall e leaf, e ∈ root -> runLength e = 0 -> leafDirectory file h e = Ok leaf ->
    exists c, c ∈ leaf /\ tileId c = tileId e.

(** The lookup in the root and the leaf. *)
Definition search (root : list DirectoryEntry) (id : Z) : outcome (option DirectoryEntry) :=
  match findEntry root id with
  | Some e => if runLength e =? 0 then leaf ← leafDirectory file h e; Ok (findEntry leaf id) else Ok (Some e)
  | None => Ok None
  end.

(** The tiles under a root come no earlier than its first entry. *)
Lemma collected_after root tiles c : collected root tiles -> increasing root -> c ∈ tiles ->
  match root with e :: _ => tileId e <= tileId c | [] => False end.
Proof.
  intros Hc. induction Hc as [|e rest tiles Hr Hc IH|e leaf rest tiles Hr Hl Hf Hc IH]; intros Hs Hin.
  - by apply not_elem_of_nil in Hin.
  - apply elem_of_cons in Hin as [->|Hin]; [done|].
    apply StronglySorted_inv in Hs as [Hs He]. specialize (IH Hs Hin). destruct rest as [|e' rest]; [done|].
    apply Forall_cons in He as [? _]. lia.
  - apply elem_of_app in Hin as [Hin|Hin].
    + rewrite Forall_forall in Hf. by destruct (Hf c Hin) as (_ & ? & _).
    + apply StronglySorted_inv in Hs as [Hs He]. specialize (IH Hs Hin). destruct rest as [|e' rest]; [done|].
      apply Forall_cons in He as [? _]. lia.
Qed.

(** What a pointer of the root leads to has been collected. *)
Lemma collected_behind root tiles p : collected root tiles -> p ∈ root -> ~ 0 < runLength p ->
  exists leaf, leafDirectory file h p = Ok leaf /\ leaf ⊆ tiles.
Proof.
  intros Hc. induction Hc as [|e rest tiles Hr Hc IH|e leaf rest tiles Hr Hl Hf Hc IH]; intros Hin Hp.
  - by apply not_elem_of_nil in Hin.
  - apply elem_of_cons in Hin as [->|Hin]; [done|]. destruct (IH Hin Hp) as (leaf & Hl & Hsub).
    exists leaf. split; [done|]. intros c Hc'. right. by apply Hsub.
  - apply elem_of_cons in Hin as [->|Hin].
    + exists leaf. split; [done|]. intros c Hc'. apply elem_of_app. by left.
    + destruct (IH Hin Hp) as (leaf' & Hl' & Hsub). exists leaf'. split; [done|].
      intros c Hc'. apply elem_of_app. right. by apply Hsub.
Qed.

Lemma collected_direct root tiles p : collected root tiles -> p ∈ root -> 0 < runLength p -> p ∈ tiles.
Proof.
  intros Hc. induction Hc as [|e rest tiles Hr Hc IH|e leaf rest tiles Hr Hl Hf Hc IH]; intros Hin Hp.
  - done.
  - apply elem_of_cons in Hin as [->|Hin]; [left|right; by apply IH].
  - apply elem_of_cons in Hin as [->|Hin]; [done|]. apply elem_of_app. right. by apply IH.
Qed.

(** A run that covers the number and reaches it across a pointer of the root. *)
Definition crossed (root tiles : list DirectoryEntry) (id : Z) : Prop :=
  exists c p, c ∈ tiles /\ p ∈ root /\ runLength p = 0 /\ tileId c < tileId p <= id /\ covers id c = true.

Lemma starts_uncrossed root tiles id :
  collected root tiles -> all_apart tiles -> leaves_start_at_pointers root -> ~ crossed root tiles id.
Proof.
  intros Hc Hapart Hstart (c & p & Hin & Hp & Hzero & [Hlt Hle] & Hcov).
  destruct (collected_behind root tiles p Hc Hp) as (leaf & Hl & Hsub); [lia|].
  destruct (Hstart p leaf Hp Hzero Hl) as (f & Hf & Heq).
  assert (apart c f) as Hcf by (apply Hapart; [done|by apply Hsub|lia]).
  apply covers_spec in Hcov. unfold apart in Hcf. lia.
Qed.

Lemma readExact_bytes offset len bytes : Forall is_byte file -> readExact file offset len = Ok bytes -> Forall is_byte bytes.
Proof.
  intros Hfile Hb. unfold readExact, file_read in Hb. destruct (_ || _); [discriminate|].
  cbn [mbind outcome_bind] in Hb. destruct (_ =? _); [|discriminate]. injection Hb as <-. by apply Forall_take, Forall_drop.
Qed.

Lemma decodeDirectory_sound bytes compression es : Forall is_byte bytes -> decodeDirectory bytes compression = Ok es ->
  Forall decoded_entry es /\ increasing es.
Proof.
  intros Hb (data & Hd & Hl)%outcome_bind_ok. apply (decode_entries_sound data); [|done]. unfold decodeInternal in Hd.
  destruct (_ =? NONE); [by injection Hd as <-|].
  destruct (_ =? GZIP); [by apply (gunzip_bytes _ _ Hd)|discriminate].
Qed.

Lemma leaf_sound e leaf : Forall is_byte file -> leafDirectory file h e = Ok leaf ->
  Forall decoded_entry leaf /\ increasing leaf.
Proof.
  intros Hfile Hl. unfold leafDirectory in Hl. destruct (_ || _); [discriminate|].
  apply outcome_bind_ok in Hl as (bytes & Hb & Hl). eapply decodeDirectory_sound; [|exact Hl].
  by eapply readExact_bytes.
Qed.

(** Where no run ends up behind a later pointer, the two searches agree; elsewhere the
    lookup answers nothing. *)
Definition searched (root tiles : list DirectoryEntry) (id : Z) : Prop :=
  search root id = Ok (List.find (covers id) tiles)
  \/ search root id = Ok None /\ crossed root tiles id.

Lemma searched_tile e rest tiles id :
  0 < runLength e -> collected rest tiles -> increasing (e :: rest) ->
  searched rest tiles id -> searched (e :: rest) (e :: tiles) id.
Proof.
  intros Hr Hc Hs IH. pose proof (collected_after rest tiles) as Hafter.
  apply StronglySorted_inv in Hs as [Hs He]. unfold searched, search in *.
  cbn [findEntry List.find]. destruct (Z.eqb_spec (runLength e) 0); [lia|].
  change ((tileId e <=? id) && (id <? tileId e + runLength e)) with (covers id e).
  destruct (covers id e) eqn:Hcov; [left; by destruct (Z.eqb_spec (runLength e) 0); [lia|]|].
  destruct (Z.ltb_spec id (tileId e)) as [Hlt|Hge].
  - left. rewrite find_none; [done|]. intros c Hin. apply not_true_iff_false. rewrite covers_spec.
    specialize (Hafter c Hc Hs Hin). destruct rest; [done|]. apply Forall_cons in He as [? _]. lia.
  - destruct IH as [IH|[IH (c & p & ? & ? & ?)]]; [by left|].
    right. split; [done|]. exists c, p. split; [by right|]. split; [by right|done].
Qed.

(** A pointer before the next entry of the root, which the number has passed. *)
Lemma searched_past e leaf rest tiles id :
  all_apart (leaf ++ tiles) -> collected rest tiles -> increasing rest ->
  Forall (fun e => 0 <= runLength e) rest ->
  Forall (fun c => match rest with next :: _ => tileId c < tileId next | [] => True end) leaf ->
  match rest with next :: _ => tileId next <= id | [] => False end ->
  searched rest tiles id ->
  search rest id = Ok (List.find (covers id) (leaf ++ tiles))
  \/ search rest id = Ok None /\ crossed (e :: rest) (leaf ++ tiles) id.
Proof.
  intros Hapart Hc Hs Hrun Hf Hnext IH. rewrite find_app.
  destruct (List.find (covers id) leaf) as [c|] eqn:Hfind.
  - right. apply find_some in Hfind as [Hin Hcov]. rewrite <- list_elem_of_In in Hin.
    rewrite Forall_forall in Hf. specialize (Hf c Hin). destruct rest as [|next rest]; [done|].
    assert (forall d, d ∈ tiles -> covers id d = false) as Hno.
    { intros d Hd. apply not_true_iff_false. pose proof (collected_after _ _ d Hc Hs Hd) as Hge. cbn in Hge.
      assert (apart c d) as Hcd by (apply Hapart; [apply elem_of_app; by left|apply elem_of_app; by right|lia]).
      rewrite !covers_spec in *. unfold apart in Hcd. lia. }
    split.
    + destruct IH as [IH|[IH _]]; [|done]. rewrite IH. by rewrite find_none.
    + exists c, next. split; [apply elem_of_app; by left|]. split; [right; left|].
      split; [|split; [lia|done]]. apply Forall_cons in Hrun as [Hrun _].
      destruct (decide (0 < runLength next)) as [Hpos|]; [|lia].
      assert (next ∈ tiles) as Hd by (eapply collected_direct; [exact Hc|left|done]).
      assert (apart c next) as Hcd by (apply Hapart; [apply elem_of_app; by left|apply elem_of_app; by right|lia]).
      rewrite covers_spec in Hcov. unfold apart in Hcd. lia.
  - destruct IH as [IH|[IH (c & p & ? & ? & ?)]]; [by left|].
    right. split; [done|]. exists c, p. split; [apply elem_of_app; by right|]. split; [by right|done].
Qed.

Lemma search_collected root tiles id : Forall is_byte file ->
  collected root tiles -> increasing root -> Forall (fun e => 0 <= runLength e) root ->
  all_apart tiles -> searched root tiles id.
Proof.
  intros Hfile Hc. induction Hc as [|e rest tiles Hr Hc IH|e leaf rest tiles Hr Hl Hf Hc IH];
    intros Hs Hrun Hapart; [by left| |].
  - apply searched_tile; [done..|]. apply StronglySorted_inv in Hs as [Hs He].
    apply Forall_cons in Hrun as [_ Hrun]. apply IH; [done|done|]. intros a b ??. apply Hapart; by right.
  - apply Forall_cons in Hrun as [? Hrun]. assert (Hzero : runLength e = 0) by lia.
    apply StronglySorted_inv in Hs as [Hs He].
    assert (Hrest : forall c, c ∈ tiles -> match rest with next :: _ => tileId next <= tileId c | [] => False end)
      by (intros c; by apply collected_after).
    destruct (leaf_sound e leaf Hfile Hl) as [Hdec Hls].
    assert (Hleaf : findEntry leaf id = List.find (covers id) leaf).
    { apply findEntry_tiles; [done| |].
      - rewrite Forall_forall in Hf, Hdec |- *. intros c Hin.
        destruct (Hf c Hin) as (? & _), (Hdec c Hin) as (_ & _ & _ & ? & _). lia.
      - intros a b ??. apply Hapart; apply elem_of_app; by left. }
    unfold searched, search at 1 2. cbn [findEntry]. rewrite Hzero. cbn [Z.eqb].
    destruct ((tileId e <=? id) && match rest with next :: _ => id <? tileId next | [] => true end) eqn:Hhere.
    + left. rewrite find_app, Hzero, Hl. cbn [Z.eqb mbind outcome_bind]. rewrite Hleaf.
      destruct (List.find (covers id) leaf); [done|]. rewrite find_none; [done|].
      intros c Hin. apply not_true_iff_false. rewrite covers_spec. specialize (Hrest c Hin).
      destruct rest; [done|]. lia.
    + destruct (Z.ltb_spec id (tileId e)) as [Hlt|Hge].
      * left. rewrite find_app, !find_none; [done|..]; intros c Hin; apply not_true_iff_false; rewrite covers_spec.
        -- specialize (Hrest c Hin). destruct rest; [done|]. apply Forall_cons in He as [? _]. lia.
        -- rewrite Forall_forall in Hf. destruct (Hf c Hin) as (_ & ? & _). lia.
      * apply searched_past; [done|done|done|done| | |].
        -- eapply Forall_impl; [exact Hf|]. cbn. by intros c (_ & _ & ?).
        -- rewrite (proj2 (Z.leb_le _ _) Hge) in Hhere. cbn [andb] in Hhere.
           destruct rest; [done|]. by apply Z.ltb_ge in Hhere.
        -- apply IH; [done|done|]. intros a b ??. apply Hapart; apply elem_of_app; by right.
Qed.

(** ** The tiles validate has let through *)

Definition tile_ok (e : DirectoryEntry) : Prop := 0 < runLength e /\ de_offset e <= tileDataLength h - de_length e.

Lemma check_tiles_ok previous addressed contents es result :
  check_tiles h previous addressed contents es = Ok result ->
  Forall tile_ok es /\ StronglySorted apart es /\
  Forall (fun e => match previous with Some p => apart p e | None => True end) es.
Proof.
  revert previous addressed contents. induction es as [|e es IH]; intros previous addressed contents Hok;
    [split_and!; constructor|]. cbn [check_tiles] in Hok.
  destruct (_ || _) eqn:Hzoom in Hok; [discriminate|]. apply orb_false_iff in Hzoom as [[Hrun _]%orb_false_iff _].
  apply Z.leb_gt in Hrun.
  destruct (match previous with Some p => _ | None => false end) eqn:Hp; [discriminate|].
  destruct (Z.ltb_spec (tileDataLength h - de_length e) (de_offset e)); [discriminate|].
  destruct (negb _); [discriminate|]. destruct (IH _ _ _ Hok) as (Hes & Hs & Hmin).
  split; [by constructor; [split|]|]. split; [by constructor|].
  assert (match previous with Some p => apart p e | None => True end).
  { destruct previous; [|done]. apply Z.ltb_ge in Hp. exact Hp. }
  constructor; [done|]. eapply Forall_impl; [exact Hmin|]. destruct previous; [|done]. unfold apart in *. cbn. lia.
Qed.

Lemma sorted_apart es : Forall tile_ok es -> StronglySorted apart es -> all_apart es.
Proof.
  intros Hok Hs. induction Hs as [|e es Hs IH He]; intros a b Ha Hb Hlt; [by apply not_elem_of_nil in Ha|].
  apply Forall_cons in Hok as [[? _] Hok]. rewrite Forall_forall in He.
  apply elem_of_cons in Ha as [->|Ha], Hb as [->|Hb].
  - lia.
  - by apply He.
  - specialize (He a Ha). unfold apart in *. rewrite Forall_forall in Hok. destruct (Hok a Ha). lia.
  - by apply IH.
Qed.

(** The sections lie in the archive. *)
Lemma check_sections_ok size l label offset len : check_sections size l = Ok tt -> (label, offset, len) ∈ l ->
  HEADER_LENGTH <= offset /\ 0 <= len /\ offset + len <= size.
Proof.
  induction l as [|[[label' offset'] len'] l IH]; intros Hok Hin; [by apply not_elem_of_nil in Hin|].
  cbn [check_sections] in Hok. destruct (_ || _) eqn:Hc in Hok; [discriminate|].
  apply elem_of_cons in Hin as [[= -> -> ->]|Hin]; [|by apply IH].
  rewrite !orb_false_iff, !Z.ltb_ge in Hc. destruct Hc as [[[_ ?] ?] ?]. lia.
Qed.

Lemma reject_ok {A} c m (k : outcome A) x : reject c m k = Ok x -> c = false /\ k = Ok x.
Proof. by destruct c. Qed.

Lemma validateHeader_ok g size : validateHeader g size = Ok h -> g = h /\
  is_safe size = true /\ HEADER_LENGTH <= tileDataOffset h /\ 0 <= tileDataLength h /\
  tileDataOffset h + tileDataLength h <= size /\ maxZoom h <= 24.
Proof.
  unfold validateHeader. intros Hok.
  apply reject_ok in Hok as [Hsize Hok]. do 3 apply reject_ok in Hok as [_ Hok].
  apply reject_ok in Hok as [Hzoom Hok]. apply reject_ok in Hok as [_ Hok].
  apply outcome_bind_ok in Hok as ([] & Hsections & Hok). apply outcome_bind_ok in Hok as ([] & _ & Hok).
  do 2 apply reject_ok in Hok as [_ Hok]. injection Hok as ->.
  apply orb_false_iff in Hsize as [Hsafe _], Hzoom as [_ Hmax]. apply negb_false_iff in Hsafe. apply Z.ltb_ge in Hmax.
  destruct (check_sections_ok _ _ "tile data"%string (tileDataOffset h) (tileDataLength h) Hsections) as (? & ? & ?);
    [do 3 right; left|done].
Qed.

Lemma header_ok : header file = Ok h ->
  is_safe (Z.of_nat (length file)) = true /\ HEADER_LENGTH <= tileDataOffset h /\ 0 <= tileDataLength h /\
  tileDataOffset h + tileDataLength h <= Z.of_nat (length file) /\ maxZoom h <= 24.
Proof.
  intros (bytes & _ & Hok)%outcome_bind_ok. apply outcome_bind_ok in Hok as (parsed & _ & Hok).
  by apply validateHeader_ok in Hok as [_ ?].
Qed.

(** The bytes of an entry, decompressed when the archive says so. *)
Definition payload_of (e : DirectoryEntry) : outcome (list Z) :=
  let bytes := take (Z.to_nat (de_length e)) (drop (Z.to_nat (tileDataOffset h + de_offset e)) file) in
  if tileCompression h =? GZIP then gunzip bytes else Ok bytes.

Lemma tilePayload_inside e : header file = Ok h -> decoded_entry e -> tile_ok e -> tilePayload file h e = payload_of e.
Proof.
  intros (Hsafe & Hoff & Hlen & Hsize & _)%header_ok (? & ? & ? & ? & ?) [? ?].
  unfold is_safe in Hsafe. apply Z.leb_le in Hsafe. unfold HEADER_LENGTH in *.
  unfold tilePayload, payload_of, readExact, file_read.
  destruct (Z.ltb_spec (tileDataLength h - de_length e) (de_offset e)); [lia|].
  assert (negb (is_safe (tileDataOffset h + de_offset e)) || negb (is_safe (de_length e))
          || (tileDataOffset h + de_offset e <? 0) || (de_length e <? 0) = false) as ->.
  { unfold is_safe. rewrite !orb_false_iff, !negb_false_iff, !Z.leb_le, !Z.ltb_ge. lia. }
  cbn [mbind outcome_bind]. rewrite length_take, length_drop.
  destruct (Z.eqb_spec (Z.of_nat (Nat.min (Z.to_nat (de_length e))
    (length file - Z.to_nat (tileDataOffset h + de_offset e)))) (de_length e)); [done|lia].
Qed.

(** The entries of the archive are decoded ones. *)
Lemma root_sound root : Forall is_byte file -> rootDirectory file h = Ok root ->
  Forall decoded_entry root /\ increasing root.
Proof.
  intros Hfile (bytes & Hb & Hl)%outcome_bind_ok. eapply decodeDirectory_sound; [|exact Hl].
  by eapply readExact_bytes.
Qed.

Lemma collected_decoded root tiles : Forall is_byte file -> Forall decoded_entry root -> collected root tiles ->
  Forall decoded_entry tiles.
Proof.
  intros Hfile Hroot Hc. induction Hc as [|e rest tiles Hr Hc IH|e leaf rest tiles Hr Hl Hf Hc IH]; [done|..];
    apply Forall_cons in Hroot as [? Hroot].
  - constructor; auto.
  - apply Forall_app. split; [by eapply leaf_sound|auto].
Qed.

End archive.

(** ** The theorem *)

(** What a reader that kept all tile entries in one list would answer. *)
Definition archive_lookup `{ArchiveCodecs} (file : list Z) (h : LocalPmtilesHeader) (tiles : list DirectoryEntry)
    (id : Z) : outcome (option (list Z)) :=
  match List.find (covers id) tiles with
  | Some e => payload ← payload_of file h e; Ok (Some payload)
  | None => Ok None
  end.

Lemma validate_inv `{ArchiveCodecs} file : validate file = Ok tt -> exists h root tiles ranges,
  header file = Ok h /\ rootDirectory file h = Ok root /\ collect file h root = Ok (tiles, ranges) /\
  Forall (tile_ok h) tiles /\ all_apart tiles.
Proof.
  unfold validate. intros (h & Hh & Hv)%outcome_bind_ok. apply outcome_bind_ok in Hv as (root & Hroot & Hv).
  apply outcome_bind_ok in Hv as ([tiles ranges] & Hc & Hv). apply outcome_bind_ok in Hv as ([] & _ & Hv).
  apply outcome_bind_ok in Hv as (result & Ht & _). exists h, root, tiles, ranges.
  destruct (check_tiles_ok _ _ _ _ _ _ Ht) as (Hok & Hs & _).
  pose proof (sort_by_perm tileId tiles) as Hperm. pose proof (sorted_apart h _ Hok Hs) as Hapart.
  split_and!; [done|done|done|by rewrite <-Hperm|].
  intros a b Ha Hb. apply Hapart; by rewrite Hperm.
Qed.

Lemma tile_searched `{ArchiveCodecLaws} file h root tiles ranges zoom x y :
  Forall is_byte file -> header file = Ok h -> rootDirectory file h = Ok root -> collect file h root = Ok (tiles, ranges) ->
  Forall (tile_ok h) tiles -> all_apart tiles ->
  minZoom h <= Z.of_nat zoom <= maxZoom h -> in_square zoom x y ->
  let id := zxyToTileId zoom x y in
  tile file zoom x y = archive_lookup file h tiles id
  \/ tile file zoom x y = Ok None /\ crossed root tiles id.
Proof.
  intros Hfile Hh Hroot Hc Hok Hapart Hz [Hx Hy] id.
  destruct (root_sound file h root Hfile Hroot) as [Hdec Hs]. pose proof (collect_collected _ _ _ _ _ Hc) as Hcol.
  unfold tile. rewrite Hh. cbn [mbind outcome_bind].
  assert ((Z.of_nat zoom <? minZoom h) || (maxZoom h <? Z.of_nat zoom) || (x <? 0) || (y <? 0)
          || (2 ^ Z.of_nat zoom <=? x) || (2 ^ Z.of_nat zoom <=? y) = false) as ->.
  { rewrite !orb_false_iff, !Z.ltb_ge, !Z.leb_gt. lia. }
  rewrite Hroot. cbn [mbind outcome_bind]. fold id.
  assert (Forall (fun e => 0 <= runLength e) root) as Hrun
    by (eapply Forall_impl; [exact Hdec|intros ? (?&?&?&?&?); lia]).
  destruct (search_collected file h root tiles id Hfile Hcol Hs Hrun Hapart) as [E|[E Hcross]];
    unfold search in E; rewrite E; cbn [mbind outcome_bind]; [left|by right].
  unfold archive_lookup. destruct (List.find _ tiles) as [e|] eqn:Hfind; [|done].
  apply find_some in Hfind as [Hin _]. rewrite <-list_elem_of_In in Hin.
  pose proof (collected_decoded file h root tiles Hfile Hdec Hcol) as Htiles. rewrite Forall_forall in Htiles, Hok.
  destruct (Hok e Hin) as [? ?]. destruct (Z.eqb_spec (runLength e) 0); [lia|].
  by rewrite tilePayload_inside by auto.
Qed.

Lemma tile_collected `{ArchiveCodecLaws} file h root tiles ranges zoom x y :
  Forall is_byte file -> header file = Ok h -> rootDirectory file h = Ok root -> collect file h root = Ok (tiles, ranges) ->
  leaves_start_at_pointers file h root -> Forall (tile_ok h) tiles -> all_apart tiles ->
  minZoom h <= Z.of_nat zoom <= maxZoom h -> in_square zoom x y ->
  tile file zoom x y = archive_lookup file h tiles (zxyToTileId zoom x y).
Proof.
  intros Hfile Hh Hroot Hc Hstart Hok Hapart Hz Hin.
  destruct (tile_searched file h root tiles ranges zoom x y) as [E|[_ Hcross]]; [done..|].
  destruct (starts_uncrossed file h root tiles (zxyToTileId zoom x y)); [by eapply collect_collected|done..].
Qed.

(** C10: once an archive has been validated, every tile of its zooms is answered, and as
    a search of all its tile entries would answer it: the bytes of the one entry whose
    run covers the tile's number, or nothing.  There is one exception, which validate
    lets through: when the covering run starts before a pointer of the root and reaches
    the number across it, the lookup goes to the leaf behind the pointer and answers
    nothing.  It does not arise in an archive whose leaves start at their pointers, as
    the format asks. *)
Theorem a_validated_archive_serves_its_tiles `{ArchiveCodecLaws} file h root tiles ranges zoom x y :
  Forall is_byte file -> validate file = Ok tt ->
  header file = Ok h -> rootDirectory file h = Ok root -> collect file h root = Ok (tiles, ranges) ->
  minZoom h <= Z.of_nat zoom <= maxZoom h -> in_square zoom x y ->
  let id := zxyToTileId zoom x y in
  (tile file zoom x y = archive_lookup file h tiles id
   \/ tile file zoom x y = Ok None /\ crossed root tiles id)
  /\ (leaves_start_at_pointers file h root -> ~ crossed root tiles id).
Proof.
  intros Hfile (h' & root' & tiles' & ranges' & Hh' & Hroot' & Hc' & Hok & Hapart)%validate_inv Hh Hroot Hc Hz Hin id.
  rewrite Hh in Hh'. injection Hh' as <-. rewrite Hroot in Hroot'. injection Hroot' as <-.
  rewrite Hc in Hc'. injection Hc' as <- <-. split; [by eapply tile_searched|].
  intros Hstart. apply (starts_uncrossed file h); [by eapply collect_collected|done|exact Hstart].
Qed.

(** ** Two archives *)

#[export] Instance sample_codecs : ArchiveCodecs := {
  gunzip bytes := Ok (map (fun b => b mod 256) bytes);
  parse_json _ := Ok (JObj []);
}.

#[export] Instance sample_codec_laws : ArchiveCodecLaws.
Proof. constructor. intros bytes data [= <-]. apply Forall_map, Forall_true. intros. apply Z.mod_pos_bound. lia. Qed.

Definition little_endian (n : nat) (x : Z) : list Z := map (fun i => x / 256 ^ Z.of_nat i mod 256) (seq 0 n).

(** An uncompressed archive over the whole map: header, root, metadata, leaves, tiles. *)
Definition sample_archive (minimum maximum addressed entries contents : Z) (root leaves tiles : list Z) : list Z :=
  let offset_root := 127 in
  let offset_metadata := offset_root + Z.of_nat (length root) in
  let offset_leaves := offset_metadata + 2 in
  let offset_tiles := offset_leaves + Z.of_nat (length leaves) in
  MAGIC ++ [3]
  ++ concat (map (little_endian 8)
       [offset_root; Z.of_nat (length root); offset_metadata; 2; offset_leaves; Z.of_nat (length leaves);
        offset_tiles; Z.of_nat (length tiles); addressed; entries; contents])
  ++ [1; 1; 1; 1; minimum; maximum]
  ++ concat (map (little_endian 4) [-1800000000; -850000000; 1800000000; 850000000])
  ++ replicate 9 0 ++ root ++ [123; 125] ++ leaves ++ tiles.

Definition entry (id offset len run : Z) : DirectoryEntry :=
  {| tileId := id; de_offset := offset; de_length := len; runLength := run |}.

(** A root with a tile and a pointer to a leaf of two tiles. *)
Definition good_leaf : list Z := encodeDirectory [entry 1 2 3 2; entry 4 0 2 1].
Definition good_archive : list Z :=
  sample_archive 0 1 4 3 2 (encodeDirectory [entry 0 0 2 1; entry 1 0 (Z.of_nat (length good_leaf)) 0])
    good_leaf [7; 8; 9; 10; 11].

Lemma a_validated_archive_serves_its_tiles_witness :
  validate good_archive = Ok tt /\ tile good_archive 1 0 1 = Ok (Some [9; 10; 11]) /\ tile good_archive 1 1 1 = Ok None /\
  exists h root tiles ranges,
    header good_archive = Ok h /\ rootDirectory good_archive h = Ok root /\ collect good_archive h root = Ok (tiles, ranges) /\
    tile good_archive 1 0 1 = archive_lookup good_archive h tiles (zxyToTileId 1 0 1).
Proof.
  split; [vm_compute; reflexivity|]. split; [vm_compute; reflexivity|]. split; [vm_compute; reflexivity|].
  destruct (header good_archive) as [h|] eqn:Hh; [|vm_compute in Hh; discriminate].
  destruct (rootDirectory good_archive h) as [root|] eqn:Hroot;
    [|vm_compute in Hh; injection Hh as <-; vm_compute in Hroot; discriminate].
  destruct (collect good_archive h root) as [[tiles ranges]|] eqn:Hc;
    [|vm_compute in Hh; injection Hh as <-; vm_compute in Hroot; injection Hroot as <-; vm_compute in Hc; discriminate].
  exists h, root, tiles, ranges. split; [reflexivity|]. split; [exact Hroot|]. split; [exact Hc|].
  destruct (a_validated_archive_serves_its_tiles good_archive h root tiles ranges 1 0 1) as [[E|[E _]] _];
    [| | | | | | |exact E|vm_compute in E; discriminate].
  - apply Forall_forall. intros b Hb. rewrite list_elem_of_In in Hb.
    assert (Hall : forallb (fun b => (0 <=? b) && (b <? 256)) good_archive = true) by (vm_compute; reflexivity).
    rewrite forallb_forall in Hall. specialize (Hall b Hb). unfold is_byte. lia.
  - vm_compute. reflexivity.
  - exact Hh.
  - exact Hroot.
  - exact Hc.
  - vm_compute in Hh. injection Hh as <-. cbn. lia.
  - unfold in_square. cbn. lia.
Defined.

(** Two leaves, the second of which starts after its pointer; the run of the first
    crosses the pointer. *)
Definition crossing_leaf : list Z := encodeDirectory [entry 0 0 2 1; entry 1 2 3 3].
Definition late_leaf : list Z := encodeDirectory [entry 4 0 2 1].
Definition crossing_archive : list Z :=
  sample_archive 0 1 5 3 2
    (encodeDirectory [entry 0 0 (Z.of_nat (length crossing_leaf)) 0;
                      entry 3 (Z.of_nat (length crossing_leaf)) (Z.of_nat (length late_leaf)) 0])
    (crossing_leaf ++ late_leaf) [7; 8; 9; 10; 11].

(** The check that is missing: this archive validates, an entry covers the tile, and the
    tile is not found. *)
Theorem a_run_across_a_pointer_is_lost : exists h root tiles ranges e,
  validate crossing_archive = Ok tt /\
  header crossing_archive = Ok h /\ rootDirectory crossing_archive h = Ok root /\
  collect crossing_archive h root = Ok (tiles, ranges) /\
  e ∈ tiles /\ covers (zxyToTileId 1 1 1) e = true /\ tile crossing_archive 1 1 1 = Ok None.
Proof.
  destruct (header crossing_archive) as [h|] eqn:Hh; [|vm_compute in Hh; discriminate].
  destruct (rootDirectory crossing_archive h) as [root|] eqn:Hroot;
    [|vm_compute in Hh; injection Hh as <-; vm_compute in Hroot; discriminate].
  destruct (collect crossing_archive h root) as [[tiles ranges]|] eqn:Hc;
    [|vm_compute in Hh; injection Hh as <-; vm_compute in Hroot; injection Hroot as <-; vm_compute in Hc; discriminate].
  exists h, root, tiles, ranges, (entry 1 2 3 3).
  split; [vm_compute; reflexivity|]. split; [done|]. split; [done|]. split; [done|].
  split; [|split; vm_compute; reflexivity].
  vm_compute in Hh. injection Hh as <-. vm_compute in Hroot. injection Hroot as <-. vm_compute in Hc. injection Hc as <- <-.
  right; left.
Qed.
