(* ===== verification/PackageIndex.v ===== *)
(** * The index of the downloaded areas

    apps/web/src/lib/offlineAreas/packageResolver.ts: the packed static tree over the
    boxes of the packages and the choice of a package.  The tree is the list of its
    entries, a box and a reference each; a position counts entries, where the code
    counts their four coordinates. *)

From S2P Require Import Prelude Text Doubles Words Pmtiles.
From Stdlib Require Import QArith_base Qround.
Local Open Scope Z_scope.

(** ** Boxes *)

Definition Coordinate : Type := number * number.

Definition contains (b : Bounds) (c : Coordinate) : bool :=
  num_le (west b) c.1 && num_le c.1 (east b) && num_le (south b) c.2 && num_le c.2 (north b).

(** The four edges of the clipping loop; [None] is [return false]. *)
Fixpoint clip (edges : list (number * number)) (minimum maximum : number) : bool :=
  match edges with
  | [] => true
  | (edge, distance) :: edges =>
      if num_eq distance (num_of_Z 0) then
        if num_lt edge (num_of_Z 0) then false else clip edges minimum maximum
      else
        let ratio := num_div edge distance in
        let '(minimum, maximum) :=
          if num_lt distance (num_of_Z 0) then (num_max minimum ratio, maximum) else (minimum, num_min maximum ratio) in
        if num_lt maximum minimum then false else clip edges minimum maximum
  end.

Definition segmentIntersectsBbox (b : Bounds) (start finish : Coordinate) : bool :=
  if contains b start || contains b finish then true
  else
    let dx := num_sub finish.1 start.1 in
    let dy := num_sub finish.2 start.2 in
    clip [(num_sub start.1 (west b), num_neg dx); (num_sub (east b) start.1, dx);
          (num_sub start.2 (south b), num_neg dy); (num_sub (north b) start.2, dy)] (num_of_Z 0) (num_of_Z 1).

Fixpoint segments_intersect (b : Bounds) (coordinates : list Coordinate) : bool :=
  match coordinates with
  | start :: (finish :: _) as rest => segmentIntersectsBbox b start finish || segments_intersect b rest
  | _ => false
  end.

Definition geometryIntersectsBbox (b : Bounds) (coordinates : list Coordinate) : bool :=
  existsb (contains b) coordinates || segments_intersect b coordinates.

(** ** Building the tree *)

Definition INDEX_NODE_SIZE : nat := 16.

Definition spreadBits (value : Z) : Z :=
  let bits := js_and value 65535 in
  let bits := js_and (js_or bits (js_shl bits 8)) 16711935 in
  let bits := js_and (js_or bits (js_shl bits 4)) 252645135 in
  let bits := js_and (js_or bits (js_shl bits 2)) 858993459 in
  js_and (js_or bits (js_shl bits 1)) 1431655765.

(** The smallest boundary above [value]; [fuel] halvings reach it. *)
Fixpoint level_end_loop (fuel : nat) (bounds : list nat) (value low high : nat) : nat :=
  match fuel with
  | O => bounds !!! low
  | S fuel =>
      if (low <? high)%nat then
        let middle := Nat.div2 (low + high) in
        if (value <? bounds !!! middle)%nat then level_end_loop fuel bounds value low middle
        else level_end_loop fuel bounds value (S middle) high
      else bounds !!! low
  end.

Definition levelEndAbove (bounds : list nat) (value : nat) : nat :=
  level_end_loop (length bounds) bounds value 0 (length bounds - 1).

(** [Math.ceil(levelCount / INDEX_NODE_SIZE)] *)
Definition parents_of (levelCount : nat) : nat := ((levelCount + 15) / INDEX_NODE_SIZE)%nat.

(** The do-while loop: a level has fewer entries than the one below, so [levelCount] turns
    are enough. *)
Fixpoint level_bounds_loop (fuel levelCount entryCount : nat) : list nat :=
  match fuel with
  | O => []
  | S fuel =>
      let levelCount := parents_of levelCount in
      let entryCount := (entryCount + levelCount)%nat in
      entryCount :: if (1 <? levelCount)%nat then level_bounds_loop fuel levelCount entryCount else []
  end.

Definition level_bounds (count : nat) : list nat := count :: level_bounds_loop count count count.

Definition empty_box : Bounds := {| west := PosInf; south := PosInf; east := NegInf; north := NegInf |}.

#[export] Instance Bounds_inhabited : Inhabited Bounds := populate empty_box.

Definition extend_box (a b : Bounds) : Bounds :=
  {| west := num_min (west a) (west b); south := num_min (south a) (south b);
     east := num_max (east a) (east b); north := num_max (north a) (north b) |}.

Definition union_box (boxes : list Bounds) : Bounds := foldl extend_box empty_box boxes.

(** The integer a bitwise operator sees. *)
Definition num_bits (x : number) : Z := match x with Fin q => to_int32 (q_trunc q) | _ => 0 end.

(** [a || 1] on a number. *)
Definition or_one (x : number) : number :=
  match x with NaN => num_of_Z 1 | x => if num_eq x (num_of_Z 0) then num_of_Z 1 else x end.

(** The Morton code of a box's centre within [hull]. *)
Definition morton_code (hull b : Bounds) : Z :=
  let spanX := or_one (num_sub (east hull) (west hull)) in
  let spanY := or_one (num_sub (north hull) (south hull)) in
  let centreX := num_floor (num_div (num_mul (num_of_Z 65535)
    (num_sub (num_div (num_add (west b) (east b)) (num_of_Z 2)) (west hull))) spanX) in
  let centreY := num_floor (num_div (num_mul (num_of_Z 65535)
    (num_sub (num_div (num_add (south b) (north b)) (num_of_Z 2)) (south hull))) spanY) in
  js_ushr (js_or (spreadBits (num_bits centreX)) (js_shl (spreadBits (num_bits centreY)) 1)) 0.

(** An entry of the two typed arrays: its coordinates and its reference. *)
Definition TreeEntry : Type := Bounds * nat.

Definition leaf_entries (items : list Bounds) : list TreeEntry :=
  let hull := union_box items in
  map (fun item => (items !!! item, item))
    (sort_by (fun item => morton_code hull (items !!! item)) (seq 0 (length items))).

(** The inner while loop: the parents of the entries from [read] to [finish]. *)
Fixpoint parents_loop (fuel read finish : nat) (tree : list TreeEntry) : list TreeEntry :=
  match fuel with
  | O => tree
  | S fuel =>
      if (read <? finish)%nat then
        let slots := Nat.min INDEX_NODE_SIZE (finish - read) in
        let node := union_box (map fst (take slots (drop read tree))) in
        parents_loop fuel (read + slots) finish (tree ++ [(node, read)])
      else tree
  end.

(** The loop over all levels but the last; [read] goes on from level to level. *)
Fixpoint build_levels (levelBounds : list nat) (read : nat) (tree : list TreeEntry) : list TreeEntry :=
  match levelBounds with
  | finish :: (_ :: _) as rest => build_levels rest finish (parents_loop (finish - read) read finish tree)
  | _ => tree
  end.

Record StaticBboxIndex := {
  size : nat;
  ix_bounds : list nat;
  ix_tree : list TreeEntry;
}.

Definition EMPTY_BBOX_INDEX : StaticBboxIndex := {| size := 0; ix_bounds := []; ix_tree := [] |}.

Definition createStaticBboxIndex (items : list Bounds) : StaticBboxIndex :=
  let count := length items in
  if (count =? 0)%nat then EMPTY_BBOX_INDEX
  else
    let levelBounds := level_bounds count in
    {| size := count; ix_bounds := levelBounds; ix_tree := build_levels levelBounds 0 (leaf_entries items) |}.

(** ** Querying it *)

(** The test that skips an entry. *)
Definition misses (q b : Bounds) : bool :=
  num_lt (east q) (west b) || num_lt (north q) (south b) || num_lt (east b) (west q) || num_lt (north b) (south q).

(** The entries of a node that meet the query. *)
Definition node_hits (index : StaticBboxIndex) (q : Bounds) (node : nat) : list nat :=
  let finish := Nat.min (node + INDEX_NODE_SIZE) (levelEndAbove (ix_bounds index) node) in
  map snd (List.filter (fun e => negb (misses q e.1)) (take (finish - node) (drop node (ix_tree index)))).

(** The loop over the stack of nodes; every entry of the tree is a node once at most, so
    as many turns as there are entries are enough. *)
Fixpoint query_loop (fuel : nat) (index : StaticBboxIndex) (q : Bounds) (pending : list nat) : list nat :=
  match fuel, pending with
  | S fuel, node :: pending =>
      let hits := node_hits index q node in
      if (size index <=? node)%nat then query_loop fuel index q (rev hits ++ pending)
      else hits ++ query_loop fuel index q pending
  | _, _ => []
  end.

(** The items in the order they are visited. *)
Definition query (index : StaticBboxIndex) (q : Bounds) : list nat :=
  if (size index =? 0)%nat then []
  else query_loop (length (ix_tree index)) index q [(length (ix_tree index) - 1)%nat].

(** * The index answers what a scan of all boxes would

    The packed tree of [PackageIndex] against trees with lists of children: a level of
    the array is a forest, its parents the groups of sixteen of it. *)

Local Open Scope nat_scope.

(** ** Trees *)

Inductive tnode :=
  | TLeaf (b : Bounds) (item : nat)
  | TNode (b : Bounds) (children : list tnode).

Definition tbox (t : tnode) : Bounds := match t with TLeaf b _ | TNode b _ => b end.

(** The items of a tree, and what a query visits of it. *)
Fixpoint titems (t : tnode) : list (Bounds * nat) :=
  match t with
  | TLeaf b item => [(b, item)]
  | TNode _ children => concat (map titems children)
  end.

Fixpoint tsearch (q : Bounds) (t : tnode) : list nat :=
  if misses q (tbox t) then []
  else match t with
       | TLeaf _ item => [item]
       | TNode _ children => concat (map (tsearch q) children)
       end.

(** The nodes a query opens at most. *)
Fixpoint tturns (t : tnode) : nat :=
  match t with
  | TLeaf _ _ => 0
  | TNode _ children => S (list_sum (map tturns children))
  end.

Definition group (l : list tnode) : tnode := TNode (union_box (map tbox l)) l.

Definition parents (l : list tnode) : list tnode := map group (chunks (length l) INDEX_NODE_SIZE l).

Fixpoint forest (leaves : list tnode) (k : nat) : list tnode :=
  match k with O => leaves | S k => parents (forest leaves k) end.

Lemma parents_length l : length (parents l) = parents_of (length l).
Proof. unfold parents. rewrite length_map. apply chunks_length; unfold INDEX_NODE_SIZE; lia. Qed.

Lemma parents_lookup l i t : parents l !! i = Some t ->
  t = group (take 16 (drop (16 * i) l)) /\ 16 * i < length l.
Proof.
  unfold parents. rewrite list_lookup_fmap. destruct (chunks _ _ l !! i) as [c|] eqn:Hc; [|done].
  intros [= <-]. by apply chunks_lookup in Hc as [-> ?].
Qed.

Lemma concat_groups (l : list tnode) : concat (chunks (length l) INDEX_NODE_SIZE l) = l.
Proof. apply concat_chunks; unfold INDEX_NODE_SIZE; lia. Qed.

(** Parents keep the items in their order. *)
Lemma parents_items l : concat (map titems (parents l)) = concat (map titems l).
Proof.
  assert (G : forall c, concat (map titems (map group c)) = concat (map titems (concat c))).
  { induction c as [|g c IH]; [done|]. cbn [map concat]. by rewrite IH, map_app, concat_app. }
  unfold parents. by rewrite G, concat_groups.
Qed.

Lemma forest_items leaves k : concat (map titems (forest leaves k)) = concat (map titems leaves).
Proof. induction k as [|k IH]; [done|]. cbn [forest]. by rewrite parents_items. Qed.

Lemma parents_turns l : list_sum (map tturns (parents l)) = length (parents l) + list_sum (map tturns l).
Proof.
  assert (G : forall c, list_sum (map tturns (map group c)) = length c + list_sum (map tturns (concat c))).
  { induction c as [|g c IH]; [done|]. cbn [map concat length list_sum foldr group tturns].
    rewrite map_app, list_sum_app. cbn [list_sum foldr] in *. unfold list_sum in *. lia. }
  unfold parents. by rewrite G, concat_groups, length_map.
Qed.

(** ** Boxes contain what is under them *)

(** No query that meets [inner] misses [outer]. *)
Definition within (inner outer : Bounds) : Prop := forall q, misses q outer = true -> misses q inner = true.

Definition no_nan (b : Bounds) : Prop := west b <> NaN /\ south b <> NaN /\ east b <> NaN /\ north b <> NaN.

Lemma within_edges inner outer :
  num_le (west outer) (west inner) = true -> num_le (south outer) (south inner) = true ->
  num_le (east inner) (east outer) = true -> num_le (north inner) (north outer) = true -> within inner outer.
Proof.
  intros Hw Hs He Hn q. unfold misses. rewrite !orb_true_iff.
  intros [[[H|H]|H]|H].
  - do 3 left. by eapply num_lt_le_trans.
  - left; left; right. by eapply num_lt_le_trans.
  - left; right. by eapply num_le_lt_trans.
  - right. by eapply num_le_lt_trans.
Qed.

Lemma num_min_nan x y : x <> NaN -> y <> NaN -> num_min x y <> NaN.
Proof. intros ??. unfold num_min. repeat case_match; congruence. Qed.

Lemma num_max_nan x y : x <> NaN -> y <> NaN -> num_max x y <> NaN.
Proof. intros ??. unfold num_max. repeat case_match; congruence. Qed.

Lemma extend_no_nan a b : no_nan a -> no_nan b -> no_nan (extend_box a b).
Proof.
  intros (?&?&?&?) (?&?&?&?). unfold no_nan, extend_box. cbn. split_and!; auto using num_min_nan, num_max_nan.
Qed.

Lemma extend_grows a b : no_nan a -> no_nan b -> within a (extend_box a b) /\ within b (extend_box a b).
Proof.
  intros (?&?&?&?) (?&?&?&?). split; apply within_edges; cbn;
    auto using num_min_le_l, num_min_le_r, num_max_ge_l, num_max_ge_r.
Qed.

Lemma union_covers boxes : Forall no_nan boxes ->
  no_nan (union_box boxes) /\ Forall (fun b => within b (union_box boxes)) boxes.
Proof.
  intros Hb. unfold union_box.
  assert (G : forall a, no_nan a -> no_nan (foldl extend_box a boxes) /\ within a (foldl extend_box a boxes) /\
    Forall (fun b => within b (foldl extend_box a boxes)) boxes).
  { induction Hb as [|b boxes Hb _ IH]; intros a Ha; [split_and!; [done|intros q; done|constructor]|].
    cbn [foldl]. destruct (IH (extend_box a b)) as (? & Hw & Hall); [by apply extend_no_nan|].
    destruct (extend_grows a b Ha Hb) as [H1 H2].
    split; [done|]. split; [intros q ?; by apply H1, Hw|]. constructor; [intros q ?; by apply H2, Hw|done]. }
  destruct (G empty_box) as (? & _ & ?); [done|]. done.
Qed.

(** A tree of whose nodes each contains its items finds exactly the items it meets. *)
Definition tree_good (t : tnode) : Prop :=
  no_nan (tbox t) /\ Forall (fun i => within i.1 (tbox t)) (titems t) /\
  forall q, tsearch q t = map snd (List.filter (fun i => negb (misses q i.1)) (titems t)).

Lemma filter_concat {A} (f : A -> bool) (ls : list (list A)) :
  List.filter f (concat ls) = concat (map (List.filter f) ls).
Proof. induction ls as [|l ls IH]; [done|]. cbn. by rewrite List.filter_app, IH. Qed.

Lemma group_good l : Forall tree_good l -> tree_good (group l).
Proof.
  intros Hl. destruct (union_covers (map tbox l)) as [Hn Hc].
  { apply Forall_map. eapply Forall_impl; [exact Hl|]. by intros t [? _]. }
  assert (Hin : Forall (fun t => Forall (fun i => within i.1 (union_box (map tbox l))) (titems t)) l).
  { apply Forall_map in Hc. rewrite Forall_forall in Hl, Hc |- *. intros t Ht.
    destruct (Hl t Ht) as (_ & Hi & _). eapply Forall_impl; [exact Hi|].
    intros i Hw q ?. apply Hw. by apply (Hc t Ht). }
  split; [done|]. split; [by apply Forall_concat, Forall_map|]. intros q. cbn [group tsearch tbox titems].
  rewrite filter_concat, concat_map, !map_map.
  destruct (misses q (union_box (map tbox l))) eqn:Hm.
  - clear Hl Hn Hc. revert Hin. generalize (union_box (map tbox l)), Hm. clear Hm. intros u Hm Hin.
    induction Hin as [|t l Ht _ IH]; [done|]. cbn [map concat]. rewrite <-IH, app_nil_r.
    induction Ht as [|i its Hi _ IHt]; [done|]. cbn. by rewrite (Hi q Hm).
  - f_equal. apply map_ext_in. intros t Ht. rewrite <-list_elem_of_In in Ht. rewrite Forall_forall in Hl.
    by destruct (Hl t Ht) as (_ & _ & ->).
Qed.

Lemma forest_good leaves k : Forall tree_good leaves -> Forall tree_good (forest leaves k).
Proof.
  intros Hl. induction k as [|k IH]; [done|]. cbn [forest]. unfold parents. apply Forall_map.
  eapply Forall_impl; [apply (chunks_Forall tree_good); exact IH|]. intros c [_ ?]. by apply group_good.
Qed.

(** ** The levels of the array *)

Section levels.
Context (entries : list TreeEntry).

Definition leaves : list tnode := map (fun e => TLeaf e.1 e.2) entries.

Fixpoint level_start (k : nat) : nat :=
  match k with O => 0 | S k => level_start k + length (forest leaves k) end.

(** The entries of a level: items below, the starts of groups above. *)
Definition level_entries (k : nat) : list TreeEntry :=
  match k with
  | O => entries
  | S k => imap (fun i t => (tbox t, level_start k + 16 * i)) (forest leaves (S k))
  end.

Fixpoint tree_upto (k : nat) : list TreeEntry :=
  match k with O => level_entries 0 | S k => tree_upto k ++ level_entries (S k) end.

Lemma level_entries_length k : length (level_entries k) = length (forest leaves k).
Proof. destruct k as [|k]; [symmetry; apply length_map|apply length_imap]. Qed.

Lemma tree_upto_length k : length (tree_upto k) = level_start (S k).
Proof.
  induction k as [|k IH]; [apply (level_entries_length 0)|].
  cbn [tree_upto]. rewrite length_app, IH, (level_entries_length (S k)). done.
Qed.

Lemma level_entries_boxes k : map fst (level_entries k) = map tbox (forest leaves k).
Proof.
  destruct k as [|k]; cbn [level_entries].
  - cbn [forest]. unfold leaves. by rewrite map_map.
  - change (fst <$> imap (fun i t => (tbox t, level_start k + 16 * i)) (forest leaves (S k))
            = tbox <$> forest leaves (S k)).
    apply list_eq. intros i. rewrite !list_lookup_fmap, list_lookup_imap. by destruct (forest leaves (S k) !! i).
Qed.

Lemma chunks_map {A B} (f : A -> B) fuel n l : chunks fuel n (map f l) = map (map f) (chunks fuel n l).
Proof.
  revert l. induction fuel as [|fuel IH]; intros [|x l]; [done..|].
  cbn [map chunks]. change (f x :: map f l) with (map f (x :: l)). rewrite firstn_map, skipn_map. by rewrite IH.
Qed.

(** *** Building *)

(** What the inner loop appends. *)
Fixpoint parent_entries (fuel start : nat) (l : list TreeEntry) : list TreeEntry :=
  match fuel, l with
  | S fuel, _ :: _ =>
      (union_box (map fst (take 16 l)), start) :: parent_entries fuel (start + Nat.min 16 (length l)) (drop 16 l)
  | _, _ => []
  end.

Lemma parent_entries_chunks fuel start l :
  parent_entries fuel start l = imap (fun i g => (union_box (map fst g), start + 16 * i)) (chunks fuel 16 l).
Proof.
  revert start l. induction fuel as [|fuel IH]; intros start [|x l]; [done..|]. cbn [parent_entries chunks imap].
  f_equal; [f_equal; lia|]. rewrite IH.
  destruct (Nat.le_gt_cases 16 (length (x :: l))).
  - rewrite Nat.min_l by lia. apply imap_ext. intros i g _. cbn. f_equal. lia.
  - rewrite drop_ge by lia. by destruct fuel.
Qed.

Lemma parent_entries_nil fuel start : parent_entries fuel start [] = [].
Proof. by destruct fuel. Qed.

Lemma parents_loop_spec fuel pre l extra r : length l - r <= fuel ->
  parents_loop fuel (length pre + r) (length pre + length l) (pre ++ l ++ extra)
  = pre ++ l ++ extra ++ parent_entries fuel (length pre + r) (drop r l).
Proof.
  revert extra r. induction fuel as [|fuel IH]; intros extra r Hfuel; cbn [parents_loop].
  - cbn. by rewrite app_nil_r.
  - destruct (Nat.ltb_spec (length pre + r) (length pre + length l)) as [Hlt|Hge].
    2: { rewrite drop_ge by lia. by rewrite parent_entries_nil, app_nil_r. }
    replace (Nat.min INDEX_NODE_SIZE (length pre + length l - (length pre + r))) with (Nat.min 16 (length l - r))
      by (unfold INDEX_NODE_SIZE; lia).
    assert (Hgroup : take (Nat.min 16 (length l - r)) (drop (length pre + r) (pre ++ l ++ extra)) = take 16 (drop r l)).
    { rewrite <-drop_drop, drop_app_length, drop_app_le by lia. rewrite take_app_le by (rewrite length_drop; lia).
      destruct (Nat.le_gt_cases 16 (length l - r)); [by rewrite Nat.min_l by lia|].
      rewrite Nat.min_r by lia. rewrite !take_ge by (rewrite length_drop; lia). done. }
    rewrite Hgroup, <-!app_assoc, <-Nat.add_assoc. rewrite IH by lia.
    rewrite <-app_assoc. do 3 f_equal.
    destruct (drop r l) as [|x rest] eqn:Ed; [apply (f_equal length) in Ed; rewrite length_drop in Ed; cbn in Ed; lia|].
    cbn [parent_entries app]. rewrite <-Ed, drop_drop, length_drop. f_equal. f_equal; [lia|].
    destruct (Nat.le_gt_cases 16 (length l - r)); [by rewrite Nat.min_l by lia|].
    rewrite Nat.min_r by lia. by rewrite !drop_ge by lia.
Qed.

Lemma imap_boxes {T} (f : T -> Bounds) start (c : list (list T)) :
  imap (fun i g => (union_box (map f g), start + 16 * i)) c
  = imap (fun i boxes => (union_box boxes, start + 16 * i)) (map (map f) c).
Proof. apply list_eq. intros i. rewrite !list_lookup_imap, list_lookup_fmap. by destruct (c !! i). Qed.

(** The parents of a level make the next one. *)
Lemma next_level k fuel : length (forest leaves k) <= fuel ->
  parent_entries fuel (level_start k) (level_entries k) = level_entries (S k).
Proof.
  intros Hfuel. rewrite parent_entries_chunks.
  rewrite (chunks_fuel fuel (length (forest leaves k))) by (rewrite ?level_entries_length; lia).
  rewrite imap_boxes, <-chunks_map, level_entries_boxes, chunks_map, <-imap_boxes.
  cbn [level_entries forest]. unfold parents. apply list_eq. intros i.
  rewrite !list_lookup_imap, list_lookup_fmap. by destruct (chunks _ _ _ !! i).
Qed.

Lemma one_level k fuel : length (forest leaves k) <= fuel ->
  parents_loop fuel (level_start k) (level_start (S k)) (tree_upto k) = tree_upto (S k).
Proof.
  intros Hfuel.
  assert (exists pre, tree_upto k = pre ++ level_entries k ++ [] /\ length pre = level_start k) as (pre & E & Hpre).
  { destruct k as [|k]; [by exists []; rewrite app_nil_r|exists (tree_upto k)].
    rewrite app_nil_r. split; [done|apply tree_upto_length]. }
  pose proof (parents_loop_spec fuel pre (level_entries k) [] 0) as P.
  rewrite Hpre, level_entries_length, Nat.add_0_r, drop_0 in P. cbn [level_start tree_upto].
  rewrite E at 1. rewrite P by lia. rewrite next_level, E by done. by rewrite <-!app_assoc.
Qed.

Definition bounds_from (k n : nat) : list nat := map (fun j => level_start (S j)) (seq k n).

Lemma build_levels_cons a b l read tree :
  build_levels (a :: b :: l) read tree = build_levels (b :: l) a (parents_loop (a - read) read a tree).
Proof. done. Qed.

Lemma build_levels_spec n k : build_levels (bounds_from k (S n)) (level_start k) (tree_upto k) = tree_upto (k + n).
Proof.
  revert k. induction n as [|n IH]; intros k; [by rewrite Nat.add_0_r|].
  change (bounds_from k (S (S n))) with (level_start (S k) :: bounds_from (S k) (S n)).
  change (bounds_from (S k) (S n)) with (level_start (S (S k)) :: bounds_from (S (S k)) n).
  rewrite build_levels_cons, one_level by (cbn [level_start]; lia).
  change (level_start (S (S k)) :: bounds_from (S (S k)) n) with (bounds_from (S k) (S n)).
  rewrite IH. f_equal. lia.
Qed.

(** *** The boundaries of the levels *)

Lemma parents_of_small n : 0 < n -> 0 < parents_of n /\ (1 < n -> parents_of n < n) /\ (parents_of n <= n).
Proof.
  intros Hn. unfold parents_of, INDEX_NODE_SIZE. split_and!.
  - apply Nat.div_str_pos. lia.
  - intros ?. apply Nat.Div0.div_lt_upper_bound. lia.
  - apply Nat.Div0.div_le_upper_bound. lia.
Qed.

Lemma level_bounds_loop_spec fuel k : 0 < length (forest leaves k) -> length (forest leaves k) <= fuel ->
  exists n, level_bounds_loop fuel (length (forest leaves k)) (level_start (S k)) = bounds_from (S k) (S n) /\
    length (forest leaves (S k + n)) = 1.
Proof.
  revert k. induction fuel as [|fuel IH]; intros k Hk Hfuel; [lia|]. cbn [level_bounds_loop].
  destruct (parents_of_small _ Hk) as (Hpos & Hless & _).
  assert (Hnext : parents_of (length (forest leaves k)) = length (forest leaves (S k))) by (symmetry; apply parents_length).
  rewrite Hnext in *. change (level_start (S k) + length (forest leaves (S k))) with (level_start (S (S k))).
  destruct (Nat.ltb_spec 1 (length (forest leaves (S k)))) as [Hmore|Hone].
  - destruct (Nat.le_gt_cases (length (forest leaves k)) 1); [|].
    + exfalso. assert (length (forest leaves (S k)) <= length (forest leaves k)) by (rewrite <-Hnext; by apply parents_of_small). lia.
    + destruct (IH (S k)) as (n & -> & Hn); [lia|lia|]. exists (S n). split; [done|].
      by replace (S k + S n) with (S (S k) + n) by lia.
  - exists 0. split; [done|]. rewrite Nat.add_0_r. lia.
Qed.

Lemma level_start_mono j k : j <= k -> level_start j <= level_start k.
Proof. induction 1 as [|k _ IH]; [done|]. cbn [level_start]. lia. Qed.

(** The search for the end of a level finds it. *)
Lemma level_end_loop_spec fuel bounds value low high j : low <= j <= high -> high - low < fuel -> high < length bounds ->
  (forall i, i < j -> bounds !!! i <= value) -> (forall i, j <= i < length bounds -> value < bounds !!! i) ->
  level_end_loop fuel bounds value low high = bounds !!! j.
Proof.
  intros Hj Hfuel Hlen Hbefore Hafter. revert low high Hj Hfuel Hlen.
  induction fuel as [|fuel IH]; intros low high Hj Hfuel Hlen; [lia|]. cbn [level_end_loop].
  destruct (Nat.ltb_spec low high) as [Hlt|Hge]; [|by replace low with j by lia].
  assert (Hmid : low <= Nat.div2 (low + high) < high) by (rewrite Nat.div2_div; split;
    [apply Nat.div_le_lower_bound; lia|apply Nat.Div0.div_lt_upper_bound; lia]).
  destruct (Nat.ltb_spec value (bounds !!! Nat.div2 (low + high))) as [Hv|Hv].
  - apply IH; [|lia|lia]. destruct (Nat.le_gt_cases j (Nat.div2 (low + high))); [lia|].
    specialize (Hbefore (Nat.div2 (low + high))). lia.
  - apply IH; [|lia|lia]. destruct (Nat.le_gt_cases j (Nat.div2 (low + high))); [|lia].
    specialize (Hafter (Nat.div2 (low + high))). lia.
Qed.

Lemma levelEndAbove_spec m k p : k <= m -> level_start k <= p < level_start (S k) ->
  levelEndAbove (bounds_from 0 (S m)) p = level_start (S k).
Proof.
  intros Hk Hp. unfold levelEndAbove.
  assert (Hl : length (bounds_from 0 (S m)) = S m) by (unfold bounds_from; by rewrite length_map, length_seq).
  assert (Hb : forall i, i <= m -> bounds_from 0 (S m) !!! i = level_start (S i)).
  { intros i Hi. unfold bounds_from. apply list_lookup_total_correct. rewrite list_lookup_fmap, lookup_seq_lt by lia. done. }
  rewrite Hl. rewrite (level_end_loop_spec _ _ _ _ _ k); [by apply Hb|lia|lia|lia| |].
  - intros i Hi. rewrite Hb by lia. pose proof (level_start_mono (S i) k). lia.
  - intros i Hi. rewrite Hb by lia. pose proof (level_start_mono (S k) (S i)). lia.
Qed.

(** ** The query *)

Context (m : nat) (q : Bounds).
Hypothesis Htop : length (forest leaves m) = 1.

Definition packed : StaticBboxIndex :=
  {| size := length entries; ix_bounds := bounds_from 0 (S m); ix_tree := tree_upto m |}.

(** A position of the array opens a group of nodes. *)
Definition opens (p : nat) (l : list tnode) : Prop := exists k i,
  k <= m /\ 16 * i < length (forest leaves k) /\ p = level_start k + 16 * i /\ l = take 16 (drop (16 * i) (forest leaves k)).

Lemma tree_level n k : k <= n -> exists pre post,
  tree_upto n = pre ++ level_entries k ++ post /\ length pre = level_start k.
Proof.
  induction 1 as [|n _ (pre & post & E & Hpre)].
  - destruct k as [|k]; [exists [], []; by rewrite app_nil_r|].
    exists (tree_upto k), []. rewrite app_nil_r. split; [done|apply tree_upto_length].
  - exists pre, (post ++ level_entries (S n)). cbn [tree_upto]. rewrite E, <-!app_assoc. done.
Qed.

Lemma node_hits_group k i : k <= m -> 16 * i < length (forest leaves k) ->
  node_hits packed q (level_start k + 16 * i)
  = map snd (List.filter (fun e => negb (misses q e.1)) (take 16 (drop (16 * i) (level_entries k)))).
Proof.
  intros Hk Hi. unfold node_hits. cbn [packed ix_bounds ix_tree].
  rewrite (levelEndAbove_spec m k) by (cbn [level_start]; lia).
  destruct (tree_level m k Hk) as (pre & post & -> & Hpre). do 2 f_equal.
  rewrite <-!Hpre, <-drop_drop, drop_app_length, drop_app_le by (rewrite level_entries_length; lia).
  rewrite take_app_le by (rewrite length_drop, level_entries_length; unfold INDEX_NODE_SIZE; cbn [level_start]; lia).
  unfold INDEX_NODE_SIZE. cbn [level_start].
  destruct (Nat.le_gt_cases (16 * i + 16) (length (forest leaves k))).
  - f_equal. lia.
  - rewrite !take_ge by (rewrite length_drop, level_entries_length; lia). done.
Qed.

(** At the bottom the hits are the items found. *)
Lemma leaf_hits (es : list TreeEntry) : map snd (List.filter (fun e => negb (misses q e.1)) es)
  = concat (map (tsearch q) (map (fun e => TLeaf e.1 e.2) es)).
Proof. induction es as [|[b i] es IH]; [done|]. cbn. destruct (misses q b); cbn; [done|]. by f_equal. Qed.

(** Above it they open groups whose searches are what is left to do. *)
Lemma inner_hits k j0 ts : S k <= m ->
  (forall j t, ts !! j = Some t -> t = group (take 16 (drop (16 * (j0 + j)) (forest leaves k)))
                                   /\ 16 * (j0 + j) < length (forest leaves k)) ->
  exists ls,
    Forall2 opens (map snd (List.filter (fun e => negb (misses q e.1))
      (imap (fun j t => (tbox t, level_start k + 16 * (j0 + j))) ts))) ls /\
    concat (map (tsearch q) ts) = concat (map (fun g => concat (map (tsearch q) g)) ls) /\
    list_sum (map (fun g => S (list_sum (map tturns g))) ls) <= list_sum (map tturns ts).
Proof.
  intros Hk. revert j0. induction ts as [|t ts IH]; intros j0 Hts; [by exists []|].
  destruct (Hts 0 t eq_refl) as [Ht Hlt]. rewrite Nat.add_0_r in Ht, Hlt.
  destruct (IH (S j0)) as (ls & Hopens & Hsearch & Hturns).
  { intros j t' Hj. destruct (Hts (S j) t' Hj) as [? ?]. by rewrite Nat.add_succ_comm. }
  cbn [imap map concat]. rewrite Nat.add_0_r. 
  assert (Hshift : imap ((fun j t => (tbox t, level_start k + 16 * (j0 + j))) ∘ S) ts
                   = imap (fun j t => (tbox t, level_start k + 16 * (S j0 + j))) ts).
  { apply imap_ext. intros j t' _. cbn. f_equal. lia. }
  rewrite Hshift. set (g := take 16 (drop (16 * j0) (forest leaves k))) in *.
  assert (Htt : tsearch q t = if misses q (tbox t) then [] else concat (map (tsearch q) g)) by (by rewrite Ht).
  assert (Hturn : tturns t = S (list_sum (map tturns g))) by (by rewrite Ht).
  cbn [List.filter fst]. destruct (misses q (tbox t)); cbn [negb map snd].
  - exists ls. rewrite Htt. split; [done|]. split; [done|]. cbn [list_sum foldr]. unfold list_sum in *. lia.
  - exists (g :: ls). rewrite Htt. split; [constructor; [|done]|].
    + exists k, j0. split; [lia|done].
    + split; [cbn [map concat]; by rewrite Hsearch|]. cbn [map list_sum foldr]. unfold list_sum in *. lia.
Qed.

Lemma leaves_length : length leaves = length entries.
Proof. apply length_map. Qed.

(** One turn of the loop. *)
Lemma open_hits p l : opens p l ->
  (length entries <= p -> exists ls, Forall2 opens (node_hits packed q p) ls /\
     concat (map (tsearch q) l) = concat (map (fun g => concat (map (tsearch q) g)) ls) /\
     list_sum (map (fun g => S (list_sum (map tturns g))) ls) <= list_sum (map tturns l)) /\
  (p < length entries -> node_hits packed q p = concat (map (tsearch q) l)).
Proof.
  intros (k & i & Hk & Hi & -> & ->). rewrite node_hits_group by done. destruct k as [|k].
  - cbn [level_start level_entries forest] in *. rewrite leaves_length in Hi. split; [lia|]. intros _.
    rewrite leaf_hits. unfold leaves. by rewrite skipn_map, firstn_map.
  - assert (length entries <= level_start (S k)).
    { rewrite <-leaves_length. change (length leaves) with (level_start 1). apply level_start_mono. lia. }
    split; [|lia]. intros _.
    assert (E : take 16 (drop (16 * i) (level_entries (S k)))
      = imap (fun j t => (tbox t, level_start k + 16 * (16 * i + j))) (take 16 (drop (16 * i) (forest leaves (S k))))).
    { cbn [level_entries]. apply list_eq. intros j. rewrite list_lookup_imap.
      destruct (Nat.lt_ge_cases j 16).
      - rewrite !lookup_take_lt, !lookup_drop, list_lookup_imap by done. done.
      - rewrite !lookup_take_ge by done. done. }
    rewrite E. apply inner_hits; [lia|]. intros j t Hj.
    destruct (Nat.lt_ge_cases j 16); [|by rewrite lookup_take_ge in Hj].
    rewrite lookup_take_lt, lookup_drop in Hj by done. cbn [forest] in Hj. by apply parents_lookup.
Qed.

(** The loop over the stack. *)
Lemma query_loop_spec fuel pending ls : Forall2 opens pending ls ->
  list_sum (map (fun g => S (list_sum (map tturns g))) ls) <= fuel ->
  query_loop fuel packed q pending ≡ₚ concat (map (fun g => concat (map (tsearch q) g)) ls).
Proof.
  revert pending ls. induction fuel as [|fuel IH]; intros pending ls Hopens Hfuel.
  - destruct Hopens; [done|]. cbn in Hfuel. lia.
  - destruct Hopens as [|p l pending ls Hp Hrest]; [done|].
    cbn [map list_sum foldr] in Hfuel. fold (list_sum (map (fun g => S (list_sum (map tturns g))) ls)) in Hfuel.
    cbn [query_loop map concat]. destruct (open_hits p l Hp) as [Hinner Hleaf].
    change (size packed) with (length entries). destruct (Nat.leb_spec (length entries) p) as [Hge|Hlt].
    + destruct (Hinner Hge) as (ls' & Hls' & -> & Hturns).
      rewrite (IH _ (rev ls' ++ ls)).
      * rewrite map_app, concat_app. f_equiv. rewrite map_rev.
        clear. induction ls' as [|g ls' IH]; [done|]. cbn [map rev concat]. rewrite concat_app, IH. cbn.
        rewrite app_nil_r. apply Permutation_app_comm.
      * apply Forall2_app; [|done]. rewrite !rev_alt. by apply Forall2_reverse.
      * rewrite map_app, list_sum_app, map_rev.
        assert (list_sum (rev (map (fun g => S (list_sum (map tturns g))) ls')) = list_sum (map (fun g => S (list_sum (map tturns g))) ls')).
        { generalize (map (fun g => S (list_sum (map tturns g))) ls'). intros ns. clear.
          induction ns as [|n ns IH]; [done|]. cbn [rev]. rewrite list_sum_app, IH. cbn. unfold list_sum. lia. }
        lia.
    + rewrite (Hleaf Hlt). f_equiv. apply IH; [done|]. lia.
Qed.
End levels.

(** ** The theorem *)

Lemma forest_turns (entries : list TreeEntry) k :
  list_sum (map tturns (forest (leaves entries) k)) + length entries = level_start entries (S k).
Proof.
  induction k as [|k IH].
  - cbn [level_start forest]. rewrite leaves_length. unfold leaves. rewrite map_map. cbn [tturns].
    induction entries as [|e es IH]; [done|]. cbn. unfold list_sum in *. lia.
  - cbn [forest]. rewrite parents_turns. cbn [level_start forest] in *. lia.
Qed.

Lemma leaves_items (entries : list TreeEntry) : concat (map titems (leaves entries)) = entries.
Proof. unfold leaves. induction entries as [|[b i] es IH]; [done|]. cbn. by rewrite IH. Qed.

Lemma leaves_good (entries : list TreeEntry) : Forall (fun e => no_nan e.1) entries -> Forall tree_good (leaves entries).
Proof.
  intros He. apply Forall_map. eapply Forall_impl; [exact He|]. intros [b i] Hb. cbn.
  split; [done|]. split; [constructor; [by intros q|constructor]|].
  intros q. cbn. by destruct (misses q b).
Qed.

Lemma query_packed (entries : list TreeEntry) m q : Forall (fun e => no_nan e.1) entries -> entries <> [] ->
  length (forest (leaves entries) m) = 1 ->
  query (packed entries m) q ≡ₚ map snd (List.filter (fun e => negb (misses q e.1)) entries).
Proof.
  intros Hn Hne Htop. unfold query. cbn [packed size ix_tree].
  destruct (Nat.eqb_spec (length entries) 0); [by destruct entries|].
  rewrite tree_upto_length. pose proof (forest_turns entries m) as Hturns.
  etrans; [eapply (query_loop_spec entries m q Htop) with (ls := [forest (leaves entries) m])|].
  - constructor; [|constructor]. exists m, 0. cbn [level_start]. rewrite Htop.
    split_and!; [done|lia|lia|]. rewrite drop_0, take_ge by lia. done.
  - cbn [map list_sum foldr] in *. unfold list_sum in *. destruct entries; [done|cbn in *; lia].
  - cbn [map concat]. rewrite app_nil_r.
    assert (E : concat (map (tsearch q) (forest (leaves entries) m))
      = map snd (List.filter (fun i => negb (misses q i.1)) (concat (map titems (forest (leaves entries) m))))).
    { rewrite filter_concat, concat_map, !map_map. f_equal. apply map_ext_in. intros t Ht.
      rewrite <-list_elem_of_In in Ht. pose proof (forest_good _ m (leaves_good entries Hn)) as Hg.
      rewrite Forall_forall in Hg. by destruct (Hg t Ht) as (_ & _ & ->). }
    by rewrite E, forest_items, leaves_items.
Qed.

Lemma leaf_entries_length items : length (leaf_entries items) = length items.
Proof. unfold leaf_entries. rewrite length_map, (sort_by_perm _ (seq 0 (length items))). apply length_seq. Qed.

Lemma created_index items : items <> [] ->
  exists m, createStaticBboxIndex items = packed (leaf_entries items) m /\
    length (forest (leaves (leaf_entries items)) m) = 1.
Proof.
  intros Hne. unfold createStaticBboxIndex. destruct (Nat.eqb_spec (length items) 0); [by destruct items|].
  pose proof (leaf_entries_length items) as Hl.
  set (entries := leaf_entries items) in *.
  destruct (level_bounds_loop_spec entries (length items) 0) as (h & Hb & Hn).
  { cbn [forest]. rewrite leaves_length. lia. }
  { cbn [forest]. rewrite leaves_length. lia. }
  exists (1 + h). split; [|done]. unfold packed. cbn [forest] in Hb. rewrite leaves_length, Hl in Hb.
  cbn [level_start forest] in Hb. rewrite leaves_length, Hl, Nat.add_0_l in Hb.
  assert (Hall : level_bounds (length items) = bounds_from entries 0 (S (1 + h))).
  { unfold level_bounds. rewrite Hb.
    change (bounds_from entries 0 (S (1 + h))) with (level_start entries 1 :: bounds_from entries 1 (S h)).
    f_equal. cbn [level_start forest]. by rewrite leaves_length. }
  f_equal; [done|done|]. rewrite Hall. apply (build_levels_spec entries (1 + h) 0).
Qed.

Lemma filter_permutation {A} (f : A -> bool) l l' : l ≡ₚ l' -> List.filter f l ≡ₚ List.filter f l'.
Proof.
  induction 1 as [|x l l' _ IH|x y l|l l' l'' _ IH1 _ IH2]; cbn; [done| | |by rewrite IH1].
  - destruct (f x); by rewrite IH.
  - destruct (f x), (f y); try done. apply Permutation_swap.
Qed.

Lemma leaf_entries_hits items q : map snd (List.filter (fun e => negb (misses q e.1)) (leaf_entries items))
  ≡ₚ List.filter (fun item => negb (misses q (items !!! item))) (seq 0 (length items)).
Proof.
  unfold leaf_entries. rewrite <-(filter_permutation _ _ _ (sort_by_perm
    (fun item => morton_code (union_box items) (items !!! item)) (seq 0 (length items)))).
  generalize (sort_by (fun item => morton_code (union_box items) (items !!! item)) (seq 0 (length items))). intros l.
  induction l as [|i l IH]; [done|]. cbn. destruct (misses q (items !!! i)); cbn; by rewrite IH.
Qed.

Lemma leaf_entries_no_nan items : Forall no_nan items -> Forall (fun e => no_nan e.1) (leaf_entries items).
Proof.
  intros Hn. unfold leaf_entries. apply Forall_map, Forall_forall. intros i Hi. cbn.
  rewrite (sort_by_perm _ (seq 0 (length items))), elem_of_seq in Hi.
  destruct (lookup_lt_is_Some_2 items i ltac:(lia)) as [b Hb].
  rewrite (list_lookup_total_correct _ _ _ Hb). by eapply Forall_lookup_1.
Qed.

Lemma query_scan items q : Forall no_nan items ->
  query (createStaticBboxIndex items) q
  ≡ₚ List.filter (fun item => negb (misses q (items !!! item))) (seq 0 (length items)).
Proof.
  intros Hn. destruct (decide (items = [])) as [->|Hne]; [done|].
  destruct (created_index items Hne) as (m & -> & Htop).
  rewrite query_packed; [apply leaf_entries_hits|by apply leaf_entries_no_nan| |done].
  intros E. pose proof (leaf_entries_length items) as Hl. rewrite E in Hl. by destruct items.
Qed.

(** C16: the packed tree visits the boxes a scan would find, each once and none other,
    for every query. *)
Theorem index_query_is_a_scan items q : Forall no_nan items ->
  NoDup (query (createStaticBboxIndex items) q) /\
  forall item, item ∈ query (createStaticBboxIndex items) q <->
    exists b, items !! item = Some b /\ misses q b = false.
Proof.
  intros Hn. split.
  - rewrite (query_scan items q Hn). apply NoDup_ListNoDup, List.NoDup_filter, NoDup_ListNoDup, NoDup_seq.
  - intros item. rewrite (query_scan items q Hn), list_elem_of_In, filter_In, <-list_elem_of_In, elem_of_seq, negb_true_iff. split.
    + intros [Hlt Hmiss]. destruct (lookup_lt_is_Some_2 items item ltac:(lia)) as [b Hb].
      exists b. split; [done|]. by rewrite (list_lookup_total_correct _ _ _ Hb) in Hmiss.
    + intros (b & Hb & Hmiss). rewrite (list_lookup_total_correct _ _ _ Hb).
      apply lookup_lt_Some in Hb. split; [lia|done].
Qed.

(** Twenty boxes in a row, two levels above them, and a query of the middle. *)
Definition sample_boxes : list Bounds :=
  map (fun i => {| west := num_of_Z i; south := num_of_Z 0; east := num_of_Z (i + 1); north := num_of_Z 1 |}) (seqZ 0 20).

Definition sample_query : Bounds := {| west := num_of_Z 5; south := num_of_Z 0; east := num_of_Z 7; north := num_of_Z 9 |}.

Lemma index_query_is_a_scan_witness :
  query (createStaticBboxIndex sample_boxes) sample_query = [4; 5; 6; 7] /\
  NoDup (query (createStaticBboxIndex sample_boxes) sample_query) /\
  forall item, item ∈ query (createStaticBboxIndex sample_boxes) sample_query <->
    exists b, sample_boxes !! item = Some b /\ misses sample_query b = false.
Proof.
  split; [vm_compute; reflexivity|]. apply index_query_is_a_scan. apply Forall_map, Forall_true. intros i. by split_and!.
Defined.
