(* ===== verification/Manifest.v ===== *)
(** * The manifest of a downloadable area

    packages/core/src/offline/offlinePackage.ts: the records that cross from the server
    to the page, the schema a manifest has to pass, and the canonical form of a request.
    A number the schema asks to be an integer is [Z] already; the four literal fields are
    kept as strings so that the schema can refuse them.  The pattern of an ISO date is
    zod's ([PackageDates]). *)

From S2P Require Import Prelude Text Doubles Pmtiles.
From Stdlib Require Import Ascii.
Local Open Scope Z_scope.

Definition OFFLINE_PACKAGE_SCHEMA_VERSION : Z := 2.
Definition WEB_MERCATOR_MAX_LATITUDE : number := literal 8505112878 100000000.
Definition OFFLINE_PACKAGE_MAX_ZOOM : Z := 24.
Definition OFFLINE_PACKAGE_MAX_AREA_SQUARE_DEGREES : number := num_of_Z 2000.

Record OfflineMapPackageManifest := {
  schemaVersion : Z;
  packageId : string;
  mf_requestKey : string;
  ds_id : string;
  ds_version : string;
  ds_generatedAt : string;
  ds_sourceMaxZoom : Z;
  ds_tileSchema : string;
  cov_bbox : Bounds;
  cov_minZoom : Z;
  cov_maxZoom : Z;
  ar_url : string;
  ar_contentType : string;
  ar_byteLength : Z;
  ar_sha256 : string;
  ar_etag : string;
  gl_version : string;
  gl_urlTemplate : string;
  mf_attribution : list string;
}.

Inductive OfflinePackageLocalStatus := Queued | PreparingPackage | Downloading | Paused | Verifying | Ready | Failed | Deleting.

#[export] Instance OfflinePackageLocalStatus_eq_dec : EqDecision OfflinePackageLocalStatus.
Proof. solve_decision. Defined.

(** [z.iso.datetime()] *)
Class PackageDates := { iso_datetime : string -> bool }.

(** ** The schema *)

(** The refinement of [bboxSchema]; a comparison with a number that is not finite has been
    refused before. *)
Definition bboxSchema (b : Bounds) : bool :=
  forallb num_is_finite [west b; south b; east b; north b]
  && negb (num_lt (west b) (num_of_Z (-180)) || num_lt (num_of_Z 180) (west b)
           || num_lt (east b) (num_of_Z (-180)) || num_lt (num_of_Z 180) (east b))
  && negb (num_lt (south b) (num_of_Z (-90)) || num_lt (num_of_Z 90) (south b)
           || num_lt (north b) (num_of_Z (-90)) || num_lt (num_of_Z 90) (north b))
  && negb (num_le (east b) (west b)) && negb (num_le (north b) (south b)).

(** [[0-9a-f]] *)
Definition is_hex (c : ascii) : bool :=
  let n := nat_of_ascii c in ((48 <=? n) && (n <=? 57) || (97 <=? n) && (n <=? 102))%nat.

(** [^prefix[0-9a-f]{64}$] *)
Definition prefixed_hex64 (prefix s : string) : bool :=
  match strip_prefix prefix s with
  | Some rest => (String.length rest =? 64)%nat && all_chars is_hex rest
  | None => false
  end.

Definition packageIdSchema (s : string) : bool := prefixed_hex64 "omp2-" s.

(** The parts between the slashes of a path: [s.split("/")]. *)
Fixpoint split_slash (s : string) : list string :=
  match s with
  | EmptyString => [EmptyString]
  | String c r =>
      match split_slash r with
      | part :: parts => if Ascii.eqb c "/"%char then EmptyString :: part :: parts else String c part :: parts
      | [] => []
      end
  end.

(** A part of the path; [undefined] is no part. *)
Definition path_part (n : nat) (s : string) : option string := split_slash s !! n.

(** [^/api/offline/packages/omp2-[0-9a-f]{64}/archive$]: none of the classes has a slash. *)
Definition archiveUrlSchema (s : string) : bool :=
  match split_slash s with
  | [empty; api; offline; packages; id; archive] =>
      (empty =? "")%string && (api =? "api")%string && (offline =? "offline")%string && (packages =? "packages")%string
      && packageIdSchema id && (archive =? "archive")%string
  | _ => false
  end.

(** [[A-Za-z0-9_-]] *)
Definition is_version_char (c : ascii) : bool :=
  let n := nat_of_ascii c in
  ((65 <=? n) && (n <=? 90) || (97 <=? n) && (n <=? 122) || (48 <=? n) && (n <=? 57) || (n =? 95) || (n =? 45))%nat.

Definition within_length (low high : nat) (s : string) : bool :=
  ((low <=? String.length s) && (String.length s <=? high))%nat.

Definition glyphUrlTemplateSchema (s : string) : bool :=
  match split_slash s with
  | [empty; api; offline; packages; glyphs; version; fontstack; range] =>
      (empty =? "")%string && (api =? "api")%string && (offline =? "offline")%string && (packages =? "packages")%string
      && (glyphs =? "glyphs")%string && within_length 1 256 version && all_chars is_version_char version
      && (fontstack =? "{fontstack}")%string && (range =? "{range}.pbf")%string
  | _ => false
  end.

Definition is_zoom (z : Z) : bool := (0 <=? z) && (z <=? OFFLINE_PACKAGE_MAX_ZOOM).

Section manifest.
Context `{PackageDates}.

Definition offlineMapPackageManifestSchema (m : OfflineMapPackageManifest) : bool :=
  (schemaVersion m =? OFFLINE_PACKAGE_SCHEMA_VERSION) && packageIdSchema (packageId m)
  && within_length 1 2048 (mf_requestKey m)
  && (ds_id m =? "openmapx")%string && within_length 1 256 (ds_version m) && iso_datetime (ds_generatedAt m)
  && is_zoom (ds_sourceMaxZoom m) && (ds_tileSchema m =? "openmaptiles")%string
  && bboxSchema (cov_bbox m) && is_zoom (cov_minZoom m) && is_zoom (cov_maxZoom m)
  && archiveUrlSchema (ar_url m) && (ar_contentType m =? "application/vnd.pmtiles")%string
  && (0 <? ar_byteLength m) && (ar_byteLength m <=? MAX_SAFE_INTEGER)
  && prefixed_hex64 "" (ar_sha256 m) && prefixed_hex64 "sha256-" (ar_etag m)
  && within_length 1 256 (gl_version m) && glyphUrlTemplateSchema (gl_urlTemplate m)
  && forallb (within_length 1 2048) (mf_attribution m) && (1 <=? length (mf_attribution m))%nat
  && negb (ds_sourceMaxZoom m <? cov_maxZoom m) && negb (cov_maxZoom m <? cov_minZoom m)
  && bool_decide (path_part 4 (ar_url m) = Some (packageId m))
  && bool_decide (path_part 5 (gl_urlTemplate m) = Some (gl_version m))
  && (ar_etag m =? "sha256-" ++ ar_sha256 m)%string.

Definition validateOfflineMapPackageManifest (m : OfflineMapPackageManifest) : outcome OfflineMapPackageManifest :=
  if offlineMapPackageManifestSchema m then Ok m else Throw "invalid offline map package manifest".

(** The last refinement: the tag of an archive names its digest. *)
Lemma manifest_etag m : offlineMapPackageManifestSchema m = true -> ar_etag m = ("sha256-" ++ ar_sha256 m)%string.
Proof. unfold offlineMapPackageManifestSchema. intros [_ E%String.eqb_eq]%andb_prop. done. Qed.

Lemma same_etag_same_digest m m' : offlineMapPackageManifestSchema m = true -> offlineMapPackageManifestSchema m' = true ->
  ar_etag m = ar_etag m' -> ar_sha256 m = ar_sha256 m'.
Proof.
  intros ->%manifest_etag ->%manifest_etag E. pose proof (f_equal (strip_prefix "sha256-") E) as E'.
  rewrite !strip_prefix_app in E'. by injection E'.
Qed.

Lemma manifest_length m : offlineMapPackageManifestSchema m = true -> 0 < ar_byteLength m <= MAX_SAFE_INTEGER.
Proof.
  unfold offlineMapPackageManifestSchema. intros E. do 11 apply andb_prop, proj1 in E.
  apply andb_prop in E as [[_ E]%andb_prop E']. lia.
Qed.

Lemma manifest_id m : offlineMapPackageManifestSchema m = true -> packageIdSchema (packageId m) = true.
Proof. unfold offlineMapPackageManifestSchema. intros E. do 24 apply andb_prop, proj1 in E. by apply andb_prop in E as [_ E]. Qed.
End manifest.
