(* ===== verification/Resolver.v ===== *)
(** * Choosing a downloaded area

    apps/web/src/lib/offlineAreas/packageResolver.ts on top of the tree of
    [PackageIndex], and the order of packages that packages/core/src/offline/
    offlinePackage.ts publishes ([selectOfflinePackage]). *)

From S2P Require Import Prelude Text Doubles Pmtiles PackageIndex Manifest.
From Stdlib Require Import QArith_base Qabs Lqa.
Local Open Scope Z_scope.

(** [a.localeCompare(b)], as the sign of its result. *)
Class Collation := { localeCompare : string -> string -> Z }.

Record OfflinePackageRecord := {
  pr_id : string;
  pr_name : string;
  pr_manifest : OfflineMapPackageManifest;
  pr_status : OfflinePackageLocalStatus;
  bytesReceived : Z;
  bytesTotal : Z;
  verifiedPrefixBytes : Z;
  createdAt : Z;
  updatedAt : Z;
  downloadedAt : option Z;
  lastError : option (string * string);
}.

(** The sign of a number as a sort or [||] sees it; [NaN] is falsy like 0. *)
Definition num_signum (x : number) : Z :=
  if num_lt x (num_of_Z 0) then -1 else if num_lt (num_of_Z 0) x then 1 else 0.

(** [x || y] on the results of comparisons. *)
Definition or_else (x y : Z) : Z := if x =? 0 then y else x.

(** [l.sort(compare)]: stable. *)
Section sort_with.
Context {A : Type} (compare : A -> A -> Z).

Fixpoint insert_with (x : A) (l : list A) : list A :=
  match l with
  | [] => [x]
  | y :: r => if compare x y <? 0 then x :: y :: r else y :: insert_with x r
  end.

Definition sort_with (l : list A) : list A := foldl (fun acc x => insert_with x acc) [] l.
End sort_with.

Section resolver.
Context `{Collation}.

(** ** The published order (packages/core) *)

Definition isOfflinePackageCompatible (m : OfflineMapPackageManifest) (tileSchema : string) : bool :=
  (ds_id m =? "openmapx")%string && (ds_tileSchema m =? tileSchema)%string.

Definition packageContainsPoint (m : OfflineMapPackageManifest) (point : Coordinate) : bool :=
  let bbox := cov_bbox m in
  num_le (west bbox) point.1 && num_le point.1 (east bbox) && num_le (south bbox) point.2 && num_le point.2 (north bbox).

Definition coverageArea (m : OfflineMapPackageManifest) : number :=
  let bbox := cov_bbox m in num_mul (num_sub (east bbox) (west bbox)) (num_sub (north bbox) (south bbox)).

Definition compare_manifests (a b : OfflineMapPackageManifest) : Z :=
  or_else (num_signum (num_sub (coverageArea a) (coverageArea b)))
    (or_else (localeCompare (ds_generatedAt b) (ds_generatedAt a)) (localeCompare (packageId a) (packageId b))).

Definition selectOfflinePackage (packages : list OfflineMapPackageManifest) (point : Coordinate) (tileSchema : string)
    : option OfflineMapPackageManifest :=
  head (sort_with compare_manifests
    (List.filter (fun m => isOfflinePackageCompatible m tileSchema && packageContainsPoint m point) packages)).

(** ** The resolver *)

Record ResolverEntry := {
  re_recordId : string;
  re_packageId : string;
  re_bbox : Bounds;
  re_area : number;
  re_generatedAt : string;
  re_order : nat;
}.

Record ResolverSnapshot := {
  rs_entries : list ResolverEntry;
  rs_index : StaticBboxIndex;
  rs_compatibleIds : list string;
}.

Definition EMPTY_SNAPSHOT : ResolverSnapshot :=
  {| rs_entries := []; rs_index := EMPTY_BBOX_INDEX; rs_compatibleIds := [] |}.

Definition compareEntries (a b : ResolverEntry) : Z :=
  or_else (num_signum (num_sub (re_area a) (re_area b)))
    (or_else (localeCompare (re_generatedAt b) (re_generatedAt a))
      (or_else (localeCompare (re_packageId a) (re_packageId b)) (Z.of_nat (re_order a) - Z.of_nat (re_order b)))).

(** [l.sort()] of strings: by code unit. *)
Definition sort_strings (l : list string) : list string :=
  order_by (fun a b => match String.compare a b with Gt => false | _ => true end) l.

(** The records of the map, in the order of their insertion. *)
Definition map_set (r : OfflinePackageRecord) (records : list OfflinePackageRecord) : list OfflinePackageRecord :=
  if existsb (fun r' => (pr_id r' =? pr_id r)%string) records
  then map (fun r' => if (pr_id r' =? pr_id r)%string then r else r') records
  else records ++ [r].

Definition records_get (id : string) (records : list OfflinePackageRecord) : option OfflinePackageRecord :=
  List.find (fun r => (pr_id r =? id)%string) records.

Definition is_ready (r : OfflinePackageRecord) : bool := bool_decide (pr_status r = Ready).

Definition resolver_entry (order : nat) (r : OfflinePackageRecord) : ResolverEntry :=
  let bbox := cov_bbox (pr_manifest r) in
  {| re_recordId := pr_id r; re_packageId := packageId (pr_manifest r); re_bbox := bbox;
     re_area := num_mul (num_sub (east bbox) (west bbox)) (num_sub (north bbox) (south bbox));
     re_generatedAt := ds_generatedAt (pr_manifest r); re_order := order |}.

(** The loop over the records; [order] is [entries.length]. *)
Fixpoint snapshot_entries (tileSchema : string) (order : nat) (records : list OfflinePackageRecord) : list ResolverEntry :=
  match records with
  | [] => []
  | r :: records =>
      if negb (is_ready r) || negb (isOfflinePackageCompatible (pr_manifest r) tileSchema)
      then snapshot_entries tileSchema order records
      else resolver_entry order r :: snapshot_entries tileSchema (S order) records
  end.

Definition buildResolverSnapshot (records : list OfflinePackageRecord) (tileSchema : string) : ResolverSnapshot :=
  let entries := snapshot_entries tileSchema 0 records in
  match entries with
  | [] => EMPTY_SNAPSHOT
  | _ => {| rs_entries := entries; rs_index := createStaticBboxIndex (map re_bbox entries);
            rs_compatibleIds := sort_strings (map re_recordId entries) |}
  end.

Record Resolver := { rv_records : list OfflinePackageRecord; rv_snapshot : ResolverSnapshot }.

(** The records of [refresh]; the closing of readers is I/O. *)
Definition refresh (listed : list OfflinePackageRecord) (tileSchema : string) : Resolver :=
  let records := foldl (fun m r => map_set r m) [] listed in
  {| rv_records := records; rv_snapshot := buildResolverSnapshot records tileSchema |}.

(** The visitor of [packageForCoordinate]. *)
Definition visit_best (s : ResolverSnapshot) (c : Coordinate) (allowed : option (list string))
    (best : option ResolverEntry) (item : nat) : option ResolverEntry :=
  match rs_entries s !! item with
  | None => best
  | Some entry =>
      if match allowed with Some ids => negb (includes (re_recordId entry) ids) | None => false end then best
      else if negb (contains (re_bbox entry) c) then best
      else match best with
           | None => Some entry
           | Some b => if compareEntries entry b <? 0 then Some entry else best
           end
  end.

Definition packageForCoordinate (v : Resolver) (c : Coordinate) (allowed : option (list string)) : option OfflinePackageRecord :=
  let s := rv_snapshot v in
  match rs_entries s with
  | [] => None
  | _ =>
      let point := {| west := c.1; south := c.2; east := c.1; north := c.2 |} in
      match foldl (visit_best s c allowed) None (query (rs_index s) point) with
      | Some best => records_get (re_packageId best) (rv_records v)
      | None => None
      end
  end.

(** The hull of a polyline. *)
Definition hull_of (coordinates : list Coordinate) : Bounds :=
  union_box (map (fun c => {| west := c.1; south := c.2; east := c.1; north := c.2 |}) coordinates).

Definition packageIdsForGeometry (v : Resolver) (coordinates : list Coordinate) : list string :=
  let s := rv_snapshot v in
  match rs_entries s, coordinates with
  | [], _ | _, [] => []
  | _, _ =>
      sort_strings (omap (fun item =>
        match rs_entries s !! item with
        | Some entry => if geometryIntersectsBbox (re_bbox entry) coordinates then Some (re_recordId entry) else None
        | None => None
        end) (query (rs_index s) (hull_of coordinates)))
  end.

Definition compatiblePackageIds (v : Resolver) : list string := rs_compatibleIds (rv_snapshot v).

Definition resolver_get (v : Resolver) (id : string) : option OfflinePackageRecord := records_get id (rv_records v).

End resolver.

(** * The resolver chooses the package the published order names *)

Local Open Scope Z_scope.

(** Documented behaviour of a collation: a total preorder. *)
Class CollationLaws `{Collation} := {
  collation_refl a : localeCompare a a = 0;
  collation_flip a b : localeCompare a b < 0 <-> 0 < localeCompare b a;
  collation_trans a b c : localeCompare a b <= 0 -> localeCompare b c <= 0 -> localeCompare a c <= 0;
}.

(** ** The least element of a list *)

Section least.
Context {A : Type} (cmp : A -> A -> Z).

Definition pick (best : option A) (x : A) : option A :=
  match best with None => Some x | Some b => if cmp x b <? 0 then Some x else Some b end.

Lemma head_insert x l : head (insert_with cmp x l) = pick (head l) x.
Proof. destruct l as [|y l]; [done|]. cbn. by destruct (cmp x y <? 0). Qed.

Lemma head_sort l : head (sort_with cmp l) = foldl pick None l.
Proof.
  unfold sort_with. change (None : option A) with (head (@nil A)). generalize (@nil A).
  induction l as [|x l IH]; intros acc; [done|]. cbn [foldl]. by rewrite IH, head_insert.
Qed.

(** A strict total order on the elements at hand. *)
Definition total_on (l : list A) : Prop :=
  (forall x y, x ∈ l -> y ∈ l -> x = y \/ cmp x y < 0 \/ cmp y x < 0) /\
  (forall x y z, x ∈ l -> y ∈ l -> z ∈ l -> cmp x y < 0 -> cmp y z < 0 -> cmp x z < 0) /\
  (forall x y, x ∈ l -> y ∈ l -> cmp x y < 0 -> cmp y x < 0 -> False).

Lemma pick_least l : total_on l -> forall acc rest, acc ++ rest = l -> forall best,
  match best with
  | None => acc = []
  | Some m => m ∈ acc /\ forall x, x ∈ acc -> x = m \/ cmp m x < 0
  end ->
  match foldl pick best rest with
  | None => l = []
  | Some m => m ∈ l /\ forall x, x ∈ l -> x = m \/ cmp m x < 0
  end.
Proof.
  intros (Htotal & Htrans & _) acc rest. revert acc.
  induction rest as [|x rest IH]; intros acc Hl best Hbest; [cbn; rewrite app_nil_r in Hl; by subst l|].
  cbn [foldl]. apply (IH (acc ++ [x])); [by rewrite <-app_assoc|].
  assert (Hin : forall y, y ∈ acc ++ [x] -> y ∈ l).
  { intros y Hy. rewrite <-Hl. change (x :: rest) with ([x] ++ rest). rewrite app_assoc. apply elem_of_app. by left. }
  assert (Hx : x ∈ acc ++ [x]) by (apply elem_of_app; right; left).
  destruct best as [m|]; cbn [pick].
  - destruct Hbest as [Hm Hleast]. assert (Hm' : m ∈ acc ++ [x]) by (apply elem_of_app; by left).
    destruct (Z.ltb_spec (cmp x m) 0) as [Hlt|Hge].
    + split; [done|]. intros y Hy. pose proof (Hin y Hy). apply elem_of_app in Hy as [Hy|Hy].
      * right. destruct (Hleast y Hy) as [->|Hmy]; [done|]. apply (Htrans x m y); auto.
      * left. by apply list_elem_of_singleton in Hy.
    + split; [done|]. intros y Hy. apply elem_of_app in Hy as [Hy|Hy]; [auto|].
      apply list_elem_of_singleton in Hy as ->. destruct (Htotal x m) as [?|[?|?]]; auto; lia.
  - subst acc. split; [left|]. intros y Hy. left. by apply list_elem_of_singleton in Hy.
Qed.

Lemma total_on_perm l l' : l ≡ₚ l' -> total_on l -> total_on l'.
Proof.
  intros Hp (H1 & H2 & H3). split_and!; intros *; rewrite <-!Hp; [apply H1|apply H2|apply H3].
Qed.

(** The least element does not depend on the order of the list. *)
Lemma pick_permutation l l' : l ≡ₚ l' -> total_on l -> foldl pick None l = foldl pick None l'.
Proof.
  intros Hp Ht. pose proof (pick_least l Ht [] l eq_refl None eq_refl) as H1.
  pose proof (pick_least l' (total_on_perm _ _ Hp Ht) [] l' eq_refl None eq_refl) as H2.
  destruct (foldl pick None l) as [m|], (foldl pick None l') as [m'|]; try done.
  - destruct H1 as [Hm Hl], H2 as [Hm' Hl']. rewrite Hp in Hm. rewrite <-Hp in Hm'.
    destruct (Hl m' Hm') as [->|Hlt]; [done|]. destruct (Hl' m Hm) as [->|Hlt']; [done|].
    exfalso. destruct Ht as (_ & _ & Hasym). apply (Hasym m m'); try done. by rewrite Hp.
  - subst l'. symmetry in Hp. apply Permutation_nil_l in Hp. subst l. destruct H1 as [Hm _]. by apply not_elem_of_nil in Hm.
  - subst l. apply Permutation_nil_l in Hp. subst l'. destruct H2 as [Hm _]. by apply not_elem_of_nil in Hm.
Qed.
End least.

(** ** Comparing doubles by the sign of their difference *)

Lemma representable_gap p q : representable p -> representable q -> (p < q)%Q -> (p - q <= - pow2 (-1074))%Q.
Proof.
  assert (Hgrid : forall x, representable x -> exists n, (x == inject_Z n * pow2 (-1074))%Q).
  { intros x (m & e & _ & He & Hx & _). exists (m * 2 ^ (e + 1074)). rewrite Hx, inject_Z_mult, <-pow2_Z by lia.
    rewrite <-Qmult_assoc, <-pow2_add. by replace (e + 1074 + -1074) with e by lia. }
  intros (m & Hm)%Hgrid (n & Hn)%Hgrid Hlt. rewrite Hm, Hn in *. pose proof (pow2_pos (-1074)) as Hpos.
  assert (Hz : m < n).
  { apply Z.nle_gt. intros Hle. rewrite Zle_Qle in Hle.
    assert (inject_Z n * pow2 (-1074) <= inject_Z m * pow2 (-1074))%Q by (apply Qmult_le_compat_r; lra). lra. }
  assert (Hz' : m + 1 <= n) by lia. rewrite Zle_Qle, inject_Z_plus in Hz'.
  assert ((inject_Z m + inject_Z 1) * pow2 (-1074) <= inject_Z n * pow2 (-1074))%Q by (apply Qmult_le_compat_r; lra).
  change (inject_Z 1) with 1%Q in *. lra.
Qed.

Lemma round_negative q : (q <= - pow2 (-1074))%Q -> num_signum (round_double q) = -1.
Proof.
  intros Hq. pose proof (pow2_pos (-1074)).
  pose proof (round_le (- pow2 (-1074)) q (representable_opp _ (representable_pow2 (-1074) ltac:(lia))) Hq) as Hle.
  unfold num_signum. assert (num_lt (round_double q) (num_of_Z 0) = true) as ->; [|done].
  eapply num_le_lt_trans; [exact Hle|]. apply num_lt_Fin. change (inject_Z 0) with 0%Q. lra.
Qed.

Lemma round_positive q : (pow2 (-1074) <= q)%Q -> num_signum (round_double q) = 1.
Proof.
  intros Hq. pose proof (pow2_pos (-1074)).
  pose proof (round_ge (pow2 (-1074)) q (representable_pow2 (-1074) ltac:(lia)) Hq) as Hge.
  assert (Hpos : num_lt (num_of_Z 0) (round_double q) = true).
  { eapply num_lt_le_trans; [|exact Hge]. apply num_lt_Fin. change (inject_Z 0) with 0%Q. lra. }
  unfold num_signum. rewrite Hpos. destruct (num_lt (round_double q) (num_of_Z 0)) eqn:E; [|done].
  pose proof (num_le_lt_trans _ _ _ (num_lt_le _ _ Hpos) E) as F. by rewrite num_lt_irrefl in F.
Qed.

(** The sign of the rounded difference is the comparison. *)
Lemma signum_sub p q : representable p -> representable q ->
  num_signum (num_sub (Fin p) (Fin q)) = match Qcompare p q with Lt => -1 | Eq => 0 | Gt => 1 end.
Proof.
  intros Hp Hq. cbn [num_sub num_neg num_add]. destruct (Qcompare_spec p q) as [E|L|G].
  - unfold round_double. assert (Qnum (p + - q) =? 0 = true) as ->; [|done].
    apply Z.eqb_eq. unfold Qeq in E. cbn. lia.
  - apply round_negative. by apply representable_gap.
  - apply round_positive. pose proof (representable_gap q p Hq Hp G). lra.
Qed.

(** ** The order of the packages *)

(** A three-way comparison of the elements with [P]. *)
Record compares {A} (P : A -> Prop) (c : A -> A -> Z) : Prop := {
  cmp_flip x y : P x -> P y -> c x y < 0 <-> 0 < c y x;
  cmp_trans x y z : P x -> P y -> P z -> c x y <= 0 -> c y z <= 0 -> c x z <= 0;
}.

Lemma compares_zero {A} (P : A -> Prop) c x y : compares P c -> P x -> P y -> c x y = 0 -> c y x = 0.
Proof. intros Hc Hx Hy E. pose proof (cmp_flip _ _ Hc x y Hx Hy). pose proof (cmp_flip _ _ Hc y x Hy Hx). lia. Qed.

(** One comparison, then another. *)
Lemma compares_lex {A} (P : A -> Prop) c d : compares P c -> compares P d ->
  compares P (fun x y => or_else (c x y) (d x y)).
Proof.
  intros Hc Hd. unfold or_else. split.
  - intros x y Hx Hy. pose proof (cmp_flip _ _ Hc x y Hx Hy). pose proof (cmp_flip _ _ Hc y x Hy Hx).
    pose proof (cmp_flip _ _ Hd x y Hx Hy). destruct (Z.eqb_spec (c x y) 0), (Z.eqb_spec (c y x) 0); lia.
  - intros x y z Hx Hy Hz. pose proof (cmp_trans _ _ Hc x y z Hx Hy Hz). pose proof (cmp_trans _ _ Hd x y z Hx Hy Hz).
    pose proof (cmp_trans _ _ Hc y z x Hy Hz Hx). pose proof (cmp_trans _ _ Hc z x y Hz Hx Hy).
    pose proof (cmp_flip _ _ Hc x z Hx Hz). pose proof (cmp_flip _ _ Hc z x Hz Hx).
    pose proof (cmp_flip _ _ Hc x y Hx Hy). pose proof (cmp_flip _ _ Hc y z Hy Hz).
    pose proof (cmp_flip _ _ Hc y x Hy Hx). pose proof (cmp_flip _ _ Hc z y Hz Hy).
    destruct (Z.eqb_spec (c x y) 0), (Z.eqb_spec (c y z) 0), (Z.eqb_spec (c x z) 0); lia.
Qed.

Lemma compares_total {A} (P : A -> Prop) c l : compares P c -> (forall x, x ∈ l -> P x) ->
  (forall x y, x ∈ l -> y ∈ l -> c x y = 0 -> x = y) -> total_on c l.
Proof.
  intros Hc HP Hzero. split_and!.
  - intros x y Hx Hy. pose proof (cmp_flip _ _ Hc x y (HP x Hx) (HP y Hy)).
    pose proof (cmp_flip _ _ Hc y x (HP y Hy) (HP x Hx)).
    destruct (Z.lt_trichotomy (c x y) 0) as [?|[?|?]]; [by right; left|left; auto|right; right; lia].
  - intros x y z Hx Hy Hz. pose proof (cmp_trans _ _ Hc x y z (HP x Hx) (HP y Hy) (HP z Hz)).
    pose proof (cmp_trans _ _ Hc z x y (HP z Hz) (HP x Hx) (HP y Hy)).
    pose proof (cmp_flip _ _ Hc y z (HP y Hy) (HP z Hz)).
    pose proof (compares_zero _ _ x z Hc (HP x Hx) (HP z Hz)). lia.
  - intros x y Hx Hy. pose proof (cmp_flip _ _ Hc x y (HP x Hx) (HP y Hy)). lia.
Qed.

Section order.
Context `{CollationLaws}.

Definition good_area (e : ResolverEntry) : Prop := exists q, re_area e = Fin q /\ representable q.

Lemma area_compares : compares good_area (fun a b => num_signum (num_sub (re_area a) (re_area b))).
Proof.
  split.
  - intros x y (p & -> & Hp) (q & -> & Hq). rewrite !signum_sub by done.
    destruct (Qcompare_spec p q), (Qcompare_spec q p); try lia; lra.
  - intros x y z (p & -> & Hp) (q & -> & Hq) (r & -> & Hr). rewrite !signum_sub by done.
    destruct (Qcompare_spec p q), (Qcompare_spec q r), (Qcompare_spec p r); try lia; lra.
Qed.

Lemma collation_compares {A} (P : A -> Prop) (f : A -> string) : compares P (fun a b => localeCompare (f a) (f b)).
Proof. split; intros *; [intros _ _; apply collation_flip|intros _ _ _; apply collation_trans]. Qed.

Lemma collation_compares_back {A} (P : A -> Prop) (f : A -> string) : compares P (fun a b => localeCompare (f b) (f a)).
Proof.
  split.
  - intros x y _ _. apply collation_flip.
  - intros x y z _ _ _ ??. by apply (collation_trans _ (f y)).
Qed.

(** The comparison without the order of the records. *)
Definition compare_published (a b : ResolverEntry) : Z :=
  or_else (num_signum (num_sub (re_area a) (re_area b)))
    (or_else (localeCompare (re_generatedAt b) (re_generatedAt a)) (localeCompare (re_packageId a) (re_packageId b))).

Lemma compareEntries_lex a b : compareEntries a b = or_else (compare_published a b) (Z.of_nat (re_order a) - Z.of_nat (re_order b)).
Proof.
  unfold compareEntries, compare_published, or_else.
  destruct (num_signum _ =? 0) eqn:E1; [|by rewrite E1].
  destruct (localeCompare (re_generatedAt b) _ =? 0) eqn:E2; [done|by rewrite E2].
Qed.

Lemma published_compares : compares good_area compare_published.
Proof.
  apply compares_lex; [apply area_compares|]. apply (compares_lex _ (fun a b => localeCompare (re_generatedAt b) (re_generatedAt a)));
    [apply collation_compares_back|apply collation_compares].
Qed.

Lemma entries_compare : compares good_area compareEntries.
Proof.
  pose proof (compares_lex _ _ (fun a b => Z.of_nat (re_order a) - Z.of_nat (re_order b)) published_compares) as L.
  destruct L as [Hf Ht]; [split; intros; lia|].
  split; intros *; rewrite !compareEntries_lex; [apply Hf|apply Ht].
Qed.

(** Along increasing orders the tie-break never decides. *)
Lemma pick_published best es : StronglySorted (fun a b => (re_order a < re_order b)%nat) es ->
  match best with Some b => Forall (fun e => (re_order b < re_order e)%nat) es | None => True end ->
  foldl (pick compareEntries) best es = foldl (pick compare_published) best es.
Proof.
  intros Hs. revert best. induction Hs as [|e es _ IH He]; intros best Hb; [done|]. cbn [foldl].
  assert (E : pick compareEntries best e = pick compare_published best e).
  { destruct best as [b|]; [|done]. cbn [pick]. rewrite compareEntries_lex.
    apply Forall_cons in Hb as [Hb _]. unfold or_else. destruct (Z.eqb_spec (compare_published e b) 0) as [->|]; [|done].
    by destruct (Z.ltb_spec (Z.of_nat (re_order e) - Z.of_nat (re_order b)) 0); [lia|]. }
  rewrite E. apply IH. destruct best as [b|]; cbn [pick]; [|done].
  apply Forall_cons in Hb as [_ ?]. by destruct (compare_published e b <? 0).
Qed.
End order.

(** ** The candidates of the resolver *)

Section candidates.
Context `{Collation} (tileSchema : string).

(** The packages the snapshot keeps, and those a lookup may answer. *)
Definition offered (r : OfflinePackageRecord) : bool := is_ready r && isOfflinePackageCompatible (pr_manifest r) tileSchema.

Lemma snapshot_entries_imap k records :
  snapshot_entries tileSchema k records = imap (fun i r => resolver_entry (k + i) r) (List.filter offered records).
Proof.
  revert k. induction records as [|r records IH]; intros k; [done|]. cbn [snapshot_entries List.filter].
  rewrite <-negb_andb. fold (offered r). destruct (offered r); cbn [negb]; [|apply IH].
  cbn [imap]. rewrite IH. f_equal; [f_equal; lia|]. apply imap_ext. intros i r' _. cbn. f_equal. lia.
Qed.

Definition permits (allowed : option (list string)) (id : string) : bool :=
  match allowed with Some ids => includes id ids | None => true end.

(** The visitor is a search for the least of the entries it does not pass over. *)
Definition wanted (s : ResolverSnapshot) c allowed (item : nat) : option ResolverEntry :=
  match rs_entries s !! item with
  | Some e => if permits allowed (re_recordId e) && contains (re_bbox e) c then Some e else None
  | None => None
  end.

Lemma visit_best_pick s c allowed best items :
  foldl (visit_best s c allowed) best items = foldl (pick compareEntries) best (omap (wanted s c allowed) items).
Proof.
  revert best. induction items as [|i items IH]; intros best; [done|]. cbn [foldl omap list_omap].
  unfold visit_best at 2. unfold wanted at 1. destruct (rs_entries s !! i) as [e|]; [|apply IH].
  assert (E : (match allowed with Some ids => negb (includes (re_recordId e) ids) | None => false end)
              = negb (permits allowed (re_recordId e))) by (by destruct allowed). rewrite E.
  destruct (permits allowed (re_recordId e)); cbn [negb andb]; [|apply IH].
  destruct (contains (re_bbox e) c); cbn [negb]; [|apply IH]. rewrite IH. cbn [foldl]. f_equal. by destruct best.
Qed.

Lemma omap_snoc {A B} (f : A -> option B) x l : omap f (x :: l) = match f x with Some y => y :: omap f l | None => omap f l end.
Proof. done. Qed.

Lemma omap_lookup_filter {A} (g : A -> bool) (l : list A) :
  omap (fun i => match l !! i with Some e => if g e then Some e else None | None => None end) (seq 0 (length l))
  = List.filter g l.
Proof.
  induction l as [|x l IH]; [done|]. cbn [length seq List.filter]. rewrite omap_snoc.
  assert (E : omap (fun i => match (x :: l) !! i with Some e => if g e then Some e else None | None => None end) (seq 1 (length l))
              = List.filter g l).
  { rewrite <-IH, <-fmap_S_seq. generalize (seq 0 (length l)). intros ks. induction ks as [|i ks IHi]; [done|].
    rewrite fmap_cons, !omap_snoc, IHi. done. }
  rewrite E. cbn. by destruct (g x).
Qed.

Lemma omap_filter {A B} (f : A -> option B) (g : A -> bool) l : (forall x, x ∈ l -> g x = false -> f x = None) ->
  omap f (List.filter g l) = omap f l.
Proof.
  induction l as [|x l IH]; intros Hg; [done|]. cbn [List.filter].
  assert (IHl : omap f (List.filter g l) = omap f l) by (apply IH; intros y ?; apply Hg; by right).
  destruct (g x) eqn:E; rewrite !omap_snoc, IHl; [done|]. by rewrite (Hg x) by (done || left).
Qed.

Lemma contains_meets b (c : Coordinate) : contains b c = true ->
  misses {| west := c.1; south := c.2; east := c.1; north := c.2 |} b = false.
Proof.
  unfold contains, misses. cbn. rewrite !andb_true_iff. intros [[[H1 H2] H3] H4].
  assert (Hle : forall x y, num_le x y = true -> num_lt y x = false).
  { intros x y Hxy. destruct (num_lt y x) eqn:E; [|done].
    pose proof (num_le_lt_trans _ _ _ Hxy E) as F. by rewrite num_lt_irrefl in F. }
  by rewrite (Hle _ _ H1), (Hle _ _ H2), (Hle _ _ H3), (Hle _ _ H4).
Qed.

(** What the query of the tree comes to. *)
Lemma wanted_query entries c allowed : Forall (fun e => no_nan (re_bbox e)) entries ->
  let s := {| rs_entries := entries; rs_index := createStaticBboxIndex (map re_bbox entries);
              rs_compatibleIds := sort_strings (map re_recordId entries) |} in
  omap (wanted s c allowed) (query (rs_index s) {| west := c.1; south := c.2; east := c.1; north := c.2 |})
  ≡ₚ List.filter (fun e => permits allowed (re_recordId e) && contains (re_bbox e) c) entries.
Proof.
  intros Hn s. set (q := {| west := c.1; south := c.2; east := c.1; north := c.2 |}).
  rewrite <-omap_lookup_filter. unfold s at 2. cbn [rs_index].
  rewrite (query_scan (map re_bbox entries) q) by (by apply Forall_map).
  rewrite length_map. unfold wanted. cbn [s rs_entries]. rewrite omap_filter; [done|].
  intros i Hi Hmiss. destruct (entries !! i) as [e|] eqn:He; [|done].
  assert (Hb : map re_bbox entries !!! i = re_bbox e).
  { apply list_lookup_total_correct. change (map re_bbox entries) with (re_bbox <$> entries). by rewrite list_lookup_fmap, He. }
  rewrite Hb in Hmiss. apply negb_false_iff in Hmiss.
  destruct (contains (re_bbox e) c) eqn:Hc; [|by rewrite andb_false_r].
  unfold q in Hmiss. rewrite (contains_meets _ _ Hc) in Hmiss. discriminate.
Qed.
End candidates.

(** ** The theorem *)

(** The boxes of the manifests that pass [bboxSchema]. *)
Definition manifest_box (b : Bounds) : Prop :=
  between (-180) 180 (west b) /\ between (-180) 180 (east b) /\ between (-90) 90 (south b) /\ between (-90) 90 (north b).

(** What the storage lists: records under the identifier of their valid manifest. *)
Definition listed_record (r : OfflinePackageRecord) : Prop :=
  pr_id r = packageId (pr_manifest r) /\ manifest_box (cov_bbox (pr_manifest r)).

Lemma manifest_box_no_nan b : manifest_box b -> no_nan b.
Proof.
  unfold no_nan. intros ((? & -> & _) & (? & -> & _) & (? & -> & _) & (? & -> & _)). by split_and!.
Qed.

Lemma manifest_area k r : listed_record r -> good_area (resolver_entry k r).
Proof.
  intros [_ (Hw & He & Hs & Hn)]. unfold good_area, resolver_entry. cbn [re_area].
  assert (R : forall n, (n <= 1000000)%Z -> (- 1000000 <= n)%Z -> representable (inject_Z n)) by (intros; apply representable_Z; lia).
  destruct (between_sub (-360) 360 (R (-360) ltac:(lia) ltac:(lia)) (R 360 ltac:(lia) ltac:(lia)) _ _ _ _ _ _ He Hw) as (p & -> & Hp & P1 & P2);
    [lra..|].
  destruct (between_sub (-180) 180 (R (-180) ltac:(lia) ltac:(lia)) (R 180 ltac:(lia) ltac:(lia)) _ _ _ _ _ _ Hn Hs) as (q & -> & Hq & Q1 & Q2);
    [lra..|].
  destruct (round_between (-64800) 64800 (p * q) (R (-64800) ltac:(lia) ltac:(lia)) (R 64800 ltac:(lia) ltac:(lia))) as (x & E & Hx & _);
    [nra|nra|]. exists x. split; [exact E|done].
Qed.

Lemma map_set_Forall (P : OfflinePackageRecord -> Prop) r records : P r -> Forall P records -> Forall P (map_set r records).
Proof.
  intros Hr Hrs. unfold map_set. destruct (existsb _ records); [|by apply Forall_app; split; [|constructor]].
  apply Forall_map. eapply Forall_impl; [exact Hrs|]. intros r' ?. cbn. by destruct (_ =? _)%string.
Qed.

Lemma map_set_ids r records : NoDup (map pr_id records) -> NoDup (map pr_id (map_set r records)).
Proof.
  intros Hn. unfold map_set. destruct (existsb (fun r' => (pr_id r' =? pr_id r)%string) records) eqn:E.
  - rewrite map_map. erewrite map_ext; [exact Hn|]. intros r'. cbn.
    by destruct (String.eqb_spec (pr_id r') (pr_id r)).
  - rewrite map_app. apply NoDup_app. split; [done|]. split; [|apply NoDup_singleton].
    intros id Hin ->%list_elem_of_singleton. apply list_elem_of_fmap in Hin as (r' & Hr & Hin).
    rewrite list_elem_of_In in Hin. assert (existsb (fun r' => (pr_id r' =? pr_id r)%string) records = true); [|congruence].
    apply existsb_exists. exists r'. split; [done|]. apply String.eqb_eq. by rewrite Hr.
Qed.

Lemma refreshed_records listed : Forall listed_record listed ->
  Forall listed_record (foldl (fun m r => map_set r m) [] listed) /\ NoDup (map pr_id (foldl (fun m r => map_set r m) [] listed)).
Proof.
  intros Hl. assert (G : forall acc, Forall listed_record acc -> NoDup (map pr_id acc) ->
    Forall listed_record (foldl (fun m r => map_set r m) acc listed) /\ NoDup (map pr_id (foldl (fun m r => map_set r m) acc listed))).
  { induction Hl as [|r listed Hr _ IH]; intros acc Ha Hn; [done|]. cbn [foldl]. apply IH;
      [by apply map_set_Forall|by apply map_set_ids]. }
  apply G; constructor.
Qed.

(** Entries and the records they come from. *)
Definition entry_of (e : ResolverEntry) (r : OfflinePackageRecord) : Prop := exists k, e = resolver_entry k r.

Section chosen.
Context `{CollationLaws}.

Lemma compare_published_manifests e e' r r' : entry_of e r -> entry_of e' r' ->
  compare_published e e' = compare_manifests (pr_manifest r) (pr_manifest r').
Proof. by intros [k ->] [k' ->]. Qed.

Definition same_choice (e : option ResolverEntry) (r : option OfflinePackageRecord) : Prop :=
  match e, r with Some e, Some r => entry_of e r | None, None => True | _, _ => False end.

Lemma pick_parallel es rs e r : Forall2 entry_of es rs -> same_choice e r ->
  exists r', same_choice (foldl (pick compare_published) e es) r' /\
    foldl (pick compare_manifests) (option_map pr_manifest r) (map pr_manifest rs) = option_map pr_manifest r' /\
    (forall x, r' = Some x -> r = Some x \/ x ∈ rs).
Proof.
  intros Hes. revert e r. induction Hes as [|e0 r0 es rs Hr0 _ IH]; intros e r Hsame;
    [exists r; split_and!; auto|]. cbn [foldl map].
  assert (Hstep : exists r1, same_choice (pick compare_published e e0) r1 /\
    pick compare_manifests (option_map pr_manifest r) (pr_manifest r0) = option_map pr_manifest r1 /\ (r1 = r \/ r1 = Some r0)).
  { destruct e as [e|], r as [r|]; try done; cbn [pick option_map].
    - rewrite (compare_published_manifests e0 e r0 r) by done. destruct (_ <? 0); [exists (Some r0)|exists (Some r)]; auto.
    - exists (Some r0). auto. }
  destruct Hstep as (r1 & Hsame1 & -> & Hr1). destruct (IH _ r1 Hsame1) as (r' & ? & ? & Hin).
  exists r'. split; [done|]. split; [done|]. intros x Hx. destruct (Hin x Hx) as [->|?]; [|by right; right].
  destruct Hr1 as [<-|[= ->]]; [by left|right; left].
Qed.

Lemma filter_entries (g : OfflinePackageRecord -> bool) (f : ResolverEntry -> bool) k rs :
  (forall i r, f (resolver_entry i r) = g r) ->
  Forall2 entry_of (List.filter f (imap (fun i r => resolver_entry (k + i) r) rs)) (List.filter g rs) /\
  StronglySorted (fun a b => (re_order a < re_order b)%nat) (List.filter f (imap (fun i r => resolver_entry (k + i) r) rs)) /\
  Forall (fun e => (k <= re_order e)%nat /\ exists r, r ∈ rs /\ entry_of e r)
    (List.filter f (imap (fun i r => resolver_entry (k + i) r) rs)).
Proof.
  intros Hf. revert k. induction rs as [|r rs IH]; intros k; [split_and!; constructor|].
  cbn [imap List.filter]. rewrite Hf, Nat.add_0_r.
  assert (E : imap ((fun i r => resolver_entry (k + i) r) ∘ S) rs = imap (fun i r => resolver_entry (S k + i) r) rs).
  { apply imap_ext. intros i r' _. cbn. f_equal. lia. }
  rewrite E. destruct (IH (S k)) as (H1 & H2 & H3).
  assert (H3' : Forall (fun e => (S k <= re_order e)%nat /\ exists r', r' ∈ r :: rs /\ entry_of e r')
    (List.filter f (imap (fun i r => resolver_entry (S k + i) r) rs))).
  { eapply Forall_impl; [exact H3|]. intros e (? & r' & ? & ?). split; [done|]. exists r'. split; [by right|done]. }
  destruct (g r).
  - split; [constructor; [by exists k|done]|]. split.
    + constructor; [done|]. eapply Forall_impl; [exact H3|]. cbn. intros e [? _]. lia.
    + constructor; [split; [cbn; lia|exists r; split; [left|by exists k]]|].
      eapply Forall_impl; [exact H3'|]. cbn. intros e [? ?]. split; [lia|done].
  - split; [done|]. split; [done|]. eapply Forall_impl; [exact H3'|]. cbn. intros e [? ?]. split; [lia|done].
Qed.

Lemma sorted_orders_distinct es x y : StronglySorted (fun a b : ResolverEntry => (re_order a < re_order b)%nat) es ->
  x ∈ es -> y ∈ es -> re_order x = re_order y -> x = y.
Proof.
  induction 1 as [|e es _ IH He]; intros Hx Hy E; [by apply not_elem_of_nil in Hx|]. rewrite Forall_forall in He.
  apply elem_of_cons in Hx as [->|Hx], Hy as [->|Hy]; [done| | |auto].
  - specialize (He y Hy). lia.
  - specialize (He x Hx). lia.
Qed.

Lemma filter_filter {A} (f g : A -> bool) l : List.filter f (List.filter g l) = List.filter (fun x => g x && f x) l.
Proof. induction l as [|x l IH]; [done|]. cbn. destruct (g x); cbn; [by rewrite IH|done]. Qed.

Lemma filter_map {A B} (f : A -> B) (g : B -> bool) l : List.filter g (map f l) = map f (List.filter (fun x => g (f x)) l).
Proof. induction l as [|x l IH]; [done|]. cbn. destruct (g (f x)); cbn; by rewrite IH. Qed.

Lemma filter_same {A} (f g : A -> bool) l : (forall x, x ∈ l -> f x = g x) -> List.filter f l = List.filter g l.
Proof.
  induction l as [|x l IH]; intros E; [done|]. cbn. rewrite (E x) by left. rewrite IH; [done|]. intros y ?. apply E. by right.
Qed.

(** The least candidate of the resolver is the record of the least manifest. *)
Lemma chosen_record tileSchema records c allowed : Forall listed_record records ->
  exists r,
    same_choice (foldl (pick compareEntries) None (List.filter (fun e => permits allowed (re_recordId e) && contains (re_bbox e) c)
      (snapshot_entries tileSchema 0 records))) r /\
    head (sort_with compare_manifests (List.filter (fun m => isOfflinePackageCompatible m tileSchema && packageContainsPoint m c)
      (map pr_manifest (List.filter (fun r => is_ready r && permits allowed (pr_id r)) records)))) = option_map pr_manifest r /\
    (forall x, r = Some x -> x ∈ records).
Proof.
  intros Hl. rewrite snapshot_entries_imap.
  destruct (filter_entries (fun r => permits allowed (pr_id r) && contains (cov_bbox (pr_manifest r)) c)
    (fun e => permits allowed (re_recordId e) && contains (re_bbox e) c) 0 (List.filter (offered tileSchema) records))
    as (Hrel & Hs & Hin); [done|].
  rewrite pick_published by done. destruct (pick_parallel _ _ None None Hrel I) as (r & Hr & Hfold & Hmem).
  exists r. split; [exact Hr|]. split.
  - rewrite head_sort, filter_map, filter_filter. rewrite filter_filter in Hfold. cbn [option_map] in Hfold.
    rewrite <-Hfold. do 2 f_equal. apply filter_same. intros x _. unfold offered.
    change (packageContainsPoint (pr_manifest x) c) with (contains (cov_bbox (pr_manifest x)) c).
    destruct (is_ready x), (permits allowed (pr_id x)), (isOfflinePackageCompatible _ _), (contains _ c); done.
  - intros x Hx. destruct (Hmem x Hx) as [?|Hx']; [done|].
    rewrite list_elem_of_In, !filter_In in Hx'. destruct Hx' as [[? _] _]. by rewrite list_elem_of_In.
Qed.

(** C13: the record the resolver answers for a coordinate, whatever the order in which the
    tree hands its candidates out, is the one whose manifest the published order selects
    among the ready packages. *)
Theorem resolver_selects_the_published_package listed tileSchema c allowed : Forall listed_record listed ->
  let v := refresh listed tileSchema in
  option_map pr_manifest (packageForCoordinate v c allowed)
  = selectOfflinePackage (map pr_manifest (List.filter (fun r => is_ready r && permits allowed (pr_id r)) (rv_records v))) c tileSchema.
Proof.
  intros (Hl & Hn)%refreshed_records v. unfold v, refresh, packageForCoordinate, selectOfflinePackage. cbn [rv_snapshot rv_records].
  set (records := foldl (fun m r => map_set r m) [] listed) in *.
  destruct (chosen_record tileSchema records c allowed Hl) as (r & Hr & -> & Hmem).
  unfold buildResolverSnapshot. remember (snapshot_entries tileSchema 0 records) as es eqn:Ees.
  destruct (decide (es = [])) as [E|Hne]; [rewrite E in Hr |- *; cbn in Hr; destruct r; [done|reflexivity]|].
  assert (Hgood : Forall (fun e => good_area e /\ no_nan (re_bbox e)) es).
  { rewrite Ees, snapshot_entries_imap. apply Forall_lookup. intros i e He.
    rewrite list_lookup_imap in He. destruct (List.filter _ records !! i) as [r0|] eqn:Er; [|done]. injection He as <-.
    apply list_elem_of_lookup_2 in Er. rewrite list_elem_of_In, filter_In, <-list_elem_of_In in Er.
    rewrite Forall_forall in Hl. pose proof (Hl r0 (proj1 Er)) as Hr0. split; [by apply manifest_area|].
    by apply manifest_box_no_nan, Hr0. }
  apply Forall_and in Hgood as [Hareas Hboxes].
  assert (Hmatch : forall A (a b : A), match es with [] => a | _ :: _ => b end = b) by (by destruct es).
  rewrite !Hmatch. cbn [rs_entries rs_index]. rewrite visit_best_pick.
  pose proof (wanted_query es c allowed Hboxes) as Hperm. cbn [rs_index] in Hperm. symmetry in Hperm.
  rewrite <-(pick_permutation compareEntries _ _ Hperm).
  - destruct (foldl (pick compareEntries) None _) as [e|], r as [r|]; try done. cbn in Hr. destruct Hr as [k ->].
    cbn [resolver_entry re_packageId]. pose proof (Hmem r eq_refl) as Hin.
    rewrite Forall_forall in Hl. destruct (Hl r Hin) as [Hid _]. unfold records_get. rewrite <-Hid.
    rewrite (find_unique pr_id records r) by done. done.
  - destruct (filter_entries (fun r => permits allowed (pr_id r) && contains (cov_bbox (pr_manifest r)) c)
      (fun e => permits allowed (re_recordId e) && contains (re_bbox e) c) 0 (List.filter (offered tileSchema) records))
      as (_ & Hs & _); [done|]. rewrite <-snapshot_entries_imap, <-Ees in Hs.
    apply (compares_total good_area); [apply entries_compare| |].
    + intros x Hx. rewrite list_elem_of_In, filter_In, <-list_elem_of_In in Hx. rewrite Forall_forall in Hareas.
      exact (Hareas x (proj1 Hx)).
    + intros x y Hx Hy E. apply (sorted_orders_distinct _ x y Hs Hx Hy).
      rewrite compareEntries_lex in E. unfold or_else in E. destruct (Z.eqb_spec (compare_published x y) 0); lia.
Qed.
End chosen.

(** ** Two packages *)

#[export] Instance sample_collation : Collation :=
  { localeCompare a b := Z.of_nat (String.length a) - Z.of_nat (String.length b) }.

#[export] Instance sample_collation_laws : CollationLaws.
Proof. split; intros; unfold localeCompare, sample_collation in *; lia. Qed.

Definition sample_package (id generatedAt : string) (w s e n : Z) : OfflinePackageRecord :=
  {| pr_id := id; pr_name := id;
     pr_manifest := {| schemaVersion := 2; packageId := id; mf_requestKey := ""; ds_id := "openmapx"; ds_version := "";
       ds_generatedAt := generatedAt; ds_sourceMaxZoom := 14; ds_tileSchema := "openmaptiles";
       cov_bbox := {| west := num_of_Z w; south := num_of_Z s; east := num_of_Z e; north := num_of_Z n |};
       cov_minZoom := 0; cov_maxZoom := 14; ar_url := ""; ar_contentType := ""; ar_byteLength := 100; ar_sha256 := "";
       ar_etag := ""; gl_version := ""; gl_urlTemplate := ""; mf_attribution := [] |};
     pr_status := Ready; bytesReceived := 100; bytesTotal := 100; verifiedPrefixBytes := 100;
     createdAt := 0; updatedAt := 0; downloadedAt := None; lastError := None |}.

Definition sample_listed : list OfflinePackageRecord :=
  [sample_package "country" "2026-01-01" 0 40 20 60; sample_package "city" "2026-01-01" 8 49 9 50].

Lemma resolver_selects_the_published_package_witness :
  let v := refresh sample_listed "openmaptiles" in
  let c := (literal 85 10, literal 495 10) in
  option_map pr_name (packageForCoordinate v c None) = Some "city"%string /\
  option_map pr_manifest (packageForCoordinate v c None)
  = selectOfflinePackage (map pr_manifest (List.filter (fun r => is_ready r && permits None (pr_id r)) (rv_records v))) c "openmaptiles".
Proof.
  split; [vm_compute; reflexivity|]. apply (resolver_selects_the_published_package sample_listed).
  assert (B : forall lo hi n, Z.abs n <= 1000 -> (lo <= inject_Z n)%Q -> (inject_Z n <= hi)%Q -> between lo hi (num_of_Z n)).
  { intros lo hi n ???. apply between_intro; [apply representable_Z; lia|done|done]. }
  repeat constructor; apply B; cbn; try lia; unfold Qle; cbn; lia.
Defined.

(** A line that ends one unit in the last place short of a box: the rounded clipping takes
    it for a touch, and the box of the line does not reach the box. *)
Theorem a_rounded_touch_is_pruned :
  let line := [(literal (-1793) 10, literal 5 10); (num_of_Z 10, literal 5 10)] in
  let b := {| west := literal (10 * 2 ^ 49 + 1) (2 ^ 49); south := num_of_Z 0; east := num_of_Z 11; north := num_of_Z 1 |} in
  geometryIntersectsBbox b line = true /\ misses (hull_of line) b = true.
Proof. split; vm_compute; reflexivity. Qed.
