(* ===== verification/Download.v ===== *)
(** * Where downloaded areas are kept, and how they are downloaded

    apps/web/src/lib/offlineAreas/packageStorage.ts, the storage of a browser without
    IndexedDB: [MemoryOfflinePackageStorage] and its [BlobArchiveFile].  A map is the
    list of its records or a finite map of bytes.  [structuredClone] is a value. *)

From stdpp Require Import gmap strings.
From S2P Require Import Prelude Text Doubles Sha256 Pmtiles Manifest Resolver.
Local Open Scope Z_scope.

(** ** An archive file over bytes in memory *)

Record BlobArchiveFile := {
  bf_chunks : list (list Z);
  bf_currentSize : Z;
  bf_closed : bool;
  bf_dirty : bool;
}.

Definition new_BlobArchiveFile (initial : list Z) : BlobArchiveFile := {|
  bf_chunks := match initial with [] => [] | _ => [initial] end;
  bf_currentSize := Z.of_nat (length initial);
  bf_closed := false;
  bf_dirty := false;
|}.

(** The loop that copies the chunks into one array. *)
Fixpoint copy_chunks (result : list Z) (offset : nat) (chunks : list (list Z)) : list Z :=
  match chunks with
  | [] => result
  | chunk :: chunks => copy_chunks (list_inserts offset chunk result) (offset + length chunk) chunks
  end.

Definition toBytes (f : BlobArchiveFile) : list Z :=
  copy_chunks (replicate (Z.to_nat (bf_currentSize f)) 0) 0 (bf_chunks f).

Definition assertOpen (f : BlobArchiveFile) : outcome unit :=
  if bf_closed f then Throw "offline archive file is closed" else Ok tt.

Definition blob_size (f : BlobArchiveFile) : outcome Z :=
  _ ← assertOpen f; Ok (bf_currentSize f).

Definition blob_read (offset len : Z) (f : BlobArchiveFile) : outcome (list Z) :=
  _ ← assertOpen f;
  if negb (is_safe offset) || negb (is_safe len) || (offset <? 0) || (len <? 0)
  then Throw "invalid offline archive range"
  else
    let bytes := toBytes f in
    Ok (take (Z.to_nat (Z.min (Z.of_nat (length bytes)) (offset + len) - offset)) (drop (Z.to_nat offset) bytes)).

Definition blob_append (chunk : list Z) (f : BlobArchiveFile) : outcome BlobArchiveFile :=
  _ ← assertOpen f;
  match chunk with
  | [] => Ok f
  | _ => Ok {| bf_chunks := bf_chunks f ++ [chunk]; bf_currentSize := bf_currentSize f + Z.of_nat (length chunk);
               bf_closed := bf_closed f; bf_dirty := true |}
  end.

Definition blob_truncate (size : Z) (f : BlobArchiveFile) : outcome BlobArchiveFile :=
  _ ← assertOpen f;
  if negb (is_safe size) || (size <? 0) then Throw "invalid offline archive size"
  else
    let bytes := take (Z.to_nat size) (toBytes f) in
    Ok {| bf_chunks := match bytes with [] => [] | _ => [bytes] end; bf_currentSize := Z.of_nat (length bytes);
          bf_closed := bf_closed f; bf_dirty := true |}.

(** ** The storage *)

Record PackageStorage := {
  st_records : list OfflinePackageRecord;
  st_partial : gmap string (list Z);
  st_ready : gmap string (list Z);
}.

Definition empty_storage : PackageStorage := {| st_records := []; st_partial := ∅; st_ready := ∅ |}.

Definition assertPackageId (id : string) : outcome unit :=
  if packageIdSchema id then Ok tt else Throw "invalid offline package id".

(** [b.updatedAt - a.updatedAt] *)
Definition storage_list (s : PackageStorage) : list OfflinePackageRecord :=
  sort_with (fun a b => updatedAt b - updatedAt a) (st_records s).

Definition storage_get (id : string) (s : PackageStorage) : option OfflinePackageRecord := records_get id (st_records s).

Section storage.
Context `{PackageDates}.

Definition storage_put (r : OfflinePackageRecord) (s : PackageStorage) : outcome PackageStorage :=
  _ ← validateOfflineMapPackageManifest (pr_manifest r);
  Ok {| st_records := map_set r (st_records s); st_partial := st_partial s; st_ready := st_ready s |}.

Definition storage_delete (id : string) (s : PackageStorage) : PackageStorage :=
  {| st_records := List.filter (fun r => negb (pr_id r =? id)%string) (st_records s);
     st_partial := delete id (st_partial s); st_ready := delete id (st_ready s) |}.

Definition openPartial (id : string) (s : PackageStorage) : outcome BlobArchiveFile :=
  _ ← assertPackageId id; Ok (new_BlobArchiveFile (default [] (st_partial s !! id))).

(** What the file of [openPartial] persists. *)
Definition persist_partial (id : string) (bytes : list Z) (s : PackageStorage) : PackageStorage :=
  {| st_records := st_records s; st_partial := <[id := bytes]> (st_partial s); st_ready := st_ready s |}.

Definition finalize (id : string) (s : PackageStorage) : outcome PackageStorage :=
  _ ← assertPackageId id;
  match st_partial s !! id with
  | None => Throw "offline package partial archive is missing"
  | Some bytes => Ok {| st_records := st_records s; st_partial := delete id (st_partial s);
                        st_ready := <[id := bytes]> (st_ready s) |}
  end.

Definition openReady (id : string) (s : PackageStorage) : outcome BlobArchiveFile :=
  _ ← assertPackageId id;
  match st_ready s !! id with
  | None => Throw "offline package archive is not ready"
  | Some bytes => Ok (new_BlobArchiveFile bytes)
  end.
End storage.

(** * Downloading an area

    apps/web/src/lib/offlineAreas/packageDownload.ts over that storage.
    The clock, the network and every call that may reject are the next element of a
    sequence the world gives ([DownloadWorld]); a call that rejects takes no effect.  The
    error a [catch] looks at is a value ([thrown]).  The table of running downloads and
    the lock run one download of a package at a time; metrics are telemetry and left
    out. *)

Local Open Scope Z_scope.

Definition PROGRESS_BYTES : Z := 4 * 1024 * 1024.
Definition DOWNLOAD_INTERVAL_MS : Z := 1000.

(** ** What is thrown *)

Inductive thrown :=
  | ApiError (code message : string)
  | AbortError (message : string)
  | NamedError (name message : string)
  | ThrownText (text : string).

(** [new Error(message)] *)
Definition plain_error (message : string) : thrown := NamedError "Error" message.

Fixpoint text_includes (part s : string) : bool :=
  startsWith part s || match s with EmptyString => false | String _ r => text_includes part r end.

Definition errorCode (e : thrown) : string :=
  match e with
  | ApiError code _ => code
  | AbortError _ => "aborted"
  | NamedError name message => if text_includes "QUOTA" (toUpperCase (name ++ message)) then "quota" else "download-failed"
  | ThrownText _ => "download-failed"
  end.

Definition errorMessage (e : thrown) : string :=
  match e with ApiError _ m | AbortError m | NamedError _ m | ThrownText m => m end.

Definition isAbort (e : thrown) : bool := match e with AbortError _ => true | _ => false end.

(** ** The world *)

Inductive body_item := BodyChunk (bytes : list Z) | BodyError (e : thrown).

Record Response := {
  rs_status : Z;
  rs_etag : option string;
  rs_contentRange : option string;
  rs_body : option (list body_item);
}.

(** [response.ok] *)
Definition rs_ok (r : Response) : bool := (200 <=? rs_status r) && (rs_status r <=? 299).

Class DownloadWorld := {
  clock : nat -> Z;
  call_fails : nat -> option thrown;
  open_archive : nat -> string -> option (Z * string) -> Response + thrown;
  signal_aborted : nat -> bool;
  estimate_available : nat -> option Z;
  validate_styles : option (nat -> option thrown);
}.

Record DownloadProgress := {
  pg_packageId : string;
  pg_status : OfflinePackageLocalStatus;
  pg_bytesReceived : Z;
  pg_bytesTotal : Z;
  pg_speed : Z;
  pg_error : option (string * string);
}.

Inductive DownloadEvent := Progress (p : DownloadProgress) | PackageChanged (id : string).

(** The storage, the local variables an error handler sees, and the trace.  Before
    [openPartial] the file is a closed one. *)
Record DownloadState := {
  dl_storage : PackageStorage;
  dl_record : OfflinePackageRecord;
  dl_file : BlobArchiveFile;
  dl_attemptStart : Z;
  dl_step : nat;
  dl_events : list DownloadEvent;
}.

Definition set_storage (st : PackageStorage) (s : DownloadState) : DownloadState :=
  Build_DownloadState st (dl_record s) (dl_file s) (dl_attemptStart s) (dl_step s) (dl_events s).
Definition set_record (r : OfflinePackageRecord) (s : DownloadState) : DownloadState :=
  Build_DownloadState (dl_storage s) r (dl_file s) (dl_attemptStart s) (dl_step s) (dl_events s).
Definition set_file (f : BlobArchiveFile) (s : DownloadState) : DownloadState :=
  Build_DownloadState (dl_storage s) (dl_record s) f (dl_attemptStart s) (dl_step s) (dl_events s).
Definition set_attemptStart (n : Z) (s : DownloadState) : DownloadState :=
  Build_DownloadState (dl_storage s) (dl_record s) (dl_file s) n (dl_step s) (dl_events s).
Definition next_step (s : DownloadState) : DownloadState :=
  Build_DownloadState (dl_storage s) (dl_record s) (dl_file s) (dl_attemptStart s) (S (dl_step s)) (dl_events s).
Definition add_event (e : DownloadEvent) (s : DownloadState) : DownloadState :=
  Build_DownloadState (dl_storage s) (dl_record s) (dl_file s) (dl_attemptStart s) (dl_step s) (dl_events s ++ [e]).

(** ** The record *)

Definition set_counts (received verified : Z) (r : OfflinePackageRecord) : OfflinePackageRecord :=
  Build_OfflinePackageRecord (pr_id r) (pr_name r) (pr_manifest r) (pr_status r) received (bytesTotal r) verified
    (createdAt r) (updatedAt r) (downloadedAt r) (lastError r).
Definition set_status (status : OfflinePackageLocalStatus) (now : Z) (r : OfflinePackageRecord) : OfflinePackageRecord :=
  Build_OfflinePackageRecord (pr_id r) (pr_name r) (pr_manifest r) status (bytesReceived r) (bytesTotal r)
    (verifiedPrefixBytes r) (createdAt r) now (downloadedAt r) (lastError r).
Definition set_lastError (e : option (string * string)) (r : OfflinePackageRecord) : OfflinePackageRecord :=
  Build_OfflinePackageRecord (pr_id r) (pr_name r) (pr_manifest r) (pr_status r) (bytesReceived r) (bytesTotal r)
    (verifiedPrefixBytes r) (createdAt r) (updatedAt r) (downloadedAt r) e.
Definition set_manifest (m : OfflineMapPackageManifest) (r : OfflinePackageRecord) : OfflinePackageRecord :=
  Build_OfflinePackageRecord (pr_id r) (pr_name r) m (pr_status r) (bytesReceived r) (ar_byteLength m)
    (verifiedPrefixBytes r) (createdAt r) (updatedAt r) (downloadedAt r) (lastError r).
Definition set_downloadedAt (now : Z) (r : OfflinePackageRecord) : OfflinePackageRecord :=
  Build_OfflinePackageRecord (pr_id r) (pr_name r) (pr_manifest r) (pr_status r) (bytesReceived r) (bytesTotal r)
    (verifiedPrefixBytes r) (createdAt r) (updatedAt r) (Some now) (lastError r).

Definition baseRecord (m : OfflineMapPackageManifest) (name : string) (now : Z) : OfflinePackageRecord :=
  {| pr_id := packageId m; pr_name := name; pr_manifest := m; pr_status := Queued; bytesReceived := 0;
     bytesTotal := ar_byteLength m; verifiedPrefixBytes := 0; createdAt := now; updatedAt := now;
     downloadedAt := None; lastError := None |}.

(** [parseRangeStart]: [^bytes (\d+)-\d+/\d+$].  A number of digits beyond the safe range
    equals no prefix, rounded or not. *)
Definition is_digit (c : Ascii.ascii) : bool :=
  let n := Ascii.nat_of_ascii c in ((48 <=? n) && (n <=? 57))%nat.

(** The digits a text starts with, as a number, and what follows; [None] without one. *)
Fixpoint take_digits (seen : bool) (acc : Z) (s : string) : option (Z * string) :=
  match s with
  | String c r =>
      if is_digit c then take_digits true (acc * 10 + (Z.of_nat (Ascii.nat_of_ascii c) - 48)) r
      else if seen then Some (acc, s) else None
  | EmptyString => if seen then Some (acc, s) else None
  end.

Definition parseRangeStart (value : option string) : option Z :=
  rest ← strip_prefix "bytes " (default EmptyString value);
  '(start, rest) ← take_digits false 0 rest;
  rest ← strip_prefix "-" rest;
  '(_, rest) ← take_digits false 0 rest;
  rest ← strip_prefix "/" rest;
  '(_, rest) ← take_digits false 0 rest;
  if (rest =? "")%string then Some start else None.

(** ** The monad of the download *)

Definition D (A : Type) : Type := DownloadState -> (A + thrown) * DownloadState.

#[export] Instance D_ret : MRet D := fun A a s => (inl a, s).
#[export] Instance D_bind : MBind D := fun A B f m s =>
  match m s with
  | (inl a, s') => f a s'
  | (inr e, s') => (inr e, s')
  end.

Definition raise {A} (e : thrown) : D A := fun s => (inr e, s).
Definition read {A} (f : DownloadState -> A) : D A := fun s => (inl (f s), s).
Definition change (f : DownloadState -> DownloadState) : D unit := fun s => (inl tt, f s).
Definition result {A} (o : outcome A) : D A := fun s =>
  (match o with Ok a => inl a | Throw m => inr (plain_error m) end, s).

(** [try { m } catch], with the error as a value. *)
Definition attempt {A} (m : D A) : D (A + thrown) := fun s => let '(r, s') := m s in (inl r, s').

(** The next element of a sequence of the world. *)
Definition next {A} (f : nat -> A) : D A := fun s => (inl (f (dl_step s)), next_step s).

Definition record_change (f : OfflinePackageRecord -> OfflinePackageRecord) : D unit :=
  change (fun s => set_record (f (dl_record s)) s).

(** ** The calls *)

Section download.
Context `{PackageDates} `{ArchiveCodecs} `{DownloadWorld}.

Definition may_fail : D unit :=
  failure ← next call_fails; match failure with Some e => raise e | None => mret tt end.

Definition on_storage (f : PackageStorage -> outcome PackageStorage) : D unit :=
  _ ← may_fail;
  st ← read dl_storage;
  st ← result (f st);
  change (set_storage st).

Definition put_record : D unit := r ← read dl_record; on_storage (storage_put r).

Definition delete_package (id : string) : D unit := on_storage (fun st => Ok (storage_delete id st)).

Definition on_file (f : BlobArchiveFile -> outcome BlobArchiveFile) : D unit :=
  _ ← may_fail;
  file ← read dl_file;
  file ← result (f file);
  change (set_file file).

Definition set_clean (dirty : bool) (f : BlobArchiveFile) : BlobArchiveFile :=
  Build_BlobArchiveFile (bf_chunks f) (bf_currentSize f) (bf_closed f) dirty.

(** [flush] of the file whose bytes are kept under [id]. *)
Definition file_flush (id : string) : D unit :=
  file ← read dl_file;
  _ ← result (assertOpen file);
  if negb (bf_dirty file) then mret tt
  else
    _ ← may_fail;
    _ ← change (fun s => set_storage (persist_partial id (toBytes file) (dl_storage s)) s);
    change (set_file (set_clean false file)).

Definition file_close (id : string) : D unit :=
  file ← read dl_file;
  if bf_closed file then mret tt
  else
    _ ← file_flush id;
    change (fun s => set_file (Build_BlobArchiveFile (bf_chunks (dl_file s)) (bf_currentSize (dl_file s)) true
                                 (bf_dirty (dl_file s))) s).

Definition file_readAt (offset len : Z) : D (list Z) :=
  _ ← may_fail; file ← read dl_file; result (blob_read offset len file).

Definition notify (id : string) : D unit := change (add_event (PackageChanged id)).

(** [Math.round(x * 1000 / elapsed)] *)
Definition speed_of (received elapsed : Z) : Z :=
  match num_div (num_mul (num_of_Z received) (num_of_Z 1000)) (num_of_Z elapsed) with Fin q => q_round q | _ => 0 end.

Definition report (status : OfflinePackageLocalStatus) (startedAt : Z) (error : option (string * string)) : D unit :=
  now ← next clock;
  let elapsed := Z.max 1 (now - startedAt) in
  change (fun s =>
    let r := dl_record s in
    add_event (Progress {|
      pg_packageId := packageId (pr_manifest r); pg_status := status; pg_bytesReceived := bytesReceived r; pg_bytesTotal := bytesTotal r;
      pg_speed := speed_of (Z.max 0 (bytesReceived r - dl_attemptStart s)) elapsed; pg_error := error |}) s).

Definition run_validateStyles : D unit :=
  match validate_styles with
  | None => mret tt
  | Some f => failure ← next f; match failure with Some e => raise e | None => mret tt end
  end.

(** [validateLocalPmtilesArchive(file, {...})] with the coverage of the manifest. *)
Definition archive_valid (m : OfflineMapPackageManifest) (bytes : list Z) : outcome LocalPmtilesHeader :=
  validateLocalPmtilesArchive bytes (cov_bbox m) (cov_minZoom m) (cov_maxZoom m).

(** [hashPrefix]: a turn reads a byte at least. *)
Fixpoint hash_loop (fuel : nat) (offset len : Z) (hash : Sha256) : D Sha256 :=
  match fuel with
  | O => mret hash
  | S fuel =>
      if offset <? len then
        chunk ← file_readAt offset (Z.min (1024 * 1024) (len - offset));
        match chunk with
        | [] => raise (plain_error "offline package partial archive is truncated")
        | _ => hash_loop fuel (offset + Z.of_nat (length chunk)) len (sha_update chunk hash)
        end
      else mret hash
  end.

Definition hashPrefix (len : Z) : D Sha256 := hash_loop (S (Z.to_nat len)) 0 len new_Sha256.

(** ** The download *)

(** The record of the package, without what an archive under another tag left. *)
Definition existing_record (m : OfflineMapPackageManifest) (name : option string) : D unit :=
  _ ← may_fail;
  existing ← read (fun s => storage_get (packageId m) (dl_storage s));
  record ← match existing with
           | Some r => mret r
           | None => now ← next clock; mret (baseRecord m (default "Offline map"%string name) now)
           end;
  _ ← change (set_record record);
  _ ← (if negb (ar_etag (pr_manifest record) =? ar_etag m)%string then
         _ ← delete_package (packageId m);
         _ ← notify (packageId m);
         now ← next clock;
         change (set_record (baseRecord m (default (pr_name record) name) now))
       else mret tt);
  record_change (set_manifest m).

(** Is the archive there already, whole? *)
Definition looks_ready (r : OfflinePackageRecord) : bool :=
  (bytesReceived r =? bytesTotal r)
  && (bool_decide (pr_status r = Ready)
      || match lastError r with Some (code, _) => (code =? "offline-assets-unavailable")%string | None => false end).

(** The branch of an archive that is there: [true] is its [return record]. *)
Definition check_ready (m : OfflineMapPackageManifest) (name : option string) : D bool :=
  record ← read dl_record;
  if negb (looks_ready record) then mret false
  else
    checked ← attempt (
      _ ← may_fail;
      st ← read dl_storage;
      readyFile ← result (openReady (packageId m) st);
      _ ← may_fail;
      _ ← result (archive_valid m (toBytes readyFile));
      may_fail);
    match checked with
    | inr _ =>
        _ ← delete_package (packageId m);
        _ ← notify (packageId m);
        now ← next clock;
        _ ← change (set_record (baseRecord m (default (pr_name record) name) now));
        mret false
    | inl _ =>
        finished ← attempt (
          _ ← run_validateStyles;
          now ← next clock;
          _ ← record_change (fun r => set_status Ready now (set_lastError None r));
          _ ← put_record;
          if negb (bool_decide (pr_status record = Ready)) then notify (packageId m) else mret tt);
        match finished with
        | inl _ => mret true
        | inr e =>
            now ← next clock;
            _ ← record_change (fun r =>
                  set_status Failed now (set_lastError (Some ("offline-assets-unavailable"%string, errorMessage e)) r));
            _ ← put_record;
            raise e
        end
    end.

(** The partial file, cut to the bytes the record vouches for. *)
Definition open_partial (m : OfflineMapPackageManifest) (now : Z) : D Z :=
  _ ← record_change (fun r => set_status Downloading now (set_lastError None r));
  _ ← put_record;
  _ ← may_fail;
  st ← read dl_storage;
  file ← result (openPartial (packageId m) st);
  _ ← change (set_file file);
  _ ← may_fail;
  existingSize ← result (blob_size file);
  verified ← read (fun s => verifiedPrefixBytes (dl_record s));
  let prefix := Z.min (Z.min verified existingSize) (ar_byteLength m) in
  _ ← (if negb (existingSize =? prefix) || negb (prefix =? verified) then
         _ ← on_file (blob_truncate prefix);
         record_change (set_counts prefix prefix)
       else mret tt);
  _ ← change (set_attemptStart prefix);
  mret prefix.

Definition api_openArchive (id : string) (range : option (Z * string)) : D Response :=
  answer ← next (fun n => open_archive n id range);
  match answer with inl response => mret response | inr e => raise e end.

Definition resume_accepted (m : OfflineMapPackageManifest) (prefix : Z) (response : Response) : bool :=
  (0 <? prefix) && (rs_status response =? 206) && bool_decide (parseRangeStart (rs_contentRange response) = Some prefix)
  && bool_decide (rs_etag response = Some (ar_etag m)).

(** The response the bytes are read from, the prefix it continues and its digest. *)
Definition open_response (m : OfflineMapPackageManifest) (prefix : Z) (hash : Sha256) : D (Response * Z * Sha256) :=
  response ← api_openArchive (packageId m) (if 0 <? prefix then Some (prefix, ar_etag m) else None);
  if (0 <? prefix) && negb (resume_accepted m prefix response) then
    _ ← may_fail;
    _ ← on_file (blob_truncate 0);
    _ ← file_flush (packageId m);
    _ ← record_change (set_counts 0 0);
    _ ← change (set_attemptStart 0);
    _ ← put_record;
    response ← api_openArchive (packageId m) None;
    mret (response, 0, new_Sha256)
  else mret (response, prefix, hash).

(** One chunk goes to the file, to the digest and to the counts. *)
Definition take_chunk (chunk : list Z) : D unit :=
  _ ← on_file (blob_append chunk);
  record_change (fun r =>
    let received := bytesReceived r + Z.of_nat (length chunk) in set_counts received received r).

(** Now and then the counts are made durable: the instant and the bytes of the last time. *)
Definition keep_progress (id : string) (startedAt lastAt lastBytes : Z) : D (Z * Z) :=
  received ← read (fun s => bytesReceived (dl_record s));
  due ← (if PROGRESS_BYTES <=? received - lastBytes then mret true
         else now ← next clock; mret (DOWNLOAD_INTERVAL_MS <=? now - lastAt));
  if negb due then mret (lastAt, lastBytes)
  else
    _ ← file_flush id;
    now ← next clock;
    _ ← record_change (set_status Downloading now);
    _ ← put_record;
    received ← read (fun s => bytesReceived (dl_record s));
    lastAt ← next clock;
    _ ← report Downloading startedAt None;
    mret (lastAt, received).

(** The loop over the body. *)
Fixpoint read_body (id : string) (startedAt lastAt lastBytes : Z) (items : list body_item) (hash : Sha256) : D Sha256 :=
  aborted ← next signal_aborted;
  if (aborted : bool) then raise (AbortError "Aborted")
  else
    match items with
    | [] => mret hash
    | BodyError e :: _ => raise e
    | BodyChunk chunk :: items =>
        _ ← take_chunk chunk;
        '(lastAt, lastBytes) ← keep_progress id startedAt lastAt lastBytes;
        read_body id startedAt lastAt lastBytes items (sha_update chunk hash)
    end.

(** The [try] up to the end of the body: the digest of the file. *)
Definition transfer (m : OfflineMapPackageManifest) (startedAt prefix : Z) : D Sha256 :=
  _ ← may_fail;
  available ← next estimate_available;
  let remaining := ar_byteLength m - prefix in
  if match available with Some n => n <? remaining | None => false end
  then raise (NamedError "QuotaExceededError" ("Offline map needs " ++ show_Z remaining ++ " more archive bytes but only "
                ++ show_Z (default 0 available) ++ " are available"))
  else
    hash ← hashPrefix prefix;
    _ ← record_change (set_counts prefix prefix);
    if negb (prefix <? ar_byteLength m) then mret hash
    else
      '(response, prefix, hash) ← open_response m prefix hash;
      if negb (rs_ok response) || ((0 <? prefix) && negb (rs_status response =? 206))
         || ((prefix =? 0) && negb (rs_status response =? 200))
      then _ ← may_fail; raise (ApiError ("http-" ++ show_Z (rs_status response))
                                  ("Archive download returned HTTP " ++ show_Z (rs_status response)))
      else if negb (bool_decide (rs_etag response = Some (ar_etag m)))
      then _ ← may_fail; raise (plain_error "offline package archive ETag mismatch")
      else
        lastAt ← next clock;
        _ ← report Downloading startedAt None;
        match rs_body response with
        | None => raise (plain_error "offline package archive response has no body")
        | Some items => read_body (packageId m) startedAt lastAt prefix items hash
        end.

(** The two checks of the whole archive. *)
Definition check_archive (m : OfflineMapPackageManifest) (hash : Sha256) : D unit :=
  _ ← file_flush (packageId m);
  received ← read (fun s => bytesReceived (dl_record s));
  if negb (received =? ar_byteLength m) then raise (plain_error "offline package archive length mismatch")
  else if negb (digestHex hash =? ar_sha256 m)%string then
    _ ← record_change (set_counts 0 0);
    _ ← on_file (blob_truncate 0);
    _ ← file_flush (packageId m);
    raise (plain_error "offline package archive checksum mismatch")
  else mret tt.

(** The rest of the [try]: verification, and the archive becomes the ready one. *)
Definition publish (m : OfflineMapPackageManifest) (startedAt : Z) : D unit :=
  now ← next clock;
  _ ← record_change (set_status Verifying now);
  _ ← put_record;
  _ ← report Verifying startedAt None;
  _ ← may_fail;
  file ← read dl_file;
  _ ← result (assertOpen file);
  _ ← result (archive_valid m (toBytes file));
  _ ← run_validateStyles;
  _ ← file_close (packageId m);
  _ ← on_storage (finalize (packageId m));
  downloadedAt ← next clock;
  now ← next clock;
  _ ← record_change (fun r =>
        set_downloadedAt downloadedAt (set_status Ready now (set_counts (ar_byteLength m) (ar_byteLength m) r)));
  _ ← put_record;
  _ ← notify (packageId m);
  report Ready startedAt None.

Definition finish (m : OfflineMapPackageManifest) (startedAt : Z) (hash : Sha256) : D unit :=
  _ ← check_archive m hash; publish m startedAt.

(** The [catch]: an abort pauses, anything else is kept with the record and thrown on. *)
Definition failed (m : OfflineMapPackageManifest) (startedAt : Z) (e : thrown) : D OfflinePackageRecord :=
  _ ← attempt (file_flush (packageId m));
  _ ← attempt (file_close (packageId m));
  now ← next clock;
  if isAbort e then
    _ ← record_change (set_status Paused now);
    _ ← put_record;
    _ ← report Paused startedAt (Some ("aborted", "Download paused")%string);
    read dl_record
  else
    _ ← record_change (fun r => set_status Failed now (set_lastError (Some (errorCode e, errorMessage e)) r));
    _ ← put_record;
    _ ← report Failed startedAt (Some (errorCode e, errorMessage e));
    raise e.

(** All but the validation of the manifest. *)
Definition download_of (m : OfflineMapPackageManifest) (name : option string) : D OfflinePackageRecord :=
  _ ← existing_record m name;
  now ← next clock;
  ready ← check_ready m name;
  if (ready : bool) then read dl_record
  else
    prefix ← open_partial m now;
    finished ← attempt (hash ← transfer m now prefix; finish m now hash);
    match finished with
    | inl _ => read dl_record
    | inr e => failed m now e
    end.

Definition downloadOfflinePackageImpl (rawManifest : OfflineMapPackageManifest) (name : option string)
    : D OfflinePackageRecord :=
  m ← result (validateOfflineMapPackageManifest rawManifest);
  download_of m name.

Definition download_start (m : OfflineMapPackageManifest) (st : PackageStorage) : DownloadState :=
  {| dl_storage := st; dl_record := baseRecord m "" 0;
     dl_file := Build_BlobArchiveFile [] 0 true false; dl_attemptStart := 0; dl_step := 0; dl_events := [] |}.

(** A download over a storage: its answer and what it leaves. *)
Definition downloadOfflinePackage (m : OfflineMapPackageManifest) (name : option string) (st : PackageStorage)
    : (OfflinePackageRecord + thrown) * DownloadState :=
  downloadOfflinePackageImpl m name (download_start m st).
End download.

(** ** The library of areas *)

(** The loop of [ensureOfflinePackageRuntime] (runtime.ts): packages whose glyphs are gone
    are no longer ready; a rejection ends it. *)
Fixpoint mark_unusable `{PackageDates} (hasGlyphs : OfflineMapPackageManifest -> bool) (now : nat -> Z)
    (records : list OfflinePackageRecord) (st : PackageStorage) : PackageStorage :=
  match records with
  | [] => st
  | r :: records =>
      if negb (is_ready r) || hasGlyphs (pr_manifest r) then mark_unusable hasGlyphs now records st
      else
        match storage_put (set_status Failed (now (length records)) (set_lastError
                (Some ("offline-assets-unavailable", "The offline glyph cache is missing and must be downloaded again.")%string) r)) st with
        | Ok st => mark_unusable hasGlyphs now records st
        | Throw _ => st
        end
  end.

Inductive library_op :=
  | OpDownload (W : DownloadWorld) (m : OfflineMapPackageManifest) (name : option string)
  | OpDelete (id : string)
  | OpStart (hasGlyphs : OfflineMapPackageManifest -> bool) (now : nat -> Z).

Definition library_step `{PackageDates} `{ArchiveCodecs} (st : PackageStorage) (op : library_op) : PackageStorage :=
  match op with
  | OpDownload W m name => dl_storage (downloadOfflinePackage (H1 := W) m name st).2
  | OpDelete id => storage_delete id st
  | OpStart hasGlyphs now => mark_unusable hasGlyphs now (storage_list st) st
  end.

Definition library `{PackageDates} `{ArchiveCodecs} (ops : list library_op) : PackageStorage :=
  foldl library_step empty_storage ops.
