(* ===== verification/DownloadFacts.v ===== *)
(** * A package is ready only when its archive has been verified

    The digest of a file grows with the file, so what is made ready is what was
    checked, whatever is interrupted, resumed or rejected on the way. *)

From stdpp Require Import gmap strings.
From S2P Require Import Prelude Text Doubles Sha256 Pmtiles Archive Manifest Resolver Download.
Local Open Scope Z_scope.

(** ** Triples of the download's monad *)

(** What a step is about: the storage, the record and the file. *)
Definition view_of (P : PackageStorage -> OfflinePackageRecord -> BlobArchiveFile -> Prop) (s : DownloadState) : Prop :=
  P (dl_storage s) (dl_record s) (dl_file s).

Definition pred : Type := PackageStorage -> OfflinePackageRecord -> BlobArchiveFile -> Prop.

(** From [P] the computation resolves in [Q] or rejects in [E]. *)
Definition triple {A} (P : pred) (m : D A) (Q : A -> pred) (E : pred) : Prop :=
  forall s, view_of P s -> match m s with
                           | (inl a, s') => view_of (Q a) s'
                           | (inr _, s') => view_of E s'
                           end.

Section triples.
Context (E : pred).

Lemma triple_ret {A} (P : pred) (a : A) (Q : A -> pred) :
  (forall st r f, P st r f -> Q a st r f) -> triple P (mret a) Q E.
Proof. intros HQ s HP. by apply HQ. Qed.

Lemma triple_bind {A B} (P : pred) (m : D A) (R : A -> pred) (f : A -> D B) (Q : B -> pred) :
  triple P m R E -> (forall a, triple (R a) (f a) Q E) -> triple P (m ≫= f) Q E.
Proof.
  intros Hm Hf s HP. specialize (Hm s HP). unfold mbind, D_bind.
  destruct (m s) as [[a|e] s']; [by apply Hf|done].
Qed.

Lemma triple_seq {A B} (P R : pred) (m : D A) (k : D B) (Q : B -> pred) :
  triple P m (fun _ => R) E -> triple R k Q E -> triple P (m ≫= fun _ => k) Q E.
Proof. intros Hm Hk. by eapply triple_bind. Qed.

(** What does not depend on the state is set apart. *)
Lemma triple_fact {A} (P : pred) (C : Prop) (m : D A) (Q : A -> pred) :
  (C -> triple P m Q E) -> triple (fun st r f => P st r f /\ C) m Q E.
Proof. intros Hm s [HP HC]. by apply Hm. Qed.

Lemma triple_weaken {A} (P P' : pred) (m : D A) (Q Q' : A -> pred) (E' : pred) :
  triple P' m Q' E' -> (forall st r f, P st r f -> P' st r f) -> (forall a st r f, Q' a st r f -> Q a st r f) ->
  (forall st r f, E' st r f -> E st r f) -> triple P m Q E.
Proof.
  intros Hm HP HQ HE s Hs. specialize (Hm s (HP _ _ _ Hs)).
  destruct (m s) as [[a|e] s']; [by apply HQ|by apply HE].
Qed.

Lemma triple_raise {A} (P : pred) e (Q : A -> pred) : (forall st r f, P st r f -> E st r f) -> triple P (raise e) Q E.
Proof. intros HE s HP. by apply HE. Qed.

Lemma triple_read {A} (P : pred) (g : DownloadState -> A) :
  triple P (read g) (fun a => P) E.
Proof. intros s HP. exact HP. Qed.

(** What was read is known where it depends on the view only. *)
Lemma triple_read_view {A} (P : pred) (g : DownloadState -> A) (k : PackageStorage -> OfflinePackageRecord -> BlobArchiveFile -> A) :
  (forall s, g s = k (dl_storage s) (dl_record s) (dl_file s)) ->
  triple P (read g) (fun a st r f => P st r f /\ a = k st r f) E.
Proof. intros Hg s HP. split; [exact HP|apply Hg]. Qed.

Lemma triple_next {A} (P : pred) (g : nat -> A) : triple P (next g) (fun _ => P) E.
Proof. intros s HP. exact HP. Qed.

Lemma triple_next_value {A} (P : pred) (g : nat -> A) (law : A -> Prop) :
  (forall n, law (g n)) -> triple P (next g) (fun a st r f => P st r f /\ law a) E.
Proof. intros Hg s HP. split; [exact HP|apply Hg]. Qed.

Lemma triple_change (P Q : pred) g :
  (forall s, view_of P s -> view_of Q (g s)) -> triple P (change g) (fun _ => Q) E.
Proof. intros Hg s HP. by apply Hg. Qed.

Lemma triple_result {A} (P : pred) (o : outcome A) :
  (forall st r f, P st r f -> E st r f) -> triple P (result o) (fun a st r f => P st r f /\ o = Ok a) E.
Proof. intros HE s HP. unfold result. destruct o; [by split|by apply HE]. Qed.

Lemma triple_attempt {A} (P : pred) (m : D A) (Q : A -> pred) (R : pred) :
  triple P m Q R -> triple P (attempt m) (fun x => match x with inl a => Q a | inr _ => R end) E.
Proof. intros Hm s HP. specialize (Hm s HP). unfold attempt. by destruct (m s) as [[a|e] s']. Qed.
End triples.

(** ** An archive file *)

(** The bytes of a file. *)
Definition content (f : BlobArchiveFile) : list Z := concat (bf_chunks f).

Lemma copy_chunks_concat chunks : forall before after,
  length after = length (concat chunks) -> copy_chunks (before ++ after) (length before) chunks = before ++ concat chunks.
Proof.
  induction chunks as [|c cs IH]; intros before after Hl; cbn [copy_chunks concat] in *.
  - by apply nil_length_inv in Hl as ->.
  - rewrite length_app in Hl. rewrite <-(take_drop (length c) after).
    rewrite <-(Nat.add_0_r (length before)) at 1. rewrite list_inserts_app_r.
    rewrite list_inserts_0_r by (rewrite length_take; lia).
    rewrite app_assoc, <-length_app, IH; [by rewrite <-app_assoc|]. rewrite length_drop. lia.
Qed.

Lemma toBytes_content f : bf_currentSize f = Z.of_nat (length (content f)) -> toBytes f = content f.
Proof.
  intros Hl. unfold toBytes. rewrite Hl, Nat2Z.id.
  apply (copy_chunks_concat (bf_chunks f) []). by rewrite length_replicate.
Qed.

(** ** What the storage keeps *)

Section kept.
Context `{PackageDates} `{ArchiveCodecs}.

(** The archive is the one the manifest names, and it has been validated for it. *)
Definition archive_ok (m : OfflineMapPackageManifest) (bytes : list Z) : Prop :=
  FIPS.hash_hex bytes = ar_sha256 m /\ exists h, archive_valid m bytes = Ok h.

Record kept (st : PackageStorage) : Prop := {
  kp_records : forall id r, records_get id (st_records st) = Some r ->
    pr_id r = packageId (pr_manifest r) /\ offlineMapPackageManifestSchema (pr_manifest r) = true;
  kp_ready : forall id bytes, st_ready st !! id = Some bytes -> Forall is_byte bytes /\
    exists r, records_get id (st_records st) = Some r /\ FIPS.hash_hex bytes = ar_sha256 (pr_manifest r);
  kp_partial : forall id bytes, st_partial st !! id = Some bytes -> Forall is_byte bytes;
  kp_verified : forall id r, records_get id (st_records st) = Some r -> pr_status r = Ready ->
    exists bytes, st_ready st !! id = Some bytes /\ archive_ok (pr_manifest r) bytes;
  kp_distinct : base.NoDup (map pr_id (st_records st));
}.

Lemma records_get_id id records r : records_get id records = Some r -> pr_id r = id.
Proof. intros [_ E%String.eqb_eq]%find_some. done. Qed.

Lemma records_get_set id r records :
  records_get id (map_set r records) = if (pr_id r =? id)%string then Some r else records_get id records.
Proof.
  unfold map_set, records_get. destruct (existsb (fun r' => (pr_id r' =? pr_id r)%string) records) eqn:E.
  - induction records as [|x l IH]; [discriminate|]. cbn [map find existsb] in *.
    destruct (String.eqb_spec (pr_id x) (pr_id r)) as [Ex|Ex].
    + rewrite Ex. destruct (String.eqb_spec (pr_id r) id) as [|Hne]; [done|].
      clear -Hne. induction l as [|y l IH]; [done|]. cbn [map find].
      destruct (String.eqb_spec (pr_id y) (pr_id r)) as [Ey|Ey]; [|by rewrite IH].
      rewrite Ey. destruct (String.eqb_spec (pr_id r) id); [done|apply IH].
    + rewrite IH by done. destruct (String.eqb_spec (pr_id x) id) as [<-|]; [|done].
      destruct (String.eqb_spec (pr_id r) (pr_id x)); [congruence|done].
  - induction records as [|x l IH]; cbn in *; [by destruct (pr_id r =? id)%string|].
    apply orb_false_iff in E as [Ex%String.eqb_neq E]. destruct (String.eqb_spec (pr_id x) id) as [<-|]; [|by apply IH].
    by destruct (String.eqb_spec (pr_id r) (pr_id x)).
Qed.

Lemma records_get_filter id id' records :
  records_get id (List.filter (fun r => negb (pr_id r =? id')%string) records)
  = if (id' =? id)%string then None else records_get id records.
Proof.
  unfold records_get. induction records as [|x l IH]; cbn; [by destruct (id' =? id)%string|].
  destruct (String.eqb_spec (pr_id x) id') as [Ex|Ex]; cbn.
  - rewrite IH, Ex. by destruct (String.eqb_spec id' id).
  - rewrite IH. destruct (String.eqb_spec (pr_id x) id) as [<-|]; [|done].
    destruct (String.eqb_spec id' (pr_id x)); [congruence|done].
Qed.

Lemma kept_empty : kept empty_storage.
Proof. split; cbn; [done|by intros ?? ?|by intros ?? ?|done|constructor]. Qed.

(** A record may be written when the archive at hand is of its digest, and as ready when
    the archive is the verified one. *)
Lemma kept_put r st st' : kept st -> pr_id r = packageId (pr_manifest r) ->
  (forall bytes, st_ready st !! pr_id r = Some bytes -> FIPS.hash_hex bytes = ar_sha256 (pr_manifest r)) ->
  (pr_status r = Ready -> exists bytes, st_ready st !! pr_id r = Some bytes /\ archive_ok (pr_manifest r) bytes) ->
  storage_put r st = Ok st' -> kept st'.
Proof.
  intros [K1 K2 K3 K4 K5] Hid Hdig Hready. unfold storage_put, validateOfflineMapPackageManifest.
  destruct (offlineMapPackageManifestSchema (pr_manifest r)) eqn:Hm; [|done]. intros [= <-].
  split; cbn [st_records st_ready st_partial].
  - intros id r'. rewrite records_get_set. destruct (_ =? id)%string; [by intros [= <-]|apply K1].
  - intros id bytes Hb. destruct (K2 id bytes Hb) as (Hbytes & r0 & Hr0 & Hd). split; [done|].
    rewrite records_get_set. destruct (String.eqb_spec (pr_id r) id) as [<-|]; [exists r; by auto|by exists r0].
  - apply K3.
  - intros id r'. rewrite records_get_set. destruct (String.eqb_spec (pr_id r) id) as [<-|]; [by intros [= <-]|apply K4].
  - by apply map_set_ids.
Qed.

Lemma kept_delete id st : kept st -> kept (storage_delete id st).
Proof.
  intros [K1 K2 K3 K4 K5]. split; cbn [storage_delete st_records st_ready st_partial].
  - intros id' r. rewrite records_get_filter. destruct (id =? id')%string; [done|apply K1].
  - intros id' bytes. destruct (decide (id = id')) as [->|Hne]; [by rewrite lookup_delete_eq|].
    rewrite lookup_delete_ne by done. intros (Hb & r & Hr & Hd)%K2. split; [done|]. exists r.
    rewrite records_get_filter. by destruct (String.eqb_spec id id').
  - intros id' bytes. rewrite lookup_delete_Some. intros [_ ?]. by eapply K3.
  - intros id' r. rewrite records_get_filter. destruct (String.eqb_spec id id') as [|Hne]; [done|].
    rewrite lookup_delete_ne by done. apply K4.
  - clear -K5. induction (st_records st) as [|x l IH]; [constructor|]. apply NoDup_cons in K5 as [Hx Hl]. cbn.
    destruct (negb _); [|by apply IH]. constructor; [|by apply IH]. intros Hin. apply Hx.
    apply list_elem_of_fmap in Hin as (y & -> & Hy). apply list_elem_of_fmap. exists y. split; [done|].
    rewrite list_elem_of_In, filter_In, <-list_elem_of_In in Hy. apply Hy.
Qed.

Lemma kept_partial id bytes st : kept st -> Forall is_byte bytes -> kept (persist_partial id bytes st).
Proof.
  intros [K1 K2 K3 K4 K5] Hb. split; [apply K1|apply K2| |apply K4|done].
  cbn [persist_partial st_partial]. intros id' b. rewrite lookup_insert_Some. intros [[_ <-]|[_ ?]]; [done|by eapply K3].
Qed.

(** The partial archive becomes the ready one when it is of the digest and, for a record
    that is ready already, the validated one. *)
Lemma kept_finalize id bytes st st' : kept st -> st_partial st !! id = Some bytes ->
  (exists r, records_get id (st_records st) = Some r /\ archive_ok (pr_manifest r) bytes) ->
  finalize id st = Ok st' -> kept st' /\ st_ready st' !! id = Some bytes /\ st_partial st' !! id = None.
Proof.
  intros [K1 K2 K3 K4 K5] Hp (r & Hr & Hd & Hv). unfold finalize, assertPackageId.
  destruct (packageIdSchema id); [|done]. cbn [mbind outcome_bind]. rewrite Hp. intros [= <-].
  split; [|by cbn [st_ready st_partial]; rewrite lookup_insert_eq, lookup_delete_eq].
  split; cbn [st_records st_ready st_partial].
  - apply K1.
  - intros id' b. rewrite lookup_insert_Some. intros [[<- <-]|[_ Hb]]; [|by apply K2].
    split; [by eapply K3|by exists r].
  - intros id' b. rewrite lookup_delete_Some. intros [_ ?]. by eapply K3.
  - intros id' r' Hr' Hs. destruct (decide (id = id')) as [<-|Hne].
    + rewrite lookup_insert_eq. exists bytes. split; [done|]. rewrite Hr in Hr'. by injection Hr' as <-.
    + rewrite lookup_insert_ne by done. by apply K4.
  - done.
Qed.
End kept.

(** ** The calls of a download *)

(** The bytes a server sends are bytes. *)
Class DownloadWorldLaws `{DownloadWorld} := {
  body_bytes n id range response items chunk :
    open_archive n id range = inl response -> rs_body response = Some items -> BodyChunk chunk ∈ items -> Forall is_byte chunk;
}.

Section calls.
Context `{PackageDates} `{ArchiveCodecs} `{DownloadWorldLaws}.
Context (m : OfflineMapPackageManifest) (Hm : offlineMapPackageManifestSchema m = true).

(** The record of the download is of its package, and an archive that is there is of the
    digest of its manifest. *)
Record local (st : PackageStorage) (r : OfflinePackageRecord) : Prop := {
  lo_kept : kept st;
  lo_id : pr_id r = packageId m;
  lo_manifest : pr_manifest r = m;
  lo_ready : forall bytes, st_ready st !! packageId m = Some bytes -> FIPS.hash_hex bytes = ar_sha256 m;
}.

(** The file has bytes, and what it has persisted is its content. *)
Record filed (st : PackageStorage) (f : BlobArchiveFile) : Prop := {
  fi_bytes : Forall is_byte (content f);
  fi_size : bf_currentSize f = Z.of_nat (length (content f));
  fi_clean : bf_dirty f = false -> forall bytes, st_partial st !! packageId m = Some bytes -> bytes = content f;
}.

(** The digest of these bytes. *)
Definition hashed (hash : Sha256) (bytes : list Z) : Prop :=
  absorbed bytes hash /\ sha_bytesHashed hash = Z.of_nat (length bytes).

(** While a download runs: its record is not yet ready, and [Q] holds of the file. *)
Definition busy (Q : list Z -> Prop) : pred :=
  fun st r f => local st r /\ pr_status r <> Ready /\ filed st f /\ Q (content f).

(** After a failure: whatever the status is, it is written again. *)
Definition broken : pred := fun st r f => local st r /\ filed st f.

Lemma broken_busy Q st r f : busy Q st r f -> broken st r f.
Proof. by intros (?&?&?&?). Qed.

(** A predicate that the record and the file do not matter to, and so on, survives a call
    that rejects before its effect. *)
Lemma triple_may_fail (P E : pred) : (forall st r f, P st r f -> E st r f) -> triple P may_fail (fun _ => P) E.
Proof.
  intros HE. eapply triple_bind; [apply triple_next|]. intros [e|]; [by apply triple_raise|by apply triple_ret].
Qed.

Lemma triple_on_storage (P Q E : pred) g : (forall st r f, P st r f -> E st r f) ->
  (forall st st' r f, P st r f -> g st = Ok st' -> Q st' r f) -> triple P (on_storage g) (fun _ => Q) E.
Proof.
  intros HE HQ. eapply triple_bind; [by apply triple_may_fail|]. intros [].
  intros s HP. unfold mbind, D_bind, read, result, change. destruct (g (dl_storage s)) as [st'|] eqn:Eg; [|by apply HE].
  by apply (HQ (dl_storage s)).
Qed.

Lemma triple_on_file (P Q E : pred) g : (forall st r f, P st r f -> E st r f) ->
  (forall st r f f', P st r f -> g f = Ok f' -> Q st r f') -> triple P (on_file g) (fun _ => Q) E.
Proof.
  intros HE HQ. eapply triple_bind; [by apply triple_may_fail|]. intros [].
  intros s HP. unfold mbind, D_bind, read, result, change. destruct (g (dl_file s)) as [f'|] eqn:Eg; [|by apply HE].
  by apply (HQ _ _ (dl_file s)).
Qed.

Lemma triple_record_change (P Q : pred) E g : (forall st r f, P st r f -> Q st (g r) f) ->
  triple P (record_change g) (fun _ => Q) E.
Proof. intros HQ s HP. by apply HQ. Qed.

Lemma triple_report (P : pred) E status startedAt error : triple P (report status startedAt error) (fun _ => P) E.
Proof. intros s HP. exact HP. Qed.

Lemma triple_notify (P : pred) E id : triple P (notify id) (fun _ => P) E.
Proof. intros s HP. exact HP. Qed.

Lemma triple_styles (P E : pred) : (forall st r f, P st r f -> E st r f) -> triple P run_validateStyles (fun _ => P) E.
Proof.
  intros HE. unfold run_validateStyles. destruct validate_styles as [g|]; [|by apply triple_ret].
  eapply triple_bind; [apply triple_next|]. intros [e|]; [by apply triple_raise|by apply triple_ret].
Qed.

(** Writing the record. *)
Lemma local_put st st' r : local st r -> (pr_status r = Ready -> exists bytes, st_ready st !! packageId m = Some bytes /\ archive_ok m bytes) ->
  storage_put r st = Ok st' -> local st' r /\ st_ready st' = st_ready st /\ st_partial st' = st_partial st /\
  records_get (packageId m) (st_records st') = Some r.
Proof.
  intros [Hk Hid Hman Hready] Hs E. assert (Hk' : kept st').
  { apply (kept_put r st st' Hk); rewrite ?Hman, ?Hid; done. }
  unfold storage_put, validateOfflineMapPackageManifest in E. destruct (offlineMapPackageManifestSchema (pr_manifest r)); [|done].
  cbn [mbind outcome_bind] in E. apply Ok_inj in E as <-. split; [by split|]. split; [done|]. split; [done|]. cbn [st_records].
  rewrite records_get_set, Hid. by rewrite String.eqb_refl.
Qed.

Lemma busy_put Q (R : BlobArchiveFile -> Prop) :
  triple (fun st r f => busy Q st r f /\ R f) put_record
    (fun _ st r f => busy Q st r f /\ R f /\ records_get (packageId m) (st_records st) = Some r) broken.
Proof.
  intros s ((Hl & Hs & Hf & HQ) & HR). unfold put_record, mbind, D_bind, read at 1.
  apply (triple_on_storage (fun st r f => (busy Q st r f /\ R f) /\ r = dl_record s)
           (fun st r f => busy Q st r f /\ R f /\ records_get (packageId m) (st_records st) = Some r) broken); [| |by split].
  - intros st r f [[? _] _]. by eapply broken_busy.
  - intros st st' r f (((Hl' & Hs' & Hf' & HQ') & HR') & ->) Ep.
    destruct (local_put st st' (dl_record s) Hl') as (Hl'' & Er & Ep' & Hget); [done|done|].
    split; [|done]. split; [done|]. split; [done|]. split; [|done]. destruct Hf' as [? ? Hc]. split; [done|done|]. by rewrite Ep'.
Qed.

Lemma busy_put_only Q : triple (busy Q) put_record (fun _ => busy Q) broken.
Proof.
  eapply triple_weaken; [apply (busy_put Q (fun _ => True))|by split| |done]. by intros _ st r f (? & _).
Qed.

Lemma busy_mono (Q Q' : list Z -> Prop) st r f : (forall bytes, Forall is_byte bytes -> Q bytes -> Q' bytes) ->
  busy Q st r f -> busy Q' st r f.
Proof. intros HQ (Hl & Hs & Hf & H'). split; [done|]. split; [done|]. split; [done|]. apply HQ; [apply Hf|done]. Qed.

(** Flushing leaves a clean file of the same content. *)
Lemma triple_flush (P E : pred) : (forall st r f, P st r f -> E st r f) ->
  (forall st r f, P st r f -> filed st f) ->
  (forall st r f, P st r f -> P (persist_partial (packageId m) (content f) st) r (set_clean false f)) ->
  triple P (file_flush (packageId m)) (fun _ st r f => P st r f /\ bf_dirty f = false /\ bf_closed f = false) E.
Proof.
  intros HE Hfiled HP s Hs. unfold file_flush, mbind, D_bind, read at 1, result at 1, assertOpen.
  destruct (bf_closed (dl_file s)) eqn:Ec; [by apply HE|]. cbn [negb].
  destruct (bf_dirty (dl_file s)) eqn:Ed; cbn [negb].
  - unfold may_fail, next, mbind, D_bind. destruct (call_fails (dl_step s)); [by apply HE|].
    cbn. split; [|done]. unfold view_of in Hs. rewrite toBytes_content by apply (Hfiled _ _ _ Hs).
    by apply (HP _ _ _ Hs).
  - cbn. by split.
Qed.

Lemma local_persist st r bytes : local st r -> Forall is_byte bytes -> local (persist_partial (packageId m) bytes st) r.
Proof. intros [Hk ? ? ?] Hb. split; [by apply kept_partial|done..]. Qed.

Lemma filed_persist st f : filed st f -> filed (persist_partial (packageId m) (content f) st) (set_clean false f).
Proof.
  intros [Hb Hs _]. split; [done|done|]. intros _ bytes. cbn [persist_partial st_partial]. rewrite lookup_insert_eq. by intros [= <-].
Qed.

Lemma busy_persist Q st r f : busy Q st r f -> busy Q (persist_partial (packageId m) (content f) st) r (set_clean false f).
Proof. intros (Hl & Hs & Hf & HQ). split; [apply local_persist; [done|apply Hf]|]. split; [done|]. split; [by apply filed_persist|done]. Qed.

Lemma busy_flush Q :
  triple (busy Q) (file_flush (packageId m)) (fun _ st r f => busy Q st r f /\ bf_dirty f = false /\ bf_closed f = false) broken.
Proof. apply triple_flush; [apply broken_busy|by intros ??? (?&?&?&?)|apply busy_persist]. Qed.

Lemma busy_record_change Q E g :
  (forall r, pr_id (g r) = pr_id r /\ pr_manifest (g r) = pr_manifest r /\ (pr_status r <> Ready -> pr_status (g r) <> Ready)) ->
  triple (busy Q) (record_change g) (fun _ => busy Q) E.
Proof.
  intros Hg. apply triple_record_change. intros st r f ([Hk Hi Hma Hr] & Hs & Hf & HQ). destruct (Hg r) as (Ei & Em & Es).
  split; [split; by rewrite ?Ei, ?Em|]. split; [by apply Es|done].
Qed.

(** Cutting the file. *)
Lemma triple_truncate Q n :
  triple (busy Q) (on_file (blob_truncate n))
    (fun _ => busy (fun bytes => 0 <= n /\ exists before, Q before /\ bytes = take (Z.to_nat n) before)) broken.
Proof.
  apply triple_on_file; [apply broken_busy|]. intros st r f f' (Hl & Hs & [Hb Hsize Hc] & HQ).
  unfold blob_truncate, assertOpen. destruct (bf_closed f); [done|]. cbn [mbind outcome_bind].
  destruct (is_safe n); [|done]. destruct (Z.ltb_spec n 0); [done|]. cbn [negb orb].
  rewrite (toBytes_content f Hsize). intros E%Ok_inj. subst f'.
  assert (Ec : content {| bf_chunks := match take (Z.to_nat n) (content f) with [] => [] | _ => [take (Z.to_nat n) (content f)] end;
      bf_currentSize := Z.of_nat (length (take (Z.to_nat n) (content f))); bf_closed := false; bf_dirty := true |}
    = take (Z.to_nat n) (content f)).
  { unfold content at 1. cbn [bf_chunks]. destruct (take _ _); cbn; by rewrite ?app_nil_r. }
  split; [done|]. split; [done|]. rewrite Ec. split; [|by eauto].
  split; rewrite ?Ec; [by apply Forall_take|done|done].
Qed.

(** Adding a chunk. *)
Lemma triple_take_chunk Q chunk : Forall is_byte chunk ->
  triple (busy Q) (take_chunk chunk) (fun _ => busy (fun bytes => exists before, Q before /\ bytes = before ++ chunk)) broken.
Proof.
  intros Hchunk. eapply triple_seq; [|by apply busy_record_change].
  apply triple_on_file; [apply broken_busy|]. intros st r f f' (Hl & Hs & [Hb Hsize Hc] & HQ).
  unfold blob_append, assertOpen. destruct (bf_closed f); [done|]. cbn [mbind outcome_bind]. intros E.
  assert (content f' = content f ++ chunk /\ filed st f') as [Ec Hf'].
  { destruct chunk as [|x chunk]; apply Ok_inj in E as <-; [by rewrite app_nil_r|].
    assert (E' : content f ++ x :: chunk = concat (bf_chunks f ++ [x :: chunk])) by (rewrite concat_app; cbn; by rewrite app_nil_r).
    split; [by rewrite E'|]. split; unfold content; cbn [bf_chunks bf_currentSize bf_dirty]; rewrite <-?E'.
    - by apply Forall_app.
    - rewrite Hsize, length_app. cbn [length]. lia.
    - done. }
  split; [done|]. split; [done|]. split; [done|]. rewrite Ec. by eauto.
Qed.

(** ** The digest of the partial file *)

Lemma hashed_new : hashed new_Sha256 [].
Proof. split; [apply new_absorbs|done]. Qed.

Lemma hashed_update hash bytes chunk : hashed hash bytes -> Forall is_byte chunk -> hashed (sha_update chunk hash) (bytes ++ chunk).
Proof.
  intros [Ha Hn] Hc. destruct (update_absorbs bytes chunk hash Ha Hc) as [Ha' Hn']. split; [done|].
  rewrite Hn', Hn, length_app. lia.
Qed.

Lemma hashed_digest hash bytes : hashed hash bytes -> Forall is_byte bytes -> digestHex hash = FIPS.hash_hex bytes.
Proof. intros [Ha Hn] Hb. by apply digestHex_standard. Qed.

Lemma triple_readAt Q offset len :
  triple (busy Q) (file_readAt offset len)
    (fun chunk => busy (fun bytes => Q bytes /\
       chunk = take (Z.to_nat (Z.min (Z.of_nat (length bytes)) (offset + len) - offset)) (drop (Z.to_nat offset) bytes))) broken.
Proof.
  eapply triple_seq; [apply triple_may_fail, broken_busy|].
  intros s (Hl & Hs & Hf & HQ). unfold mbind, D_bind, read, result, blob_read, assertOpen.
  destruct (bf_closed (dl_file s)); [by split|]. cbn [mbind outcome_bind]. destruct (_ || _); [by split|].
  split; [done|]. split; [done|]. split; [done|]. split; [done|]. by rewrite toBytes_content by apply Hf.
Qed.

Lemma take_own_length {A} n (l : list A) : take (length (take n l)) l = take n l.
Proof. rewrite length_take. destruct (Nat.min_spec n (length l)) as [[_ ->]|[? ->]]; [done|]. by rewrite !take_ge by lia. Qed.

Lemma hash_loop_hashed len fuel : forall offset hash, 0 <= offset <= len -> len - offset < Z.of_nat fuel ->
  triple (busy (fun bytes => Z.of_nat (length bytes) = len /\ hashed hash (take (Z.to_nat offset) bytes)))
    (hash_loop fuel offset len hash) (fun hash => busy (fun bytes => Z.of_nat (length bytes) = len /\ hashed hash bytes)) broken.
Proof.
  induction fuel as [|fuel IH]; intros offset hash Hoff Hfuel; [lia|]. cbn [hash_loop].
  destruct (Z.ltb_spec offset len) as [Hlt|Hge].
  - eapply triple_bind; [apply triple_readAt|]. intros [|x chunk]; [apply triple_raise; intros; by eapply broken_busy|].
    intros s Hs. set (c := x :: chunk) in *.
    assert (Hc : Z.of_nat (length c) <= len - offset).
    { destruct Hs as (_ & _ & _ & [Hl _] & E). fold c in E. rewrite E, length_take, length_drop. lia. }
    assert (0 < Z.of_nat (length c)) by (cbn; lia).
    refine (IH (offset + Z.of_nat (length c)) (sha_update c hash) ltac:(lia) ltac:(lia) s _).
    revert Hs. apply busy_mono. intros bytes Hb [[Hl Hh] E]. split; [done|]. fold c in E.
    replace (take (Z.to_nat (offset + Z.of_nat (length c))) bytes) with (take (Z.to_nat offset) bytes ++ c).
    { apply hashed_update; [done|]. rewrite E. by apply Forall_take, Forall_drop. }
    rewrite Z2Nat.inj_add, Nat2Z.id, <-take_take_drop by lia. f_equal. rewrite E. symmetry. apply take_own_length.
  - apply triple_ret. intros st r f. apply busy_mono. intros bytes _ [Hl Hh]. split; [done|].
    by rewrite take_ge in Hh by lia.
Qed.

Lemma hashPrefix_hashed len : 0 <= len ->
  triple (busy (fun bytes => Z.of_nat (length bytes) = len)) (hashPrefix len)
    (fun hash => busy (fun bytes => Z.of_nat (length bytes) = len /\ hashed hash bytes)) broken.
Proof.
  intros Hlen. eapply triple_weaken; [apply (hash_loop_hashed len (S (Z.to_nat len)) 0 new_Sha256); lia| |done|done].
  intros st r f. apply busy_mono. intros bytes _ Hl. split; [done|apply hashed_new].
Qed.

(** ** The transfer *)

Lemma keep_progress_busy Q startedAt lastAt lastBytes :
  triple (busy Q) (keep_progress (packageId m) startedAt lastAt lastBytes) (fun _ => busy Q) broken.
Proof.
  eapply triple_bind; [apply triple_read|]. intros received.
  apply (triple_bind broken _ _ (fun _ => busy Q)).
  { destruct (_ <=? _); [by apply triple_ret|]. eapply triple_bind; [apply triple_next|]. intros now. by apply triple_ret. }
  intros [|]; [|by apply triple_ret]. cbn [negb].
  eapply triple_seq; [eapply triple_weaken; [apply busy_flush|done|by intros _ st r f [? _]|done]|].
  eapply triple_bind; [apply triple_next|]. intros now.
  eapply triple_seq; [by apply busy_record_change|]. eapply triple_seq; [apply busy_put_only|].
  eapply triple_bind; [apply triple_read|]. intros received'. eapply triple_bind; [apply triple_next|]. intros lastAt'.
  eapply triple_seq; [apply triple_report|]. by apply triple_ret.
Qed.

Lemma read_body_hashed startedAt items : Forall (fun i => match i with BodyChunk c => Forall is_byte c | BodyError _ => True end) items ->
  forall lastAt lastBytes hash,
  triple (busy (hashed hash)) (read_body (packageId m) startedAt lastAt lastBytes items hash) (fun hash => busy (hashed hash)) broken.
Proof.
  induction 1 as [|[c|e] items Hc _ IH]; intros lastAt lastBytes hash; cbn [read_body];
    (eapply triple_bind; [apply triple_next|]; intros [|]; [apply triple_raise; intros; by eapply broken_busy|]).
  - by apply triple_ret.
  - eapply triple_seq; [by apply triple_take_chunk|]. eapply triple_bind; [apply keep_progress_busy|]. intros [at' bytes'].
    eapply triple_weaken; [apply IH| |done|done]. intros st r f. apply busy_mono.
    intros bytes _ (before & Hh & ->). by apply hashed_update.
  - apply triple_raise. intros; by eapply broken_busy.
Qed.

Lemma open_response_hashed prefix hash :
  triple (busy (hashed hash)) (open_response m prefix hash)
    (fun x st r f => busy (hashed x.2) st r f /\
       forall items chunk, rs_body x.1.1 = Some items -> BodyChunk chunk ∈ items -> Forall is_byte chunk) broken.
Proof.
  assert (Hopen : forall Q range, triple (busy Q) (api_openArchive (packageId m) range)
    (fun response st r f => busy Q st r f /\
       forall items chunk, rs_body response = Some items -> BodyChunk chunk ∈ items -> Forall is_byte chunk) broken).
  { intros Q range s Hs. unfold api_openArchive, next, mbind, D_bind.
    destruct (open_archive (dl_step s) (packageId m) range) as [response|e] eqn:Eo; [|by eapply broken_busy].
    split; [exact Hs|]. intros items chunk. by apply (body_bytes _ _ _ _ _ _ Eo). }
  eapply triple_bind; [apply Hopen|]. intros response. destruct (_ && _).
  - eapply triple_weaken with (P' := busy (hashed hash)) (E' := broken); [|by intros ??? [? _]|intros a st r f Hx; exact Hx|done].
    eapply triple_seq; [apply triple_may_fail, broken_busy|].
    eapply triple_seq; [apply triple_truncate|].
    eapply triple_seq; [eapply triple_weaken; [apply busy_flush|done|by intros _ st r f [? _]|done]|].
    eapply triple_seq; [by apply busy_record_change|].
    eapply triple_seq; [apply (triple_change _ _ (busy (hashed new_Sha256)))|].
    { intros s. apply busy_mono. intros bytes _ (_ & before & _ & ->). apply hashed_new. }
    eapply triple_seq; [apply busy_put_only|].
    eapply triple_bind; [apply Hopen|]. intros response'. by apply triple_ret.
  - by apply triple_ret.
Qed.

Lemma transfer_hashed startedAt prefix : 0 <= prefix ->
  triple (busy (fun bytes => Z.of_nat (length bytes) = prefix)) (transfer m startedAt prefix) (fun hash => busy (hashed hash)) broken.
Proof.
  intros Hprefix. unfold transfer. eapply triple_seq; [apply triple_may_fail, broken_busy|].
  eapply triple_bind; [apply triple_next|]. intros available.
  destruct (match available with Some n => _ | None => _ end); [apply triple_raise, broken_busy|].
  eapply triple_bind; [by apply hashPrefix_hashed|]. intros hash.
  eapply triple_seq; [by apply busy_record_change|].
  apply (triple_weaken broken _ (busy (hashed hash)) _ _ (fun hash => busy (hashed hash)) broken); [| |done|done].
  2: { intros st r f. apply busy_mono. by intros bytes _ [_ ?]. }
  destruct (negb (prefix <? ar_byteLength m)); [by apply triple_ret|].
  eapply triple_bind; [apply open_response_hashed|]. intros [[response prefix'] hash'].
  destruct (negb (rs_ok response) || _ || _).
  { eapply triple_seq; [apply triple_may_fail|apply triple_raise]; by intros ??? [?%broken_busy _]. }
  destruct (negb (bool_decide _)).
  { eapply triple_seq; [apply triple_may_fail|apply triple_raise]; by intros ??? [?%broken_busy _]. }
  eapply triple_bind; [apply triple_next|]. intros lastAt. eapply triple_seq; [apply triple_report|].
  destruct (rs_body response) as [items|] eqn:Eb; [|apply triple_raise; by intros ??? [?%broken_busy _]].
  intros s [Hs Hbytes]. revert s Hs. apply read_body_hashed. apply Forall_forall. intros [c|e] Hi; [|done].
  by apply (Hbytes items).
Qed.

(** ** The two checks and the end *)

Definition digest_ok (bytes : list Z) : Prop := FIPS.hash_hex bytes = ar_sha256 m.

Lemma check_archive_digest hash :
  triple (busy (hashed hash)) (check_archive m hash)
    (fun _ st r f => busy digest_ok st r f /\ bf_dirty f = false) broken.
Proof.
  unfold check_archive. eapply triple_seq; [apply busy_flush|]. eapply triple_bind; [apply triple_read|]. intros received.
  destruct (negb _); [apply triple_raise; by intros ??? [?%broken_busy _]|].
  destruct (String.eqb_spec (digestHex hash) (ar_sha256 m)) as [E|E]; cbn [negb].
  - apply triple_ret. intros st r f (Hs & Hd & _). split; [|done]. revert Hs. apply busy_mono.
    intros bytes Hb Hh. unfold digest_ok. by rewrite <-(hashed_digest hash).
  - apply (triple_weaken _ _ (busy (hashed hash)) _ _ (fun _ _ _ _ => False) broken); [|by intros ??? [? _]|done|done].
    eapply triple_seq; [by apply busy_record_change|]. eapply triple_seq; [apply triple_truncate|].
    eapply triple_seq; [apply busy_flush|]. apply triple_raise. by intros ??? [?%broken_busy _].
Qed.

(** The record has just been written, the file is the verified archive and wholly kept. *)
Definition verified : pred := fun st r f =>
  busy (archive_ok m) st r f /\ bf_dirty f = false /\ records_get (packageId m) (st_records st) = Some r.

Lemma close_verified : triple verified (file_close (packageId m)) (fun _ => verified) broken.
Proof.
  intros s Hs. unfold file_close, mbind, D_bind, read at 1. destruct (bf_closed (dl_file s)) eqn:Ec; [exact Hs|].
  pose proof (proj1 (proj2 Hs)) as Ed. unfold file_flush, mbind, D_bind, read, result, assertOpen. rewrite Ec, Ed.
  cbn. destruct Hs as ((Hl & Hst & [? ? ?] & Hok) & Hd & Hg).
  split; [|done]. split; [done|]. split; [done|]. by split; [split|].
Qed.

Lemma finalize_verified :
  triple verified (on_storage (finalize (packageId m)))
    (fun _ st r f => broken st r f /\ pr_status r <> Ready /\
       exists bytes, st_ready st !! packageId m = Some bytes /\ archive_ok m bytes) broken.
Proof.
  apply triple_on_storage; [by intros ??? [?%broken_busy _]|].
  intros st st' r f (([Hk Hi Hma Hr] & Hs & [Hb Hsize Hclean] & Hok) & Hd & Hget) E.
  destruct (st_partial st !! packageId m) as [bytes|] eqn:Ep.
  - rewrite (Hclean Hd bytes eq_refl) in Ep.
    destruct (kept_finalize _ _ _ _ Hk Ep ltac:(exists r; by rewrite Hma) E) as (Hk' & Hready & Hpartial).
    split; [|split; [done|by exists (content f)]]. split.
    + split; [done|done|done|]. intros b. rewrite Hready. intros [= <-]. apply Hok.
    + split; [done|done|]. by rewrite Hpartial.
  - exfalso. revert E. unfold finalize, assertPackageId. destruct (packageIdSchema (packageId m)); [|done].
    cbn [mbind outcome_bind]. by rewrite Ep.
Qed.

Definition settled : pred := fun st r f => local st r /\ filed st f.

Lemma finish_settled startedAt hash : triple (busy (hashed hash)) (finish m startedAt hash) (fun _ => settled) broken.
Proof.
  unfold finish, publish. eapply triple_seq; [apply check_archive_digest|]. eapply triple_bind; [apply triple_next|]. intros now.
  eapply triple_seq.
  { apply (triple_record_change _ (fun st r f => busy digest_ok st r f /\ bf_dirty f = false)).
    intros st r f (([] & _ & ? & ?) & ?). split; [|done]. split; [by split|]. by split. }
  eapply triple_seq; [apply busy_put|]. eapply triple_seq; [apply triple_report|].
  assert (Hbr : forall st r f, busy digest_ok st r f /\ bf_dirty f = false /\
    records_get (packageId m) (st_records st) = Some r -> broken st r f) by (by intros ??? [?%broken_busy _]).
  eapply triple_seq; [by apply triple_may_fail|].
  eapply triple_bind; [by apply (triple_read_view _ _ _ (fun _ _ f => f))|]. intros file.
  eapply triple_bind; [apply triple_result; by intros ??? [?%Hbr _]|]. intros [].
  eapply triple_bind; [apply triple_result; by intros ??? [[?%Hbr _] _]|]. intros header.
  apply (triple_weaken _ _ verified _ _ (fun _ => settled) broken); [| |done|done].
  2: { intros st r f (((((Hl & Hs & Hf & Hq) & Hd & Hg) & ->) & _) & Hv). split; [|done]. split; [done|]. split; [done|].
       split; [done|]. split; [done|]. rewrite (toBytes_content f) in Hv by apply Hf. by exists header. }
  eapply triple_seq; [apply triple_styles; by intros ??? [?%broken_busy _]|].
  eapply triple_seq; [apply close_verified|]. eapply triple_seq; [apply finalize_verified|].
  eapply triple_bind; [apply triple_next|]. intros at'. eapply triple_bind; [apply triple_next|]. intros now'.
  eapply triple_seq.
  { apply (triple_record_change _ (fun st r f => settled st r f /\
      exists bytes, st_ready st !! packageId m = Some bytes /\ archive_ok m bytes)).
    intros st r f (([] & ?) & _ & ?). split; [|done]. by split. }
  apply (triple_seq _ _ settled); [|eapply triple_seq; [apply triple_notify|apply triple_report]].
  intros s ((Hl & Hf) & Hready). unfold put_record, mbind, D_bind, read at 1.
  apply (triple_on_storage (fun st r f => (local st r /\ filed st f /\
      exists bytes, st_ready st !! packageId m = Some bytes /\ archive_ok m bytes) /\ r = dl_record s)
      settled broken); [by intros ??? [(? & ? & _) _]| |by split].
  intros st st' r f ((Hl' & Hf' & Hr') & ->) E. destruct (local_put st st' _ Hl' (fun _ => Hr') E) as (? & _ & Ep & _).
  split; [done|]. destruct Hf'. by split; rewrite ?Ep.
Qed.

(** ** The phases around them *)

Definition locally : pred := fun st r f => local st r.
Definition kept_pred : pred := fun st r f => kept st.

Lemma local_set g st r : pr_id (g r) = pr_id r -> pr_manifest (g r) = pr_manifest r -> local st r -> local st (g r).
Proof. intros Ei Em []. by split; rewrite ?Ei, ?Em. Qed.

Lemma local_delete st r : local st r -> local (storage_delete (packageId m) st) r.
Proof.
  intros [Hk ? ? _]. split; [by apply kept_delete|done|done|]. cbn [storage_delete st_ready]. by rewrite lookup_delete_eq.
Qed.

Lemma local_base st r name now : local st r -> local st (baseRecord m name now).
Proof. intros [Hk _ _ Hr]. by split. Qed.

(** A record that is not ready, or ready with its archive verified, is written. *)
Lemma put_local (S : OfflinePackageRecord -> Prop) :
  triple (fun st r f => (local st r /\ (pr_status r = Ready ->
            exists bytes, st_ready st !! packageId m = Some bytes /\ archive_ok m bytes)) /\ S r)
    put_record (fun _ st r f => local st r /\ S r) locally.
Proof.
  intros s [Hs HS]. unfold put_record, mbind, D_bind, read at 1.
  apply (triple_on_storage (fun st r f => (local st r /\
      (pr_status r = Ready -> exists bytes, st_ready st !! packageId m = Some bytes /\ archive_ok m bytes)) /\ r = dl_record s)
      (fun st r f => local st r /\ S r) locally); [by intros ??? [[? _] _]| |by split].
  intros st st' r f ((Hl & Hr) & ->) E. by destruct (local_put st st' _ Hl Hr E).
Qed.

Lemma put_unready {B} g (k : D B) Q :
  (forall r, pr_id (g r) = pr_id r /\ pr_manifest (g r) = pr_manifest r /\ pr_status (g r) <> Ready) ->
  triple (fun st r f => local st r /\ pr_status r <> Ready) k Q locally ->
  triple locally (_ ← record_change g; _ ← put_record; k) Q locally.
Proof.
  intros Hg Hk. eapply triple_seq; [|eapply triple_seq; [apply put_local|exact Hk]]. apply triple_record_change. intros st r f Hl.
  destruct (Hg r) as (Ei & Em & Es). split; [|done]. split; [by apply local_set|done].
Qed.

(** Flushing and closing, whether they succeed or not. *)
Lemma broken_persist st r f : broken st r f -> broken (persist_partial (packageId m) (content f) st) r (set_clean false f).
Proof. intros (Hl & Hf). split; [apply local_persist; [done|apply Hf]|by apply filed_persist]. Qed.

Lemma broken_flush : triple broken (file_flush (packageId m)) (fun _ => broken) broken.
Proof.
  eapply triple_weaken; [apply (triple_flush broken broken)| |by intros _ st r f [? _]|done]; [done|by intros ??? [_ ?]|apply broken_persist|done].
Qed.

Lemma broken_close : triple broken (file_close (packageId m)) (fun _ => broken) broken.
Proof.
  intros s Hs. unfold file_close, mbind, D_bind, read at 1. destruct (bf_closed (dl_file s)); [exact Hs|].
  pose proof (broken_flush s Hs) as Hflush. destruct (file_flush (packageId m) s) as [[[]|e] s']; [|exact Hflush].
  destruct Hflush as [Hl [? ? ?]]. split; [exact Hl|]. by split.
Qed.

Lemma failed_kept startedAt e : triple broken (failed m startedAt e) (fun _ => kept_pred) kept_pred.
Proof.
  unfold failed. eapply triple_bind; [apply triple_attempt, broken_flush|]. intros r1.
  apply (triple_weaken _ _ broken _ _ (fun _ => kept_pred) kept_pred); [|by destruct r1|done|done].
  eapply triple_bind; [apply triple_attempt, broken_close|]. intros r2.
  apply (triple_weaken _ _ locally _ _ (fun _ => locally) locally); [|by destruct r2 as [[]|]; intros ??? [? _]|by intros ???? []|by intros ??? []].
  eapply triple_bind; [apply triple_next|]. intros now.
  destruct (isAbort e); (apply put_unready; [done|]; eapply triple_seq; [apply triple_report|]).
  - eapply triple_weaken; [apply (triple_read locally locally)|by intros ??? [? _]|done|done].
  - apply triple_raise. by intros ??? [? _].
Qed.

Lemma new_file_content bytes : content (new_BlobArchiveFile bytes) = bytes.
Proof. unfold content, new_BlobArchiveFile. cbn. destruct bytes; cbn; by rewrite ?app_nil_r. Qed.

Lemma open_partial_busy now :
  triple locally (open_partial m now)
    (fun prefix st r f => busy (fun bytes => Z.of_nat (length bytes) = prefix) st r f /\ 0 <= prefix) locally.
Proof.
  apply put_unready; [done|]. eapply triple_seq; [apply triple_may_fail; by intros ??? [? _]|].
  eapply triple_bind; [by apply (triple_read_view _ _ _ (fun st _ _ => st))|]. intros st0.
  eapply triple_bind; [apply triple_result; by intros ??? [[? _] _]|]. intros file.
  eapply triple_seq.
  { apply (triple_change _ _ (fun st r f => busy (fun _ => True) st r f /\ f = file)).
    intros s (((Hl & Hs) & ->) & E). split; [|done]. unfold openPartial, assertPackageId in E.
    destruct (packageIdSchema (packageId m)); [|done]. cbn [mbind outcome_bind] in E. apply Ok_inj in E as <-.
    split; [exact Hl|]. split; [exact Hs|]. split; [|done]. cbn [dl_storage dl_file set_file].
    split; rewrite ?new_file_content; [|done|].
    - destruct (st_partial (dl_storage s) !! packageId m) as [b|] eqn:Ep; [|by constructor].
      exact (kp_partial _ (lo_kept _ _ Hl) _ _ Ep).
    - intros _ b Eb. by rewrite Eb. }
  assert (Hlo : forall st r f, busy (fun _ => True) st r f /\ f = file -> locally st r f) by (by intros ??? [[? _] _]).
  eapply triple_seq; [by apply triple_may_fail|].
  eapply triple_bind; [by apply triple_result|]. intros existing. eapply triple_bind; [apply triple_read|]. intros vouched.
  set (prefix := Z.min (Z.min vouched existing) (ar_byteLength m)).
  apply (triple_weaken _ _ (busy (fun bytes => Z.of_nat (length bytes) = existing)) _ _
    (fun prefix st r f => busy (fun bytes => Z.of_nat (length bytes) = prefix) st r f /\ 0 <= prefix) broken); [| |done|by intros ??? []].
  2: { intros st r f [[(Hl & Hs & Hf & _) ->] E]. split; [done|]. split; [done|]. split; [done|].
       unfold blob_size, assertOpen in E. destruct (bf_closed file); [done|]. cbn [mbind outcome_bind] in E.
       apply Ok_inj in E as <-. symmetry. apply Hf. }
  apply (triple_seq _ _ (fun st r f => busy (fun bytes => Z.of_nat (length bytes) = prefix) st r f /\ 0 <= prefix)).
  - destruct (negb (existing =? prefix) || negb (prefix =? vouched)) eqn:E.
    + eapply triple_seq; [apply triple_truncate|]. eapply triple_weaken; [|intros ??? Hx; exact Hx| |intros ??? Hx; exact Hx].
      { apply (busy_record_change _ _ (set_counts prefix prefix)). done. }
      intros [] st r f Hb. assert (0 <= prefix /\ prefix <= existing) as [Hpos Hle].
      { split; [exact (proj1 (proj2 (proj2 (proj2 Hb))))|]. unfold prefix. lia. }
      split; [|done]. revert Hb. apply busy_mono. intros bytes _ (_ & before & Hlen & ->). rewrite length_take. lia.
    + apply orb_false_iff in E as [E%negb_false_iff%Z.eqb_eq _]. rewrite <-E. apply triple_ret. intros st r f Hb.
      split; [done|]. pose proof (proj2 (proj2 (proj2 Hb))) as Hlen. cbn in Hlen. lia.
  - eapply triple_seq; [apply (triple_change _ _ (fun st r f => busy (fun bytes => Z.of_nat (length bytes) = prefix) st r f /\ 0 <= prefix)); by intros s Hs|].
    by apply triple_ret.
Qed.

Lemma delete_locally : triple locally (delete_package (packageId m)) (fun _ => locally) locally.
Proof. apply triple_on_storage; [done|]. intros st st' r f Hl E%Ok_inj. subst st'. by apply local_delete. Qed.

(** A record of the package that is not yet of the manifest at hand. *)
Definition found (record : OfflinePackageRecord) : pred := fun st r f =>
  kept st /\ pr_id record = packageId m /\
  (ar_etag (pr_manifest record) = ar_etag m ->
     forall bytes, st_ready st !! packageId m = Some bytes -> FIPS.hash_hex bytes = ar_sha256 m).

Lemma existing_record_local name : triple kept_pred (existing_record m name) (fun _ => locally) kept_pred.
Proof.
  unfold existing_record. eapply triple_seq; [by apply triple_may_fail|].
  eapply triple_bind; [by apply (triple_read_view _ _ _ (fun st _ _ => storage_get (packageId m) st))|]. intros existing.
  eapply triple_bind with (R := found).
  { destruct existing as [record|].
    - apply triple_ret. intros st r f (Hk & E). symmetry in E. unfold storage_get in E. split; [done|].
      split; [by eapply records_get_id|]. intros Etag bytes Hb.
      destruct (kp_ready _ Hk _ _ Hb) as (_ & r' & Er' & Hd). rewrite E in Er'. injection Er' as <-. rewrite Hd.
      apply same_etag_same_digest; [|done|done]. by apply (kp_records _ Hk _ _ E).
    - eapply triple_bind; [apply triple_next|]. intros now. apply triple_ret. intros st r f (Hk & E).
      split; [done|]. split; [done|]. intros _ bytes Hb. destruct (kp_ready _ Hk _ _ Hb) as (_ & r' & Er' & _).
      unfold storage_get in E. by rewrite Er' in E. }
  intros record. eapply triple_seq.
  { apply (triple_change _ _ (fun st r f => found record st r f /\ r = record)). by intros s Hs. }
  apply (triple_seq _ _ (fun st r f => found r st r f /\ (ar_etag (pr_manifest r) = ar_etag m))).
  - destruct (String.eqb_spec (ar_etag (pr_manifest record)) (ar_etag m)) as [E|E]; cbn [negb].
    + apply triple_ret. by intros st r f [Hf ->].
    + eapply triple_seq.
      { apply (triple_on_storage _ (fun st r f => kept st /\ st_ready st !! packageId m = None)).
        - by intros st r f ((Hk & _) & _).
        - intros st st' r f ((Hk & _) & _) Ed%Ok_inj. subst st'. split; [by apply kept_delete|].
          cbn [storage_delete st_ready]. by rewrite lookup_delete_eq. }
      eapply triple_seq; [apply triple_notify|]. eapply triple_bind; [apply triple_next|]. intros now.
      apply triple_change. intros s [Hk Hn]. split; [|done]. split; [exact Hk|]. split; [done|].
      intros _ bytes. cbn [dl_storage set_record]. by rewrite Hn.
  - apply triple_record_change. intros st r f ((Hk & Hi & Hr) & E). split; [done|done|done|by apply Hr].
Qed.

Lemma check_ready_local name : triple locally (check_ready m name) (fun _ => locally) locally.
Proof.
  unfold check_ready. eapply triple_bind; [apply triple_read|]. intros record.
  destruct (negb (looks_ready record)); [by apply triple_ret|].
  set (there := fun st (r : OfflinePackageRecord) (f : BlobArchiveFile) =>
    local st r /\ exists bytes, st_ready st !! packageId m = Some bytes /\ archive_ok m bytes).
  eapply triple_bind with (R := fun x => match x with inl _ => there | inr _ => locally end).
  { apply triple_attempt. eapply triple_seq; [by apply triple_may_fail|].
    eapply triple_bind; [by apply (triple_read_view _ _ _ (fun st _ _ => st))|]. intros st0.
    eapply triple_bind; [apply triple_result; by intros ??? [? _]|]. intros file.
    eapply triple_seq; [apply triple_may_fail; by intros ??? [[? _] _]|].
    eapply triple_bind; [apply triple_result; by intros ??? [[? _] _]|]. intros header.
    apply (triple_weaken _ _ there _ _ (fun _ => there) locally); [apply triple_may_fail; by intros ??? [? _]| |done|done].
    intros st r f (((Hl & ->) & E) & Hv). split; [done|]. unfold openReady, assertPackageId in E.
    destruct (packageIdSchema (packageId m)); [|done]. cbn [mbind outcome_bind] in E.
    destruct (st_ready st !! packageId m) as [bytes|] eqn:Eb; [|done]. apply Ok_inj in E as <-. exists bytes. split; [done|].
    split; [by apply (lo_ready _ _ Hl)|]. exists header. rewrite toBytes_content, new_file_content in Hv; [done|by rewrite new_file_content]. }
  intros [[]|e].
  - eapply triple_bind with (R := fun _ => locally).
    { eapply triple_weaken with (P' := there) (Q' := fun x => match x with inl _ => locally | inr _ => locally end) (E' := locally);
        [|done|by intros [|]|done].
      apply triple_attempt. eapply (triple_seq _ there there); [apply triple_styles; by intros ??? [? _]|].
      eapply triple_bind; [apply triple_next|]. intros now.
      eapply triple_seq.
      { apply (triple_record_change _ (fun st r f => (local st r /\ (pr_status r = Ready ->
            exists bytes, st_ready st !! packageId m = Some bytes /\ archive_ok m bytes)) /\ True)).
        intros st r f [Hl Hr]. split; [|done].
        split; [by apply (local_set (fun r => set_status Ready now (set_lastError None r)))|done]. }
      eapply triple_seq; [apply (put_local (fun _ => True))|].
      apply (triple_weaken _ _ locally _ _ (fun _ => locally) locally); [|by intros ??? [? _]|done|done].
      destruct (negb _); [apply triple_notify|by apply triple_ret]. }
    intros [[]|e]; [by apply triple_ret|].
    eapply triple_bind; [apply triple_next|]. intros now. apply put_unready; [done|]. apply triple_raise. by intros ??? [? _].
  - eapply triple_seq; [apply delete_locally|]. eapply triple_seq; [apply triple_notify|].
    eapply triple_bind; [apply triple_next|]. intros now.
    eapply triple_seq; [apply (triple_change _ _ locally); intros s Hs; by eapply local_base|]. by apply triple_ret.
Qed.

Lemma run_kept name : triple kept_pred (download_of m name) (fun _ => kept_pred) kept_pred.
Proof.
  assert (Hlk : forall st r f, locally st r f -> kept_pred st r f) by (by intros ??? []).
  eapply triple_seq; [apply existing_record_local|].
  eapply triple_bind; [apply triple_next|]. intros now.
  eapply triple_bind; [eapply triple_weaken; [apply check_ready_local|intros ??? Hx; exact Hx|intros ???? Hx; exact Hx|exact Hlk]|].
  intros [|]; [exact (triple_weaken _ _ locally _ _ (fun _ => locally) locally (triple_read locally locally _) (fun _ _ _ Hx => Hx) (fun _ => Hlk) Hlk)|].
  eapply triple_bind; [eapply triple_weaken; [apply open_partial_busy|done|intros ???? Hx; exact Hx|exact Hlk]|]. intros prefix.
  eapply triple_bind with (R := fun _ => broken).
  { eapply triple_weaken with (Q' := fun x : unit + thrown => match x with inl _ => settled | inr _ => broken end) (E' := kept_pred);
      [apply triple_attempt|intros ??? Hx; exact Hx|by intros [|]|done].
    intros s [Hb Hp]. revert s Hb. change (triple (busy (fun bytes => Z.of_nat (length bytes) = prefix))
      (hash ← transfer m now prefix; finish m now hash) (fun _ => settled) broken).
    eapply triple_bind; [by apply transfer_hashed|]. intros hash. apply finish_settled. }
  intros [[]|e]; [|apply failed_kept].
  eapply triple_weaken; [apply (triple_read broken broken)|done|by intros ???? [[] _]|by intros ??? [[] _]].
Qed.
End calls.

(** One download, whatever the world does, keeps the storage. *)
Lemma download_kept `{PackageDates} `{ArchiveCodecs} `{DownloadWorldLaws} raw name st :
  kept st -> kept (dl_storage (downloadOfflinePackage raw name st).2).
Proof.
  intros Hk. unfold downloadOfflinePackage, downloadOfflinePackageImpl, validateOfflineMapPackageManifest.
  destruct (offlineMapPackageManifestSchema raw) eqn:Hraw; [|done].
  pose proof (run_kept raw Hraw name (download_start raw st) Hk) as Hrun. unfold result, mbind, D_bind.
  by destruct (download_of raw name (download_start raw st)) as [[r|e] s'].
Qed.

(** ** The library *)

Lemma sort_with_in {A} (cmp : A -> A -> Z) l x : x ∈ sort_with cmp l -> x ∈ l.
Proof.
  assert (Hins : forall y acc, x ∈ insert_with cmp y acc -> x = y \/ x ∈ acc).
  { intros y acc. induction acc as [|z acc IH]; cbn.
    - rewrite list_elem_of_singleton. auto.
    - destruct (_ <? _); rewrite !elem_of_cons; [tauto|]. intros [?|Hx%IH]; tauto. }
  unfold sort_with. cut (forall acc, x ∈ foldl (fun acc y => insert_with cmp y acc) acc l -> x ∈ acc \/ x ∈ l).
  { intros H Hx%H. destruct Hx as [Hx|]; [by apply not_elem_of_nil in Hx|done]. }
  induction l as [|y l IH]; intros acc Hx; [by left|]. cbn in Hx. apply IH in Hx as [[->|?]%Hins|?]; rewrite elem_of_cons; auto.
Qed.

Lemma records_get_member records r : base.NoDup (map pr_id records) -> r ∈ records -> records_get (pr_id r) records = Some r.
Proof.
  unfold records_get. induction records as [|x l IH]; intros Hn Hr; [by apply not_elem_of_nil in Hr|].
  apply NoDup_cons in Hn as [Hx Hl]. cbn. apply elem_of_cons in Hr as [->|Hr]; [by rewrite String.eqb_refl|].
  destruct (String.eqb_spec (pr_id x) (pr_id r)) as [E|]; [|by apply IH]. destruct Hx. rewrite E. apply list_elem_of_fmap. by exists r.
Qed.

Section library.
Context `{PackageDates} `{ArchiveCodecs}.

Lemma mark_unusable_kept hasGlyphs now records : forall st, kept st ->
  (forall r, r ∈ records -> exists r', records_get (pr_id r) (st_records st) = Some r' /\ pr_manifest r' = pr_manifest r) ->
  kept (mark_unusable hasGlyphs now records st).
Proof.
  induction records as [|r records IH]; intros st Hk Hin; [done|]. cbn [mark_unusable].
  assert (Hrest : forall r0, r0 ∈ records -> exists r', records_get (pr_id r0) (st_records st) = Some r' /\ pr_manifest r' = pr_manifest r0).
  { intros r0 Hr0. apply Hin. by right. }
  destruct (_ || _); [by apply IH|].
  destruct (Hin r) as (r' & Hr' & Hman); [by left|].
  destruct (storage_put _ st) as [st'|] eqn:E; [|done].
  pose proof (records_get_id _ _ _ Hr') as Hid. destruct (kp_records _ Hk _ _ Hr') as [Hpid _].
  apply IH.
  - eapply kept_put; [exact Hk| | | |exact E]; cbn [pr_id pr_manifest pr_status set_status set_lastError].
    + by rewrite <-Hman, <-Hpid.
    + intros bytes Hb. destruct (kp_ready _ Hk _ _ Hb) as (_ & r2 & Hr2 & ->). rewrite Hr' in Hr2. injection Hr2 as <-. by rewrite Hman.
    + done.
  - intros r0 Hr0. revert E. unfold storage_put. destruct (validateOfflineMapPackageManifest _); [|done].
    cbn [mbind outcome_bind]. intros E%Ok_inj. subst st'. cbn [st_records]. rewrite records_get_set.
    cbn [pr_id set_status set_lastError]. destruct (String.eqb_spec (pr_id r) (pr_id r0)) as [Eid|]; [|by apply Hrest].
    eexists. split; [done|]. cbn [pr_manifest set_status set_lastError].
    destruct (Hrest r0 Hr0) as (r3 & Hr3 & <-). rewrite <-Eid, Hr' in Hr3. injection Hr3 as <-. done.
Qed.

(** The server of a download sends bytes. *)
Definition sends_bytes (op : library_op) : Prop :=
  match op with OpDownload W _ _ => @DownloadWorldLaws W | _ => True end.

Lemma library_kept ops : Forall sends_bytes ops -> kept (library ops).
Proof.
  unfold library. generalize kept_empty. generalize empty_storage. induction ops as [|op ops IH]; intros st Hk Hops; [done|].
  apply Forall_cons in Hops as [Hop Hops]. cbn [foldl]. apply IH; [|done].
  destruct op as [W m name|id|hasGlyphs now]; cbn [library_step].
  - by apply (@download_kept _ _ W Hop).
  - by apply kept_delete.
  - apply mark_unusable_kept; [done|]. intros r Hr%sort_with_in. exists r. split; [|done].
    apply records_get_member; [apply kp_distinct, Hk|done].
Qed.

(** C11: whatever downloads were started, interrupted, resumed or rejected, under whatever
    manifests, and whatever packages were deleted or lost their glyphs: a package is
    listed as ready only when the archive it opens is, bytes for bytes, of the digest of
    its manifest and has been validated for it. *)
Theorem a_ready_package_is_verified ops id r : Forall sends_bytes ops ->
  records_get id (st_records (library ops)) = Some r -> pr_status r = Ready ->
  exists bytes, st_ready (library ops) !! id = Some bytes /\
    FIPS.hash_hex bytes = ar_sha256 (pr_manifest r) /\
    exists h, validateLocalPmtilesArchive bytes (cov_bbox (pr_manifest r)) (cov_minZoom (pr_manifest r)) (cov_maxZoom (pr_manifest r)) = Ok h.
Proof. intros Hops Hr Hs. apply (kp_verified _ (library_kept ops Hops) id r Hr Hs). Qed.
End library.

(** ** A download that is interrupted and resumed *)

#[export] Instance sample_dates : PackageDates := { iso_datetime s := startsWith "20" s }.

Definition sample_id : string := "omp2-00000000000000000000000000000000000000000000000000000000000000ff".

Definition sample_manifest : OfflineMapPackageManifest := {|
  schemaVersion := 2; packageId := sample_id; mf_requestKey := "key"; ds_id := "openmapx"; ds_version := "v1";
  ds_generatedAt := "2026-08-03T00:00:00.000Z"; ds_sourceMaxZoom := 14; ds_tileSchema := "openmaptiles";
  cov_bbox := {| west := num_of_Z (-180); south := num_of_Z (-85); east := num_of_Z 180; north := num_of_Z 85 |};
  cov_minZoom := 0; cov_maxZoom := 1;
  ar_url := ("/api/offline/packages/" ++ sample_id ++ "/archive")%string;
  ar_contentType := "application/vnd.pmtiles"; ar_byteLength := Z.of_nat (length good_archive);
  ar_sha256 := FIPS.hash_hex good_archive; ar_etag := ("sha256-" ++ FIPS.hash_hex good_archive)%string;
  gl_version := "g1"; gl_urlTemplate := "/api/offline/packages/glyphs/g1/{fontstack}/{range}.pbf";
  mf_attribution := ["OpenStreetMap contributors"%string] |}.

(** The server: a whole archive, or the rest of it after [n] bytes; the first answer
    breaks off after 100 bytes when [cut] is set. *)
Definition sample_response (cut : bool) (range : option (Z * string)) : Response :=
  match range with
  | None => {| rs_status := 200; rs_etag := Some (ar_etag sample_manifest); rs_contentRange := None;
               rs_body := Some (if cut then [BodyChunk (take 100 good_archive); BodyError (AbortError "gone")]
                                else [BodyChunk good_archive]) |}
  | Some (n, _) => {| rs_status := 206; rs_etag := Some (ar_etag sample_manifest);
                      rs_contentRange := Some ("bytes " ++ show_Z n ++ "-" ++ show_Z (ar_byteLength sample_manifest - 1)
                                               ++ "/" ++ show_Z (ar_byteLength sample_manifest))%string;
                      rs_body := Some [BodyChunk (drop (Z.to_nat n) good_archive)] |}
  end.

Definition sample_world (cut : bool) : DownloadWorld := {|
  clock n := 1000 * Z.of_nat n;
  call_fails _ := None;
  open_archive _ _ range := inl (sample_response cut range);
  signal_aborted _ := false;
  estimate_available _ := None;
  validate_styles := None;
|}.

Lemma good_archive_bytes : Forall is_byte good_archive.
Proof.
  apply Forall_forall. intros b Hb. rewrite list_elem_of_In in Hb.
  assert (Hall : forallb (fun b => (0 <=? b) && (b <? 256)) good_archive = true) by (vm_compute; reflexivity).
  rewrite forallb_forall in Hall. specialize (Hall b Hb). unfold is_byte. lia.
Qed.

Lemma chunk_equal c c' : BodyChunk c = BodyChunk c' -> c = c'.
Proof. congruence. Qed.

Lemma sample_world_bytes cut : @DownloadWorldLaws (sample_world cut).
Proof.
  constructor. intros n id range response items chunk E Hi Hc.
  change (inl (sample_response cut range) = @inl Response thrown response) in E.
  assert (response = sample_response cut range) as -> by congruence. clear E.
  assert (chunk ∈ [good_archive; take 100 good_archive; drop (Z.to_nat (match range with Some (k, _) => k | None => 0 end)) good_archive])
    as Hin.
  { destruct range as [[p tag]|]; [|destruct cut]; unfold sample_response, rs_body in Hi; apply Some_inj in Hi; subst items;
      rewrite ?elem_of_cons in *; rewrite list_elem_of_In in Hc; destruct Hc as [Hc|Hc];
      [apply chunk_equal in Hc; auto|contradiction|apply chunk_equal in Hc; auto| |apply chunk_equal in Hc; auto|contradiction].
    destruct Hc as [Hc|Hc]; [discriminate|contradiction]. }
  pose proof good_archive_bytes. rewrite !elem_of_cons in Hin.
  destruct Hin as [->|[->|[->|Hin]]]; [done|by apply Forall_take|by apply Forall_drop|by apply not_elem_of_nil in Hin].
Qed.

Definition sample_ops : list library_op :=
  [OpDownload (sample_world true) sample_manifest None; OpDownload (sample_world false) sample_manifest None].

(** The first download pauses with 100 bytes, the second one resumes and is ready. *)
Lemma a_ready_package_is_verified_witness :
  map (fun r => (pr_status r, verifiedPrefixBytes r)) (st_records (library (take 1 sample_ops))) = [(Paused, 100)] /\
  map pr_status (st_records (library sample_ops)) = [Ready] /\
  exists r bytes, records_get sample_id (st_records (library sample_ops)) = Some r /\
    st_ready (library sample_ops) !! sample_id = Some bytes /\ FIPS.hash_hex bytes = ar_sha256 (pr_manifest r).
Proof.
  split; [vm_compute; reflexivity|]. split; [vm_compute; reflexivity|].
  assert (Hs : option_map pr_status (records_get sample_id (st_records (library sample_ops))) = Some Ready)
    by (vm_compute; reflexivity).
  destruct (records_get sample_id (st_records (library sample_ops))) as [r|] eqn:Hr; [|discriminate Hs].
  exists r.
  destruct (a_ready_package_is_verified sample_ops sample_id r) as (bytes & Hb & Hd & _).
  - repeat constructor; apply sample_world_bytes.
  - exact Hr.
  - cbn [option_map] in Hs. by injection Hs.
  - exists bytes. split; [reflexivity|]. split; [exact Hb|exact Hd].
Defined.
