(* ===== verification/DownloadEnds.v ===== *)
(** * With an honest server two downloads are enough

    The prefix a download resumes from was received under the right tag, but nothing has
    vouched for its bytes.  When they are wrong the digest shows it, the prefix is thrown
    away, and the next download starts from nothing. *)

From stdpp Require Import gmap strings.
From S2P Require Import Prelude Text Doubles Sha256 Pmtiles Archive Manifest Resolver Download DownloadFacts.
Local Open Scope Z_scope.

(** Nothing is rejected, nobody aborts, there is room, and the server sends the archive,
    whole or from the byte it is asked for. *)
Class HonestServer (m : OfflineMapPackageManifest) (archive : list Z) `{DownloadWorld} : Prop := {
  hs_calls n : call_fails n = None;
  hs_signal n : signal_aborted n = false;
  hs_room n k : estimate_available n = Some k -> ar_byteLength m <= k;
  hs_styles f n : validate_styles = Some f -> f n = None;
  hs_whole n : exists response chunks, open_archive n (packageId m) None = inl response /\
    rs_status response = 200 /\ rs_etag response = Some (ar_etag m) /\
    rs_body response = Some (map BodyChunk chunks) /\ concat chunks = archive;
  hs_rest n start : 0 < start < ar_byteLength m ->
    exists response chunks, open_archive n (packageId m) (Some (start, ar_etag m)) = inl response /\
      rs_status response = 206 /\ rs_etag response = Some (ar_etag m) /\
      parseRangeStart (rs_contentRange response) = Some start /\
      rs_body response = Some (map BodyChunk chunks) /\ concat chunks = drop (Z.to_nat start) archive;
}.

(** A start of [kept], continued with the rest of the archive, is not the archive and has
    its digest. *)
Definition collision (kept archive : list Z) : Prop :=
  exists n, take n kept ++ drop n archive <> archive /\
    length (take n kept ++ drop n archive) = length archive /\
    FIPS.hash_hex (take n kept ++ drop n archive) = FIPS.hash_hex archive.

(** What the storage has of the archive of a package. *)
Definition kept_bytes (id : string) (st : PackageStorage) : list Z := default [] (st_partial st !! id).

(** The archive the manifest names. *)
Record names_archive `{ArchiveCodecs} (m : OfflineMapPackageManifest) (archive : list Z) : Prop := {
  na_bytes : Forall is_byte archive;
  na_length : ar_byteLength m = Z.of_nat (length archive);
  na_digest : ar_sha256 m = FIPS.hash_hex archive;
  na_valid : exists h, archive_valid m archive = Ok h;
}.

Section honest.
Context `{PackageDates} `{ArchiveCodecs} (m : OfflineMapPackageManifest) (Hm : offlineMapPackageManifestSchema m = true).
Context (archive : list Z) (Hnames : names_archive m archive) `{Hserver : HonestServer m archive}.
Context (old : list Z).

(** A download under way: [Q] says of the record and the bytes of the file what matters. *)
Record running (Q : OfflinePackageRecord -> list Z -> Prop) (st : PackageStorage) (r : OfflinePackageRecord) (f : BlobArchiveFile) : Prop := {
  ru_id : pr_id r = packageId m;
  ru_manifest : pr_manifest r = m;
  ru_open : bf_closed f = false;
  ru_size : bf_currentSize f = Z.of_nat (length (content f));
  ru_bytes : Forall is_byte (content f);
  ru_partial : forall bytes, st_partial st !! packageId m = Some bytes -> Forall is_byte bytes;
  ru_clean : bf_dirty f = false -> content f <> [] -> st_partial st !! packageId m = Some (content f);
  ru_facts : Q r (content f);
}.

Lemma running_mono (Q Q' : OfflinePackageRecord -> list Z -> Prop) st r f : (forall r bytes, Forall is_byte bytes -> Q r bytes -> Q' r bytes) ->
  running Q st r f -> running Q' st r f.
Proof. intros HQ []. by split; auto. Qed.

Section calls.
Context (E : pred).

Lemma honest_call (P : pred) : triple P may_fail (fun _ => P) E.
Proof. intros s Hs. unfold may_fail, next, mbind, D_bind. by rewrite hs_calls. Qed.

Lemma honest_put_storage r st : pr_manifest r = m -> exists st', storage_put r st = Ok st' /\
  st_partial st' = st_partial st /\ st_ready st' = st_ready st /\ records_get (pr_id r) (st_records st') = Some r.
Proof.
  intros Hr. unfold storage_put, validateOfflineMapPackageManifest. rewrite Hr, Hm. cbn [mbind outcome_bind].
  eexists. split; [done|]. split; [done|]. split; [done|]. cbn [st_records]. rewrite records_get_set. by rewrite String.eqb_refl.
Qed.

(** A record of the manifest can always be written. *)
Lemma honest_put (P : pred) (Q : pred) :
  (forall st st' r f, P st r f -> pr_manifest r = m /\ (st_partial st' = st_partial st -> st_ready st' = st_ready st ->
     records_get (pr_id r) (st_records st') = Some r -> Q st' r f)) ->
  triple P put_record (fun _ => Q) E.
Proof.
  intros HP s Hs. unfold put_record, on_storage, mbind, D_bind, read at 1.
  pose proof (honest_call P s Hs) as Hcall. unfold may_fail, next, mbind, D_bind in *. rewrite hs_calls in *. cbn.
  destruct (honest_put_storage (dl_record s) (dl_storage s)) as (st' & -> & Hp & Hr & Hg).
  { by apply (HP (dl_storage s) (dl_storage s) _ (dl_file s)). }
  by apply (HP (dl_storage s) st' (dl_record s) (dl_file s) Hs).
Qed.

Lemma running_put Q :
  triple (running Q) put_record (fun _ st r f => running Q st r f /\ records_get (packageId m) (st_records st) = Some r) E.
Proof.
  apply honest_put. intros st st' r f Hrun. split; [apply Hrun|]. intros Hp _ Hg. destruct Hrun.
  split; [by split; rewrite ?Hp|congruence].
Qed.

Lemma running_flush Q : triple (running Q) (file_flush (packageId m)) (fun _ st r f => running Q st r f /\ bf_dirty f = false) E.
Proof.
  intros s Hs. unfold file_flush, mbind, D_bind, read at 1, result at 1, assertOpen. rewrite (ru_open _ _ _ _ Hs). cbn [negb].
  destruct (bf_dirty (dl_file s)) eqn:Ed; cbn [negb]; [|by split].
  unfold may_fail, next, mbind, D_bind. rewrite hs_calls. cbn. split; [|done].
  pose proof (toBytes_content _ (ru_size _ _ _ _ Hs)) as Ht. destruct Hs. rewrite Ht.
  split; cbn; try done.
  - intros bytes. rewrite lookup_insert_eq. by intros [= <-].
  - intros _ _. by rewrite lookup_insert_eq.
Qed.

Lemma running_record_change (Q Q' : OfflinePackageRecord -> list Z -> Prop) g :
  (forall r bytes, pr_id (g r) = pr_id r /\ pr_manifest (g r) = pr_manifest r /\
     (Q r bytes -> Q' (g r) bytes)) ->
  triple (running Q) (record_change g) (fun _ => running Q') E.
Proof.
  intros Hg. apply triple_record_change. intros st r f []. destruct (Hg r (content f)) as (Ei & Em & HQ).
  split; rewrite ?Ei, ?Em; auto.
Qed.

Lemma running_truncate Q n : 0 <= n <= MAX_SAFE_INTEGER ->
  triple (running Q) (on_file (blob_truncate n))
    (fun _ => running (fun r bytes => exists before, Q r before /\ bytes = take (Z.to_nat n) before)) E.
Proof.
  intros Hn. eapply triple_seq; [apply honest_call|]. intros s Hs.
  unfold mbind, D_bind, read, result, blob_truncate, assertOpen. rewrite (ru_open _ _ _ _ Hs). cbn [mbind outcome_bind].
  unfold is_safe. rewrite Z.abs_eq by lia. destruct (Z.leb_spec n MAX_SAFE_INTEGER); [|lia]. destruct (Z.ltb_spec n 0); [lia|].
  cbn [negb orb]. pose proof (toBytes_content _ (ru_size _ _ _ _ Hs)) as Ht. rewrite Ht.
  set (kept' := take (Z.to_nat n) (content (dl_file s))).
  assert (Ec : forall size closed dirty, content {| bf_chunks := match kept' with [] => [] | _ => [kept'] end;
      bf_currentSize := size; bf_closed := closed; bf_dirty := dirty |} = kept').
  { intros. unfold content at 1. cbn [bf_chunks]. destruct kept'; cbn; by rewrite ?app_nil_r. }
  destruct Hs. split; cbn [change set_file dl_storage dl_record dl_file]; rewrite ?Ec; try done.
  - by apply Forall_take.
  - eauto.
Qed.

Lemma running_chunk Q chunk : Forall is_byte chunk ->
  triple (running Q) (take_chunk chunk)
    (fun _ => running (fun r bytes => exists r0 before, Q r0 before /\
       bytesReceived r = bytesReceived r0 + Z.of_nat (length chunk) /\ bytes = before ++ chunk)) E.
Proof.
  intros Hchunk. eapply triple_seq with (R := running (fun r bytes => exists before, Q r before /\ bytes = before ++ chunk)).
  - eapply triple_seq; [apply honest_call|]. intros s Hs.
    unfold mbind, D_bind, read, result, blob_append, assertOpen. rewrite (ru_open _ _ _ _ Hs). cbn [mbind outcome_bind].
    destruct chunk as [|x chunk]; cbn [change]; destruct Hs.
    + split; try done. exists (content (dl_file s)). by rewrite app_nil_r.
    + assert (Ec : forall size closed dirty, content {| bf_chunks := bf_chunks (dl_file s) ++ [x :: chunk];
        bf_currentSize := size; bf_closed := closed; bf_dirty := dirty |} = content (dl_file s) ++ x :: chunk).
      { intros. unfold content. cbn [bf_chunks]. rewrite concat_app. cbn. by rewrite app_nil_r. }
      split; cbn [change set_file dl_storage dl_record dl_file bf_closed bf_currentSize bf_dirty]; rewrite ?Ec; try done.
      * rewrite ru_size0, length_app. cbn [length]. lia.
      * by apply Forall_app.
      * eauto.
  - apply running_record_change. intros r bytes. split; [done|]. split; [done|]. intros (before & HQ & ->).
    exists r, before. by split.
Qed.

(** ** The digest and the transfer *)

Lemma running_hash_loop (P : list Z -> Prop) len fuel : (forall bytes, P bytes -> Z.of_nat (length bytes) = len) ->
  len <= MAX_SAFE_INTEGER -> forall offset hash, 0 <= offset <= len -> len - offset < Z.of_nat fuel ->
  triple (running (fun _ bytes => P bytes /\ hashed hash (take (Z.to_nat offset) bytes)))
    (hash_loop fuel offset len hash) (fun hash => running (fun _ bytes => P bytes /\ hashed hash bytes)) E.
Proof.
  intros HP Hlen. induction fuel as [|fuel IH]; intros offset hash Hoff Hfuel; [lia|]. cbn [hash_loop].
  destruct (Z.ltb_spec offset len) as [Hlt|Hge].
  - eapply triple_bind with (R := fun chunk => running (fun _ bytes => P bytes /\
      hashed hash (take (Z.to_nat offset) bytes) /\ chunk <> [] /\ exists k, chunk = take k (drop (Z.to_nat offset) bytes))).
    { eapply triple_seq; [apply honest_call|]. intros s Hs.
      unfold mbind, D_bind, read, result, blob_read, assertOpen. rewrite (ru_open _ _ _ _ Hs). cbn [mbind outcome_bind].
      unfold is_safe. rewrite !Z.abs_eq by lia.
      destruct (Z.leb_spec offset MAX_SAFE_INTEGER); [|lia].
      destruct (Z.leb_spec (Z.min (1024 * 1024) (len - offset)) MAX_SAFE_INTEGER); [|lia].
      destruct (Z.ltb_spec offset 0); [lia|]. destruct (Z.ltb_spec (Z.min (1024 * 1024) (len - offset)) 0); [lia|]. cbn [negb orb].
      rewrite toBytes_content by apply Hs. destruct Hs. destruct ru_facts0 as [Hl Hh]. split; try done.
      split; [done|]. split; [done|]. apply HP in Hl. split; [|eauto].
      intros Hnil. apply (f_equal length) in Hnil. rewrite length_take, length_drop in Hnil. cbn in Hnil. lia. }
    intros [|x chunk]; [intros s [?????? ? (_ & _ & Hne & _)]; done|]. set (c := x :: chunk).
    intros s Hs. assert (Hc : Z.of_nat (length c) <= len - offset).
    { destruct (ru_facts _ _ _ _ Hs) as (Hl%HP & _ & _ & k & E'). fold c in E'. rewrite E', length_take, length_drop. lia. }
    assert (0 < Z.of_nat (length c)) by (cbn; lia).
    refine (IH (offset + Z.of_nat (length c)) (sha_update c hash) ltac:(lia) ltac:(lia) s _).
    revert Hs. apply running_mono. intros _ bytes Hb (Hl & Hh & _ & k & E'). split; [done|]. fold c in E'.
    replace (take (Z.to_nat (offset + Z.of_nat (length c))) bytes) with (take (Z.to_nat offset) bytes ++ c).
    { apply hashed_update; [done|]. rewrite E'. by apply Forall_take, Forall_drop. }
    rewrite Z2Nat.inj_add, Nat2Z.id, <-take_take_drop by lia. f_equal. rewrite E'. symmetry. apply take_own_length.
  - apply triple_ret. intros st r f. apply running_mono. intros _ bytes _ [Hl Hh]. split; [done|]. apply HP in Hl. by rewrite take_ge in Hh by lia.
Qed.

Lemma running_keep_progress Q startedAt lastAt lastBytes : (forall now r bytes, Q r bytes -> Q (set_status Downloading now r) bytes) ->
  triple (running Q) (keep_progress (packageId m) startedAt lastAt lastBytes) (fun _ => running Q) E.
Proof.
  intros HQ. eapply triple_bind; [apply triple_read|]. intros received.
  apply (triple_bind E _ _ (fun _ => running Q)).
  { destruct (_ <=? _); [by apply triple_ret|]. eapply triple_bind; [apply triple_next|]. intros now. by apply triple_ret. }
  intros [|]; [|by apply triple_ret]. cbn [negb].
  eapply triple_seq; [eapply triple_weaken; [apply running_flush|done|by intros _ st r f [? _]|done]|].
  eapply triple_bind; [apply triple_next|]. intros now.
  eapply triple_seq; [apply (running_record_change _ Q); intros r bytes; split; [done|]; split; [done|apply HQ]|].
  eapply triple_seq; [eapply triple_weaken; [apply running_put|done|by intros _ st r f [? _]|done]|].
  eapply triple_bind; [apply triple_read|]. intros received'. eapply triple_bind; [apply triple_next|]. intros lastAt'.
  eapply triple_seq; [apply triple_report|]. by apply triple_ret.
Qed.

Lemma not_aborted (P : pred) : triple P (next signal_aborted) (fun aborted st r f => P st r f /\ aborted = false) E.
Proof. apply (triple_next_value E P signal_aborted (fun aborted => aborted = false)), hs_signal. Qed.

Lemma running_body startedAt (P : list Z -> Prop) chunks : Forall (Forall is_byte) chunks -> forall lastAt lastBytes hash,
  triple (running (fun r bytes => bytesReceived r = Z.of_nat (length bytes) /\ hashed hash bytes /\ P bytes))
    (read_body (packageId m) startedAt lastAt lastBytes (map BodyChunk chunks) hash)
    (fun hash => running (fun r bytes => bytesReceived r = Z.of_nat (length bytes) /\ hashed hash bytes /\
       exists before, P before /\ bytes = before ++ concat chunks)) E.
Proof.
  intros Hc. revert P. induction Hc as [|c chunks Hc _ IH]; intros P lastAt lastBytes hash; cbn [map read_body].
  - eapply triple_bind; [apply not_aborted|].
    intros [|]; [by intros s [_ ?]|]. apply triple_ret. intros st r f [Hs _]. revert Hs. apply running_mono.
    intros n bytes _ (? & ? & ?). split; [done|]. split; [done|]. exists bytes. cbn. by rewrite app_nil_r.
  - eapply triple_bind; [apply not_aborted|].
    intros [|]; [by intros s [_ ?]|].
    eapply triple_weaken with (P' := running (fun r bytes => bytesReceived r = Z.of_nat (length bytes) /\ hashed hash bytes /\ P bytes));
      [|by intros ??? [? _]|intros ???? Hx; exact Hx|intros ??? Hx; exact Hx].
    eapply triple_seq; [by apply running_chunk|]. eapply triple_bind; [by apply running_keep_progress|]. intros [at' bytes'].
    eapply triple_weaken; [apply (IH (fun bytes => exists before, P before /\ bytes = before ++ c))| | |intros ??? Hx; exact Hx].
    + intros st r f. apply running_mono. intros r0 bytes _ (r1 & before & (E1 & Hh & HP) & E2 & ->).
      rewrite length_app. split; [lia|]. split; [by apply hashed_update|eauto].
    + intros h st r f. apply running_mono. intros r0 bytes _ (? & Hh & before & (first & HP & ->) & ->).
      split; [done|]. split; [done|]. exists first. cbn. by rewrite <-app_assoc.
Qed.

Lemma names_length : 0 < ar_byteLength m <= MAX_SAFE_INTEGER.
Proof. by apply manifest_length. Qed.

(** The answer for a prefix of [start] bytes. *)
Lemma honest_response (P : pred) start hash : 0 <= start < ar_byteLength m ->
  triple P (open_response m start hash) (fun x st r f => P st r f /\ exists response chunks,
    x = (response, start, hash) /\ rs_status response = (if 0 <? start then 206 else 200) /\
    rs_etag response = Some (ar_etag m) /\ rs_body response = Some (map BodyChunk chunks) /\
    concat chunks = drop (Z.to_nat start) archive) E.
Proof.
  intros Hstart s Hs. unfold open_response, api_openArchive, next, mbind, D_bind. destruct (Z.ltb_spec 0 start).
  - destruct (hs_rest (dl_step s) start) as (response & chunks & -> & Hst & Het & Hr & Hb & Hc); [lia|].
    cbn -[resume_accepted]. assert (resume_accepted m start response = true) as ->.
    { unfold resume_accepted. rewrite Hst, Hr, Het. destruct (Z.ltb_spec 0 start); [|lia]. by rewrite !bool_decide_eq_true_2. }
    cbn. split; [exact Hs|]. eauto 10.
  - assert (start = 0) as -> by lia. destruct (hs_whole (dl_step s)) as (response & chunks & -> & Hst & Het & Hb & Hc).
    cbn. split; [exact Hs|]. exists response, chunks. by rewrite drop_0.
Qed.

(** What was there is the start of the file. *)
Definition resumed (start : Z) (bytes : list Z) : Prop := Z.of_nat (length bytes) = start /\ bytes = take (Z.to_nat start) old.

(** The file is whole: as many bytes as the archive, with their digest. *)
Definition joined (start : Z) (bytes : list Z) : Prop := bytes = take (Z.to_nat start) old ++ drop (Z.to_nat start) archive.
Definition complete (start : Z) (hash : Sha256) : OfflinePackageRecord -> list Z -> Prop := fun r bytes =>
  bytesReceived r = ar_byteLength m /\ hashed hash bytes /\ Z.of_nat (length bytes) = ar_byteLength m /\ joined start bytes.

Lemma complete_joined start hash r before : 0 <= start <= ar_byteLength m -> resumed start before ->
  bytesReceived r = Z.of_nat (length (before ++ drop (Z.to_nat start) archive)) ->
  hashed hash (before ++ drop (Z.to_nat start) archive) -> complete start hash r (before ++ drop (Z.to_nat start) archive).
Proof.
  intros Hstart [Hb Eb] Hr Hh. pose proof (na_length _ _ Hnames) as Hl.
  assert (Z.of_nat (length (before ++ drop (Z.to_nat start) archive)) = ar_byteLength m).
  { rewrite length_app, length_drop. lia. }
  split; [lia|]. split; [done|]. split; [done|]. unfold joined. by rewrite <-Eb.
Qed.

Lemma honest_transfer startedAt start : 0 <= start <= ar_byteLength m ->
  triple (running (fun _ => resumed start)) (transfer m startedAt start)
    (fun hash => running (complete start hash)) E.
Proof.
  intros Hstart. pose proof names_length as Hlen. unfold transfer. eapply triple_seq; [apply honest_call|].
  eapply triple_bind; [apply (triple_next_value _ _ _ (fun a =>
    match a with Some n => n <? ar_byteLength m - start | None => false end = false))|].
  { intros n. destruct (estimate_available n) as [k|] eqn:Ek; [|done]. apply hs_room in Ek. lia. }
  intros available. apply triple_fact. intros Hroom. rewrite Hroom.
  eapply triple_bind.
  { eapply triple_weaken; [apply (running_hash_loop (resumed start) start (S (Z.to_nat start)) ltac:(by intros ? [? _]) ltac:(lia) 0 new_Sha256); lia| | |intros ??? Hx; exact Hx].
    - intros st r f. apply running_mono. intros _ bytes _ Hl. split; [done|apply hashed_new].
    - intros hash st r f Hx. exact Hx. }
  intros hash. eapply triple_seq.
  { apply (running_record_change _ (fun r bytes => bytesReceived r = Z.of_nat (length bytes) /\ hashed hash bytes /\
      resumed start bytes)). by intros r bytes; split; [|split; [|intros [[? ?] ?]; split; [cbn|]]]. }
  destruct (Z.ltb_spec start (ar_byteLength m)) as [Hlt|Hge]; cbn [negb].
  2: { apply triple_ret. intros st r f. apply running_mono. intros r0 bytes _ (Hr & Hh & Hl).
       pose proof (complete_joined start hash r0 bytes Hstart Hl) as Hj. pose proof (na_length _ _ Hnames).
       rewrite drop_ge, app_nil_r in Hj by lia. by apply Hj. }
  eapply triple_bind; [apply honest_response; lia|]. intros [[response start'] hash'].
  apply triple_fact. intros (response' & chunks & [= <- <- <-] & Hst & Het & Hb & Hc).
  assert (negb (rs_ok response) || (0 <? start') && negb (rs_status response =? 206)
    || (start' =? 0) && negb (rs_status response =? 200) = false) as ->.
  { unfold rs_ok. rewrite Hst. destruct (Z.ltb_spec 0 start'); destruct (Z.eqb_spec start' 0); try lia; reflexivity. }
  replace (bool_decide (rs_etag response = Some (ar_etag m))) with true by (symmetry; by apply bool_decide_eq_true_2). cbn [negb].
  eapply triple_bind; [apply triple_next|]. intros lastAt. eapply triple_seq; [apply triple_report|]. rewrite Hb.
  eapply triple_weaken; [apply (running_body startedAt (resumed start') chunks)| | |intros ??? Hx; exact Hx].
  - apply Forall_concat. rewrite Hc. apply Forall_drop, Hnames.
  - intros st r f Hx. exact Hx.
  - intros h st r f. apply running_mono. intros r0 bytes _ (Hr & Hh & before & Hl & ->). rewrite Hc in *. by apply complete_joined.
Qed.
End calls.

(** ** The two checks and the end *)

(** What a record that starts again has. *)
Definition started_over (r : OfflinePackageRecord) : Prop := bytesReceived r = 0 /\ verifiedPrefixBytes r = 0.

Definition zeroed : pred := running (fun r bytes => started_over r /\ bytes = []).

Lemma honest_check_archive start hash :
  triple (running (complete start hash)) (check_archive m hash)
    (fun _ st r f => running (fun _ bytes => length bytes = length archive /\ FIPS.hash_hex bytes = FIPS.hash_hex archive /\ joined start bytes) st r f /\
       bf_dirty f = false)
    (fun st r f => zeroed st r f /\ start <> 0).
Proof.
  unfold check_archive. eapply triple_seq; [apply running_flush|].
  eapply triple_bind; [by apply (triple_read_view _ _ _ (fun _ r _ => bytesReceived r))|]. intros received.
  eapply triple_weaken with (P' := fun st r f => (running (complete start hash) st r f /\ bf_dirty f = false) /\ received = ar_byteLength m);
    [apply triple_fact; intros ->| |intros ???? Hx; exact Hx|intros ??? Hx; exact Hx].
  2: { intros st r f [[Hr Hd] ->]. split; [done|]. apply (ru_facts _ _ _ _ Hr). }
  rewrite Z.eqb_refl. cbn [negb]. pose proof (na_length _ _ Hnames) as Hl.
  destruct (String.eqb_spec (digestHex hash) (ar_sha256 m)) as [Hd|Hd]; cbn [negb].
  - apply triple_ret. intros st r f [Hr Hc]. split; [|done]. revert Hr. apply running_mono.
    intros r0 bytes Hb (_ & Hh & Hlen & Hj). split; [lia|]. split; [|done].
    by rewrite <-(hashed_digest hash bytes Hh Hb), Hd, (na_digest _ _ Hnames).
  - eapply triple_weaken with (P' := fun st r f => running (complete start hash) st r f /\ start <> 0);
      [apply triple_fact; intros Hstart| |intros ???? Hx; exact Hx|intros ??? Hx; exact Hx].
    2: { intros st r f [Hr _]. split; [done|]. intros ->. destruct (ru_facts _ _ _ _ Hr) as (_ & Hh & _ & E).
         unfold joined in E. rewrite drop_0 in E. apply Hd. rewrite (hashed_digest _ _ Hh (ru_bytes _ _ _ _ Hr)), E. symmetry. apply Hnames. }
    eapply triple_seq; [by apply (running_record_change _ _ (fun r _ => started_over r))|].
    eapply triple_seq; [apply running_truncate; unfold MAX_SAFE_INTEGER; lia|].
    eapply triple_seq; [apply running_flush|]. apply triple_raise. intros st r f [Hr _]. split; [|done].
    revert Hr. apply running_mono. intros r0 bytes _ (before & Hz & ->). done.
Qed.

(** The package is listed as ready. *)
Definition final (st : PackageStorage) : Prop := exists r, records_get (packageId m) (st_records st) = Some r /\ pr_status r = Ready.

Lemma triple_result_ok {A} E (P : pred) (o : outcome A) a :
  (forall st r f, P st r f -> o = Ok a) -> triple P (result o) (fun a' st r f => P st r f /\ a' = a) E.
Proof. intros Ho s Hs. unfold result. by rewrite (Ho _ _ _ Hs). Qed.

(** The archive is in the file and in the storage. *)
Definition fetched : pred := fun st r f =>
  running (fun _ bytes => bytes = archive) st r f /\ bf_dirty f = false.

Lemma fetched_partial st r f : fetched st r f -> st_partial st !! packageId m = Some archive.
Proof.
  intros [[] Hd]. rewrite <-ru_facts0. apply ru_clean0; [done|]. rewrite ru_facts0. intros ->.
  pose proof names_length. pose proof (na_length _ _ Hnames) as Hl. cbn in Hl. lia.
Qed.

Lemma honest_close E : triple fetched (file_close (packageId m))
  (fun _ st r f => pr_id r = packageId m /\ pr_manifest r = m /\ st_partial st !! packageId m = Some archive) E.
Proof.
  intros s Hs. pose proof (fetched_partial _ _ _ Hs). destruct Hs as [[] Hd]. unfold file_close, mbind, D_bind, read at 1.
  rewrite ru_open0. unfold file_flush, mbind, D_bind, read, result, assertOpen. rewrite ru_open0, Hd. cbn. by split.
Qed.

Lemma honest_publish E startedAt : triple fetched (publish m startedAt) (fun _ st _ _ => final st) E.
Proof.
  unfold publish. eapply triple_bind; [apply triple_next|]. intros now.
  eapply triple_seq with (R := fetched).
  { apply triple_record_change. intros st r f [[] ?]. split; [by split|done]. }
  eapply triple_seq with (R := fetched).
  { apply honest_put. intros st st' r f [Hr Hd]. split; [apply Hr|]. intros Hp _ _. destruct Hr. split; [|done]. by split; rewrite ?Hp. }
  eapply triple_seq; [apply triple_report|]. eapply triple_seq; [apply honest_call|].
  eapply triple_bind; [by apply (triple_read_view _ _ _ (fun _ _ f => f))|]. intros file.
  eapply triple_bind; [apply (triple_result_ok _ _ _ tt)|].
  { intros st r f [[Hr _] ->]. unfold assertOpen. by rewrite (ru_open _ _ _ _ Hr). }
  intros []. destruct (na_valid _ _ Hnames) as [h Hh]. eapply triple_bind; [apply (triple_result_ok _ _ _ h)|].
  { intros st r f [[[Hr _] ->] _]. by rewrite (toBytes_content _ (ru_size _ _ _ _ Hr)), (ru_facts _ _ _ _ Hr). }
  intros h'. eapply triple_seq with (R := fetched).
  { unfold run_validateStyles. destruct validate_styles as [g|] eqn:Eg; [|apply triple_ret; by intros st r f [[[? _] _] _]].
    eapply triple_bind; [apply (triple_next_value _ _ _ (fun e => e = None))|].
    { intros n. by apply hs_styles. }
    intros e. apply triple_fact. intros ->. apply triple_ret. by intros st r f [[[? _] _] _]. }
  eapply triple_seq; [apply honest_close|].
  eapply triple_seq with (R := fun st r f => pr_id r = packageId m /\ pr_manifest r = m).
  { eapply triple_seq; [apply honest_call|]. intros s (Hi & Hma & Hp). unfold mbind, D_bind, read, result, finalize, assertPackageId.
    rewrite (manifest_id m Hm). cbn [mbind outcome_bind]. by rewrite Hp. }
  eapply triple_bind; [apply triple_next|]. intros at'. eapply triple_bind; [apply triple_next|]. intros now'.
  eapply triple_seq with (R := fun st r f => (pr_id r = packageId m /\ pr_manifest r = m) /\ pr_status r = Ready).
  { by apply triple_record_change. }
  apply (triple_seq _ _ (fun st _ _ => final st)); [|eapply triple_seq; [apply triple_notify|apply triple_report]].
  apply honest_put. intros st st' r f [[Hi Hma] Hs]. split; [done|]. intros _ _ Hg. exists r. by rewrite <-Hi.
Qed.

(** ** Around them *)

(** A storage a download can start from; [strict] when nothing has been received. *)
Definition stored (strict : bool) (st : PackageStorage) : Prop :=
  (forall r, records_get (packageId m) (st_records st) = Some r -> 0 <= verifiedPrefixBytes r /\ (strict = true -> started_over r)) /\
  (forall bytes, st_partial st !! packageId m = Some bytes -> Forall is_byte bytes /\ (strict = false -> bytes = old)).

Definition startable (strict : bool) : pred := fun st r f =>
  pr_id r = packageId m /\ pr_manifest r = m /\ 0 <= verifiedPrefixBytes r /\ (strict = true -> started_over r) /\
  (forall bytes, st_partial st !! packageId m = Some bytes -> Forall is_byte bytes /\ (strict = false -> bytes = old)).

(** A record of this package that starts over is written. *)
Definition restarting : pred := fun st r f =>
  pr_id r = packageId m /\ pr_manifest r = m /\ started_over r /\
  (forall bytes, st_partial st !! packageId m = Some bytes -> Forall is_byte bytes).

Lemma restarting_put {B} E g (k : D B) Q :
  (forall r, pr_id (g r) = pr_id r /\ pr_manifest (g r) = pr_manifest r /\ (started_over r -> started_over (g r))) ->
  triple (fun st r f => stored true st) k Q E -> triple restarting (_ ← record_change g; _ ← put_record; k) Q E.
Proof.
  intros Hg Hk. eapply triple_seq with (R := restarting).
  { apply triple_record_change. intros st r f (Hi & Hma & Hz & Hp). destruct (Hg r) as (Ei & Em & Es).
    split; [congruence|]. split; [congruence|]. split; [by apply Es|done]. }
  eapply triple_seq; [|exact Hk]. apply honest_put. intros st st' r f (Hi & Hma & Hz & Hp). split; [done|].
  intros Ep _ Hg'. rewrite <-Ep in Hp. split. 2: { intros bytes Hb. split; [by apply Hp|done]. }
  intros r0. rewrite <-Hi, Hg'. intros [= <-]. split; [|done]. unfold started_over in Hz. lia.
Qed.

Lemma honest_failed startedAt e : triple zeroed (failed m startedAt e) (fun _ st _ _ => stored true st) (fun st _ _ => stored true st).
Proof.
  unfold failed. eapply triple_bind with (R := fun _ => zeroed).
  { eapply triple_weaken; [apply (triple_attempt (fun st _ _ => stored true st) zeroed _ (fun _ => zeroed) zeroed)|done|by intros [|]|done].
    eapply triple_weaken; [apply running_flush|done|by intros ???? [? _]|by intros ???]. }
  intros _. eapply triple_bind with (R := fun _ => restarting).
  { eapply triple_weaken; [apply (triple_attempt (fun st _ _ => stored true st) zeroed _ (fun _ => restarting) restarting)|done|by intros [|]|done].
    intros s Hs. unfold file_close, mbind, D_bind, read at 1. rewrite (ru_open _ _ _ _ Hs).
    pose proof (running_flush restarting _ s Hs) as Hf.
    destruct (file_flush (packageId m) s) as [[[]|e'] s']; [|done]. destruct Hf as [[] _]. cbn. by destruct ru_facts0. }
  intros _. eapply triple_bind; [apply triple_next|]. intros now.
  destruct (isAbort e); (apply restarting_put; [done|]; eapply triple_seq; [apply triple_report|]).
  - apply (triple_read _ (fun st _ _ => stored true st)).
  - by apply triple_raise.
Qed.

Lemma honest_existing E strict name :
  triple (fun st _ _ => stored strict st) (existing_record m name) (fun _ => startable strict) E.
Proof.
  unfold existing_record. eapply triple_seq; [apply honest_call|].
  eapply triple_bind; [by apply (triple_read_view _ _ _ (fun st _ _ => storage_get (packageId m) st))|]. intros existing.
  set (counted := fun r => 0 <= verifiedPrefixBytes r /\ (strict = true -> started_over r)).
  set (good := fun st => forall bytes, st_partial st !! packageId m = Some bytes -> Forall is_byte bytes /\ (strict = false -> bytes = old)).
  assert (Hbase : forall n now, counted (baseRecord m n now)) by (intros; split; [cbn; lia|done]).
  eapply triple_bind with (R := fun record st r f => good st /\ pr_id record = packageId m /\ counted record).
  { destruct existing as [record|].
    - apply triple_ret. intros st r f ((Hr & Hp) & E'). symmetry in E'. split; [done|]. split; [by eapply records_get_id|by apply Hr].
    - eapply triple_bind; [apply triple_next|]. intros now. apply triple_ret. intros st r f ((_ & Hp) & _). split; [done|].
      split; [done|apply Hbase]. }
  intros record. eapply triple_seq with (R := fun st r f => good st /\ pr_id r = packageId m /\ counted r).
  { apply triple_change. intros s Hs. exact Hs. }
  eapply triple_seq with (R := fun st r f => good st /\ pr_id r = packageId m /\ counted r).
  - destruct (negb _); [|by apply triple_ret].
    eapply triple_seq with (R := fun st r f => good st).
    { eapply triple_seq; [apply honest_call|]. intros s [Hg _].
      change (good (storage_delete (packageId m) (dl_storage s))). intros bytes. cbn [storage_delete st_partial]. by rewrite lookup_delete_eq. }
    eapply triple_seq; [apply triple_notify|]. eapply triple_bind; [apply triple_next|]. intros now.
    apply triple_change. intros s Hg. split; [exact Hg|]. split; [done|apply Hbase].
  - apply triple_record_change. intros st r f (Hg & Hi & Hv & Hz). split; [done|]. split; [done|]. split; [done|]. by split.
Qed.

Lemma honest_check_ready E strict name :
  triple (startable strict) (check_ready m name) (fun ready st r f => if ready : bool then final st else startable strict st r f) E.
Proof.
  unfold check_ready. eapply triple_bind; [apply triple_read|]. intros record.
  destruct (negb (looks_ready record)); [by apply triple_ret|].
  eapply triple_bind with (R := fun _ => startable strict).
  { eapply triple_weaken; [apply (triple_attempt E (startable strict) _ (fun _ => startable strict) (startable strict))|done|by intros [|]|done].
    eapply triple_seq; [apply honest_call|]. eapply triple_bind; [apply triple_read|]. intros st0.
    eapply triple_bind; [by apply triple_result|]. intros file. eapply triple_seq; [apply honest_call|].
    eapply triple_bind; [apply triple_result; by intros ??? [? _]|]. intros h.
    eapply triple_weaken; [apply honest_call|by intros ??? [[? _] _]|done|done]. }
  intros [[]|e].
  - eapply triple_bind with (R := fun finished st r f => finished = inl tt /\ final st).
    { eapply triple_weaken with (E' := E) (Q' := fun x : unit + thrown => match x with inl _ => (fun st _ _ => final st) : pred | inr _ => fun _ _ _ => False end);
        [apply (triple_attempt E (startable strict) _ (fun _ st _ _ => final st) (fun _ _ _ => False))| |by intros [[]|]|intros ??? Hx; exact Hx]; [|done].
      eapply triple_seq with (R := startable strict).
      { unfold run_validateStyles. destruct validate_styles as [g|] eqn:Eg; [|by apply triple_ret].
        eapply triple_bind; [apply (triple_next_value _ _ _ (fun e => e = None)); intros n; by apply hs_styles|].
        intros e. apply triple_fact. intros ->. by apply triple_ret. }
      eapply triple_bind; [apply triple_next|]. intros now.
      eapply triple_seq with (R := fun st r f => startable strict st r f /\ pr_status r = Ready).
      { apply triple_record_change. intros st r f (Hi & Hma & Hv & Hz & Hp). split; [|done]. split; [done|]. split; [done|]. split; [done|]. by split. }
      eapply triple_seq with (R := fun st _ _ => final st).
      { apply honest_put. intros st st' r f [(Hi & Hma & _) Hs]. split; [done|]. intros _ _ Hg. exists r. by rewrite <-Hi. }
      destruct (negb _); [apply triple_notify|by apply triple_ret]. }
    intros finished s [-> Hs]. exact Hs.
  - eapply triple_seq with (R := startable strict).
    { eapply triple_seq; [apply honest_call|]. intros s (Hi & Hma & Hv & Hz & Hp).
      change (startable strict (storage_delete (packageId m) (dl_storage s)) (dl_record s) (dl_file s)).
      split; [done|]. split; [done|]. split; [done|]. split; [done|].
      intros bytes. cbn [storage_delete st_partial]. by rewrite lookup_delete_eq. }
    eapply triple_seq; [apply triple_notify|]. eapply triple_bind; [apply triple_next|]. intros now.
    eapply triple_seq with (R := startable strict); [|by apply triple_ret].
    apply triple_change. intros s (_ & _ & _ & _ & Hp). split; [done|]. split; [done|]. split; [cbn; lia|]. split; [done|exact Hp].
Qed.

Lemma honest_open_partial E strict now :
  triple (startable strict) (open_partial m now)
    (fun start st r f => running (fun _ => resumed start) st r f /\
       (0 <= start <= ar_byteLength m /\ (strict = true -> start = 0))) E.
Proof.
  pose proof names_length as Hlen. unfold open_partial.
  eapply triple_seq with (R := startable strict).
  { apply triple_record_change. intros st r f (Hi & Hma & Hv & Hz & Hp). split; [done|]. split; [done|]. split; [done|]. by split. }
  eapply triple_seq with (R := startable strict).
  { apply honest_put. intros st st' r f (Hi & Hma & Hv & Hz & Hp). split; [done|]. intros Ep _ _. unfold startable. by rewrite Ep. }
  eapply triple_seq; [apply honest_call|].
  eapply triple_bind; [by apply (triple_read_view _ _ _ (fun st _ _ => st))|]. intros st0.
  eapply triple_bind; [apply (triple_result_ok _ _ _ (new_BlobArchiveFile (default [] (st_partial st0 !! packageId m))))|].
  { intros _ _ _ _. unfold openPartial, assertPackageId. by rewrite (manifest_id m Hm). }
  intros file. set (counts := fun r => 0 <= verifiedPrefixBytes r /\ (strict = true -> verifiedPrefixBytes r = 0)).
  eapply triple_seq with (R := fun st r f => running (fun r bytes => counts r /\ (strict = false -> bytes = old \/ bytes = [])) st r f /\ f = file).
  { apply triple_change. intros s [[(Hi & Hma & Hv & Hz & Hp) ->] ->]. split; [|done].
    split; cbn [dl_storage dl_record dl_file set_file]; rewrite ?new_file_content; try done.
    - destruct (st_partial (dl_storage s) !! packageId m) as [b|]; [by apply Hp|by constructor].
    - intros bytes Hb. by apply Hp.
    - intros _. by destruct (st_partial (dl_storage s) !! packageId m).
    - split; [split; [done|intros Hst; by apply Hz]|]. intros Hst.
      destruct (st_partial (dl_storage s) !! packageId m) as [b|]; [left; by apply Hp|by right]. }
  eapply triple_seq; [apply honest_call|].
  eapply triple_bind; [apply (triple_result_ok _ _ _ (bf_currentSize file))|].
  { intros st r f [Hr ->]. unfold blob_size, assertOpen. by rewrite (ru_open _ _ _ _ Hr). }
  intros existing. eapply triple_bind; [by apply (triple_read_view _ _ _ (fun _ r _ => verifiedPrefixBytes r))|]. intros vouched.
  set (start := Z.min (Z.min vouched existing) (ar_byteLength m)).
  eapply triple_weaken with (P' := fun st r f => running (fun _ bytes => Z.of_nat (length bytes) = existing /\ (strict = false -> bytes = old \/ bytes = [])) st r f /\
    (0 <= start <= ar_byteLength m /\ (strict = true -> start = 0))); [apply triple_fact; intros Hstart| |intros ???? Hx; exact Hx|intros ??? Hx; exact Hx].
  2: { intros st r f [[[Hr ->] ->] ->]. pose proof (ru_size _ _ _ _ Hr) as Hsize. destruct (ru_facts _ _ _ _ Hr) as [[Hv Hz] _].
       split; [|unfold start; split; [lia|intros Hst; specialize (Hz Hst); lia]].
       revert Hr. destruct 1 as [? ? ? ? ? ? ? [_ Hold]]. split; try done. }
  assert (Hresumed : forall before, Z.of_nat (length before) = existing -> (strict = false -> before = old \/ before = []) ->
    start <= existing -> resumed start (take (Z.to_nat start) before)).
  { intros before Hb Hold Hle. split; [rewrite length_take; lia|]. destruct strict; [by rewrite (proj2 Hstart)|].
    destruct Hold as [->| ->]; [done|done|]. cbn in Hb. by replace start with 0 by lia. }
  apply (triple_seq _ _ (running (fun _ => resumed start))).
  - assert (start <= existing) by (unfold start; lia). destruct (negb (existing =? start) || negb (start =? vouched)) eqn:Eb.
    + eapply triple_seq; [apply running_truncate; lia|]. apply running_record_change. intros r bytes. split; [done|]. split; [done|].
      intros (before & [Hb Hold] & ->). by apply Hresumed.
    + apply orb_false_iff in Eb as [Eb%negb_false_iff%Z.eqb_eq _]. apply triple_ret. intros st r f. apply running_mono.
      intros _ bytes _ [Hb Hold]. rewrite <-(take_ge bytes (Z.to_nat start)) by lia. by apply Hresumed.
  - eapply triple_seq; [apply (triple_change _ _ (running (fun _ => resumed start))); by intros s []|].
    by apply triple_ret.
Qed.

(** How a download ends: ready, with a collision in hand, or, when it resumed, started over. *)
Definition ended (strict : bool) (st : PackageStorage) : Prop :=
  final st \/ (strict = false /\ (collision old archive \/ stored true st)).

Lemma honest_publish_or_collision startedAt start E :
  triple (fun st r f => running (fun _ bytes => length bytes = length archive /\ FIPS.hash_hex bytes = FIPS.hash_hex archive /\
              joined start bytes) st r f /\ bf_dirty f = false) (publish m startedAt)
    (fun _ st _ _ => final st \/ (start <> 0 /\ collision old archive)) (fun st r f => (start <> 0 /\ collision old archive) \/ E st r f).
Proof.
  intros s [Hr Hd]. destruct (decide (content (dl_file s) = archive)) as [Ea|Hne].
  - assert (Hf : view_of fetched s) by (split; [destruct Hr; by split|done]).
    pose proof (honest_publish (fun _ _ _ => False) startedAt s Hf) as Hp.
    destruct (publish m startedAt s) as [[[]|e] s']; [by left|done].
  - destruct (ru_facts _ _ _ _ Hr) as (Hl & Hh & Hj).
    assert (start <> 0 /\ collision old archive).
    { split; [intros ->; apply Hne; by rewrite Hj, drop_0|]. exists (Z.to_nat start). by rewrite <-Hj. }
    destruct (publish m startedAt s) as [[[]|e] s']; [by right|by left].
Qed.

Lemma honest_attempt startedAt start strict : 0 <= start <= ar_byteLength m -> (strict = true -> start = 0) ->
  triple (running (fun _ => resumed start)) (hash ← transfer m startedAt start; finish m startedAt hash)
    (fun _ st _ _ => final st \/ (strict = false /\ collision old archive))
    (fun st r f => strict = false /\ (collision old archive \/ zeroed st r f)).
Proof.
  intros Hstart Hst. eapply triple_bind; [by apply honest_transfer|]. intros hash. unfold finish.
  assert (Hstrict : start <> 0 -> strict = false) by (intros Hne; destruct strict; [by rewrite Hst in Hne|done]).
  eapply triple_seq.
  - eapply triple_weaken; [apply (honest_check_archive start)|done|intros ???? Hx; exact Hx|].
    intros st r f [Hz Hne]. split; [by apply Hstrict|by right].
  - eapply triple_weaken; [apply (honest_publish_or_collision startedAt start (fun _ _ _ => False))|done| |].
    + intros _ st r f [?|[Hne Hc]]; [by left|right; split; [by apply Hstrict|done]].
    + intros st r f [[Hne Hc]|[]]. split; [by apply Hstrict|by left].
Qed.

Lemma honest_download_of strict name :
  triple (fun st _ _ => stored strict st) (download_of m name) (fun _ st _ _ => ended strict st) (fun st _ _ => ended strict st).
Proof.
  unfold download_of. eapply triple_seq; [apply honest_existing|]. eapply triple_bind; [apply triple_next|]. intros now.
  eapply triple_bind; [apply honest_check_ready|]. intros [|].
  { eapply triple_weaken; [apply (triple_read (fun st _ _ => ended strict st) (fun st _ _ => ended strict st))|by left|done|done]. }
  eapply triple_bind; [apply honest_open_partial|]. intros start. apply triple_fact. intros [Hstart Hst].
  eapply triple_bind; [apply triple_attempt; by apply (honest_attempt now start strict)|]. intros [[]|e].
  - intros s [Hs|[Hs Hc]]; [by left|right; split; [done|by left]].
  - intros s [Hs [Hc|Hz]].
    + destruct (failed m now e s) as [[r|e'] s']; right; (split; [done|by left]).
    + pose proof (honest_failed now e s Hz) as Hf. destruct (failed m now e s) as [[r|e'] s']; right; (split; [done|by right]).
Qed.

Lemma honest_download strict name st : stored strict st -> ended strict (dl_storage (downloadOfflinePackage m name st).2).
Proof.
  intros Hs. unfold downloadOfflinePackage, downloadOfflinePackageImpl, validateOfflineMapPackageManifest. rewrite Hm.
  pose proof (honest_download_of strict name (download_start m st) Hs) as Hrun. unfold result, mbind, D_bind.
  by destruct (download_of m name (download_start m st)) as [[r|e] s'].
Qed.
End honest.

(** What the storage may have of a package before a download: counts that are no less
    than zero, and bytes. *)
Definition any_stored `{ArchiveCodecs} (m : OfflineMapPackageManifest) (st : PackageStorage) : Prop :=
  (forall r, records_get (packageId m) (st_records st) = Some r -> 0 <= verifiedPrefixBytes r) /\
  Forall is_byte (kept_bytes (packageId m) st).

(** C12: with an honest server two downloads are enough.  Whatever earlier attempts have
    left of the archive, right or wrong, the first download ends with the package ready,
    or throws the wrong bytes away and the second one ends with it ready; only bytes that
    change the archive and not its digest could deceive it. *)
Theorem an_honest_server_is_enough `{PackageDates} `{ArchiveCodecs} (W1 W2 : DownloadWorld) m archive name1 name2 st :
  offlineMapPackageManifestSchema m = true -> names_archive m archive ->
  @HonestServer m archive W1 -> @HonestServer m archive W2 ->
  any_stored m st ->
  let st1 := dl_storage (@downloadOfflinePackage _ _ W1 m name1 st).2 in
  let st2 := dl_storage (@downloadOfflinePackage _ _ W2 m name2 st1).2 in
  final m st1 \/ final m st2 \/ collision (kept_bytes (packageId m) st) archive.
Proof.
  intros Hm Hn Hw1 Hw2 [Hr Hb] st1 st2. set (old := kept_bytes (packageId m) st).
  assert (stored m old false st) as Hs.
  { split; [intros r Hget; split; [by apply Hr|done]|]. intros bytes E. unfold old, kept_bytes in *. by rewrite E in *. }
  destruct (@honest_download _ _ m Hm archive Hn W1 Hw1 old false name1 st Hs) as [?|[_ [?|Hs1]]]; [by left|by right; right|].
  destruct (@honest_download _ _ m Hm archive Hn W2 Hw2 old true name2 st1 Hs1) as [?|[? _]]; [by right; left|done].
Qed.

(** ** A wrong prefix *)

Lemma sample_world_honest : @HonestServer sample_manifest good_archive (sample_world false).
Proof.
  constructor; try done.
  - intros n. exists (sample_response false None), [good_archive]. do 4 (split; [reflexivity|]). apply app_nil_r.
  - intros n start Hstart. exists (sample_response false (Some (start, ar_etag sample_manifest))), [drop (Z.to_nat start) good_archive].
    do 3 (split; [reflexivity|]). split; [|split; [reflexivity|apply app_nil_r]].
    assert (Hl : ar_byteLength sample_manifest = 152) by (vm_compute; reflexivity). rewrite Hl in Hstart.
    assert (Hall : forallb (fun k => bool_decide (parseRangeStart (rs_contentRange (sample_response false (Some (Z.of_nat k, "")))) = Some (Z.of_nat k)))
      (seq 1 151) = true) by (vm_compute; reflexivity).
    rewrite forallb_forall in Hall. specialize (Hall (Z.to_nat start)). rewrite bool_decide_eq_true, Z2Nat.id in Hall by lia.
    apply Hall, in_seq. lia.
Qed.

Lemma sample_names : names_archive sample_manifest good_archive.
Proof.
  split; [apply good_archive_bytes|reflexivity|reflexivity|].
  destruct (archive_valid sample_manifest good_archive) as [h|] eqn:E; [by exists h|].
  assert (match archive_valid sample_manifest good_archive with Ok _ => true | Throw _ => false end = true) as Hv by (vm_compute; reflexivity).
  by rewrite E in Hv.
Qed.

(** 50 bytes that are not those of the archive. *)
Definition spoiled_storage : PackageStorage := {|
  st_records := [set_counts 50 50 (baseRecord sample_manifest "area" 0)];
  st_partial := <[sample_id := replicate 50 7]> ∅;
  st_ready := ∅;
|}.

Lemma sample_valid : offlineMapPackageManifestSchema sample_manifest = true.
Proof. vm_compute. reflexivity. Qed.

Lemma spoiled_stored : any_stored sample_manifest spoiled_storage.
Proof.
  split.
  - intros r Hr. unfold spoiled_storage, records_get, st_records, List.find in Hr.
    destruct (_ =? _)%string in Hr; [|discriminate]. injection Hr as <-. cbn. lia.
  - unfold spoiled_storage, kept_bytes, st_partial. change (packageId sample_manifest) with sample_id.
    rewrite lookup_insert_eq. apply Forall_replicate. unfold is_byte. lia.
Qed.

Lemma an_honest_server_is_enough_witness :
  let st1 := dl_storage (@downloadOfflinePackage _ _ (sample_world false) sample_manifest None spoiled_storage).2 in
  let st2 := dl_storage (@downloadOfflinePackage _ _ (sample_world false) sample_manifest None st1).2 in
  map (fun r => (pr_status r, verifiedPrefixBytes r)) (st_records st1) = [(Failed, 0)] /\
  map pr_status (st_records st2) = [Ready] /\
  (final sample_manifest st1 \/ final sample_manifest st2 \/
   collision (kept_bytes sample_id spoiled_storage) good_archive).
Proof.
  intros st1 st2. split; [vm_compute; reflexivity|]. split; [vm_compute; reflexivity|].
  exact (an_honest_server_is_enough (sample_world false) (sample_world false) sample_manifest good_archive None None spoiled_storage
    sample_valid sample_names sample_world_honest sample_world_honest spoiled_stored).
Defined.
