(* ===== verification/Request.v ===== *)
(** * The area a traveller asks for

    packages/core/src/offline/offlinePackage.ts, the canonical form of a request: the box
    on a grid of millionths of a degree, integer zooms, a key for what is to be generated.
    The server generates from the canonical form, and the page compares the archive with
    it.  [JSON.stringify] is a parameter ([JsonText]). *)

From S2P Require Import Prelude Text Doubles TileId Pmtiles Archive Manifest.
From Stdlib Require Import QArith_base Qround Qabs Qreduction Lqa.
Local Open Scope Z_scope.

(** [JSON.stringify], and the bytes of a text in UTF-8. *)
Class JsonText := { json_stringify : json -> string; utf8_bytes : string -> list Z }.

Record OfflinePackageRequest := {
  rq_bbox : Bounds;
  rq_minZoom : number;
  rq_maxZoom : number;
  rq_provider : string;
}.

Record OfflinePackageSourceDescriptor := {
  src_datasetId : string;
  src_datasetVersion : string;
  src_sourceMaxZoom : number;
  src_sourceBounds : Bounds;
  src_tileSchema : string;
  src_glyphsVersion : string;
  src_packageAlgorithmVersion : string;
  src_attribution : list string;
}.

Record CanonicalOfflinePackageRequest := {
  cn_request : OfflinePackageRequest;
  cn_bbox : Bounds;
  cn_minZoom : Z;
  cn_maxZoom : Z;
  cn_source : OfflinePackageSourceDescriptor;
  cn_requestKey : string;
}.

Definition roundCoordinate (value : number) : number :=
  num_div (num_round (num_mul value (num_of_Z 1000000))) (num_of_Z 1000000).

Definition normalizeLongitude (value : number) : number :=
  if num_eq value (num_of_Z 180) || num_eq value (num_of_Z (-180)) then value
  else num_sub (num_rem (num_add (num_rem (num_add value (num_of_Z 180)) (num_of_Z 360)) (num_of_Z 360)) (num_of_Z 360))
         (num_of_Z 180).

Definition normalizeZoom (value : number) (name : string) : outcome Z :=
  match value with
  | Fin q =>
      let normalized := q_round q in
      if (normalized <? 0) || (OFFLINE_PACKAGE_MAX_ZOOM <? normalized)
      then Throw (name ++ " must be between 0 and " ++ show_Z OFFLINE_PACKAGE_MAX_ZOOM)%string
      else Ok normalized
  | _ => Throw (name ++ " must be a finite zoom")%string
  end.

(** The check of the descriptor answers the zoom it finds to be an integer. *)
Definition assertSourceDescriptor (source : OfflinePackageSourceDescriptor) : outcome Z :=
  let bounds := src_sourceBounds source in
  reject (negb (src_datasetId source =? "openmapx")%string || negb (src_tileSchema source =? "openmaptiles")%string)
    "unsupported package source" (
  reject ((src_datasetVersion source =? "")%string || (src_glyphsVersion source =? "")%string
          || (src_packageAlgorithmVersion source =? "")%string) "source version metadata is required" (
  reject (bool_decide (src_attribution source = [])
          || existsb (fun value => (trim value =? "")%string || (2048 <? str_length value)) (src_attribution source))
    "source attribution is invalid" (
  reject (negb (num_is_integer (src_sourceMaxZoom source)) || num_lt (src_sourceMaxZoom source) (num_of_Z 0)
          || num_lt (num_of_Z OFFLINE_PACKAGE_MAX_ZOOM) (src_sourceMaxZoom source)) "source max zoom is invalid" (
  reject (negb (forallb num_is_finite [west bounds; south bounds; east bounds; north bounds])
          || num_lt (west bounds) (num_of_Z (-180)) || num_lt (num_of_Z 180) (east bounds)
          || num_lt (south bounds) (num_of_Z (-90)) || num_lt (num_of_Z 90) (north bounds)
          || num_le (east bounds) (west bounds) || num_le (north bounds) (south bounds)) "source bounds are invalid" (
  match src_sourceMaxZoom source with Fin q => Ok (Qfloor q) | _ => Throw "source max zoom is invalid" end))))).

(** [Math.max(-WEB_MERCATOR_MAX_LATITUDE, Math.min(WEB_MERCATOR_MAX_LATITUDE, value))] *)
Definition clamp_latitude (value : number) : number :=
  num_max (num_neg WEB_MERCATOR_MAX_LATITUDE) (num_min WEB_MERCATOR_MAX_LATITUDE value).

Definition canonicalBbox (bbox : Bounds) : outcome Bounds :=
  if negb (forallb num_is_finite [west bbox; south bbox; east bbox; north bbox]) then Throw "bbox coordinate must be finite"
  else
    let normalized := {|
      west := roundCoordinate (normalizeLongitude (west bbox));
      south := roundCoordinate (clamp_latitude (south bbox));
      east := roundCoordinate (normalizeLongitude (east bbox));
      north := roundCoordinate (clamp_latitude (north bbox));
    |} in
    if num_le (east normalized) (west normalized)
    then Throw "dateline-crossing bbox is not supported; east must be greater than west"
    else if num_le (north normalized) (south normalized) then Throw "north must be greater than south"
    else Ok normalized.

(** [offlinePackageRequestSchema], [parseOfflinePackageRequest] *)
Definition offlinePackageRequestSchema (r : OfflinePackageRequest) : bool :=
  bboxSchema (rq_bbox r) && num_is_finite (rq_minZoom r) && num_is_finite (rq_maxZoom r) && (rq_provider r =? "openmapx")%string.

Definition parseOfflinePackageRequest (r : OfflinePackageRequest) : outcome OfflinePackageRequest :=
  if offlinePackageRequestSchema r then Ok r else Throw "invalid offline package request".

(** ** The key *)

Definition bbox_json (b : Bounds) : json :=
  JObj [("west", JNum (west b)); ("south", JNum (south b)); ("east", JNum (east b)); ("north", JNum (north b))]%string.

Definition request_key_json (c : CanonicalOfflinePackageRequest) : json :=
  JObj [("version", JNum (num_of_Z 3));
        ("provider", JStr (rq_provider (cn_request c)));
        ("source", JObj [
          ("datasetId", JStr (src_datasetId (cn_source c)));
          ("datasetVersion", JStr (src_datasetVersion (cn_source c)));
          ("tileSchema", JStr (src_tileSchema (cn_source c)));
          ("glyphsVersion", JStr (src_glyphsVersion (cn_source c)));
          ("packageAlgorithmVersion", JStr (src_packageAlgorithmVersion (cn_source c)));
          ("attribution", JArr (map JStr (src_attribution (cn_source c))))]);
        ("effective", JObj [
          ("bbox", bbox_json (cn_bbox c));
          ("minZoom", JNum (num_of_Z (cn_minZoom c)));
          ("maxZoom", JNum (num_of_Z (cn_maxZoom c)))])]%string.

Section request.
Context `{JsonText}.

Definition offlinePackageRequestKey (c : CanonicalOfflinePackageRequest) : string := json_stringify (request_key_json c).

Definition canonicalizeOfflinePackageRequest (request : OfflinePackageRequest) (source : OfflinePackageSourceDescriptor)
    : outcome CanonicalOfflinePackageRequest :=
  sourceMaxZoom ← assertSourceDescriptor source;
  if negb (rq_provider request =? "openmapx")%string then Throw "unsupported provider"
  else
    bbox ← canonicalBbox (rq_bbox request);
    minZoom ← normalizeZoom (rq_minZoom request) "minZoom";
    maxZoom ← normalizeZoom (rq_maxZoom request) "maxZoom";
    if maxZoom <? minZoom then Throw "maxZoom must be greater than or equal to minZoom"
    else if sourceMaxZoom <? minZoom then Throw "minZoom exceeds source max zoom"
    else
      sourceBounds ← canonicalBbox (src_sourceBounds source);
      if num_lt (west bbox) (west sourceBounds) || num_lt (south bbox) (south sourceBounds)
         || num_lt (east sourceBounds) (east bbox) || num_lt (north sourceBounds) (north bbox)
      then Throw "bbox is outside source bounds"
      else if num_lt OFFLINE_PACKAGE_MAX_AREA_SQUARE_DEGREES
                (num_mul (num_sub (east bbox) (west bbox)) (num_sub (north bbox) (south bbox)))
      then Throw "bbox exceeds the offline package area cap"
      else
        let canonical := {|
          cn_request := {| rq_bbox := bbox; rq_minZoom := num_of_Z minZoom; rq_maxZoom := num_of_Z maxZoom;
                           rq_provider := rq_provider request |};
          cn_bbox := bbox; cn_minZoom := minZoom; cn_maxZoom := Z.min maxZoom sourceMaxZoom;
          cn_source := source; cn_requestKey := "" |} in
        Ok {| cn_request := cn_request canonical; cn_bbox := cn_bbox canonical; cn_minZoom := cn_minZoom canonical;
              cn_maxZoom := cn_maxZoom canonical; cn_source := source;
              cn_requestKey := offlinePackageRequestKey canonical |}.
End request.

(** ** Millionths of a degree *)

Definition micro (k : Z) : number := num_div (num_of_Z k) (num_of_Z 1000000).

Lemma q_round_near t k : (Qabs (t - inject_Z k) < 1 # 2)%Q -> q_round t = k.
Proof.
  intros Ht. apply Qabs_Qlt_condition in Ht as [H1 H2]. unfold q_round.
  assert (inject_Z k <= t + (1 # 2))%Q as Hlo by lra. assert (t + (1 # 2) < inject_Z (k + 1))%Q as Hhi.
  { rewrite inject_Z_plus. change (inject_Z 1) with 1%Q. lra. }
  apply Z.le_antisymm.
  - apply Z.lt_succ_r. rewrite Zlt_Qlt. unfold Z.succ. eapply Qle_lt_trans; [apply Qfloor_le|exact Hhi].
  - rewrite <-(Qfloor_Z k). by apply Qfloor_resp_le.
Qed.

(** Three tenths of a step are rounded away. *)
Lemma roundCoordinate_near q k : Z.abs k <= 2 ^ 28 -> (Qabs (q * inject_Z 1000000 - inject_Z k) <= 3 # 10)%Q ->
  roundCoordinate (Fin q) = micro k.
Proof.
  intros Hk Hq. unfold roundCoordinate, micro. f_equal. unfold num_mul, num_of_Z.
  destruct (round_error (q * inject_Z 1000000) 29) as (t & -> & _ & Ht); [lia| |].
  - assert (Qabs (inject_Z k) <= inject_Z (2 ^ 28))%Q as Hk'.
    { rewrite Qabs_Qle_condition, <-inject_Z_opp, <-!Zle_Qle. lia. }
    apply Qabs_Qle_condition in Hq as [? ?], Hk' as [? ?]. apply Qabs_Qle_condition. rewrite pow2_Z by lia.
    change (inject_Z (2 ^ 29)) with (inject_Z (2 ^ 28 + 2 ^ 28)). rewrite inject_Z_plus.
    assert (3 # 10 <= inject_Z (2 ^ 28))%Q by (unfold Qle; cbn; lia). lra.
  - cbn [num_round]. unfold num_of_Z. do 2 f_equal. apply q_round_near.
    assert (pow2 (29 - 52) <= 1 # 100)%Q by (vm_compute; discriminate).
    apply Qabs_Qle_condition in Hq as [? ?], Ht as [? ?]. apply Qabs_Qlt_condition. lra.
Qed.

(** The double of a grid point is within a fraction of a step of it. *)
Lemma micro_value k : Z.abs k <= 2 ^ 28 ->
  exists t, micro k = Fin t /\ (Qabs (t * inject_Z 1000000 - inject_Z k) <= 1 # 1000)%Q.
Proof.
  intros Hk. unfold micro, num_div, num_of_Z. cbn [Qnum inject_Z Z.eqb].
  destruct (round_error (inject_Z k / inject_Z 1000000) 9) as (t & -> & _ & Ht); [lia| |].
  - assert (Qabs (inject_Z k) <= inject_Z (2 ^ 28))%Q as Hk'.
    { rewrite Qabs_Qle_condition, <-inject_Z_opp, <-!Zle_Qle. lia. }
    apply Qabs_Qle_condition in Hk' as [H1 H2]. apply Qabs_Qle_condition. rewrite pow2_Z by lia.
    split; [apply Qle_shift_div_l|apply Qle_shift_div_r]; try done; unfold Qle in *; cbn in *; lia.
  - exists t. split; [done|]. apply Qabs_Qle_condition in Ht as [H1 H2]. change (pow2 (9 - 52)) with (1 # 8796093022208)%Q in *.
    set (x := (inject_Z k / inject_Z 1000000)%Q) in *.
    assert (inject_Z k == x * inject_Z 1000000)%Q as -> by (unfold x; field). change (inject_Z 1000000) with (1000000#1)%Q.
    apply Qabs_Qle_condition. lra.
Qed.

Lemma round_micro k : Z.abs k <= 2 ^ 28 -> roundCoordinate (micro k) = micro k.
Proof.
  intros Hk. destruct (micro_value k Hk) as (t & Et & Ht). rewrite Et at 1. apply roundCoordinate_near; [done|].
  eapply Qle_trans; [exact Ht|]. by vm_compute.
Qed.

(** Equal rationals have one exponent and one rounding. *)
Lemma q_log2_equal p q : (0 < p)%Q -> (p == q)%Q -> q_log2 p = q_log2 q.
Proof.
  intros Hp E. assert (0 < q)%Q as Hq by lra. destruct (q_log2_spec p Hp) as [L1 U1], (q_log2_spec q Hq) as [L2 U2].
  assert (q_log2 p < q_log2 q + 1) by (apply pow2_lt_inv; lra).
  assert (q_log2 q < q_log2 p + 1) by (apply pow2_lt_inv; lra). lia.
Qed.

Lemma round_double_equal p q : (p == q)%Q -> round_double p = round_double q.
Proof.
  intros E. rewrite !round_double_unfold.
  assert ((Qnum p =? 0) = (Qnum q =? 0)) as ->.
  { apply eq_true_iff_eq. rewrite !Z.eqb_eq. unfold Qeq in E. split; intros Hz; rewrite Hz in E; nia. }
  destruct (Z.eqb_spec (Qnum q) 0) as [|Hne]; [done|].
  assert (ulp_exponent p = ulp_exponent q) as Eu.
  { unfold ulp_exponent. do 2 f_equal. apply q_log2_equal; [|by rewrite !q_abs_spec, E].
    rewrite q_abs_spec, E. by apply Qabs_nonzero. }
  assert (round_value p == round_value q)%Q as Er by (by rewrite !round_value_spec, Eu, E).
  assert (Qle_bool (inject_Z (2 ^ 1024)) (q_abs (round_value p)) = Qle_bool (inject_Z (2 ^ 1024)) (q_abs (round_value q))) as ->.
  { apply eq_true_iff_eq. by rewrite !Qle_bool_iff, !q_abs_spec, Er. }
  destruct (Qle_bool _ _); [|f_equal; by apply Qred_complete].
  assert ((0 <=? Qnum p) = (0 <=? Qnum q)) as ->; [|done].
  apply eq_true_iff_eq. rewrite !Z.leb_le. unfold Qeq in E. split; nia.
Qed.

(** Ten millionths make a millionth. *)
Lemma micro_ten k : num_div (num_of_Z (10 * k)) (num_of_Z 10000000) = micro k.
Proof.
  unfold micro, num_div, num_of_Z. cbn [Qnum inject_Z Z.eqb]. apply round_double_equal.
  rewrite inject_Z_mult. change (inject_Z 10000000) with (inject_Z 10 * inject_Z 1000000)%Q. field.
Qed.

Lemma round_ten_micro k : Z.abs k <= 2 ^ 28 -> num_round (num_mul (micro k) (num_of_Z 10000000)) = num_of_Z (10 * k).
Proof.
  intros Hk. destruct (micro_value k ltac:(lia)) as (t & -> & Ht). unfold num_mul, num_of_Z.
  assert (Qabs (inject_Z k) <= inject_Z (2 ^ 28))%Q as Hk'.
  { rewrite Qabs_Qle_condition, <-inject_Z_opp, <-!Zle_Qle. lia. }
  change (inject_Z 1000000) with 1000000%Q in Ht. change (inject_Z 10000000) with 10000000%Q.
  change (inject_Z (2 ^ 28)) with 268435456%Q in Hk'.
  apply Qabs_Qle_condition in Ht as [? ?], Hk' as [? ?].
  destruct (round_error (t * 10000000) 32) as (u & -> & _ & Hu); [lia| |].
  - apply Qabs_Qle_condition. change (pow2 32) with 4294967296%Q. lra.
  - cbn [num_round]. unfold num_of_Z. do 2 f_equal. apply q_round_near. rewrite inject_Z_mult. change (inject_Z 10) with 10%Q.
    assert (pow2 (32 - 52) <= 1 # 100)%Q by (by vm_compute). apply Qabs_Qle_condition in Hu as [? ?].
    apply Qabs_Qlt_condition. lra.
Qed.

Lemma roundCoordinate_grid q b : 0 <= b <= 2 ^ 28 -> (Qabs (q * inject_Z 1000000) <= inject_Z b)%Q ->
  exists k, roundCoordinate (Fin q) = micro k /\ Z.abs k <= b.
Proof.
  intros Hb Hq. apply Qabs_Qle_condition in Hq as [H1 H2].
  destruct (round_between (- inject_Z b) (inject_Z b) (q * inject_Z 1000000)) as (t & Et & _ & Hlo & Hhi);
    [apply representable_opp, representable_Z; lia|apply representable_Z; lia|exact H1|exact H2|].
  exists (q_round t). unfold roundCoordinate, num_mul, num_of_Z. rewrite Et. split; [done|]. unfold q_round.
  assert (- b <= Qfloor (t + (1 # 2))).
  { rewrite <-(Qfloor_Z (- b)). apply Qfloor_resp_le. rewrite inject_Z_opp. lra. }
  assert (Qfloor (t + (1 # 2)) < b + 1).
  { rewrite Zlt_Qlt, inject_Z_plus. eapply Qle_lt_trans; [apply Qfloor_le|]. change (inject_Z 1) with 1%Q. lra. }
  lia.
Qed.

(** ** Longitudes *)

Lemma q_trunc_floor x : (0 <= x)%Q -> q_trunc x = Qfloor x.
Proof.
  intros Hx. destruct x as [n d]. unfold q_trunc, Qfloor. cbn. apply Z.quot_div_nonneg; [|lia]. unfold Qle in Hx. cbn in Hx. lia.
Qed.

(** The remainder of a number of degrees below two turns. *)
Lemma rem_turn p : (0 <= p <= 720)%Q -> exists r, num_rem (Fin p) (num_of_Z 360) = Fin r /\ (0 <= r < 360)%Q /\
  ((p < 360)%Q -> r == p)%Q /\ ((360 <= p < 720)%Q -> r == p - 360)%Q.
Proof.
  intros [H0 H1]. unfold num_rem, num_of_Z. cbn [Qnum inject_Z Z.eqb].
  set (x := (p / inject_Z 360)%Q). assert (p == x * 360)%Q as Ep.
  { unfold x. change (inject_Z 360) with 360%Q. field. }
  assert (0 <= x)%Q by lra. rewrite q_trunc_floor by done.
  pose proof (Qfloor_le x) as Hf. pose proof (Qlt_floor x) as Hc. rewrite inject_Z_plus in Hc.
  change (inject_Z 1) with 1%Q in Hc. eexists. split; [done|]. rewrite Qred_correct. change (inject_Z 360) with 360%Q.
  split; [lra|]. split.
  - intros Hp. assert (Qfloor x = 0) as ->; [|change (inject_Z 0) with 0%Q; lra].
    apply Z.le_antisymm; [|rewrite <-(Qfloor_Z 0); by apply Qfloor_resp_le].
    apply Z.lt_succ_r. rewrite Zlt_Qlt. change (inject_Z (Z.succ 0)) with 1%Q. lra.
  - intros Hp. assert (Qfloor x = 1) as ->; [|change (inject_Z 1) with 1%Q; lra].
    apply Z.le_antisymm; [|rewrite <-(Qfloor_Z 1); apply Qfloor_resp_le; change (inject_Z 1) with 1%Q; lra].
    apply Z.lt_succ_r. rewrite Zlt_Qlt. change (inject_Z (Z.succ 1)) with 2%Q. lra.
Qed.

(** Adding an integer, as a bound and as nearly exact. *)
Lemma add_near p n k : 0 <= k <= 900 -> (Qabs (p + inject_Z n) <= pow2 k)%Q ->
  exists t, num_add (Fin p) (num_of_Z n) = Fin t /\ (Qabs (t - (p + inject_Z n)) <= pow2 (k - 52))%Q.
Proof. intros Hk Hq. destruct (round_error (p + inject_Z n) k) as (t & E & _ & Ht); [lia|done|]. by exists t. Qed.

Lemma add_between p n lo hi : Z.abs lo <= 2 ^ 53 -> Z.abs hi <= 2 ^ 53 -> (inject_Z lo <= p + inject_Z n <= inject_Z hi)%Q ->
  exists t, num_add (Fin p) (num_of_Z n) = Fin t /\ (inject_Z lo <= t <= inject_Z hi)%Q.
Proof.
  intros Hlo Hhi [H1 H2]. destruct (round_between (inject_Z lo) (inject_Z hi) (p + inject_Z n)) as (t & E & _ & H3 & H4);
    [by apply representable_Z..|done|done|]. by exists t.
Qed.

Lemma sub_180 x : num_sub x (num_of_Z 180) = num_add x (num_of_Z (-180)).
Proof. done. Qed.

Lemma degrees : (inject_Z 0 == 0 /\ inject_Z 180 == 180 /\ inject_Z 360 == 360 /\ inject_Z 720 == 720 /\ inject_Z (-180) == -180)%Q.
Proof. done. Qed.

Lemma normalizeLongitude_range q : (Qabs q <= 180)%Q ->
  exists p, normalizeLongitude (Fin q) = Fin p /\ (Qabs p <= 180)%Q.
Proof.
  intros Hq. unfold normalizeLongitude. destruct (_ || _); [by exists q|].
  apply Qabs_Qle_condition in Hq as [H1 H2]. destruct degrees as (D0 & D180 & D360 & D720 & Dm).
  destruct (add_between q 180 0 360) as (p0 & -> & L0 & U0); [lia|lia|lra|].
  destruct (rem_turn p0) as (r1 & -> & [L1 U1] & _); [lra|].
  destruct (add_between r1 360 360 720) as (p2 & -> & L2 & U2); [lia|lia|lra|].
  destruct (rem_turn p2) as (r2 & -> & [L3 U3] & _); [lra|]. rewrite sub_180.
  destruct (add_between r2 (-180) (-180) 180) as (p & E & L & U); [lia|lia|lra|].
  exists p. split; [exact E|]. apply Qabs_Qle_condition. lra.
Qed.

(** A longitude of the grid is left where it is, but for the rounding. *)
Lemma normalize_micro k : Z.abs k <= 180000000 -> roundCoordinate (normalizeLongitude (micro k)) = micro k.
Proof.
  intros Hk. destruct (micro_value k) as (t & Et & Ht); [lia|].
  destruct (Z.eq_dec k 180000000) as [->|Hne]; [by vm_compute|].
  destruct (Z.eq_dec k (-180000000)) as [->|Hne']; [by vm_compute|].
  rewrite Et at 1. unfold normalizeLongitude. apply Qabs_Qle_condition in Ht as [T1 T2].
  change (inject_Z 1000000) with 1000000%Q in *. destruct degrees as (D0 & D180 & D360 & D720 & Dm).
  destruct (_ || _).
  { apply roundCoordinate_near; [lia|]. change (inject_Z 1000000) with 1000000%Q. apply Qabs_Qle_condition. lra. }
  assert (inject_Z (-179999999) <= inject_Z k <= inject_Z 179999999)%Q as [K1 K2] by (rewrite <-!Zle_Qle; lia).
  change (inject_Z (-179999999)) with (-179999999)%Q in K1. change (inject_Z 179999999) with 179999999%Q in K2.
  assert (pow2 (9 - 52) <= 1 # 1000000000000 /\ pow2 (10 - 52) <= 1 # 1000000000000 /\ pow2 (8 - 52) <= 1 # 1000000000000)%Q as (P9 & P10 & P8)
    by (split_and!; by vm_compute).
  assert (pow2 9 == 512 /\ pow2 10 == 1024 /\ pow2 8 == 256)%Q as (Q9 & Q10 & Q8) by (split_and!; by vm_compute).
  destruct (add_near t 180 9) as (p0 & -> & [L0 U0]%Qabs_Qle_condition); [lia|apply Qabs_Qle_condition; lra|].
  destruct (rem_turn p0) as (r1 & -> & _ & E1 & _); [lra|]. specialize (E1 ltac:(lra)).
  destruct (add_near r1 360 10) as (p2 & -> & [L2 U2]%Qabs_Qle_condition); [lia|apply Qabs_Qle_condition; lra|].
  destruct (rem_turn p2) as (r2 & -> & _ & _ & E2); [lra|]. specialize (E2 ltac:(lra)). rewrite sub_180.
  destruct (add_near r2 (-180) 8) as (p & -> & [L U]%Qabs_Qle_condition); [lia|apply Qabs_Qle_condition; lra|].
  apply roundCoordinate_near; [lia|]. change (inject_Z 1000000) with 1000000%Q. apply Qabs_Qle_condition. lra.
Qed.

(** ** Latitudes *)

Definition max_latitude : Q := match WEB_MERCATOR_MAX_LATITUDE with Fin q => q | _ => 0%Q end.

Lemma max_latitude_spec : WEB_MERCATOR_MAX_LATITUDE = Fin max_latitude /\
  (Qabs (max_latitude * 1000000 - 85051128.78) <= 1 # 1000)%Q.
Proof. split; by vm_compute. Qed.

Lemma clamp_cases q : exists p, clamp_latitude (Fin q) = Fin p /\ (- max_latitude <= p <= max_latitude)%Q /\
  (p == q \/ (p == max_latitude /\ max_latitude <= q) \/ (p == - max_latitude /\ q <= - max_latitude))%Q.
Proof.
  destruct max_latitude_spec as [E H]. apply Qabs_Qle_condition in H. unfold clamp_latitude. rewrite E.
  unfold num_min, num_neg. destruct (num_lt (Fin q) (Fin max_latitude)) eqn:E1.
  - apply num_lt_Fin in E1. unfold num_max. destruct (num_lt (Fin (- max_latitude)) (Fin q)) eqn:E2.
    + apply num_lt_Fin in E2. exists q. split; [done|]. split; [lra|by left].
    + apply num_lt_Fin_false in E2. exists (- max_latitude)%Q. split; [done|]. split; [lra|]. right; right. split; [done|lra].
  - apply num_lt_Fin_false in E1. unfold num_max. destruct (num_lt (Fin (- max_latitude)) (Fin max_latitude)) eqn:E2.
    + exists max_latitude. split; [done|]. split; [lra|]. right; left. split; [done|lra].
    + apply num_lt_Fin_false in E2. exfalso. lra.
Qed.

Lemma clamp_micro k : Z.abs k <= 85051129 -> roundCoordinate (clamp_latitude (micro k)) = micro k.
Proof.
  intros Hk. destruct (micro_value k) as (t & Et & Ht); [lia|]. rewrite Et at 1.
  destruct (clamp_cases t) as (p & -> & Hp & Hc). destruct max_latitude_spec as [_ H].
  apply roundCoordinate_near; [lia|]. change (inject_Z 1000000) with 1000000%Q in *.
  apply Qabs_Qle_condition in H as [? ?], Ht as [? ?]. apply Qabs_Qle_condition.
  assert (inject_Z (-85051129) <= inject_Z k <= inject_Z 85051129)%Q as [K1 K2] by (rewrite <-!Zle_Qle; lia).
  change (inject_Z (-85051129)) with (-85051129)%Q in K1. change (inject_Z 85051129) with 85051129%Q in K2.
  destruct Hc as [Hc|[[Hc Hq]|[Hc Hq]]]; rewrite Hc; lra.
Qed.

(** ** Canonical boxes *)

(** A box of the grid, as a request is left with. *)
Record on_grid (b : Bounds) : Prop := {
  og_box : exists w s e n, b = {| west := micro w; south := micro s; east := micro e; north := micro n |} /\
    Z.abs w <= 180000000 /\ Z.abs s <= 85051129 /\ Z.abs e <= 180000000 /\ Z.abs n <= 85051129;
  og_wide : num_le (east b) (west b) = false;
  og_high : num_le (north b) (south b) = false;
}.

Lemma longitude_on_grid q : (Qabs q <= 180)%Q ->
  exists k, roundCoordinate (normalizeLongitude (Fin q)) = micro k /\ Z.abs k <= 180000000.
Proof.
  intros Hq. destruct (normalizeLongitude_range q Hq) as (p & -> & Hp). apply roundCoordinate_grid; [lia|].
  apply Qabs_Qle_condition in Hp as [? ?]. apply Qabs_Qle_condition. change (inject_Z 1000000) with 1000000%Q.
  change (inject_Z 180000000) with 180000000%Q. lra.
Qed.

Lemma latitude_on_grid q : exists k, roundCoordinate (clamp_latitude (Fin q)) = micro k /\ Z.abs k <= 85051129.
Proof.
  destruct (clamp_cases q) as (p & -> & Hp & _). destruct max_latitude_spec as [_ [? ?]%Qabs_Qle_condition].
  apply roundCoordinate_grid; [lia|]. apply Qabs_Qle_condition. change (inject_Z 1000000) with 1000000%Q.
  change (inject_Z 85051129) with 85051129%Q. lra.
Qed.

Lemma finite_is_rational x : num_is_finite x = true -> exists q, x = Fin q.
Proof. destruct x as [| | |q]; try discriminate. by exists q. Qed.

(** The longitudes of a box the schema accepts. *)
Lemma schema_longitudes b : bboxSchema b = true -> exists w e, west b = Fin w /\ east b = Fin e /\
  (Qabs w <= 180)%Q /\ (Qabs e <= 180)%Q.
Proof.
  unfold bboxSchema. cbn [forallb]. rewrite !andb_true_iff, !negb_true_iff, !orb_false_iff.
  intros (((((Hw & _ & He & _ & _) & (((L1 & L2) & L3) & L4)) & _) & _) & _).
  apply finite_is_rational in Hw as [w Ew], He as [e Ee]. rewrite Ew, Ee in *. exists w, e. split; [done|]. split; [done|].
  unfold num_of_Z in *. apply num_lt_Fin_false in L1, L2, L3, L4. destruct degrees as (_ & D & _ & _ & Dm).
  split; apply Qabs_Qle_condition; lra.
Qed.

Lemma canonicalBbox_grid b c : bboxSchema b = true -> canonicalBbox b = Ok c -> on_grid c.
Proof.
  intros (w & e & Ew & Ee & Hw & He)%schema_longitudes. unfold canonicalBbox. rewrite Ew, Ee. cbn [forallb num_is_finite andb].
  destruct (num_is_finite (south b)) eqn:Es; [apply finite_is_rational in Es as [s ->]|discriminate].
  destruct (num_is_finite (north b)) eqn:En; [apply finite_is_rational in En as [n ->]|discriminate]. cbn [negb andb west south east north].
  destruct (longitude_on_grid w Hw) as (kw & -> & Bw). destruct (longitude_on_grid e He) as (ke & -> & Be).
  destruct (latitude_on_grid s) as (ks & -> & Bs). destruct (latitude_on_grid n) as (kn & -> & Bn).
  destruct (num_le (micro ke) (micro kw)) eqn:E1; [discriminate|].
  destruct (num_le (micro kn) (micro ks)) eqn:E2; [discriminate|]. intros [= <-].
  split; [exists kw, ks, ke, kn; by split_and!|done|done].
Qed.

Lemma micro_finite k : Z.abs k <= 2 ^ 28 -> num_is_finite (micro k) = true.
Proof. intros Hk. by destruct (micro_value k Hk) as (t & -> & _). Qed.

(** A box of the grid is its own canonical form. *)
Lemma grid_canonical c : on_grid c -> canonicalBbox c = Ok c.
Proof.
  intros [(w & s & e & n & -> & Bw & Bs & Be & Bn) Hwide Hhigh]. unfold canonicalBbox. cbn [west south east north forallb] in *.
  rewrite !micro_finite by lia. cbn [negb andb]. rewrite !normalize_micro, !clamp_micro by done. by rewrite Hwide, Hhigh.
Qed.

Lemma normalizeZoom_Z z name : 0 <= z <= OFFLINE_PACKAGE_MAX_ZOOM -> normalizeZoom (num_of_Z z) name = Ok z.
Proof.
  intros Hz. unfold normalizeZoom, num_of_Z. rewrite (q_round_near _ z).
  - destruct (Z.ltb_spec z 0); [lia|]. destruct (Z.ltb_spec OFFLINE_PACKAGE_MAX_ZOOM z); [lia|done].
  - assert (inject_Z z - inject_Z z == 0)%Q as -> by ring. done.
Qed.

Lemma normalizeZoom_range x name z : normalizeZoom x name = Ok z -> 0 <= z <= OFFLINE_PACKAGE_MAX_ZOOM.
Proof.
  unfold normalizeZoom. destruct x; try discriminate. destruct (_ || _) eqn:E; [discriminate|]. intros [= <-].
  apply orb_false_iff in E. lia.
Qed.

(** ** The canonical form *)

Section facts.
Context `{JsonText}.

(** What a request that has been accepted has passed. *)
Lemma canonicalize_inv rq src c : canonicalizeOfflinePackageRequest rq src = Ok c ->
  exists maxZoom sourceMaxZoom, assertSourceDescriptor src = Ok sourceMaxZoom /\
    canonicalBbox (rq_bbox rq) = Ok (cn_bbox c) /\
    0 <= cn_minZoom c <= OFFLINE_PACKAGE_MAX_ZOOM /\ 0 <= maxZoom <= OFFLINE_PACKAGE_MAX_ZOOM /\
    cn_minZoom c <= maxZoom /\ cn_minZoom c <= sourceMaxZoom /\ cn_maxZoom c = Z.min maxZoom sourceMaxZoom /\
    cn_request c = {| rq_bbox := cn_bbox c; rq_minZoom := num_of_Z (cn_minZoom c); rq_maxZoom := num_of_Z maxZoom;
                      rq_provider := rq_provider rq |} /\ cn_source c = src.
Proof.
  unfold canonicalizeOfflinePackageRequest. intros (smax & Hs & E)%outcome_bind_ok.
  destruct (negb _) eqn:Ep; [discriminate|]. apply outcome_bind_ok in E as (bbox & Hb & E).
  apply outcome_bind_ok in E as (zmin & Hmin & E). apply outcome_bind_ok in E as (zmax & Hmax & E).
  destruct (Z.ltb_spec zmax zmin); [discriminate|]. destruct (Z.ltb_spec smax zmin); [discriminate|].
  apply outcome_bind_ok in E as (sb & Hsb & E). destruct (_ || _); [discriminate|]. destruct (num_lt _ _); [discriminate|].
  apply Ok_inj in E as <-. cbn [cn_request cn_bbox cn_minZoom cn_maxZoom cn_source].
  apply normalizeZoom_range in Hmin, Hmax. exists zmax, smax. by split_and!; try lia.
Qed.

(** asking for what has been accepted gets the same answer, key and all: the box is on
    a grid of millionths of a degree that rounding, the wrap of longitudes and the cut of
    latitudes leave alone. *)
Theorem a_canonical_request_is_a_fixed_point raw rq src c : parseOfflinePackageRequest raw = Ok rq ->
  canonicalizeOfflinePackageRequest rq src = Ok c -> canonicalizeOfflinePackageRequest (cn_request c) src = Ok c.
Proof.
  unfold parseOfflinePackageRequest. destruct (offlinePackageRequestSchema raw) eqn:Hschema; [|discriminate]. intros [= ->] Hc.
  unfold offlinePackageRequestSchema in Hschema. do 3 apply andb_prop, proj1 in Hschema.
  pose proof Hc as (zmax & smax & Hs & Hb & Hmin & Hmax & Hle & Hles & Hcap & Hrq & Hsrc)%canonicalize_inv.
  pose proof (grid_canonical _ (canonicalBbox_grid _ _ Hschema Hb)) as Hb'.
  (* the second run takes the same turns *)
  unfold canonicalizeOfflinePackageRequest in *. rewrite Hrq, Hs in *. cbn [mbind outcome_bind rq_provider rq_bbox rq_minZoom rq_maxZoom] in *.
  destruct (negb (rq_provider rq =? "openmapx")%string); [discriminate|].
  rewrite Hb', !normalizeZoom_Z by lia. rewrite Hb in Hc. cbn [mbind outcome_bind] in *.
  apply outcome_bind_ok in Hc as (zmin' & Emin & Hc). apply outcome_bind_ok in Hc as (zmax' & Emax & Hc).
  destruct (Z.ltb_spec zmax' zmin'); [discriminate|]. destruct (Z.ltb_spec smax zmin'); [discriminate|].
  destruct (canonicalBbox (src_sourceBounds src)) as [sb|]; [|discriminate]. cbn [mbind outcome_bind] in *.
  destruct (_ || _); [discriminate|]. destruct (num_lt _ _); [discriminate|].
  apply Ok_inj in Hc as Ec. assert (zmin' = cn_minZoom c) as Ez by (by rewrite <-Ec).
  assert (rq_maxZoom (cn_request c) = num_of_Z zmax) as E1 by (by rewrite Hrq).
  assert (rq_maxZoom (cn_request c) = num_of_Z zmax') as E2 by (by rewrite <-Ec). rewrite E1 in E2. injection E2 as <-.
  rewrite <-Ez. destruct (Z.ltb_spec zmax zmin'); [lia|]. destruct (Z.ltb_spec smax zmin'); [lia|]. exact (f_equal Ok Ec).
Qed.

(** ** The end of the Mercator map *)

(** The reader's limit is the one the request is cut to, and the next millionth lies
    beyond it. *)
Lemma limit_is_rounded_up q : (max_latitude <= q)%Q -> roundCoordinate (clamp_latitude (Fin q)) = micro 85051129.
Proof.
  intros Hq. destruct (clamp_cases q) as (p & -> & Hp & Hc). destruct max_latitude_spec as [_ [? ?]%Qabs_Qle_condition].
  apply roundCoordinate_near; [lia|]. change (inject_Z 1000000) with 1000000%Q. change (inject_Z 85051129) with 85051129%Q.
  apply Qabs_Qle_condition. lra.
Qed.

Lemma beyond_the_reader h b : num_eq (north h) (north b) = true -> north b = micro 85051129 -> bad_bounds h = true.
Proof.
  intros [_ Hle]%andb_prop E. unfold bad_bounds. rewrite !orb_true_iff. do 2 left. right. rewrite E in Hle.
  assert (num_lt (literal 8505112878 100000000) (micro 85051129) = true) as Hlt by (vm_compute; reflexivity).
  by eapply num_lt_le_trans.
Qed.

Lemma header_bounds `{ArchiveCodecs} file h : header file = Ok h -> bad_bounds (hd_bounds h) = false.
Proof.
  intros (bytes & _ & (parsed & _ & E)%outcome_bind_ok)%outcome_bind_ok. unfold validateHeader in E.
  do 5 apply reject_ok in E as [_ E]. apply reject_ok in E as [Hb E].
  apply outcome_bind_ok in E as ([] & _ & E). apply outcome_bind_ok in E as ([] & _ & E).
  do 2 apply reject_ok in E as [_ E]. by injection E as <-.
Qed.

(** an area that reaches the end of the Mercator map is accepted, and no archive at
    all passes the check of the page for it: the canonical box is rounded to a millionth
    beyond the latitude the reader allows, and the header has to repeat the box. *)
Theorem an_area_up_to_the_limit_never_validates `{ArchiveCodecs} rq src c archive :
  canonicalizeOfflinePackageRequest rq src = Ok c -> num_le WEB_MERCATOR_MAX_LATITUDE (north (rq_bbox rq)) = true ->
  exists message, validateLocalPmtilesArchive archive (cn_bbox c) (cn_minZoom c) (cn_maxZoom c) = Throw message.
Proof.
  intros (zmax & smax & _ & Hb & _)%canonicalize_inv Hn. destruct (validateLocalPmtilesArchive _ _ _ _) as [h|e] eqn:E; [exfalso|by exists e].
  unfold validateLocalPmtilesArchive in E. apply outcome_bind_ok in E as (h' & Hh & E). destruct (_ || _) eqn:Es in E; [discriminate|].
  clear E. apply header_bounds in Hh. apply orb_false_iff in Es as [_ Es%negb_false_iff]. unfold same_bounds in Es.
  apply andb_prop in Es as [_ Es]. assert (north (cn_bbox c) = micro 85051129) as En.
  { unfold canonicalBbox in Hb. destruct (negb _) eqn:Ef; [discriminate|]. do 2 (destruct (num_le _ _) in Hb; [discriminate|]).
    injection Hb as <-. cbn [north]. destruct max_latitude_spec as [El _]. rewrite El in Hn.
    apply negb_false_iff in Ef. cbn [forallb] in Ef. rewrite !andb_true_iff in Ef. destruct Ef as (_ & _ & _ & [n En]%finite_is_rational & _).
    rewrite En in *. apply num_le_Fin in Hn. by apply limit_is_rounded_up. }
  by rewrite (beyond_the_reader _ _ Es En) in Hh.
Qed.
End facts.

(** ** A strip along the north end, and a town *)

#[export] Instance sample_text : JsonText := {
  json_stringify _ := "key";
  utf8_bytes s := map (fun c => Z.of_nat (Ascii.nat_of_ascii c)) (String.list_ascii_of_string s);
}.

Definition planet_source : OfflinePackageSourceDescriptor := {|
  src_datasetId := "openmapx"; src_datasetVersion := "v1"; src_sourceMaxZoom := num_of_Z 14;
  src_sourceBounds := {| west := num_of_Z (-180); south := literal (-8505113) 100000; east := num_of_Z 180; north := literal 8505113 100000 |};
  src_tileSchema := "openmaptiles"; src_glyphsVersion := "g1"; src_packageAlgorithmVersion := "pmtiles-area-v4";
  src_attribution := ["OpenStreetMap contributors"%string] |}.

Definition strip_request : OfflinePackageRequest := {|
  rq_bbox := {| west := num_of_Z (-10); south := num_of_Z 80; east := num_of_Z 10; north := num_of_Z 86 |};
  rq_minZoom := num_of_Z 0; rq_maxZoom := num_of_Z 24; rq_provider := "openmapx" |}.

Lemma an_area_up_to_the_limit_never_validates_witness : exists c message,
  canonicalizeOfflinePackageRequest strip_request planet_source = Ok c /\
  validateLocalPmtilesArchive good_archive (cn_bbox c) (cn_minZoom c) (cn_maxZoom c) = Throw message.
Proof.
  destruct (canonicalizeOfflinePackageRequest strip_request planet_source) as [c|] eqn:Hc; [|vm_compute in Hc; discriminate].
  destruct (an_area_up_to_the_limit_never_validates strip_request planet_source c good_archive Hc) as [message Hm].
  - vm_compute. reflexivity.
  - exists c, message. split; [reflexivity|exact Hm].
Defined.

Definition town_request : OfflinePackageRequest := {|
  rq_bbox := {| west := literal 133777777 10000000; south := literal 525 10; east := literal 13400001 1000000; north := literal 5253 100 |};
  rq_minZoom := literal 3 10; rq_maxZoom := num_of_Z 24; rq_provider := "openmapx" |}.

Lemma a_canonical_request_is_a_fixed_point_witness : exists c,
  canonicalizeOfflinePackageRequest town_request planet_source = Ok c /\
  canonicalizeOfflinePackageRequest (cn_request c) planet_source = Ok c /\ cn_maxZoom c = 14.
Proof.
  destruct (canonicalizeOfflinePackageRequest town_request planet_source) as [c|] eqn:Hc; [|vm_compute in Hc; discriminate].
  exists c. split; [reflexivity|]. split.
  - apply (a_canonical_request_is_a_fixed_point town_request town_request planet_source c); [vm_compute; reflexivity|exact Hc].
  - assert (match canonicalizeOfflinePackageRequest town_request planet_source with Ok c => cn_maxZoom c | Throw _ => 0 end = 14) as Hz
      by (vm_compute; reflexivity).
    rewrite Hc in Hz. exact Hz.
Defined.
