(* ===== verification/Writer.v ===== *)
(** * The writer of a downloadable archive

    packages/cli/src/lib/tile-pmtiles.ts: the tiles of an area are taken from an MBTiles
    database and written as one archive (PMTiles), which the page reads
    ([Pmtiles]).  The database is its two tables; a file is its bytes, and the temporary
    files, their renaming and their removal are left out, like the statistics the code
    keeps about them.  BigInts and the numbers the code keeps below 2^53 are [Z].
    node:zlib, JSON text and [Math.log] are parameters. *)

From stdpp Require Import gmap sorting.
From S2P Require Import Prelude Text Words Doubles NumberText Sha256 TileId Pmtiles Archive Manifest Request.
From Stdlib Require Import QArith_base Qround Qabs Qreduction Lqa.
Local Open Scope Z_scope.

Definition PMTILES_HEADER_LENGTH : Z := 127.
Definition PMTILES_ROOT_MAX_COMPRESSED_LENGTH : Z := 16257.
Definition PMTILES_VERSION : Z := 3.
Definition INTERNAL_COMPRESSION_GZIP : Z := 2.
Definition TILE_COMPRESSION_NONE : Z := 1.
Definition TILE_COMPRESSION_GZIP : Z := 2.
Definition TILE_TYPE_MVT : Z := 1.

(** [gzipSync(bytes, { level: 9 })], [gunzipSync], [JSON.parse] of a column and
    [Buffer.from(JSON.stringify(value))]. *)
Class NodeCodecs := {
  gzipSync : list Z -> list Z;
  gunzipSync : list Z -> outcome (list Z);
  parse_text : string -> outcome json;
  json_bytes : json -> list Z;
}.

Class MathLog := { math_log : number -> number }.

(** ** The records *)

Record PmtilesHeader := {
  ph_rootOffset : Z;
  ph_rootLength : Z;
  ph_metadataOffset : Z;
  ph_metadataLength : Z;
  ph_leafOffset : Z;
  ph_leafLength : Z;
  ph_tileDataOffset : Z;
  ph_tileDataLength : Z;
  ph_addressedTiles : Z;
  ph_tileEntries : Z;
  ph_tileContents : Z;
  ph_clustered : bool;
  ph_internalCompression : Z;
  ph_tileCompression : Z;
  ph_tileType : Z;
  ph_minZoom : Z;
  ph_maxZoom : Z;
  ph_bounds : Bounds;
  ph_centerZoom : Z;
  ph_longitude : number;
  ph_latitude : number;
}.

Record TileEntry := {
  te_tileId : Z;
  te_offset : Z;
  te_length : Z;
  te_runLength : Z;
  te_sourceOffset : option Z;
}.

Record DirectorySections := {
  ds_root : list Z;
  ds_leaves : list Z;
  ds_leafCount : nat;
}.

(** ** Numbers and directories *)

(** The [do] loop; a turn takes seven bits. *)
Fixpoint writeVarint_loop (fuel : nat) (remaining : Z) : list Z :=
  match fuel with
  | O => []
  | S fuel =>
      let byte := Z.land remaining 127 in
      let remaining := Z.shiftr remaining 7 in
      if 0 <? remaining then Z.lor byte 128 :: writeVarint_loop fuel remaining else [byte]
  end.

Definition writeVarint (value : Z) : outcome (list Z) :=
  if value <? 0 then Throw "PMTiles varint cannot encode a negative value"
  else Ok (writeVarint_loop (S (Z.to_nat (Z.log2 value))) value).

(** A pass over the entries: a number each. *)
Fixpoint write_pass (values : list Z) : outcome (list Z) :=
  match values with
  | [] => Ok []
  | value :: values => bytes ← writeVarint value; rest ← write_pass values; Ok (bytes ++ rest)
  end.

Fixpoint tile_id_deltas (previousTileId : Z) (entries : list TileEntry) : list Z :=
  match entries with
  | [] => []
  | e :: entries => te_tileId e - previousTileId :: tile_id_deltas (te_tileId e) entries
  end.

(** The last pass: 0 for an entry that starts where the one before it ends. *)
Fixpoint offset_codes (index : nat) (nextByte : Z) (entries : list TileEntry) : list Z :=
  match entries with
  | [] => []
  | e :: entries =>
      (if ((0 <? index)%nat && (te_offset e =? nextByte)) then 0 else te_offset e + 1)
      :: offset_codes (S index) (te_offset e + te_length e) entries
  end.

Section writer.
Context `{NodeCodecs} `{ArchiveCodecs}.

Definition writeDirectory (entries : list TileEntry) : outcome (list Z) :=
  match entries with
  | [] => Throw "PMTiles directory cannot be empty"
  | _ =>
      count ← writeVarint (Z.of_nat (length entries));
      ids ← write_pass (tile_id_deltas 0 entries);
      runs ← write_pass (map te_runLength entries);
      lengths ← write_pass (map te_length entries);
      offsets ← write_pass (offset_codes 0 0 entries);
      Ok (gzipSync (count ++ ids ++ runs ++ lengths ++ offsets))
  end.

(** The leaves of a split and the entries that point to them; [written] is the length of
    the leaves before. *)
Fixpoint leaf_directories (written : Z) (groups : list (list TileEntry)) : outcome (list (list Z) * list TileEntry) :=
  match groups with
  | [] => Ok ([], [])
  | leafEntries :: groups =>
      leaf ← writeDirectory leafEntries;
      '(leaves, pointers) ← leaf_directories (written + Z.of_nat (length leaf)) groups;
      Ok (leaf :: leaves,
          {| te_tileId := match leafEntries with e :: _ => te_tileId e | [] => 0 end;
             te_offset := written; te_length := Z.of_nat (length leaf); te_runLength := 0; te_sourceOffset := None |} :: pointers)
  end.

(** [Math.ceil(chunkSize * 1.75)]: exact, the size is far below 2^51. *)
Definition next_chunk_size (total chunkSize : nat) : nat := Nat.min total ((7 * chunkSize + 3) / 4).

(** The loop over growing chunks: a size that is not the whole grows. *)
Fixpoint split_directories (fuel chunkSize : nat) (entries : list TileEntry) : outcome DirectorySections :=
  match fuel with
  | O => Throw "PMTiles root directory cannot fit in 16 KiB"
  | S fuel =>
      '(leafDirectories, rootEntries) ← leaf_directories 0 (chunks (length entries) chunkSize entries);
      root ← writeDirectory rootEntries;
      if Z.of_nat (length root) <=? PMTILES_ROOT_MAX_COMPRESSED_LENGTH
      then Ok {| ds_root := root; ds_leaves := concat leafDirectories; ds_leafCount := length leafDirectories |}
      else if (length entries <=? chunkSize)%nat then Throw "PMTiles root directory cannot fit in 16 KiB"
      else split_directories fuel (next_chunk_size (length entries) chunkSize) entries
  end.

Definition buildDirectorySections (entries : list TileEntry) : outcome DirectorySections :=
  direct ← writeDirectory entries;
  if Z.of_nat (length direct) <=? PMTILES_ROOT_MAX_COMPRESSED_LENGTH
  then Ok {| ds_root := direct; ds_leaves := []; ds_leafCount := 0 |}
  else split_directories (S (length entries)) (Nat.max 1 ((length entries + 255) / 256)) entries.

(** ** The header *)

(** [writeUInt8], [writeBigUInt64LE]: [n] bytes, refused outside their range. *)
Definition write_unsigned (n : nat) (value : Z) : outcome (list Z) :=
  if (value <? 0) || (256 ^ Z.of_nat n <=? value) then Throw "ERR_OUT_OF_RANGE" else Ok (little_endian n value).

(** [writeInt32LE(Math.round(value * 10_000_000))] *)
Definition write_position (value : number) : outcome (list Z) :=
  match num_round (num_mul value (num_of_Z 10000000)) with
  | Fin q =>
      let n := Qfloor q in
      if (n <? - 2 ^ 31) || (2 ^ 31 <=? n) then Throw "ERR_OUT_OF_RANGE" else Ok (little_endian 4 (n mod 2 ^ 32))
  | NaN => Ok (little_endian 4 0)
  | _ => Throw "ERR_OUT_OF_RANGE"
  end.

(** The writes follow one another and fill the buffer. *)
Fixpoint write_fields (fields : list (outcome (list Z))) : outcome (list Z) :=
  match fields with
  | [] => Ok []
  | field :: fields => bytes ← field; rest ← write_fields fields; Ok (bytes ++ rest)
  end.

Definition writeHeader (h : PmtilesHeader) : outcome (list Z) :=
  write_fields
    ([Ok MAGIC; write_unsigned 1 PMTILES_VERSION]
     ++ map (write_unsigned 8)
          [ph_rootOffset h; ph_rootLength h; ph_metadataOffset h; ph_metadataLength h; ph_leafOffset h; ph_leafLength h;
           ph_tileDataOffset h; ph_tileDataLength h; ph_addressedTiles h; ph_tileEntries h; ph_tileContents h]
     ++ map (write_unsigned 1)
          [if ph_clustered h then 1 else 0; ph_internalCompression h; ph_tileCompression h; ph_tileType h; ph_minZoom h; ph_maxZoom h]
     ++ map write_position [west (ph_bounds h); south (ph_bounds h); east (ph_bounds h); north (ph_bounds h)]
     ++ [write_unsigned 1 (ph_centerZoom h)]
     ++ map write_position [ph_longitude h; ph_latitude h]).
End writer.

(** ** The tiles of an area *)

Record TileRow := {
  zoom_level : Z;
  tile_column : Z;
  tile_row : Z;
  tile_data : list Z;
}.

(** The two tables, in the order a query returns their rows. *)
Record Mbtiles := {
  mb_metadata : list (string * string);
  mb_tiles : list TileRow;
}.

Definition rotateHilbert (n x y rx ry : Z) : Z * Z :=
  if ry =? 0 then
    let '(x, y) := if rx =? 1 then (n - 1 - x, n - 1 - y) else (x, y) in (y, x)
  else (x, y).

(** The turns with the sizes 2^(k-1) down to 1. *)
Fixpoint hilbert_turns (k : nat) (currentX currentY d : Z) : Z :=
  match k with
  | O => d
  | S k =>
      let size := 2 ^ Z.of_nat k in
      let rx := if 0 <? js_and currentX size then 1 else 0 in
      let ry := if 0 <? js_and currentY size then 1 else 0 in
      let d := d + size * size * js_xor (3 * rx) ry in
      let '(currentX, currentY) := rotateHilbert size currentX currentY rx ry in
      hilbert_turns k currentX currentY d
  end.

(** At zoom 0 the one turn has the size 0.5 and adds nothing: no bit is set in it. *)
Definition writer_tile_id (z : nat) (x y : Z) : Z := (4 ^ Z.of_nat z - 1) / 3 + hilbert_turns z x y 0.

Section tiles.
Context `{MathFunctions} `{MathLog}.
Local Open Scope num_scope.

Definition two_to (zoom : Z) : number := num_of_Z (2 ^ zoom).

Definition lonToTileX (longitude : number) (zoom : Z) : number :=
  num_max 0 (num_min (two_to zoom - 1) (num_floor ((longitude + 180) / 360 * two_to zoom))).

Definition latToTileY (latitude : number) (zoom : Z) : number :=
  let limit := literal 8505112878 100000000 in
  let clamped := num_max (- limit) (num_min limit latitude) in
  let sin := math_sin (clamped * math_PI / 180) in
  num_max 0 (num_min (two_to zoom - 1)
    (num_floor ((1 - math_log ((1 + sin) / (1 - sin)) / (2 * math_PI)) / 2 * two_to zoom))).

(** [WHERE zoom_level BETWEEN ? AND ? AND ...]: a comparison with NaN is with NULL. *)
Definition in_rows (zoom : Z) (xMin xMax tmsMin tmsMax : number) (r : TileRow) : bool :=
  (zoom_level r =? zoom)%Z
  && (xMin <=? num_of_Z (tile_column r)) && (num_of_Z (tile_column r) <=? xMax)
  && (tmsMin <=? num_of_Z (tile_row r)) && (num_of_Z (tile_row r) <=? tmsMax).

(** The rows of a zoom that the loop does not skip. *)
Definition rows_of_zoom (db : Mbtiles) (b : Bounds) (zoom : Z) : list TileRow :=
  let xMin := lonToTileX (west b) zoom in
  let xMax := lonToTileX (east b) zoom in
  let yMin := latToTileY (north b) zoom in
  let yMax := latToTileY (south b) zoom in
  List.filter (fun r => let y := two_to zoom - 1 - num_of_Z (tile_row r) in negb ((y <? yMin) || (y >? yMax)))
    (List.filter (in_rows zoom xMin xMax (two_to zoom - 1 - yMax) (two_to zoom - 1 - yMin)) (mb_tiles db)).
End tiles.

(** [metadata.get(name)] of the map made from the rows: the last one counts. *)
Fixpoint metadata_get (name : string) (rows : list (string * string)) : option string :=
  match rows with
  | [] => None
  | (n, v) :: rows =>
      match metadata_get name rows with
      | Some v => Some v
      | None => if (n =? name)%string then Some v else None
      end
  end.

(** [toLowerCase] as far as the comparisons below can tell. *)
Fixpoint lower_ascii (s : string) : string :=
  match s with
  | EmptyString => EmptyString
  | String c r =>
      let n := Ascii.nat_of_ascii c in
      String (if ((65 <=? n) && (n <=? 90))%nat then Ascii.ascii_of_nat (n + 32) else c) (lower_ascii r)
  end.

Definition declaredTileCompression (metadata : list (string * string)) : outcome (option Z) :=
  match option_map lower_ascii (metadata_get "compression" metadata) with
  | None => Ok None
  | Some compression =>
      if (compression =? "gzip")%string || (compression =? "gz")%string then Ok (Some TILE_COMPRESSION_GZIP)
      else if (compression =? "none")%string || (compression =? "")%string then Ok (Some TILE_COMPRESSION_NONE)
      else Throw ("unsupported MBTiles tile compression " ++ compression)%string
  end.

Definition detectedTileCompression (tile : list Z) : Z :=
  match tile with
  | 31 :: 139 :: _ => TILE_COMPRESSION_GZIP
  | _ => TILE_COMPRESSION_NONE
  end.

(** What the loop over the rows keeps. *)
Record Spool := {
  sp_entries : list TileEntry;
  sp_bytes : list Z;
  sp_compression : option Z;
}.

Definition take_row (r : TileRow) (s : Spool) : outcome Spool :=
  let y := 2 ^ zoom_level r - 1 - tile_row r in
  let detected := detectedTileCompression (tile_data r) in
  if negb (default detected (sp_compression s) =? detected) then Throw "MBTiles contains mixed tile compression"
  else Ok {|
    sp_entries := sp_entries s ++ [{|
      te_tileId := writer_tile_id (Z.to_nat (zoom_level r)) (tile_column r) y;
      te_offset := 0; te_sourceOffset := Some (Z.of_nat (length (sp_bytes s)));
      te_length := Z.of_nat (length (tile_data r)); te_runLength := 1 |}];
    sp_bytes := sp_bytes s ++ tile_data r;
    sp_compression := Some detected |}.

Fixpoint take_rows (rows : list TileRow) (s : Spool) : outcome Spool :=
  match rows with
  | [] => Ok s
  | r :: rows => s ← take_row r s; take_rows rows s
  end.

(** The loop that lays the tiles out one after another. *)
Fixpoint lay_out (tileOffset : Z) (entries : list TileEntry) : list TileEntry :=
  match entries with
  | [] => []
  | e :: entries =>
      {| te_tileId := te_tileId e; te_offset := tileOffset; te_length := te_length e; te_runLength := te_runLength e;
         te_sourceOffset := te_sourceOffset e |} :: lay_out (tileOffset + te_length e) entries
  end.

(** [copyRange]: a range of the spool. *)
Definition copyRange (spool : list Z) (sourceOffset len : Z) : outcome (list Z) :=
  let bytes := take (Z.to_nat len) (drop (Z.to_nat sourceOffset) spool) in
  if Z.of_nat (length bytes) =? len then Ok bytes else Throw "truncated PMTiles tile spool".

Fixpoint copy_tiles (spool : list Z) (entries : list TileEntry) : outcome (list Z) :=
  match entries with
  | [] => Ok []
  | e :: entries =>
      let sourceOffset := default 0 (te_sourceOffset e) in
      if negb (is_safe sourceOffset) then Throw "tile spool exceeds browser limits"
      else
        bytes ← copyRange spool sourceOffset (te_length e);
        rest ← copy_tiles spool entries;
        Ok (bytes ++ rest)
  end.

(** ** The archive *)

(** [parsed.key = value] *)
Fixpoint assign_key (key : string) (value : json) (fields : list (string * json)) : list (string * json) :=
  match fields with
  | [] => [(key, value)]
  | (k, v) :: fields => if (k =? key)%string then (k, value) :: fields else (k, v) :: assign_key key value fields
  end.

Section extract.
Context `{NodeCodecs} `{ArchiveCodecs} `{MathFunctions} `{MathLog}.

Definition metadataJson (metadata : list (string * string)) (request : CanonicalOfflinePackageRequest) : outcome (list Z) :=
  let b := cn_bbox request in
  parsed ← match metadata_get "json" metadata with
           | Some rawJson =>
               if (rawJson =? "")%string then Ok []
               else match parse_text rawJson with
                    | Ok (JObj fields) => Ok fields
                    | Ok _ => Ok []
                    | Throw _ => Throw "MBTiles json metadata is invalid"
                    end
           | None => Ok []
           end;
  let parsed := assign_key "format" (JStr "pbf") parsed in
  let parsed := assign_key "type" (JStr "baselayer") parsed in
  let parsed := assign_key "version" (JStr (src_datasetVersion (cn_source request))) parsed in
  let parsed := assign_key "bounds" (JStr (join "," (map show_number [west b; south b; east b; north b]))) parsed in
  let parsed := assign_key "minzoom" (JNum (num_of_Z (cn_minZoom request))) parsed in
  let parsed := assign_key "maxzoom" (JNum (num_of_Z (cn_maxZoom request))) parsed in
  let parsed := assign_key "attribution" (JStr (join " " (src_attribution (cn_source request)))) parsed in
  Ok (gzipSync (json_bytes (JObj parsed))).

Definition zoom_range (request : CanonicalOfflinePackageRequest) : list Z :=
  seqZ (cn_minZoom request) (cn_maxZoom request - cn_minZoom request + 1).

(** The rows of the area, zoom after zoom. *)
Definition area_rows (db : Mbtiles) (request : CanonicalOfflinePackageRequest) : list TileRow :=
  concat (map (rows_of_zoom db (cn_bbox request)) (zoom_range request)).

Definition archive_header (request : CanonicalOfflinePackageRequest) (sections : DirectorySections) (metadataLength : Z)
    (tileBytes tiles tileCompression : Z) : PmtilesHeader :=
  let rootOffset := PMTILES_HEADER_LENGTH in
  let metadataOffset := rootOffset + Z.of_nat (length (ds_root sections)) in
  let leafOffset := metadataOffset + metadataLength in
  let tileDataOffset := leafOffset + Z.of_nat (length (ds_leaves sections)) in
  let bounds := cn_bbox request in
  {| ph_rootOffset := rootOffset; ph_rootLength := Z.of_nat (length (ds_root sections));
     ph_metadataOffset := metadataOffset; ph_metadataLength := metadataLength;
     ph_leafOffset := leafOffset; ph_leafLength := Z.of_nat (length (ds_leaves sections));
     ph_tileDataOffset := tileDataOffset; ph_tileDataLength := tileBytes;
     ph_addressedTiles := tiles; ph_tileEntries := tiles; ph_tileContents := tiles;
     ph_clustered := true; ph_internalCompression := INTERNAL_COMPRESSION_GZIP; ph_tileCompression := tileCompression;
     ph_tileType := TILE_TYPE_MVT; ph_minZoom := cn_minZoom request; ph_maxZoom := cn_maxZoom request;
     ph_bounds := bounds; ph_centerZoom := cn_minZoom request;
     ph_longitude := num_div (num_add (west bounds) (east bounds)) (num_of_Z 2);
     ph_latitude := num_div (num_add (south bounds) (north bounds)) (num_of_Z 2) |}.

(** The bytes [extractPmtilesPackage] writes. *)
Definition write_archive (db : Mbtiles) (request : CanonicalOfflinePackageRequest) : outcome (list Z) :=
  declared ← declaredTileCompression (mb_metadata db);
  spool ← take_rows (area_rows db request) {| sp_entries := []; sp_bytes := []; sp_compression := declared |};
  match sp_entries spool, sp_compression spool with
  | _ :: _, Some tileCompression =>
      let tileEntries := lay_out 0 (sort_by te_tileId (sp_entries spool)) in
      let tileBytes := foldl Z.add 0 (map te_length tileEntries) in
      directories ← buildDirectorySections tileEntries;
      metadataBuffer ← metadataJson (mb_metadata db) request;
      header ← writeHeader (archive_header request directories (Z.of_nat (length metadataBuffer)) tileBytes
                              (Z.of_nat (length tileEntries)) tileCompression);
      tiles ← copy_tiles (sp_bytes spool) tileEntries;
      Ok (header ++ ds_root directories ++ metadataBuffer ++ ds_leaves directories ++ tiles)
  | _, _ => Throw "no tiles found for requested package coverage"
  end.
End extract.

(** ** The reader of the server *)

Definition read_unsigned (n : nat) (bytes : list Z) (offset : nat) : Z :=
  foldl (fun value index => value * 256 + bytes !!! (offset + index)%nat) 0 (rev (seq 0 n)).

(** The [ascii] decoding drops the highest bit. *)
Definition parse_server_header (bytes : list Z) : outcome PmtilesHeader :=
  if (Z.of_nat (length bytes) <? PMTILES_HEADER_LENGTH) || negb (bool_decide (map (fun b => Z.land b 127) (take 7 bytes) = MAGIC))
  then Throw "invalid PMTiles magic or truncated header"
  else if negb (read_unsigned 1 bytes 7 =? PMTILES_VERSION) then Throw "unsupported PMTiles version"
  else
    let word := read_unsigned 8 bytes in
    let byte := read_unsigned 1 bytes in
    Ok {|
      ph_rootOffset := word 8%nat; ph_rootLength := word 16%nat; ph_metadataOffset := word 24%nat; ph_metadataLength := word 32%nat;
      ph_leafOffset := word 40%nat; ph_leafLength := word 48%nat; ph_tileDataOffset := word 56%nat; ph_tileDataLength := word 64%nat;
      ph_addressedTiles := word 72%nat; ph_tileEntries := word 80%nat; ph_tileContents := word 88%nat;
      ph_clustered := byte 96%nat =? 1; ph_internalCompression := byte 97%nat; ph_tileCompression := byte 98%nat;
      ph_tileType := byte 99%nat; ph_minZoom := byte 100%nat; ph_maxZoom := byte 101%nat;
      ph_bounds := {| west := position bytes 102; south := position bytes 106; east := position bytes 110; north := position bytes 114 |};
      ph_centerZoom := byte 118%nat; ph_longitude := position bytes 119; ph_latitude := position bytes 123;
    |}.

Definition readRange (file : list Z) (offset length : Z) : outcome (list Z) :=
  if (MAX_SAFE_INTEGER <? length) || (MAX_SAFE_INTEGER <? offset) then Throw "PMTiles range exceeds JavaScript safe integer limits"
  else
    let bytes := take (Z.to_nat length) (drop (Z.to_nat offset) file) in
    if Z.of_nat (List.length bytes) =? length then Ok bytes else Throw "truncated PMTiles range".

Record PmtilesPackageMetadata := {
  pm_byteLength : Z;
  pm_sha256 : string;
  pm_etag : string;
  pm_bounds : Bounds;
  pm_minZoom : Z;
  pm_maxZoom : Z;
  pm_tileCount : Z;
  pm_tileCompression : string;
  pm_attribution : list string;
}.

Section generate.
Context `{NodeCodecs} `{ArchiveCodecs} `{MathFunctions} `{MathLog} `{PackageDates} `{JsonText}.

Definition server_decodeInternal (buffer : list Z) (compression : Z) : outcome (list Z) :=
  if compression =? TILE_COMPRESSION_NONE then Ok buffer
  else if compression =? INTERNAL_COMPRESSION_GZIP then gunzipSync buffer
  else Throw ("unsupported PMTiles internal compression " ++ show_Z compression)%string.

(** [hashFile] is the digest of the standard (node:crypto). *)
Definition inspectPmtiles (file : list Z) : outcome PmtilesPackageMetadata :=
  bytes ← readRange file 0 PMTILES_HEADER_LENGTH;
  header ← parse_server_header bytes;
  buffer ← readRange file (ph_metadataOffset header) (ph_metadataLength header);
  text ← server_decodeInternal buffer (ph_internalCompression header);
  metadata ← parse_json text;
  attribution ← match metadata with
                | JNull => Throw "Cannot read properties of null"
                | _ => Ok match json_field "attribution" metadata with
                          | Some (JStr s) => if (s =? "")%string then [] else [s]
                          | _ => []
                          end
                end;
  let sha256 := FIPS.hash_hex file in
  Ok {| pm_byteLength := Z.of_nat (length file); pm_sha256 := sha256; pm_etag := ("sha256-" ++ sha256)%string;
        pm_bounds := ph_bounds header; pm_minZoom := ph_minZoom header; pm_maxZoom := ph_maxZoom header;
        pm_tileCount := ph_addressedTiles header;
        pm_tileCompression := if ph_tileCompression header =? TILE_COMPRESSION_GZIP then "gzip" else "none";
        pm_attribution := attribution |}.

(** The archive and what is told of it. *)
Definition extractPmtilesPackage (db : Mbtiles) (request : CanonicalOfflinePackageRequest)
    : outcome (list Z * PmtilesPackageMetadata) :=
  archive ← write_archive db request;
  inspected ← inspectPmtiles archive;
  Ok (archive, {| pm_byteLength := pm_byteLength inspected; pm_sha256 := pm_sha256 inspected; pm_etag := pm_etag inspected;
                  pm_bounds := pm_bounds inspected; pm_minZoom := pm_minZoom inspected; pm_maxZoom := pm_maxZoom inspected;
                  pm_tileCount := pm_tileCount inspected; pm_tileCompression := pm_tileCompression inspected;
                  pm_attribution := src_attribution (cn_source request) |}).

(** ** The package *)

Definition offlinePackageIdForRequest (request : CanonicalOfflinePackageRequest) : string :=
  ("omp2-" ++ FIPS.hash_hex (utf8_bytes (cn_requestKey request)))%string.

Definition equalBbox (left right : Bounds) : bool :=
  num_eq (west left) (west right) && num_eq (south left) (south right)
  && num_eq (east left) (east right) && num_eq (north left) (north right).

(** The manifest of [run]; the schema takes the zoom of the source as an integer. *)
Definition generated_manifest (request : CanonicalOfflinePackageRequest) (result : PmtilesPackageMetadata) (generatedAt : string)
    : OfflineMapPackageManifest :=
  let id := offlinePackageIdForRequest request in
  {| schemaVersion := 2; packageId := id; mf_requestKey := cn_requestKey request;
     ds_id := "openmapx"; ds_version := src_datasetVersion (cn_source request); ds_generatedAt := generatedAt;
     ds_sourceMaxZoom := match src_sourceMaxZoom (cn_source request) with Fin q => Qfloor q | _ => 0 end;
     ds_tileSchema := src_tileSchema (cn_source request);
     cov_bbox := cn_bbox request; cov_minZoom := cn_minZoom request; cov_maxZoom := cn_maxZoom request;
     ar_url := ("/api/offline/packages/" ++ id ++ "/archive")%string; ar_contentType := "application/vnd.pmtiles";
     ar_byteLength := pm_byteLength result; ar_sha256 := pm_sha256 result; ar_etag := pm_etag result;
     gl_version := src_glyphsVersion (cn_source request);
     gl_urlTemplate := ("/api/offline/packages/glyphs/" ++ src_glyphsVersion (cn_source request) ++ "/{fontstack}/{range}.pbf")%string;
     mf_attribution := src_attribution (cn_source request) |}.

(** The steps of [run] between the lease and the storage: the archive and its manifest. *)
Definition generate_package (maxPackageBytes : Z) (db : Mbtiles) (request : CanonicalOfflinePackageRequest) (generatedAt : string)
    : outcome (list Z * OfflineMapPackageManifest) :=
  '(archive, result) ← extractPmtilesPackage db request;
  if maxPackageBytes <? pm_byteLength result
  then Throw "offline package capacity: generated archive exceeds the package limit"
  else if negb (equalBbox (cn_bbox request) (pm_bounds result)) || negb (pm_minZoom result =? cn_minZoom request)
          || negb (pm_maxZoom result =? cn_maxZoom request)
  then Throw "generated PMTiles metadata does not match the canonical request"
  else
    manifest ← validateOfflineMapPackageManifest (generated_manifest request result generatedAt);
    Ok (archive, manifest).
End generate.

(** * What the server generates, the page can read

    An archive written by tile-pmtiles.ts passes the validation of pmtilesReader.ts and
    serves the tiles of its area. *)

(** Documented behaviour of the codecs: what is compressed on the server is decompressed
    there and in the browser, and the metadata are an object again. *)
Class WriterCodecLaws `{NodeCodecs} `{ArchiveCodecs} : Prop := {
  browser_gunzip b : Forall is_byte b -> gunzip (gzipSync b) = Ok b;
  server_gunzip b : Forall is_byte b -> gunzipSync (gzipSync b) = Ok b;
  gzip_is_bytes b : Forall is_byte b -> Forall is_byte (gzipSync b);
  gzip_not_empty b : gzipSync b <> [];
  json_is_bytes j : Forall is_byte (json_bytes j);
  json_read_back fields : exists fields', parse_json (json_bytes (JObj fields)) = Ok (JObj fields');
}.

(** ** Numbers *)

Lemma writeVarint_varint v : 0 <= v -> writeVarint v = Ok (varint v).
Proof.
  intros Hv. unfold writeVarint, varint. destruct (Z.ltb_spec v 0) as [|_]; [lia|]. f_equal.
  generalize (S (Z.to_nat (Z.log2 v))). intros fuel. clear Hv. revert v. induction fuel as [|fuel IH]; intros v; [done|].
  cbn [writeVarint_loop varint_loop]. change 127 with (Z.ones 7). rewrite Z.land_ones, Z.shiftr_div_pow2 by lia.
  change (2 ^ 7) with 128. by destruct (0 <? v / 128); [rewrite IH|].
Qed.

Lemma varint_bytes v : 0 <= v -> Forall is_byte (varint v).
Proof.
  unfold varint. generalize (S (Z.to_nat (Z.log2 v))). intros fuel. revert v.
  induction fuel as [|fuel IH]; intros v Hv; cbn [varint_loop]; [constructor|].
  pose proof (Z.mod_pos_bound v 128 ltac:(lia)) as Hb.
  destruct (Z.ltb_spec 0 (v / 128)).
  - constructor; [|apply IH; lia]. unfold is_byte. split; [apply Z.lor_nonneg; lia|].
    apply Z.log2_lt_cancel. rewrite Z.log2_lor by lia. apply Z.max_lub_lt; [|done].
    destruct (Z.eq_dec (v mod 128) 0) as [->|]; [done|].
    change (Z.log2 256) with 8. apply Z.log2_lt_pow2; lia.
  - constructor; [|constructor]. unfold is_byte. lia.
Qed.

Lemma write_pass_encode values : Forall (fun v => 0 <= v) values -> write_pass values = Ok (encode_pass values).
Proof.
  unfold encode_pass. induction 1 as [|v values Hv _ IH]; [done|]. cbn [write_pass map concat].
  rewrite writeVarint_varint by done. cbn [mbind outcome_bind]. by rewrite IH.
Qed.

Lemma encode_pass_bytes values : Forall (fun v => 0 <= v) values -> Forall is_byte (encode_pass values).
Proof.
  unfold encode_pass. induction 1 as [|v values Hv _ IH]; [constructor|]. cbn [map concat].
  apply Forall_app. split; [by apply varint_bytes|done].
Qed.

(** ** Directories *)

Definition as_entry (e : TileEntry) : DirectoryEntry :=
  {| tileId := te_tileId e; de_offset := te_offset e; de_length := te_length e; runLength := te_runLength e |}.

Lemma deltas_as_entry previous es : tile_id_deltas previous es = id_deltas previous (map as_entry es).
Proof. revert previous. induction es as [|e es IH]; intros previous; [done|]. cbn. by rewrite IH. Qed.

Lemma codes_as_entry index next es : offset_codes (S index) next es = offset_values next (map as_entry es).
Proof. revert index next. induction es as [|e es IH]; intros index next; [done|]. cbn. by rewrite IH. Qed.

Lemma first_codes es : offset_codes 0 0 es = first_offset_values (map as_entry es).
Proof. destruct es as [|e es]; [done|]. cbn. by rewrite <-(codes_as_entry 0). Qed.

Lemma safe_nonnegative values : Forall safe_natural values -> Forall (fun v => 0 <= v) values.
Proof. intros H. eapply Forall_impl; [exact H|]. by intros v [? _]. Qed.

(** The parts of the encoding, for a directory of the format. *)
Lemma passes_nonnegative es : directory es ->
  Forall (fun v => 0 <= v) (id_deltas 0 es) /\ Forall (fun v => 0 <= v) (map runLength es) /\
  Forall (fun v => 0 <= v) (map de_length es) /\ Forall (fun v => 0 <= v) (first_offset_values es).
Proof.
  intros (_ & _ & Hes & Hs). destruct (passes_safe es Hes Hs) as (? & ? & ? & ?).
  by split_and!; apply safe_nonnegative.
Qed.

Lemma encodeDirectory_bytes es : directory es -> Forall is_byte (encodeDirectory es).
Proof.
  intros Hd. destruct (passes_nonnegative es Hd) as (H1 & H2 & H3 & H4). unfold encodeDirectory. fold (first_offset_values es).
  rewrite !Forall_app. split; [apply varint_bytes; lia|]. by split_and!; apply encode_pass_bytes.
Qed.

Section facts.
Context `{WriterCodecLaws}.

Lemma writeDirectory_encode es : directory (map as_entry es) ->
  writeDirectory es = Ok (gzipSync (encodeDirectory (map as_entry es))).
Proof.
  intros Hd. pose proof Hd as (Hne & _). destruct (passes_nonnegative _ Hd) as (P1 & P2 & P3 & P4).
  unfold writeDirectory, encodeDirectory. fold (first_offset_values (map as_entry es)).
  rewrite length_map. destruct es as [|e es]; [done|]. set (l := e :: es) in *.
  rewrite writeVarint_varint by lia. cbn [mbind outcome_bind].
  rewrite map_map in P2, P3. rewrite !map_map, deltas_as_entry, first_codes.
  by rewrite (write_pass_encode _ P1), (write_pass_encode _ P2 : write_pass (map te_runLength l) = _),
    (write_pass_encode _ P3 : write_pass (map te_length l) = _), (write_pass_encode _ P4).
Qed.

(** What the server writes as a directory, the page decodes. *)
Lemma decode_written es bytes : directory (map as_entry es) -> writeDirectory es = Ok bytes ->
  decodeDirectory bytes GZIP = Ok (map as_entry es) /\ Forall is_byte bytes /\ bytes <> [].
Proof.
  intros Hd. rewrite writeDirectory_encode by done. intros [= <-].
  pose proof (encodeDirectory_bytes _ Hd). split; [|split; [by apply gzip_is_bytes|apply gzip_not_empty]].
  unfold decodeDirectory, decodeInternal. cbn [Z.eqb Pos.eqb GZIP NONE]. rewrite browser_gunzip by done.
  cbn [mbind outcome_bind]. by apply decode_encoded.
Qed.

(** ** Root and leaves *)

(** The leaves of a split and their pointers. *)
Fixpoint linked (written : Z) (groups : list (list TileEntry)) (leaves : list (list Z)) (pointers : list TileEntry) : Prop :=
  match groups, leaves, pointers with
  | [], [], [] => True
  | g :: groups, leaf :: leaves, p :: pointers =>
      writeDirectory g = Ok leaf /\
      as_entry p = {| tileId := match g with e :: _ => te_tileId e | [] => 0 end; de_offset := written;
                      de_length := Z.of_nat (length leaf); runLength := 0 |} /\
      linked (written + Z.of_nat (length leaf)) groups leaves pointers
  | _, _, _ => False
  end.

Lemma leaf_directories_linked groups : forall written leaves pointers,
  leaf_directories written groups = Ok (leaves, pointers) -> linked written groups leaves pointers.
Proof.
  induction groups as [|g groups IH]; intros written leaves pointers E; cbn [leaf_directories] in E.
  - by injection E as <- <-.
  - apply outcome_bind_ok in E as (leaf & Hleaf & E). apply outcome_bind_ok in E as ([ls ps] & Hrest & E).
    injection E as <- <-. cbn [linked]. split; [done|]. split; [done|]. by apply IH.
Qed.

(** What a successful split has written. *)
Definition split_into (T : list TileEntry) (s : DirectorySections) : Prop :=
  exists groups leaves pointers, concat groups = T /\ Forall (fun g => g <> []) groups /\
    linked 0 groups leaves pointers /\ writeDirectory pointers = Ok (ds_root s) /\ ds_leaves s = concat leaves.

Lemma chunks_nonempty {A} fuel n (l : list A) : (0 < n)%nat -> Forall (fun c => c <> []) (chunks fuel n l).
Proof.
  intros Hn. revert l. induction fuel as [|fuel IH]; intros [|x l]; try constructor; [|apply IH].
  destruct n; [lia|done].
Qed.

Lemma next_chunk_size_pos total c : (0 < total)%nat -> (0 < c)%nat -> (0 < next_chunk_size total c)%nat.
Proof.
  intros Ht Hc. unfold next_chunk_size. assert (1 <= (7 * c + 3) / 4)%nat by (apply Nat.div_le_lower_bound; lia). lia.
Qed.

Lemma split_directories_into T : T <> [] -> forall fuel c s, (0 < c)%nat -> split_directories fuel c T = Ok s -> split_into T s.
Proof.
  intros HT. assert (0 < length T)%nat by (destruct T; [done|cbn; lia]).
  induction fuel as [|fuel IH]; intros c s Hc E; [discriminate|]. cbn [split_directories] in E.
  apply outcome_bind_ok in E as ([leaves pointers] & Hl & E). apply outcome_bind_ok in E as (root & Hr & E).
  destruct (_ <=? _) in E.
  - injection E as <-. exists (chunks (length T) c T), leaves, pointers. cbn [ds_root ds_leaves].
    split_and!; [by apply concat_chunks|by apply chunks_nonempty|by apply leaf_directories_linked|done|done].
  - destruct (_ <=? _)%nat in E; [discriminate|]. eapply IH; [|exact E]. by apply next_chunk_size_pos.
Qed.

Lemma sections_written T s : T <> [] -> buildDirectorySections T = Ok s ->
  (writeDirectory T = Ok (ds_root s) /\ ds_leaves s = []) \/ split_into T s.
Proof.
  intros HT (direct & Hd & E)%outcome_bind_ok. destruct (_ <=? _) in E.
  - injection E as <-. by left.
  - right. eapply split_directories_into; [done| |exact E]. lia.
Qed.

(** The chunks grow until they are the whole: one round an entry is enough. *)
Lemma split_directories_fuel T c fuel k : (0 < c <= length T)%nat -> (length T - c < fuel)%nat ->
  split_directories (fuel + k) c T = split_directories fuel c T.
Proof.
  revert c. induction fuel as [|fuel IH]; intros c Hc Hf; [lia|]. cbn [split_directories Nat.add].
  destruct (leaf_directories 0 _) as [[leaves pointers]|e]; [|done]. cbn [mbind outcome_bind].
  destruct (writeDirectory pointers) as [root|e]; [|done]. cbn [mbind outcome_bind].
  destruct (_ <=? _); [done|]. destruct (Nat.leb_spec (length T) c); [done|].
  assert (c + 1 <= (7 * c + 3) / 4)%nat by (apply Nat.div_le_lower_bound; lia).
  apply IH; unfold next_chunk_size; lia.
Qed.

(** ** Reading the sections back *)

(** The bytes at an offset of a file. *)
Definition section (file : list Z) (offset : Z) (bytes : list Z) : Prop :=
  take (length bytes) (drop (Z.to_nat offset) file) = bytes.

Lemma section_app file offset a b : 0 <= offset ->
  section file offset (a ++ b) <-> section file offset a /\ section file (offset + Z.of_nat (length a)) b.
Proof.
  intros Ho. unfold section. rewrite length_app, <-take_take_drop, drop_drop, Z2Nat.inj_add, Nat2Z.id by lia.
  split.
  - intros E. pose proof (f_equal length E) as El. rewrite !length_app, !length_take in El.
    apply app_inj_1 in E; [done|]. rewrite length_take. lia.
  - intros [-> ->]. done.
Qed.

Lemma section_mid a b c : section (a ++ b ++ c) (Z.of_nat (length a)) b.
Proof. unfold section. rewrite Nat2Z.id, drop_app_length. by rewrite take_app_length. Qed.

Lemma section_inside file offset bytes : 0 <= offset -> section file offset bytes -> bytes <> [] ->
  offset + Z.of_nat (length bytes) <= Z.of_nat (length file).
Proof.
  intros Ho E Hne. apply (f_equal length) in E. rewrite length_take, length_drop in E.
  destruct bytes; [done|]. cbn [length] in *. lia.
Qed.

Lemma readExact_section file offset bytes : 0 <= offset <= MAX_SAFE_INTEGER -> Z.of_nat (length bytes) <= MAX_SAFE_INTEGER ->
  section file offset bytes -> readExact file offset (Z.of_nat (length bytes)) = Ok bytes.
Proof.
  intros Ho Hl E. unfold readExact, file_read, is_safe. rewrite !Z.abs_eq by lia.
  destruct (Z.leb_spec offset MAX_SAFE_INTEGER); [|lia]. destruct (Z.leb_spec (Z.of_nat (length bytes)) MAX_SAFE_INTEGER); [|lia].
  destruct (Z.ltb_spec offset 0); [lia|]. destruct (Z.ltb_spec (Z.of_nat (length bytes)) 0); [lia|]. cbn [negb orb mbind outcome_bind].
  rewrite Nat2Z.id. unfold section in E. by rewrite E, Z.eqb_refl.
Qed.

(** Entries as the writer lays them out: a directory of runs of one. *)
Definition single (e : TileEntry) : Prop := te_runLength e = 1.

Lemma increasing_app a b : increasing (a ++ b) -> increasing a /\ increasing b /\
  forall x y, x ∈ a -> y ∈ b -> tileId x < tileId y.
Proof. unfold increasing. rewrite StronglySorted_app. intros (Ha & Hab & Hb). auto. Qed.

Lemma directory_of_group g rest : g <> [] -> directory (map as_entry (g ++ rest)) -> directory (map as_entry g).
Proof.
  intros Hne (_ & Hc & Hok & Hs). rewrite map_app in *. apply Forall_app in Hok as [Hok _]. apply increasing_app in Hs as (Hs & _).
  rewrite length_app in Hc. split; [by destruct g|]. split; [|done]. unfold safe_natural in *. lia.
Qed.

Lemma directory_of_rest g rest : rest <> [] -> directory (map as_entry (g ++ rest)) -> directory (map as_entry rest).
Proof.
  intros Hne (_ & Hc & Hok & Hs). rewrite map_app in *. apply Forall_app in Hok as [_ Hok]. apply increasing_app in Hs as (_ & Hs & _).
  rewrite length_app in Hc. split; [by destruct rest|]. split; [|done]. unfold safe_natural in *. lia.
Qed.

Section reading.
Context (file : list Z) (h : LocalPmtilesHeader) (Hgzip : internalCompression h = GZIP) (Hleaf : 0 <= leafOffset h).

Lemma leaf_read written leaf g e : directory (map as_entry g) -> writeDirectory g = Ok leaf ->
  de_offset e = written -> de_length e = Z.of_nat (length leaf) ->
  0 <= written -> section file (leafOffset h + written) leaf ->
  written + Z.of_nat (length leaf) <= leafLength h -> leafOffset h + leafLength h <= MAX_SAFE_INTEGER ->
  leafDirectory file h e = Ok (map as_entry g).
Proof.
  intros Hd Hw Eo El Hwr Hsec Hin Hsafe. destruct (decode_written g leaf Hd Hw) as (Hdec & _ & Hne).
  assert (0 < Z.of_nat (length leaf)) by (destruct leaf; [done|cbn; lia]).
  unfold leafDirectory. rewrite Eo, El. destruct (Z.eqb_spec (leafLength h) 0); [lia|].
  destruct (Z.ltb_spec (leafLength h - Z.of_nat (length leaf)) written); [lia|]. cbn [orb].
  rewrite readExact_section by (done || lia). cbn [mbind outcome_bind]. by rewrite Hgzip.
Qed.

Lemma collect_linked groups : forall written leaves pointers, linked written groups leaves pointers ->
  Forall (fun g => g <> []) groups -> (groups <> [] -> directory (map as_entry (concat groups))) -> Forall (Forall single) groups ->
  0 <= written -> section file (leafOffset h + written) (concat leaves) ->
  written + Z.of_nat (length (concat leaves)) <= leafLength h -> leafOffset h + leafLength h <= MAX_SAFE_INTEGER ->
  collect file h (map as_entry pointers) = Ok (map as_entry (concat groups), map (fun p => (te_offset p, te_length p)) pointers).
Proof.
  induction groups as [|g groups IH]; intros written [|leaf leaves] [|p pointers] Hl Hne Hd Hone Hw Hsec Hin Hsafe; try done.
  destruct Hl as (Hleafw & Ep & Hl). apply Forall_cons in Hne as [Hg Hne], Hone as [Hone1 Hone]. specialize (Hd ltac:(done)).
  cbn [concat] in *. apply section_app in Hsec as [Hsec1 Hsec2]; [|lia]. rewrite length_app in Hin.
  pose proof (directory_of_group g _ Hg Hd) as Hdg.
  cbn [map collect]. assert (runLength (as_entry p) = 0) as -> by (by rewrite Ep). cbn [Z.ltb Z.compare].
  rewrite (leaf_read written leaf g) by (rewrite ?Ep; done || lia). cbn [mbind outcome_bind].
  assert (existsb (fun c => runLength c =? 0) (map as_entry g) = false) as ->.
  { apply not_true_iff_false. rewrite existsb_exists. intros (c & Hc & Hz). apply in_map_iff in Hc as (e & <- & He).
    rewrite <-list_elem_of_In in He. rewrite Forall_forall in Hone1. specialize (Hone1 e He). unfold single in Hone1.
    cbn in Hz. lia. }
  pose proof Hd as (_ & _ & _ & Hs). rewrite map_app in Hs. apply increasing_app in Hs as (Hsg & _ & Hcross).
  assert (existsb (fun c => (tileId c <? tileId (as_entry p))
    || match map as_entry pointers with next :: _ => tileId next <=? tileId c | [] => false end) (map as_entry g) = false) as ->.
  { apply not_true_iff_false. rewrite existsb_exists. intros (c & Hc & Hz). rewrite <-list_elem_of_In in Hc.
    apply orb_true_iff in Hz as [Hz|Hz].
    - rewrite Ep in Hz. cbn [tileId] in Hz. destruct g as [|e g]; [done|]. cbn [map] in Hc, Hsg.
      inversion Hsg as [|? ? _ He]; subst. rewrite Forall_forall in He.
      apply elem_of_cons in Hc as [->|Hc]; [cbn in Hz; lia|]. specialize (He c Hc). cbn in He. lia.
    - destruct groups as [|g' groups], leaves as [|leaf' leaves], pointers as [|p' pointers]; try done.
      destruct Hl as (_ & Ep' & _). apply Forall_cons in Hne as [Hg' _]. destruct g' as [|e' g']; [done|].
      cbn [map] in Hz. rewrite Ep' in Hz. cbn in Hz.
      specialize (Hcross c (as_entry e') Hc ltac:(left)). cbn in Hcross. lia. }
  rewrite (IH (written + Z.of_nat (length leaf)) leaves pointers); try done; try lia.
  - cbn [mbind outcome_bind]. by rewrite map_app.
  - intros Hne'. apply (directory_of_rest g); [|done]. destruct groups as [|g' groups]; [done|].
    apply Forall_cons in Hne as [? _]. by destruct g'.
  - by rewrite Z.add_assoc.
Qed.

(** A leaf starts at its pointer. *)
Lemma linked_starts groups : forall written leaves pointers, linked written groups leaves pointers ->
  Forall (fun g => g <> []) groups -> (groups <> [] -> directory (map as_entry (concat groups))) ->
  0 <= written -> section file (leafOffset h + written) (concat leaves) ->
  written + Z.of_nat (length (concat leaves)) <= leafLength h -> leafOffset h + leafLength h <= MAX_SAFE_INTEGER ->
  leaves_start_at_pointers file h (map as_entry pointers).
Proof.
  induction groups as [|g groups IH]; intros written [|leaf leaves] [|p pointers] Hl Hne Hd Hw Hsec Hin Hsafe; try done.
  { intros e leaf He. by apply not_elem_of_nil in He. }
  destruct Hl as (Hleafw & Ep & Hl). apply Forall_cons in Hne as [Hg Hne]. specialize (Hd ltac:(done)).
  cbn [concat] in *. apply section_app in Hsec as [Hsec1 Hsec2]; [|lia]. rewrite length_app in Hin.
  pose proof (directory_of_group g _ Hg Hd) as Hdg. intros e leaf' He Hz Hread. cbn [map] in He.
  apply elem_of_cons in He as [->|He].
  - rewrite (leaf_read written leaf g) in Hread by (rewrite ?Ep; done || lia). injection Hread as <-. rewrite Ep.
    destruct g as [|t g]; [done|]. exists (as_entry t). split; [left|done].
  - apply (IH (written + Z.of_nat (length leaf)) leaves pointers) with (e := e); try done; try lia.
    + intros Hne'. apply (directory_of_rest g); [|done]. destruct groups as [|g' groups]; [done|].
      apply Forall_cons in Hne as [? _]. by destruct g'.
    + by rewrite Z.add_assoc.
Qed.
End reading.
End facts.

(** ** The checks of the page *)

Definition range_of (e : DirectoryEntry) : Z * Z := (de_offset e, de_length e).

(** Ranges that follow one another. *)
Fixpoint contiguous (offset : Z) (ranges : list (Z * Z)) : Prop :=
  match ranges with
  | [] => True
  | r :: ranges => r.1 = offset /\ 0 < r.2 /\ contiguous (offset + r.2) ranges
  end.

Definition ranges_end (offset : Z) (ranges : list (Z * Z)) : Z := foldl (fun o r => o + r.2) offset ranges.

Lemma contiguous_after offset ranges : contiguous offset ranges -> Forall (fun r => offset <= r.1) ranges.
Proof.
  revert offset. induction ranges as [|r ranges IH]; intros offset Hc; [constructor|]. destruct Hc as (E & Hp & Hc).
  constructor; [lia|]. eapply Forall_impl; [by apply IH|]. cbn. lia.
Qed.

Lemma ranges_end_ge offset ranges : contiguous offset ranges -> offset <= ranges_end offset ranges.
Proof.
  revert offset. induction ranges as [|r ranges IH]; intros offset Hc; [cbn; lia|]. destruct Hc as (_ & ? & Hc).
  change (ranges_end offset (r :: ranges)) with (ranges_end (offset + r.2) ranges). specialize (IH _ Hc). lia.
Qed.

Lemma contiguous_sorted offset ranges : contiguous offset ranges ->
  StronglySorted (fun a b => range_before a b = true) ranges.
Proof.
  revert offset. induction ranges as [|r ranges IH]; intros offset Hc; [constructor|]. destruct Hc as (E & Hp & Hc).
  constructor; [by eapply IH|]. eapply Forall_impl; [by apply contiguous_after|]. intros r' Hr'. cbn in Hr'.
  unfold range_before. apply orb_true_iff. left. lia.
Qed.

Lemma contiguous_ranges message offset ranges : contiguous offset ranges ->
  check_ranges message (order_by range_before ranges) = Ok tt.
Proof.
  intros Hc. rewrite order_by_sorted by (by eapply contiguous_sorted). revert offset Hc.
  induction ranges as [|r [|r' ranges] IH]; intros offset Hc; [done|done|]. destruct Hc as (E & Hp & Hc).
  cbn [check_ranges]. pose proof Hc as (E' & _). destruct (Z.ltb_spec r'.1 (r.1 + r.2)); [lia|]. by eapply IH.
Qed.

Lemma increasing_unique es a b : increasing es -> a ∈ es -> b ∈ es -> tileId a = tileId b -> a = b.
Proof.
  intros Hs. induction Hs as [|e es Hs IH He]; intros Ha Hb E; [by apply not_elem_of_nil in Ha|].
  rewrite Forall_forall in He. apply elem_of_cons in Ha as [->|Ha], Hb as [->|Hb]; [done| | |by apply IH].
  - specialize (He b Hb). lia.
  - specialize (He a Ha). lia.
Qed.

Lemma sort_increasing es : increasing es -> sort_by tileId es = es.
Proof.
  intros Hs. apply (StronglySorted_unique_strong (fun x y => tileId x <= tileId y)).
  - intros a b Ha Hb Hab Hba. rewrite sort_by_perm in Ha. eapply increasing_unique; [done|done|done|lia].
  - apply sort_by_sorted.
  - eapply StronglySorted_weaken; [|exact Hs]. cbn. lia.
  - apply sort_by_perm.
Qed.

(** Tiles of a run of one, laid out one after another, within the zooms of the header. *)
Record laid_out (h : LocalPmtilesHeader) (es : list DirectoryEntry) : Prop := {
  lo_single : Forall (fun e => runLength e = 1) es;
  lo_zooms : Forall (fun e => zoom_start (Z.to_nat (minZoom h)) <= tileId e < zoom_start (Z.to_nat (maxZoom h + 1))) es;
  lo_increasing : increasing es;
}.

Lemma check_tiles_pass h es : forall previous addressed contents offset,
  laid_out h es -> contiguous offset (map range_of es) -> ranges_end offset (map range_of es) <= tileDataLength h ->
  (forall p, previous = Some p -> Forall (fun e => tileId p + runLength p <= tileId e) es) ->
  Forall (fun r => r.1 < offset) contents -> 0 <= addressed -> addressed + Z.of_nat (length es) <= MAX_SAFE_INTEGER ->
  check_tiles h previous addressed contents es
    = Ok (addressed + Z.of_nat (length es), contents ++ map range_of es).
Proof.
  induction es as [|e es IH]; intros previous addressed contents offset Hl Hc Hend Hp Hcont Ha Hsafe; cbn [check_tiles map length] in *.
  - by rewrite Z.add_0_r, app_nil_r.
  - destruct Hl as [Hone Hz Hs]. apply Forall_cons in Hone as [H1 Hone], Hz as [Hz1 Hz]. inversion Hs as [|? ? Hs' He]; subst.
    destruct Hc as (Eo & Hlen & Hc). cbn in Eo, Hlen. rewrite H1.
    assert ((1 <=? 0) || (tileId e <? zoom_start (Z.to_nat (minZoom h))) || (zoom_start (Z.to_nat (maxZoom h + 1)) <? tileId e + 1) = false) as ->.
    { rewrite !orb_false_iff, !Z.ltb_ge. lia. }
    assert (match previous with Some p => tileId e <? tileId p + runLength p | None => false end = false) as ->.
    { destruct previous as [p|]; [|done]. specialize (Hp p eq_refl). apply Forall_cons in Hp as [Hp _]. lia. }
    pose proof (ranges_end_ge _ _ Hc) as Hm. cbn [range_of snd] in Hm. change (ranges_end (offset + de_length e) (map range_of es) <= tileDataLength h) in Hend.
    destruct (Z.ltb_spec (tileDataLength h - de_length e) (de_offset e)); [lia|].
    unfold is_safe. rewrite Z.abs_eq by lia. destruct (Z.leb_spec (addressed + 1) MAX_SAFE_INTEGER); [|lia]. cbn [negb].
    rewrite bool_decide_eq_false_2.
    2: { intros Hin. rewrite Forall_forall in Hcont. specialize (Hcont _ Hin). cbn in Hcont. lia. }
    rewrite (IH (Some e) (addressed + 1) _ (offset + de_length e)); try done; try lia.
    + rewrite <-app_assoc. do 2 f_equal. lia.
    + intros p [= <-]. rewrite H1. eapply Forall_impl; [exact He|]. cbn. lia.
    + apply Forall_app. split; [eapply Forall_impl; [exact Hcont|]; cbn; lia|]. constructor; [cbn; lia|constructor].
Qed.

(** ** An archive around its directories *)

Section around.
Context `{WriterCodecLaws}.

(** The parts of a file where its header says they are. *)
Record assembled (file : list Z) (h : LocalPmtilesHeader) (s : DirectorySections) (T : list TileEntry) : Prop := {
  as_header : header file = Ok h;
  as_gzip : internalCompression h = GZIP;
  as_root : 0 <= rootOffset h <= MAX_SAFE_INTEGER /\ rootLength h = Z.of_nat (length (ds_root s)) /\
    rootLength h <= MAX_SAFE_INTEGER /\ section file (rootOffset h) (ds_root s);
  as_leaves : 0 < leafOffset h /\ leafLength h = Z.of_nat (length (ds_leaves s)) /\
    leafOffset h + leafLength h <= MAX_SAFE_INTEGER /\ section file (leafOffset h) (ds_leaves s);
  as_built : buildDirectorySections T = Ok s;
  as_directory : directory (map as_entry T);
  as_laid_out : laid_out h (map as_entry T);
  as_contiguous : contiguous 0 (map range_of (map as_entry T));
  as_end : ranges_end 0 (map range_of (map as_entry T)) <= tileDataLength h;
}.

(** Pointers are a directory too. *)
Lemma linked_pointers groups : forall written leaves pointers, linked written groups leaves pointers ->
  Forall (fun g => g <> []) groups -> (groups <> [] -> directory (map as_entry (concat groups))) ->
  0 <= written -> written + Z.of_nat (length (concat leaves)) < MAX_SAFE_INTEGER ->
  Forall entry_ok (map as_entry pointers) /\ increasing (map as_entry pointers) /\
  (length pointers <= length (concat leaves))%nat /\
  contiguous written (map range_of (map as_entry pointers)) /\
  (forall id, Forall (fun e => id < tileId e) (map as_entry (concat groups)) -> Forall (fun e => id < tileId e) (map as_entry pointers)).
Proof.
  induction groups as [|g groups IH]; intros written [|leaf leaves] [|p pointers] Hl Hne Hd Hw Hsafe; try done.
  { split_and!; try constructor; done. }
  destruct Hl as (Hleafw & Ep & Hl). apply Forall_cons in Hne as [Hg Hne]. specialize (Hd ltac:(done)).
  cbn [concat] in *. rewrite length_app in *. pose proof (directory_of_group g _ Hg Hd) as Hdg.
  destruct (decode_written g leaf Hdg Hleafw) as (_ & _ & Hleaf).
  assert (1 <= length leaf)%nat by (destruct leaf; [done|cbn; lia]).
  destruct (IH (written + Z.of_nat (length leaf)) leaves pointers) as (Hok & Hs & Hcount & Hcont & Habove); try done; try lia.
  { intros Hne'. apply (directory_of_rest g); [|done]. destruct groups as [|g' groups]; [done|].
    apply Forall_cons in Hne as [? _]. by destruct g'. }
  destruct g as [|e g]; [done|]. pose proof Hd as (_ & _ & Hoks & Hsorted). cbn [app map] in Hoks, Hsorted.
  apply Forall_cons in Hoks as [(? & ? & ? & ? & ? & ?) _]. inversion Hsorted as [|? ? _ He]; subst.
  rewrite map_app in He. apply Forall_app in He as [_ He]. cbn [as_entry tileId runLength] in *.
  cbn [map]. rewrite Ep. split.
  { constructor; [|done]. unfold entry_ok. cbn. lia. }
  split; [constructor; [done|]; apply Habove; exact He|]. split; [cbn [length]; lia|]. split; [by split_and!; [|cbn; lia|]|].
  intros id Hid. cbn [app map] in Hid. apply Forall_cons in Hid as [Hid Hrest]. constructor; [exact Hid|].
  apply Habove. rewrite map_app in Hrest. by apply Forall_app in Hrest as [_ ?].
Qed.

Lemma single_laid_out h T : laid_out h (map as_entry T) -> Forall single T.
Proof. intros [Hone _ _]. apply Forall_map in Hone. exact Hone. Qed.

Section file.
Context (file : list Z) (h : LocalPmtilesHeader) (s : DirectorySections) (T : list TileEntry) (Ha : assembled file h s T).

Lemma root_of es : directory (map as_entry es) -> writeDirectory es = Ok (ds_root s) ->
  rootDirectory file h = Ok (map as_entry es).
Proof.
  intros Hd Hw. destruct (decode_written es _ Hd Hw) as (Hdec & _ & Hne). destruct (as_root _ _ _ _ Ha) as (Ho & El & Hl & Hsec).
  unfold rootDirectory. rewrite El. rewrite readExact_section by (done || lia). cbn [mbind outcome_bind].
  by rewrite (as_gzip _ _ _ _ Ha).
Qed.

(** The tiles the validation collects, and their leaves. *)
Lemma assembled_collect : exists root ranges,
  rootDirectory file h = Ok root /\ collect file h root = Ok (map as_entry T, ranges) /\
  contiguous 0 ranges /\ leaves_start_at_pointers file h root.
Proof.
  pose proof (as_directory _ _ _ _ Ha) as Hd. pose proof (single_laid_out _ _ (as_laid_out _ _ _ _ Ha)) as Hone.
  assert (T <> []) as HT by (destruct Hd as (Hne & _); by destruct T).
  destruct (sections_written T s HT (as_built _ _ _ _ Ha)) as [[Hw Hnil]|(groups & leaves & pointers & Ec & Hne & Hl & Hw & El)].
  - exists (map as_entry T), []. split; [by apply root_of|]. split; [|split; [done|]].
    + clear -Hone. induction Hone as [|e T He _ IH]; [done|]. cbn [map collect].
      assert (runLength (as_entry e) = 1) as -> by exact He. cbn [Z.ltb Z.compare]. by rewrite IH.
    + intros e leaf Hin Hz. apply list_elem_of_fmap in Hin as (t & -> & Ht). rewrite Forall_forall in Hone.
      specialize (Hone t Ht). unfold single in Hone. cbn in Hz. lia.
  - destruct (as_leaves _ _ _ _ Ha) as (Hlo & Hll & Hsafe & Hsec). rewrite El in Hll, Hsec. rewrite <-Ec in Hd, Hone |- *.
    assert (Hgroups : Forall (Forall single) groups).
    { clear -Hone. induction groups as [|g groups IH]; [constructor|]. cbn in Hone. apply Forall_app in Hone as [? ?]. auto. }
    assert (Hne0 : groups <> []) by (intros ->; done).
    assert (Hdc : groups <> [] -> directory (map as_entry (concat groups))) by done.
    destruct (linked_pointers groups 0 leaves pointers Hl Hne Hdc) as (Hok & Hs & Hcount & Hcont & _); [lia|lia|].
    assert (directory (map as_entry pointers)) as Hdp.
    { split; [|split; [rewrite length_map; unfold safe_natural; lia|done]].
      destruct groups, leaves, pointers; done. }
    exists (map as_entry pointers), (map range_of (map as_entry pointers)).
    assert (section file (leafOffset h + 0) (concat leaves)) as Hsec' by (by rewrite Z.add_0_r).
    pose proof (as_gzip _ _ _ _ Ha) as Hgz.
    split; [by apply root_of|]. split; [|split; [done|eapply (linked_starts file h Hgz); try done; lia]].
    rewrite (collect_linked file h Hgz) with (groups := groups) (leaves := leaves) (written := 0); try done; try lia.
    by rewrite map_map.
Qed.

(** The bytes of the first tile, as they are served. *)
Definition served (e : DirectoryEntry) (payload : list Z) : Prop := tilePayload file h e = Ok payload.

(** The page's validation: the zooms at both ends have a tile, and the counts are right. *)
Lemma assembled_valid first rest payload :
  map as_entry T = first :: rest -> tileId first < zoom_start (Z.to_nat (minZoom h + 1)) ->
  (exists e, e ∈ map as_entry T /\ zoom_start (Z.to_nat (maxZoom h)) <= tileId e) ->
  addressedTiles h = Z.of_nat (length T) -> tileEntries h = Z.of_nat (length T) -> tileContents h = Z.of_nat (length T) ->
  served first payload -> payload <> [] -> validate file = Ok tt.
Proof.
  intros Ef Hfirst (e & He & Hlast) C1 C2 C3 Hpay Hne. destruct assembled_collect as (root & ranges & Hroot & Hc & Hcont & _).
  pose proof (as_laid_out _ _ _ _ Ha) as Hl. pose proof (lo_increasing _ _ Hl) as Hs.
  unfold validate. rewrite (as_header _ _ _ _ Ha). cbn [mbind outcome_bind]. rewrite Hroot. cbn [mbind outcome_bind].
  rewrite Hc. cbn [mbind outcome_bind]. rewrite (contiguous_ranges _ 0) by done. cbn [mbind outcome_bind].
  rewrite sort_increasing by done. pose proof (as_directory _ _ _ _ Ha) as (_ & [_ Hcount] & _). rewrite length_map in Hcount.
  rewrite (check_tiles_pass h _ None 0 [] 0); try done; try (rewrite ?length_map; lia);
    [|apply (as_contiguous _ _ _ _ Ha)|apply (as_end _ _ _ _ Ha)].
  cbn [mbind outcome_bind app]. unfold check_totals. rewrite Ef at 1.
  destruct (Z.leb_spec (zoom_start (Z.to_nat (minZoom h + 1))) (tileId first)); [lia|]. cbn [reject].
  assert (exists l, last (map as_entry T) = Some l /\ zoom_start (Z.to_nat (maxZoom h)) < tileId l + runLength l) as (l & El & Hle).
  { destruct (last (map as_entry T)) as [l|] eqn:El; [|by rewrite Ef in El; apply last_None in El].
    exists l. split; [done|]. apply last_Some in El as [l' El]. destruct Hl as [Hone _ _]. rewrite Forall_forall in Hone.
    assert (l ∈ map as_entry T) as Hin by (rewrite El; apply elem_of_app; right; left). rewrite (Hone l Hin).
    rewrite El in He, Hs. apply increasing_app in Hs as (_ & _ & Hcross). apply elem_of_app in He as [He|He].
    - specialize (Hcross e l He ltac:(left)). lia.
    - apply list_elem_of_singleton in He as ->. lia. }
  rewrite El. destruct (Z.leb_spec (tileId l + runLength l) (zoom_start (Z.to_nat (maxZoom h)))); [lia|].
  rewrite (contiguous_ranges _ 0) by apply (as_contiguous _ _ _ _ Ha). cbn [mbind outcome_bind].
  rewrite C1, C2, C3, !length_map, !Z.add_0_l, !Z.eqb_refl. cbn [negb orb]. unfold served in Hpay. rewrite Hpay.
  cbn [mbind outcome_bind]. by rewrite bool_decide_eq_false_2.
Qed.
End file.
End around.
