(* ===== verification/Generated.v ===== *)
(** * A generated package serves its tiles

    From the request of a traveller to the tiles the page draws: what generator.ts and
    tile-pmtiles.ts make of an area, downloaded, validated and looked up by the page.
    The facts follow the file: its header, one the page accepts, the rows of an area, the
    tiles of the rows, their order, the directories, and the package around them. *)

From stdpp Require Import gmap sorting.
From S2P Require Import Prelude Text Words Doubles NumberText Sha256 TileId Pmtiles Archive Manifest Download DownloadFacts DownloadEnds SampleMath Request Writer.
From Stdlib Require Import QArith_base Qround Qabs Qreduction Lqa Permutation.
Local Open Scope Z_scope.

(** ** The header *)

(** The header as the page names its fields. *)
Definition page_header (h : PmtilesHeader) : LocalPmtilesHeader := {|
  rootOffset := ph_rootOffset h; rootLength := ph_rootLength h;
  metadataOffset := ph_metadataOffset h; metadataLength := ph_metadataLength h;
  leafOffset := ph_leafOffset h; leafLength := ph_leafLength h;
  tileDataOffset := ph_tileDataOffset h; tileDataLength := ph_tileDataLength h;
  addressedTiles := ph_addressedTiles h; tileEntries := ph_tileEntries h; tileContents := ph_tileContents h;
  clustered := ph_clustered h; internalCompression := ph_internalCompression h; tileCompression := ph_tileCompression h;
  tileType := ph_tileType h; minZoom := ph_minZoom h; maxZoom := ph_maxZoom h; hd_bounds := ph_bounds h |}.

Lemma write_unsigned_ok n v bytes : write_unsigned n v = Ok bytes -> 0 <= v < 256 ^ Z.of_nat n /\ bytes = little_endian n v.
Proof. unfold write_unsigned. destruct (_ || _) eqn:E; [discriminate|]. intros [= <-]. apply orb_false_iff in E. split; [lia|done]. Qed.

Lemma write_position_micro k bytes : Z.abs k <= 2 ^ 28 -> write_position (micro k) = Ok bytes ->
  - 2 ^ 31 <= 10 * k < 2 ^ 31 /\ bytes = little_endian 4 ((10 * k) mod 2 ^ 32).
Proof.
  intros Hk. unfold write_position. rewrite round_ten_micro by done. unfold num_of_Z. rewrite Qfloor_Z.
  destruct (_ || _) eqn:E; [discriminate|]. intros [= <-]. apply orb_false_iff in E. split; [lia|done].
Qed.

(** Four bytes are written for any position. *)
Lemma write_position_ok x bytes : write_position x = Ok bytes -> exists z, bytes = little_endian 4 z.
Proof.
  unfold write_position. destruct (num_round _) as [| | |q]; try discriminate.
  - intros [= <-]. by eexists.
  - destruct (_ || _); [discriminate|]. intros [= <-]. by eexists.
Qed.

(** The bytes of the fields, one after another. *)
Definition header_bytes (h : PmtilesHeader) (w s e n lon lat : Z) : list Z :=
  MAGIC ++ little_endian 1 3
  ++ little_endian 8 (ph_rootOffset h) ++ little_endian 8 (ph_rootLength h)
  ++ little_endian 8 (ph_metadataOffset h) ++ little_endian 8 (ph_metadataLength h)
  ++ little_endian 8 (ph_leafOffset h) ++ little_endian 8 (ph_leafLength h)
  ++ little_endian 8 (ph_tileDataOffset h) ++ little_endian 8 (ph_tileDataLength h)
  ++ little_endian 8 (ph_addressedTiles h) ++ little_endian 8 (ph_tileEntries h) ++ little_endian 8 (ph_tileContents h)
  ++ little_endian 1 (if ph_clustered h then 1 else 0) ++ little_endian 1 (ph_internalCompression h)
  ++ little_endian 1 (ph_tileCompression h) ++ little_endian 1 (ph_tileType h)
  ++ little_endian 1 (ph_minZoom h) ++ little_endian 1 (ph_maxZoom h)
  ++ little_endian 4 w ++ little_endian 4 s ++ little_endian 4 e ++ little_endian 4 n
  ++ little_endian 1 (ph_centerZoom h) ++ little_endian 4 lon ++ little_endian 4 lat.

Definition word_fields (h : PmtilesHeader) : list Z :=
  [ph_rootOffset h; ph_rootLength h; ph_metadataOffset h; ph_metadataLength h; ph_leafOffset h; ph_leafLength h;
   ph_tileDataOffset h; ph_tileDataLength h; ph_addressedTiles h; ph_tileEntries h; ph_tileContents h].

Definition byte_fields (h : PmtilesHeader) : list Z :=
  [ph_internalCompression h; ph_tileCompression h; ph_tileType h; ph_minZoom h; ph_maxZoom h].

Lemma write_fields_cons field fields bytes : write_fields (field :: fields) = Ok bytes ->
  exists a b, field = Ok a /\ write_fields fields = Ok b /\ bytes = a ++ b.
Proof.
  cbn [write_fields]. intros (a & Ha & E)%outcome_bind_ok. apply outcome_bind_ok in E as (b & Hb & E).
  injection E as <-. by exists a, b.
Qed.

Ltac take_field E := let bytes := fresh "part" in let rest := fresh "rest" in let H := fresh "Hp" in
  apply write_fields_cons in E as (bytes & rest & H & E & ->);
  first [ apply write_unsigned_ok in H as [? ->]
        | apply write_position_micro in H as [? ->]; [|assumption]
        | apply write_position_ok in H as [? ->]
        | apply Ok_inj in H as <- ].

Lemma writeHeader_bytes h w s e n bytes :
  ph_bounds h = {| west := micro w; south := micro s; east := micro e; north := micro n |} ->
  Forall (fun k => Z.abs k <= 2 ^ 28) [w; s; e; n] -> writeHeader h = Ok bytes ->
  exists lon lat, bytes = header_bytes h ((10 * w) mod 2 ^ 32) ((10 * s) mod 2 ^ 32) ((10 * e) mod 2 ^ 32) ((10 * n) mod 2 ^ 32) lon lat /\
    Forall (fun v => 0 <= v) (word_fields h) /\ Forall is_byte (byte_fields h) /\
    Forall (fun k => - 2 ^ 31 <= 10 * k < 2 ^ 31) [w; s; e; n].
Proof.
  intros Eb Hk E. unfold writeHeader in E. rewrite Eb in E. cbn [west south east north map app] in E.
  rewrite !Forall_cons in Hk. destruct Hk as (Hw & Hs & He & Hn & _).
  repeat take_field E. apply Ok_inj in E as <-. eexists _, _. split; [reflexivity|].
  unfold word_fields, byte_fields, is_byte. cbn [Z.of_nat] in *.
  split; [repeat constructor; lia|]. split; [repeat constructor; lia|]. repeat constructor; lia.
Qed.

Lemma little_endian_sum n v : 0 <= v < 256 ^ Z.of_nat n ->
  foldl (fun value i => value * 256 + v / 256 ^ Z.of_nat i mod 256) 0 (rev (seq 0 n)) = v.
Proof.
  revert v. induction n as [|n IH]; intros v Hv; [cbn in *; lia|].
  rewrite Nat2Z.inj_succ, Z.pow_succ_r in Hv by lia.
  assert (forall l acc, foldl (fun value i => value * 256 + v / 256 ^ Z.of_nat i mod 256) acc (map S l)
    = foldl (fun value i => value * 256 + (v / 256) / 256 ^ Z.of_nat i mod 256) acc l) as Hshift.
  { intros l. induction l as [|i l IHl]; intros acc; [done|]. cbn [map foldl]. rewrite IHl. f_equal. f_equal. f_equal.
    rewrite Nat2Z.inj_succ, Z.pow_succ_r, Z.div_div by (try apply Z.pow_nonzero; lia). done. }
  cbn [seq rev]. rewrite foldl_app, <-seq_shift, <-map_rev, Hshift.
  rewrite IH by (split; [apply Z.div_pos; lia|apply Z.div_lt_upper_bound; lia]). cbn [foldl Z.of_nat].
  rewrite Z.pow_0_r, Z.div_1_r. pose proof (Z.div_mod v 256). lia.
Qed.

Definition holds (bytes : list Z) (offset n : nat) (v : Z) : Prop :=
  forall i, (i < n)%nat -> bytes !!! (offset + i)%nat = v / 256 ^ Z.of_nat i mod 256.

Lemma read_holds bytes offset n v : holds bytes offset n v -> 0 <= v < 256 ^ Z.of_nat n ->
  foldl (fun value index => value * 256 + bytes !!! (offset + index)%nat) 0 (rev (seq 0 n)) = v.
Proof.
  intros Hh Hv. etransitivity; [|apply (little_endian_sum n v Hv)].
  assert (Forall (fun i => (i < n)%nat) (rev (seq 0 n))) as Hall.
  { apply Forall_forall. intros i Hi. rewrite list_elem_of_In, <-in_rev, in_seq in Hi. lia. }
  generalize 0. induction Hall as [|i l Hi _ IH]; intros acc; [done|]. cbn [foldl]. by rewrite IH, Hh.
Qed.

Lemma readUint64_holds bytes offset v : holds bytes offset 8 v -> 0 <= v <= MAX_SAFE_INTEGER -> readUint64 bytes offset = Ok v.
Proof.
  intros Hh Hv. unfold readUint64. rewrite (read_holds _ _ _ v Hh) by (unfold MAX_SAFE_INTEGER in *; cbn; lia).
  destruct (Z.leb_spec v MAX_SAFE_INTEGER); [done|lia].
Qed.

Lemma position_holds bytes offset k : holds bytes offset 4 ((10 * k) mod 2 ^ 32) -> - 2 ^ 31 <= 10 * k < 2 ^ 31 ->
  position bytes offset = micro k.
Proof.
  intros Hh Hk. unfold position. rewrite (read_holds _ _ _ _ Hh) by (apply Z.mod_pos_bound; lia).
  rewrite <-micro_ten. f_equal. f_equal. unfold to_int32. rewrite Zplus_mod_idemp_l, Z.mod_small by lia. lia.
Qed.

Lemma byte_holds bytes offset v : holds bytes offset 1 v -> is_byte v -> bytes !!! offset = v.
Proof.
  intros Hh Hv. specialize (Hh 0%nat ltac:(lia)). rewrite Nat.add_0_r in Hh. rewrite Hh. cbn [Z.of_nat].
  rewrite Z.pow_0_r, Z.div_1_r. by apply Z.mod_small.
Qed.

(** A field of the explicit bytes is found by computation. *)
Ltac by_index := let i := fresh in let Hi := fresh in
  intros i Hi; do 8 (try (destruct i as [|i]; [reflexivity|])); lia.

Lemma parse_header_bytes h w s e n lon lat :
  Forall (fun v => 0 <= v <= MAX_SAFE_INTEGER) (word_fields h) -> Forall is_byte (byte_fields h) ->
  Forall (fun k => - 2 ^ 31 <= 10 * k < 2 ^ 31) [w; s; e; n] ->
  ph_bounds h = {| west := micro w; south := micro s; east := micro e; north := micro n |} ->
  parseHeader (header_bytes h ((10 * w) mod 2 ^ 32) ((10 * s) mod 2 ^ 32) ((10 * e) mod 2 ^ 32) ((10 * n) mod 2 ^ 32) lon lat)
  = Ok (page_header h).
Proof.
  intros Hw Hb Hk Eb. set (W := (10 * w) mod 2 ^ 32). set (S := (10 * s) mod 2 ^ 32).
  set (E := (10 * e) mod 2 ^ 32). set (N := (10 * n) mod 2 ^ 32). set (bytes := header_bytes h W S E N lon lat).
  unfold word_fields, byte_fields in *. rewrite !Forall_cons in *. destruct_and!.
  unfold parseHeader. assert (length bytes = 127%nat) as -> by reflexivity.
  assert (take 7 bytes = MAGIC) as -> by reflexivity. rewrite bool_decide_eq_true_2 by done.
  assert (bytes !!! 7%nat = 3) as -> by reflexivity. cbn [Z.of_nat negb orb].
  rewrite (readUint64_holds bytes 8 (ph_rootOffset h)) by (by_index || lia). cbn [mbind outcome_bind].
  rewrite (readUint64_holds bytes 16 (ph_rootLength h)) by (by_index || lia). cbn [mbind outcome_bind].
  rewrite (readUint64_holds bytes 24 (ph_metadataOffset h)) by (by_index || lia). cbn [mbind outcome_bind].
  rewrite (readUint64_holds bytes 32 (ph_metadataLength h)) by (by_index || lia). cbn [mbind outcome_bind].
  rewrite (readUint64_holds bytes 40 (ph_leafOffset h)) by (by_index || lia). cbn [mbind outcome_bind].
  rewrite (readUint64_holds bytes 48 (ph_leafLength h)) by (by_index || lia). cbn [mbind outcome_bind].
  rewrite (readUint64_holds bytes 56 (ph_tileDataOffset h)) by (by_index || lia). cbn [mbind outcome_bind].
  rewrite (readUint64_holds bytes 64 (ph_tileDataLength h)) by (by_index || lia). cbn [mbind outcome_bind].
  rewrite (readUint64_holds bytes 72 (ph_addressedTiles h)) by (by_index || lia). cbn [mbind outcome_bind].
  rewrite (readUint64_holds bytes 80 (ph_tileEntries h)) by (by_index || lia). cbn [mbind outcome_bind].
  rewrite (readUint64_holds bytes 88 (ph_tileContents h)) by (by_index || lia). cbn [mbind outcome_bind].
  rewrite (byte_holds bytes 96 (if ph_clustered h then 1 else 0)) by (by_index || (unfold is_byte; destruct (ph_clustered h); lia)).
  rewrite (byte_holds bytes 97 (ph_internalCompression h)), (byte_holds bytes 98 (ph_tileCompression h)),
    (byte_holds bytes 99 (ph_tileType h)), (byte_holds bytes 100 (ph_minZoom h)), (byte_holds bytes 101 (ph_maxZoom h))
    by (by_index || (unfold is_byte in *; lia)).
  rewrite (position_holds bytes 102 w), (position_holds bytes 106 s), (position_holds bytes 110 e), (position_holds bytes 114 n)
    by (by_index || (unfold is_byte in *; lia)).
  unfold page_header. rewrite Eb. do 2 f_equal. by destruct (ph_clustered h).
Qed.

(** ** A header the page accepts *)

Lemma num_le_not_lt a b : num_le a b = true -> num_lt b a = false.
Proof. unfold num_lt. destruct b, a; intros E; try done; by rewrite E. Qed.

Lemma micro_between k b : Z.abs k <= b * 1000000 -> 0 <= b <= 1000 ->
  num_le (num_of_Z (- b)) (micro k) = true /\ num_le (micro k) (num_of_Z b) = true.
Proof.
  intros Hk Hb. unfold micro, num_div, num_of_Z. cbn [Qnum inject_Z Z.eqb].
  destruct (round_between (inject_Z (- b)) (inject_Z b) (inject_Z k / inject_Z 1000000)) as (t & -> & _ & H1 & H2).
  - apply representable_Z. lia.
  - apply representable_Z. lia.
  - apply Qle_shift_div_l; [done|]. rewrite <-inject_Z_mult, <-Zle_Qle. lia.
  - apply Qle_shift_div_r; [done|]. rewrite <-inject_Z_mult, <-Zle_Qle. lia.
  - split; by apply num_le_Fin.
Qed.

(** The latitudes the reader allows. *)
Definition within_reader (b : Bounds) : Prop :=
  num_le (num_neg WEB_MERCATOR_MAX_LATITUDE) (south b) = true /\ num_le (north b) WEB_MERCATOR_MAX_LATITUDE = true.

Lemma grid_bounds b : on_grid b -> within_reader b -> bad_bounds b = false.
Proof.
  intros [(w & s & e & n & -> & Hw & Hs & He & Hn) Hwide Hhigh] [Hsouth Hnorth]. cbn [west south east north] in *.
  unfold bad_bounds. cbn [west south east north forallb] in *. rewrite !micro_finite by lia. rewrite Hwide, Hhigh.
  destruct (micro_between w 180) as [W1 _]; [lia|lia|]. destruct (micro_between e 180) as [_ E2]; [lia|lia|].
  change (- (180)) with (-180) in W1.
  rewrite (num_le_not_lt _ _ W1), (num_le_not_lt _ _ E2).
  unfold WEB_MERCATOR_MAX_LATITUDE in *. by rewrite (num_le_not_lt _ _ Hsouth), (num_le_not_lt _ _ Hnorth).
Qed.

(** Sections that follow one another in a file. *)
Record in_order (h : LocalPmtilesHeader) (size : Z) : Prop := {
  io_root : HEADER_LENGTH <= rootOffset h /\ 0 < rootLength h;
  io_metadata : rootOffset h + rootLength h <= metadataOffset h /\ 0 < metadataLength h;
  io_leaf : metadataOffset h + metadataLength h <= leafOffset h /\ 0 <= leafLength h;
  io_tiles : leafOffset h + leafLength h <= tileDataOffset h /\ 0 < tileDataLength h;
  io_size : tileDataOffset h + tileDataLength h <= size /\ size <= MAX_SAFE_INTEGER;
}.

Lemma validateHeader_pass h size n : in_order h size ->
  internalCompression h = GZIP -> (tileCompression h = NONE \/ tileCompression h = GZIP) -> tileType h = MVT ->
  minZoom h <= maxZoom h <= 24 -> bad_bounds (hd_bounds h) = false ->
  addressedTiles h = n -> tileEntries h = n -> tileContents h = n -> 0 < n <= MAX_SAFE_INTEGER ->
  validateHeader h size = Ok h.
Proof.
  intros [[R1 R2] [M1 M2] [L1 L2] [T1 T2] [S1 S2]] Hi Ht Hty Hz Hb C1 C2 C3 Hn. unfold validateHeader, HEADER_LENGTH in *.
  unfold is_safe. rewrite Hi, Hty, Hb, C1, C2, C3. rewrite !Z.abs_eq by lia.
  assert (existsb (Z.eqb (tileCompression h)) [NONE; GZIP] = true) as -> by (destruct Ht as [-> | ->]; reflexivity).
  destruct (Z.leb_spec size MAX_SAFE_INTEGER); [|lia]. destruct (Z.ltb_spec size 127); [lia|].
  destruct (Z.ltb_spec (maxZoom h) (minZoom h)); [lia|]. destruct (Z.ltb_spec 24 (maxZoom h)); [lia|].
  cbn [negb orb reject existsb Z.eqb Pos.eqb NONE GZIP MVT].
  assert (check_sections size (sections h) = Ok tt) as ->.
  { unfold sections. cbn [check_sections]. unfold is_safe, HEADER_LENGTH. rewrite !Z.abs_eq by lia.
    assert (forall a b, a <= b -> (b <? a) = false) as Hlt by (intros; by apply Z.ltb_ge).
    assert (forall a, a <= MAX_SAFE_INTEGER -> (a <=? MAX_SAFE_INTEGER) = true) as Hle by (intros; by apply Z.leb_le).
    rewrite !Hle, !Hlt by lia. done. }
  assert (check_order (sections h) = Ok tt) as ->.
  { unfold sections. cbn [check_order]. assert (forall a b, a <= b -> (b <? a) = false) as Hlt by (intros; by apply Z.ltb_ge).
    by rewrite !Hlt by lia. }
  cbn [mbind outcome_bind].
  destruct (Z.eqb_spec (rootLength h) 0); [lia|]. destruct (Z.eqb_spec (metadataLength h) 0); [lia|].
  destruct (Z.eqb_spec (tileDataLength h) 0); [lia|]. destruct (Z.leb_spec n 0); [lia|].
  destruct (Z.leb_spec n MAX_SAFE_INTEGER); [|lia]. rewrite Z.ltb_irrefl. done.
Qed.

(** ** The tiles *)

Definition row_y (r : TileRow) : Z := 2 ^ zoom_level r - 1 - tile_row r.
Definition row_id (r : TileRow) : Z := zxyToTileId (Z.to_nat (zoom_level r)) (tile_column r) (row_y r).

Lemma hilbert_turns_page k x y d : hilbert_turns k x y d = tile_turns k x y d.
Proof.
  revert x y d. induction k as [|k IH]; intros x y d; [done|]. cbn [hilbert_turns tile_turns]. unfold tile_turn.
  change rotateHilbert with rotate. destruct (rotate _ _ _ _ _) as [x' y']. apply IH.
Qed.

(** The server numbers the tiles as the page does. *)
Lemma writer_tile_id_page z x y : writer_tile_id z x y = zxyToTileId z x y.
Proof.
  unfold writer_tile_id, zxyToTileId. rewrite hilbert_turns_page. destruct z as [|z]; [|done].
  unfold tile_turn. cbn [tile_turns]. assert (forall a, js_and a 0 = 0) as Hz.
  { intros a. unfold js_and. change (to_int32 0) with 0. apply Z.land_0_r. }
  rewrite !Hz. reflexivity.
Qed.

(** A row in its zoom's square. *)
Definition row_ok (r : TileRow) : Prop :=
  0 <= zoom_level r <= 24 /\ in_square (Z.to_nat (zoom_level r)) (tile_column r) (row_y r).

Definition row_key (r : TileRow) : Z * Z * Z := (zoom_level r, tile_column r, tile_row r).

Lemma row_id_injective a b : row_ok a -> row_ok b -> row_id a = row_id b -> row_key a = row_key b.
Proof.
  intros [Hza Ha] [Hzb Hb] E. unfold row_id in E.
  pose proof (tile_number_in_band (Z.to_nat (zoom_level a)) _ _ ltac:(lia) Ha) as Ba.
  pose proof (tile_number_in_band (Z.to_nat (zoom_level b)) _ _ ltac:(lia) Hb) as Bb.
  assert (Z.to_nat (zoom_level a) = Z.to_nat (zoom_level b)) as Ez.
  { destruct (Nat.lt_trichotomy (Z.to_nat (zoom_level a)) (Z.to_nat (zoom_level b))) as [Hlt|[?|Hlt]]; [|done|].
    - pose proof (zoom_start_mono (S (Z.to_nat (zoom_level a))) (Z.to_nat (zoom_level b)) ltac:(lia)). lia.
    - pose proof (zoom_start_mono (S (Z.to_nat (zoom_level b))) (Z.to_nat (zoom_level a)) ltac:(lia)). lia. }
  rewrite Ez in *. rewrite !zxyToTileId_hilbert in E by (done || lia).
  destruct (hilbert_bound _ _ _ Ha) as [_ Pa], (hilbert_bound _ _ _ Hb) as [_ Pb].
  assert (hilbert (Z.to_nat (zoom_level b)) (tile_column a) (row_y a) = hilbert (Z.to_nat (zoom_level b)) (tile_column b) (row_y b)) as Eh by lia.
  rewrite Eh, Pb in Pa. injection Pa as Ex Ey. assert (zoom_level a = zoom_level b) as E' by lia.
  unfold row_y in Ey. unfold row_key. rewrite E' in *. f_equal; [f_equal; congruence|lia].
Qed.

(** ** The rows of an area *)

Lemma last_column zoom : 0 <= zoom <= 24 ->
  exists t, (two_to zoom - 1)%num = Fin t /\ (t == inject_Z (2 ^ zoom - 1))%Q.
Proof.
  intros Hz. assert (1 <= 2 ^ zoom <= 2 ^ 24) as Hp by (split; [apply (Z.pow_le_mono_r 2 0)|apply Z.pow_le_mono_r]; lia).
  destruct (round_between (inject_Z (2 ^ zoom - 1)) (inject_Z (2 ^ zoom - 1)) (inject_Z (2 ^ zoom) + - inject_Z 1))
    as (t & E & _ & H1 & H2); try (apply representable_Z; lia).
  - rewrite <-inject_Z_opp, <-inject_Z_plus. apply Qle_refl.
  - rewrite <-inject_Z_opp, <-inject_Z_plus. apply Qle_refl.
  - exists t. split; [exact E|]. by apply Qle_antisym.
Qed.

(** A number from 0 to [top], or none. *)
Definition inside (top : Q) (n : number) : Prop := n = NaN \/ exists q, n = Fin q /\ (0 <= q <= top)%Q.

(** [Math.max(0, Math.min(top, x))] *)
Lemma clamped top x : (0 <= top)%Q -> inside top (num_max 0%num (num_min (Fin top) x)).
Proof.
  intros Hq. set (m := num_min (Fin top) x). set (n := num_max _ _).
  assert (m = NaN \/ m <> NaN /\ num_le m (Fin top) = true) as [Em|[Hm Hle]].
  { destruct (decide (x = NaN)) as [->|Hx]; [by left|]. right. split; [|by apply num_min_le_l].
    unfold m, num_min. destruct x; try done; by case_match. }
  { left. unfold n. by rewrite Em. }
  right. assert (num_le 0%num n = true) as Hlo by (by apply num_max_ge_l).
  assert (num_le n (Fin top) = true) as Hhi.
  { unfold n, num_max, num_of_Z. destruct m; try done; destruct (num_lt _ _); try done; apply num_le_Fin; exact Hq. }
  destruct n as [| | |q]; try done. exists q. split; [done|]. apply num_le_Fin in Hhi, Hlo. done.
Qed.

Lemma mirrored zoom t n : 0 <= zoom <= 24 -> (t == inject_Z (2 ^ zoom - 1))%Q -> inside t n -> inside t (num_sub (Fin t) n).
Proof.
  intros Hz Et [->|(q & -> & Hq)]; [by left|]. right.
  assert (1 <= 2 ^ zoom <= 2 ^ 24) as Hp by (split; [apply (Z.pow_le_mono_r 2 0)|apply Z.pow_le_mono_r]; lia).
  destruct (round_between (inject_Z 0) (inject_Z (2 ^ zoom - 1)) (t + - q)) as (u & E & _ & H1 & H2);
    [apply representable_Z; lia|apply representable_Z; lia|change (inject_Z 0) with 0%Q; lra|lra|].
  exists u. split; [exact E|]. rewrite Et. done.
Qed.

(** A column between two such numbers. *)
Lemma between_columns t top lo hi k : (top == inject_Z t)%Q -> inside top lo -> inside top hi ->
  num_le lo (num_of_Z k) = true -> num_le (num_of_Z k) hi = true -> 0 <= k <= t.
Proof.
  intros Et [->|(l & -> & Hl)] [->|(u & -> & Hu)] L U; try done.
  apply num_le_Fin in L, U. split; rewrite Zle_Qle; change (inject_Z 0) with 0%Q; lra.
Qed.

Section rows.
Context `{MathFunctions} `{MathLog}.

Lemma rows_of_zoom_ok db b zoom r : 0 <= zoom <= 24 -> r ∈ rows_of_zoom db b zoom ->
  zoom_level r = zoom /\ row_ok r /\ r ∈ mb_tiles db.
Proof.
  intros Hz Hr. unfold rows_of_zoom in Hr. rewrite list_elem_of_In, !filter_In in Hr. destruct Hr as [[Hin Hr] _].
  unfold in_rows in Hr. rewrite !andb_true_iff, Z.eqb_eq in Hr. destruct Hr as ((((E & X1) & X2) & Y1) & Y2).
  destruct (last_column zoom Hz) as (t & Et & Ht).
  assert (1 <= 2 ^ zoom) as Hp by (apply (Z.pow_le_mono_r 2 0); lia).
  assert (0 <= t)%Q as Ht0 by (rewrite Ht; change 0%Q with (inject_Z 0); rewrite <-Zle_Qle; lia).
  unfold lonToTileX, latToTileY in *. rewrite Et in X1, X2, Y1, Y2.
  pose proof (between_columns _ _ _ _ _ Ht (clamped t _ Ht0) (clamped t _ Ht0) X1 X2).
  pose proof (between_columns _ _ _ _ _ Ht (mirrored zoom t _ Hz Ht (clamped t _ Ht0)) (mirrored zoom t _ Hz Ht (clamped t _ Ht0)) Y1 Y2).
  split; [done|]. split; [|by apply list_elem_of_In]. unfold row_ok, in_square, row_y. rewrite E, Z2Nat.id by lia. lia.
Qed.

(** Tables as a map server has them: a tile once, of bytes. *)
Record tile_table (db : Mbtiles) : Prop := {
  tt_unique : NoDup (map row_key (mb_tiles db));
  tt_bytes : Forall (fun r => Forall is_byte (tile_data r)) (mb_tiles db);
}.

Lemma NoDup_map_filter {A B} (f : A -> B) p l : NoDup (map f l) -> NoDup (map f (List.filter p l)).
Proof.
  induction l as [|x l IH]; intros Hn; [constructor|]. cbn [map] in Hn. apply NoDup_cons in Hn as [Hx Hn]. cbn [List.filter].
  destruct (p x); [|by apply IH]. cbn [map]. apply NoDup_cons. split; [|by apply IH]. intros Hin. apply Hx.
  apply list_elem_of_fmap in Hin as (y & E & Hy). rewrite list_elem_of_In, filter_In in Hy. destruct Hy as [Hy _].
  rewrite E. apply list_elem_of_fmap. exists y. split; [done|by rewrite list_elem_of_In].
Qed.

Lemma zooms_unique db b zooms : NoDup (map row_key (mb_tiles db)) -> NoDup zooms -> Forall (fun z => 0 <= z <= 24) zooms ->
  NoDup (map row_key (concat (map (rows_of_zoom db b) zooms))).
Proof.
  intros Hdb Hn Hz. induction Hn as [|zoom zooms Hnot _ IH]; [constructor|]. apply Forall_cons in Hz as [Hz0 Hz]. specialize (IH Hz).
  cbn [map concat]. rewrite map_app. apply NoDup_app. split; [by do 2 apply NoDup_map_filter|]. split; [|done].
  intros k (r & -> & Hr)%list_elem_of_fmap (r' & E & Hr')%list_elem_of_fmap. apply Hnot.
  apply rows_of_zoom_ok in Hr as (Er & _); [|done].
  apply list_elem_of_In, in_concat in Hr' as (l & (z & <- & Hzin)%in_map_iff & Hr').
  apply list_elem_of_In in Hzin, Hr'. rewrite Forall_forall in Hz. apply rows_of_zoom_ok in Hr' as (Er' & _); [|by apply Hz].
  assert (zoom_level r = zoom_level r') as Ez by (unfold row_key in E; congruence). by rewrite <-Er, Ez, Er'.
Qed.
End rows.

(** ** The tiles of the rows *)

(** The entry of a row, and where the spool has its bytes. *)
Record entry_for (spool : list Z) (e : TileEntry) (r : TileRow) : Prop := {
  ef_id : te_tileId e = row_id r;
  ef_length : te_length e = Z.of_nat (length (tile_data r));
  ef_run : te_runLength e = 1;
  ef_source : exists o, te_sourceOffset e = Some o /\ section spool o (tile_data r);
}.

Lemma take_rows_entries rows : forall s s', take_rows rows s = Ok s' ->
  exists es rest, sp_entries s' = sp_entries s ++ es /\ sp_bytes s' = sp_bytes s ++ rest /\
    Forall2 (entry_for (sp_bytes s')) es rows /\
    Forall (fun r => sp_compression s' = Some (detectedTileCompression (tile_data r))) rows /\
    (forall c, sp_compression s = Some c -> sp_compression s' = Some c).
Proof.
  induction rows as [|r rows IH]; intros s s' E; cbn [take_rows] in E.
  - injection E as <-. exists [], []. rewrite !app_nil_r. split_and!; try done; constructor.
  - apply outcome_bind_ok in E as (s1 & E1 & E). unfold take_row in E1. destruct (negb _) eqn:Hsame in E1; [discriminate|].
    apply negb_false_iff, Z.eqb_eq in Hsame. injection E1 as E1.
    destruct (IH _ _ E) as (es & rest & He & Hb & H2 & Hc & Hkeep). rewrite <-E1 in He, Hb, Hkeep. cbn [sp_entries sp_bytes sp_compression] in *.
    rewrite <-!app_assoc in He, Hb. eexists _, _. split; [exact He|]. split; [exact Hb|]. split.
    { constructor; [|done]. split; [apply writer_tile_id_page|done|done|]. eexists. split; [done|]. rewrite Hb. apply section_mid. }
    specialize (Hkeep _ eq_refl). split; [by constructor|]. intros c Ec. rewrite Ec in Hsame. cbn in Hsame. by rewrite Hkeep, Hsame.
Qed.

(** Sorted by their numbers, with their rows. *)
Lemma sorted_entries spool es rows : Forall2 (entry_for spool) es rows ->
  exists rows', rows' ≡ₚ rows /\ Forall2 (entry_for spool) (sort_by te_tileId es) rows'.
Proof.
  intros H. destruct (Permutation_Forall2 (Permutation_sym (sort_by_perm te_tileId es)) H) as (rows' & Hp & H'). by exists rows'.
Qed.

Lemma place_entries spool o es rows : Forall2 (entry_for spool) es rows -> Forall2 (entry_for spool) (lay_out o es) rows.
Proof.
  intros H. revert o. induction H as [|e r es rows [H1 H2 H3 H4] _ IH]; intros o; [constructor|]. cbn [lay_out]. constructor; [|done].
  by split.
Qed.

Lemma entries_ids spool es rows : Forall2 (entry_for spool) es rows -> map te_tileId es = map row_id rows.
Proof. induction 1 as [|e r es rows H _ IH]; [done|]. cbn. by rewrite (ef_id _ _ _ H), IH. Qed.

Lemma place_ids o es : map te_tileId (lay_out o es) = map te_tileId es.
Proof. revert o. induction es as [|e es IH]; intros o; [done|]. cbn. by rewrite IH. Qed.

(** One after another, from the offset on. *)
Lemma place_contiguous spool o es rows : Forall2 (entry_for spool) es rows -> Forall (fun r => tile_data r <> []) rows ->
  contiguous o (map range_of (map as_entry (lay_out o es))).
Proof.
  intros H Hne. revert o. induction H as [|e r es rows H _ IH]; intros o; [done|]. apply Forall_cons in Hne as [Hr Hne].
  cbn [lay_out map contiguous range_of as_entry fst snd de_offset de_length te_offset te_length].
  split; [done|]. split; [rewrite (ef_length _ _ _ H); destruct (tile_data r); [done|cbn; lia]|by apply IH].
Qed.

(** The bytes that are copied, and where. *)
Lemma copy_tiles_concat spool es rows bytes : Forall2 (entry_for spool) es rows -> copy_tiles spool es = Ok bytes ->
  bytes = concat (map tile_data rows).
Proof.
  intros H. revert bytes. induction H as [|e r es rows H _ IH]; intros bytes E; cbn [copy_tiles] in E; [by injection E as <-|].
  destruct (ef_source _ _ _ H) as (o & Eo & Hs). destruct (negb _) in E; [discriminate|].
  apply outcome_bind_ok in E as (a & Ea & E). apply outcome_bind_ok in E as (b & Eb & E). injection E as <-.
  cbn [map concat]. f_equal; [|by apply IH]. unfold copyRange in Ea. rewrite Eo, (ef_length _ _ _ H), Nat2Z.id in Ea. cbn [default from_option id] in Ea. cbv zeta in Ea. unfold id in Ea.
  unfold section in Hs. rewrite Hs in Ea. destruct (_ =? _) in Ea; [by injection Ea as <-|discriminate].
Qed.

Definition has_tile (tiles : list Z) (e : TileEntry) (r : TileRow) : Prop := section tiles (te_offset e) (tile_data r).

Lemma placed_sections spool es rows : Forall2 (entry_for spool) es rows -> forall before,
  Forall2 (has_tile (before ++ concat (map tile_data rows))) (lay_out (Z.of_nat (length before)) es) rows.
Proof.
  induction 1 as [|e r es rows H _ IH]; intros before; [constructor|]. cbn [map concat lay_out].
  constructor; [apply section_mid|]. rewrite (ef_length _ _ _ H), <-Nat2Z.inj_add, <-length_app, app_assoc. apply IH.
Qed.

Lemma placed_end o spool es rows : Forall2 (entry_for spool) es rows ->
  ranges_end o (map range_of (map as_entry (lay_out o es))) = o + Z.of_nat (length (concat (map tile_data rows))) /\
  foldl Z.add o (map te_length (lay_out o es)) = o + Z.of_nat (length (concat (map tile_data rows))).
Proof.
  intros H. revert o. induction H as [|e r es rows H _ IH]; intros o; [cbn; lia|]. cbn [map concat lay_out]. rewrite length_app.
  destruct (IH (o + te_length e)) as [I1 I2]. unfold ranges_end in *. cbn [foldl range_of as_entry te_length snd de_length].
  rewrite I1. rewrite (ef_length _ _ _ H) in *. split; [lia|]. rewrite I2. lia.
Qed.

Lemma strictly_sorted (l : list Z) : StronglySorted Z.le l -> NoDup l -> StronglySorted Z.lt l.
Proof.
  induction 1 as [|x l Hs IH Hx]; intros Hn; [constructor|]. apply NoDup_cons in Hn as [Hnot Hn]. constructor; [by apply IH|].
  rewrite Forall_forall in Hx |- *. intros y Hy. specialize (Hx y Hy). assert (x <> y) by (intros ->; done). lia.
Qed.

Lemma sorted_map {A} (f : A -> Z) (R : Z -> Z -> Prop) l :
  StronglySorted R (map f l) <-> StronglySorted (fun a b => R (f a) (f b)) l.
Proof.
  induction l as [|x l IH]; [split; constructor|]. cbn [map]. split; intros Hs; inversion Hs as [|? ? H1 H2]; subst;
    (constructor; [by apply IH|]); by apply Forall_map.
Qed.

Lemma unique_ids rows : Forall row_ok rows -> NoDup (map row_key rows) -> NoDup (map row_id rows).
Proof.
  intros Hok Hn. induction Hok as [|r rows Hr Hok IH]; [constructor|]. cbn [map] in *. apply NoDup_cons in Hn as [Hnot Hn].
  apply NoDup_cons. split; [|by apply IH]. intros (r' & E & Hr')%list_elem_of_fmap. apply Hnot. rewrite Forall_forall in Hok.
  apply list_elem_of_fmap. exists r'. split; [|done]. by apply row_id_injective; [|apply Hok|].
Qed.

Lemma placed_increasing spool es rows o : Forall2 (entry_for spool) (sort_by te_tileId es) rows ->
  Forall row_ok rows -> NoDup (map row_key rows) -> increasing (map as_entry (lay_out o (sort_by te_tileId es))).
Proof.
  intros H Hok Hn. unfold increasing. apply (sorted_map tileId Z.lt). rewrite map_map.
  change (map (fun x => tileId (as_entry x))) with (map te_tileId). rewrite place_ids. apply strictly_sorted.
  - apply (sorted_map te_tileId Z.le). apply sort_by_sorted.
  - rewrite (entries_ids _ _ _ H). by apply unique_ids.
Qed.

Lemma row_id_bounds r : row_ok r -> zoom_start (Z.to_nat (zoom_level r)) <= row_id r < zoom_start (S (Z.to_nat (zoom_level r))).
Proof. intros [Hz Hin]. apply tile_number_in_band; [lia|done]. Qed.

(** The zooms of a row, by its number. *)
Lemma row_id_zooms r low high : row_ok r -> 0 <= low -> low <= zoom_level r <= high ->
  zoom_start (Z.to_nat low) <= row_id r < zoom_start (Z.to_nat (high + 1)).
Proof.
  intros Hok Hlow Hz. pose proof (row_id_bounds r Hok) as [B1 B2].
  pose proof (zoom_start_mono (Z.to_nat low) (Z.to_nat (zoom_level r)) ltac:(lia)).
  pose proof (zoom_start_mono (S (Z.to_nat (zoom_level r))) (Z.to_nat (high + 1)) ltac:(lia)). lia.
Qed.

Lemma row_id_safe r : row_ok r -> 0 <= row_id r /\ row_id r + 1 <= MAX_SAFE_INTEGER.
Proof.
  intros Hok. pose proof Hok as [Hz _]. destruct (row_id_zooms r 0 24 Hok ltac:(lia) Hz) as [H1 H2].
  change (zoom_start (Z.to_nat 0)) with 0 in H1. assert (zoom_start (Z.to_nat (24 + 1)) < MAX_SAFE_INTEGER) by (by vm_compute). lia.
Qed.

Lemma placed_ok spool es rows : Forall2 (entry_for spool) es rows -> Forall row_ok rows -> Forall (fun r => tile_data r <> []) rows ->
  forall o, 0 <= o -> o + Z.of_nat (length (concat (map tile_data rows))) <= MAX_SAFE_INTEGER ->
  Forall entry_ok (map as_entry (lay_out o es)).
Proof.
  induction 1 as [|e r es rows H _ IH]; intros Hok Hne o Ho Hmax; [constructor|]. apply Forall_cons in Hok as [Hr Hok], Hne as [Hd Hne].
  cbn [lay_out map concat] in *. rewrite length_app in Hmax. pose proof (row_id_safe r Hr) as [I1 I2].
  assert (0 < te_length e) by (rewrite (ef_length _ _ _ H); destruct (tile_data r); [done|cbn; lia]).
  rewrite (ef_length _ _ _ H) in *.
  constructor; [|apply IH; [done|done|lia|lia]]. unfold entry_ok. cbn [as_entry tileId de_offset de_length runLength te_tileId te_offset te_length te_runLength].
  rewrite (ef_id _ _ _ H), (ef_run _ _ _ H). lia.
Qed.

(** ** The file *)

(** What canonicalization leaves of a request. *)
Record canonical_area (c : CanonicalOfflinePackageRequest) : Prop := {
  ca_grid : on_grid (cn_bbox c);
  ca_zooms : 0 <= cn_minZoom c <= cn_maxZoom c /\ cn_maxZoom c <= 24;
}.

Lemma canonicalized_area `{JsonText} raw rq src c : parseOfflinePackageRequest raw = Ok rq ->
  canonicalizeOfflinePackageRequest rq src = Ok c -> canonical_area c.
Proof.
  unfold parseOfflinePackageRequest. destruct (offlinePackageRequestSchema raw) eqn:Hschema; [|discriminate]. intros [= ->] Hc.
  unfold offlinePackageRequestSchema in Hschema. do 3 apply andb_prop, proj1 in Hschema.
  apply canonicalize_inv in Hc as (zmax & smax & _ & Hb & Hmin & Hmax & Hle & Hles & Hcap & _). unfold OFFLINE_PACKAGE_MAX_ZOOM in *.
  split; [by eapply canonicalBbox_grid|lia].
Qed.

(** What the map is to be given of a row. *)
Definition tile_content `{ArchiveCodecs} (r : TileRow) : outcome (list Z) :=
  if detectedTileCompression (tile_data r) =? TILE_COMPRESSION_GZIP then gunzip (tile_data r) else Ok (tile_data r).

(** A part of a part. *)
Lemma section_inner file o whole o' bytes : 0 <= o -> 0 <= o' -> section file o whole -> section whole o' bytes ->
  section file (o + o') bytes.
Proof.
  intros Ho Ho' H1 H2. unfold section in *. rewrite <-H1, skipn_firstn_comm, drop_drop, firstn_firstn in H2.
  rewrite Z2Nat.inj_add by done. pose proof (f_equal length H2) as El. rewrite length_take in El.
  rewrite <-H2 at 2. f_equal. lia.
Qed.

Section file.
Context `{!NodeCodecs} `{!ArchiveCodecs} `{!WriterCodecLaws}.
Context (c : CanonicalOfflinePackageRequest) (Hc : canonical_area c) (Hreader : within_reader (cn_bbox c)).
Context (s : DirectorySections) (meta tiles hb : list Z) (n compression : Z).

Let ph : PmtilesHeader := archive_header c s (Z.of_nat (length meta)) (Z.of_nat (length tiles)) n compression.
Let h : LocalPmtilesHeader := page_header ph.
Let file : list Z := hb ++ ds_root s ++ meta ++ ds_leaves s ++ tiles.

Context (Hhb : writeHeader ph = Ok hb) (Hsize : Z.of_nat (length file) <= MAX_SAFE_INTEGER).

Lemma grid_small : exists w so e no, cn_bbox c = {| west := micro w; south := micro so; east := micro e; north := micro no |} /\
  Forall (fun k => Z.abs k <= 2 ^ 28) [w; so; e; no].
Proof.
  destruct Hc as [[(w & so & e & no & E & Bw & Bs & Be & Bn) _ _] _]. exists w, so, e, no. split; [done|].
  repeat constructor; lia.
Qed.

Lemma header_length : length hb = 127%nat.
Proof.
  destruct grid_small as (w & so & e & no & Eb & Hk).
  by destruct (writeHeader_bytes ph w so e no hb Eb Hk Hhb) as (lon & lat & -> & _).
Qed.

Lemma file_length : Z.of_nat (length file) = 127 + Z.of_nat (length (ds_root s)) + Z.of_nat (length meta)
  + Z.of_nat (length (ds_leaves s)) + Z.of_nat (length tiles).
Proof. unfold file. rewrite !length_app, header_length. lia. Qed.

Lemma section_at before bytes after o : file = before ++ bytes ++ after -> o = Z.of_nat (length before) -> section file o bytes.
Proof. intros E ->. rewrite E. apply section_mid. Qed.

Lemma file_sections : section file 0 hb /\ section file (rootOffset h) (ds_root s) /\ section file (metadataOffset h) meta /\
  section file (leafOffset h) (ds_leaves s) /\ section file (tileDataOffset h) tiles.
Proof.
  pose proof header_length as Hl. unfold h, ph. cbn. split; [by apply (section_at [] hb (ds_root s ++ meta ++ ds_leaves s ++ tiles))|].
  split; [apply (section_at hb _ (meta ++ ds_leaves s ++ tiles)); [done|rewrite Hl; done]|].
  split; [apply (section_at (hb ++ ds_root s) _ (ds_leaves s ++ tiles))|].
  { unfold file. by rewrite <-!app_assoc. }
  { rewrite !length_app, Hl. unfold PMTILES_HEADER_LENGTH. lia. }
  split; [apply (section_at (hb ++ ds_root s ++ meta) _ tiles)|apply (section_at (hb ++ ds_root s ++ meta ++ ds_leaves s) _ [])].
  { unfold file. by rewrite <-!app_assoc. }
  { rewrite !length_app, Hl. unfold PMTILES_HEADER_LENGTH. lia. }
  { unfold file. by rewrite <-!app_assoc, app_nil_r. }
  { rewrite !length_app, Hl. unfold PMTILES_HEADER_LENGTH. lia. }
Qed.

Context (Hroot : ds_root s <> []) (Hmeta : meta <> []) (Htiles : tiles <> []).
Context (Hn : 0 < n <= MAX_SAFE_INTEGER) (Hcomp : compression = NONE \/ compression = GZIP).

Lemma nonempty_length {A} (l : list A) : l <> [] -> 0 < Z.of_nat (length l).
Proof. destruct l; [done|cbn; lia]. Qed.

Lemma written_header : header file = Ok h.
Proof.
  destruct grid_small as (w & so & e & no & Eb & Hk). pose proof file_length as Hfile.
  pose proof (nonempty_length _ Hroot). pose proof (nonempty_length _ Hmeta). pose proof (nonempty_length _ Htiles).
  destruct file_sections as (Hsec & _). unfold header. change HEADER_LENGTH with (Z.of_nat 127). rewrite <-header_length at 1.
  rewrite readExact_section; [|unfold MAX_SAFE_INTEGER; lia|rewrite header_length; unfold MAX_SAFE_INTEGER; lia|exact Hsec].
  destruct (writeHeader_bytes ph w so e no hb Eb Hk Hhb) as (lon & lat & Ehb & Hwords & Hbytes & Hpos). cbn [mbind outcome_bind].
  rewrite Ehb, parse_header_bytes; [|..]; [|..|exact Hbytes|exact Hpos|exact Eb].
  - cbn [mbind outcome_bind]. destruct (ca_zooms _ Hc) as [Hz1 Hz2].
    apply (validateHeader_pass h _ n); try done.
    + unfold h, ph. split; cbn; unfold HEADER_LENGTH, PMTILES_HEADER_LENGTH; lia.
    + unfold h, ph. cbn. lia.
    + apply grid_bounds; [apply (ca_grid _ Hc)|exact Hreader].
  - unfold word_fields, ph, archive_header, PMTILES_HEADER_LENGTH. cbn -[MAX_SAFE_INTEGER Z.le Z.add]. rewrite !Forall_cons, Forall_nil. split_and!; lia.
Qed.
(** *** The tiles under it *)

Context (db : Mbtiles) (spool : list Z) (taken : list TileEntry) (area : list TileRow).
Let T : list TileEntry := lay_out 0 (sort_by te_tileId taken).

Context (Hrows : Forall2 (entry_for spool) (sort_by te_tileId taken) area) (Hrows_ne : area <> []).
Context (Hok : Forall row_ok area) (Hkeys : NoDup (map row_key area)) (Hdata : Forall (fun r => tile_data r <> []) area).
Context (Hzooms : Forall (fun r => cn_minZoom c <= zoom_level r <= cn_maxZoom c) area).
Context (Hbuilt : buildDirectorySections T = Ok s) (Ht : tiles = concat (map tile_data area)) (En : n = Z.of_nat (length T)).

Lemma tile_entries : Forall2 (entry_for spool) T area.
Proof. by apply place_entries. Qed.

Lemma tile_count : length T = length area.
Proof. by eapply Forall2_length, tile_entries. Qed.

Lemma tiles_directory : directory (map as_entry T).
Proof.
  pose proof file_length as Hfile. pose proof tile_count as Hcount. split; [|split; [|split]].
  - intros E. apply map_eq_nil in E. rewrite E in Hcount. by destruct area.
  - rewrite length_map. unfold safe_natural. rewrite <-En. lia.
  - eapply placed_ok; [exact Hrows|done|done|lia|]. rewrite <-Ht. lia.
  - by eapply placed_increasing.
Qed.

Lemma tiles_laid_out : laid_out h (map as_entry T).
Proof.
  split; [| |apply tiles_directory]; apply Forall_map.
  - pose proof tile_entries as H'. clear -H'. induction H' as [|e r es rows Hr _ IH]; [constructor|]. constructor; [apply (ef_run _ _ _ Hr)|done].
  - pose proof tile_entries as H'. destruct (ca_zooms _ Hc) as [[Hz _] _]. clear -H' Hok Hzooms Hz.
    induction H' as [|e r es rows Hr _ IH]; [constructor|].
    apply Forall_cons in Hok as [Ho Hok], Hzooms as [Hz' Hzooms]. constructor; [|by apply IH].
    change (tileId (as_entry e)) with (te_tileId e). rewrite (ef_id _ _ _ Hr). by apply row_id_zooms.
Qed.

Lemma file_assembled : assembled file h s T.
Proof.
  pose proof file_length as Hfile. destruct file_sections as (_ & Hs1 & _ & Hs2 & _).
  pose proof (placed_end 0 spool _ area Hrows) as [He _]. split.
  - exact written_header.
  - done.
  - unfold h, ph in *. cbn in *. unfold PMTILES_HEADER_LENGTH. split_and!; try lia; done.
  - unfold h, ph in *. cbn in *. unfold PMTILES_HEADER_LENGTH. split_and!; try lia; done.
  - done.
  - exact tiles_directory.
  - exact tiles_laid_out.
  - by eapply place_contiguous.
  - fold T in He. rewrite He, <-Ht. unfold h, ph. cbn. lia.
Qed.
(** *** What is served *)

Context `{!ArchiveCodecLaws} (Hdetected : Forall (fun r => compression = detectedTileCompression (tile_data r)) area).
Context (Hbytes : Forall (fun r => Forall is_byte (tile_data r)) area) (Hmeta_bytes : Forall is_byte meta).

Lemma entry_bytes : Forall2 (fun e r => section file (tileDataOffset h + te_offset e) (tile_data r) /\
  0 <= te_offset e /\ te_offset e + Z.of_nat (length (tile_data r)) <= Z.of_nat (length tiles)) T area.
Proof.
  destruct file_sections as (_ & _ & _ & _ & Hsec). pose proof (placed_sections spool _ area Hrows []) as Hp.
  cbn [app] in Hp. rewrite <-Ht in Hp. change (Z.of_nat (length [])) with 0 in Hp. fold T in Hp.
  assert (Forall (fun e => 0 <= te_offset e) T) as Hpos.
  { destruct tiles_directory as (_ & _ & Hes & _). rewrite Forall_map in Hes. eapply Forall_impl; [exact Hes|].
    intros e (_ & ? & _). cbn in *. lia. }
  clear -Hp Hpos Hsec Hdata. clearbody T. induction Hp as [|e r es rows Hr _ IH]; [constructor|].
  apply Forall_cons in Hpos as [Ho Hpos], Hdata as [Hd Hdata]. constructor; [|by apply IH].
  pose proof (section_inside tiles _ _ Ho Hr Hd). split; [|done].
  apply (section_inner file _ tiles); [unfold h, ph; cbn; unfold PMTILES_HEADER_LENGTH; lia|done..].
Qed.

Lemma entry_payload : Forall2 (fun e r => tile_ok h (as_entry e) /\
  payload_of file h (as_entry e) = tile_content r /\ tilePayload file h (as_entry e) = tile_content r) T area.
Proof.
  pose proof tile_entries as He. pose proof entry_bytes as Hb. pose proof written_header as Hh.
  destruct tiles_directory as (_ & _ & Hes & _). rewrite Forall_map in Hes. clear -He Hb Hdetected Hes Hh. clearbody T.
  induction He as [|e r es rows Hr _ IH]; [constructor|]. inversion Hb as [|? ? ? ? (Hs & Ho & Hend) Hb']; subst.
  apply Forall_cons in Hdetected as [Hd Hdetected], Hes as [Hok Hes]. constructor; [|by apply IH].
  assert (tile_ok h (as_entry e)) as Htile.
  { split; cbn [as_entry runLength de_offset de_length]; rewrite ?(ef_run _ _ _ Hr), ?(ef_length _ _ _ Hr); [lia|]. unfold h, ph. cbn. lia. }
  assert (payload_of file h (as_entry e) = tile_content r) as Hp.
  { unfold payload_of, tile_content. cbn [as_entry de_offset de_length]. rewrite (ef_length _ _ _ Hr), Nat2Z.id. unfold section in Hs. cbv zeta. rewrite !Hs.
    change (tileCompression h) with compression. by rewrite Hd. }
  split; [done|]. split; [done|]. rewrite tilePayload_inside; [exact Hp|exact Hh| |exact Htile].
  destruct Hok as (? & ? & ? & ? & ? & ?). unfold decoded_entry. lia.
Qed.
(** A tile by its number, in the directory and among the rows. *)
Lemma lookup_rows id : archive_lookup file h (map as_entry T) id =
  match List.find (fun r => row_id r =? id) area with
  | Some r => payload ← tile_content r; Ok (Some payload)
  | None => Ok None
  end.
Proof.
  unfold archive_lookup. pose proof tile_entries as He. pose proof entry_payload as Hp. clear -He Hp. clearbody T.
  induction He as [|e r es rows Hr _ IH]; [done|]. inversion Hp as [|? ? ? ? (_ & Hpay & _) Hp']; subst. cbn [map List.find].
  assert (covers id (as_entry e) = (row_id r =? id)) as ->.
  { unfold covers. cbn [as_entry tileId runLength]. rewrite (ef_id _ _ _ Hr), (ef_run _ _ _ Hr). lia. }
  destruct (row_id r =? id); [by rewrite Hpay|]. by apply IH.
Qed.

Lemma tiles_apart : all_apart (map as_entry T).
Proof.
  intros a b Ha _ Hlt. destruct tiles_laid_out as [Hone _ _]. rewrite Forall_forall in Hone. unfold apart. rewrite (Hone a Ha). lia.
Qed.

Lemma tiles_inside : Forall (tile_ok h) (map as_entry T).
Proof.
  apply Forall_map. pose proof entry_payload as Hp. clear -Hp. clearbody T. induction Hp as [|e r es rows (Ht & _) _ IH]; [constructor|]. by constructor.
Qed.

(** The tile of a column and a row of the map. *)
Definition row_at (z : nat) (x y : Z) (r : TileRow) : bool := bool_decide (row_key r = (Z.of_nat z, x, 2 ^ Z.of_nat z - 1 - y)).

Lemma row_of_id z x y r : Z.of_nat z <= 24 -> in_square z x y -> r ∈ area -> row_at z x y r = (row_id r =? zxyToTileId z x y).
Proof.
  intros Hz Hxy Hr. assert (row_ok r) as Hrok by (rewrite Forall_forall in Hok; by apply Hok).
  set (r' := {| zoom_level := Z.of_nat z; tile_column := x; tile_row := 2 ^ Z.of_nat z - 1 - y; tile_data := [] |}).
  assert (row_y r' = y) as Ey by (unfold row_y, r'; cbn; lia).
  assert (row_id r' = zxyToTileId z x y) as Eid by (unfold row_id; rewrite Ey; unfold r'; cbn; by rewrite Nat2Z.id).
  assert (row_ok r') as Hr'.
  { split; [unfold r'; cbn; lia|]. rewrite Ey. unfold r'. cbn. by rewrite Nat2Z.id. }
  rewrite <-Eid. unfold row_at. change (Z.of_nat z, x, 2 ^ Z.of_nat z - 1 - y) with (row_key r').
  apply eq_true_iff_eq. rewrite bool_decide_eq_true, Z.eqb_eq. split; [|by apply row_id_injective].
  unfold row_key, row_id, row_y. intros [= -> -> ->]. done.
Qed.

Lemma find_ext {A} (f g : A -> bool) l : (forall x, x ∈ l -> f x = g x) -> List.find f l = List.find g l.
Proof.
  induction l as [|x l IH]; intros Hfg; [done|]. cbn. rewrite (Hfg x) by left. destruct (g x); [done|]. apply IH. intros y ?. apply Hfg. by right.
Qed.
Context (Hall : Forall is_byte file).

(** The tiles of the page are the rows of the area. *)
Lemma file_tile z x y : tile file z x y =
  match List.find (row_at z x y) area with
  | Some r => payload ← tile_content r; Ok (Some payload)
  | None => Ok None
  end.
Proof.
  destruct (ca_zooms _ Hc) as [[Z0 Z1] Z2].
  destruct ((Z.of_nat z <? minZoom h) || (maxZoom h <? Z.of_nat z) || (x <? 0) || (y <? 0)
     || (2 ^ Z.of_nat z <=? x) || (2 ^ Z.of_nat z <=? y)) eqn:Eout.
  - unfold tile. rewrite written_header. cbn [mbind outcome_bind]. rewrite Eout. rewrite find_none; [done|].
    intros r Hr. apply bool_decide_eq_false. unfold row_key. intros [= E1 E2 E3]. rewrite Forall_forall in Hok, Hzooms.
    destruct (Hok r Hr) as [_ [Hx Hy]]. specialize (Hzooms r Hr). unfold row_y in Hy. rewrite E1, Nat2Z.id in *. rewrite E2, E3 in *.
    change (minZoom h) with (cn_minZoom c) in Eout. change (maxZoom h) with (cn_maxZoom c) in Eout.
    rewrite !orb_true_iff, !Z.ltb_lt, !Z.leb_le in Eout. lia.
  - rewrite !orb_false_iff, !Z.ltb_ge, !Z.leb_gt in Eout. change (minZoom h) with (cn_minZoom c) in Eout. change (maxZoom h) with (cn_maxZoom c) in Eout.
    assert (in_square z x y) as Hxy by (unfold in_square; lia).
    destruct (assembled_collect file h s T file_assembled) as (root & ranges & Hr & Hcol & _ & Hstart).
    rewrite (tile_collected file h root (map as_entry T) ranges); try done;
      [|exact written_header|exact tiles_inside|exact tiles_apart|change (minZoom h) with (cn_minZoom c); change (maxZoom h) with (cn_maxZoom c); lia].
    rewrite lookup_rows, (find_ext _ (row_at z x y)); [done|]. intros r Hin. symmetry. apply row_of_id; [lia|done|done].
Qed.

(** The entry of a row. *)
Lemma row_entry r : r ∈ area -> exists e, e ∈ map as_entry T /\ tileId e = row_id r.
Proof.
  intros (i & Hi)%list_elem_of_lookup. destruct (Forall2_lookup_r _ _ _ _ _ tile_entries Hi) as (e & Hin & Hr).
  exists (as_entry e). split; [|apply (ef_id _ _ _ Hr)]. apply list_elem_of_fmap. exists e. split; [done|].
  by eapply list_elem_of_lookup_2.
Qed.

(** The check of the page; the zooms at both ends have a tile, and tiles are not empty. *)
Lemma file_valid : (exists r, r ∈ area /\ zoom_level r = cn_minZoom c) -> (exists r, r ∈ area /\ zoom_level r = cn_maxZoom c) ->
  Forall (fun r => exists payload, tile_content r = Ok payload /\ payload <> []) area -> validate file = Ok tt.
Proof.
  intros (low & Hlow & Elow) (high & Hhigh & Ehigh) Hread. destruct (ca_zooms _ Hc) as [[Z0 Z1] Z2].
  pose proof tiles_directory as (_ & _ & _ & Hs). pose proof entry_payload as Hp. pose proof tile_count as Hcount.
  assert (exists e T', T = e :: T') as (e & T' & ET) by (destruct T as [|e T']; [by destruct area|by exists e, T']).
  destruct (row_entry low Hlow) as (el & Hel & Eidl). destruct (row_entry high Hhigh) as (eh & Heh & Eidh).
  assert (row_ok low /\ row_ok high) as [Ol Oh] by (rewrite Forall_forall in Hok; auto).
  pose proof (row_id_bounds low Ol) as [_ Bl]. pose proof (row_id_bounds high Oh) as [Bh _]. rewrite Elow in Bl. rewrite Ehigh in Bh.
  rewrite ET in Hp. inversion Hp as [|? r ? area' (_ & _ & Hpay) _ E1 E2].
  assert (exists payload, tile_content r = Ok payload /\ payload <> []) as (payload & Epay & Hne).
  { rewrite Forall_forall in Hread. apply Hread. rewrite <-E2. left. }
  apply (assembled_valid file h s T file_assembled (as_entry e) (map as_entry T') payload); try done.
  - by rewrite ET.
  - change (minZoom h) with (cn_minZoom c). rewrite Z2Nat.inj_add by lia. change (Z.to_nat 1) with 1%nat. rewrite Nat.add_1_r.
    rewrite ET in Hel, Hs. cbn [map] in Hel, Hs. inversion Hs as [|? ? _ Hfirst]; subst. rewrite Forall_forall in Hfirst.
    apply elem_of_cons in Hel as [->|Hel]; [lia|]. specialize (Hfirst el Hel). lia.
  - exists eh. split; [done|]. change (maxZoom h) with (cn_maxZoom c). lia.
  - unfold served. by rewrite Hpay.
Qed.
Lemma file_metadata fields : meta = gzipSync (json_bytes (JObj fields)) -> exists parsed, metadata file = Ok parsed.
Proof.
  intros Em. destruct (json_read_back fields) as (fields' & Ej). exists (JObj fields'). pose proof file_length as Hfile.
  destruct file_sections as (_ & _ & Hsec & _). unfold metadata. rewrite written_header. cbn [mbind outcome_bind].
  change (metadataLength h) with (Z.of_nat (length meta)).
  rewrite readExact_section; [|unfold h, ph; cbn; unfold PMTILES_HEADER_LENGTH; lia|lia|exact Hsec]. cbn [mbind outcome_bind].
  unfold decodeInternal. change (internalCompression h) with GZIP. cbn [Z.eqb Pos.eqb GZIP NONE].
  rewrite Em, browser_gunzip by apply json_is_bytes. cbn [mbind outcome_bind]. by rewrite Ej.
Qed.

Lemma file_accepted fields : meta = gzipSync (json_bytes (JObj fields)) -> validate file = Ok tt ->
  validateLocalPmtilesArchive file (cn_bbox c) (cn_minZoom c) (cn_maxZoom c) = Ok h.
Proof.
  intros Em Hv. destruct (file_metadata fields Em) as (parsed & Ep). unfold validateLocalPmtilesArchive. rewrite written_header.
  cbn [mbind outcome_bind]. change (minZoom h) with (cn_minZoom c). change (maxZoom h) with (cn_maxZoom c). change (hd_bounds h) with (cn_bbox c).
  rewrite !Z.eqb_refl. assert (same_bounds (cn_bbox c) (cn_bbox c) = true) as ->.
  { destruct grid_small as (w & so & e & no & -> & Hk). rewrite !Forall_cons in Hk. unfold same_bounds, num_eq. cbn [west south east north].
    destruct Hk as (K1 & K2 & K3 & K4 & _).
    destruct (micro_value _ K1) as (? & -> & _), (micro_value _ K2) as (? & -> & _), (micro_value _ K3) as (? & -> & _), (micro_value _ K4) as (? & -> & _).
    by rewrite !num_le_refl. }
  cbn [negb orb]. by rewrite Ep, Hv.
Qed.
End file.

(** ** Bytes *)

Section bytes.
Context `{!NodeCodecs} `{!ArchiveCodecs} `{!WriterCodecLaws}.

Lemma write_pass_bytes values bytes : write_pass values = Ok bytes -> Forall is_byte bytes.
Proof.
  revert bytes. induction values as [|v values IH]; intros bytes E; cbn [write_pass] in E; [by injection E as <-|].
  apply outcome_bind_ok in E as (a & Ea & E). apply outcome_bind_ok in E as (b & Eb & E). injection E as <-.
  apply Forall_app. split; [|by apply IH]. destruct (Z.ltb_spec v 0) as [Hv|Hv].
  - unfold writeVarint in Ea. destruct (Z.ltb_spec v 0); [discriminate|lia].
  - rewrite writeVarint_varint in Ea by done. injection Ea as <-. by apply varint_bytes.
Qed.

Lemma writeDirectory_bytes es bytes : writeDirectory es = Ok bytes -> Forall is_byte bytes /\ bytes <> [].
Proof.
  unfold writeDirectory. destruct es as [|e es]; [discriminate|]. set (l := e :: es). intros E.
  apply outcome_bind_ok in E as (count & Hcount & E). do 3 apply outcome_bind_ok in E as (? & ?%write_pass_bytes & E).
  apply outcome_bind_ok in E as (? & ?%write_pass_bytes & E). injection E as <-. split; [|apply gzip_not_empty].
  apply gzip_is_bytes. rewrite !Forall_app. split_and!; try done.
  rewrite writeVarint_varint in Hcount by lia. injection Hcount as <-. apply varint_bytes. lia.
Qed.

Lemma linked_bytes groups : forall written leaves pointers, linked written groups leaves pointers -> Forall is_byte (concat leaves).
Proof.
  induction groups as [|g groups IH]; intros written [|leaf leaves] [|p pointers] Hl; try done.
  destruct Hl as (Hw & _ & Hl). cbn [concat]. apply Forall_app. split; [by eapply writeDirectory_bytes|by eapply IH].
Qed.

Lemma sections_bytes T s : T <> [] -> buildDirectorySections T = Ok s ->
  ds_root s <> [] /\ Forall is_byte (ds_root s) /\ Forall is_byte (ds_leaves s).
Proof.
  intros HT Hb. destruct (sections_written T s HT Hb) as [[Hw Hl]|(groups & leaves & pointers & _ & _ & Hl & Hw & El)].
  - apply writeDirectory_bytes in Hw as [? ?]. by rewrite Hl.
  - apply writeDirectory_bytes in Hw as [? ?]. rewrite El. split_and!; [done|done|by eapply linked_bytes].
Qed.

Lemma little_endian_bytes n v : Forall is_byte (little_endian n v).
Proof. unfold little_endian. apply Forall_map, Forall_true. intros i. apply Z.mod_pos_bound. lia. Qed.

Lemma write_fields_bytes fields bytes : Forall (fun f => forall b, f = Ok b -> Forall is_byte b) fields ->
  write_fields fields = Ok bytes -> Forall is_byte bytes.
Proof.
  intros Hf. revert bytes. induction Hf as [|f fields Hf _ IH]; intros bytes E; cbn [write_fields] in E; [by injection E as <-|].
  apply outcome_bind_ok in E as (a & Ea & E). apply outcome_bind_ok in E as (b & Eb & E). injection E as <-.
  apply Forall_app. split; [by apply Hf|by apply IH].
Qed.

Lemma writeHeader_is_bytes h bytes : writeHeader h = Ok bytes -> Forall is_byte bytes.
Proof.
  apply write_fields_bytes. cbn [map app].
  assert (forall n v b, write_unsigned n v = Ok b -> Forall is_byte b) as Hu
    by (intros n v b [_ ->]%write_unsigned_ok; apply little_endian_bytes).
  assert (forall x b, write_position x = Ok b -> Forall is_byte b) as Hp
    by (intros x b (z & ->)%write_position_ok; apply little_endian_bytes).
  repeat constructor; try (intros b; (apply Hu || apply Hp)).
  intros b [= <-]. repeat constructor; by vm_compute.
Qed.
End bytes.

(** ** The package *)

Section package.
Context `{!NodeCodecs} `{!ArchiveCodecs} `{!WriterCodecLaws} `{!ArchiveCodecLaws} `{!MathFunctions} `{!MathLog} `{!PackageDates} `{!JsonText}.

(** What the page is to find at a tile: the row of the area. *)
Definition area_tile (db : Mbtiles) (c : CanonicalOfflinePackageRequest) (z : nat) (x y : Z) : outcome (option (list Z)) :=
  match List.find (row_at z x y) (area_rows db c) with
  | Some r => payload ← tile_content r; Ok (Some payload)
  | None => Ok None
  end.

(** The tiles of the area can be read, and both its zooms have one. *)
Record readable_area (db : Mbtiles) (c : CanonicalOfflinePackageRequest) : Prop := {
  ra_content : Forall (fun r => exists payload, tile_content r = Ok payload /\ payload <> []) (area_rows db c);
  ra_low : exists r, r ∈ area_rows db c /\ zoom_level r = cn_minZoom c;
  ra_high : exists r, r ∈ area_rows db c /\ zoom_level r = cn_maxZoom c;
}.

Lemma find_permuted z x y l l' : l ≡ₚ l' -> NoDup (map row_key l) -> List.find (row_at z x y) l = List.find (row_at z x y) l'.
Proof.
  induction 1 as [|r l l' _ IH|a b l|l l' l'' Hp IH1 _ IH2]; intros Hn; [done| | |].
  - cbn [map List.find] in *. apply NoDup_cons in Hn as [_ Hn]. by rewrite IH.
  - cbn [map List.find] in *. apply NoDup_cons in Hn as [Hnot _]. unfold row_at. do 2 case_bool_decide; try done.
    exfalso. apply Hnot. apply elem_of_cons. left. congruence.
  - rewrite IH1 by done. apply IH2. by rewrite <-Hp.
Qed.

Lemma zoom_range_spec c z : z ∈ zoom_range c <-> cn_minZoom c <= z <= cn_maxZoom c.
Proof. unfold zoom_range. rewrite elem_of_seqZ. lia. Qed.

Lemma area_rows_ok db c r : canonical_area c -> r ∈ area_rows db c ->
  row_ok r /\ cn_minZoom c <= zoom_level r <= cn_maxZoom c /\ r ∈ mb_tiles db.
Proof.
  intros [_ [[Z0 Z1] Z2]] Hr. unfold area_rows in Hr. apply list_elem_of_In, in_concat in Hr as (l & (z & <- & Hz)%in_map_iff & Hr).
  apply list_elem_of_In in Hz, Hr. apply zoom_range_spec in Hz. apply rows_of_zoom_ok in Hr as (-> & ? & ?); [done|lia].
Qed.

Lemma area_keys db c : canonical_area c -> tile_table db -> NoDup (map row_key (area_rows db c)).
Proof.
  intros [_ [[Z0 Z1] Z2]] [Hn _]. apply zooms_unique; [done|apply NoDup_seqZ|]. apply Forall_forall. intros z Hz%zoom_range_spec. lia.
Qed.

Lemma content_nonempty r : (exists payload, tile_content r = Ok payload /\ payload <> []) -> tile_data r <> [].
Proof. intros (p & Ep & Hne) E. unfold tile_content in Ep. rewrite E in Ep. cbn in Ep. by injection Ep as <-. Qed.

(** What a successful writer has put together. *)
Lemma write_archive_inv db c archive : write_archive db c = Ok archive -> exists declared spool compression s fields hb tiles,
  let T := lay_out 0 (sort_by te_tileId (sp_entries spool)) in
  let meta := gzipSync (json_bytes (JObj fields)) in
  take_rows (area_rows db c) {| sp_entries := []; sp_bytes := []; sp_compression := declared |} = Ok spool /\
  sp_compression spool = Some compression /\ buildDirectorySections T = Ok s /\
  writeHeader (archive_header c s (Z.of_nat (length meta)) (foldl Z.add 0 (map te_length T)) (Z.of_nat (length T)) compression) = Ok hb /\
  copy_tiles (sp_bytes spool) T = Ok tiles /\ archive = hb ++ ds_root s ++ meta ++ ds_leaves s ++ tiles.
Proof.
  unfold write_archive. intros (declared & _ & E)%outcome_bind_ok. apply outcome_bind_ok in E as (spool & Hs & E).
  destruct (sp_entries spool) as [|e0 es0] eqn:Ees; [discriminate|]. destruct (sp_compression spool) as [compression|] eqn:Ec; [|discriminate].
  rewrite <-Ees in *. apply outcome_bind_ok in E as (s & Hb & E). apply outcome_bind_ok in E as (meta & Hm & E).
  apply outcome_bind_ok in E as (hb & Hh & E). apply outcome_bind_ok in E as (tiles & Ht & E). apply Ok_inj in E as <-.
  apply outcome_bind_ok in Hm as (fields & _ & Hm). apply Ok_inj in Hm as <-.
  eexists _, spool, compression, s, _, hb, tiles. cbv zeta. split_and!; try done.
Qed.
(** The rows, in the order of the directory, and the archive as it was assembled. *)
Lemma written_archive db c archive : canonical_area c -> within_reader (cn_bbox c) -> tile_table db -> readable_area db c ->
  write_archive db c = Ok archive -> Z.of_nat (length archive) <= MAX_SAFE_INTEGER ->
  Forall is_byte archive /\ (exists h, validateLocalPmtilesArchive archive (cn_bbox c) (cn_minZoom c) (cn_maxZoom c) = Ok h) /\
  forall z x y, tile archive z x y = area_tile db c z x y.
Proof.
  intros Hc Hreader Hdb [Hread Hlow Hhigh] (declared & spool & compression & s & fields & hb & tiles & Ht & Ec & Hb & Hh & Hcopy & ->)%write_archive_inv Hsize.
  set (meta := gzipSync (json_bytes (JObj fields))) in *.
  destruct (take_rows_entries _ _ _ Ht) as (es & rest & Ees & _ & Hes & Hdet & _). cbn [sp_entries app] in Ees. rewrite <-Ees in Hes. clear Ees es rest.
  destruct (sorted_entries _ _ _ Hes) as (area & Hp & Harea). set (taken := sp_entries spool) in *.
  pose proof (place_entries _ 0 _ _ Harea) as HT. set (T := lay_out 0 (sort_by te_tileId taken)) in *.
  assert (Hin : forall r, r ∈ area <-> r ∈ area_rows db c) by (intros r; by rewrite Hp).
  assert (Hall : Forall row_ok area /\ Forall (fun r => cn_minZoom c <= zoom_level r <= cn_maxZoom c) area /\
    Forall (fun r => Forall is_byte (tile_data r)) area).
  { pose proof (tt_bytes _ Hdb) as Hbytes. rewrite !Forall_forall in *. split_and!; intros r Hr; apply Hin, (area_rows_ok db c) in Hr as (? & ? & ?); auto. }
  destruct Hall as (Hok & Hzooms & Hbytes).
  assert (Hkeys : NoDup (map row_key area)) by (rewrite Hp; by apply area_keys).
  rewrite <-Hp in Hread, Hdet. assert (Hdata : Forall (fun r => tile_data r <> []) area).
  { eapply Forall_impl; [exact Hread|]. intros r. apply content_nonempty. }
  pose proof (copy_tiles_concat _ _ _ _ HT Hcopy) as Etiles. pose proof (placed_end 0 _ _ _ Harea) as [_ Elen].
  fold T in Elen. rewrite Elen, <-Etiles, Z.add_0_l in Hh.
  assert (Hne : area <> []) by (destruct Hlow as (r & Hr%Hin & _); intros Ea; rewrite Ea in Hr; by apply not_elem_of_nil in Hr).
  pose proof (Forall2_length _ _ _ HT) as Hcount.
  destruct (sections_bytes T s) as (Hroot & Hrootb & Hleaves); [intros E; rewrite E in Hcount; by destruct area|done|].
  assert (Hcomp : Forall (fun r => compression = detectedTileCompression (tile_data r)) area).
  { eapply Forall_impl; [exact Hdet|]. intros r. cbn. rewrite Ec. by intros [= <-]. }
  assert (Hcomp2 : compression = NONE \/ compression = GZIP).
  { destruct area as [|r area']; [done|]. apply Forall_cons in Hcomp as [-> _]. unfold detectedTileCompression. repeat case_match; auto. }
  assert (Hmany : (length area <= length tiles)%nat).
  { rewrite Etiles. clear -Hdata. induction Hdata as [|r area Hr _ IH]; [done|]. cbn [map concat length]. rewrite length_app.
    destruct (tile_data r); [done|cbn [length]; lia]. }
  assert (0 < length area)%nat by (destruct area; [done|cbn; lia]).
  assert (Htiles : tiles <> []) by (intros E; rewrite E in Hmany; cbn in Hmany; lia).
  assert (Hmeta : meta <> []) by apply gzip_not_empty.
  assert (Hmetab : Forall is_byte meta) by apply gzip_is_bytes, json_is_bytes.
  assert (Hn : 0 < Z.of_nat (length T) <= MAX_SAFE_INTEGER) by (rewrite !length_app in Hsize; lia).
  assert (Hfile : Forall is_byte (hb ++ ds_root s ++ meta ++ ds_leaves s ++ tiles)).
  { rewrite !Forall_app. split_and!; try done; [by eapply writeHeader_is_bytes|]. rewrite Etiles. by apply Forall_concat, Forall_map. }
  destruct Hlow as (low & Hlow%Hin & El), Hhigh as (high & Hhigh%Hin & Eh).
  split; [done|]. split.
  - eexists. eapply file_accepted; try done. eapply file_valid; try done; [by exists low|by exists high].
  - intros z x y. unfold area_tile. rewrite <-(find_permuted z x y _ _ Hp Hkeys). eapply file_tile; done.
Qed.
(** What a package that has been generated consists of. *)
Lemma generate_package_inv maxPackageBytes db c generatedAt archive m :
  generate_package maxPackageBytes db c generatedAt = Ok (archive, m) ->
  write_archive db c = Ok archive /\ offlineMapPackageManifestSchema m = true /\
  ar_byteLength m = Z.of_nat (length archive) /\ ar_sha256 m = FIPS.hash_hex archive /\
  cov_bbox m = cn_bbox c /\ cov_minZoom m = cn_minZoom c /\ cov_maxZoom m = cn_maxZoom c.
Proof.
  unfold generate_package, extractPmtilesPackage. intros ([written result] & Hx & E)%outcome_bind_ok.
  apply outcome_bind_ok in Hx as (bytes & Hw & Hx). apply outcome_bind_ok in Hx as (inspected & Hi & Hx). injection Hx as <- <-.
  destruct (_ <? _) in E; [discriminate|]. destruct (_ || _) in E; [discriminate|].
  apply outcome_bind_ok in E as (m' & Hm & E). injection E as <- <-.
  unfold validateOfflineMapPackageManifest in Hm. destruct (offlineMapPackageManifestSchema _) eqn:Hschema in Hm; [|discriminate].
  apply Ok_inj in Hm as <-. split; [done|]. split; [done|]. unfold inspectPmtiles in Hi.
  do 5 apply outcome_bind_ok in Hi as (? & _ & Hi). apply outcome_bind_ok in Hi as (? & _ & Hi). apply Ok_inj in Hi as <-.
  by split_and!.
Qed.

(** C15: whatever package the server generates for an accepted request, the page accepts:
    the manifest satisfies its schema and names the archive by length and digest, the
    archive passes the page's check of header, directories and counts, and the page
    answers every tile as the tables of the server do, and no tile besides.  This is of
    an area within the latitudes the reader allows ([within_reader]), tables with one
    row of bytes for a tile ([tile_table]), an area whose tiles decompress to something
    and that has a tile at both its zooms ([readable_area]), and codecs that undo each
    other. *)
Theorem a_generated_package_serves_its_tiles raw rq src c db maxPackageBytes generatedAt archive m :
  parseOfflinePackageRequest raw = Ok rq -> canonicalizeOfflinePackageRequest rq src = Ok c ->
  within_reader (cn_bbox c) -> tile_table db -> readable_area db c ->
  generate_package maxPackageBytes db c generatedAt = Ok (archive, m) ->
  offlineMapPackageManifestSchema m = true /\ names_archive m archive /\
  forall z x y, tile archive z x y = area_tile db c z x y.
Proof.
  intros Hp Hcanon Hreader Hdb Harea (Hw & Hschema & El & Es & E1 & E2 & E3)%generate_package_inv.
  pose proof (manifest_length m Hschema) as [_ Hlen]. rewrite El in Hlen.
  destruct (written_archive db c archive) as (Hbytes & Hvalid & Htiles); try done; [by eapply canonicalized_area|].
  split; [done|]. split; [|done]. split; try done. unfold archive_valid. by rewrite E1, E2, E3.
Qed.
End package.

(** ** A village of three tiles *)

#[export] Instance sample_node_codecs : NodeCodecs := {
  gzipSync b := 31 :: 139 :: b;
  gunzipSync b := Ok (drop 2 b);
  parse_text _ := Ok (JObj []);
  json_bytes _ := [123; 125];
}.

(** The browser's decompressor takes the two bytes of the magic number off. *)
#[local] Instance stripping_codecs : ArchiveCodecs := {
  gunzip bytes := Ok (map (fun b => b mod 256) (drop 2 bytes));
  parse_json _ := Ok (JObj []);
}.

Lemma stripping_laws : WriterCodecLaws.
Proof.
  split.
  - intros b Hb. cbn. f_equal. induction Hb as [|x b Hx _ IH]; [done|]. cbn [map drop skipn] in *. f_equal; [by apply Z.mod_small|exact IH].
  - done.
  - intros b Hb. cbn. repeat constructor; done.
  - done.
  - intros j. cbn. repeat constructor; done.
  - intros fields. by exists [].
Qed.

Lemma stripping_codec_laws : ArchiveCodecLaws.
Proof. constructor. intros bytes data [= <-]. apply Forall_map, Forall_true. intros. apply Z.mod_pos_bound. lia. Qed.

#[local] Instance sample_log : MathLog := { math_log _ := 0%num }.

Definition village_request : OfflinePackageRequest := {|
  rq_bbox := {| west := num_of_Z 1; south := num_of_Z (-1); east := literal 97 10; north := num_of_Z 1 |};
  rq_minZoom := num_of_Z 0; rq_maxZoom := num_of_Z 2; rq_provider := "openmapx" |}.

(** Three tiles of the area, not in the order of their numbers, and one beside it. *)
Definition village_tiles : Mbtiles := {|
  mb_metadata := [("format", "pbf"); ("compression", "GZip")]%string;
  mb_tiles := [{| zoom_level := 2; tile_column := 2; tile_row := 1; tile_data := [31; 139; 10] |};
               {| zoom_level := 1; tile_column := 1; tile_row := 0; tile_data := [31; 139; 8; 9] |};
               {| zoom_level := 1; tile_column := 0; tile_row := 0; tile_data := [31; 139; 3] |};
               {| zoom_level := 0; tile_column := 0; tile_row := 0; tile_data := [31; 139; 7] |}] |}.

Definition village : outcome CanonicalOfflinePackageRequest := canonicalizeOfflinePackageRequest village_request planet_source.

Definition village_area : CanonicalOfflinePackageRequest :=
  match village with
  | Ok c => c
  | Throw _ => {| cn_request := village_request; cn_bbox := rq_bbox village_request; cn_minZoom := 0; cn_maxZoom := 0;
                  cn_source := planet_source; cn_requestKey := "" |}
  end.

Lemma village_table : tile_table village_tiles.
Proof.
  split; cbn.
  - apply (bool_decide_unpack _). vm_compute. done.
  - repeat constructor; done.
Qed.

Lemma village_readable : readable_area village_tiles village_area.
Proof.
  split.
  - vm_compute. repeat constructor; eexists; (split; [reflexivity|discriminate]).
  - eexists. split; [vm_compute; left|vm_compute; reflexivity].
  - eexists. split; [vm_compute; right; right; left|vm_compute; reflexivity].
Qed.

Lemma a_generated_package_serves_its_tiles_witness : exists archive m,
  generate_package 1000 village_tiles village_area "2026-01-01T00:00:00Z" = Ok (archive, m) /\ names_archive m archive /\
  tile archive 1 1 1 = Ok (Some [8; 9]) /\ tile archive 1 0 1 = Ok None.
Proof.
  assert (match generate_package 1000 village_tiles village_area "2026-01-01T00:00:00Z" with Ok _ => true | Throw _ => false end = true)
    as Hok by (vm_compute; reflexivity).
  destruct (generate_package 1000 village_tiles village_area "2026-01-01T00:00:00Z") as [[archive m]|e] eqn:Hg; [clear Hok|discriminate].
  assert (parseOfflinePackageRequest village_request = Ok village_request) as H1 by (vm_compute; reflexivity).
  assert (canonicalizeOfflinePackageRequest village_request planet_source = Ok village_area) as H2 by (vm_compute; reflexivity).
  assert (within_reader (cn_bbox village_area)) as H3 by (split; vm_compute; reflexivity).
  pose proof (@a_generated_package_serves_its_tiles _ _ stripping_laws stripping_codec_laws _ _ _ _
    village_request village_request planet_source village_area village_tiles 1000 "2026-01-01T00:00:00Z" archive m
    H1 H2 H3 village_table village_readable Hg) as (_ & Hnames & Htiles).
  exists archive, m. split; [reflexivity|]. split; [exact Hnames|]. rewrite !Htiles. split; vm_compute; reflexivity.
Defined.

